(* ===== verification/_CoqProject ===== *)
-Q . S2P
Prelude.v
Bits.v
BitMisc.v
Elf.v
Relaxation.v
AArch64.v
RiscV64.v
LoongArch64.v
Ppc64.v
X86_64.v
Reloc.v
ValueFlags.v
Symbols.v
Relr.v
RelocValue.v
Alignment.v
PartMap.v
Layout.v
Thunks.v
Trie.v
Expressions.v
Resolution.v
StringMerge.v
MergeTasks.v
Parsers.v
ScriptExpressions.v
ScriptPrint.v
ScriptParser.v
ScriptInputs.v
VersionScript.v
VersionParser.v
SymbolVersions.v
HashTables.v
SectionRules.v
ScriptSections.v
Segments.v
OutputOrder.v
ElfOrder.v
