(* ===== verification/Prelude.v ===== *)
(** Verification of the jdxld linker.

    The linker ([src/libjdxld]) reads object files and archives, chooses a definition for
    every symbol and the archive entries to load, merges strings, lays out the output
    sections and writes the output, applying relocations with the instruction tables of
    [src/linker-utils].  This development models the parts of it that compute, in the order
    in which a link runs them, and proves what the next part relies on.

    * The parts

    - Base: this file (outcomes, machine integers, little-endian words, slices, loops),
      [Bits] (bit-vector equations by reflection), [BitMisc] (bit_misc.rs, utils.rs).
    - Symbols: [ValueFlags] (value_flags.rs: flags of a symbol and their atomic updates),
      [Symbols] (symbol_db.rs: names in hash buckets, choice among alternative definitions),
      [Resolution] (resolution.rs: references, archive entries, undefined symbols; the
      tasks of the thread pool are a step relation).
    - Merging: [StringMerge] (string_merging.rs: grouping, both phases, the merged section)
      and [MergeTasks] (its tasks, the pool of vectors and the slots under any schedule).
    - Layout: [Alignment], [PartMap] (output_section_part_map.rs, part_id.rs), [Layout]
      (compute_layout_sections of layout.rs), [Expressions] (expression_eval.rs and the
      expressions of linker_script.rs, and how layout evaluates script symbols), [Thunks]
      (thunks.rs: range-extension thunks).
    - Linker scripts: [Parsers] (parsers of text, with the crate they are built from as a
      class), [ScriptExpressions] (expressions), [ScriptPrint] (expressions written out and
      read back), [ScriptParser] (every command of a script), [ScriptInputs] (the inputs of a
      script); all of linker_script.rs.  The expressions read here are those that
      [Expressions] evaluates.
    - Output sections and their order: [SectionRules] (layout_rules.rs: the rules that map
      input sections to output sections, and those of ELF in elf.rs), [ScriptSections]
      (process_linker_script of layout_rules.rs and the table of output_section_id.rs: what a
      parsed script adds), [Segments] (the segments and built-in sections of elf.rs),
      [OutputOrder] (OutputOrderBuilder of output_section_id.rs: the events that [Layout] runs
      over), [ElfOrder] (the order of an ELF file).
    - Versions and dynamic symbols: [VersionScript] (version_script.rs, glob_match.rs: the
      rules of a version script and the lookup of a name), [VersionParser] (the parsers of
      version scripts and of export_list.rs), [SymbolVersions] (how a script applies to the
      symbols of [Symbols], and the version definitions as elf.rs sizes and elf_writer.rs
      writes them), [HashTables] (.gnu.hash and .hash: sizes of elf.rs, writers of
      elf_writer.rs).
    - Instructions and relocations: [Elf] (the vocabulary of linker-utils/src/elf.rs),
      [AArch64], [RiscV64], [LoongArch64], [Ppc64], [X86_64] (one file per architecture:
      relocation table, encoder, decoder, relaxations), [Reloc] (the write of a relocation
      over all architectures), [RelocValue] (apply_relocation of elf_writer.rs: the value
      of a relocation), [Relaxation] (relaxation.rs: deleted bytes and offset translation),
      [Relr] (RELR packing of elf.rs and elf_writer.rs).
    - Mach-O: [Trie] (trie.rs: the exports trie).

    The files call each other as the source does: [RelocValue] uses the tables through
    [Reloc], [Thunks] gives it the thunk of a branch, [Layout] takes the evaluation of an
    expression as an argument which [Expressions] provides, [Resolution] works on the name
    table of [Symbols], [ScriptSections] turns what [ScriptParser] reads into the rules of
    [SectionRules] and the table that [OutputOrder] orders, and the flags of [ValueFlags] are shared.  Third-party code enters
    as a parameter: the hash function, the capacity of a block of the offset map, the LEB128
    encoder (the class [Trie.Leb128] with its laws), the parser combinators (the class
    [Parsers.Winnow] with its laws), globs and demangling (the class [VersionScript.Names]),
    the hash table of section rules (the class [SectionRules.RuleTable] with its laws), the
    two ELF hash functions, what the [object] crate reads from a file (records such
    as [Symbols.SymbolAttributes]).  A file or a symbol is the record of
    what the modelled code asks of it.

    * The conventions

    A function that can fail returns [res]: [Err] with the format string of the message, or
    [Panic] where the program would panic (index out of range, [unwrap], [unreachable!]).
    Integers are [Z] at the width of the code, with the wrap-around of the release profile
    written out ([wadd], [wshl], ...); [debug_assert!] is not evaluated.  Counters and indices
    that count elements in memory do not wrap.  Loops are structural, or have fuel that is
    proved to be enough.  Work that runs in a thread pool is a step relation on a state with
    the tasks that are left, so a theorem about every run covers every schedule; within a
    step, the operations of one atomic or one lock are taken to be atomic and memory to be
    sequentially consistent, except for [ValueFlags.fetch_or_step], which follows the
    modification order of one atomic.

    * What the theorems show

    - Layout: the ranges of the parts in the file and in memory do not overlap (thread-local
      zero-initialised data apart, which the code overlaps on purpose) and file offsets are
      congruent to addresses modulo the segment alignment.  Assumed: the costs of the events
      sum to at most 2^62 and evaluated addresses are below 2^48; for congruence also no memory
      regions, final output, and loadable segments with only data and [.tbss] in them.
    - Symbols: the definition of a name is the strongest by the linker's rules whatever the
      bucket order, and the same under every interleaving.  Assumed: the groups of
      alternatives are disjoint (the finding [overlapping_groups_race] shows what happens if
      not), and no versions in [names_resolve].
    - Resolution: the archive entries loaded are exactly those that can be reached from the
      loaded files by references, under every schedule; every schedule ends, without a
      panic if the input is well formed ([link_wf]: ids, files and tables fit together), and
      the bounded queue of loaded files never overflows; the outcome does not depend on the
      schedule.
    - String merging: the groups have all strings once; under every schedule the buckets are
      those of a sequential merge, no task panics, no bucket is left waiting, and the written
      section has every string where the lookup says.  Assumed: strings shorter than
      2^32 - 2^28 bytes, sections that are not empty (the resolution discards empty ones).
    - Expressions: evaluation inside a section commutes with the place of the section; the
      recursion through script symbols is cut (it is never deeper than one more than the
      number of symbols: what running out of that fuel would answer is a parameter on which no
      result depends); constants evaluate the same early and late.
    - Linker scripts: the parser ends on every input without a panic and what it returns is
      well formed; the fuel is one more than the length of the input, which is enough because
      every recursion and every turn of a loop has consumed input; what is written out with
      the parentheses its precedence needs is read back.
    - Section rules: a lookup gives the outcome of a matching rule, and the custom outcome only
      if there is none, where the first four bytes of the patterns stand for themselves (the
      finding [glob_rule_missed] shows the others); the rules of ELF give the same for every
      order of the hash table, .data.rel.ro apart.
    - Sections of scripts and their order: the ranges of location counters that a script gives
      to its sections have no gap and no overlap (one SECTIONS command, no section defined
      twice); the order of an ELF file has every section once and sets a location counter as
      often as ranges have it; a section is placed while exactly the segments are active that
      include it, one load segment among them if it is allocated.  At most 256 segments fit;
      more are a panic, as in the code.
    - Version scripts: a lookup finds the first version with an exact rule for the name, or
      else the last with a pattern without a star, with a star, with the match-all rule; the
      parser ends without a panic on texts whose blocks are closed ([closed_blocks]; an open
      [extern] block makes the code loop for ever) and numbers versions and parents
      consistently; the fast path for Rust gives the symbols the flags that the general path
      gives (thread-local symbols apart).
    - Version tables and hash tables: following the chains of [.gnu.version_d] reads the names,
      numbers and parents of the script back, and every version given to a symbol is defined
      there; a loader finds in [.gnu.hash] and [.hash] exactly the symbols that are defined.
    - Thunks: every branch that can be out of reach has a thunk in its block, blocks are
      within the branch range backwards, and forwards within the range and the distance
      between the ends of two neighbouring objects; the instructions go to the target.
    - Relocations: what an instruction decodes to after a write is the value written, pairs
      of high and low parts add up to the target, range checks reject the rest, bits outside
      the field are kept (the LoongArch row [R_LARCH_B16] is read back right only below 2^14,
      and AArch64 fields are ORed in and have to start out zero); tables are well formed; relaxations keep to their window.
    - Relaxation, RELR, trie: translation of offsets, packing and encoding round-trip; the trie
      fits the space reserved for it before its addresses are known.

    * What is not modelled

    The manifest lists every part.  Not modelled: the parts of layout that count sizes, which
    call back into every format; the order under program headers of a script (PHDRS) and the
    priorities of init and fini sections; garbage collection of sections; the other tables of the ELF writer (symbol tables,
    dynamic section, needed versions, notes, unwind and debug information), field by field
    copies into mapped memory; the drivers of the architectures, mostly tables; the Mach-O and
    WebAssembly backends other than the exports trie; the parser of command-line arguments;
    input files and file system, diagnostics and tracing, which are I/O; linker plugins (a
    build option); the diff tool and the other tools around the linker. *)
From Stdlib Require Import ZArith Lia.
From stdpp Require Import base list list_numbers numbers strings option.

(** ** Outcomes

    [Ok a] is a normal return, [Err msg] a [Result::Err] whose message has the
    given format string, [Panic] a Rust panic (slice index out of range,
    [unwrap] on [None], [unreachable!], ...). *)
Inductive res (A : Type) : Type :=
| Ok (a : A)
| Err (msg : string)
| Panic.
Arguments Ok {A} a.
Arguments Err {A} msg.
Arguments Panic {A}.

#[export] Instance res_ret : MRet res := fun A a => Ok a.
#[export] Instance res_bind : MBind res := fun A B f m =>
  match m with
  | Ok a => f a
  | Err e => Err e
  | Panic => Panic
  end.
#[export] Instance res_fmap : FMap res := fun A B f m =>
  match m with
  | Ok a => Ok (f a)
  | Err e => Err e
  | Panic => Panic
  end.

Definition ensure (b : bool) (msg : string) : res unit :=
  if b then Ok tt else Err msg.

Definition is_Ok {A} (m : res A) : Prop := exists a, m = Ok a.

Definition is_Err {A} (m : res A) : Prop := exists e, m = Err e.

Definition no_panic {A} (m : res A) : Prop :=
  match m with Panic => False | _ => True end.

(** ** Machine integers

    A [w]-bit unsigned integer is a [Z] in [[0, 2^w)].  Arithmetic follows the
    release profile: [+], [-] and [<<] wrap, a shift amount is taken modulo
    the width, and [debug_assert!] is not evaluated. *)
Section MachineIntegers.
Local Open Scope Z_scope.

Definition wrap (w x : Z) : Z := x mod 2 ^ w.
Definition signed (w x : Z) : Z :=
  if wrap w x <? 2 ^ (w - 1) then wrap w x else wrap w x - 2 ^ w.

Definition wadd (w x y : Z) : Z := wrap w (x + y).
Definition wsub (w x y : Z) : Z := wrap w (x - y).
Definition wmul (w x y : Z) : Z := wrap w (x * y).
Definition wshl (w x n : Z) : Z := wrap w (Z.shiftl x (n mod w)).
Definition wshr (w x n : Z) : Z := Z.shiftr x (n mod w).
Definition wnot (w x : Z) : Z := wrap w (Z.lnot x).

Definition in_u (w x : Z) : Prop := 0 <= x < 2 ^ w.
Definition in_i (w x : Z) : Prop := - 2 ^ (w - 1) <= x < 2 ^ (w - 1).

Lemma wrap_range w x : 0 <= w -> in_u w (wrap w x).
Proof. intros; apply Z.mod_pos_bound; apply Z.pow_pos_nonneg; lia. Qed.

Lemma wrap_small w x : in_u w x -> wrap w x = x.
Proof. apply Z.mod_small. Qed.

Lemma wrap_wrap w x : 0 <= w -> wrap w (wrap w x) = wrap w x.
Proof. intros; apply Z.mod_mod; apply Z.pow_nonzero; lia. Qed.

Lemma in_u_width w x : in_u w x -> 0 <= w.
Proof.
  intros [? ?]. destruct (decide (0 <= w)); [done|].
  rewrite Z.pow_neg_r in * by lia. lia.
Qed.

Lemma testbit_wrap w x i :
  0 <= w -> Z.testbit (wrap w x) i = if decide (i < w) then Z.testbit x i else false.
Proof.
  intros Hw. unfold wrap. case_decide.
  - by rewrite Z.mod_pow2_bits_low by lia.
  - destruct (decide (0 <= i)).
    + by rewrite Z.mod_pow2_bits_high by lia.
    + lia.
Qed.

Lemma in_u_land w x y : in_u w x -> in_u w (Z.land x y).
Proof.
  intros H. pose proof (in_u_width _ _ H). destruct H as [Hx Hx'].
  assert (Z.land x y = wrap w (Z.land x y)) as ->; [|apply wrap_range; lia].
  apply Z.bits_inj'; intros i Hi. rewrite testbit_wrap by lia.
  case_decide; [done|].
  rewrite Z.land_spec, <- (Z.mod_small x (2 ^ w)) by lia.
  by rewrite Z.mod_pow2_bits_high by lia.
Qed.

Lemma in_u_land_r w x y : in_u w y -> in_u w (Z.land x y).
Proof. rewrite Z.land_comm. apply in_u_land. Qed.

Lemma in_u_lor w x y : in_u w x -> in_u w y -> in_u w (Z.lor x y).
Proof.
  intros H [Hy Hy']. pose proof (in_u_width _ _ H). destruct H as [Hx Hx'].
  assert (Z.lor x y = wrap w (Z.lor x y)) as ->; [|apply wrap_range; lia].
  apply Z.bits_inj'; intros i Hi. rewrite testbit_wrap by lia.
  case_decide; [done|].
  rewrite Z.lor_spec, <- (Z.mod_small x (2 ^ w)), <- (Z.mod_small y (2 ^ w)) by lia.
  by rewrite !Z.mod_pow2_bits_high by lia.
Qed.

Lemma in_u_shiftr w x n : in_u w x -> 0 <= n -> in_u w (Z.shiftr x n).
Proof.
  intros [Hx Hx'] Hn. rewrite Z.shiftr_div_pow2 by lia. split.
  - apply Z.div_pos; [lia|]. apply Z.pow_pos_nonneg; lia.
  - apply Z.le_lt_trans with x; [|lia].
    apply Z.div_le_upper_bound; [apply Z.pow_pos_nonneg; lia|].
    assert (0 < 2 ^ n) by (apply Z.pow_pos_nonneg; lia). nia.
Qed.

Lemma signed_range w x : 0 < w -> in_i w (signed w x).
Proof.
  intros Hw. unfold signed, in_i. pose proof (wrap_range w x ltac:(lia)) as [? ?].
  assert (2 ^ w = 2 * 2 ^ (w - 1)).
  { rewrite <- Z.pow_succ_r by lia. f_equal. lia. }
  case_match eqn:E; [apply Z.ltb_lt in E | apply Z.ltb_ge in E]; lia.
Qed.

Lemma signed_wrap w x : 0 < w -> wrap w (signed w x) = wrap w x.
Proof.
  intros Hw. unfold signed. case_match; [by apply wrap_wrap; lia|].
  unfold wrap at 1. replace (wrap w x - 2 ^ w) with (wrap w x + (-1) * 2 ^ w) by lia.
  rewrite Z.mod_add by (apply Z.pow_nonzero; lia). apply wrap_wrap; lia.
Qed.

Lemma signed_of_signed w x : 0 < w -> in_i w x -> signed w x = x.
Proof.
  intros Hw [Hl Hu]. unfold signed.
  assert (2 ^ w = 2 * 2 ^ (w - 1)) as Hp.
  { rewrite <- Z.pow_succ_r by lia. f_equal. lia. }
  assert (0 < 2 ^ (w - 1)) by (apply Z.pow_pos_nonneg; lia).
  destruct (decide (0 <= x)).
  - rewrite !(wrap_small w x) by (unfold in_u; lia).
    by rewrite (proj2 (Z.ltb_lt _ _)) by lia.
  - assert (wrap w x = x + 2 ^ w) as ->.
    { unfold wrap. rewrite <- (Z.mod_add x 1) by lia. rewrite Z.mul_1_l.
      apply Z.mod_small. lia. }
    rewrite (proj2 (Z.ltb_ge _ _)) by lia. lia.
Qed.

(** Two [w]-bit integers are equal when their bits below [w] are. *)
Lemma bits_eq_below w x y :
  in_u w x -> in_u w y ->
  Forall (fun i => Z.testbit x i = Z.testbit y i) (seqZ 0 w) -> x = y.
Proof.
  intros H [Hy Hy'] Hall. pose proof (in_u_width _ _ H). destruct H as [Hx Hx']. apply Z.bits_inj'; intros i Hi.
  destruct (decide (i < w)).
  - rewrite List.Forall_forall in Hall. apply Hall, list_elem_of_In, elem_of_seqZ. lia.
  - rewrite <- (Z.mod_small x (2 ^ w)), <- (Z.mod_small y (2 ^ w)) by lia.
    by rewrite !Z.mod_pow2_bits_high by lia.
Qed.

Lemma testbit_small w x i : in_u w x -> w <= i -> Z.testbit x i = false.
Proof.
  intros H Hi. pose proof (in_u_width _ _ H).
  rewrite <- (Z.mod_small x (2 ^ w)) by apply H. by rewrite Z.mod_pow2_bits_high by lia.
Qed.

Lemma in_u_weaken a b x : in_u a x -> a <= b -> in_u b x.
Proof.
  intros H Hab. pose proof (in_u_width _ _ H). destruct H. split; [done|].
  apply Z.lt_le_trans with (2 ^ a); [done|]. apply Z.pow_le_mono_r; lia.
Qed.

Lemma in_u_shiftl a n x : in_u a x -> 0 <= n -> in_u (a + n) (Z.shiftl x n).
Proof.
  intros H Hn. pose proof (in_u_width _ _ H). destruct H as [Hl Hu].
  rewrite Z.shiftl_mul_pow2 by done. unfold in_u. rewrite Z.pow_add_r by lia.
  assert (0 < 2 ^ n) by (apply Z.pow_pos_nonneg; lia). nia.
Qed.

Lemma in_u_shiftl_sub w x n : in_u (w - n) x -> 0 <= n -> in_u w (Z.shiftl x n).
Proof. intros. replace w with (w - n + n) by lia. by apply in_u_shiftl. Qed.

Lemma wshl_small w x n : in_u (w - n) x -> 0 <= n < w -> wshl w x n = Z.shiftl x n.
Proof.
  intros Hx Hn. unfold wshl. rewrite (Z.mod_small n) by lia. apply wrap_small.
  replace w with (w - n + n) by lia. apply in_u_shiftl; [done|lia].
Qed.

(** Disjoint bits add up. *)
Lemma lor_shiftl_add s x y : in_u s x -> Z.lor x (Z.shiftl y s) = x + y * 2 ^ s.
Proof.
  intros Hx. pose proof (in_u_width _ _ Hx).
  rewrite <- Z.shiftl_mul_pow2 by done. symmetry. apply Z.add_nocarry_lor.
  apply Z.bits_inj'; intros i Hi. rewrite Z.land_spec, Z.shiftl_spec, Z.testbit_0_l by done.
  destruct (decide (i < s)); [rewrite (Z.testbit_neg_r y) by lia; apply andb_false_r|].
  by rewrite (testbit_small s x) by (done || lia).
Qed.

(** A value of [n] bits is its own masking; rewriting with it right to left
    lets [bits] see the width of a variable. *)
Lemma masked n x : in_u n x -> Z.land x (Z.ones n) = x.
Proof. intros H. rewrite Z.land_ones by (by eapply in_u_width). by apply wrap_small. Qed.

Lemma unmasked n x m : in_u n x -> Z.land x m = 0 -> Z.land x (Z.lnot m) = x.
Proof.
  intros Hx H0. apply Z.bits_inj'; intros i Hi.
  apply (f_equal (fun z => Z.testbit z i)) in H0.
  rewrite Z.land_spec, Z.testbit_0_l in H0.
  rewrite Z.land_spec, Z.lnot_spec by done.
  by destruct (Z.testbit x i), (Z.testbit m i).
Qed.

End MachineIntegers.

(** [in_range] proves [in_u w x] for a term built from bit operations over
    constants and variables whose range is a hypothesis. *)
Ltac in_range :=
  lazymatch goal with
  | |- in_u ?w (wrap ?w _) => apply wrap_range; lia
  | |- in_u ?w (wrap ?w' ?x) => apply (in_u_weaken w' w); [apply wrap_range; lia | lia]
  | |- in_u ?w (wadd ?w _ _) => apply wrap_range; lia
  | |- in_u ?w (wsub ?w _ _) => apply wrap_range; lia
  | |- in_u ?w (wmul ?w _ _) => apply wrap_range; lia
  | |- in_u ?w (wnot ?w _) => apply wrap_range; lia
  | |- in_u ?w (wshl ?w _ _) => apply wrap_range; lia
  | |- in_u ?w (wshr ?w' _ ?n) =>
      apply in_u_shiftr; [in_range | apply Z.mod_pos_bound; lia]
  | |- in_u ?w (Z.lor _ _) => apply in_u_lor; in_range
  | |- in_u ?w (Z.land ?a ?b) =>
      first [ solve [apply in_u_land_r; in_range] | apply in_u_land; in_range ]
  | |- in_u ?w (Z.shiftr _ _) => apply in_u_shiftr; [in_range|lia]
  | |- in_u ?w (Z.shiftl ?x ?n) =>
      apply (in_u_shiftl_sub w x n);
      [ let d := eval vm_compute in (w - n)%Z in change (w - n)%Z with d; in_range | lia ]
  | |- in_u ?w (if ?b then _ else _) => destruct b; in_range
  | |- in_u ?w (Z.ones _) => solve [split; vm_compute; congruence]
  | |- in_u ?w ?x =>
      first [ assumption
            | match goal with H : in_u ?a x |- _ => apply (in_u_weaken a w x H); lia end
            | unfold in_u; lia ]
  end.

Create HintDb ranges.
#[export] Hint Extern 0 (in_u _ _) => solve [in_range] : ranges.

(** ** Bytes, slices and little-endian words *)
Section Bytes.
Local Open Scope Z_scope.

Definition byte_ok (b : Z) : Prop := in_u 8 b.
Definition bytes_ok (l : list Z) : Prop := Forall byte_ok l.

(** [x.to_le_bytes()] of an [n]-byte integer. *)
Fixpoint le_bytes (n : nat) (x : Z) : list Z :=
  match n with
  | O => []
  | S n => wrap 8 x :: le_bytes n (Z.shiftr x 8)
  end.

(** [uN::from_le_bytes(bytes)]. *)
Fixpoint le_val (l : list Z) : Z :=
  match l with
  | [] => 0
  | b :: l => b + 256 * le_val l
  end.

Lemma length_le_bytes n x : length (le_bytes n x) = n.
Proof. revert x; induction n; intros; simpl; auto. Qed.

Lemma bytes_ok_le_bytes n x : bytes_ok (le_bytes n x).
Proof.
  revert x; induction n; intros; simpl; constructor; [|apply IHn].
  apply wrap_range; lia.
Qed.

Lemma le_val_bound l : bytes_ok l -> in_u (8 * Z.of_nat (length l)) (le_val l).
Proof.
  induction 1 as [|b l Hb Hl IH]; [done|].
  cbn [length le_val]. unfold byte_ok, in_u in *.
  replace (8 * Z.of_nat (S (length l))) with (8 + 8 * Z.of_nat (length l)) by lia.
  rewrite Z.pow_add_r by lia. lia.
Qed.

Lemma le_val_le_bytes n x : le_val (le_bytes n x) = wrap (8 * Z.of_nat n) x.
Proof.
  revert x; induction n as [|n IH]; intros.
  - unfold wrap. cbn. by rewrite Z.mod_1_r.
  - cbn [le_bytes le_val]. rewrite IH. unfold wrap.
    replace (8 * Z.of_nat (S n)) with (8 + 8 * Z.of_nat n) by lia.
    rewrite Z.pow_add_r, Z.shiftr_div_pow2 by lia.
    rewrite Z.rem_mul_r; [lia|done|apply Z.pow_pos_nonneg; lia].
Qed.

Lemma le_bytes_le_val l : bytes_ok l -> le_bytes (length l) (le_val l) = l.
Proof.
  induction 1 as [|b l Hb Hl IH]; [done|].
  cbn [length le_bytes le_val]. unfold byte_ok, in_u in Hb. f_equal.
  - unfold wrap. rewrite Z.mul_comm, Z.mod_add by done. by apply Z.mod_small.
  - rewrite Z.shiftr_div_pow2 by lia.
    rewrite Z.mul_comm, Z.div_add, Z.div_small by (done || lia). apply IH.
Qed.

Lemma le_bytes_wrap n x : le_bytes n (wrap (8 * Z.of_nat n) x) = le_bytes n x.
Proof.
  rewrite <- le_val_le_bytes.
  rewrite <- (length_le_bytes n x) at 1.
  apply le_bytes_le_val, bytes_ok_le_bytes.
Qed.

Lemma le_bytes_app n m x :
  le_bytes (n + m) x = le_bytes n x ++ le_bytes m (Z.shiftr x (8 * Z.of_nat n)).
Proof.
  revert x; induction n as [|n IH]; intros x; [by rewrite Z.shiftr_0_r|].
  cbn [Nat.add le_bytes app]. rewrite IH, Z.shiftr_shiftr by lia. do 4 f_equal. lia.
Qed.

(** Two little-endian words side by side form one word. *)
Lemma le_bytes_pair n m x y :
  in_u (8 * Z.of_nat n) x ->
  le_bytes n x ++ le_bytes m y = le_bytes (n + m) (Z.lor x (Z.shiftl y (8 * Z.of_nat n))).
Proof.
  intros Hx. rewrite le_bytes_app. f_equal.
  - rewrite <- (le_bytes_wrap n (Z.lor _ _)). rewrite <- (le_bytes_wrap n x). f_equal.
    apply Z.bits_inj'; intros i Hi. rewrite !testbit_wrap by lia. case_decide; [|done].
    rewrite Z.lor_spec, Z.shiftl_spec by lia. rewrite (Z.testbit_neg_r y) by lia.
    by rewrite orb_false_r.
  - f_equal. rewrite Z.shiftr_lor, Z.shiftr_shiftl_l by lia.
    replace (8 * Z.of_nat n - 8 * Z.of_nat n) with 0 by lia. rewrite Z.shiftl_0_r.
    replace (Z.shiftr x (8 * Z.of_nat n)) with 0; [done|].
    destruct Hx. rewrite Z.shiftr_div_pow2 by lia. by rewrite Z.div_small.
Qed.

(** A decidable fact of one or two bytes, by enumeration. *)
Definition all_bytes (P : Z -> bool) : bool := forallb P (seqZ 0 256).

Lemma all_bytes_spec P b : all_bytes P = true -> byte_ok b -> P b = true.
Proof.
  intros H Hb. eapply List.forallb_forall in H; [exact H|].
  apply list_elem_of_In, elem_of_seqZ. exact Hb.
Qed.

Lemma all_byte_pairs_spec P b c :
  all_bytes (fun b => all_bytes (P b)) = true -> byte_ok b -> byte_ok c -> P b c = true.
Proof.
  intros H Hb Hc. eapply all_bytes_spec in H; [|exact Hb].
  eapply all_bytes_spec in H; [exact H|exact Hc].
Qed.

(** [data[i]], and [data[i] = v]; an index outside the slice panics. *)
Definition get_at (l : list Z) (i : Z) : res Z :=
  if decide (0 <= i) then
    match l !! Z.to_nat i with Some b => Ok b | None => Panic end
  else Panic.

Definition set_at (l : list Z) (i v : Z) : res (list Z) :=
  if decide (0 <= i < Z.of_nat (length l)) then Ok (<[Z.to_nat i := v]> l) else Panic.

(** [&data[lo..hi]]. *)
Definition slice (l : list Z) (lo hi : Z) : res (list Z) :=
  if decide (0 <= lo <= hi /\ hi <= Z.of_nat (length l)) then
    Ok (take (Z.to_nat (hi - lo)) (drop (Z.to_nat lo) l))
  else Panic.

(** [data[lo..lo + src.len()].copy_from_slice(src)]. *)
Definition copy_at (l : list Z) (lo : Z) (src : list Z) : res (list Z) :=
  if decide (0 <= lo /\ lo + Z.of_nat (length src) <= Z.of_nat (length l)) then
    Ok (take (Z.to_nat lo) l ++ src ++ drop (Z.to_nat lo + length src) l)
  else Panic.

(** [f(&mut data[lo..])]. *)
Definition update_from (l : list Z) (lo : Z) (f : list Z -> res (list Z)) : res (list Z) :=
  if decide (0 <= lo <= Z.of_nat (length l)) then
    t ← f (drop (Z.to_nat lo) l); Ok (take (Z.to_nat lo) l ++ t)
  else Panic.

(** [f(&mut data[..hi])]. *)
Definition update_to (l : list Z) (hi : Z) (f : list Z -> res (list Z)) : res (list Z) :=
  if decide (0 <= hi <= Z.of_nat (length l)) then
    t ← f (take (Z.to_nat hi) l); Ok (t ++ drop (Z.to_nat hi) l)
  else Panic.

Lemma copy_at_length l lo src l' :
  copy_at l lo src = Ok l' -> length l' = length l.
Proof.
  unfold copy_at. case_decide; [|done]. intros [= <-].
  rewrite !length_app, length_take, length_drop. lia.
Qed.

Lemma copy_at_lookup_in l lo src l' i :
  copy_at l lo src = Ok l' -> (i < length src)%nat ->
  l' !! (Z.to_nat lo + i)%nat = src !! i.
Proof.
  unfold copy_at. case_decide as H; [|done]. intros [= <-] Hi.
  rewrite lookup_app_r by (rewrite length_take; lia).
  rewrite length_take, lookup_app_l by lia. f_equal. lia.
Qed.

Lemma copy_at_lookup_out l lo src l' i :
  copy_at l lo src = Ok l' ->
  (i < Z.to_nat lo \/ Z.to_nat lo + length src <= i)%nat -> l' !! i = l !! i.
Proof.
  unfold copy_at. case_decide as H; [|done]. intros [= <-] [Hi|Hi].
  - rewrite lookup_app_l by (rewrite length_take; lia). by rewrite lookup_take_lt by lia.
  - rewrite lookup_app_r by (rewrite length_take; lia).
    rewrite length_take, lookup_app_r by lia. rewrite lookup_drop. f_equal. lia.
Qed.

Lemma copy_at_ok l lo src :
  0 <= lo -> lo + Z.of_nat (length src) <= Z.of_nat (length l) ->
  is_Ok (copy_at l lo src).
Proof. intros. unfold copy_at. rewrite decide_True by lia. by eexists. Qed.

(** Unsigned LEB128, low groups first. *)
Fixpoint uleb_decode (l : list Z) : option (Z * list Z) :=
  match l with
  | [] => None
  | b :: l =>
      if b <? 128 then Some (b, l)
      else '(v, l) ← uleb_decode l; Some (b - 128 + 128 * v, l)
  end.

End Bytes.

(** ** Vectors of any type *)
Section Vectors.
Context {A : Type}.
Local Open Scope Z_scope.

(** [v[i]]. *)
Definition index (v : list A) (i : Z) : res A :=
  if decide (0 <= i) then match v !! Z.to_nat i with Some x => Ok x | None => Panic end else Panic.

(** [v[i] = f(v[i])]. *)
Definition index_update (v : list A) (i : Z) (f : A -> A) : res (list A) :=
  x ← index v i; Ok (<[Z.to_nat i := f x]> v).

Lemma index_ok v i x : index v i = Ok x -> 0 <= i /\ v !! Z.to_nat i = Some x.
Proof. unfold index. case_decide; [|done]. destruct (v !! _) eqn:E; [|done]. by intros [= ->]. Qed.

Lemma index_update_ok v i f v' :
  index_update v i f = Ok v' ->
  exists x, index v i = Ok x /\ length v' = length v /\ index v' i = Ok (f x) /\
    forall j, j <> i -> index v' j = index v j.
Proof.
  unfold index_update. destruct (index v i) as [x| |] eqn:E; cbn [mbind res_bind]; try done.
  intros [= <-]. apply index_ok in E as [Hi Hx]. exists x. split; [done|].
  rewrite length_insert. split; [done|]. unfold index. rewrite decide_True by done.
  rewrite list_lookup_insert_eq by (by eapply lookup_lt_Some). split; [done|].
  intros j Hj. case_decide; [|done]. by rewrite list_lookup_insert_ne by lia.
Qed.

End Vectors.

(** ** Fallible loops *)
Lemma mapM_Ok {A B} (f : A -> res B) l :
  (forall x, x ∈ l -> is_Ok (f x)) -> exists k, mapM f l = Ok k /\ Forall2 (fun x y => f x = Ok y) l k.
Proof.
  induction l as [|x l IH]; intros H; [by exists []|].
  destruct (H x) as [y Hy]; [by left|]. destruct IH as (k & Hk & Hf); [intros z Hz; apply H; by right|].
  exists (y :: k). split; [|by constructor]. cbn. rewrite Hy. cbn [mbind res_bind]. by rewrite Hk.
Qed.

Lemma mapM_Ok_inv {A B} (f : A -> res B) l k : mapM f l = Ok k -> Forall2 (fun x y => f x = Ok y) l k.
Proof.
  revert k. induction l as [|x l IH]; intros k H; cbn in H; [injection H as <-; constructor|].
  destruct (f x) as [y| |] eqn:E; cbn [mbind res_bind] in H; try done.
  destruct (mapM f l) as [ys| |] eqn:El; cbn in H; try done. injection H as <-. constructor; auto.
Qed.

(** ** Loops *)
(** [for x in l { s = f(x, s)?; }]. *)
Fixpoint for_each {A S} (f : A -> S -> res S) (l : list A) (s : S) : res S :=
  match l with
  | [] => Ok s
  | x :: l => s ← f x s; for_each f l s
  end.

Lemma for_each_app {A S} (f : A -> S -> res S) l k s :
  for_each f (l ++ k) s = (s' ← for_each f l s; for_each f k s').
Proof.
  revert s. induction l as [|x l IH]; intros s; [done|]. cbn. destruct (f x s) as [s'| |]; cbn [mbind res_bind]; [apply IH|done..].
Qed.

Lemma for_each_map {A B S} (g : A -> B) (f : B -> S -> res S) l s :
  for_each f (map g l) s = for_each (fun x => f (g x)) l s.
Proof. revert s. induction l as [|x l IH]; intros s; [done|]. cbn. destruct (f (g x) s); cbn [mbind res_bind]; auto. Qed.

(** ** Lists *)
Lemma snoc_lookup {A} (l : list A) x i y :
  (l ++ [x]) !! i = Some y -> l !! i = Some y \/ i = length l /\ y = x.
Proof.
  intros H. apply lookup_app_Some in H as [H|[Hi H]]; [by left|right].
  destruct (i - length l)%nat as [|k] eqn:E; cbn in H; [|done]. split; [lia|congruence].
Qed.

Lemma elem_of_concat_map {A B} (f : A -> list B) l x : x ∈ concat (map f l) <-> exists y, y ∈ l /\ x ∈ f y.
Proof.
  split.
  - induction l as [|y l IH]; cbn; [by intros ?%not_elem_of_nil|]. intros [H|H]%elem_of_app; [exists y; split; [by left|done]|].
    destruct (IH H) as (z & Hz & Hx). exists z. split; [by right|done].
  - intros (y & Hy & Hx). induction l as [|z l IH]; [by apply not_elem_of_nil in Hy|].
    cbn. apply elem_of_app. apply elem_of_cons in Hy as [->|Hy]; [by left|right; by apply IH].
Qed.
