(* ===== verification/Bits.v ===== *)
(** Proof by reflection for bit-vector equations: an equation between terms
    built from [Z.land], [Z.lor], [Z.lnot], constant shifts and [wrap] is
    reified, both sides are evaluated symbolically one bit at a time, and the
    symbolic bits are compared. *)
From Stdlib Require Import ZArith Lia.
From stdpp Require Import base list list_numbers numbers strings option.
From S2P Require Import Prelude.

Local Open Scope Z_scope.

Inductive bexp :=
| BVar (n : nat)
| BConst (z : Z)
| BAnd (a b : bexp)
| BOr (a b : bexp)
| BNot (a : bexp)
| BShl (a : bexp) (k : Z)
| BShr (a : bexp) (k : Z)
| BWrap (w : N) (a : bexp).

Fixpoint beval (env : list Z) (e : bexp) : Z :=
  match e with
  | BVar n => nth n env 0
  | BConst z => z
  | BAnd a b => Z.land (beval env a) (beval env b)
  | BOr a b => Z.lor (beval env a) (beval env b)
  | BNot a => Z.lnot (beval env a)
  | BShl a k => Z.shiftl (beval env a) k
  | BShr a k => Z.shiftr (beval env a) k
  | BWrap w a => wrap (Z.of_N w) (beval env a)
  end.

(** Symbolic bits. *)
Inductive sbit :=
| SConst (b : bool)
| SAtom (n : nat) (i : Z)
| SNot (a : sbit)
| SAnd (a b : sbit)
| SOr (a b : sbit).

Fixpoint sinterp (env : list Z) (s : sbit) : bool :=
  match s with
  | SConst b => b
  | SAtom n i => Z.testbit (nth n env 0) i
  | SNot a => negb (sinterp env a)
  | SAnd a b => sinterp env a && sinterp env b
  | SOr a b => sinterp env a || sinterp env b
  end.

Definition snot (a : sbit) : sbit :=
  match a with SConst b => SConst (negb b) | SNot a => a | _ => SNot a end.

Definition sand (a b : sbit) : sbit :=
  match a, b with
  | SConst true, x | x, SConst true => x
  | SConst false, _ | _, SConst false => SConst false
  | _, _ => SAnd a b
  end.

Definition sor (a b : sbit) : sbit :=
  match a, b with
  | SConst false, x | x, SConst false => x
  | SConst true, _ | _, SConst true => SConst true
  | _, _ => SOr a b
  end.

Fixpoint seqb (a b : sbit) : bool :=
  match a, b with
  | SConst x, SConst y => Bool.eqb x y
  | SAtom n i, SAtom m j => Nat.eqb n m && (i =? j)
  | SNot a, SNot b => seqb a b
  | SAnd a a', SAnd b b' => seqb a b && seqb a' b'
  | SOr a a', SOr b b' => seqb a b && seqb a' b'
  | _, _ => false
  end.

(** Bit [i] of an expression whose variables have the given widths. *)
Fixpoint bbit (widths : list Z) (e : bexp) (i : Z) : sbit :=
  if i <? 0 then SConst false else
  match e with
  | BVar n => if i <? nth n widths 0 then SAtom n i else SConst false
  | BConst z => SConst (Z.testbit z i)
  | BAnd a b => sand (bbit widths a i) (bbit widths b i)
  | BOr a b => sor (bbit widths a i) (bbit widths b i)
  | BNot a => snot (bbit widths a i)
  | BShl a k => bbit widths a (i - k)
  | BShr a k => bbit widths a (i + k)
  | BWrap w a => if i <? Z.of_N w then bbit widths a i else SConst false
  end.

(** An upper bound on the width of an expression, when it is not negative. *)
Fixpoint bwidth (widths : list Z) (e : bexp) : option Z :=
  match e with
  | BVar n => Some (nth n widths 0)
  | BConst z => if z <? 0 then None else Some (Z.log2 z + 1)
  | BAnd a b =>
      match bwidth widths a, bwidth widths b with
      | Some x, Some y => Some (Z.min x y)
      | Some x, None | None, Some x => Some x
      | None, None => None
      end
  | BOr a b =>
      match bwidth widths a, bwidth widths b with
      | Some x, Some y => Some (Z.max x y)
      | _, _ => None
      end
  | BNot _ => None
  | BShl a k =>
      match bwidth widths a with
      | Some x => if 0 <=? k then Some (x + k) else None
      | None => None
      end
  | BShr a k => if 0 <=? k then bwidth widths a else None
  | BWrap w _ => Some (Z.of_N w)
  end.

Definition bcheck (widths : list Z) (a b : bexp) : bool :=
  match bwidth widths a, bwidth widths b with
  | Some x, Some y =>
      forallb (fun i => seqb (bbit widths a i) (bbit widths b i)) (seqZ 0 (Z.max x y))
  | _, _ => false
  end.

Lemma nth_in_u widths env n :
  Forall2 in_u widths env -> in_u (nth n widths 0) (nth n env 0).
Proof.
  intros H. revert n. induction H as [|w x ws xs Hx _ IH]; intros [|n]; cbn;
    solve [apply IH | exact Hx | split; vm_compute; congruence].
Qed.

Section Soundness.
Context (widths env : list Z) (Henv : Forall2 in_u widths env).

Lemma snot_sound a : sinterp env (snot a) = negb (sinterp env a).
Proof. destruct a; cbn; try done. by rewrite negb_involutive. Qed.

Lemma sand_sound a b : sinterp env (sand a b) = sinterp env a && sinterp env b.
Proof.
  destruct a as [[]| | | |], b as [[]| | | |]; cbn; try done;
    by rewrite ?andb_true_r, ?andb_false_r.
Qed.

Lemma sor_sound a b : sinterp env (sor a b) = sinterp env a || sinterp env b.
Proof.
  destruct a as [[]| | | |], b as [[]| | | |]; cbn; try done;
    by rewrite ?orb_true_r, ?orb_false_r.
Qed.

Lemma seqb_sound a b : seqb a b = true -> a = b.
Proof.
  revert b; induction a; intros []; cbn; try done.
  - by intros ->%Bool.eqb_prop.
  - intros [->%Nat.eqb_eq ->%Z.eqb_eq]%andb_true_iff. done.
  - intros H. f_equal. auto.
  - intros [? ?]%andb_true_iff. f_equal; auto.
  - intros [? ?]%andb_true_iff. f_equal; auto.
Qed.

Lemma bbit_sound e i : sinterp env (bbit widths e i) = Z.testbit (beval env e) i.
Proof.
  revert i; induction e as [n|z|a IHa b IHb|a IHa b IHb|a IHa|a IHa k|a IHa k|w a IHa];
    intros i; cbn; destruct (i <? 0) eqn:Hi; try (by rewrite Z.testbit_neg_r by lia);
    apply Z.ltb_ge in Hi.
  - destruct (i <? nth n widths 0) eqn:E; [done|]. apply Z.ltb_ge in E. symmetry.
    eapply testbit_small; [by apply nth_in_u|done].
  - done.
  - by rewrite sand_sound, IHa, IHb, Z.land_spec.
  - by rewrite sor_sound, IHa, IHb, Z.lor_spec.
  - by rewrite snot_sound, IHa, Z.lnot_spec.
  - by rewrite IHa, Z.shiftl_spec.
  - by rewrite IHa, Z.shiftr_spec.
  - rewrite testbit_wrap by lia. case_decide as H.
    + rewrite (proj2 (Z.ltb_lt _ _)) by lia. apply IHa.
    + by rewrite (proj2 (Z.ltb_ge _ _)) by lia.
Qed.

Lemma bwidth_sound e w : bwidth widths e = Some w -> in_u w (beval env e).
Proof.
  revert w; induction e as [n|z|a IHa b IHb|a IHa b IHb|a IHa|a IHa k|a IHa k|w' a IHa];
    intros w; cbn.
  - intros [= <-]. by apply nth_in_u.
  - destruct (z <? 0) eqn:E; [done|]. apply Z.ltb_ge in E. intros [= <-].
    split; [done|]. destruct (decide (z = 0)) as [->|]; [done|].
    rewrite Z.add_1_r. apply Z.log2_spec. lia.
  - destruct (bwidth widths a) as [x|], (bwidth widths b) as [y|]; intros [= <-].
    + destruct (Z.min_spec x y) as [[_ ->]|[_ ->]].
      * apply in_u_land; auto.
      * apply in_u_land_r; auto.
    + apply in_u_land; auto.
    + apply in_u_land_r; auto.
  - destruct (bwidth widths a) as [x|], (bwidth widths b) as [y|]; intros [= <-].
    apply in_u_lor; [apply (in_u_weaken x)|apply (in_u_weaken y)]; auto; lia.
  - done.
  - destruct (bwidth widths a) as [x|]; [|done]. destruct (0 <=? k) eqn:E; [|done].
    intros [= <-]. apply in_u_shiftl; [auto|lia].
  - destruct (0 <=? k) eqn:E; [|done]. intros H. apply in_u_shiftr; [auto|lia].
  - intros [= <-]. apply wrap_range. lia.
Qed.

Lemma bcheck_sound a b : bcheck widths a b = true -> beval env a = beval env b.
Proof.
  unfold bcheck. destruct (bwidth widths a) as [x|] eqn:Ea; [|done].
  destruct (bwidth widths b) as [y|] eqn:Eb; [|done]. intros Hall.
  apply (bits_eq_below (Z.max x y)).
  - eapply in_u_weaken; [by apply bwidth_sound|lia].
  - eapply in_u_weaken; [by apply bwidth_sound|lia].
  - apply List.Forall_forall. intros i Hi.
    rewrite forallb_forall in Hall. specialize (Hall i Hi).
    rewrite <- !bbit_sound. f_equal. by apply seqb_sound.
Qed.

End Soundness.

(** ** Reification *)
Ltac is_numeral t :=
  lazymatch t with Z0 => idtac | Zpos _ => idtac | Zneg _ => idtac end.

Ltac const_value t :=
  lazymatch t with
  | Z0 => t
  | Zpos _ => t
  | Zneg _ => t
  | _ => eval vm_compute in t
  end.

Ltac width_of x :=
  lazymatch x with
  | wadd ?w _ _ => w
  | wsub ?w _ _ => w
  | wmul ?w _ _ => w
  | wrap ?w _ => w
  | _ =>
      match goal with
      | H : in_u ?w x |- _ =>
          (* the tightest of the known ranges *)
          let tightest :=
            match goal with
            | H' : in_u ?w' x |- _ =>
                lazymatch eval vm_compute in (Z.ltb w' w) with true => constr:(false) end
            | _ => constr:(true)
            end in
          lazymatch tightest with true => w end
      end
  end.

Ltac var_index x env :=
  lazymatch env with
  | x :: _ => constr:(O)
  | _ :: ?env => let n := var_index x env in constr:(S n)
  end.

Ltac add_var x env :=
  let rec go l :=
    lazymatch l with
    | nil => constr:(@cons Z x nil)
    | x :: _ => l
    | ?y :: ?l => let l' := go l in constr:(@cons Z y l')
    end in
  go env.

Ltac collect t env :=
  lazymatch t with
  | Z.land ?a ?b => let env := collect a env in collect b env
  | Z.lor ?a ?b => let env := collect a env in collect b env
  | Z.lnot ?a => collect a env
  | Z.shiftl ?a _ => collect a env
  | Z.shiftr ?a _ => collect a env
  | wrap _ ?a => collect a env
  | wnot _ ?a => collect a env
  | wshl _ ?a _ => collect a env
  | wshr _ ?a _ => collect a env
  | Z.ones _ => env
  | Z.pow _ _ => env
  | Z0 => env
  | Zpos _ => env
  | Zneg _ => env
  | _ => add_var t env
  end.

Ltac reify t env :=
  lazymatch t with
  | Z.land ?a ?b => let a := reify a env in let b := reify b env in constr:(BAnd a b)
  | Z.lor ?a ?b => let a := reify a env in let b := reify b env in constr:(BOr a b)
  | Z.lnot ?a => let a := reify a env in constr:(BNot a)
  | Z.shiftl ?a ?k => let a := reify a env in let k := const_value k in constr:(BShl a k)
  | Z.shiftr ?a ?k => let a := reify a env in let k := const_value k in constr:(BShr a k)
  | wrap ?w ?a =>
      let a := reify a env in let w := eval vm_compute in (Z.to_N w) in constr:(BWrap w a)
  | wnot ?w ?a =>
      let a := reify a env in
      let w := eval vm_compute in (Z.to_N w) in constr:(BWrap w (BNot a))
  | wshl ?w ?a ?k =>
      let a := reify a env in let k := const_value (Z.modulo k w) in
      let w := eval vm_compute in (Z.to_N w) in constr:(BWrap w (BShl a k))
  | wshr ?w ?a ?k =>
      let a := reify a env in let k := const_value (Z.modulo k w) in constr:(BShr a k)
  | Z.ones _ => let z := const_value t in constr:(BConst z)
  | Z.pow _ _ => let z := const_value t in constr:(BConst z)
  | Z0 => constr:(BConst t)
  | Zpos _ => constr:(BConst t)
  | Zneg _ => constr:(BConst t)
  | _ => let n := var_index t env in constr:(BVar n)
  end.

Ltac widths_of env :=
  lazymatch env with
  | nil => constr:(@nil Z)
  | ?x :: ?env =>
      let w := width_of x in let ws := widths_of env in constr:(@cons Z w ws)
  end.

Ltac bits :=
  lazymatch goal with
  | |- ?a = ?b =>
      let env := collect a (@nil Z) in
      let env := collect b env in
      let ws := widths_of env in
      let ea := reify a env in
      let eb := reify b env in
      change (beval env ea = beval env eb);
      apply (bcheck_sound ws env);
      [ repeat apply Forall2_cons; try apply Forall2_nil;
        first [assumption | apply wrap_range; lia | idtac]
      | vm_compute; reflexivity ]
  end.
