(* ===== verification/BitMisc.v ===== *)
(** Bit extraction and byte-slice helpers: [linker-utils/src/bit_misc.rs] and
    [linker-utils/src/utils.rs]. *)
From Stdlib Require Import ZArith Lia.
From stdpp Require Import base list list_numbers numbers strings option.
From S2P Require Import Prelude Bits.

Local Open Scope Z_scope.

(** ** bit_misc.rs *)
Record BitRange := mkBitRange { br_start : Z; br_end : Z }.

#[export] Instance BitRange_eq_dec : EqDecision BitRange.
Proof. solve_decision. Defined.

Definition extract_bit_range (v start end_ : Z) : Z :=
  if (start =? 0) && (end_ =? 64) then v
  else Z.land (wshr 64 v start) (wsub 64 (wshl 64 1 (Z.max 0 (end_ - start))) 1).

Definition extract_bit (v position : Z) : Z :=
  extract_bit_range v position (wadd 32 position 1).

Definition low_bits (v num_bits : Z) : Z :=
  Z.land v (wsub 64 (wshl 64 1 num_bits) 1).

Definition sign_extend (v sign_bit : Z) : Z :=
  if Z.land v (wshl 64 1 sign_bit) =? 0 then v
  else Z.lor v (wnot 64 (wsub 64 (wshl 64 2 sign_bit) 1)).

Definition low_bits_signed (v num_bits : Z) : Z :=
  sign_extend (low_bits v num_bits) (wsub 32 num_bits 1).

(** ** utils.rs *)
Definition u32_from_slice (data : list Z) : res Z :=
  if decide (4 <= length data)%nat then Ok (le_val (take 4 data)) else Panic.

Definition u64_from_slice (data : list Z) : res Z :=
  if decide (8 <= length data)%nat then Ok (le_val (take 8 data)) else Panic.

Fixpoint or_from_slice (dest mask_bytes : list Z) : res (list Z) :=
  match mask_bytes, dest with
  | [], _ => Ok dest
  | v :: mask_bytes, b :: dest => cons (Z.lor b v) <$> or_from_slice dest mask_bytes
  | _ :: _, [] => Panic
  end.

Fixpoint and_from_slice (dest mask_bytes : list Z) : res (list Z) :=
  match mask_bytes, dest with
  | [], _ => Ok dest
  | v :: mask_bytes, b :: dest => cons (Z.land b v) <$> and_from_slice dest mask_bytes
  | _ :: _, [] => Panic
  end.

Definition read_u32 (content : list Z) : res (Z * list Z) :=
  _ ← ensure (bool_decide (4 <= length content)%nat) "Not enough bytes to read u32";
  Ok (le_val (take 4 content), drop 4 content).

(** ** Idioms the instruction encoders share *)

(** [dest &= keep; dest |= mask], on the first [n] bytes. *)
Definition clear_and_or (n : nat) (dest : list Z) (keep mask : Z) : res (list Z) :=
  dest ← and_from_slice dest (le_bytes n keep);
  or_from_slice dest (le_bytes n mask).

(** [((x as i32) << k) >> k]. *)
Definition i32_shl_shr (x k : Z) : Z := Z.shiftr (signed 32 (Z.shiftl (signed 32 x) k)) k.

(** [(sign_extended as u64, sign_extended < 0)]. *)
Definition signed_result (x k : Z) : Z * bool :=
  let sign_extended := i32_shl_shr x k in (wrap 64 sign_extended, sign_extended <? 0).

(** ** Lemmas *)
Lemma mask_ones n : 0 <= n < 64 -> wsub 64 (wshl 64 1 n) 1 = Z.ones n.
Proof.
  intros Hn. unfold wsub, wshl. rewrite (Z.mod_small n) by lia.
  rewrite Z.shiftl_1_l, Z.ones_equiv.
  assert (0 < 2 ^ n < 2 ^ 64) by (split; [apply Z.pow_pos_nonneg|apply Z.pow_lt_mono_r]; lia).
  rewrite (wrap_small 64 (2 ^ n)) by (unfold in_u; lia).
  rewrite wrap_small by (unfold in_u; lia). lia.
Qed.

(** The executable definition agrees with the mathematical bit field. *)
Lemma extract_bit_range_land v s e :
  in_u 64 v -> (0 <=? s) && (s <? e) && (e <=? 64) = true ->
  extract_bit_range v s e = Z.land (Z.shiftr v s) (Z.ones (e - s)).
Proof.
  intros Hv [[H1 H2]%andb_true_iff H3]%andb_true_iff.
  unfold extract_bit_range. destruct ((s =? 0) && (e =? 64)) eqn:E.
  - apply andb_true_iff in E as [E1 E2].
    replace s with 0 by lia. replace (e - 0) with 64 by lia.
    rewrite Z.shiftr_0_r, Z.land_ones by lia. symmetry. by apply wrap_small.
  - apply andb_false_iff in E.
    unfold wshr. rewrite (Z.mod_small s) by lia.
    rewrite Z.max_r, mask_ones by (destruct E; lia). done.
Qed.

Lemma extract_bit_land v p :
  in_u 64 v -> (0 <=? p) && (p <? 64) = true ->
  extract_bit v p = Z.land (Z.shiftr v p) 1.
Proof.
  intros Hv [H1 H2]%andb_true_iff. unfold extract_bit, wadd.
  rewrite wrap_small by (unfold in_u; lia).
  rewrite extract_bit_range_land by (done || lia). do 2 f_equal. by replace (p + 1 - p) with 1 by lia.
Qed.

Lemma low_bits_land v n : (0 <=? n) && (n <? 64) = true -> low_bits v n = Z.land v (Z.ones n).
Proof. intros [? ?]%andb_true_iff. unfold low_bits. by rewrite mask_ones by lia. Qed.

Lemma testbit_pow2 n i : 0 <= n -> Z.testbit (2 ^ n) i = bool_decide (i = n).
Proof.
  intros Hn. case_bool_decide as H; [subst; by apply Z.pow2_bits_true|].
  by apply Z.pow2_bits_false.
Qed.

Lemma land_pow2_eqb v n : 0 <= n -> (Z.land v (2 ^ n) =? 0) = negb (Z.testbit v n).
Proof.
  intros Hn. destruct (Z.testbit v n) eqn:E; cbn.
  - apply Z.eqb_neq. intros H. apply (f_equal (fun z => Z.testbit z n)) in H.
    rewrite Z.land_spec, E, testbit_pow2, bool_decide_true, Z.testbit_0_l in H by done.
    discriminate.
  - apply Z.eqb_eq, Z.bits_inj'; intros i Hi.
    rewrite Z.land_spec, testbit_pow2, Z.testbit_0_l by done.
    case_bool_decide; subst; rewrite ?E; by rewrite ?andb_false_r.
Qed.

(** [sign_extend] sets every bit above the sign bit when the sign bit is set. *)
Lemma sign_extend_lor v s :
  in_u 64 v -> (0 <=? s) && (s <? 63) = true ->
  sign_extend v s =
    if Z.testbit v s then Z.lor v (Z.shiftl (Z.ones (63 - s)) (s + 1)) else v.
Proof.
  intros Hv [? ?]%andb_true_iff. unfold sign_extend, wshl.
  rewrite (Z.mod_small s) by lia. rewrite Z.shiftl_1_l.
  assert (0 < 2 ^ s < 2 ^ 63) by (split; [apply Z.pow_pos_nonneg|apply Z.pow_lt_mono_r]; lia).
  rewrite (wrap_small 64 (2 ^ s)) by (unfold in_u; lia).
  rewrite land_pow2_eqb by lia. destruct (Z.testbit v s); [cbn|done]. f_equal.
  rewrite Z.shiftl_mul_pow2, (wrap_small 64 (2 * 2 ^ s)) by (unfold in_u; lia).
  unfold wsub. rewrite <- Z.pow_succ_r by lia.
  assert (0 < 2 ^ Z.succ s <= 2 ^ 63) by (split; [apply Z.pow_pos_nonneg|apply Z.pow_le_mono_r]; lia).
  rewrite (wrap_small 64) by (unfold in_u; lia).
  replace (2 ^ Z.succ s - 1) with (Z.ones (s + 1)) by (rewrite Z.ones_equiv; f_equal; lia).
  apply Z.bits_inj'; intros i Hi. unfold wnot.
  rewrite testbit_wrap, Z.lnot_spec, Z.shiftl_spec, Z.testbit_ones_nonneg by lia.
  destruct (decide (i < s + 1)).
  - rewrite (Z.testbit_neg_r _ (i - (s + 1))) by lia.
    rewrite (proj2 (Z.ltb_lt _ _)) by lia. by case_decide.
  - rewrite Z.testbit_ones_nonneg by lia.
    rewrite (proj2 (Z.ltb_ge i (s + 1))) by lia. cbn. symmetry.
    case_decide; [apply Z.ltb_lt; lia|apply Z.ltb_ge; lia].
Qed.

Lemma signed_wrap_arg w x : 0 <= w -> signed w (wrap w x) = signed w x.
Proof. intros. unfold signed. by rewrite wrap_wrap. Qed.

(** [sign_extend] is the two's complement reading of the low bits. *)
Lemma sign_extend_signed n v :
  0 < n < 64 -> in_u n v -> sign_extend v (n - 1) = wrap 64 (signed n v).
Proof.
  intros Hn Hv. assert (in_u 64 v) as H64 by (eapply in_u_weaken; [exact Hv|lia]).
  rewrite sign_extend_lor by (done || lia).
  replace (n - 1 + 1) with n by lia. replace (63 - (n - 1)) with (64 - n) by lia.
  assert (2 ^ n = 2 * 2 ^ (n - 1)) as Hp by (rewrite <- Z.pow_succ_r by lia; f_equal; lia).
  assert (2 ^ 64 = 2 ^ n * 2 ^ (64 - n)) as Hp' by (rewrite <- Z.pow_add_r by lia; f_equal; lia).
  assert (Z.testbit v (n - 1) = negb (v <? 2 ^ (n - 1))) as Ht.
  { destruct (v <? 2 ^ (n - 1)) eqn:E; [apply Z.ltb_lt in E|apply Z.ltb_ge in E]; cbn.
    - apply (testbit_small (n - 1)); [split; [apply Hv|done]|lia].
    - apply Z.testbit_true; [lia|]. destruct Hv as [Hl Hu].
      replace (v / 2 ^ (n - 1)) with 1; [done|]. apply Z.div_unique with (v - 2 ^ (n - 1)); lia. }
  rewrite Ht. unfold signed. rewrite (wrap_small n v) by done.
  destruct (v <? 2 ^ (n - 1)) eqn:E; cbn [negb]; [by rewrite wrap_small|].
  apply Z.ltb_ge in E. rewrite lor_shiftl_add, Z.ones_equiv by done.
  destruct Hv as [Hl Hu]. unfold wrap.
  apply Z.mod_unique_pos with (-1); nia.
Qed.

(** Extracting the bits [s, e) of a value that is a signed [e]-bit multiple of
    [2^s], and sign-extending them, divides it by [2^s]. *)
Lemma extract_signed s e v :
  0 <= s -> s < e -> e <= 64 -> in_i e v -> v mod 2 ^ s = 0 ->
  signed (e - s) (extract_bit_range (wrap 64 v) s e) * 2 ^ s = v.
Proof.
  intros Hs He He' [Hl Hu] Hm.
  assert (0 < 2 ^ s) as Hps by (apply Z.pow_pos_nonneg; lia).
  assert (2 ^ (e - 1) = 2 ^ s * 2 ^ (e - s - 1)) as Hp
    by (rewrite <- Z.pow_add_r by lia; f_equal; lia).
  assert (v = v / 2 ^ s * 2 ^ s) as Hd by (pose proof (Z.div_mod v (2 ^ s)); lia).
  assert (extract_bit_range (wrap 64 v) s e = wrap (e - s) (v / 2 ^ s)) as ->.
  { rewrite extract_bit_range_land by (try apply wrap_range; lia).
    rewrite Z.land_ones, <- Z.shiftr_div_pow2 by lia.
    apply Z.bits_inj'; intros i Hi. fold (wrap (e - s) (Z.shiftr (wrap 64 v) s)).
    rewrite !testbit_wrap, !Z.shiftr_spec, testbit_wrap by lia. repeat case_decide; done || lia. }
  rewrite signed_wrap_arg by lia. rewrite signed_of_signed; [lia|lia|].
  unfold in_i. nia.
Qed.

Lemma u32_from_le_bytes w rest :
  in_u 32 w -> u32_from_slice (le_bytes 4 w ++ rest) = Ok w.
Proof.
  intros Hw. unfold u32_from_slice.
  rewrite decide_True by (rewrite length_app, length_le_bytes; lia).
  rewrite take_app_length' by (by rewrite length_le_bytes).
  by rewrite le_val_le_bytes, wrap_small.
Qed.

Lemma u64_from_le_bytes w rest :
  in_u 64 w -> u64_from_slice (le_bytes 8 w ++ rest) = Ok w.
Proof.
  intros Hw. unfold u64_from_slice.
  rewrite decide_True by (rewrite length_app, length_le_bytes; lia).
  rewrite take_app_length' by (by rewrite length_le_bytes).
  by rewrite le_val_le_bytes, wrap_small.
Qed.

Lemma wrap_lor w x y : 0 <= w -> wrap w (Z.lor x y) = Z.lor (wrap w x) (wrap w y).
Proof. intros. unfold wrap. rewrite <- !Z.land_ones by lia. apply Z.land_lor_distr_l. Qed.

Lemma wrap_land w x y : 0 <= w -> wrap w (Z.land x y) = Z.land (wrap w x) (wrap w y).
Proof.
  intros. apply Z.bits_inj'; intros i Hi.
  rewrite Z.land_spec, !testbit_wrap, Z.land_spec by lia. by case_decide.
Qed.

Lemma or_from_le_bytes n w m rest :
  or_from_slice (le_bytes n w ++ rest) (le_bytes n m) = Ok (le_bytes n (Z.lor w m) ++ rest).
Proof.
  revert w m; induction n as [|n IH]; intros w m; [by destruct rest|].
  cbn [le_bytes app or_from_slice]. rewrite IH. cbn.
  by rewrite wrap_lor, Z.shiftr_lor by lia.
Qed.

Lemma and_from_le_bytes n w m rest :
  and_from_slice (le_bytes n w ++ rest) (le_bytes n m) = Ok (le_bytes n (Z.land w m) ++ rest).
Proof.
  revert w m; induction n as [|n IH]; intros w m; [by destruct rest|].
  cbn [le_bytes app and_from_slice]. rewrite IH. cbn.
  by rewrite wrap_land, Z.shiftr_land by lia.
Qed.

(** A buffer that holds an [n]-byte word starts with that word's bytes. *)
Lemma word_prefix n dest :
  bytes_ok dest -> (n <= length dest)%nat ->
  in_u (8 * Z.of_nat n) (le_val (take n dest)) /\
  dest = le_bytes n (le_val (take n dest)) ++ drop n dest.
Proof.
  intros Hok Hlen.
  assert (bytes_ok (take n dest)) as Ht by (by apply Forall_take).
  assert (length (take n dest) = n) as Hl by (rewrite length_take; lia). split.
  - rewrite <- Hl at 1. by apply le_val_bound.
  - rewrite <- Hl at 1. rewrite le_bytes_le_val by done. by rewrite take_drop.
Qed.

Lemma take_le_bytes n m x : (n <= m)%nat -> take n (le_bytes m x) = le_bytes n x.
Proof.
  revert m x; induction n as [|n IH]; intros m x H; [done|].
  destruct m as [|m]; [lia|]. cbn. by rewrite IH by lia.
Qed.

Lemma or_from_slice_length dest m d' :
  or_from_slice dest m = Ok d' -> length d' = length dest.
Proof.
  revert dest d'; induction m as [|v m IH]; intros [|b dest] d'; cbn; try by intros [= <-].
  destruct (or_from_slice dest m) eqn:E; cbn; try done.
  intros [= <-]. cbn. f_equal. by apply IH.
Qed.

Lemma clear_and_or_word n keep mask w rest :
  clear_and_or n (le_bytes n w ++ rest) keep mask =
    Ok (le_bytes n (Z.lor (Z.land w keep) mask) ++ rest).
Proof.
  unfold clear_and_or, mbind, res_bind. by rewrite and_from_le_bytes, or_from_le_bytes.
Qed.

(** A sign extension done by shifting left then right in [i32]. *)
Lemma i32_shl_shr_signed n x :
  0 < n <= 32 -> in_u n x -> i32_shl_shr x (32 - n) = signed n x.
Proof.
  intros Hn Hx. unfold i32_shl_shr.
  assert (Z.shiftl (signed n x) (32 - n) = signed 32 (Z.shiftl (signed 32 x) (32 - n))) as Heq.
  { assert (2 ^ 32 = 2 ^ n * 2 ^ (32 - n)) as Hp
      by (replace 32 with (n + (32 - n)) at 1 by lia; apply Z.pow_add_r; lia).
    assert (2 ^ 31 = 2 ^ (n - 1) * 2 ^ (32 - n)) as Hp'
      by (replace 31 with (n - 1 + (32 - n)) at 1 by lia; apply Z.pow_add_r; lia).
    assert (0 < 2 ^ (32 - n)) by (apply Z.pow_pos_nonneg; lia).
    rewrite <- (signed_of_signed 32 (Z.shiftl (signed n x) (32 - n))); [|lia|].
    - assert (forall a b, wrap 32 a = wrap 32 b -> signed 32 a = signed 32 b) as Hs
        by (intros a b E; unfold signed; by rewrite E).
      apply Hs. unfold wrap. rewrite !Z.shiftl_mul_pow2, Hp by lia.
      rewrite !Z.mul_mod_distr_r by (try apply Z.pow_nonzero; lia). f_equal.
      change (signed n x mod 2 ^ n) with (wrap n (signed n x)).
      rewrite signed_wrap by lia.
      rewrite <- (wrap_small n x) at 1 by done. rewrite wrap_wrap by lia.
      unfold signed. case_match; rewrite (wrap_small 32 x) by (eapply in_u_weaken; [exact Hx|lia]).
      + done.
      + rewrite Hp. unfold wrap. rewrite Z.mul_comm.
        replace (x - 2 ^ (32 - n) * 2 ^ n) with (x + (- 2 ^ (32 - n)) * 2 ^ n) by lia.
        by rewrite Z.mod_add by (apply Z.pow_nonzero; lia).
    - pose proof (signed_range n x ltac:(lia)) as [Hl Hu].
      unfold in_i. change (32 - 1) with 31. rewrite Z.shiftl_mul_pow2, Hp' by lia. nia. }
  rewrite <- Heq. rewrite Z.shiftr_shiftl_l by lia.
  replace (32 - n - (32 - n)) with 0 by lia. apply Z.shiftl_0_r.
Qed.

Lemma signed_result_spec n x :
  0 < n <= 32 -> in_u n x ->
  signed_result x (32 - n) = (wrap 64 (signed n x), signed n x <? 0).
Proof. intros. unfold signed_result. by rewrite i32_shl_shr_signed. Qed.

(** Rewrites the extraction helpers on a concrete range to shifts and masks. *)
Ltac extract_simp :=
  repeat first
    [ rewrite extract_bit_range_land by (auto with ranges || reflexivity)
    | rewrite extract_bit_land by (auto with ranges || reflexivity)
    | rewrite low_bits_land by reflexivity ].
