(* ===== verification/Elf.v ===== *)
(** The ELF relocation vocabulary: [linker-utils/src/elf.rs].

    The raw [r_type] constants belong to the [object] crate; they are modelled
    by one enumeration per architecture with the constants the source names
    ([R_*_unlisted] stands for every other raw value), because the code only
    compares them. *)
From Stdlib Require Import ZArith Lia.
From stdpp Require Import base list list_numbers numbers strings option.
From S2P Require Import Prelude Bits BitMisc.

Local Open Scope Z_scope.

(** ** Raw relocation types of the [object] crate *)
Inductive R_X86_64 :=
  | R_X86_64_COPY | R_X86_64_IRELATIVE | R_X86_64_DTPMOD64 | R_X86_64_DTPOFF64
  | R_X86_64_TPOFF64 | R_X86_64_RELATIVE | R_X86_64_GLOB_DAT | R_X86_64_64
  | R_X86_64_TLSDESC | R_X86_64_JUMP_SLOT | R_X86_64_PC32 | R_X86_64_PC64
  | R_X86_64_GOT32 | R_X86_64_GOT64 | R_X86_64_GOTOFF64 | R_X86_64_PLT32
  | R_X86_64_PLTOFF64 | R_X86_64_GOTPCREL | R_X86_64_GOTPC64 | R_X86_64_GOTPC32
  | R_X86_64_32 | R_X86_64_32S | R_X86_64_16 | R_X86_64_PC16 | R_X86_64_8 | R_X86_64_PC8
  | R_X86_64_TLSGD | R_X86_64_TLSLD | R_X86_64_DTPOFF32 | R_X86_64_GOTTPOFF
  | R_X86_64_CODE_4_GOTTPOFF | R_X86_64_CODE_5_GOTTPOFF | R_X86_64_CODE_6_GOTTPOFF
  | R_X86_64_GOTPCRELX | R_X86_64_REX_GOTPCRELX | R_X86_64_CODE_4_GOTPCRELX
  | R_X86_64_CODE_5_GOTPCRELX | R_X86_64_CODE_6_GOTPCRELX | R_X86_64_TPOFF32
  | R_X86_64_GOTPC32_TLSDESC | R_X86_64_CODE_4_GOTPC32_TLSDESC
  | R_X86_64_CODE_5_GOTPC32_TLSDESC | R_X86_64_CODE_6_GOTPC32_TLSDESC
  | R_X86_64_TLSDESC_CALL | R_X86_64_NONE
  | R_X86_64_unlisted (raw : Z).

Inductive R_AARCH64 :=
  | R_AARCH64_COPY | R_AARCH64_IRELATIVE | R_AARCH64_TLS_DTPMOD | R_AARCH64_TLS_DTPREL
  | R_AARCH64_TLS_TPREL | R_AARCH64_RELATIVE | R_AARCH64_ABS64 | R_AARCH64_GLOB_DAT
  | R_AARCH64_TLSDESC | R_AARCH64_JUMP_SLOT | R_AARCH64_NONE | R_AARCH64_ABS32
  | R_AARCH64_ABS16 | R_AARCH64_PREL64 | R_AARCH64_PREL32 | R_AARCH64_PREL16
  | R_AARCH64_PLT32 | R_AARCH64_MOVW_UABS_G0 | R_AARCH64_MOVW_UABS_G0_NC
  | R_AARCH64_MOVW_UABS_G1 | R_AARCH64_MOVW_UABS_G1_NC | R_AARCH64_MOVW_UABS_G2
  | R_AARCH64_MOVW_UABS_G2_NC | R_AARCH64_MOVW_UABS_G3 | R_AARCH64_MOVW_SABS_G0
  | R_AARCH64_MOVW_SABS_G1 | R_AARCH64_MOVW_SABS_G2 | R_AARCH64_LD_PREL_LO19
  | R_AARCH64_ADR_PREL_LO21 | R_AARCH64_ADR_PREL_PG_HI21 | R_AARCH64_ADR_PREL_PG_HI21_NC
  | R_AARCH64_ADD_ABS_LO12_NC | R_AARCH64_LDST8_ABS_LO12_NC
  | R_AARCH64_LDST16_ABS_LO12_NC | R_AARCH64_LDST32_ABS_LO12_NC
  | R_AARCH64_LDST64_ABS_LO12_NC | R_AARCH64_LDST128_ABS_LO12_NC | R_AARCH64_TSTBR14
  | R_AARCH64_CONDBR19 | R_AARCH64_JUMP26 | R_AARCH64_CALL26 | R_AARCH64_MOVW_PREL_G0
  | R_AARCH64_MOVW_PREL_G0_NC | R_AARCH64_MOVW_PREL_G1 | R_AARCH64_MOVW_PREL_G1_NC
  | R_AARCH64_MOVW_PREL_G2 | R_AARCH64_MOVW_PREL_G2_NC | R_AARCH64_MOVW_PREL_G3
  | R_AARCH64_MOVW_GOTOFF_G0 | R_AARCH64_MOVW_GOTOFF_G0_NC | R_AARCH64_MOVW_GOTOFF_G1
  | R_AARCH64_MOVW_GOTOFF_G1_NC | R_AARCH64_MOVW_GOTOFF_G2 | R_AARCH64_MOVW_GOTOFF_G2_NC
  | R_AARCH64_MOVW_GOTOFF_G3 | R_AARCH64_GOTREL64 | R_AARCH64_GOTREL32
  | R_AARCH64_GOTPCREL32 | R_AARCH64_GOT_LD_PREL19 | R_AARCH64_LD64_GOTOFF_LO15
  | R_AARCH64_ADR_GOT_PAGE | R_AARCH64_LD64_GOT_LO12_NC | R_AARCH64_LD64_GOTPAGE_LO15
  | R_AARCH64_TLSGD_ADR_PREL21 | R_AARCH64_TLSGD_ADR_PAGE21
  | R_AARCH64_TLSGD_ADD_LO12_NC | R_AARCH64_TLSGD_MOVW_G1 | R_AARCH64_TLSGD_MOVW_G0_NC
  | R_AARCH64_TLSLD_ADR_PREL21 | R_AARCH64_TLSLD_ADR_PAGE21
  | R_AARCH64_TLSLD_ADD_LO12_NC | R_AARCH64_TLSLD_MOVW_G1 | R_AARCH64_TLSLD_MOVW_G0_NC
  | R_AARCH64_TLSLD_LD_PREL19 | R_AARCH64_TLSLD_MOVW_DTPREL_G2
  | R_AARCH64_TLSLD_MOVW_DTPREL_G1 | R_AARCH64_TLSLD_MOVW_DTPREL_G1_NC
  | R_AARCH64_TLSLD_MOVW_DTPREL_G0 | R_AARCH64_TLSLD_MOVW_DTPREL_G0_NC
  | R_AARCH64_TLSLD_ADD_DTPREL_HI12 | R_AARCH64_TLSLD_ADD_DTPREL_LO12
  | R_AARCH64_TLSLD_ADD_DTPREL_LO12_NC | R_AARCH64_TLSLD_LDST8_DTPREL_LO12
  | R_AARCH64_TLSLD_LDST8_DTPREL_LO12_NC | R_AARCH64_TLSLD_LDST16_DTPREL_LO12
  | R_AARCH64_TLSLD_LDST16_DTPREL_LO12_NC | R_AARCH64_TLSLD_LDST32_DTPREL_LO12
  | R_AARCH64_TLSLD_LDST32_DTPREL_LO12_NC | R_AARCH64_TLSLD_LDST64_DTPREL_LO12
  | R_AARCH64_TLSLD_LDST64_DTPREL_LO12_NC | R_AARCH64_TLSLD_LDST128_DTPREL_LO12
  | R_AARCH64_TLSLD_LDST128_DTPREL_LO12_NC | R_AARCH64_TLSIE_MOVW_GOTTPREL_G1
  | R_AARCH64_TLSIE_MOVW_GOTTPREL_G0_NC | R_AARCH64_TLSIE_ADR_GOTTPREL_PAGE21
  | R_AARCH64_TLSIE_LD64_GOTTPREL_LO12_NC | R_AARCH64_TLSIE_LD_GOTTPREL_PREL19
  | R_AARCH64_TLSLE_MOVW_TPREL_G2 | R_AARCH64_TLSLE_MOVW_TPREL_G1
  | R_AARCH64_TLSLE_MOVW_TPREL_G1_NC | R_AARCH64_TLSLE_MOVW_TPREL_G0
  | R_AARCH64_TLSLE_MOVW_TPREL_G0_NC | R_AARCH64_TLSLE_ADD_TPREL_HI12
  | R_AARCH64_TLSLE_ADD_TPREL_LO12 | R_AARCH64_TLSLE_ADD_TPREL_LO12_NC
  | R_AARCH64_TLSLE_LDST8_TPREL_LO12 | R_AARCH64_TLSLE_LDST8_TPREL_LO12_NC
  | R_AARCH64_TLSLE_LDST16_TPREL_LO12 | R_AARCH64_TLSLE_LDST16_TPREL_LO12_NC
  | R_AARCH64_TLSLE_LDST32_TPREL_LO12 | R_AARCH64_TLSLE_LDST32_TPREL_LO12_NC
  | R_AARCH64_TLSLE_LDST64_TPREL_LO12 | R_AARCH64_TLSLE_LDST64_TPREL_LO12_NC
  | R_AARCH64_TLSLE_LDST128_TPREL_LO12 | R_AARCH64_TLSLE_LDST128_TPREL_LO12_NC
  | R_AARCH64_TLSDESC_LD_PREL19 | R_AARCH64_TLSDESC_ADR_PREL21
  | R_AARCH64_TLSDESC_ADR_PAGE21 | R_AARCH64_TLSDESC_LD64_LO12
  | R_AARCH64_TLSDESC_ADD_LO12 | R_AARCH64_TLSDESC_OFF_G1 | R_AARCH64_TLSDESC_OFF_G0_NC
  | R_AARCH64_TLSDESC_CALL
  | R_AARCH64_unlisted (raw : Z).

Inductive R_RISCV :=
  | R_RISCV_COPY | R_RISCV_IRELATIVE | R_RISCV_TLS_DTPMOD64 | R_RISCV_TLS_DTPREL64
  | R_RISCV_TLS_TPREL64 | R_RISCV_RELATIVE | R_RISCV_64 | R_RISCV_TLSDESC
  | R_RISCV_JUMP_SLOT | R_RISCV_NONE | R_RISCV_32 | R_RISCV_BRANCH | R_RISCV_JAL
  | R_RISCV_CALL | R_RISCV_CALL_PLT | R_RISCV_GOT_HI20 | R_RISCV_TLS_GOT_HI20
  | R_RISCV_TLS_GD_HI20 | R_RISCV_PCREL_HI20 | R_RISCV_PCREL_LO12_I
  | R_RISCV_PCREL_LO12_S | R_RISCV_HI20 | R_RISCV_LO12_I | R_RISCV_LO12_S
  | R_RISCV_TPREL_HI20 | R_RISCV_TPREL_LO12_I | R_RISCV_TPREL_LO12_S | R_RISCV_TPREL_ADD
  | R_RISCV_ADD8 | R_RISCV_ADD16 | R_RISCV_ADD32 | R_RISCV_ADD64 | R_RISCV_SUB8
  | R_RISCV_SUB16 | R_RISCV_SUB32 | R_RISCV_SUB64 | R_RISCV_GOT32_PCREL | R_RISCV_ALIGN
  | R_RISCV_RVC_BRANCH | R_RISCV_RVC_JUMP | R_RISCV_RELAX | R_RISCV_SUB6 | R_RISCV_SET6
  | R_RISCV_SET8 | R_RISCV_SET16 | R_RISCV_SET32 | R_RISCV_32_PCREL | R_RISCV_PLT32
  | R_RISCV_SET_ULEB128 | R_RISCV_SUB_ULEB128 | R_RISCV_TLSDESC_HI20
  | R_RISCV_TLSDESC_LOAD_LO12 | R_RISCV_TLSDESC_ADD_LO12 | R_RISCV_TLSDESC_CALL
  | R_RISCV_unlisted (raw : Z).

Inductive R_LARCH :=
  | R_LARCH_COPY | R_LARCH_IRELATIVE | R_LARCH_TLS_DTPMOD64 | R_LARCH_TLS_DTPREL64
  | R_LARCH_TLS_TPREL64 | R_LARCH_RELATIVE | R_LARCH_64 | R_LARCH_TLS_DESC64
  | R_LARCH_JUMP_SLOT | R_LARCH_NONE | R_LARCH_32 | R_LARCH_ADD6 | R_LARCH_ADD8
  | R_LARCH_ADD16 | R_LARCH_ADD24 | R_LARCH_ADD32 | R_LARCH_ADD64 | R_LARCH_SUB6
  | R_LARCH_SUB8 | R_LARCH_SUB16 | R_LARCH_SUB24 | R_LARCH_SUB32 | R_LARCH_SUB64
  | R_LARCH_ADD_ULEB128 | R_LARCH_SUB_ULEB128 | R_LARCH_ABS_HI20 | R_LARCH_ABS_LO12
  | R_LARCH_ABS64_HI12 | R_LARCH_ABS64_LO20 | R_LARCH_PCALA_HI20 | R_LARCH_PCALA_LO12
  | R_LARCH_PCALA64_HI12 | R_LARCH_PCALA64_LO20 | R_LARCH_32_PCREL | R_LARCH_PCREL20_S2
  | R_LARCH_64_PCREL | R_LARCH_PCADD_HI20 | R_LARCH_GOT_PC_HI20 | R_LARCH_GOT_PC_LO12
  | R_LARCH_GOT64_PC_HI12 | R_LARCH_GOT64_PC_LO20 | R_LARCH_B16 | R_LARCH_B21
  | R_LARCH_B26 | R_LARCH_CALL36 | R_LARCH_CALL30 | R_LARCH_TLS_LE_HI20
  | R_LARCH_TLS_LE_LO12 | R_LARCH_TLS_LE64_LO20 | R_LARCH_TLS_LE64_HI12
  | R_LARCH_TLS_LE_HI20_R | R_LARCH_TLS_LE_LO12_R | R_LARCH_TLS_IE_PC_HI20
  | R_LARCH_TLS_IE_PC_LO12 | R_LARCH_TLS_IE64_PC_LO20 | R_LARCH_TLS_IE64_PC_HI12
  | R_LARCH_TLS_IE_HI20 | R_LARCH_TLS_IE_LO12 | R_LARCH_TLS_IE64_HI12
  | R_LARCH_TLS_IE64_LO20 | R_LARCH_TLS_LD_PC_HI20 | R_LARCH_TLS_LD_HI20
  | R_LARCH_TLS_GD_PC_HI20 | R_LARCH_TLS_GD_HI20 | R_LARCH_TLS_DESC_PC_HI20
  | R_LARCH_TLS_DESC_PC_LO12 | R_LARCH_TLS_DESC64_PC_HI12 | R_LARCH_TLS_DESC64_PC_LO20
  | R_LARCH_TLS_DESC_LD | R_LARCH_TLS_DESC_CALL | R_LARCH_TLS_DTPREL32
  | R_LARCH_TLS_LD_PCREL20_S2 | R_LARCH_TLS_GD_PCREL20_S2 | R_LARCH_TLS_DESC_PCREL20_S2
  | R_LARCH_RELAX | R_LARCH_TLS_LE_ADD_R | R_LARCH_ALIGN
  | R_LARCH_unlisted (raw : Z).

Inductive R_PPC64 :=
  | R_PPC64_COPY | R_PPC64_IRELATIVE | R_PPC64_DTPMOD64 | R_PPC64_DTPREL64
  | R_PPC64_TPREL64 | R_PPC64_RELATIVE | R_PPC64_ADDR64 | R_PPC64_GLOB_DAT
  | R_PPC64_JMP_SLOT | R_PPC64_ADDR32 | R_PPC64_REL64 | R_PPC64_REL32 | R_PPC64_REL24
  | R_PPC64_REL14 | R_PPC64_REL16_HA | R_PPC64_REL16_LO | R_PPC64_TOC16_HA
  | R_PPC64_TOC16_LO | R_PPC64_TOC16_LO_DS
  | R_PPC64_unlisted (raw : Z).

Inductive RelocationType :=
| RT_X86_64 (r : R_X86_64)
| RT_AARCH64 (r : R_AARCH64)
| RT_RISCV (r : R_RISCV)
| RT_LARCH (r : R_LARCH)
| RT_PPC64 (r : R_PPC64).

(** ** Relocation kinds and instruction forms *)
Inductive Sign := Signed | Unsigned.

Module RelKind.
Inductive RelocationKind :=
| Absolute
| AbsoluteSet
| AbsoluteSetWord6
| AbsoluteAddition
| AbsoluteAdditionWord6
| AbsoluteSubtraction
| AbsoluteSubtractionWord6
| AbsoluteLowPart
| PairSubtractionULEB128 (r_type : RelocationType)
| Relative
| RelativeLoongArchHigh
| RelativeRiscVLow12
| SymRelGotBase
| GotRelGotBase
| Got
| PltRelGotBase
| PltRelative
| GotRelative
| GotRelativeLoongArch64
| TlsGd
| TlsGdGot
| TlsGdGotBase
| TlsLd
| TlsLdGot
| TlsLdGotBase
| DtpOff
| GotTpOff
| GotTpOffLoongArch64
| GotTpOffGot
| GotTpOffGotBase
| TpOff
| TlsDesc
| TlsDescLoongArch64
| TlsDescGot
| TlsDescGotBase
| TlsDescCall
| None
| Alignment.
End RelKind.
Abbreviation RelocationKind := RelKind.RelocationKind.

Module DynKind.
Inductive DynamicRelocationKind :=
| Copy
| Irelative
| DtpMod
| DtpOff
| TlsDesc
| TpOff
| Relative
| Absolute
| GotEntry
| JumpSlot.
End DynKind.
Abbreviation DynamicRelocationKind := DynKind.DynamicRelocationKind.

Module A64.
Inductive AArch64Instruction :=
| Adr
| Movkz
| Movnz
| Ldr
| LdrRegister
| Add
| LdSt
| TstBr
| Bcond
| JumpCall
| MachOLow12.
End A64.
Abbreviation AArch64Instruction := A64.AArch64Instruction.

Module RV.
Inductive RiscVInstruction :=
| UiType
| UType
| IType
| SType
| BType
| JType
| CbType
| CjType
| CluiType.
End RV.
Abbreviation RiscVInstruction := RV.RiscVInstruction.

Module LA.
Inductive LoongArch64Instruction :=
| Shift5
| Shift10
| Branch21
| Branch26
| Call30
| Call36.
End LA.
Abbreviation LoongArch64Instruction := LA.LoongArch64Instruction.

Module PPC.
Inductive Ppc64Instruction :=
| D
| Ds
| Branch14
| Branch24.
End PPC.
Abbreviation Ppc64Instruction := PPC.Ppc64Instruction.

Module RelInsn.
Inductive RelocationInstruction :=
| AArch64 (insn : AArch64Instruction)
| RiscV (insn : RiscVInstruction)
| LoongArch64 (insn : LoongArch64Instruction)
| Ppc64 (insn : Ppc64Instruction).
End RelInsn.
Abbreviation RelocationInstruction := RelInsn.RelocationInstruction.

Record BitMask := mkBitMask { bm_instruction : RelocationInstruction; bm_range : BitRange }.

Module RelSize.
Inductive RelocationSize :=
| ByteSize (bytes : Z)
| BitMasking (mask : BitMask).
End RelSize.
Abbreviation RelocationSize := RelSize.RelocationSize.

Module PageMask.
Inductive PageMask :=
| SymbolPlusAddendAndPosition (mask : Z)
| GotEntryAndPosition (mask : Z)
| GotBase (mask : Z)
| Position (mask : Z).
End PageMask.
Abbreviation PageMask := PageMask.PageMask.

Record AllowedRange := mkAllowedRange { ar_min : Z; ar_max : Z }.

#[export] Instance AllowedRange_eq_dec : EqDecision AllowedRange.
Proof. solve_decision. Defined.

Record RelocationKindInfo := mkRelocationKindInfo {
  rki_kind : RelocationKind;
  rki_size : RelocationSize;
  rki_mask : option PageMask;
  rki_range : AllowedRange;
  rki_alignment : Z;
  rki_bias : Z;
  rki_thunkable : bool
}.

#[export] Instance DynamicRelocationKind_eq_dec : EqDecision DynamicRelocationKind.
Proof. solve_decision. Defined.

(** ** Sizes, page masks and bit masks *)
Definition SIZE_2KB : Z := 2 ^ 11.
Definition SIZE_4KB : Z := 2 ^ 12.
Definition SIZE_2GB : Z := 2 ^ 31.
Definition SIZE_4GB : Z := 2 ^ 32.
Definition PAGE_MASK_4KB : Z := SIZE_4KB - 1.
Definition PAGE_MASK_4GB : Z := SIZE_4GB - 1.

Definition BitMask_new (insn : RelocationInstruction) (bit_start bit_end : Z) : BitMask :=
  mkBitMask insn (mkBitRange bit_start bit_end).

Definition bit_mask_aarch64 (bit_start bit_end : Z) (i : AArch64Instruction) : RelocationSize :=
  RelSize.BitMasking (BitMask_new (RelInsn.AArch64 i) bit_start bit_end).

Definition bit_mask_riscv (bit_start bit_end : Z) (i : RiscVInstruction) : RelocationSize :=
  RelSize.BitMasking (BitMask_new (RelInsn.RiscV i) bit_start bit_end).

Definition bit_mask_loongarch64 (bit_start bit_end : Z) (i : LoongArch64Instruction) : RelocationSize :=
  RelSize.BitMasking (BitMask_new (RelInsn.LoongArch64 i) bit_start bit_end).

Definition bit_mask_ppc64 (bit_start bit_end : Z) (i : Ppc64Instruction) : RelocationSize :=
  RelSize.BitMasking (BitMask_new (RelInsn.Ppc64 i) bit_start bit_end).

Definition is_ppc64_branch (size : RelocationSize) : bool :=
  match size with
  | RelSize.BitMasking (mkBitMask (RelInsn.Ppc64 (PPC.Branch14 | PPC.Branch24)) _) => true
  | _ => false
  end.

Definition is_tls (kind : RelocationKind) : bool :=
  match kind with
  | RelKind.DtpOff | RelKind.GotTpOff | RelKind.GotTpOffGotBase | RelKind.TlsDesc
  | RelKind.TlsDescCall | RelKind.TlsDescGot | RelKind.TlsDescGotBase | RelKind.TlsGd
  | RelKind.TlsGdGot | RelKind.TlsGdGotBase | RelKind.TlsLd | RelKind.TlsLdGot
  | RelKind.TlsLdGotBase | RelKind.TpOff => true
  | _ => false
  end.

(** ** Allowed ranges of relocation values *)
Definition no_check : AllowedRange := mkAllowedRange (- 2 ^ 63) (2 ^ 63 - 1).

Definition from_bit_size (n_bits : Z) (sign : Sign) : res AllowedRange :=
  if (n_bits =? 0) || (n_bits =? 64) then Ok no_check
  else if (n_bits =? 63) && match sign with Unsigned => true | Signed => false end then Panic
  else if (1 <=? n_bits) && (n_bits <? 64) then
    Ok match sign with
       | Unsigned => mkAllowedRange 0 (2 ^ n_bits)
       | Signed => mkAllowedRange (- 2 ^ (n_bits - 1)) (2 ^ (n_bits - 1))
       end
  else Panic.

Definition from_byte_size (n_bytes : Z) (sign : Sign) : res AllowedRange :=
  from_bit_size (wmul 64 8 n_bytes) sign.

Definition contains (r : AllowedRange) (value : Z) : bool :=
  (ar_min r <=? value) && (value <? ar_max r).

Definition overrun (r : AllowedRange) (value : Z) : Z :=
  if value <? ar_min r then signed 64 (value - ar_min r)
  else if ar_max r <? value then signed 64 (value - ar_max r)
  else 0.

(** [RelocationKindInfo::verify], on the value read as an [i64]. *)
Definition is_multiple_of (x n : Z) : bool :=
  if n =? 0 then x =? 0 else x mod n =? 0.

Definition verify (info : RelocationKindInfo) (value : Z) : res unit :=
  _ ← ensure (is_multiple_of (wrap 64 value) (rki_alignment info))
        "Relocation {value} not aligned to {} bytes";
  ensure (contains (rki_range info) value) "Relocation {value} outside of bounds [{}, {})".

(** ** Rows of the per-architecture relocation tables

    A row is the tuple the source matches to; its range is still a [res]
    because [from_bit_size] may panic. *)
Record RelocEntry := entry {
  re_kind : RelocationKind;
  re_size : RelocationSize;
  re_mask : option PageMask;
  re_range : res AllowedRange;
  re_alignment : Z;
  re_bias : Z
}.

Definition finish_entry (thunkable : bool) (e : option RelocEntry) : res (option RelocationKindInfo) :=
  match e with
  | None => Ok None
  | Some e =>
      range ← re_range e;
      Ok (Some (mkRelocationKindInfo (re_kind e) (re_size e) (re_mask e) range
                  (re_alignment e) (re_bias e) thunkable))
  end.

(** Tries the groups of match arms in order. *)
Definition first_arm {T} (groups : list (T -> option RelocEntry)) (r_type : T) : option RelocEntry :=
  foldr (fun g rest => match g r_type with Some e => Some e | None => rest end) None groups.

(** ** Dynamic relocation kinds *)
Definition from_x86_64_r_type (r_type : R_X86_64) : option DynamicRelocationKind :=
  match r_type with
  | R_X86_64_COPY => Some DynKind.Copy
  | R_X86_64_IRELATIVE => Some DynKind.Irelative
  | R_X86_64_DTPMOD64 => Some DynKind.DtpMod
  | R_X86_64_DTPOFF64 => Some DynKind.DtpOff
  | R_X86_64_TPOFF64 => Some DynKind.TpOff
  | R_X86_64_RELATIVE => Some DynKind.Relative
  | R_X86_64_GLOB_DAT => Some DynKind.GotEntry
  | R_X86_64_64 => Some DynKind.Absolute
  | R_X86_64_TLSDESC => Some DynKind.TlsDesc
  | R_X86_64_JUMP_SLOT => Some DynKind.JumpSlot
  | _ => None
  end.

Definition x86_64_r_type (kind : DynamicRelocationKind) : R_X86_64 :=
  match kind with
  | DynKind.Copy => R_X86_64_COPY
  | DynKind.Irelative => R_X86_64_IRELATIVE
  | DynKind.DtpMod => R_X86_64_DTPMOD64
  | DynKind.DtpOff => R_X86_64_DTPOFF64
  | DynKind.TpOff => R_X86_64_TPOFF64
  | DynKind.Relative => R_X86_64_RELATIVE
  | DynKind.Absolute => R_X86_64_64
  | DynKind.GotEntry => R_X86_64_GLOB_DAT
  | DynKind.TlsDesc => R_X86_64_TLSDESC
  | DynKind.JumpSlot => R_X86_64_JUMP_SLOT
  end.

Definition from_aarch64_r_type (r_type : R_AARCH64) : option DynamicRelocationKind :=
  match r_type with
  | R_AARCH64_COPY => Some DynKind.Copy
  | R_AARCH64_IRELATIVE => Some DynKind.Irelative
  | R_AARCH64_TLS_DTPMOD => Some DynKind.DtpMod
  | R_AARCH64_TLS_DTPREL => Some DynKind.DtpOff
  | R_AARCH64_TLS_TPREL => Some DynKind.TpOff
  | R_AARCH64_RELATIVE => Some DynKind.Relative
  | R_AARCH64_ABS64 => Some DynKind.Absolute
  | R_AARCH64_GLOB_DAT => Some DynKind.GotEntry
  | R_AARCH64_TLSDESC => Some DynKind.TlsDesc
  | R_AARCH64_JUMP_SLOT => Some DynKind.JumpSlot
  | _ => None
  end.

Definition aarch64_r_type (kind : DynamicRelocationKind) : R_AARCH64 :=
  match kind with
  | DynKind.Copy => R_AARCH64_COPY
  | DynKind.Irelative => R_AARCH64_IRELATIVE
  | DynKind.DtpMod => R_AARCH64_TLS_DTPMOD
  | DynKind.DtpOff => R_AARCH64_TLS_DTPREL
  | DynKind.TpOff => R_AARCH64_TLS_TPREL
  | DynKind.Relative => R_AARCH64_RELATIVE
  | DynKind.Absolute => R_AARCH64_ABS64
  | DynKind.GotEntry => R_AARCH64_GLOB_DAT
  | DynKind.TlsDesc => R_AARCH64_TLSDESC
  | DynKind.JumpSlot => R_AARCH64_JUMP_SLOT
  end.

Definition from_riscv64_r_type (r_type : R_RISCV) : option DynamicRelocationKind :=
  match r_type with
  | R_RISCV_COPY => Some DynKind.Copy
  | R_RISCV_IRELATIVE => Some DynKind.Irelative
  | R_RISCV_TLS_DTPMOD64 => Some DynKind.DtpMod
  | R_RISCV_TLS_DTPREL64 => Some DynKind.DtpOff
  | R_RISCV_TLS_TPREL64 => Some DynKind.TpOff
  | R_RISCV_RELATIVE => Some DynKind.Relative
  | R_RISCV_64 => Some DynKind.Absolute
  | R_RISCV_TLSDESC => Some DynKind.TlsDesc
  | R_RISCV_JUMP_SLOT => Some DynKind.JumpSlot
  | _ => None
  end.

Definition riscv64_r_type (kind : DynamicRelocationKind) : R_RISCV :=
  match kind with
  | DynKind.Copy => R_RISCV_COPY
  | DynKind.Irelative => R_RISCV_IRELATIVE
  | DynKind.DtpMod => R_RISCV_TLS_DTPMOD64
  | DynKind.DtpOff => R_RISCV_TLS_DTPREL64
  | DynKind.TpOff => R_RISCV_TLS_TPREL64
  | DynKind.Relative => R_RISCV_RELATIVE
  | DynKind.Absolute => R_RISCV_64
  | DynKind.GotEntry => R_RISCV_64
  | DynKind.TlsDesc => R_RISCV_TLSDESC
  | DynKind.JumpSlot => R_RISCV_JUMP_SLOT
  end.

Definition from_loongarch64_r_type (r_type : R_LARCH) : option DynamicRelocationKind :=
  match r_type with
  | R_LARCH_COPY => Some DynKind.Copy
  | R_LARCH_IRELATIVE => Some DynKind.Irelative
  | R_LARCH_TLS_DTPMOD64 => Some DynKind.DtpMod
  | R_LARCH_TLS_DTPREL64 => Some DynKind.DtpOff
  | R_LARCH_TLS_TPREL64 => Some DynKind.TpOff
  | R_LARCH_RELATIVE => Some DynKind.Relative
  | R_LARCH_64 => Some DynKind.Absolute
  | R_LARCH_TLS_DESC64 => Some DynKind.TlsDesc
  | R_LARCH_JUMP_SLOT => Some DynKind.JumpSlot
  | _ => None
  end.

Definition loongarch64_r_type (kind : DynamicRelocationKind) : R_LARCH :=
  match kind with
  | DynKind.Copy => R_LARCH_COPY
  | DynKind.Irelative => R_LARCH_IRELATIVE
  | DynKind.DtpMod => R_LARCH_TLS_DTPMOD64
  | DynKind.DtpOff => R_LARCH_TLS_DTPREL64
  | DynKind.TpOff => R_LARCH_TLS_TPREL64
  | DynKind.Relative => R_LARCH_RELATIVE
  | DynKind.Absolute => R_LARCH_64
  | DynKind.GotEntry => R_LARCH_64
  | DynKind.TlsDesc => R_LARCH_TLS_DESC64
  | DynKind.JumpSlot => R_LARCH_JUMP_SLOT
  end.

Definition from_ppc64_r_type (r_type : R_PPC64) : option DynamicRelocationKind :=
  match r_type with
  | R_PPC64_COPY => Some DynKind.Copy
  | R_PPC64_IRELATIVE => Some DynKind.Irelative
  | R_PPC64_DTPMOD64 => Some DynKind.DtpMod
  | R_PPC64_DTPREL64 => Some DynKind.DtpOff
  | R_PPC64_TPREL64 => Some DynKind.TpOff
  | R_PPC64_RELATIVE => Some DynKind.Relative
  | R_PPC64_ADDR64 => Some DynKind.Absolute
  | R_PPC64_GLOB_DAT => Some DynKind.GotEntry
  | R_PPC64_JMP_SLOT => Some DynKind.JumpSlot
  | _ => None
  end.

Definition ppc64_r_type (kind : DynamicRelocationKind) : res R_PPC64 :=
  match kind with
  | DynKind.Copy => Ok R_PPC64_COPY
  | DynKind.Irelative => Ok R_PPC64_IRELATIVE
  | DynKind.DtpMod => Ok R_PPC64_DTPMOD64
  | DynKind.DtpOff => Ok R_PPC64_DTPREL64
  | DynKind.TpOff => Ok R_PPC64_TPREL64
  | DynKind.Relative => Ok R_PPC64_RELATIVE
  | DynKind.Absolute => Ok R_PPC64_ADDR64
  | DynKind.GotEntry => Ok R_PPC64_GLOB_DAT
  | DynKind.TlsDesc => Panic
  | DynKind.JumpSlot => Ok R_PPC64_JMP_SLOT
  end.

(** ** Theorems *)

(** The range check accepts exactly the values the field represents: a
    signed [n]-bit range the values that survive truncation to [n] bits read as
    signed, an unsigned one those that survive it read as unsigned; [overrun] is zero
    on accepted values, and otherwise the distance to the violated bound, which for
    the first rejected value above is also zero. *)
Theorem from_bit_size_accepts_representable n sign v :
  1 <= n <= 62 -> in_i 64 v ->
  exists r, from_bit_size n sign = Ok r /\
    (contains r v = true <-> match sign with Signed => signed n v = v | Unsigned => wrap n v = v end) /\
    (in_i 64 (v - ar_min r) -> in_i 64 (v - ar_max r) ->
     overrun r v = (if contains r v then 0 else if v <? 0 then v - ar_min r else v - ar_max r)).
Proof.
  intros Hn Hv. unfold from_bit_size.
  rewrite (proj2 (Z.eqb_neq n 0)), (proj2 (Z.eqb_neq n 64)), (proj2 (Z.eqb_neq n 63)) by lia.
  rewrite (proj2 (Z.leb_le 1 n)), (proj2 (Z.ltb_lt n 64)) by lia. cbn [orb andb].
  assert (0 < 2 ^ (n - 1)) as Hp by (apply Z.pow_pos_nonneg; lia).
  assert (2 ^ n = 2 * 2 ^ (n - 1)) as Hp2 by (rewrite <- Z.pow_succ_r by lia; f_equal; lia).
  eexists. split; [done|]. split.
  - unfold contains. rewrite andb_true_iff, Z.leb_le, Z.ltb_lt. destruct sign; cbn [ar_min ar_max].
    + split.
      * intros H. apply signed_of_signed; [lia|]. unfold in_i. lia.
      * intros <-. apply signed_range. lia.
    + split.
      * intros H. by apply wrap_small.
      * intros <-. apply wrap_range. lia.
  - unfold overrun, contains. intros Hlo Hhi.
    destruct sign; cbn [ar_min ar_max] in *;
      repeat case_match; rewrite ?andb_true_iff, ?andb_false_iff, ?Z.leb_le, ?Z.leb_gt,
        ?Z.ltb_lt, ?Z.ltb_ge in *; rewrite ?signed_of_signed by (lia || done); lia.
Qed.

Lemma from_bit_size_accepts_representable_witness :
  exists r, from_bit_size 21 Signed = Ok r /\
    (contains r (-1048576) = true <-> signed 21 (-1048576) = -1048576) /\
    (in_i 64 (-1048576 - ar_min r) -> in_i 64 (-1048576 - ar_max r) ->
     overrun r (-1048576) =
       (if contains r (-1048576) then 0
        else if -1048576 <? 0 then -1048576 - ar_min r else -1048576 - ar_max r)).
Proof.
  apply (from_bit_size_accepts_representable 21 Signed (-1048576)).
  - lia.
  - split; vm_compute; congruence.
Defined.

(** Dynamic relocation kinds survive the trip through every target's
    relocation numbers, except that RISC-V and LoongArch share one number between
    [GotEntry] and [Absolute], and PowerPC64 has none for [TlsDesc]. *)
Theorem dynamic_kinds_roundtrip kind :
  from_x86_64_r_type (x86_64_r_type kind) = Some kind /\
  from_aarch64_r_type (aarch64_r_type kind) = Some kind /\
  from_riscv64_r_type (riscv64_r_type kind) =
    Some (if bool_decide (kind = DynKind.GotEntry) then DynKind.Absolute else kind) /\
  from_loongarch64_r_type (loongarch64_r_type kind) =
    Some (if bool_decide (kind = DynKind.GotEntry) then DynKind.Absolute else kind) /\
  match ppc64_r_type kind with
  | Ok r => from_ppc64_r_type r = Some kind
  | Panic => kind = DynKind.TlsDesc
  | Err _ => False
  end.
Proof. by destruct kind. Qed.
