(* ===== verification/Relaxation.v ===== *)
(** Relaxation bookkeeping: [linker-utils/src/relaxation.rs], and the
    in/out arguments shared by every architecture's [RelaxationKind::apply]. *)
From Stdlib Require Import ZArith Lia.
From stdpp Require Import base list list_numbers numbers strings option sorting.
From S2P Require Import Prelude Bits BitMisc.

Local Open Scope Z_scope.

Inductive RelocationModifier := Normal | SkipNextRelocation.

(** The [&mut] arguments of [RelaxationKind::apply]. *)
Record ApplyArgs := mkApplyArgs {
  section_bytes : list Z;
  offset_in_section : Z;
  addend : Z
}.

Definition with_bytes (s : ApplyArgs) (m : res (list Z)) : res ApplyArgs :=
  b ← m; Ok (mkApplyArgs b (offset_in_section s) (addend s)).

(** ** SectionRelaxDeltas *)
Record RelaxDelta := mkRelaxDelta {
  input_offset : Z;
  cumulative_deleted : Z;
  bytes_deleted : Z
}.

(** [[T]::partition_point]: the first index whose element fails the predicate;
    the slices it is used on are sorted so that it splits them. *)
Fixpoint partition_point {A} (p : A -> bool) (l : list A) : nat :=
  match l with
  | [] => 0
  | x :: l => if p x then S (partition_point p l) else 0
  end.

(** [slice::binary_search_by_key] on strictly increasing keys. *)
Definition binary_search_by_key {A} (key : A -> Z) (k : Z) (l : list A) : option nat :=
  let i := partition_point (fun x => key x <? k) l in
  match l !! i with
  | Some x => if key x =? k then Some i else None
  | None => None
  end.

(** The loop of [SectionRelaxDeltas::new], from a running total. *)
Fixpoint new_from (running : Z) (raw : list (Z * Z)) : list RelaxDelta :=
  match raw with
  | [] => []
  | (input_offset, bytes_deleted) :: raw =>
      let running := wadd 64 running bytes_deleted in
      mkRelaxDelta input_offset running bytes_deleted :: new_from running raw
  end.

Definition new (raw : list (Z * Z)) : list RelaxDelta := new_from 0 raw.

Definition total_deleted (deltas : list RelaxDelta) : Z :=
  match last deltas with Some d => cumulative_deleted d | None => 0 end.

(** [sort_by_key], which is stable. *)
Fixpoint insert_by_offset (x : Z * Z) (l : list (Z * Z)) : list (Z * Z) :=
  match l with
  | [] => [x]
  | y :: l => if x.1 <=? y.1 then x :: y :: l else y :: insert_by_offset x l
  end.

Definition sort_by_offset (l : list (Z * Z)) : list (Z * Z) := foldr insert_by_offset [] l.

Definition merge_additional (deltas : list RelaxDelta) (additional : list (Z * Z)) : list RelaxDelta :=
  match additional with
  | [] => deltas
  | _ =>
      let raw := map (fun d => (input_offset d, bytes_deleted d)) deltas ++ additional in
      new (sort_by_offset raw)
  end.

Definition has_delta_at (deltas : list RelaxDelta) (offset : Z) : bool :=
  match binary_search_by_key input_offset offset deltas with Some _ => true | None => false end.

Definition delta_bytes_at (deltas : list RelaxDelta) (offset : Z) : res Z :=
  match binary_search_by_key input_offset offset deltas with
  | Some i => match deltas !! i with Some d => Ok (bytes_deleted d) | None => Panic end
  | None => Ok 0
  end.

(** [self.deltas[idx - 1].cumulative_deleted]. *)
Definition cumulative_before (deltas : list RelaxDelta) (idx : nat) : res Z :=
  match deltas !! (idx - 1)%nat with Some d => Ok (cumulative_deleted d) | None => Panic end.

Definition input_to_output_offset (deltas : list RelaxDelta) (input : Z) : res Z :=
  match deltas with
  | [] => Ok input
  | _ =>
      let idx := partition_point (fun d => input_offset d <? input) deltas in
      if (idx =? 0)%nat then Ok input
      else c ← cumulative_before deltas idx; Ok (wsub 64 input c)
  end.

Definition output_to_input_offset (deltas : list RelaxDelta) (output : Z) : res Z :=
  match deltas with
  | [] => Ok output
  | _ =>
      let lo := partition_point (fun d =>
        wsub 64 (wadd 64 (input_offset d) (bytes_deleted d)) (cumulative_deleted d) <=? output) deltas in
      if (lo =? 0)%nat then Ok output
      else c ← cumulative_before deltas lo; Ok (wadd 64 output c)
  end.

(** ** RelaxCursor *)
Record RelaxCursor := mkRelaxCursor {
  rc_deltas : list RelaxDelta;
  rc_index : nat;
  rc_current_cumulative : Z
}.

Definition cursor (deltas : list RelaxDelta) : RelaxCursor := mkRelaxCursor deltas 0 0.

(** The [while] loop of [translate]; [fuel] bounds the iterations. *)
Fixpoint advance (fuel : nat) (c : RelaxCursor) (input : Z) : RelaxCursor :=
  match fuel with
  | O => c
  | S fuel =>
      match rc_deltas c !! rc_index c with
      | Some d =>
          if input_offset d <? input then
            advance fuel (mkRelaxCursor (rc_deltas c) (S (rc_index c)) (cumulative_deleted d)) input
          else c
      | None => c
      end
  end.

Definition translate (c : RelaxCursor) (input : Z) : Z * RelaxCursor :=
  let c := advance (length (rc_deltas c) - rc_index c) c input in
  (wsub 64 input (rc_current_cumulative c), c).

(** A cursor serving a sequence of queries. *)
Fixpoint translate_all (c : RelaxCursor) (inputs : list Z) : list Z :=
  match inputs with
  | [] => []
  | i :: inputs => let (o, c) := translate c i in o :: translate_all c inputs
  end.

Definition opt_input_to_output (deltas : option (list RelaxDelta)) (input : Z) : res Z :=
  match deltas with
  | Some d => input_to_output_offset d input
  | None => Ok input
  end.

(** ** RelaxDeltaMap: entries sorted by section index *)
Abbreviation RelaxDeltaMap := (list (Z * list RelaxDelta)).

Definition map_insert (m : RelaxDeltaMap) (section_index : Z) (deltas : list RelaxDelta) : RelaxDeltaMap :=
  m ++ [(section_index, deltas)].

Definition map_get (m : RelaxDeltaMap) (section_index : Z) : option (list RelaxDelta) :=
  i ← binary_search_by_key fst section_index m; snd <$> m !! i.

(** [*self.get_mut(section_index)? = f(..)]. *)
Definition map_update (m : RelaxDeltaMap) (section_index : Z)
    (f : list RelaxDelta -> list RelaxDelta) : option RelaxDeltaMap :=
  i ← binary_search_by_key fst section_index m;
  '(k, d) ← m !! i; Some (<[i := (k, f d)]> m).

Definition insert_sorted (m : RelaxDeltaMap) (section_index : Z) (deltas : list RelaxDelta) : RelaxDeltaMap :=
  let pos := partition_point (fun e => e.1 <? section_index) m in
  take pos m ++ (section_index, deltas) :: drop pos m.

(** ** Specification *)

(** The raw deletions of a section: sorted, disjoint, 64-bit. *)
Fixpoint well_formed (from : Z) (raw : list (Z * Z)) : Prop :=
  match raw with
  | [] => from < 2 ^ 64
  | (o, b) :: raw => from <= o /\ 0 < b /\ well_formed (o + b) raw
  end.

(** Bytes deleted at offsets before [o]. *)
Fixpoint deleted_before (raw : list (Z * Z)) (o : Z) : Z :=
  match raw with
  | [] => 0
  | (i, b) :: raw => (if i <? o then b else 0) + deleted_before raw o
  end.

(** The byte at input offset [j] survives. *)
Definition kept (raw : list (Z * Z)) (j : Z) : bool :=
  forallb (fun d => negb ((d.1 <=? j) && (j <? d.1 + d.2))) raw.

(** How many of the bytes in front of [o] survive. *)
Definition kept_below (raw : list (Z * Z)) (o : Z) : Z :=
  Z.of_nat (length (List.filter (kept raw) (seqZ 0 o))).

(** [o] is a position between surviving bytes: not in the middle of a deletion. *)
Definition boundary (raw : list (Z * Z)) (o : Z) : bool :=
  forallb (fun d => negb ((d.1 <? o) && (o <? d.1 + d.2))) raw.

(** The cumulative total after the leading deltas that satisfy [p]. *)
Fixpoint cumulative_at (p : RelaxDelta -> bool) (running : Z) (deltas : list RelaxDelta) : Z :=
  match deltas with
  | [] => running
  | d :: deltas => if p d then cumulative_at p (cumulative_deleted d) deltas else running
  end.

(** The invariant of [RelaxDeltaMap]. *)
Definition sorted_keys (m : RelaxDeltaMap) : Prop := StronglySorted Z.lt m.*1.

(** The deletion's output position is at most [p]. *)
Definition ends_by (p : Z) (d : RelaxDelta) : bool :=
  wsub 64 (wadd 64 (input_offset d) (bytes_deleted d)) (cumulative_deleted d) <=? p.

(** Deleted bytes below [o], with the deletion [o] falls into cut at [o]. *)
Fixpoint clipped (raw : list (Z * Z)) (o : Z) : Z :=
  match raw with
  | [] => 0
  | (i, b) :: raw => Z.max 0 (Z.min b (o - i)) + clipped raw o
  end.

(** All bytes deleted. *)
Fixpoint total_bytes (raw : list (Z * Z)) : Z :=
  match raw with [] => 0 | (_, b) :: raw => b + total_bytes raw end.

(** ** Lemmas *)
Lemma partition_point_le {A} p (l : list A) : (partition_point p l <= length l)%nat.
Proof. induction l as [|x l IH]; cbn; [lia|]. destruct (p x); cbn; lia. Qed.

(** The index arithmetic of the two translations is a left-to-right scan. *)
Lemma cumulative_before_at p running deltas :
  let idx := partition_point p deltas in
  cumulative_at p running deltas = running /\ idx = 0%nat \/
  idx <> 0%nat /\ cumulative_before deltas idx = Ok (cumulative_at p running deltas).
Proof.
  revert running; induction deltas as [|d deltas IH]; intros running; cbn; [auto|].
  destruct (p d) eqn:E; [|auto]. right. split; [done|].
  unfold cumulative_before. cbn. rewrite Nat.sub_0_r.
  destruct (IH (cumulative_deleted d)) as [[-> ->]|[Hne Hc]]; [done|].
  unfold cumulative_before in Hc.
  destruct (partition_point p deltas); [done|]. cbn in *. by rewrite Nat.sub_0_r in Hc.
Qed.

Lemma input_to_output_scan deltas o :
  in_u 64 o ->
  input_to_output_offset deltas o =
    Ok (wsub 64 o (cumulative_at (fun d => input_offset d <? o) 0 deltas)).
Proof.
  intros Ho. assert (wsub 64 o 0 = o) as H0 by (unfold wsub; rewrite Z.sub_0_r; by apply wrap_small).
  unfold input_to_output_offset. destruct deltas as [|d deltas]; [cbn; by rewrite H0|].
  destruct (cumulative_before_at (fun d => input_offset d <? o) 0 (d :: deltas))
    as [[-> ->]|[Hne Hc]]; [cbn; by rewrite H0|].
  apply Nat.eqb_neq in Hne as ->. by rewrite Hc.
Qed.

Lemma output_to_input_scan deltas p :
  in_u 64 p ->
  output_to_input_offset deltas p = Ok (wadd 64 p (cumulative_at (ends_by p) 0 deltas)).
Proof.
  intros Hp. assert (wadd 64 p 0 = p) as H0 by (unfold wadd; rewrite Z.add_0_r; by apply wrap_small).
  unfold output_to_input_offset. destruct deltas as [|d deltas]; [cbn; by rewrite H0|].
  fold (ends_by p).
  destruct (cumulative_before_at (ends_by p) 0 (d :: deltas))
    as [[-> ->]|[Hne Hc]]; [cbn; by rewrite H0|].
  apply Nat.eqb_neq in Hne as ->. by rewrite Hc.
Qed.

Lemma well_formed_bound from raw : well_formed from raw -> from < 2 ^ 64.
Proof.
  revert from; induction raw as [|[o b] raw IH]; cbn; intros from; [done|].
  intros (H1 & H2 & H3). apply IH in H3. lia.
Qed.

Lemma deleted_before_nonneg from raw o : well_formed from raw -> 0 <= deleted_before raw o.
Proof.
  revert from; induction raw as [|[i b] raw IH]; cbn; intros from; [lia|].
  intros (H1 & H2 & H3). apply IH in H3. destruct (i <? o); lia.
Qed.

Lemma deleted_before_late from raw o : well_formed from raw -> o <= from -> deleted_before raw o = 0.
Proof.
  revert from; induction raw as [|[i b] raw IH]; cbn; intros from; [done|].
  intros (H1 & H2 & H3) Ho. rewrite (IH _ H3) by lia.
  destruct (i <? o) eqn:E; [apply Z.ltb_lt in E; lia|lia].
Qed.

(** The forward translation of [new raw] subtracts the deletions before it. *)
Lemma cumulative_at_new_from from running raw o :
  well_formed from raw -> 0 <= running <= from -> 
  cumulative_at (fun d => input_offset d <? o) running (new_from running raw) =
    running + deleted_before raw o.
Proof.
  revert from running; induction raw as [|[i b] raw IH]; intros from running; cbn; [lia|].
  intros (H1 & H2 & H3) Hr. pose proof (well_formed_bound _ _ H3).
  assert (wadd 64 running b = running + b) as Hw by (apply wrap_small; unfold in_u; lia).
  rewrite Hw. destruct (i <? o) eqn:E.
  - rewrite (IH (i + b)) by (done || lia). lia.
  - apply Z.ltb_ge in E. rewrite (deleted_before_late (i + b)) by (done || lia). lia.
Qed.

Lemma deleted_before_le from raw o :
  well_formed from raw -> from <= o -> boundary raw o = true -> deleted_before raw o <= o - from.
Proof.
  revert from; induction raw as [|[i b] raw IH]; cbn; intros from; [lia|].
  intros (H1 & H2 & H3) Ho Hb. apply andb_true_iff in Hb as [Hb Hbs].
  destruct (i <? o) eqn:E; cbn in Hb.
  - apply Z.ltb_lt in E. apply negb_true_iff, Z.ltb_ge in Hb. specialize (IH _ H3 Hb Hbs). lia.
  - apply Z.ltb_ge in E. rewrite (deleted_before_late (i + b)) by (done || lia). lia.
Qed.

Lemma clipped_boundary from raw o :
  well_formed from raw -> boundary raw o = true -> clipped raw o = deleted_before raw o.
Proof.
  revert from; induction raw as [|[i b] raw IH]; cbn; intros from; [done|].
  intros (H1 & H2 & H3) Hb. apply andb_true_iff in Hb as [Hb Hbs].
  rewrite (IH _ H3 Hbs). destruct (i <? o) eqn:E; cbn in Hb.
  - apply Z.ltb_lt in E. apply negb_true_iff, Z.ltb_ge in Hb. lia.
  - apply Z.ltb_ge in E. lia.
Qed.

Lemma kept_late from raw o : well_formed from raw -> o < from -> kept raw o = true.
Proof.
  revert from; induction raw as [|[i b] raw IH]; cbn; intros from; [done|].
  intros (H1 & H2 & H3) Ho. unfold kept in IH. rewrite (IH _ H3) by lia.
  by rewrite (proj2 (Z.leb_gt i o)) by lia.
Qed.

Lemma clipped_succ from raw o :
  well_formed from raw -> clipped raw (o + 1) = clipped raw o + (if kept raw o then 0 else 1).
Proof.
  revert from; induction raw as [|[i b] raw IH]; cbn; intros from; [done|].
  intros (H1 & H2 & H3). rewrite (IH _ H3). fold (kept raw o).
  destruct (i <=? o) eqn:E1; cbn; [apply Z.leb_le in E1|apply Z.leb_gt in E1].
  - destruct (o <? i + b) eqn:E2; cbn; [apply Z.ltb_lt in E2|apply Z.ltb_ge in E2].
    + rewrite (kept_late (i + b)) by (done || lia). lia.
    + lia.
  - lia.
Qed.

Lemma kept_below_succ raw o :
  0 <= o -> kept_below raw (o + 1) = kept_below raw o + (if kept raw o then 1 else 0).
Proof.
  intros Ho. unfold kept_below. rewrite (seqZ_app 0 o 1) by lia.
  rewrite List.filter_app, length_app. change (seqZ (0 + o) 1) with [o]. cbn [List.filter].
  destruct (kept raw o); cbn [length]; lia.
Qed.

Lemma boundary_early from raw o : well_formed from raw -> o <= from -> boundary raw o = true.
Proof.
  revert from; induction raw as [|[i b] raw IH]; cbn; intros from; [done|].
  intros (H1 & H2 & H3) Ho. unfold boundary in IH. rewrite (IH _ H3) by lia.
  by rewrite (proj2 (Z.ltb_ge i o)) by lia.
Qed.

Lemma kept_below_clipped raw o :
  well_formed 0 raw -> 0 <= o -> kept_below raw o = o - clipped raw o.
Proof.
  intros Hwf. apply (natlike_ind (fun o => kept_below raw o = o - clipped raw o)).
  - unfold kept_below. cbn.
    rewrite (clipped_boundary 0) by (done || by apply (boundary_early 0)).
    by rewrite (deleted_before_late 0).
  - intros x Hx IH. unfold Z.succ.
    rewrite kept_below_succ, (clipped_succ 0), IH by done. destruct (kept raw x); lia.
Qed.

Lemma kept_boundary raw o : kept raw o = true -> boundary raw o = true.
Proof.
  unfold kept, boundary. rewrite !List.forallb_forall. intros H d Hd. specialize (H d Hd).
  destruct (d.1 <? o) eqn:E; [|done]. apply Z.ltb_lt in E.
  by rewrite (proj2 (Z.leb_le d.1 o)) in H by lia.
Qed.

(** The backward scan at the output position of a surviving byte. *)
Lemma cumulative_at_new_from_back from running raw o :
  well_formed from raw -> 0 <= running <= from -> from <= o -> kept raw o = true ->
  cumulative_at (ends_by (o - running - deleted_before raw o)) running (new_from running raw) =
    running + deleted_before raw o.
Proof.
  revert from running; induction raw as [|[i b] raw IH]; intros from running; cbn; [lia|].
  intros (H1 & H2 & H3) Hr Ho Hk. pose proof (well_formed_bound _ _ H3).
  apply andb_true_iff in Hk as [Hk Hks].
  assert (wadd 64 running b = running + b) as Hw by (apply wrap_small; unfold in_u; lia).
  rewrite Hw. unfold ends_by at 1. cbn.
  assert (wsub 64 (wadd 64 i b) (running + b) = i - running) as He.
  { unfold wsub, wadd. rewrite (wrap_small 64 (i + b)) by (unfold in_u; lia).
    rewrite wrap_small by (unfold in_u; lia). lia. }
  rewrite He. destruct (i <=? o) eqn:E; [apply Z.leb_le in E|apply Z.leb_gt in E].
  - cbn in Hk. apply negb_true_iff, Z.ltb_ge in Hk.
    pose proof (deleted_before_le _ _ _ H3 Hk (kept_boundary _ _ Hks)) as Hle.
    rewrite (proj2 (Z.ltb_lt i o)) by lia.
    rewrite (proj2 (Z.leb_le _ _)) by lia.
    replace (o - running - (b + deleted_before raw o)) with
      (o - (running + b) - deleted_before raw o) by lia.
    rewrite (IH (i + b)) by (done || lia). lia.
  - rewrite (deleted_before_late (i + b)) by (done || lia).
    rewrite (proj2 (Z.ltb_ge i o)) by lia. rewrite (proj2 (Z.leb_gt _ _)) by lia. lia.
Qed.

Lemma total_bytes_nonneg from raw : well_formed from raw -> 0 <= total_bytes raw.
Proof.
  revert from; induction raw as [|[i b] raw IH]; cbn; intros from; [lia|].
  intros (? & ? & H). apply IH in H. lia.
Qed.

(** Every output position comes from a surviving input byte. *)
Lemma output_position_kept from running raw p :
  well_formed from raw -> 0 <= running <= from -> from - running <= p ->
  exists o, from <= o <= p + running + total_bytes raw /\ kept raw o = true /\
            p = o - running - deleted_before raw o.
Proof.
  revert from running; induction raw as [|[i b] raw IH]; intros from running; cbn.
  - intros. exists (p + running). lia.
  - intros (H1 & H2 & H3) Hr Hp. destruct (decide (i - running <= p)).
    + destruct (IH (i + b) (running + b) H3) as (o & Ho & Hk & ->); [lia..|].
      exists o. split; [lia|]. unfold kept in Hk. rewrite Hk.
      rewrite (proj2 (Z.ltb_ge o (i + b))), (proj2 (Z.ltb_lt i o)) by lia.
      rewrite andb_false_r. split; [done|lia].
    + exists (p + running). pose proof (total_bytes_nonneg _ _ H3).
      pose proof (kept_late _ _ (p + running) H3) as Hk. unfold kept in Hk. rewrite Hk by lia.
      rewrite (deleted_before_late (i + b)) by (done || lia).
      rewrite (proj2 (Z.leb_gt i _)), (proj2 (Z.ltb_ge i _)) by lia.
      repeat split; lia.
Qed.

Lemma input_to_output_new raw o :
  well_formed 0 raw -> in_u 64 o ->
  input_to_output_offset (new raw) o = Ok (wsub 64 o (deleted_before raw o)).
Proof.
  intros Hwf Ho. rewrite input_to_output_scan by done. unfold new.
  by rewrite (cumulative_at_new_from 0) by (done || lia).
Qed.

Lemma output_to_input_new raw o :
  well_formed 0 raw -> in_u 64 o -> kept raw o = true ->
  output_to_input_offset (new raw) (o - deleted_before raw o) = Ok o.
Proof.
  intros Hwf Ho Hk. pose proof (deleted_before_nonneg 0 raw o Hwf).
  pose proof (deleted_before_le 0 raw o Hwf (proj1 Ho) (kept_boundary _ _ Hk)).
  destruct Ho as [Hl Hu].
  rewrite output_to_input_scan by (unfold in_u; lia). unfold new.
  replace (o - deleted_before raw o) with (o - 0 - deleted_before raw o) at 2 by lia.
  rewrite (cumulative_at_new_from_back 0) by (done || lia).
  unfold wadd. rewrite wrap_small by (unfold in_u; lia). f_equal. lia.
Qed.

(** A scan can resume where a smaller scan stopped. *)
Lemma cumulative_at_resume p1 p2 running l :
  (forall d, p1 d = true -> p2 d = true) ->
  cumulative_at p2 running l =
  cumulative_at p2 (cumulative_at p1 running l) (drop (partition_point p1 l) l).
Proof.
  intros Hp. revert running; induction l as [|d l IH]; intros running; cbn; [done|].
  destruct (p1 d) eqn:E; cbn; [|done]. rewrite (Hp _ E). apply IH.
Qed.

Lemma partition_point_resume {A} (p1 p2 : A -> bool) l :
  (forall d, p1 d = true -> p2 d = true) ->
  partition_point p2 l =
  (partition_point p1 l + partition_point p2 (drop (partition_point p1 l) l))%nat.
Proof.
  intros Hp. induction l as [|d l IH]; cbn; [done|].
  destruct (p1 d) eqn:E; cbn; [|done]. by rewrite (Hp _ E), IH.
Qed.

Lemma advance_scan deltas k cum input :
  advance (length deltas - k) (mkRelaxCursor deltas k cum) input =
  mkRelaxCursor deltas
    (k + partition_point (fun d => input_offset d <? input) (drop k deltas))
    (cumulative_at (fun d => input_offset d <? input) cum (drop k deltas)).
Proof.
  remember (length deltas - k)%nat as fuel eqn:Hf.
  revert k cum Hf; induction fuel as [|fuel IH]; intros k cum Hf; cbn.
  - rewrite drop_ge by lia. cbn. f_equal. lia.
  - destruct (lookup_lt_is_Some_2 deltas k) as [d Hd]; [lia|].
    rewrite Hd, (drop_S _ _ _ Hd). cbn. destruct (_ <? _); cbn.
    + rewrite IH by lia. f_equal. lia.
    + f_equal. lia.
Qed.

Lemma translate_scan deltas input prev :
  prev <= input ->
  let before i := fun d => input_offset d <? i in
  let at_ i := mkRelaxCursor deltas (partition_point (before i) deltas)
                 (cumulative_at (before i) 0 deltas) in
  translate (at_ prev) input = (wsub 64 input (cumulative_at (before input) 0 deltas), at_ input).
Proof.
  intros Hle before at_. subst at_ before. unfold translate. cbn.
  rewrite advance_scan. cbn.
  rewrite <- (partition_point_resume (fun d => input_offset d <? prev)
                (fun d => input_offset d <? input)),
    <- (cumulative_at_resume (fun d => input_offset d <? prev)); [done|..];
    intros d; rewrite !Z.ltb_lt; lia.
Qed.

(** ** Sorting and merging *)
Lemma insert_by_offset_perm x l : insert_by_offset x l ≡ₚ x :: l.
Proof.
  induction l as [|y l IH]; cbn; [done|]. destruct (x.1 <=? y.1); [done|].
  rewrite IH. apply Permutation_swap.
Qed.

Lemma sort_by_offset_perm l : sort_by_offset l ≡ₚ l.
Proof. induction l as [|x l IH]; cbn; [done|]. by rewrite insert_by_offset_perm, IH. Qed.

#[export] Instance deleted_before_perm : Proper ((≡ₚ) ==> eq ==> eq) deleted_before.
Proof.
  intros l1 l2 Hl o ? <-. induction Hl as [|[i b] l1 l2 _ IH|[i b] [i' b'] l|]; cbn; lia.
Qed.

Lemma deleted_before_app l1 l2 o :
  deleted_before (l1 ++ l2) o = deleted_before l1 o + deleted_before l2 o.
Proof. induction l1 as [|[i b] l1 IH]; cbn; lia. Qed.

Lemma new_from_raw running raw :
  map (fun d => (input_offset d, bytes_deleted d)) (new_from running raw) = raw.
Proof. revert running; induction raw as [|[i b] raw IH]; intros; cbn; by rewrite ?IH. Qed.

(** ** The section-index map *)
Lemma binary_search_cons {A} (key : A -> Z) k x l :
  binary_search_by_key key k (x :: l) =
    if key x <? k then S <$> binary_search_by_key key k l
    else if key x =? k then Some 0%nat else None.
Proof.
  unfold binary_search_by_key. cbn [partition_point]. destruct (key x <? k) eqn:E.
  - set (n := partition_point _ l). change ((x :: l) !! S n) with (l !! n).
    destruct (l !! _) as [y|]; [|done]. by destruct (key y =? k).
  - change ((x :: l) !! 0%nat) with (Some x). cbn. done.
Qed.

Lemma map_get_cons k0 d0 (m : RelaxDeltaMap) k :
  map_get ((k0, d0) :: m) k =
    if k0 <? k then map_get m k else if k0 =? k then Some d0 else None.
Proof.
  unfold map_get. rewrite binary_search_cons. cbn [fst].
  destruct (k0 <? k); [|by destruct (k0 =? k)].
  by destruct (binary_search_by_key fst k m).
Qed.

Lemma map_update_cons k0 d0 (m : RelaxDeltaMap) k f :
  map_update ((k0, d0) :: m) k f =
    if k0 <? k then cons (k0, d0) <$> map_update m k f
    else if k0 =? k then Some ((k0, f d0) :: m) else None.
Proof.
  unfold map_update. rewrite binary_search_cons. cbn [fst].
  destruct (k0 <? k); [|destruct (k0 =? k) eqn:E; [|done]].
  - destruct (binary_search_by_key fst k m) as [i|]; [|done]. cbn.
    change (((k0, d0) :: m) !! S i) with (m !! i). by destruct (m !! i) as [[]|].
  - done.
Qed.

Lemma insert_sorted_cons k0 d0 (m : RelaxDeltaMap) k d :
  insert_sorted ((k0, d0) :: m) k d =
    if k0 <? k then (k0, d0) :: insert_sorted m k d else (k, d) :: (k0, d0) :: m.
Proof. unfold insert_sorted. cbn. by destruct (k0 <? k). Qed.

Lemma insert_sorted_perm (m : RelaxDeltaMap) k d : insert_sorted m k d ≡ₚ (k, d) :: m.
Proof.
  induction m as [|[k0 d0] m IH]; [done|]. rewrite insert_sorted_cons.
  destruct (k0 <? k); [|done]. rewrite IH. apply Permutation_swap.
Qed.

Lemma insert_sorted_sorted (m : RelaxDeltaMap) k d :
  sorted_keys m -> k ∉ m.*1 -> sorted_keys (insert_sorted m k d).
Proof.
  unfold sorted_keys. induction m as [|[k0 d0] m IH]; [repeat constructor|].
  rewrite !fmap_cons, not_elem_of_cons. cbn [fst].
  intros [Hs Hlt]%StronglySorted_inv [Hk0 Hk]. rewrite insert_sorted_cons. destruct (k0 <? k) eqn:E.
  - apply Z.ltb_lt in E. cbn. constructor; [by apply IH|].
    rewrite insert_sorted_perm. cbn. by constructor.
  - apply Z.ltb_ge in E. cbn. constructor; [by constructor|].
    constructor; [lia|]. eapply Forall_impl; [exact Hlt|]. cbn. lia.
Qed.

Lemma map_get_elem (m : RelaxDeltaMap) k d :
  sorted_keys m -> map_get m k = Some d <-> (k, d) ∈ m.
Proof.
  unfold sorted_keys. induction m as [|[k0 d0] m IH]; cbn.
  - intros _. rewrite elem_of_nil. by split.
  - intros [Hs Hlt]%StronglySorted_inv. rewrite map_get_cons, elem_of_cons.
    assert ((k, d) ∈ m -> k0 < k) as Hin.
    { intros H. rewrite Forall_forall in Hlt. apply Hlt, list_elem_of_fmap. by exists (k, d). }
    destruct (k0 <? k) eqn:E; [apply Z.ltb_lt in E|apply Z.ltb_ge in E].
    + rewrite (IH Hs). split; [by right|]. intros [[= -> ->]|?]; [lia|done].
    + destruct (k0 =? k) eqn:Ek; [apply Z.eqb_eq in Ek as ->|apply Z.eqb_neq in Ek].
      * split; [intros [= ->]; by left|]. intros [[= ->]|H]; [done|]. apply Hin in H; lia.
      * split; [done|]. intros [[= -> ->]|H]; [done|]. apply Hin in H; lia.
Qed.

Lemma map_update_keys (m m' : RelaxDeltaMap) k f : map_update m k f = Some m' -> m'.*1 = m.*1.
Proof.
  revert m'; induction m as [|[k0 d0] m IH]; intros m'; [done|]. rewrite map_update_cons.
  destruct (k0 <? k).
  - destruct (map_update m k f) as [m1|]; [|done]. intros [= <-]. cbn. by rewrite (IH m1).
  - destruct (k0 =? k); [|done]. by intros [= <-].
Qed.

(** ** Theorems *)

(** Relaxation deletes exactly the recorded ranges: for sorted, disjoint
    deletions, the output offset of a position between surviving bytes is the
    number of surviving bytes in front of it. *)
Theorem input_to_output_counts_kept raw o :
  well_formed 0 raw -> in_u 64 o -> boundary raw o = true ->
  input_to_output_offset (new raw) o = Ok (kept_below raw o).
Proof.
  intros Hwf Ho Hb. rewrite input_to_output_new by done. f_equal.
  rewrite kept_below_clipped, (clipped_boundary 0) by (done || apply Ho).
  pose proof (deleted_before_nonneg 0 raw o Hwf).
  pose proof (deleted_before_le 0 raw o Hwf (proj1 Ho) Hb).
  destruct Ho. apply wrap_small. unfold in_u. lia.
Qed.

Lemma input_to_output_counts_kept_witness :
  input_to_output_offset (new [(4, 2); (8, 4)]) 12 = Ok 6.
Proof.
  apply (input_to_output_counts_kept [(4, 2); (8, 4)] 12).
  - cbn. lia.
  - split; vm_compute; congruence.
  - reflexivity.
Defined.

(** C35. The two translations are mutually inverse between the surviving input
    bytes and the output: going forward from a surviving byte and back returns
    it, and every output position (short of wrapping) comes from a surviving byte. *)
Theorem offsets_roundtrip raw :
  well_formed 0 raw ->
  (forall o, in_u 64 o -> kept raw o = true ->
     exists p, input_to_output_offset (new raw) o = Ok p /\
               output_to_input_offset (new raw) p = Ok o) /\
  (forall p, 0 <= p -> p + total_bytes raw < 2 ^ 64 ->
     exists o, output_to_input_offset (new raw) p = Ok o /\ kept raw o = true /\
               input_to_output_offset (new raw) o = Ok p).
Proof.
  intros Hwf.
  assert (forall o, in_u 64 o -> kept raw o = true ->
    input_to_output_offset (new raw) o = Ok (o - deleted_before raw o)) as Hfwd.
  { intros o Ho Hk. rewrite input_to_output_new by done. f_equal.
    pose proof (deleted_before_nonneg 0 raw o Hwf).
    pose proof (deleted_before_le 0 raw o Hwf (proj1 Ho) (kept_boundary _ _ Hk)).
    destruct Ho. apply wrap_small. unfold in_u. lia. }
  split.
  - intros o Ho Hk. eexists. split; [by apply Hfwd|]. by apply output_to_input_new.
  - intros p Hp Ht.
    destruct (output_position_kept 0 0 raw p Hwf) as (o & Ho & Hk & Hpo); [lia..|].
    assert (in_u 64 o) as Hou by (unfold in_u; lia).
    rewrite Z.sub_0_r in Hpo. exists o.
    rewrite Hfwd, Hpo by done. by rewrite output_to_input_new.
Qed.

Lemma offsets_roundtrip_witness :
  (forall o, in_u 64 o -> kept [(4, 2); (8, 4)] o = true ->
     exists p, input_to_output_offset (new [(4, 2); (8, 4)]) o = Ok p /\
               output_to_input_offset (new [(4, 2); (8, 4)]) p = Ok o) /\
  (forall p, 0 <= p -> p + 6 < 2 ^ 64 ->
     exists o, output_to_input_offset (new [(4, 2); (8, 4)]) p = Ok o /\
               kept [(4, 2); (8, 4)] o = true /\
               input_to_output_offset (new [(4, 2); (8, 4)]) o = Ok p).
Proof. apply (offsets_roundtrip [(4, 2); (8, 4)]). cbn. lia. Defined.

(** A cursor answers an ascending sequence of queries exactly as the
    binary-searching translation does, for any list of deltas. *)
Theorem cursor_agrees deltas inputs :
  StronglySorted Z.le inputs -> Forall (in_u 64) inputs ->
  Forall2 (fun i o => input_to_output_offset deltas i = Ok o)
          inputs (translate_all (cursor deltas) inputs).
Proof.
  intros Hs Hu.
  pose (at_ := fun i => mkRelaxCursor deltas
    (partition_point (fun d => input_offset d <? i) deltas)
    (cumulative_at (fun d => input_offset d <? i) 0 deltas)).
  assert (forall prev, Forall (Z.le prev) inputs ->
    Forall2 (fun i o => input_to_output_offset deltas i = Ok o)
            inputs (translate_all (at_ prev) inputs)) as Hfrom.
  { induction Hs as [|i inputs Hs IH Hle]; intros prev Hp; cbn [translate_all]; [constructor|].
    apply Forall_cons in Hu as [Hi Hu]. apply Forall_cons in Hp as [Hp _].
    unfold at_ at 1. rewrite (translate_scan deltas i prev Hp). constructor.
    - by apply input_to_output_scan.
    - by apply IH. }
  destruct inputs as [|i inputs]; [constructor|].
  apply Forall_cons in Hu as [Hi Hu].
  cbn [translate_all]. unfold translate, cursor. cbn [rc_deltas rc_index].
  rewrite advance_scan. cbn [rc_current_cumulative drop Nat.add].
  apply StronglySorted_inv in Hs as [Hs Hle]. constructor; [by apply input_to_output_scan|].
  specialize (Hfrom i ltac:(constructor; [lia|done])).
  cbn [translate_all] in Hfrom. unfold at_ at 1 in Hfrom.
  rewrite (translate_scan deltas i i ltac:(lia)) in Hfrom.
  by inversion Hfrom.
Qed.

Lemma cursor_agrees_witness :
  Forall2 (fun i o => input_to_output_offset (new [(4, 2); (8, 4)]) i = Ok o)
    [0; 4; 6; 12; 20] (translate_all (cursor (new [(4, 2); (8, 4)])) [0; 4; 6; 12; 20]).
Proof.
  apply (cursor_agrees (new [(4, 2); (8, 4)]) [0; 4; 6; 12; 20]).
  - repeat constructor; lia.
  - repeat constructor; vm_compute; congruence.
Defined.

(** Merging a second pass's deletions (in any order) into a section's deltas
    gives the deltas of both passes together: each position moves by the bytes
    either pass deleted before it. *)
Theorem merge_additional_deletes_both raw additional o :
  well_formed 0 (sort_by_offset (raw ++ additional)) -> well_formed 0 raw -> in_u 64 o ->
  input_to_output_offset (merge_additional (new raw) additional) o =
    Ok (wsub 64 o (deleted_before raw o + deleted_before additional o)).
Proof.
  intros Hwf Hraw Ho. destruct additional as [|a additional].
  - cbn [merge_additional deleted_before]. rewrite Z.add_0_r. by apply input_to_output_new.
  - unfold merge_additional, new. rewrite new_from_raw. fold (new (sort_by_offset (raw ++ a :: additional))).
    rewrite input_to_output_new by done.
    by rewrite sort_by_offset_perm, deleted_before_app.
Qed.

Lemma merge_additional_deletes_both_witness :
  input_to_output_offset (merge_additional (new [(4, 2); (8, 4)]) [(20, 2); (2, 1)]) 21 = Ok 12.
Proof.
  apply (merge_additional_deletes_both [(4, 2); (8, 4)] [(20, 2); (2, 1)] 21).
  - cbn. lia.
  - cbn. lia.
  - split; vm_compute; congruence.
Defined.

(** [RelaxDeltaMap] is a finite map: inserting a new section index keeps
    the entries sorted and [get] then returns the inserted deltas at that index
    and the old ones elsewhere; [get_mut] updates exactly one entry. *)
Theorem delta_map_laws (m : RelaxDeltaMap) k d f :
  sorted_keys m ->
  (k ∉ m.*1 ->
   sorted_keys (insert_sorted m k d) /\
   forall k', map_get (insert_sorted m k d) k' = if k' =? k then Some d else map_get m k') /\
  (forall m', map_update m k f = Some m' ->
   sorted_keys m' /\
   forall k', map_get m' k' = if k' =? k then f <$> map_get m k else map_get m k').
Proof.
  intros Hs. split.
  - intros Hk. split; [by apply insert_sorted_sorted|]. intros k'.
    apply option_eq. intros d'. rewrite map_get_elem by (by apply insert_sorted_sorted).
    rewrite insert_sorted_perm, elem_of_cons.
    destruct (k' =? k) eqn:E; [apply Z.eqb_eq in E as ->|apply Z.eqb_neq in E].
    + split; [|intros [= ->]; by left]. intros [[= ->]|Hin]; [done|].
      exfalso. apply Hk. apply list_elem_of_fmap. by exists (k, d').
    + rewrite map_get_elem by done. split; [|by right]. by intros [[= -> ->]|?].
  - intros m' Hu. revert m' Hu. induction m as [|[k0 d0] m IH]; intros m' Hu; [done|].
    apply StronglySorted_inv in Hs as [Hs Hlt]. specialize (IH Hs).
    rewrite map_update_cons in Hu. destruct (k0 <? k) eqn:E0.
    + destruct (map_update m k f) as [m1|] eqn:E1; [|done]. injection Hu as <-.
      destruct (IH m1 eq_refl) as [Hs1 Hg1].
      pose proof (map_update_keys _ _ _ _ E1) as Hkeys.
      split; [unfold sorted_keys; rewrite fmap_cons, Hkeys; by constructor|].
      intros k'. rewrite !map_get_cons, Hg1. apply Z.ltb_lt in E0.
      destruct (k' =? k) eqn:E; [apply Z.eqb_eq in E as ->|done].
      by rewrite (proj2 (Z.ltb_lt k0 k)) by lia.
    + destruct (k0 =? k) eqn:E1; [|done]. injection Hu as <-. apply Z.eqb_eq in E1 as ->.
      split; [by constructor|]. intros k'. rewrite !map_get_cons.
      rewrite Z.ltb_irrefl, Z.eqb_refl. cbn. rewrite (Z.eqb_sym k k').
      destruct (k' =? k) eqn:E; [|done]. apply Z.eqb_eq in E as ->. by rewrite Z.ltb_irrefl.
Qed.

Lemma delta_map_laws_witness :
  sorted_keys [(1, new [(0, 2)]); (7, [])] /\
  (3 ∉ [1; 7] ->
   sorted_keys (insert_sorted [(1, new [(0, 2)]); (7, [])] 3 (new [(4, 2)])) /\
   forall k', map_get (insert_sorted [(1, new [(0, 2)]); (7, [])] 3 (new [(4, 2)])) k' =
     if k' =? 3 then Some (new [(4, 2)]) else map_get [(1, new [(0, 2)]); (7, [])] k').
Proof.
  assert (sorted_keys [(1, new [(0, 2)]); (7, [])]) as Hs
    by (unfold sorted_keys; cbn; repeat constructor).
  split; [exact Hs|]. intros Hk.
  destruct (delta_map_laws [(1, new [(0, 2)]); (7, [])] 3 (new [(4, 2)]) id Hs) as [H _].
  exact (H Hk).
Defined.

Lemma delta_bytes_at_cons d deltas o :
  delta_bytes_at (d :: deltas) o =
    if input_offset d <? o then delta_bytes_at deltas o
    else Ok (if input_offset d =? o then bytes_deleted d else 0).
Proof.
  unfold delta_bytes_at. rewrite binary_search_cons.
  destruct (input_offset d <? o); [|by destruct (input_offset d =? o)].
  by destruct (binary_search_by_key input_offset o deltas).
Qed.

Lemma has_delta_at_cons d deltas o :
  has_delta_at (d :: deltas) o =
    if input_offset d <? o then has_delta_at deltas o else input_offset d =? o.
Proof.
  unfold has_delta_at. rewrite binary_search_cons.
  destruct (input_offset d <? o); [|by destruct (input_offset d =? o)].
  by destruct (binary_search_by_key input_offset o deltas).
Qed.

(** The point queries agree with the translation: [delta_bytes_at o] is how
    much farther a position past [o] moves than [o] itself, and [has_delta_at o]
    says whether that is anything at all. *)
Theorem delta_at_is_jump raw o :
  well_formed 0 raw ->
  let jump := deleted_before raw (o + 1) - deleted_before raw o in
  delta_bytes_at (new raw) o = Ok jump /\ has_delta_at (new raw) o = negb (jump =? 0).
Proof.
  intros Hwf. cbv zeta. unfold new.
  cut (forall from running, well_formed from raw ->
    delta_bytes_at (new_from running raw) o =
      Ok (deleted_before raw (o + 1) - deleted_before raw o) /\
    has_delta_at (new_from running raw) o =
      negb (deleted_before raw (o + 1) - deleted_before raw o =? 0)); [intros H; by apply (H 0)|].
  clear Hwf. induction raw as [|[i b] raw IH]; [done|].
  intros from running (H1 & H2 & H3). cbn [deleted_before new_from].
  rewrite delta_bytes_at_cons, has_delta_at_cons.
  cbn [input_offset bytes_deleted]. destruct (IH _ (wadd 64 running b) H3) as [IH1 IH2].
  destruct (i <? o) eqn:E; [apply Z.ltb_lt in E|apply Z.ltb_ge in E].
  - rewrite (proj2 (Z.ltb_lt i (o + 1))), IH1, IH2 by lia.
    split; [f_equal; lia|do 2 f_equal; lia].
  - rewrite !(deleted_before_late (i + b)) by (done || lia).
    destruct (i =? o) eqn:Eo; [apply Z.eqb_eq in Eo|apply Z.eqb_neq in Eo].
    + rewrite (proj2 (Z.ltb_lt i (o + 1))) by lia. split; [f_equal; lia|].
      symmetry. apply negb_true_iff, Z.eqb_neq. lia.
    + rewrite (proj2 (Z.ltb_ge i (o + 1))) by lia. done.
Qed.

Lemma delta_at_is_jump_witness :
  delta_bytes_at (new [(4, 2); (8, 4)]) 8 = Ok 4 /\ has_delta_at (new [(4, 2); (8, 4)]) 8 = true.
Proof. apply (delta_at_is_jump [(4, 2); (8, 4)] 8). cbn. lia. Defined.
