(* ===== verification/AArch64.v ===== *)
(** AArch64 relocations: [linker-utils/src/aarch64.rs]. *)
From Stdlib Require Import ZArith Lia.
From stdpp Require Import base list list_numbers numbers strings option.
From S2P Require Import Prelude Bits BitMisc Elf Relaxation.

Local Open Scope Z_scope.

(** ** Relaxations *)
Module Relax.
Inductive RelaxationKind :=
| NoOp
| ReplaceWithNop
| MovzX0Lsl16
| MovkX0
| MovzXnLsl16
| MovkXn
| AdrpToAdr
| AdrpX0
| LdrX0
| AddToAdr
| LdrToAdr
| LdrToAdd
| AdrpAddToNopAdr.
End Relax.

(** The effect of [ReplaceWithNop], which [AdrpAddToNopAdr] reuses. *)
Definition replace_with_nop (bytes : list Z) (offset : Z) : res (list Z) :=
  copy_at bytes offset [0x1f; 0x20; 0x03; 0xd5].

Definition apply_bytes (kind : Relax.RelaxationKind) (bytes : list Z) (offset : Z) : res (list Z) :=
  match kind with
  | Relax.NoOp => Ok bytes
  | Relax.ReplaceWithNop => replace_with_nop bytes offset
  | Relax.MovzX0Lsl16 => copy_at bytes offset [0x0; 0x0; 0xa0; 0xd2]
  | Relax.MovkX0 => copy_at bytes offset [0x0; 0x0; 0x80; 0xf2]
  | Relax.MovzXnLsl16 =>
      raw ← (slice bytes offset (offset + 4) ≫= u32_from_slice);
      let reg := wrap 8 (extract_bit_range raw 0 5) in
      copy_at bytes offset [reg; 0x0; 0xa0; 0xd2]
  | Relax.MovkXn =>
      raw ← (slice bytes offset (offset + 4) ≫= u32_from_slice);
      let dst_reg := wrap 8 (extract_bit_range raw 0 5) in
      copy_at bytes offset [dst_reg; 0x0; 0x80; 0xf2]
  | Relax.AdrpToAdr =>
      b ← get_at bytes (offset + 3); set_at bytes (offset + 3) (Z.land b (wnot 8 0x80))
  | Relax.AddToAdr | Relax.LdrToAdr =>
      b ← get_at bytes (offset + 3); set_at bytes (offset + 3) (Z.land b (wnot 8 0x89))
  | Relax.LdrToAdd =>
      insn ← (slice bytes offset (offset + 4) ≫= u32_from_slice);
      let insn := Z.lor (Z.land insn 0x001fffff) 0x91000000 in
      copy_at bytes offset (le_bytes 4 insn)
  | Relax.AdrpAddToNopAdr =>
      raw ← (slice bytes (offset - 4) offset ≫= u32_from_slice);
      let adrp_dest_reg := wrap 8 (extract_bit_range raw 0 5) in
      bytes ← replace_with_nop bytes (wsub 64 offset 4);
      copy_at bytes offset [adrp_dest_reg; 0x00; 0x00; 0x10]
  | Relax.AdrpX0 => copy_at bytes offset [0x0; 0x0; 0x0; 0x90]
  | Relax.LdrX0 => copy_at bytes offset [0x0; 0x0; 0x40; 0xf9]
  end.

Definition apply (kind : Relax.RelaxationKind) (s : ApplyArgs) : res ApplyArgs :=
  with_bytes s (apply_bytes kind (section_bytes s) (offset_in_section s)).

Definition next_modifier (kind : Relax.RelaxationKind) : RelocationModifier := Normal.

(** ** The relocation table *)
Definition relocation_arms_1 (r_type : R_AARCH64) : option RelocEntry :=
  match r_type with
  | R_AARCH64_NONE => Some (entry RelKind.None (RelSize.ByteSize 0) None (Ok no_check) 1 0)
  | R_AARCH64_ABS64 => Some (entry RelKind.Absolute (RelSize.ByteSize 8) None (Ok no_check) 1 0)
  | R_AARCH64_ABS32 =>
      Some (entry RelKind.Absolute (RelSize.ByteSize 4) None (Ok (mkAllowedRange (- 2 ^ 31) (2 ^ 32))) 1 0)
  | R_AARCH64_ABS16 =>
      Some (entry RelKind.Absolute (RelSize.ByteSize 2) None (Ok (mkAllowedRange (- 2 ^ 15) (2 ^ 16))) 1 0)
  | R_AARCH64_PREL64 =>
      Some (entry RelKind.Relative (RelSize.ByteSize 8) None (Ok no_check) 1 0)
  | R_AARCH64_PREL32 =>
      Some (entry RelKind.Relative (RelSize.ByteSize 4) None (Ok (mkAllowedRange (- 2 ^ 31) (2 ^ 32))) 1 0)
  | R_AARCH64_PREL16 =>
      Some (entry RelKind.Relative (RelSize.ByteSize 2) None (Ok (mkAllowedRange (- 2 ^ 15) (2 ^ 16))) 1 0)
  | R_AARCH64_PLT32 =>
      Some (entry RelKind.PltRelative (RelSize.ByteSize 4) None (from_bit_size 32 Signed) 1 0)
  | R_AARCH64_MOVW_UABS_G0 =>
      Some (entry RelKind.Absolute (bit_mask_aarch64 0 16 A64.Movkz) None (from_bit_size 16 Unsigned) 1 0)
  | R_AARCH64_MOVW_UABS_G0_NC =>
      Some (entry RelKind.Absolute (bit_mask_aarch64 0 16 A64.Movkz) None (Ok no_check) 1 0)
  | R_AARCH64_MOVW_UABS_G1 =>
      Some (entry RelKind.Absolute (bit_mask_aarch64 16 32 A64.Movkz) None (from_bit_size 32 Unsigned) 1 0)
  | R_AARCH64_MOVW_UABS_G1_NC =>
      Some (entry RelKind.Absolute (bit_mask_aarch64 16 32 A64.Movkz) None (Ok no_check) 1 0)
  | R_AARCH64_MOVW_UABS_G2 =>
      Some (entry RelKind.Absolute (bit_mask_aarch64 32 48 A64.Movkz) None (from_bit_size 48 Unsigned) 1 0)
  | R_AARCH64_MOVW_UABS_G2_NC =>
      Some (entry RelKind.Absolute (bit_mask_aarch64 32 48 A64.Movkz) None (Ok no_check) 1 0)
  | R_AARCH64_MOVW_UABS_G3 =>
      Some (entry RelKind.Absolute (bit_mask_aarch64 48 64 A64.Movkz) None (Ok no_check) 1 0)
  | R_AARCH64_MOVW_SABS_G0 =>
      Some (entry RelKind.Absolute (bit_mask_aarch64 0 16 A64.Movnz) None (from_bit_size 17 Signed) 1 0)
  | R_AARCH64_MOVW_SABS_G1 =>
      Some (entry RelKind.Absolute (bit_mask_aarch64 16 32 A64.Movnz) None (from_bit_size 33 Signed) 1 0)
  | R_AARCH64_MOVW_SABS_G2 =>
      Some (entry RelKind.Absolute (bit_mask_aarch64 32 48 A64.Movnz) None (from_bit_size 49 Signed) 1 0)
  | R_AARCH64_LD_PREL_LO19 =>
      Some (entry RelKind.Relative (bit_mask_aarch64 2 21 A64.Ldr) None (from_bit_size 21 Signed) 4 0)
  | _ => None
  end.

Definition relocation_arms_2 (r_type : R_AARCH64) : option RelocEntry :=
  match r_type with
  | R_AARCH64_ADR_PREL_LO21 =>
      Some (entry RelKind.Relative (bit_mask_aarch64 0 21 A64.Adr) None (from_bit_size 21 Signed) 1 0)
  | R_AARCH64_ADR_PREL_PG_HI21 =>
      Some (entry RelKind.Relative (bit_mask_aarch64 12 33 A64.Adr) (Some (PageMask.SymbolPlusAddendAndPosition PAGE_MASK_4KB)) (from_bit_size 33 Signed) 1 0)
  | R_AARCH64_ADR_PREL_PG_HI21_NC =>
      Some (entry RelKind.Relative (bit_mask_aarch64 12 33 A64.Adr) (Some (PageMask.SymbolPlusAddendAndPosition PAGE_MASK_4KB)) (Ok no_check) 1 0)
  | R_AARCH64_ADD_ABS_LO12_NC =>
      Some (entry RelKind.AbsoluteLowPart (bit_mask_aarch64 0 12 A64.Add) None (Ok no_check) 1 0)
  | R_AARCH64_LDST8_ABS_LO12_NC =>
      Some (entry RelKind.AbsoluteLowPart (bit_mask_aarch64 0 12 A64.LdSt) None (Ok no_check) 1 0)
  | R_AARCH64_LDST16_ABS_LO12_NC =>
      Some (entry RelKind.AbsoluteLowPart (bit_mask_aarch64 1 12 A64.LdSt) None (Ok no_check) 2 0)
  | R_AARCH64_LDST32_ABS_LO12_NC =>
      Some (entry RelKind.AbsoluteLowPart (bit_mask_aarch64 2 12 A64.LdSt) None (Ok no_check) 4 0)
  | R_AARCH64_LDST64_ABS_LO12_NC =>
      Some (entry RelKind.AbsoluteLowPart (bit_mask_aarch64 3 12 A64.LdSt) None (Ok no_check) 8 0)
  | R_AARCH64_LDST128_ABS_LO12_NC =>
      Some (entry RelKind.AbsoluteLowPart (bit_mask_aarch64 4 12 A64.LdSt) None (Ok no_check) 16 0)
  | R_AARCH64_TSTBR14 =>
      Some (entry RelKind.Relative (bit_mask_aarch64 2 16 A64.TstBr) None (from_bit_size 16 Signed) 4 0)
  | R_AARCH64_CONDBR19 =>
      Some (entry RelKind.Relative (bit_mask_aarch64 2 21 A64.Bcond) None (from_bit_size 21 Signed) 4 0)
  | R_AARCH64_JUMP26 =>
      Some (entry RelKind.PltRelative (bit_mask_aarch64 2 28 A64.JumpCall) None (from_bit_size 28 Signed) 4 0)
  | R_AARCH64_CALL26 =>
      Some (entry RelKind.PltRelative (bit_mask_aarch64 2 28 A64.JumpCall) None (from_bit_size 28 Signed) 4 0)
  | R_AARCH64_MOVW_PREL_G0 =>
      Some (entry RelKind.Relative (bit_mask_aarch64 0 16 A64.Movnz) None (Ok no_check) 1 0)
  | R_AARCH64_MOVW_PREL_G0_NC =>
      Some (entry RelKind.Relative (bit_mask_aarch64 0 16 A64.Movkz) None (Ok no_check) 1 0)
  | R_AARCH64_MOVW_PREL_G1 =>
      Some (entry RelKind.Relative (bit_mask_aarch64 16 32 A64.Movnz) None (Ok no_check) 1 0)
  | R_AARCH64_MOVW_PREL_G1_NC =>
      Some (entry RelKind.Relative (bit_mask_aarch64 16 32 A64.Movkz) None (Ok no_check) 1 0)
  | R_AARCH64_MOVW_PREL_G2 =>
      Some (entry RelKind.Relative (bit_mask_aarch64 32 48 A64.Movnz) None (Ok no_check) 1 0)
  | R_AARCH64_MOVW_PREL_G2_NC =>
      Some (entry RelKind.Relative (bit_mask_aarch64 32 48 A64.Movkz) None (Ok no_check) 1 0)
  | R_AARCH64_MOVW_PREL_G3 =>
      Some (entry RelKind.Relative (bit_mask_aarch64 48 64 A64.Movnz) None (Ok no_check) 1 0)
  | _ => None
  end.

Definition relocation_arms_3 (r_type : R_AARCH64) : option RelocEntry :=
  match r_type with
  | R_AARCH64_MOVW_GOTOFF_G0 =>
      Some (entry RelKind.GotRelGotBase (bit_mask_aarch64 0 16 A64.Movnz) None (Ok no_check) 1 0)
  | R_AARCH64_MOVW_GOTOFF_G0_NC =>
      Some (entry RelKind.GotRelGotBase (bit_mask_aarch64 0 16 A64.Movkz) None (Ok no_check) 1 0)
  | R_AARCH64_MOVW_GOTOFF_G1 =>
      Some (entry RelKind.GotRelGotBase (bit_mask_aarch64 16 32 A64.Movnz) None (Ok no_check) 1 0)
  | R_AARCH64_MOVW_GOTOFF_G1_NC =>
      Some (entry RelKind.GotRelGotBase (bit_mask_aarch64 16 32 A64.Movkz) None (Ok no_check) 1 0)
  | R_AARCH64_MOVW_GOTOFF_G2 =>
      Some (entry RelKind.GotRelGotBase (bit_mask_aarch64 32 48 A64.Movnz) None (Ok no_check) 1 0)
  | R_AARCH64_MOVW_GOTOFF_G2_NC =>
      Some (entry RelKind.GotRelGotBase (bit_mask_aarch64 32 48 A64.Movkz) None (Ok no_check) 1 0)
  | R_AARCH64_MOVW_GOTOFF_G3 =>
      Some (entry RelKind.GotRelGotBase (bit_mask_aarch64 48 64 A64.Movnz) None (Ok no_check) 1 0)
  | R_AARCH64_GOTREL64 =>
      Some (entry RelKind.SymRelGotBase (RelSize.ByteSize 4) None (Ok no_check) 1 0)
  | R_AARCH64_GOTREL32 =>
      Some (entry RelKind.SymRelGotBase (RelSize.ByteSize 8) None (from_bit_size 32 Signed) 1 0)
  | R_AARCH64_GOTPCREL32 =>
      Some (entry RelKind.GotRelative (RelSize.ByteSize 4) None (from_bit_size 32 Signed) 1 0)
  | R_AARCH64_GOT_LD_PREL19 =>
      Some (entry RelKind.GotRelative (bit_mask_aarch64 2 21 A64.LdSt) None (from_bit_size 21 Signed) 4 0)
  | R_AARCH64_LD64_GOTOFF_LO15 =>
      Some (entry RelKind.GotRelGotBase (bit_mask_aarch64 3 15 A64.LdSt) None (from_bit_size 15 Unsigned) 8 0)
  | R_AARCH64_ADR_GOT_PAGE =>
      Some (entry RelKind.GotRelative (bit_mask_aarch64 12 33 A64.Adr) (Some (PageMask.GotEntryAndPosition PAGE_MASK_4KB)) (from_bit_size 33 Signed) 1 0)
  | R_AARCH64_LD64_GOT_LO12_NC =>
      Some (entry RelKind.Got (bit_mask_aarch64 3 12 A64.LdSt) None (Ok no_check) 8 0)
  | R_AARCH64_LD64_GOTPAGE_LO15 =>
      Some (entry RelKind.GotRelGotBase (bit_mask_aarch64 3 15 A64.LdSt) (Some (PageMask.GotBase PAGE_MASK_4KB)) (from_bit_size 15 Unsigned) 8 0)
  | R_AARCH64_TLSGD_ADR_PREL21 =>
      Some (entry RelKind.TlsGd (bit_mask_aarch64 0 21 A64.Adr) None (from_bit_size 21 Signed) 1 0)
  | R_AARCH64_TLSGD_ADR_PAGE21 =>
      Some (entry RelKind.TlsGd (bit_mask_aarch64 12 33 A64.Adr) (Some (PageMask.GotEntryAndPosition PAGE_MASK_4KB)) (from_bit_size 33 Signed) 1 0)
  | R_AARCH64_TLSGD_ADD_LO12_NC =>
      Some (entry RelKind.TlsGdGot (bit_mask_aarch64 0 12 A64.Add) None (Ok no_check) 1 0)
  | R_AARCH64_TLSGD_MOVW_G1 =>
      Some (entry RelKind.TlsGdGotBase (bit_mask_aarch64 16 33 A64.Movnz) None (Ok no_check) 1 0)
  | R_AARCH64_TLSGD_MOVW_G0_NC =>
      Some (entry RelKind.TlsGdGotBase (bit_mask_aarch64 0 16 A64.Movkz) None (Ok no_check) 1 0)
  | _ => None
  end.

Definition relocation_arms_4 (r_type : R_AARCH64) : option RelocEntry :=
  match r_type with
  | R_AARCH64_TLSLD_ADR_PREL21 =>
      Some (entry RelKind.TlsLd (bit_mask_aarch64 0 21 A64.Adr) None (from_bit_size 21 Signed) 1 0)
  | R_AARCH64_TLSLD_ADR_PAGE21 =>
      Some (entry RelKind.TlsLd (bit_mask_aarch64 12 33 A64.Adr) (Some (PageMask.GotEntryAndPosition PAGE_MASK_4KB)) (from_bit_size 33 Signed) 1 0)
  | R_AARCH64_TLSLD_ADD_LO12_NC =>
      Some (entry RelKind.TlsLdGot (bit_mask_aarch64 0 12 A64.Add) None (Ok no_check) 1 0)
  | R_AARCH64_TLSLD_MOVW_G1 =>
      Some (entry RelKind.TlsLdGotBase (bit_mask_aarch64 16 32 A64.Movnz) None (Ok no_check) 1 0)
  | R_AARCH64_TLSLD_MOVW_G0_NC =>
      Some (entry RelKind.TlsLdGotBase (bit_mask_aarch64 0 16 A64.Movkz) None (Ok no_check) 1 0)
  | R_AARCH64_TLSLD_LD_PREL19 =>
      Some (entry RelKind.TlsLd (bit_mask_aarch64 0 21 A64.Ldr) None (from_bit_size 21 Signed) 1 0)
  | R_AARCH64_TLSLD_MOVW_DTPREL_G2 =>
      Some (entry RelKind.DtpOff (bit_mask_aarch64 32 48 A64.Movnz) None (Ok no_check) 1 0)
  | R_AARCH64_TLSLD_MOVW_DTPREL_G1 =>
      Some (entry RelKind.DtpOff (bit_mask_aarch64 16 32 A64.Movnz) None (Ok no_check) 1 0)
  | R_AARCH64_TLSLD_MOVW_DTPREL_G1_NC =>
      Some (entry RelKind.DtpOff (bit_mask_aarch64 16 32 A64.Movkz) None (Ok no_check) 1 0)
  | R_AARCH64_TLSLD_MOVW_DTPREL_G0 =>
      Some (entry RelKind.DtpOff (bit_mask_aarch64 0 16 A64.Movnz) None (Ok no_check) 1 0)
  | R_AARCH64_TLSLD_MOVW_DTPREL_G0_NC =>
      Some (entry RelKind.DtpOff (bit_mask_aarch64 0 16 A64.Movkz) None (Ok no_check) 1 0)
  | R_AARCH64_TLSLD_ADD_DTPREL_HI12 =>
      Some (entry RelKind.DtpOff (bit_mask_aarch64 12 24 A64.Add) None (from_bit_size 24 Unsigned) 1 0)
  | R_AARCH64_TLSLD_ADD_DTPREL_LO12 =>
      Some (entry RelKind.DtpOff (bit_mask_aarch64 0 12 A64.Add) None (from_bit_size 12 Unsigned) 1 0)
  | R_AARCH64_TLSLD_ADD_DTPREL_LO12_NC =>
      Some (entry RelKind.DtpOff (bit_mask_aarch64 0 12 A64.Add) None (Ok no_check) 1 0)
  | R_AARCH64_TLSLD_LDST8_DTPREL_LO12 =>
      Some (entry RelKind.DtpOff (bit_mask_aarch64 0 12 A64.LdSt) None (from_bit_size 12 Unsigned) 1 0)
  | R_AARCH64_TLSLD_LDST8_DTPREL_LO12_NC =>
      Some (entry RelKind.DtpOff (bit_mask_aarch64 0 12 A64.LdSt) None (Ok no_check) 1 0)
  | R_AARCH64_TLSLD_LDST16_DTPREL_LO12 =>
      Some (entry RelKind.DtpOff (bit_mask_aarch64 1 12 A64.LdSt) None (from_bit_size 12 Unsigned) 2 0)
  | R_AARCH64_TLSLD_LDST16_DTPREL_LO12_NC =>
      Some (entry RelKind.DtpOff (bit_mask_aarch64 1 12 A64.LdSt) None (Ok no_check) 2 0)
  | R_AARCH64_TLSLD_LDST32_DTPREL_LO12 =>
      Some (entry RelKind.DtpOff (bit_mask_aarch64 2 12 A64.LdSt) None (from_bit_size 12 Unsigned) 4 0)
  | R_AARCH64_TLSLD_LDST32_DTPREL_LO12_NC =>
      Some (entry RelKind.DtpOff (bit_mask_aarch64 2 12 A64.LdSt) None (Ok no_check) 4 0)
  | R_AARCH64_TLSLD_LDST64_DTPREL_LO12 =>
      Some (entry RelKind.DtpOff (bit_mask_aarch64 3 12 A64.LdSt) None (from_bit_size 12 Unsigned) 8 0)
  | _ => None
  end.

Definition relocation_arms_5 (r_type : R_AARCH64) : option RelocEntry :=
  match r_type with
  | R_AARCH64_TLSLD_LDST64_DTPREL_LO12_NC =>
      Some (entry RelKind.DtpOff (bit_mask_aarch64 3 12 A64.LdSt) None (Ok no_check) 8 0)
  | R_AARCH64_TLSLD_LDST128_DTPREL_LO12 =>
      Some (entry RelKind.DtpOff (bit_mask_aarch64 4 12 A64.LdSt) None (from_bit_size 12 Unsigned) 16 0)
  | R_AARCH64_TLSLD_LDST128_DTPREL_LO12_NC =>
      Some (entry RelKind.DtpOff (bit_mask_aarch64 4 12 A64.LdSt) None (Ok no_check) 16 0)
  | R_AARCH64_TLSIE_MOVW_GOTTPREL_G1 =>
      Some (entry RelKind.GotTpOffGotBase (bit_mask_aarch64 16 32 A64.Movnz) None (Ok no_check) 1 0)
  | R_AARCH64_TLSIE_MOVW_GOTTPREL_G0_NC =>
      Some (entry RelKind.GotTpOffGotBase (bit_mask_aarch64 0 16 A64.Movkz) None (Ok no_check) 1 0)
  | R_AARCH64_TLSIE_ADR_GOTTPREL_PAGE21 =>
      Some (entry RelKind.GotTpOff (bit_mask_aarch64 12 33 A64.Adr) (Some (PageMask.GotEntryAndPosition PAGE_MASK_4KB)) (from_bit_size 33 Signed) 1 0)
  | R_AARCH64_TLSIE_LD64_GOTTPREL_LO12_NC =>
      Some (entry RelKind.GotTpOffGot (bit_mask_aarch64 3 12 A64.LdrRegister) None (Ok no_check) 8 0)
  | R_AARCH64_TLSIE_LD_GOTTPREL_PREL19 =>
      Some (entry RelKind.GotTpOff (bit_mask_aarch64 2 21 A64.Ldr) None (from_bit_size 21 Signed) 4 0)
  | R_AARCH64_TLSLE_MOVW_TPREL_G2 =>
      Some (entry RelKind.TpOff (bit_mask_aarch64 32 48 A64.Movnz) None (Ok no_check) 1 0)
  | R_AARCH64_TLSLE_MOVW_TPREL_G1 =>
      Some (entry RelKind.TpOff (bit_mask_aarch64 16 32 A64.Movnz) None (Ok no_check) 1 0)
  | R_AARCH64_TLSLE_MOVW_TPREL_G1_NC =>
      Some (entry RelKind.TpOff (bit_mask_aarch64 16 32 A64.Movkz) None (Ok no_check) 1 0)
  | R_AARCH64_TLSLE_MOVW_TPREL_G0 =>
      Some (entry RelKind.TpOff (bit_mask_aarch64 0 16 A64.Movnz) None (Ok no_check) 1 0)
  | R_AARCH64_TLSLE_MOVW_TPREL_G0_NC =>
      Some (entry RelKind.TpOff (bit_mask_aarch64 0 16 A64.Movkz) None (Ok no_check) 1 0)
  | R_AARCH64_TLSLE_ADD_TPREL_HI12 =>
      Some (entry RelKind.TpOff (bit_mask_aarch64 12 24 A64.Add) None (from_bit_size 24 Unsigned) 1 0)
  | R_AARCH64_TLSLE_ADD_TPREL_LO12 =>
      Some (entry RelKind.TpOff (bit_mask_aarch64 0 12 A64.Add) None (from_bit_size 12 Unsigned) 1 0)
  | R_AARCH64_TLSLE_ADD_TPREL_LO12_NC =>
      Some (entry RelKind.TpOff (bit_mask_aarch64 0 12 A64.Add) None (Ok no_check) 1 0)
  | R_AARCH64_TLSLE_LDST8_TPREL_LO12 =>
      Some (entry RelKind.TpOff (bit_mask_aarch64 0 12 A64.LdSt) None (from_bit_size 12 Unsigned) 1 0)
  | R_AARCH64_TLSLE_LDST8_TPREL_LO12_NC =>
      Some (entry RelKind.TpOff (bit_mask_aarch64 0 12 A64.LdSt) None (Ok no_check) 1 0)
  | R_AARCH64_TLSLE_LDST16_TPREL_LO12 =>
      Some (entry RelKind.TpOff (bit_mask_aarch64 1 12 A64.LdSt) None (from_bit_size 12 Unsigned) 2 0)
  | R_AARCH64_TLSLE_LDST16_TPREL_LO12_NC =>
      Some (entry RelKind.TpOff (bit_mask_aarch64 1 12 A64.LdSt) None (Ok no_check) 2 0)
  | _ => None
  end.

Definition relocation_arms_6 (r_type : R_AARCH64) : option RelocEntry :=
  match r_type with
  | R_AARCH64_TLSLE_LDST32_TPREL_LO12 =>
      Some (entry RelKind.TpOff (bit_mask_aarch64 2 12 A64.LdSt) None (from_bit_size 12 Unsigned) 4 0)
  | R_AARCH64_TLSLE_LDST32_TPREL_LO12_NC =>
      Some (entry RelKind.TpOff (bit_mask_aarch64 2 12 A64.LdSt) None (Ok no_check) 4 0)
  | R_AARCH64_TLSLE_LDST64_TPREL_LO12 =>
      Some (entry RelKind.TpOff (bit_mask_aarch64 3 12 A64.LdSt) None (from_bit_size 12 Unsigned) 8 0)
  | R_AARCH64_TLSLE_LDST64_TPREL_LO12_NC =>
      Some (entry RelKind.TpOff (bit_mask_aarch64 3 12 A64.LdSt) None (Ok no_check) 8 0)
  | R_AARCH64_TLSLE_LDST128_TPREL_LO12 =>
      Some (entry RelKind.TpOff (bit_mask_aarch64 4 12 A64.LdSt) None (from_bit_size 12 Unsigned) 16 0)
  | R_AARCH64_TLSLE_LDST128_TPREL_LO12_NC =>
      Some (entry RelKind.TpOff (bit_mask_aarch64 4 12 A64.LdSt) None (Ok no_check) 16 0)
  | R_AARCH64_TLSDESC_LD_PREL19 =>
      Some (entry RelKind.TlsDesc (bit_mask_aarch64 2 21 A64.Ldr) None (from_bit_size 21 Signed) 4 0)
  | R_AARCH64_TLSDESC_ADR_PREL21 =>
      Some (entry RelKind.TlsDesc (bit_mask_aarch64 0 21 A64.Adr) None (from_bit_size 21 Signed) 1 0)
  | R_AARCH64_TLSDESC_ADR_PAGE21 =>
      Some (entry RelKind.TlsDesc (bit_mask_aarch64 12 33 A64.Adr) (Some (PageMask.GotEntryAndPosition PAGE_MASK_4KB)) (from_bit_size 33 Signed) 1 0)
  | R_AARCH64_TLSDESC_LD64_LO12 =>
      Some (entry RelKind.TlsDescGot (bit_mask_aarch64 3 12 A64.LdrRegister) None (Ok no_check) 8 0)
  | R_AARCH64_TLSDESC_ADD_LO12 =>
      Some (entry RelKind.TlsDescGot (bit_mask_aarch64 0 12 A64.Add) None (Ok no_check) 1 0)
  | R_AARCH64_TLSDESC_OFF_G1 =>
      Some (entry RelKind.TlsDescGotBase (bit_mask_aarch64 16 32 A64.Movnz) None (from_bit_size 33 Signed) 1 0)
  | R_AARCH64_TLSDESC_OFF_G0_NC =>
      Some (entry RelKind.TlsDescGotBase (bit_mask_aarch64 0 16 A64.Movkz) None (Ok no_check) 1 0)
  | R_AARCH64_TLSDESC_CALL =>
      Some (entry RelKind.TlsDescCall (RelSize.ByteSize 0) None (Ok no_check) 1 0)
  | _ => None
  end.

Definition is_thunkable (r_type : R_AARCH64) : bool :=
  match r_type with
  | R_AARCH64_CALL26 | R_AARCH64_JUMP26 => true
  | _ => false
  end.

Definition relocation_type_from_raw (r_type : R_AARCH64) : res (option RelocationKindInfo) :=
  finish_entry (is_thunkable r_type)
    (first_arm [relocation_arms_1; relocation_arms_2; relocation_arms_3; relocation_arms_4; relocation_arms_5; relocation_arms_6] r_type).

(** ** Instruction fields *)
Definition movnz_mask (extracted_value : Z) (negative : bool) : Z :=
  let value := if negative then wnot 64 extracted_value else extracted_value in
  let mask := Z.lor 0 (if negative then 0x92800000 else 0xd2800000) in
  Z.lor mask (wshl 32 (wrap 32 (extract_bit_range value 0 16)) 5).

Definition macho_scale (insn : Z) : Z :=
  if Z.land insn 0x3b000000 =? 0x39000000 then
    let scale := wshr 32 insn 30 in
    if (scale =? 0) && (Z.land insn 0x04800000 =? 0x04800000) then 4 else scale
  else 0.

Definition write_to_value (self : AArch64Instruction) (extracted_value : Z) (negative : bool)
    (dest : list Z) : res (list Z) :=
  let v32 := wrap 32 extracted_value in
  '(dest, mask) ←
    match self with
    | A64.Adr =>
        Ok (dest, Z.lor (wshl 32 (wrap 32 (extract_bit_range extracted_value 0 2)) 29)
                        (wshl 32 (wrap 32 (extract_bit_range extracted_value 2 32)) 5))
    | A64.Movkz => Ok (dest, wshl 32 v32 5)
    | A64.Movnz =>
        dest ← and_from_slice dest (le_bytes 4 0x0060001F);
        Ok (dest, movnz_mask extracted_value negative)
    | A64.Ldr => Ok (dest, wshl 32 v32 5)
    | A64.LdrRegister => Ok (dest, wshl 32 v32 10)
    | A64.Add => Ok (dest, wshl 32 v32 10)
    | A64.LdSt => Ok (dest, wshl 32 v32 10)
    | A64.TstBr => Ok (dest, wshl 32 v32 5)
    | A64.Bcond => Ok (dest, wshl 32 v32 5)
    | A64.JumpCall => Ok (dest, v32)
    | A64.MachOLow12 =>
        insn ← (slice dest 0 4 ≫= u32_from_slice);
        dest ← and_from_slice dest (le_bytes 4 (wnot 32 (wshl 32 0xfff 10)));
        Ok (dest, wshl 32 (wshr 32 v32 (macho_scale insn)) 10)
    end;
  or_from_slice dest (le_bytes 4 mask).

Definition read_value (self : AArch64Instruction) (bytes : list Z) : res (Z * bool) :=
  value ← u32_from_slice bytes;
  match self with
  | A64.Adr =>
      Ok (Z.lor (low_bits (wshr 64 value 29) 2)
                (wshl 64 (low_bits_signed (wshr 64 value 5) 19) 2), false)
  | A64.Movkz => Ok (low_bits_signed (wshr 64 value 5) 16, false)
  | A64.Movnz =>
      let negative := Z.land value (wshl 64 1 30) =? 0 in
      let v := low_bits (wshr 64 value 5) 16 in
      Ok (if negative then wnot 64 v else v, negative)
  | A64.Ldr => Ok (low_bits_signed (wshr 64 value 5) 19, false)
  | A64.LdrRegister => Ok (low_bits (wshr 64 value 10) 12, false)
  | A64.Add => Ok (low_bits (wshr 64 value 10) 12, false)
  | A64.LdSt => Ok (low_bits_signed (wshr 64 value 10) 12, false)
  | A64.TstBr => Ok (low_bits_signed (wshr 64 value 5) 14, false)
  | A64.Bcond => Ok (low_bits_signed (wshr 64 value 5) 19, false)
  | A64.JumpCall => Ok (low_bits_signed value 26, false)
  | A64.MachOLow12 => Panic
  end.

Definition TLS_TCB_SIZE : Z := 2 * 8.

(** ** Specification of the instruction fields *)

(** The number of bits of the relocation value an instruction form stores. *)
Definition field_width (i : AArch64Instruction) : Z :=
  match i with
  | A64.Adr => 21
  | A64.Movkz | A64.Movnz => 16
  | A64.Ldr | A64.Bcond => 19
  | A64.LdrRegister | A64.Add | A64.LdSt | A64.MachOLow12 => 12
  | A64.TstBr => 14
  | A64.JumpCall => 26
  end.

(** The instruction bits that hold it; [Movnz] also owns the opcode, since it
    switches between MOVZ and MOVN. *)
Definition field_mask (i : AArch64Instruction) : Z :=
  match i with
  | A64.Adr => 0x60FFFFE0
  | A64.Movkz => 0x001FFFE0
  | A64.Movnz => 0xFF9FFFE0
  | A64.Ldr | A64.Bcond => 0x00FFFFE0
  | A64.LdrRegister | A64.Add | A64.LdSt | A64.MachOLow12 => 0x003FFC00
  | A64.TstBr => 0x0007FFE0
  | A64.JumpCall => 0x03FFFFFF
  end.

(** What [read_value] gives back for a stored [v]: the forms whose immediate is
    signed sign-extend it, MOVN complements. *)
Definition read_back (i : AArch64Instruction) (v : Z) (negative : bool) : Z :=
  match i with
  | A64.Add | A64.LdrRegister | A64.MachOLow12 => v
  | A64.Movnz => if negative then Z.lor v (wnot 64 0xffff) else v
  | _ => sign_extend v (field_width i - 1)
  end.

Definition keeps_sign (i : AArch64Instruction) : bool :=
  match i with A64.Movnz => true | _ => false end.

(** The rows of the table whose bit range is wider than the field of the
    instruction form they name. *)
Definition oversized (r_type : R_AARCH64) : bool :=
  match r_type with
  | R_AARCH64_GOT_LD_PREL19 | R_AARCH64_TLSGD_MOVW_G1 | R_AARCH64_TLSLD_LD_PREL19 => true
  | _ => false
  end.

Definition size_checks (size : RelocationSize) (over : bool) : bool :=
  match size with
  | RelSize.ByteSize n => (0 <=? n) && (n <=? 8) && negb over
  | RelSize.BitMasking bm =>
      (0 <=? br_start (bm_range bm)) && (br_start (bm_range bm) <? br_end (bm_range bm)) &&
      (br_end (bm_range bm) <=? 64) &&
      match bm_instruction bm with
      | RelInsn.AArch64 i =>
          Bool.eqb over (field_width i <? br_end (bm_range bm) - br_start (bm_range bm))
      | _ => false
      end
  end.

Lemma macho_scale_cases insn :
  in_u 32 insn ->
  macho_scale insn = 0 \/ macho_scale insn = 1 \/ macho_scale insn = 2 \/
  macho_scale insn = 3 \/ macho_scale insn = 4.
Proof.
  intros [Hl Hu]. unfold macho_scale, wshr. change (30 mod 32) with 30.
  repeat case_match; try lia.
  assert (0 <= Z.shiftr insn 30 < 4); [|lia].
  rewrite Z.shiftr_div_pow2 by lia. split; [apply Z.div_pos|apply Z.div_lt_upper_bound]; lia.
Qed.

Lemma width_range i v : in_u (field_width i) v -> in_u 64 v /\ in_u 32 v.
Proof. unfold in_u; destruct i; cbn; lia. Qed.

(** The word [write_to_value] produces. *)
Definition write_word (i : AArch64Instruction) (v : Z) (negative : bool) (w : Z) : Z :=
  match i with
  | A64.Adr => Z.lor w (Z.lor (Z.shiftl (Z.land v 3) 29) (Z.shiftl (Z.shiftr v 2) 5))
  | A64.Movkz | A64.Ldr | A64.TstBr | A64.Bcond => Z.lor w (Z.shiftl v 5)
  | A64.Movnz => Z.lor (Z.land w 0x0060001F) (movnz_mask v negative)
  | A64.LdrRegister | A64.Add | A64.LdSt => Z.lor w (Z.shiftl v 10)
  | A64.JumpCall => Z.lor w v
  | A64.MachOLow12 =>
      Z.lor (Z.land w (Z.lnot 0x003FFC00)) (Z.shiftl (Z.shiftr v (macho_scale w)) 10)
  end.

Lemma movnz_mask_eq v negative :
  in_u 64 v ->
  movnz_mask v negative =
    if negative then Z.lor 0x92800000 (Z.shiftl (Z.land (Z.lnot v) 0xffff) 5)
    else Z.lor 0xd2800000 (Z.shiftl (Z.land v 0xffff) 5).
Proof.
  intros H64. unfold movnz_mask. destruct negative.
  - rewrite extract_bit_range_land by (done || apply wrap_range; lia). bits.
  - rewrite extract_bit_range_land by done. bits.
Qed.

Lemma aarch64_write_to_value_word i v negative w rest :
  in_u (field_width i) v -> in_u 32 w ->
  write_to_value i v negative (le_bytes 4 w ++ rest) =
    Ok (le_bytes 4 (write_word i v negative w) ++ rest).
Proof.
  intros Hv Hw. destruct (width_range _ _ Hv) as [H64 H32].
  unfold write_to_value. rewrite (wrap_small 32 v) by done.
  destruct i; unfold mbind, res_bind; cbn [field_width write_word] in *.
  11: {
    unfold slice. rewrite decide_True by (rewrite length_app, length_le_bytes; lia).
    change (Z.to_nat 0) with 0%nat. change (Z.to_nat (4 - 0)) with 4%nat. rewrite drop_0.
    rewrite take_app_length' by (by rewrite length_le_bytes).
    rewrite <- (app_nil_r (le_bytes 4 w)) at 1. rewrite u32_from_le_bytes by done.
    rewrite and_from_le_bytes, or_from_le_bytes. change (wnot 32 (wshl 32 4095 10)) with 0xFFC003FF.
    do 3 f_equal. f_equal.
    - bits.
    - unfold wshr. destruct (macho_scale_cases w Hw) as [->|[->|[->|[->| ->]]]];
        (apply wshl_small; [apply in_u_shiftr; [eapply in_u_weaken; [exact Hv|lia]|done]|lia]). }
  all: rewrite ?and_from_le_bytes, ?or_from_le_bytes; try done; do 4 f_equal;
    try (apply wshl_small; [eapply in_u_weaken; [exact Hv|lia]|lia]).
  extract_simp. bits.
Qed.

(** Nothing outside the field changes. *)
Lemma write_word_frame i v negative w :
  in_u (field_width i) v -> in_u 32 w ->
  Z.land (write_word i v negative w) (Z.lnot (field_mask i)) = Z.land w (Z.lnot (field_mask i)).
Proof.
  intros Hv Hw. destruct (width_range _ _ Hv) as [H64 _].
  destruct i; cbn [field_width field_mask write_word] in *.
  3: { rewrite movnz_mask_eq by done. destruct negative; bits. }
  10: { destruct (macho_scale_cases w Hw) as [->|[->|[->|[->| ->]]]];
        bits. }
  all: bits.
Qed.

Lemma write_word_range i v negative w :
  in_u (field_width i) v -> in_u 32 w -> in_u 32 (write_word i v negative w).
Proof.
  intros Hv Hw. destruct (width_range _ _ Hv) as [H64 H32].
  destruct i; cbn [field_width write_word] in *.
  3: { rewrite movnz_mask_eq by done. in_range. }
  10: { destruct (macho_scale_cases w Hw) as [->|[->|[->|[->| ->]]]]; in_range. }
  all: in_range.
Qed.

(** [read_value] recovers the stored value, sign-extended or complemented as
    the form prescribes. *)
Lemma aarch64_read_write_word i v negative w rest :
  i <> A64.MachOLow12 -> in_u (field_width i) v -> in_u 32 w ->
  (i <> A64.Movnz -> Z.land w (field_mask i) = 0) ->
  read_value i (le_bytes 4 (write_word i v negative w) ++ rest) =
    Ok (read_back i v negative, keeps_sign i && negative).
Proof.
  intros Hi Hv Hw H0. pose proof (write_word_range i v negative w Hv Hw) as Hr.
  destruct (width_range _ _ Hv) as [H64 H32].
  unfold read_value. rewrite u32_from_le_bytes by done.
  destruct i; try done; unfold mbind, res_bind; cbn [field_width field_mask write_word read_back keeps_sign] in *;
    try (pose proof (unmasked _ _ _ Hw (H0 ltac:(discriminate))) as <-); clear H0.
  (* the forms with one contiguous field *)
  all: try (unfold low_bits_signed; rewrite low_bits_land by reflexivity;
    match goal with
    | |- context [Z.land (wshr 64 ?x ?k) (Z.ones ?n)] =>
        replace (Z.land (wshr 64 x k) (Z.ones n)) with v
          by (bits)
    | |- context [Z.land ?x (Z.ones ?n)] =>
        replace (Z.land x (Z.ones n)) with v by (bits)
    end; done).
  - (* Adr: two bits at 29, nineteen at 5 *)
    do 2 f_equal. unfold low_bits_signed. rewrite !low_bits_land by reflexivity.
    match goal with
    | |- context [sign_extend ?x _] =>
        replace x with (Z.shiftr v 2) by (bits)
    end.
    change (wsub 32 19 1) with 18. change (21 - 1) with 20.
    rewrite !sign_extend_lor by (in_range || reflexivity).
    rewrite Z.shiftr_spec by done. change (18 + 2) with 20.
    destruct (Z.testbit v 20); bits.
  - (* Movnz *)
    rewrite movnz_mask_eq by done.
    destruct negative; cbn [andb];
      match goal with
      | |- context [Z.land (Z.lor (Z.land w ?m) ?x) (wshl 64 1 30)] =>
          first
            [ replace (Z.land (Z.lor (Z.land w m) x) (wshl 64 1 30)) with 0 by bits
            | replace (Z.land (Z.lor (Z.land w m) x) (wshl 64 1 30)) with (2 ^ 30) by bits ]
      end; change (2 ^ 30 =? 0) with false; rewrite ?Z.eqb_refl; do 2 f_equal; rewrite low_bits_land by reflexivity;
      bits.
Qed.

(** ** Theorems *)

(** For every instruction form and every value that fits the form's field,
    [write_to_value] on a buffer of at least four bytes succeeds, leaves every
    byte after the instruction alone, and in the instruction word changes no
    bit outside the form's field. *)
Theorem aarch64_write_to_value_frame i v negative dest :
  in_u (field_width i) v -> bytes_ok dest -> (4 <= length dest)%nat ->
  exists w',
    write_to_value i v negative dest = Ok (le_bytes 4 w' ++ drop 4 dest) /\
    in_u 32 w' /\
    Z.land w' (Z.lnot (field_mask i)) =
      Z.land (le_val (take 4 dest)) (Z.lnot (field_mask i)).
Proof.
  intros Hv Hok Hlen. destruct (word_prefix 4 dest Hok Hlen) as [Hw Hd].
  exists (write_word i v negative (le_val (take 4 dest))). repeat split.
  - rewrite Hd at 1. by apply aarch64_write_to_value_word.
  - by apply write_word_range.
  - by apply write_word_range.
  - by apply write_word_frame.
Qed.

Lemma aarch64_write_to_value_frame_witness :
  exists w',
    write_to_value A64.JumpCall 0x3FFFFFF false [0; 0; 0; 0x94; 7] = Ok (le_bytes 4 w' ++ [7]) /\
    in_u 32 w' /\ Z.land w' (Z.lnot 0x03FFFFFF) = 0x94000000.
Proof.
  apply (aarch64_write_to_value_frame A64.JumpCall 0x3FFFFFF false [0; 0; 0; 0x94; 7]).
  - split; vm_compute; congruence.
  - repeat constructor; vm_compute; congruence.
  - vm_compute; lia.
Defined.

(** [read_value] inverts [write_to_value]: reading back a written value
    gives the value (sign-extended from the field's top bit for the signed
    forms, complemented for a MOVN) and the sign that selected MOVN.  Except for
    [Movnz], which clears its field first, the field must have been zero. *)
Theorem aarch64_read_value_write_to_value i v negative dest dest' :
  i <> A64.MachOLow12 -> in_u (field_width i) v ->
  bytes_ok dest -> (4 <= length dest)%nat ->
  (i <> A64.Movnz -> Z.land (le_val (take 4 dest)) (field_mask i) = 0) ->
  write_to_value i v negative dest = Ok dest' ->
  read_value i dest' = Ok (read_back i v negative, keeps_sign i && negative).
Proof.
  intros Hi Hv Hok Hlen H0. destruct (word_prefix 4 dest Hok Hlen) as [Hw Hd].
  rewrite Hd at 1. rewrite aarch64_write_to_value_word by done. intros [= <-].
  by apply aarch64_read_write_word.
Qed.

Lemma aarch64_read_value_write_to_value_witness :
  read_value A64.Adr [0x60; 0xff; 0xff; 0x50] = Ok (2 ^ 64 - 18, false).
Proof.
  apply (aarch64_read_value_write_to_value A64.Adr 0x1FFFEE false [0; 0; 0; 0x10]);
    try discriminate; try reflexivity.
  - split; vm_compute; congruence.
  - repeat constructor; vm_compute; congruence.
Defined.

(** The relocation table is total and well formed: it never panics, every
    bit range satisfies the assertions of [extract_bit_range], byte sizes are at
    most 8, every row with a bit range names an AArch64 form, and exactly three
    rows extract more bits than their form's field holds. *)
Theorem aarch64_relocation_table_well_formed r_type :
  exists o, relocation_type_from_raw r_type = Ok o /\
    match o with
    | Some info => size_checks (rki_size info) (oversized r_type) = true /\
                   0 < rki_alignment info /\ rki_bias info = 0
    | None => oversized r_type = false
    end.
Proof. destruct r_type; eexists; split; try reflexivity; cbn; repeat split. Qed.
