(* ===== verification/RiscV64.v ===== *)
(** RISC-V relocations: [linker-utils/src/riscv64.rs]. *)
From Stdlib Require Import ZArith Lia.
From stdpp Require Import base list list_numbers numbers strings option.
From S2P Require Import Prelude Bits BitMisc Elf Relaxation.

Local Open Scope Z_scope.

Definition distance_fits_jal (distance : Z) : bool :=
  (- 2 ^ 20 <=? distance) && (distance <=? 2 ^ 20 - 1).

(** ** Relaxations *)
Module Relax.
Inductive RelaxationKind :=
| NoOp
| ReplaceWithNop
| CallToJal
| Hi20ToCLui
| Hi20Delete
| Lo12Rs1ToZero.
End Relax.

(** Mask for the rs1 field (bits [19:15]). *)
Definition RS1_MASK : Z := wshl 32 0x1f 15.

Definition apply_bytes (kind : Relax.RelaxationKind) (bytes : list Z) (offset : Z) : res (list Z) :=
  match kind with
  | Relax.NoOp | Relax.Hi20Delete => Ok bytes
  | Relax.ReplaceWithNop => copy_at bytes offset [0x01; 0x0; 0x01; 0x0]
  | Relax.CallToJal =>
      auipc_word ← (slice bytes offset (Z.of_nat (length bytes)) ≫= u32_from_slice);
      let rd := Z.land (wshr 32 auipc_word 7) 0x1f in
      let jal_base := Z.lor 0x6f (wshl 32 rd 7) in
      copy_at bytes offset (le_bytes 4 jal_base)
  | Relax.Hi20ToCLui =>
      b0 ← get_at bytes offset;
      b1 ← get_at bytes (offset + 1);
      let lui_lo := le_val [b0; b1] in
      let rd := Z.land (wshr 16 lui_lo 7) 0x1f in
      let clui_base := Z.lor 0x6001 (wshl 16 rd 7) in
      copy_at bytes offset (le_bytes 2 clui_base)
  | Relax.Lo12Rs1ToZero =>
      word ← (slice bytes offset (Z.of_nat (length bytes)) ≫= u32_from_slice);
      let word := Z.land word (wnot 32 RS1_MASK) in
      copy_at bytes offset (le_bytes 4 word)
  end.

Definition apply (kind : Relax.RelaxationKind) (s : ApplyArgs) : res ApplyArgs :=
  with_bytes s (apply_bytes kind (section_bytes s) (offset_in_section s)).

Definition next_modifier (kind : Relax.RelaxationKind) : RelocationModifier :=
  match kind with
  | Relax.CallToJal | Relax.Hi20Delete => SkipNextRelocation
  | _ => Normal
  end.

Definition hi20_is_zero (value : Z) : bool :=
  let hi20 := wshr 64 (wadd 64 value 0x800) 12 in
  Z.land hi20 0xfffff =? 0.

Definition hi20_fits_clui (value : Z) : bool :=
  let hi20 := wshr 64 (wadd 64 value 0x800) 12 in
  let hi20_signed := signed 64 hi20 in
  let as_6bit := Z.shiftr (signed 8 (Z.shiftl (signed 8 hi20_signed) 2)) 2 in
  (as_6bit =? hi20_signed) && negb (hi20_signed =? 0).

Definition rd_valid_for_clui (rd : Z) : bool := negb (rd =? 0) && negb (rd =? 2).

Definition clui_rel_info : RelocationKindInfo :=
  mkRelocationKindInfo RelKind.Absolute (bit_mask_riscv 0 32 RV.CluiType) None
    (mkAllowedRange (- 2 ^ 31) (2 ^ 32)) 1 0 false.

(** ** The relocation table *)
Definition relocation_arms_1 (r_type : R_RISCV) : option RelocEntry :=
  match r_type with
  | R_RISCV_NONE => Some (entry RelKind.None (RelSize.ByteSize 0) None (Ok no_check) 1 0)
  | R_RISCV_32 =>
      Some (entry RelKind.Absolute (RelSize.ByteSize 4) None (Ok (mkAllowedRange (- 2 ^ 31) (2 ^ 32))) 1 0)
  | R_RISCV_64 => Some (entry RelKind.Absolute (RelSize.ByteSize 8) None (Ok no_check) 1 0)
  | R_RISCV_BRANCH =>
      Some (entry RelKind.Relative (bit_mask_riscv 0 32 RV.BType) None (Ok (mkAllowedRange (- 2 ^ 12) (2 ^ 12 - 1))) 2 0)
  | R_RISCV_JAL =>
      Some (entry RelKind.Relative (bit_mask_riscv 0 32 RV.JType) None (Ok (mkAllowedRange (- 2 ^ 20) (2 ^ 20 - 1))) 2 0)
  | R_RISCV_CALL | R_RISCV_CALL_PLT =>
      Some (entry RelKind.PltRelative (bit_mask_riscv 0 64 RV.UiType) None (Ok (mkAllowedRange (- 2 ^ 31) (2 ^ 32))) 1 0)
  | R_RISCV_GOT_HI20 =>
      Some (entry RelKind.GotRelative (bit_mask_riscv 0 32 RV.UType) None (Ok (mkAllowedRange (- 2 ^ 31) (2 ^ 32))) 1 0)
  | R_RISCV_TLS_GOT_HI20 =>
      Some (entry RelKind.GotTpOff (bit_mask_riscv 0 32 RV.UType) None (Ok (mkAllowedRange (- 2 ^ 31) (2 ^ 32))) 1 0)
  | R_RISCV_TLS_GD_HI20 =>
      Some (entry RelKind.TlsGd (bit_mask_riscv 0 32 RV.UType) None (Ok (mkAllowedRange (- 2 ^ 31) (2 ^ 32))) 1 0)
  | R_RISCV_PCREL_HI20 =>
      Some (entry RelKind.Relative (bit_mask_riscv 0 32 RV.UType) None (Ok (mkAllowedRange (- 2 ^ 31) (2 ^ 32))) 1 0)
  | R_RISCV_PCREL_LO12_I =>
      Some (entry RelKind.RelativeRiscVLow12 (bit_mask_riscv 0 32 RV.IType) None (Ok (mkAllowedRange (- 2 ^ 31) (2 ^ 32))) 1 0)
  | R_RISCV_PCREL_LO12_S =>
      Some (entry RelKind.RelativeRiscVLow12 (bit_mask_riscv 0 32 RV.SType) None (Ok (mkAllowedRange (- 2 ^ 31) (2 ^ 32))) 1 0)
  | R_RISCV_HI20 =>
      Some (entry RelKind.Absolute (bit_mask_riscv 0 32 RV.UType) None (Ok (mkAllowedRange (- 2 ^ 31) (2 ^ 32))) 1 0)
  | R_RISCV_LO12_I =>
      Some (entry RelKind.Absolute (bit_mask_riscv 0 32 RV.IType) None (Ok (mkAllowedRange (- 2 ^ 31) (2 ^ 32))) 1 0)
  | R_RISCV_LO12_S =>
      Some (entry RelKind.Absolute (bit_mask_riscv 0 32 RV.SType) None (Ok (mkAllowedRange (- 2 ^ 31) (2 ^ 32))) 1 0)
  | R_RISCV_TPREL_HI20 =>
      Some (entry RelKind.TpOff (bit_mask_riscv 0 32 RV.UType) None (Ok (mkAllowedRange (- 2 ^ 31) (2 ^ 32))) 1 0)
  | R_RISCV_TPREL_LO12_I =>
      Some (entry RelKind.TpOff (bit_mask_riscv 0 32 RV.IType) None (Ok (mkAllowedRange (- 2 ^ 31) (2 ^ 32))) 1 0)
  | R_RISCV_TPREL_LO12_S =>
      Some (entry RelKind.TpOff (bit_mask_riscv 0 32 RV.SType) None (Ok (mkAllowedRange (- 2 ^ 31) (2 ^ 32))) 1 0)
  | R_RISCV_TPREL_ADD => Some (entry RelKind.None (RelSize.ByteSize 0) None (Ok no_check) 1 0)
  | _ => None
  end.

Definition relocation_arms_2 (r_type : R_RISCV) : option RelocEntry :=
  match r_type with
  | R_RISCV_ADD8 =>
      Some (entry RelKind.AbsoluteAddition (RelSize.ByteSize 1) None (Ok no_check) 1 0)
  | R_RISCV_ADD16 =>
      Some (entry RelKind.AbsoluteAddition (RelSize.ByteSize 2) None (Ok no_check) 1 0)
  | R_RISCV_ADD32 =>
      Some (entry RelKind.AbsoluteAddition (RelSize.ByteSize 4) None (Ok no_check) 1 0)
  | R_RISCV_ADD64 =>
      Some (entry RelKind.AbsoluteAddition (RelSize.ByteSize 8) None (Ok no_check) 1 0)
  | R_RISCV_SUB8 =>
      Some (entry RelKind.AbsoluteSubtraction (RelSize.ByteSize 1) None (Ok no_check) 1 0)
  | R_RISCV_SUB16 =>
      Some (entry RelKind.AbsoluteSubtraction (RelSize.ByteSize 2) None (Ok no_check) 1 0)
  | R_RISCV_SUB32 =>
      Some (entry RelKind.AbsoluteSubtraction (RelSize.ByteSize 4) None (Ok no_check) 1 0)
  | R_RISCV_SUB64 =>
      Some (entry RelKind.AbsoluteSubtraction (RelSize.ByteSize 8) None (Ok no_check) 1 0)
  | R_RISCV_GOT32_PCREL =>
      Some (entry RelKind.GotRelative (RelSize.ByteSize 4) None (Ok (mkAllowedRange (- 2 ^ 31) (2 ^ 32))) 1 0)
  | R_RISCV_ALIGN => Some (entry RelKind.Alignment (RelSize.ByteSize 0) None (Ok no_check) 1 0)
  | R_RISCV_RVC_BRANCH =>
      Some (entry RelKind.Relative (bit_mask_riscv 0 16 RV.CbType) None (Ok (mkAllowedRange (- 2 ^ 8) (2 ^ 8 - 1))) 2 0)
  | R_RISCV_RVC_JUMP =>
      Some (entry RelKind.Relative (bit_mask_riscv 0 16 RV.CjType) None (Ok (mkAllowedRange (- 2 ^ 11) (2 ^ 11 - 1))) 2 0)
  | R_RISCV_RELAX => Some (entry RelKind.None (RelSize.ByteSize 0) None (Ok no_check) 1 0)
  | R_RISCV_SUB6 =>
      Some (entry RelKind.AbsoluteSubtractionWord6 (RelSize.ByteSize 1) None (Ok no_check) 1 0)
  | R_RISCV_SET6 =>
      Some (entry RelKind.AbsoluteSetWord6 (RelSize.ByteSize 1) None (Ok no_check) 1 0)
  | R_RISCV_SET8 => Some (entry RelKind.AbsoluteSet (RelSize.ByteSize 1) None (Ok no_check) 1 0)
  | R_RISCV_SET16 =>
      Some (entry RelKind.AbsoluteSet (RelSize.ByteSize 2) None (Ok no_check) 1 0)
  | R_RISCV_SET32 =>
      Some (entry RelKind.AbsoluteSet (RelSize.ByteSize 4) None (Ok no_check) 1 0)
  | R_RISCV_32_PCREL =>
      Some (entry RelKind.Relative (RelSize.ByteSize 4) None (Ok (mkAllowedRange (- 2 ^ 31) (2 ^ 32))) 1 0)
  | R_RISCV_PLT32 =>
      Some (entry RelKind.PltRelative (RelSize.ByteSize 4) None (Ok (mkAllowedRange (- 2 ^ 31) (2 ^ 32))) 1 0)
  | _ => None
  end.

Definition relocation_arms_3 (r_type : R_RISCV) : option RelocEntry :=
  match r_type with
  | R_RISCV_SET_ULEB128 =>
      Some (entry RelKind.Relative (RelSize.ByteSize 0) None (Ok no_check) 1 0)
  | R_RISCV_SUB_ULEB128 =>
      Some (entry (RelKind.PairSubtractionULEB128 (RT_RISCV R_RISCV_SET_ULEB128)) (RelSize.ByteSize 8) None (Ok no_check) 1 0)
  | R_RISCV_TLSDESC_HI20 => None
  | R_RISCV_TLSDESC_LOAD_LO12 => None
  | R_RISCV_TLSDESC_ADD_LO12 => None
  | R_RISCV_TLSDESC_CALL => None
  | _ => None
  end.

Definition relocation_type_from_raw (r_type : R_RISCV) : res (option RelocationKindInfo) :=
  finish_entry false (first_arm [relocation_arms_1; relocation_arms_2; relocation_arms_3] r_type).

(** ** Instruction fields *)
Definition UTYPE_IMMEDIATE_MASK : Z := 0x00000FFF.
Definition ITYPE_IMMEDIATE_MASK : Z := 0x000FFFFF.
Definition STYPE_IMMEDIATE_MASK : Z := 0x01FFF07F.
Definition BTYPE_IMMEDIATE_MASK : Z := 0x01FFF07F.
Definition JTYPE_IMMEDIATE_MASK : Z := 0x00000FFF.
Definition CBTYPE_IMMEDIATE_MASK : Z := 0xE383.
Definition CJTYPE_IMMEDIATE_MASK : Z := 0xE003.
Definition CLUITYPE_IMMEDIATE_MASK : Z := 0xEF83.

Definition utype_mask (v : Z) : Z :=
  wshl 32 (wrap 32 (extract_bit_range (wadd 64 v 0x800) 12 32)) 12.

Definition itype_mask (v : Z) : Z := wshl 64 v 20.

Definition stype_mask (v : Z) : Z :=
  let mask := wshl 64 (extract_bit_range v 0 5) 7 in
  Z.lor mask (wshl 64 (extract_bit_range v 5 12) 25).

Definition btype_mask (v : Z) : Z :=
  let mask := wshl 64 (extract_bit v 11) 7 in
  let mask := Z.lor mask (wshl 64 (extract_bit_range v 1 5) 8) in
  let mask := Z.lor mask (wshl 64 (extract_bit_range v 5 11) 25) in
  Z.lor mask (wshl 64 (extract_bit v 12) 31).

Definition jtype_mask (v : Z) : Z :=
  let mask := wshl 64 (extract_bit_range v 12 20) 12 in
  let mask := Z.lor mask (wshl 64 (extract_bit v 11) 20) in
  let mask := Z.lor mask (wshl 64 (extract_bit_range v 1 11) 21) in
  Z.lor mask (wshl 64 (extract_bit v 20) 31).

Definition cbtype_mask (v : Z) : Z :=
  let mask := wshl 64 (extract_bit v 5) 2 in
  let mask := Z.lor mask (wshl 64 (extract_bit_range v 1 3) 3) in
  let mask := Z.lor mask (wshl 64 (extract_bit_range v 6 8) 5) in
  let mask := Z.lor mask (wshl 64 (extract_bit_range v 3 5) 10) in
  Z.lor mask (wshl 64 (extract_bit v 8) 12).

Definition cjtype_mask (v : Z) : Z :=
  let mask := wshl 64 (extract_bit v 5) 2 in
  let mask := Z.lor mask (wshl 64 (extract_bit_range v 1 4) 3) in
  let mask := Z.lor mask (wshl 64 (extract_bit v 7) 6) in
  let mask := Z.lor mask (wshl 64 (extract_bit v 6) 7) in
  let mask := Z.lor mask (wshl 64 (extract_bit v 10) 8) in
  let mask := Z.lor mask (wshl 64 (extract_bit_range v 8 10) 9) in
  let mask := Z.lor mask (wshl 64 (extract_bit v 4) 11) in
  Z.lor mask (wshl 64 (extract_bit v 11) 12).

Definition cluitype_mask (v : Z) : Z :=
  let hi20 := wshr 64 (wadd 64 v 0x800) 12 in
  let mask := wshl 64 (Z.land hi20 0x1f) 2 in
  Z.lor mask (wshl 64 (Z.land (wshr 64 hi20 5) 1) 12).

(** The arms of [write_to_value] other than [UiType]. *)
Definition write_single (self : RiscVInstruction) (v : Z) (dest : list Z) : res (list Z) :=
  match self with
  | RV.UiType => Panic
  | RV.UType => clear_and_or 4 dest UTYPE_IMMEDIATE_MASK (utype_mask v)
  | RV.IType => clear_and_or 4 dest ITYPE_IMMEDIATE_MASK (wrap 32 (itype_mask v))
  | RV.SType => clear_and_or 4 dest STYPE_IMMEDIATE_MASK (wrap 32 (stype_mask v))
  | RV.BType => clear_and_or 4 dest BTYPE_IMMEDIATE_MASK (wrap 32 (btype_mask v))
  | RV.JType => clear_and_or 4 dest JTYPE_IMMEDIATE_MASK (wrap 32 (jtype_mask v))
  | RV.CbType =>
      dest ← and_from_slice dest (le_bytes 2 CBTYPE_IMMEDIATE_MASK);
      or_from_slice dest (take 2 (le_bytes 8 (cbtype_mask v)))
  | RV.CjType =>
      dest ← and_from_slice dest (le_bytes 2 CJTYPE_IMMEDIATE_MASK);
      or_from_slice dest (take 2 (le_bytes 8 (cjtype_mask v)))
  | RV.CluiType => clear_and_or 2 dest CLUITYPE_IMMEDIATE_MASK (wrap 16 (cluitype_mask v))
  end.

Definition write_to_value (self : RiscVInstruction) (extracted_value : Z) (negative : bool)
    (dest : list Z) : res (list Z) :=
  match self with
  | RV.UiType =>
      dest ← update_to dest 4 (write_single RV.UType extracted_value);
      update_from dest 4 (write_single RV.IType extracted_value)
  | _ => write_single self extracted_value dest
  end.

Definition field (value shift mask : Z) : Z := Z.land (wshr 32 value shift) mask.

Definition u16_from_bytes (bytes : list Z) : res Z :=
  b0 ← get_at bytes 0; b1 ← get_at bytes 1; Ok (le_val [b0; b1]).

Definition stype_imm (value : Z) : Z :=
  Z.lor (wshl 32 (field value 25 0x7f) 5) (field value 7 0x1f).

Definition btype_imm (value : Z) : Z :=
  Z.lor (Z.lor (Z.lor (wshl 32 (field value 31 0x1) 12) (wshl 32 (field value 7 0x1) 11))
           (wshl 32 (field value 25 0x3f) 5)) (wshl 32 (field value 8 0xf) 1).

Definition jtype_imm (value : Z) : Z :=
  Z.lor (Z.lor (Z.lor (wshl 32 (field value 31 0x1) 20) (wshl 32 (field value 12 0xff) 12))
           (wshl 32 (field value 20 0x1) 11)) (wshl 32 (field value 21 0x3ff) 1).

Definition cfield (value shift mask : Z) : Z := Z.land (wshr 16 value shift) mask.

Definition cbtype_imm (value : Z) : Z :=
  Z.lor (Z.lor (Z.lor (Z.lor (wshl 16 (cfield value 12 0x1) 8) (wshl 16 (cfield value 5 0x3) 6))
           (wshl 16 (cfield value 2 0x1) 5)) (wshl 16 (cfield value 10 0x3) 3))
    (wshl 16 (cfield value 3 0x3) 1).

Definition cjtype_imm (value : Z) : Z :=
  Z.lor (Z.lor (Z.lor (Z.lor (Z.lor (Z.lor (Z.lor
    (wshl 16 (cfield value 12 0x1) 11) (wshl 16 (cfield value 8 0x1) 10))
    (wshl 16 (cfield value 9 0x3) 8)) (wshl 16 (cfield value 6 0x1) 7))
    (wshl 16 (cfield value 7 0x1) 6)) (wshl 16 (cfield value 2 0x1) 5))
    (wshl 16 (cfield value 11 0x1) 4)) (wshl 16 (cfield value 3 0x7) 1).

Definition cluitype_imm (value : Z) : Z :=
  Z.lor (wshl 16 (cfield value 12 0x1) 5) (cfield value 2 0x1f).

Definition read_single (self : RiscVInstruction) (bytes : list Z) : res (Z * bool) :=
  match self with
  | RV.UiType => Panic
  | RV.UType =>
      value ← u32_from_slice bytes;
      let adjusted := i32_shl_shr (field value 12 0xfffff) 12 in
      Ok (wsub 64 (wrap 64 adjusted) 0x800, false)
  | RV.IType => value ← u32_from_slice bytes; Ok (signed_result (field value 20 0xfff) 20)
  | RV.SType => value ← u32_from_slice bytes; Ok (signed_result (stype_imm value) 20)
  | RV.BType => value ← u32_from_slice bytes; Ok (signed_result (btype_imm value) 19)
  | RV.JType => value ← u32_from_slice bytes; Ok (signed_result (jtype_imm value) 11)
  | RV.CbType => value ← u16_from_bytes bytes; Ok (signed_result (cbtype_imm value) 23)
  | RV.CjType => value ← u16_from_bytes bytes; Ok (signed_result (cjtype_imm value) 20)
  | RV.CluiType =>
      value ← u16_from_bytes bytes;
      let hi20 := wrap 64 (i32_shl_shr (cluitype_imm value) 26) in
      Ok (wsub 64 (wshl 64 hi20 12) 0x800, signed 64 hi20 <? 0)
  end.

Definition read_value (self : RiscVInstruction) (bytes : list Z) : res (Z * bool) :=
  match self with
  | RV.UiType =>
      '(hi, _) ← (slice bytes 0 4 ≫= read_single RV.UType);
      '(lo, _) ← (slice bytes 4 (Z.of_nat (length bytes)) ≫= read_single RV.IType);
      Ok (Z.lor (wshl 64 hi 12) lo, false)
  | _ => read_single self bytes
  end.

(** ** Specification *)

(** Instruction size and the bits the immediate occupies, per form. *)
Definition insn_bytes (i : RiscVInstruction) : nat :=
  match i with
  | RV.UiType => 8
  | RV.CbType | RV.CjType | RV.CluiType => 2
  | _ => 4
  end.

Definition keep_mask (i : RiscVInstruction) : Z :=
  match i with
  | RV.UiType => Z.lor UTYPE_IMMEDIATE_MASK (Z.shiftl ITYPE_IMMEDIATE_MASK 32)
  | RV.UType => UTYPE_IMMEDIATE_MASK
  | RV.IType => ITYPE_IMMEDIATE_MASK
  | RV.SType => STYPE_IMMEDIATE_MASK
  | RV.BType => BTYPE_IMMEDIATE_MASK
  | RV.JType => JTYPE_IMMEDIATE_MASK
  | RV.CbType => CBTYPE_IMMEDIATE_MASK
  | RV.CjType => CJTYPE_IMMEDIATE_MASK
  | RV.CluiType => CLUITYPE_IMMEDIATE_MASK
  end.

(** The bits of the value each immediate form keeps. *)
Definition imm_mask (i : RiscVInstruction) : Z :=
  match i with
  | RV.IType | RV.SType => 0xfff
  | RV.BType => 0x1ffe
  | RV.JType => 0x1ffffe
  | RV.CbType => 0x1fe
  | RV.CjType => 0xffe
  | _ => 0
  end.

(** The width of the signed immediate. *)
Definition imm_width (i : RiscVInstruction) : Z :=
  match i with
  | RV.IType | RV.SType | RV.CjType => 12
  | RV.BType => 13
  | RV.JType => 21
  | RV.CbType => 9
  | _ => 0
  end.

Definition plain_imm (i : RiscVInstruction) : bool :=
  match i with RV.UiType | RV.UType | RV.CluiType => false | _ => true end.

(** The bits [write_to_value] sets. *)
Definition imm_word (i : RiscVInstruction) (v : Z) : Z :=
  match i with
  | RV.UiType => Z.lor (utype_mask v) (Z.shiftl (wrap 32 (itype_mask v)) 32)
  | RV.UType => utype_mask v
  | RV.IType => wrap 32 (itype_mask v)
  | RV.SType => wrap 32 (stype_mask v)
  | RV.BType => wrap 32 (btype_mask v)
  | RV.JType => wrap 32 (jtype_mask v)
  | RV.CbType => wrap 16 (cbtype_mask v)
  | RV.CjType => wrap 16 (cjtype_mask v)
  | RV.CluiType => wrap 16 (cluitype_mask v)
  end.

Definition word_bits (i : RiscVInstruction) : Z := 8 * Z.of_nat (insn_bytes i).

Definition branch_form (i : RiscVInstruction) : bool :=
  match i with RV.BType | RV.JType | RV.CbType | RV.CjType => true | _ => false end.

Definition size_checks (size : RelocationSize) : bool :=
  match size with
  | RelSize.ByteSize n => (0 <=? n) && (n <=? 8)
  | RelSize.BitMasking bm =>
      match bm_instruction bm with
      | RelInsn.RiscV i =>
          (br_start (bm_range bm) =? 0) &&
          (br_end (bm_range bm) =? Z.min 64 (8 * Z.max 2 (Z.of_nat (insn_bytes i)))) 
      | _ => false
      end
  end.

Lemma write_single_word i v w rest :
  i <> RV.UiType ->
  write_single i v (le_bytes (insn_bytes i) w ++ rest) =
    Ok (le_bytes (insn_bytes i) (Z.lor (Z.land w (keep_mask i)) (imm_word i v)) ++ rest).
Proof.
  intros Hi. destruct i; try done; cbn [insn_bytes keep_mask imm_word write_single].
  all: try apply clear_and_or_word.
  all: unfold mbind, res_bind; rewrite and_from_le_bytes, take_le_bytes by lia;
    rewrite or_from_le_bytes; do 2 f_equal;
    rewrite <- (le_bytes_wrap 2), <- (le_bytes_wrap 2 (Z.lor _ (wrap 16 _)));
    rewrite !wrap_lor by lia; by rewrite wrap_wrap by lia.
Qed.

Ltac unfold_masks :=
  unfold UTYPE_IMMEDIATE_MASK, ITYPE_IMMEDIATE_MASK, STYPE_IMMEDIATE_MASK,
    BTYPE_IMMEDIATE_MASK, JTYPE_IMMEDIATE_MASK, CBTYPE_IMMEDIATE_MASK,
    CJTYPE_IMMEDIATE_MASK, CLUITYPE_IMMEDIATE_MASK in *.

Lemma imm_word_range i v : in_u 64 v -> in_u (word_bits i) (imm_word i v).
Proof.
  intros Hv. destruct i; unfold word_bits; cbn [insn_bytes imm_word];
    change (8 * Z.of_nat 8) with 64; change (8 * Z.of_nat 4) with 32;
    change (8 * Z.of_nat 2) with 16; try in_range.
  - unfold utype_mask, wshl. in_range.
  - unfold utype_mask, wshl. in_range.
Qed.

(** The bits set are outside the bits kept. *)
Lemma imm_word_disjoint i v : in_u 64 v -> Z.land (imm_word i v) (keep_mask i) = 0.
Proof.
  intros Hv.
  destruct i; cbn [imm_word keep_mask];
    unfold utype_mask, itype_mask, stype_mask, btype_mask, jtype_mask, cbtype_mask,
      cjtype_mask, cluitype_mask; unfold_masks; extract_simp;
    bits.
Qed.

Lemma riscv_write_to_value_word i v negative w rest :
  in_u 64 v -> in_u (word_bits i) w ->
  write_to_value i v negative (le_bytes (insn_bytes i) w ++ rest) =
    Ok (le_bytes (insn_bytes i) (Z.lor (Z.land w (keep_mask i)) (imm_word i v)) ++ rest).
Proof.
  intros Hv Hw. destruct i; [|by apply write_single_word..].
  cbn [write_to_value insn_bytes] in *. unfold word_bits in Hw. cbn [insn_bytes] in Hw.
  change (le_bytes 8 w) with (le_bytes (4 + 4) w).
  rewrite (le_bytes_app 4 4 w), <- app_assoc. unfold update_to, update_from.
  rewrite decide_True by (rewrite !length_app, !length_le_bytes; lia).
  change (Z.to_nat 4) with 4%nat.
  rewrite take_app_length', drop_app_length' by (by rewrite length_le_bytes).
  rewrite <- (app_nil_r (le_bytes 4 w)) at 1.
  rewrite (write_single_word RV.UType) by done. unfold mbind, res_bind.
  rewrite decide_True by (rewrite !length_app, !length_le_bytes; lia).
  rewrite app_nil_r, take_app_length', drop_app_length' by (by rewrite length_le_bytes).
  rewrite (write_single_word RV.IType) by done.
  rewrite app_assoc. do 2 f_equal. cbn [insn_bytes].
  cbn [keep_mask imm_word].
  unfold utype_mask, itype_mask, wshl; unfold_masks.
  rewrite le_bytes_pair.
  - f_equal.
    change (8 * Z.of_nat 4) with 32. change (8 * Z.of_nat 8) with 64 in Hw.
    extract_simp. bits.
  - change (8 * Z.of_nat 4) with 32. in_range.
Qed.

(** ** Theorems *)

(** [write_to_value] on a buffer that holds the instruction succeeds for
    every 64-bit value, leaves the bytes after the instruction alone, and changes
    no bit outside the immediate (the bits of the form's own keep mask). *)
Theorem riscv_write_to_value_frame i v negative dest :
  in_u 64 v -> bytes_ok dest -> (insn_bytes i <= length dest)%nat ->
  exists w',
    write_to_value i v negative dest = Ok (le_bytes (insn_bytes i) w' ++ drop (insn_bytes i) dest) /\
    Z.land w' (keep_mask i) = Z.land (le_val (take (insn_bytes i) dest)) (keep_mask i).
Proof.
  intros Hv Hok Hlen. destruct (word_prefix (insn_bytes i) dest Hok Hlen) as [Hw Hd].
  eexists. split; [rewrite Hd at 1; by apply riscv_write_to_value_word|].
  rewrite Z.land_lor_distr_l, <- Z.land_assoc, Z.land_diag, imm_word_disjoint by done.
  apply Z.lor_0_r.
Qed.

Lemma riscv_write_to_value_frame_witness :
  exists w',
    write_to_value RV.UiType 0x12345678 false [0x97; 0; 0; 0; 0xe7; 0x80; 0; 0; 0x55] =
      Ok (le_bytes 8 w' ++ [0x55]) /\
    Z.land w' (keep_mask RV.UiType) = 0x000080e700000097.
Proof.
  apply (riscv_write_to_value_frame RV.UiType 0x12345678 false [0x97; 0; 0; 0; 0xe7; 0x80; 0; 0; 0x55]).
  - split; vm_compute; congruence.
  - repeat constructor; vm_compute; congruence.
  - vm_compute; lia.
Defined.

Lemma u16_from_le_bytes w rest :
  in_u 16 w -> u16_from_bytes (le_bytes 2 w ++ rest) = Ok w.
Proof.
  intros Hw. transitivity (Ok (le_val (le_bytes 2 w))); [reflexivity|].
  rewrite le_val_le_bytes. f_equal. by apply wrap_small.
Qed.

(** The immediate assembled from a written word is the kept part of the value. *)
Lemma read_single_word i v w rest :
  plain_imm i = true -> in_u 64 v -> in_u (word_bits i) w ->
  read_value i (le_bytes (insn_bytes i) (Z.lor (Z.land w (keep_mask i)) (imm_word i v)) ++ rest) =
    Ok (let x := signed (imm_width i) (Z.land v (imm_mask i)) in (wrap 64 x, x <? 0)).
Proof.
  intros Hi Hv Hw. pose proof (imm_word_range i v Hv) as Hm.
  assert (in_u (word_bits i) (Z.lor (Z.land w (keep_mask i)) (imm_word i v))) as Hr.
  { apply in_u_lor; [by apply in_u_land|done]. }
  destruct i; try done; unfold word_bits in *; cbn [insn_bytes read_value read_single] in *;
    rewrite ?u32_from_le_bytes, ?u16_from_le_bytes by done;
    unfold mbind, res_bind; cbn [imm_width imm_mask keep_mask imm_word] in *;
    match goal with
    | |- Ok (signed_result ?x ?k) = Ok (wrap 64 (signed ?n ?y), _) =>
        replace x with y;
        [ change k with (32 - n); rewrite signed_result_spec by (lia || in_range); done | ]
    end;
    clear Hr Hm;
    unfold field, cfield, stype_imm, btype_imm, jtype_imm, cbtype_imm, cjtype_imm,
      itype_mask, stype_mask, btype_mask, jtype_mask, cbtype_mask, cjtype_mask;
    unfold field, cfield; unfold_masks; extract_simp; bits.
Qed.

(** The B, J, I, S, CB and CJ immediates round trip: after
    [write_to_value], whatever was in the buffer, [read_value] returns the low
    immediate bits of the value sign-extended from the immediate's top bit, and
    its sign. *)
Theorem riscv_read_value_write_to_value i v negative dest dest' :
  plain_imm i = true -> in_u 64 v -> bytes_ok dest -> (insn_bytes i <= length dest)%nat ->
  write_to_value i v negative dest = Ok dest' ->
  read_value i dest' =
    Ok (let x := signed (imm_width i) (Z.land v (imm_mask i)) in (wrap 64 x, x <? 0)).
Proof.
  intros Hi Hv Hok Hlen. destruct (word_prefix (insn_bytes i) dest Hok Hlen) as [Hw Hd].
  rewrite Hd at 1. rewrite riscv_write_to_value_word by done. intros [= <-].
  by apply read_single_word.
Qed.

Lemma riscv_read_value_write_to_value_witness :
  read_value RV.BType [0xe3; 0x0f; 0x00; 0xfe] = Ok (2 ^ 64 - 2, true).
Proof.
  apply (riscv_read_value_write_to_value RV.BType (2 ^ 64 - 2) true [0x63; 0; 0; 0]);
    try reflexivity.
  - split; vm_compute; congruence.
  - repeat constructor; vm_compute; congruence.
Defined.

(** What the hardware adds up for an [auipc]/[jalr] (or [lui]/[addi]) pair:
    the U immediate shifted to the top, plus the sign-extended I immediate. *)
Definition pair_value (word : Z) : Z :=
  wrap 32 (Z.land word 0xFFFFF000 + signed 12 (Z.shiftr word 52)).

Lemma hi_lo_arith v :
  0 <= v ->
  wrap 32 (Z.shiftl (Z.land (Z.shiftr (wadd 64 v 0x800) 12) (Z.ones 20)) 12 +
           signed 12 (Z.land v 0xfff)) = wrap 32 v.
Proof.
  intros Hv. rewrite Z.land_ones, Z.shiftl_mul_pow2, Z.shiftr_div_pow2 by lia.
  change 0xfff with (Z.ones 12). rewrite Z.land_ones by lia.
  unfold signed, wadd, wrap. rewrite Z.mod_mod by lia.
  case_match; Z.to_euclidean_division_equations; lia.
Qed.

(** The HI20/LO12 split is correct: writing a value through [UiType] leaves
    an instruction pair whose two immediates add up to the value modulo 2^32,
    the 0x800 rounding of the high part compensating the sign of the low part. *)
Theorem uitype_adds_up v negative dest :
  in_u 64 v -> bytes_ok dest -> (8 <= length dest)%nat ->
  exists w', write_to_value RV.UiType v negative dest = Ok (le_bytes 8 w' ++ drop 8 dest) /\
             pair_value w' = wrap 32 v.
Proof.
  intros Hv Hok Hlen. destruct (word_prefix 8 dest Hok Hlen) as [Hw Hd].
  eexists. split; [rewrite Hd at 1; by apply (riscv_write_to_value_word RV.UiType)|].
  change (8 * Z.of_nat 8) with 64 in Hw. set (w := le_val (take 8 dest)) in *.
  cbn [keep_mask imm_word]. unfold pair_value, utype_mask, itype_mask. unfold_masks. extract_simp.
  rewrite <- (hi_lo_arith v) by apply Hv. do 2 f_equal; [|f_equal]; bits.
Qed.

Lemma uitype_adds_up_witness :
  exists w', write_to_value RV.UiType (2 ^ 64 - 10) true [0x97; 0; 0; 0; 0xe7; 0x80; 0; 0] =
               Ok (le_bytes 8 w' ++ []) /\ pair_value w' = 2 ^ 32 - 10.
Proof.
  apply (uitype_adds_up (2 ^ 64 - 10) true [0x97; 0; 0; 0; 0xe7; 0x80; 0; 0]).
  - split; vm_compute; congruence.
  - repeat constructor; vm_compute; congruence.
  - vm_compute; lia.
Defined.

(** [hi20_fits_clui] accepts exactly the values whose rounded-up high part,
    read as an unsigned 52-bit number, is in [1, 31]; the negative half
    [-32, -1] of the documented range is never accepted. *)
Theorem hi20_fits_clui_iff value :
  in_u 64 value ->
  hi20_fits_clui value = true <-> 1 <= wadd 64 value 0x800 / 4096 <= 31.
Proof.
  intros Hv. unfold hi20_fits_clui. pose proof (wrap_range 64 (value + 0x800) ltac:(lia)) as Hw.
  fold (wadd 64 value 0x800) in Hw. unfold wshr. change (12 mod 64) with 12.
  rewrite !Z.shiftr_div_pow2 by lia. change (2 ^ 12) with 4096.
  set (h := wadd 64 value 0x800 / 4096).
  assert (0 <= h < 2 ^ 52) as Hh.
  { unfold in_u in Hw. subst h. split; [apply Z.div_pos|apply Z.div_lt_upper_bound]; lia. }
  rewrite (signed_of_signed 64 h) by (unfold in_i; lia).
  rewrite andb_true_iff, negb_true_iff, Z.eqb_eq, Z.eqb_neq.
  clearbody h. clear Hw Hv value. split.
  - intros [H Hne].
    pose proof (signed_range 8 (Z.shiftl (signed 8 h) 2) ltac:(lia)) as [Hl Hu].
    change (8 - 1) with 7 in *.
    Z.to_euclidean_division_equations; lia.
  - intros H. assert (h ∈ seqZ 1 31) as Hin by (apply elem_of_seqZ; lia).
    apply list_elem_of_In in Hin.
    vm_compute in Hin. clear H Hh.
    repeat (destruct Hin as [<-|Hin]; [vm_compute; split; congruence|]). done.
Qed.

Lemma hi20_fits_clui_iff_witness :
  in_u 64 (2 ^ 64 - 4096) /\ hi20_fits_clui (2 ^ 64 - 4096) = false.
Proof.
  assert (in_u 64 (2 ^ 64 - 4096)) as H by (split; vm_compute; congruence).
  split; [exact H|].
  destruct (hi20_fits_clui (2 ^ 64 - 4096)) eqn:E; [|reflexivity].
  apply (hi20_fits_clui_iff (2 ^ 64 - 4096) H) in E. vm_compute in E.
  destruct E as [_ E]. exfalso. apply E. reflexivity.
Defined.

(** [read_value] does not invert the U form: 0x12345000 comes back as
    0x12345 - 0x800. *)
Lemma utype_read_back_differs :
  write_to_value RV.UType 0x12345000 false [0x37; 0; 0; 0] = Ok [0x37; 0x50; 0x34; 0x12] /\
  read_value RV.UType [0x37; 0x50; 0x34; 0x12] = Ok (0x12345 - 0x800, false).
Proof. split; vm_compute; reflexivity. Qed.

(** The RISC-V relocation table is total and well formed: it never panics,
    byte sizes are at most 8, every bit range starts at bit 0 and is as wide as the
    instruction it patches, and every range-limited branch row admits exactly the
    even offsets its immediate can encode. *)
Theorem riscv_relocation_table_well_formed r_type :
  exists o, relocation_type_from_raw r_type = Ok o /\
    match o with
    | Some info =>
        size_checks (rki_size info) = true /\ rki_bias info = 0 /\
        match rki_size info with
        | RelSize.BitMasking (mkBitMask (RelInsn.RiscV i) _) =>
            if branch_form i then
              rki_alignment info = 2 /\
              rki_range info = mkAllowedRange (- 2 ^ (imm_width i - 1)) (2 ^ (imm_width i - 1) - 1)
            else rki_alignment info = 1
        | _ => rki_alignment info = 1
        end
    | None => True
    end.
Proof. destruct r_type; eexists; split; try reflexivity; cbn; repeat split. Qed.
