(* ===== verification/LoongArch64.v ===== *)
(** LoongArch relocations: [linker-utils/src/loongarch64.rs]. *)
From Stdlib Require Import ZArith Lia.
From stdpp Require Import base list list_numbers numbers strings option.
From S2P Require Import Prelude Bits BitMisc Elf Relaxation.

Local Open Scope Z_scope.

(** ** Relaxations *)
Module Relax.
Inductive RelaxationKind := NoOp | ReplaceWithNop.
End Relax.

Definition apply_bytes (kind : Relax.RelaxationKind) (bytes : list Z) (offset : Z) : res (list Z) :=
  match kind with
  | Relax.NoOp => Ok bytes
  | Relax.ReplaceWithNop => copy_at bytes offset [0x03; 0x40; 0x0; 0x0]
  end.

Definition apply (kind : Relax.RelaxationKind) (s : ApplyArgs) : res ApplyArgs :=
  with_bytes s (apply_bytes kind (section_bytes s) (offset_in_section s)).

Definition next_modifier (kind : Relax.RelaxationKind) : RelocationModifier := Normal.

(** ** The relocation table *)
Definition relocation_arms_1 (r_type : R_LARCH) : option RelocEntry :=
  match r_type with
  | R_LARCH_NONE => Some (entry RelKind.None (RelSize.ByteSize 0) None (Ok no_check) 1 0)
  | R_LARCH_32 =>
      Some (entry RelKind.Absolute (RelSize.ByteSize 4) None (Ok (mkAllowedRange (- 2 ^ 31) (2 ^ 32))) 1 0)
  | R_LARCH_64 => Some (entry RelKind.Absolute (RelSize.ByteSize 8) None (Ok no_check) 1 0)
  | R_LARCH_ADD6 =>
      Some (entry RelKind.AbsoluteAdditionWord6 (RelSize.ByteSize 1) None (Ok no_check) 1 0)
  | R_LARCH_ADD8 =>
      Some (entry RelKind.AbsoluteAddition (RelSize.ByteSize 1) None (Ok no_check) 1 0)
  | R_LARCH_ADD16 =>
      Some (entry RelKind.AbsoluteAddition (RelSize.ByteSize 2) None (Ok no_check) 1 0)
  | R_LARCH_ADD24 =>
      Some (entry RelKind.AbsoluteAddition (RelSize.ByteSize 3) None (Ok no_check) 1 0)
  | R_LARCH_ADD32 =>
      Some (entry RelKind.AbsoluteAddition (RelSize.ByteSize 4) None (Ok no_check) 1 0)
  | R_LARCH_ADD64 =>
      Some (entry RelKind.AbsoluteAddition (RelSize.ByteSize 8) None (Ok no_check) 1 0)
  | R_LARCH_SUB6 =>
      Some (entry RelKind.AbsoluteSubtractionWord6 (RelSize.ByteSize 1) None (Ok no_check) 1 0)
  | R_LARCH_SUB8 =>
      Some (entry RelKind.AbsoluteSubtraction (RelSize.ByteSize 1) None (Ok no_check) 1 0)
  | R_LARCH_SUB16 =>
      Some (entry RelKind.AbsoluteSubtraction (RelSize.ByteSize 2) None (Ok no_check) 1 0)
  | R_LARCH_SUB24 =>
      Some (entry RelKind.AbsoluteSubtraction (RelSize.ByteSize 3) None (Ok no_check) 1 0)
  | R_LARCH_SUB32 =>
      Some (entry RelKind.AbsoluteSubtraction (RelSize.ByteSize 4) None (Ok no_check) 1 0)
  | R_LARCH_SUB64 =>
      Some (entry RelKind.AbsoluteSubtraction (RelSize.ByteSize 8) None (Ok no_check) 1 0)
  | R_LARCH_ADD_ULEB128 =>
      Some (entry RelKind.Relative (RelSize.ByteSize 0) None (Ok no_check) 1 0)
  | R_LARCH_SUB_ULEB128 =>
      Some (entry (RelKind.PairSubtractionULEB128 (RT_LARCH R_LARCH_ADD_ULEB128)) (RelSize.ByteSize 8) None (Ok no_check) 1 0)
  | _ => None
  end.

Definition relocation_arms_2 (r_type : R_LARCH) : option RelocEntry :=
  match r_type with
  | R_LARCH_ABS_HI20 =>
      Some (entry RelKind.Absolute (bit_mask_loongarch64 12 32 LA.Shift5) None (Ok no_check) 1 0)
  | R_LARCH_ABS_LO12 =>
      Some (entry RelKind.Absolute (bit_mask_loongarch64 0 12 LA.Shift10) None (Ok no_check) 1 0)
  | R_LARCH_ABS64_HI12 =>
      Some (entry RelKind.Absolute (bit_mask_loongarch64 52 64 LA.Shift10) None (Ok no_check) 1 0)
  | R_LARCH_ABS64_LO20 =>
      Some (entry RelKind.Absolute (bit_mask_loongarch64 32 52 LA.Shift5) None (Ok no_check) 1 0)
  | R_LARCH_PCALA_HI20 =>
      Some (entry RelKind.Relative (bit_mask_loongarch64 12 32 LA.Shift5) (Some (PageMask.SymbolPlusAddendAndPosition PAGE_MASK_4KB)) (Ok no_check) 1 SIZE_2KB)
  | R_LARCH_PCALA_LO12 =>
      Some (entry RelKind.AbsoluteLowPart (bit_mask_loongarch64 0 12 LA.Shift10) None (Ok no_check) 1 0)
  | R_LARCH_PCALA64_HI12 =>
      Some (entry RelKind.RelativeLoongArchHigh (bit_mask_loongarch64 52 64 LA.Shift10) None (Ok no_check) 1 0)
  | R_LARCH_PCALA64_LO20 =>
      Some (entry RelKind.RelativeLoongArchHigh (bit_mask_loongarch64 32 52 LA.Shift5) None (Ok no_check) 1 0)
  | R_LARCH_32_PCREL =>
      Some (entry RelKind.Relative (RelSize.ByteSize 4) None (from_bit_size 32 Signed) 1 0)
  | R_LARCH_PCREL20_S2 =>
      Some (entry RelKind.Relative (bit_mask_loongarch64 2 22 LA.Shift5) None (from_bit_size 22 Signed) 4 0)
  | R_LARCH_64_PCREL =>
      Some (entry RelKind.Relative (RelSize.ByteSize 8) None (Ok no_check) 1 0)
  | R_LARCH_PCADD_HI20 =>
      Some (entry RelKind.Relative (bit_mask_loongarch64 12 32 LA.Shift5) None (Ok no_check) 1 SIZE_2KB)
  | R_LARCH_GOT_PC_HI20 =>
      Some (entry RelKind.GotRelative (bit_mask_loongarch64 12 32 LA.Shift5) (Some (PageMask.GotEntryAndPosition PAGE_MASK_4KB)) (Ok no_check) 1 SIZE_2KB)
  | R_LARCH_GOT_PC_LO12 =>
      Some (entry RelKind.Got (bit_mask_loongarch64 0 12 LA.Shift10) None (Ok no_check) 1 0)
  | R_LARCH_GOT64_PC_HI12 =>
      Some (entry RelKind.GotRelativeLoongArch64 (bit_mask_loongarch64 52 64 LA.Shift10) None (Ok no_check) 1 0)
  | R_LARCH_GOT64_PC_LO20 =>
      Some (entry RelKind.GotRelativeLoongArch64 (bit_mask_loongarch64 32 52 LA.Shift5) None (Ok no_check) 1 0)
  | R_LARCH_B16 =>
      Some (entry RelKind.Relative (bit_mask_loongarch64 2 18 LA.Shift10) None (from_bit_size 18 Signed) 4 0)
  | _ => None
  end.

Definition relocation_arms_3 (r_type : R_LARCH) : option RelocEntry :=
  match r_type with
  | R_LARCH_B21 =>
      Some (entry RelKind.Relative (bit_mask_loongarch64 2 23 LA.Branch21) None (from_bit_size 23 Signed) 4 0)
  | R_LARCH_B26 =>
      Some (entry RelKind.PltRelative (bit_mask_loongarch64 2 28 LA.Branch26) None (from_bit_size 28 Signed) 4 0)
  | R_LARCH_CALL36 =>
      Some (entry RelKind.PltRelative (bit_mask_loongarch64 2 38 LA.Call36) None (from_bit_size 38 Signed) 4 0)
  | R_LARCH_CALL30 =>
      Some (entry RelKind.Relative (bit_mask_loongarch64 2 19 LA.Call30) None (Ok no_check) 1 0)
  | R_LARCH_TLS_LE_HI20 =>
      Some (entry RelKind.TpOff (bit_mask_loongarch64 12 32 LA.Shift5) None (Ok no_check) 1 0)
  | R_LARCH_TLS_LE_LO12 =>
      Some (entry RelKind.TpOff (bit_mask_loongarch64 0 12 LA.Shift10) None (Ok no_check) 1 0)
  | R_LARCH_TLS_LE64_LO20 =>
      Some (entry RelKind.TpOff (bit_mask_loongarch64 32 52 LA.Shift5) None (Ok no_check) 1 0)
  | R_LARCH_TLS_LE64_HI12 =>
      Some (entry RelKind.TpOff (bit_mask_loongarch64 52 64 LA.Shift10) None (Ok no_check) 1 0)
  | R_LARCH_TLS_LE_HI20_R =>
      Some (entry RelKind.TpOff (bit_mask_loongarch64 12 32 LA.Shift5) None (Ok no_check) 1 SIZE_2KB)
  | R_LARCH_TLS_LE_LO12_R =>
      Some (entry RelKind.TpOff (bit_mask_loongarch64 0 12 LA.Shift10) None (Ok no_check) 1 0)
  | R_LARCH_TLS_IE_PC_HI20 =>
      Some (entry RelKind.GotTpOff (bit_mask_loongarch64 12 32 LA.Shift5) (Some (PageMask.GotEntryAndPosition PAGE_MASK_4KB)) (Ok no_check) 1 SIZE_2KB)
  | R_LARCH_TLS_IE_PC_LO12 =>
      Some (entry RelKind.GotTpOffGot (bit_mask_loongarch64 0 12 LA.Shift10) None (Ok no_check) 1 0)
  | R_LARCH_TLS_IE64_PC_LO20 =>
      Some (entry RelKind.GotTpOffLoongArch64 (bit_mask_loongarch64 32 52 LA.Shift5) None (Ok no_check) 1 0)
  | R_LARCH_TLS_IE64_PC_HI12 =>
      Some (entry RelKind.GotTpOffLoongArch64 (bit_mask_loongarch64 52 64 LA.Shift10) None (Ok no_check) 1 0)
  | R_LARCH_TLS_IE_HI20 =>
      Some (entry RelKind.GotTpOffGot (bit_mask_loongarch64 12 32 LA.Shift5) None (Ok no_check) 1 0)
  | R_LARCH_TLS_IE_LO12 =>
      Some (entry RelKind.GotTpOffGot (bit_mask_loongarch64 0 12 LA.Shift10) None (Ok no_check) 1 0)
  | R_LARCH_TLS_IE64_HI12 =>
      Some (entry RelKind.GotTpOffGot (bit_mask_loongarch64 52 64 LA.Shift10) None (Ok no_check) 1 0)
  | _ => None
  end.

Definition relocation_arms_4 (r_type : R_LARCH) : option RelocEntry :=
  match r_type with
  | R_LARCH_TLS_IE64_LO20 =>
      Some (entry RelKind.GotTpOffGot (bit_mask_loongarch64 32 52 LA.Shift5) None (Ok no_check) 1 0)
  | R_LARCH_TLS_LD_PC_HI20 =>
      Some (entry RelKind.TlsGd (bit_mask_loongarch64 12 32 LA.Shift5) (Some (PageMask.GotEntryAndPosition PAGE_MASK_4KB)) (Ok no_check) 1 SIZE_2KB)
  | R_LARCH_TLS_LD_HI20 =>
      Some (entry RelKind.TlsGdGot (bit_mask_loongarch64 12 32 LA.Shift5) None (Ok no_check) 1 0)
  | R_LARCH_TLS_GD_PC_HI20 =>
      Some (entry RelKind.TlsGd (bit_mask_loongarch64 12 32 LA.Shift5) (Some (PageMask.GotEntryAndPosition PAGE_MASK_4KB)) (Ok no_check) 1 SIZE_2KB)
  | R_LARCH_TLS_GD_HI20 =>
      Some (entry RelKind.TlsGdGot (bit_mask_loongarch64 12 32 LA.Shift5) None (Ok no_check) 1 0)
  | R_LARCH_TLS_DESC_PC_HI20 =>
      Some (entry RelKind.TlsDesc (bit_mask_loongarch64 12 32 LA.Shift5) (Some (PageMask.GotEntryAndPosition PAGE_MASK_4KB)) (Ok no_check) 1 SIZE_2KB)
  | R_LARCH_TLS_DESC_PC_LO12 =>
      Some (entry RelKind.TlsDescGot (bit_mask_loongarch64 0 12 LA.Shift10) None (Ok no_check) 1 0)
  | R_LARCH_TLS_DESC64_PC_HI12 =>
      Some (entry RelKind.TlsDescLoongArch64 (bit_mask_loongarch64 52 64 LA.Shift10) None (Ok no_check) 1 0)
  | R_LARCH_TLS_DESC64_PC_LO20 =>
      Some (entry RelKind.TlsDescLoongArch64 (bit_mask_loongarch64 32 52 LA.Shift5) None (Ok no_check) 1 0)
  | R_LARCH_TLS_DESC_LD => Some (entry RelKind.None (RelSize.ByteSize 0) None (Ok no_check) 1 0)
  | R_LARCH_TLS_DESC_CALL =>
      Some (entry RelKind.TlsDescCall (RelSize.ByteSize 0) None (Ok no_check) 1 0)
  | R_LARCH_TLS_DTPREL32 =>
      Some (entry RelKind.DtpOff (RelSize.ByteSize 4) None (Ok no_check) 1 0)
  | R_LARCH_TLS_DTPREL64 =>
      Some (entry RelKind.DtpOff (RelSize.ByteSize 8) None (Ok no_check) 1 0)
  | R_LARCH_TLS_LD_PCREL20_S2 | R_LARCH_TLS_GD_PCREL20_S2 | R_LARCH_TLS_DESC_PCREL20_S2 => None
  | R_LARCH_RELAX | R_LARCH_TLS_LE_ADD_R =>
      Some (entry RelKind.None (RelSize.ByteSize 0) None (Ok no_check) 1 0)
  | R_LARCH_ALIGN => Some (entry RelKind.None (RelSize.ByteSize 0) None (Ok no_check) 1 0)
  | _ => None
  end.

Definition relocation_type_from_raw (r_type : R_LARCH) : res (option RelocationKindInfo) :=
  finish_entry false (first_arm [relocation_arms_1; relocation_arms_2; relocation_arms_3; relocation_arms_4] r_type).

(** ** Instruction fields *)
Definition CALL30_CLEAR : Z := Z.lor (wshl 64 0xFFF803FF 32) 0xFE00001F.
Definition CALL36_CLEAR : Z := Z.lor (wshl 64 0xFC0003FF 32) 0xFE00001F.

(** The low 16 bits of a branch offset above the high part. *)
Definition branch_mask (v : Z) : Z :=
  let low_part := wshl 64 (Z.land v 0xffff) 10 in
  let high_part := wshr 64 v 16 in
  Z.lor low_part high_part.

Definition call30_mask (v : Z) : Z :=
  let low_part := wshl 64 (Z.land v 0x1ff) (32 + 10) in
  let high_part := wshl 64 (Z.land v (wnot 64 0x1ff)) 5 in
  Z.lor low_part high_part.

Definition call36_mask (v : Z) : Z :=
  let low_part := wshl 64 (Z.land v 0xffff) (32 + 10) in
  let high_part := wshl 64 (wshr 64 (wadd 64 v 0x8000) 16) 5 in
  Z.lor low_part high_part.

Definition write_to_value (self : LoongArch64Instruction) (extracted_value : Z) (negative : bool)
    (dest : list Z) : res (list Z) :=
  match self with
  | LA.Shift5 => clear_and_or 4 dest 0xFE00001F (wrap 32 (wshl 64 extracted_value 5))
  | LA.Shift10 => clear_and_or 4 dest 0xFFC003FF (wrap 32 (wshl 64 extracted_value 10))
  | LA.Branch26 => clear_and_or 4 dest 0xFC000000 (wrap 32 (branch_mask extracted_value))
  | LA.Branch21 => clear_and_or 4 dest 0xFC0003E0 (wrap 32 (branch_mask extracted_value))
  | LA.Call30 => clear_and_or 8 dest CALL30_CLEAR (call30_mask extracted_value)
  | LA.Call36 => clear_and_or 8 dest CALL36_CLEAR (call36_mask extracted_value)
  end.

Definition field (value shift mask : Z) : Z := Z.land (wshr 32 value shift) mask.

(** The branch offset, [high_mask] selecting its high part. *)
Definition branch_imm (value high_mask : Z) : Z :=
  let low_part := field value 10 0xffff in
  let high_part := Z.land value high_mask in
  Z.lor (wshl 32 high_part 16) low_part.

Definition read_value (self : LoongArch64Instruction) (bytes : list Z) : res (Z * bool) :=
  match self with
  | LA.Shift5 => value ← u32_from_slice bytes; Ok (field value 5 0xfffff, false)
  | LA.Shift10 => value ← u32_from_slice bytes; Ok (field value 10 0xfff, false)
  | LA.Branch26 => value ← u32_from_slice bytes; Ok (signed_result (branch_imm value 0x3ff) 6)
  | LA.Branch21 => value ← u32_from_slice bytes; Ok (signed_result (branch_imm value 0x1f) 11)
  | LA.Call30 =>
      value ← u64_from_slice bytes;
      let insn1 := wrap 32 (wshr 64 value 32) in
      let insn2 := wrap 32 value in
      let high_part := wshl 32 (field insn1 5 0x7ffff) 9 in
      let low_part := field insn2 10 0x1ff in
      Ok (Z.lor high_part low_part, false)
  | LA.Call36 =>
      value ← u64_from_slice bytes;
      let insn1 := wrap 32 value in
      let insn2 := wrap 32 (wshr 64 value 32) in
      let high_part := field insn1 5 0xfffff in
      let low_part := field insn2 10 0xffff in
      let imm := Z.lor (Z.land (wsub 64 (wshl 64 high_part 16) 0x8000) 0xffffffff) low_part in
      Ok (imm, false)
  end.

Definition highest_relocation_with_bias (symbol_with_addend pc : Z) : Z :=
  wsub 64
    (Z.land
       (wadd 64 (wadd 64 symbol_with_addend SIZE_2GB)
          (if negb (Z.land symbol_with_addend SIZE_2KB =? 0) then wsub 64 SIZE_4KB SIZE_4GB else 0))
       (wnot 64 PAGE_MASK_4KB))
    (Z.land (wsub 64 pc 8) (wnot 64 PAGE_MASK_4KB)).

(** ** Specification *)

(** Bytes patched, bits of the value a form has room for, and bits kept. *)
Definition insn_bytes (i : LoongArch64Instruction) : nat :=
  match i with LA.Call30 | LA.Call36 => 8 | _ => 4 end.

Definition value_width (i : LoongArch64Instruction) : Z :=
  match i with
  | LA.Shift5 => 20
  | LA.Shift10 => 12
  | LA.Branch26 => 26
  | LA.Branch21 => 21
  | LA.Call30 => 20
  | LA.Call36 => 36
  end.

Definition keep_mask (i : LoongArch64Instruction) : Z :=
  match i with
  | LA.Shift5 => 0xFE00001F
  | LA.Shift10 => 0xFFC003FF
  | LA.Branch26 => 0xFC000000
  | LA.Branch21 => 0xFC0003E0
  | LA.Call30 => CALL30_CLEAR
  | LA.Call36 => CALL36_CLEAR
  end.

Definition imm_word (i : LoongArch64Instruction) (v : Z) : Z :=
  match i with
  | LA.Shift5 => wrap 32 (wshl 64 v 5)
  | LA.Shift10 => wrap 32 (wshl 64 v 10)
  | LA.Branch26 | LA.Branch21 => wrap 32 (branch_mask v)
  | LA.Call30 => call30_mask v
  | LA.Call36 => call36_mask v
  end.

Definition word_bits (i : LoongArch64Instruction) : Z := 8 * Z.of_nat (insn_bytes i).

(** The rounding of [Call36]'s high part carries out of its 20 bits for the
    offsets just below zero; the carry lands on bit 25, which every
    [pcaddu18i] has set. *)
Definition carry_ok (i : LoongArch64Instruction) (v w : Z) : bool :=
  match i with LA.Call36 => (v + 0x8000 <? 2 ^ 36) || Z.testbit w 25 | _ => true end.

(** How much wider than its form's immediate a row's bit range is. *)
Definition odd_width (r_type : R_LARCH) : Z :=
  match r_type with R_LARCH_B16 => 4 | R_LARCH_CALL30 => -3 | _ => 0 end.

Definition size_checks (size : RelocationSize) (odd : Z) : bool :=
  match size with
  | RelSize.ByteSize n => (0 <=? n) && (n <=? 8) && (odd =? 0)
  | RelSize.BitMasking bm =>
      (0 <=? br_start (bm_range bm)) && (br_end (bm_range bm) <=? 64) &&
      match bm_instruction bm with
      | RelInsn.LoongArch64 i =>
          br_end (bm_range bm) - br_start (bm_range bm) =? value_width i + odd
      | _ => false
      end
  end.

(** A range-limited row checks the signed values of as many bits as its bit
    range ends at, and the alignment of the bits below its start. *)
Definition range_checks (info : RelocationKindInfo) : bool :=
  let r := rki_range info in
  match rki_size info with
  | RelSize.BitMasking bm =>
      let w := br_end (bm_range bm) in
      if bool_decide (r = no_check) then rki_alignment info =? 1
      else bool_decide (r = mkAllowedRange (- 2 ^ (w - 1)) (2 ^ (w - 1))) &&
           (rki_alignment info =? 2 ^ br_start (bm_range bm))
  | RelSize.ByteSize _ => rki_alignment info =? 1
  end.

(** The rows whose value is rounded up by half of the 4KB page. *)
Definition rounds (r_type : R_LARCH) (mask : option PageMask) : bool :=
  match mask, r_type with
  | Some _, _ => true
  | None, (R_LARCH_PCADD_HI20 | R_LARCH_TLS_LE_HI20_R) => true
  | None, _ => false
  end.

(** What [read_value] is expected to return. *)
Definition read_back (i : LoongArch64Instruction) (v : Z) : Z * bool :=
  match i with
  | LA.Branch26 | LA.Branch21 =>
      let x := signed (value_width i) v in (wrap 64 x, x <? 0)
  | _ => (v, false)
  end.

(** What [pcaddu18i]/[jirl] add to the program counter. *)
Definition call36_offset (word : Z) : Z :=
  signed 20 (Z.land (Z.shiftr word 5) 0xfffff) * 2 ^ 18 +
  signed 16 (Z.land (Z.shiftr word 42) 0xffff) * 2 ^ 2.

Lemma loongarch_write_to_value_word i v negative w rest :
  write_to_value i v negative (le_bytes (insn_bytes i) w ++ rest) =
    Ok (le_bytes (insn_bytes i) (Z.lor (Z.land w (keep_mask i)) (imm_word i v)) ++ rest).
Proof. destruct i; apply clear_and_or_word. Qed.

Ltac unfold_clear := unfold CALL30_CLEAR, CALL36_CLEAR in *.

(** The rounded high part of [Call36]. *)
Lemma call36_high v :
  in_u 36 v ->
  let h := wshr 64 (wadd 64 v 0x8000) 16 in
  if v + 0x8000 <? 2 ^ 36 then in_u 20 h else h = 2 ^ 20.
Proof.
  intros [Hl Hu] h. subst h. unfold wshr, wadd. change (16 mod 64) with 16.
  rewrite wrap_small by (unfold in_u; lia). rewrite Z.shiftr_div_pow2 by lia.
  case_match eqn:E; [apply Z.ltb_lt in E|apply Z.ltb_ge in E]; unfold in_u;
    Z.to_euclidean_division_equations; lia.
Qed.

Lemma imm_word_frame i v w :
  in_u (value_width i) v -> in_u (word_bits i) w -> carry_ok i v w = true ->
  Z.land (Z.lor (Z.land w (keep_mask i)) (imm_word i v)) (keep_mask i) =
  Z.land w (keep_mask i).
Proof.
  intros Hv Hw Hc. pose proof (call36_high v) as Hh.
  destruct i; cbn [value_width imm_word keep_mask carry_ok] in *;
    unfold word_bits in Hw; cbn [insn_bytes] in Hw;
    change (8 * Z.of_nat 8) with 64 in *; change (8 * Z.of_nat 4) with 32 in *;
    unfold branch_mask, call30_mask; unfold_clear; try solve [clear Hh Hc; bits].
  specialize (Hh Hv). cbv zeta in Hh. unfold call36_mask.
  set (h := wshr 64 (wadd 64 v 0x8000) 16) in *. clearbody h.
  destruct (v + 0x8000 <? 2 ^ 36); [clear Hc; bits|]. subst h. cbn [orb] in Hc.
  assert (w = Z.lor w (2 ^ 25)) as ->; [|clear Hc; bits].
  apply Z.bits_inj'; intros k Hk. rewrite Z.lor_spec, testbit_pow2 by lia.
  case_bool_decide; [subst; by rewrite Hc | by rewrite orb_false_r].
Qed.

Lemma loongarch_read_write_word i v w rest :
  i <> LA.Call30 -> i <> LA.Call36 -> in_u (value_width i) v -> in_u 32 w ->
  read_value i (le_bytes 4 (Z.lor (Z.land w (keep_mask i)) (imm_word i v)) ++ rest) =
    Ok (read_back i v).
Proof.
  intros H30 H36 Hv Hw.
  assert (in_u 32 (Z.lor (Z.land w (keep_mask i)) (imm_word i v))) as Hr.
  { destruct i; try done; cbn [imm_word]; in_range. }
  destruct i; try done; cbn [read_value]; rewrite u32_from_le_bytes by done;
    unfold mbind, res_bind; cbn [value_width imm_word keep_mask read_back] in *; clear Hr.
  1,2: do 2 f_equal; unfold field; bits.
  1,2: match goal with
    | |- Ok (signed_result ?x ?k) = Ok (wrap 64 (signed ?n ?v), _) =>
        replace x with v;
        [ change k with (32 - n); rewrite signed_result_spec by (lia || in_range); done
        | unfold branch_imm, field, branch_mask; bits ]
    end.
Qed.

Lemma carry_free i v w : i <> LA.Call36 -> carry_ok i v w = true.
Proof. by destruct i. Qed.

(** ** Theorems *)

(** [write_to_value] succeeds on a buffer that holds the instruction, leaves
    the bytes after it alone and, for a value that fits the form, keeps every bit
    outside the immediate.  [Call36] needs its rounded high part to stay in 20
    bits or bit 25 of the word to be set, as it is in [pcaddu18i]. *)
Theorem loongarch_write_to_value_frame i v negative dest :
  in_u (value_width i) v -> bytes_ok dest -> (insn_bytes i <= length dest)%nat ->
  carry_ok i v (le_val (take (insn_bytes i) dest)) = true ->
  exists w',
    write_to_value i v negative dest = Ok (le_bytes (insn_bytes i) w' ++ drop (insn_bytes i) dest) /\
    Z.land w' (keep_mask i) = Z.land (le_val (take (insn_bytes i) dest)) (keep_mask i).
Proof.
  intros Hv Hok Hlen Hc. destruct (word_prefix (insn_bytes i) dest Hok Hlen) as [Hw Hd].
  eexists. split; [rewrite Hd at 1; apply loongarch_write_to_value_word|].
  by apply imm_word_frame.
Qed.

Lemma loongarch_write_to_value_frame_witness :
  exists w',
    write_to_value LA.Call36 (2 ^ 36 - 1) true [0x1; 0; 0; 0x1e; 0x21; 0; 0; 0x4c] =
      Ok (le_bytes 8 w' ++ []) /\
    Z.land w' CALL36_CLEAR = 0x4c0000211e000001.
Proof.
  apply (loongarch_write_to_value_frame LA.Call36 (2 ^ 36 - 1) true
           [0x1; 0; 0; 0x1e; 0x21; 0; 0; 0x4c]).
  - split; vm_compute; congruence.
  - repeat constructor; vm_compute; congruence.
  - vm_compute; lia.
  - reflexivity.
Defined.

(** [read_value] inverts [write_to_value] on the four single-instruction
    forms, whatever the buffer held: the address halves come back zero-extended,
    the branch offsets sign-extended from their top bit. *)
Theorem loongarch_read_value_write_to_value i v negative dest dest' :
  i <> LA.Call30 -> i <> LA.Call36 -> in_u (value_width i) v ->
  bytes_ok dest -> (4 <= length dest)%nat ->
  write_to_value i v negative dest = Ok dest' -> read_value i dest' = Ok (read_back i v).
Proof.
  intros H30 H36 Hv Hok Hlen.
  assert (insn_bytes i = 4%nat) as Hn by (by destruct i).
  destruct (word_prefix 4 dest Hok Hlen) as [Hw Hd].
  rewrite Hd at 1. pose proof (loongarch_write_to_value_word i v negative) as Hwv. rewrite Hn in Hwv.
  rewrite Hwv. intros [= <-]. by apply loongarch_read_write_word.
Qed.

Lemma loongarch_read_value_write_to_value_witness :
  read_value LA.Branch26 [0xff; 0xf3; 0xff; 0x53] = Ok (2 ^ 64 - 4, true).
Proof.
  apply (loongarch_read_value_write_to_value LA.Branch26 (2 ^ 26 - 4) true [0; 0; 0; 0x50]);
    try discriminate; try reflexivity.
  - split; vm_compute; congruence.
  - repeat constructor; vm_compute; congruence.
Defined.

Lemma call36_arith v h :
  in_u 36 v -> h = wshr 64 (wadd 64 v 0x8000) 16 ->
  wrap 38 (signed 20 (wrap 20 h) * 2 ^ 18 + signed 16 (wrap 16 v) * 2 ^ 2) =
  wrap 38 (v * 4).
Proof.
  intros [Hl Hu] ->. unfold wshr, wadd. change (16 mod 64) with 16.
  rewrite (wrap_small 64) by (unfold in_u; lia). rewrite Z.shiftr_div_pow2 by lia.
  unfold signed. rewrite !wrap_wrap by lia. unfold wrap.
  repeat case_match; Z.to_euclidean_division_equations; lia.
Qed.

(** The [pcaddu18i]/[jirl] pair written by [Call36] reaches its target: the
    two sign-extended immediates add up to the 4-byte-scaled offset modulo 2^38,
    the 0x8000 rounding of the high part compensating the sign of the low part. *)
Theorem call36_adds_up v negative dest :
  in_u 36 v -> bytes_ok dest -> (8 <= length dest)%nat ->
  exists w', write_to_value LA.Call36 v negative dest = Ok (le_bytes 8 w' ++ drop 8 dest) /\
             wrap 38 (call36_offset w') = wrap 38 (v * 4).
Proof.
  intros Hv Hok Hlen. destruct (word_prefix 8 dest Hok Hlen) as [Hw Hd].
  eexists. split; [rewrite Hd at 1; apply (loongarch_write_to_value_word LA.Call36)|].
  change (8 * Z.of_nat 8) with 64 in Hw. set (w := le_val (take 8 dest)) in *.
  cbn [keep_mask imm_word]. unfold call36_offset, call36_mask; unfold_clear.
  rewrite <- (call36_arith v _ Hv eq_refl).
  pose proof (call36_high v Hv) as Hh. cbv zeta in Hh.
  set (h := wshr 64 (wadd 64 v 0x8000) 16) in *.
  assert (in_u 21 h) as Hh'.
  { destruct (_ <? _) in Hh; [by eapply in_u_weaken|subst h; rewrite Hh; done]. }
  clearbody h. clear Hh. do 4 f_equal; bits.
Qed.

Lemma call36_adds_up_witness :
  exists w', write_to_value LA.Call36 (2 ^ 36 - 1) true [0x1; 0; 0; 0x1e; 0x21; 0; 0; 0x4c] =
               Ok (le_bytes 8 w' ++ []) /\
             wrap 38 (call36_offset w') = 2 ^ 38 - 4.
Proof.
  apply (call36_adds_up (2 ^ 36 - 1) true [0x1; 0; 0; 0x1e; 0x21; 0; 0; 0x4c]).
  - split; vm_compute; congruence.
  - repeat constructor; vm_compute; congruence.
  - vm_compute; lia.
Defined.

(** [read_value] does not invert the two call forms: [Call36] reads an offset of
    0 back as 0xffff8000, and [Call30] takes its two parts from swapped words. *)
Lemma call_read_back_differs :
  write_to_value LA.Call36 0 false [0; 0; 0; 0; 0; 0; 0; 0] = Ok [0; 0; 0; 0; 0; 0; 0; 0] /\
  read_value LA.Call36 [0; 0; 0; 0; 0; 0; 0; 0] = Ok (0xffff8000, false) /\
  write_to_value LA.Call30 1 false [0; 0; 0; 0; 0; 0; 0; 0] = Ok [0; 0; 0; 0; 0; 4; 0; 0] /\
  read_value LA.Call30 [0; 0; 0; 0; 0; 4; 0; 0] = Ok (2 ^ 14, false).
Proof. repeat split; vm_compute; reflexivity. Qed.

(** The LoongArch table is total and well formed.  No row panics; byte
    sizes are at most 8; every bit range is as wide as the immediate of the form it
    names, except [R_LARCH_B16] (16 bits in a 12-bit form) and [R_LARCH_CALL30]
    (17 bits in 20); a checked row admits exactly the signed values of its range's
    end, aligned to 4; and the 2KB rounding bias is on the HI20 rows whose LO12
    partner is sign-extended, and on no other row. *)
Theorem loongarch_relocation_table_well_formed r_type :
  exists o, relocation_type_from_raw r_type = Ok o /\
    match o with
    | Some info =>
        size_checks (rki_size info) (odd_width r_type) = true /\
        range_checks info = true /\
        rki_bias info = (if rounds r_type (rki_mask info) then SIZE_2KB else 0)
    | None => odd_width r_type = 0
    end.
Proof. destruct r_type; eexists; split; try reflexivity; cbn; repeat split. Qed.
