(* ===== verification/Ppc64.v ===== *)
(** PowerPC64 (ELFv2) relocations: [linker-utils/src/ppc64.rs]. *)
From Stdlib Require Import ZArith Lia.
From stdpp Require Import base list list_numbers numbers strings option.
From S2P Require Import Prelude Bits BitMisc Elf Relaxation.

Local Open Scope Z_scope.

(** ** Relaxations *)
Module Relax.
Inductive RelaxationKind := NoOp.
End Relax.

Definition apply (kind : Relax.RelaxationKind) (s : ApplyArgs) : res ApplyArgs :=
  match kind with Relax.NoOp => Ok s end.

Definition next_modifier (kind : Relax.RelaxationKind) : RelocationModifier := Normal.

(** ** The relocation table *)
Definition relocation_arms (r_type : R_PPC64) : option RelocEntry :=
  match r_type with
  | R_PPC64_ADDR64 => Some (entry RelKind.Absolute (RelSize.ByteSize 8) None (Ok no_check) 1 0)
  | R_PPC64_ADDR32 =>
      Some (entry RelKind.Absolute (RelSize.ByteSize 4) None (Ok (mkAllowedRange (- 2 ^ 31) (2 ^ 32))) 1 0)
  | R_PPC64_REL64 => Some (entry RelKind.Relative (RelSize.ByteSize 8) None (Ok no_check) 1 0)
  | R_PPC64_REL32 =>
      Some (entry RelKind.Relative (RelSize.ByteSize 4) None (from_bit_size 32 Signed) 1 0)
  | R_PPC64_REL24 =>
      Some (entry RelKind.Relative (bit_mask_ppc64 0 26 PPC.Branch24) None (from_bit_size 26 Signed) 4 0)
  | R_PPC64_REL14 =>
      Some (entry RelKind.Relative (bit_mask_ppc64 0 16 PPC.Branch14) None (from_bit_size 16 Signed) 4 0)
  | R_PPC64_REL16_HA =>
      Some (entry RelKind.Relative (bit_mask_ppc64 16 32 PPC.D) None (Ok no_check) 1 0x8000)
  | R_PPC64_REL16_LO =>
      Some (entry RelKind.Relative (bit_mask_ppc64 0 16 PPC.D) None (Ok no_check) 1 0)
  | R_PPC64_TOC16_HA =>
      Some (entry RelKind.SymRelGotBase (bit_mask_ppc64 16 32 PPC.D) None (Ok no_check) 1 0x8000)
  | R_PPC64_TOC16_LO =>
      Some (entry RelKind.SymRelGotBase (bit_mask_ppc64 0 16 PPC.D) None (Ok no_check) 1 0)
  | R_PPC64_TOC16_LO_DS =>
      Some (entry RelKind.SymRelGotBase (bit_mask_ppc64 0 16 PPC.Ds) None (Ok no_check) 4 0)
  | _ => None
  end.

Definition relocation_type_from_raw (r_type : R_PPC64) : res (option RelocationKindInfo) :=
  finish_entry false (relocation_arms r_type).

(** ** Instruction fields *)
Definition field_mask (self : Ppc64Instruction) : Z :=
  match self with
  | PPC.D => 0x0000ffff
  | PPC.Ds | PPC.Branch14 => 0x0000fffc
  | PPC.Branch24 => 0x03fffffc
  end.

(** [u32::from_le_bytes([bytes[0], bytes[1], bytes[2], bytes[3]])]. *)
Definition insn_at (bytes : list Z) : res Z :=
  b0 ← get_at bytes 0; b1 ← get_at bytes 1; b2 ← get_at bytes 2; b3 ← get_at bytes 3;
  Ok (le_val [b0; b1; b2; b3]).

Definition write_to_value (self : Ppc64Instruction) (extracted_value : Z) (negative : bool)
    (dest : list Z) : res (list Z) :=
  insn ← insn_at dest;
  let insn := Z.lor (Z.land insn (wnot 32 (field_mask self)))
                    (Z.land (wrap 32 extracted_value) (field_mask self)) in
  copy_at dest 0 (le_bytes 4 insn).

Definition read_value (self : Ppc64Instruction) (bytes : list Z) : res (Z * bool) :=
  insn ← insn_at bytes;
  Ok (Z.land insn (field_mask self), false).

(** ** Specification *)

(** The bits of the instruction word [write_to_value] leaves in place. *)
Definition new_insn (i : Ppc64Instruction) (v w : Z) : Z :=
  Z.lor (Z.land w (wnot 32 (field_mask i))) (Z.land (wrap 32 v) (field_mask i)).

(** The displacement an [@ha]/[@lo] pair adds to its base register. *)
Definition ha_lo_value (ha lo : Z) : Z :=
  signed 16 (Z.land ha 0xffff) * 2 ^ 16 + signed 16 (Z.land lo 0xffff).

Definition size_checks (info : RelocationKindInfo) : bool :=
  match rki_size info with
  | RelSize.ByteSize n => (n =? 4) || (n =? 8)
  | RelSize.BitMasking bm =>
      let s := br_start (bm_range bm) in
      let e := br_end (bm_range bm) in
      match bm_instruction bm with
      | RelInsn.Ppc64 PPC.D =>
          ((s =? 0) && (rki_bias info =? 0) || (s =? 16) && (rki_bias info =? 0x8000)) &&
          (e =? s + 16) && (rki_alignment info =? 1)
      | RelInsn.Ppc64 i =>
          (s =? 0) && (rki_alignment info =? 4) && (rki_bias info =? 0) &&
          (Z.ones e - 3 =? field_mask i)
      | _ => false
      end
  end.

Lemma insn_at_le_bytes w rest : in_u 32 w -> insn_at (le_bytes 4 w ++ rest) = Ok w.
Proof.
  intros Hw. transitivity (Ok (le_val (le_bytes 4 w))); [reflexivity|].
  rewrite le_val_le_bytes. f_equal. by apply wrap_small.
Qed.

Lemma ppc64_write_to_value_word i v negative w rest :
  in_u 32 w ->
  write_to_value i v negative (le_bytes 4 w ++ rest) = Ok (le_bytes 4 (new_insn i v w) ++ rest).
Proof.
  intros Hw. unfold write_to_value. rewrite insn_at_le_bytes by done.
  unfold mbind, res_bind. unfold copy_at.
  rewrite decide_True by (rewrite length_app, !length_le_bytes; lia).
  cbn [Z.to_nat take app]. rewrite length_le_bytes, drop_app_length' by (by rewrite length_le_bytes).
  done.
Qed.

Lemma new_insn_range i v w : in_u 32 w -> in_u 32 (new_insn i v w).
Proof. intros. unfold new_insn. in_range. Qed.

(** ** Theorems *)

(** [write_to_value] replaces exactly the field: on any buffer of at least
    four bytes it succeeds, keeps the opcode bits and the bytes after the
    instruction, and [read_value] returns the value masked to the field. *)
Theorem ppc64_write_then_read i v negative dest :
  in_u 64 v -> bytes_ok dest -> (4 <= length dest)%nat ->
  exists w', write_to_value i v negative dest = Ok (le_bytes 4 w' ++ drop 4 dest) /\
    Z.land w' (Z.lnot (field_mask i)) = Z.land (le_val (take 4 dest)) (Z.lnot (field_mask i)) /\
    read_value i (le_bytes 4 w' ++ drop 4 dest) = Ok (Z.land v (field_mask i), false).
Proof.
  intros Hv Hok Hlen. destruct (word_prefix 4 dest Hok Hlen) as [Hw Hd].
  exists (new_insn i v (le_val (take 4 dest))).
  split; [rewrite Hd at 1; by apply ppc64_write_to_value_word|].
  change (8 * Z.of_nat 4) with 32 in Hw. set (w := le_val (take 4 dest)) in *.
  unfold read_value. rewrite insn_at_le_bytes by (by apply new_insn_range).
  unfold mbind, res_bind, new_insn.
  split; [|do 2 f_equal]; destruct i; cbn [field_mask]; bits.
Qed.

Lemma ppc64_write_then_read_witness :
  exists w', write_to_value PPC.Branch24 (2 ^ 64 - 4) true [1; 0; 0; 0x48; 9] =
               Ok (le_bytes 4 w' ++ [9]) /\
    Z.land w' (Z.lnot 0x03fffffc) = 0x48000001 /\
    read_value PPC.Branch24 (le_bytes 4 w' ++ [9]) = Ok (0x03fffffc, false).
Proof.
  apply (ppc64_write_then_read PPC.Branch24 (2 ^ 64 - 4) true [1; 0; 0; 0x48; 9]).
  - split; vm_compute; congruence.
  - repeat constructor; vm_compute; congruence.
  - vm_compute; lia.
Defined.

Lemma ha_lo_arith v :
  in_u 64 v ->
  wrap 32 (signed 16 (wrap 16 (Z.shiftr (wadd 64 v 0x8000) 16)) * 2 ^ 16 + signed 16 (wrap 16 v)) =
  wrap 32 v.
Proof.
  intros [Hl Hu]. rewrite Z.shiftr_div_pow2 by lia. unfold signed, wadd.
  rewrite !wrap_wrap by lia. unfold wrap.
  repeat case_match; Z.to_euclidean_division_equations; lia.
Qed.

(** The [@ha]/[@lo] split is correct: for both row pairs of the table, the
    high instruction written with the row's bit range of the biased value and the
    low instruction written with its row's range add up to the value modulo 2^32. *)
Theorem ppc64_ha_lo_adds_up ha lo v w1 w2 :
  (ha, lo) ∈ [(R_PPC64_REL16_HA, R_PPC64_REL16_LO); (R_PPC64_TOC16_HA, R_PPC64_TOC16_LO)] ->
  in_u 64 v -> in_u 32 w1 -> in_u 32 w2 ->
  exists hi li h l,
    relocation_type_from_raw ha = Ok (Some hi) /\ relocation_type_from_raw lo = Ok (Some li) /\
    rki_size hi = bit_mask_ppc64 16 32 PPC.D /\ rki_size li = bit_mask_ppc64 0 16 PPC.D /\
    write_to_value PPC.D (extract_bit_range (wadd 64 v (rki_bias hi)) 16 32) false (le_bytes 4 w1) =
      Ok (le_bytes 4 h) /\
    write_to_value PPC.D (extract_bit_range (wadd 64 v (rki_bias li)) 0 16) false (le_bytes 4 w2) =
      Ok (le_bytes 4 l) /\
    wrap 32 (ha_lo_value h l) = wrap 32 v.
Proof.
  intros Hin Hv H1 H2.
  assert (exists hi li,
    relocation_type_from_raw ha = Ok (Some hi) /\ relocation_type_from_raw lo = Ok (Some li) /\
    rki_size hi = bit_mask_ppc64 16 32 PPC.D /\ rki_size li = bit_mask_ppc64 0 16 PPC.D /\
    rki_bias hi = 0x8000 /\ rki_bias li = 0) as (hi & li & ? & ? & ? & ? & Hbh & Hbl).
  { rewrite !elem_of_cons, elem_of_nil in Hin.
    destruct Hin as [[= -> ->]|[[= -> ->]|[]]]; do 2 eexists; repeat split; reflexivity. }
  exists hi, li. rewrite Hbh, Hbl.
  pose proof (fun v w H => ppc64_write_to_value_word PPC.D v false w [] H) as Hword.
  setoid_rewrite app_nil_r in Hword. rewrite !Hword by done.
  do 2 eexists. repeat split; try done.
  rewrite <- (ha_lo_arith v Hv). unfold ha_lo_value.
  assert (wadd 64 v 0 = v) as -> by (unfold wadd; rewrite Z.add_0_r; by apply wrap_small).
  unfold new_insn, field_mask. extract_simp. do 4 f_equal; bits.
Qed.

Lemma ppc64_ha_lo_adds_up_witness :
  exists hi li h l,
    relocation_type_from_raw R_PPC64_TOC16_HA = Ok (Some hi) /\
    relocation_type_from_raw R_PPC64_TOC16_LO = Ok (Some li) /\
    rki_size hi = bit_mask_ppc64 16 32 PPC.D /\ rki_size li = bit_mask_ppc64 0 16 PPC.D /\
    write_to_value PPC.D (extract_bit_range (wadd 64 0x1fff8 (rki_bias hi)) 16 32) false
      (le_bytes 4 0x3c620000) = Ok (le_bytes 4 h) /\
    write_to_value PPC.D (extract_bit_range (wadd 64 0x1fff8 (rki_bias li)) 0 16) false
      (le_bytes 4 0x38630000) = Ok (le_bytes 4 l) /\
    wrap 32 (ha_lo_value h l) = 0x1fff8.
Proof.
  apply (ppc64_ha_lo_adds_up R_PPC64_TOC16_HA R_PPC64_TOC16_LO 0x1fff8 0x3c620000 0x38630000).
  - right; left.
  - split; vm_compute; congruence.
  - split; vm_compute; congruence.
  - split; vm_compute; congruence.
Defined.

(** The PowerPC64 table is total and well formed: no row panics; byte
    sizes are 4 or 8; a [D] row takes the low 16 bits unbiased or the next 16 with the
    0x8000 bias; every other form is aligned to 4 and its bit range is its field
    together with the two zero bits below it. *)
Theorem ppc64_relocation_table_well_formed r_type :
  exists o, relocation_type_from_raw r_type = Ok o /\
    match o with Some info => size_checks info = true | None => True end.
Proof. destruct r_type; eexists; split; try reflexivity; cbn; repeat split. Qed.
