(* ===== verification/X86_64.v ===== *)
(** x86-64 relocations and relaxations: [linker-utils/src/x86_64.rs]. *)
From Stdlib Require Import ZArith Lia.
From stdpp Require Import base list list_numbers numbers strings option.
From S2P Require Import Prelude Bits BitMisc Elf Relaxation.

Local Open Scope Z_scope.

(** ** Relaxations *)
Module Relax.
Inductive RelaxationKind :=
| MovIndirectToLea
| MovIndirectToAbsolute
| RexMovIndirectToAbsolute (inst_offset : Z)
| RexAddIndirectToAbsolute (inst_offset : Z)
| RexSubIndirectToAbsolute (inst_offset : Z)
| RexCmpIndirectToAbsolute (inst_offset : Z)
| CallIndirectToRelative
| JmpIndirectToRelative
| NoOp
| TlsGdToLocalExec
| TlsGdToLocalExecLarge
| TlsLdToLocalExec
| TlsLdToLocalExecNoPlt
| TlsLdToLocalExec64
| TlsGdToInitialExec
| TlsDescToLocalExec (inst_offset : Z)
| TlsDescToInitialExec
| SkipTlsDescCall.
End Relax.
Import Relax (RelaxationKind).

(** [section_bytes[i] = f(section_bytes[i])]. *)
Definition update_at (bytes : list Z) (i : Z) (f : Z -> Z) : res (list Z) :=
  b ← get_at bytes i; set_at bytes i (f b).

(** [(rex & !m) | ((rex & m) >> 2)]: the destination register's extension bits
    move from R to B. *)
Definition move_r_to_b (m rex : Z) : Z :=
  Z.lor (Z.land rex (wnot 8 m)) (wshr 8 (Z.land rex m) 2).

Definition rex_to_b (inst_offset rex : Z) : Z :=
  if inst_offset =? 3 then move_r_to_b 4 rex
  else if inst_offset =? 4 then move_r_to_b 0x44 rex
  else rex.

(** [(mod_rm >> 3) & 0x7 | top]. *)
Definition reg_to_rm (top mod_rm : Z) : Z := Z.lor (Z.land (wshr 8 mod_rm 3) 0x7) top.

(** The two EVEX payload updates of [RexAddIndirectToAbsolute(6)]. *)
Definition evex_r_to_b (l5 : Z) : Z :=
  let l5 := if Z.land l5 (wshl 8 1 7) =? 0
            then Z.land (Z.lor l5 (wshl 8 1 7)) (wnot 8 (wshl 8 1 5)) else l5 in
  if Z.land l5 (wshl 8 1 4) =? 0 then Z.lor (Z.lor l5 (wshl 8 1 4)) (wshl 8 1 3) else l5.

(** The opcode at [offset - 2] and the ModRM byte at [offset - 1]. *)
Definition set_opcode_and_rm (bytes : list Z) (offset opcode top : Z) : res (list Z) :=
  bytes ← set_at bytes (offset - 2) opcode;
  update_at bytes (offset - 1) (reg_to_rm top).

(** The byte updates of every kind. *)
Definition apply_bytes (kind : RelaxationKind) (bytes : list Z) (offset : Z) : res (list Z) :=
  match kind with
  | Relax.MovIndirectToLea => set_at bytes (offset - 2) 0x8d
  | Relax.MovIndirectToAbsolute => set_opcode_and_rm bytes offset 0xc7 0xc0
  | Relax.RexMovIndirectToAbsolute inst_offset =>
      bytes ← update_at bytes (offset - 3) (rex_to_b inst_offset);
      set_opcode_and_rm bytes offset 0xc7 0xc0
  | Relax.RexAddIndirectToAbsolute inst_offset =>
      bytes ← (if (inst_offset =? 3) || (inst_offset =? 4)
               then update_at bytes (offset - 3) (rex_to_b inst_offset)
               else if inst_offset =? 6 then update_at bytes (offset - 5) evex_r_to_b
               else Ok bytes);
      set_opcode_and_rm bytes offset 0x81 0xc0
  | Relax.RexSubIndirectToAbsolute inst_offset =>
      bytes ← update_at bytes (offset - 3) (rex_to_b inst_offset);
      set_opcode_and_rm bytes offset 0x81 0xe8
  | Relax.RexCmpIndirectToAbsolute inst_offset =>
      bytes ← update_at bytes (offset - 3) (rex_to_b inst_offset);
      set_opcode_and_rm bytes offset 0x81 0xf8
  | Relax.CallIndirectToRelative => copy_at bytes (offset - 2) [0x67; 0xe8]
  | Relax.JmpIndirectToRelative => copy_at bytes (offset - 2) [0xe9; 0; 0; 0; 0; 0x90]
  | Relax.TlsGdToLocalExec =>
      copy_at bytes (offset - 4)
        [0x64; 0x48; 0x8b; 0x04; 0x25; 0; 0; 0; 0; 0x48; 0x8d; 0x80]
  | Relax.TlsGdToLocalExecLarge =>
      copy_at bytes (offset - 3)
        [0x64; 0x48; 0x8b; 0x04; 0x25; 0; 0; 0; 0; 0x48; 0x8d; 0x80; 0; 0; 0; 0;
         0x66; 0x0f; 0x1f; 0x44; 0; 0]
  | Relax.TlsGdToInitialExec =>
      copy_at bytes (offset - 4)
        [0x64; 0x48; 0x8b; 0x04; 0x25; 0; 0; 0; 0; 0x48; 0x03; 0x05]
  | Relax.TlsLdToLocalExec =>
      copy_at bytes (offset - 3)
        [0x66; 0x66; 0x66; 0x64; 0x48; 0x8b; 0x04; 0x25; 0; 0; 0; 0]
  | Relax.TlsLdToLocalExecNoPlt =>
      copy_at bytes (offset - 3)
        [0x66; 0x66; 0x66; 0x66; 0x64; 0x48; 0x8b; 0x04; 0x25; 0; 0; 0; 0]
  | Relax.TlsLdToLocalExec64 =>
      copy_at bytes (offset - 3)
        [0x66; 0x66; 0x66; 0x66; 0x2e; 0x0f; 0x1f; 0x84; 0; 0; 0; 0; 0;
         0x64; 0x48; 0x8b; 0x04; 0x25; 0; 0; 0; 0]
  | Relax.TlsDescToLocalExec inst_offset =>
      rex ← get_at bytes (offset - 3);
      modrm ← get_at bytes (offset - 1);
      let rex_r := Z.land (wshr 8 rex 2) 1 in
      let reg := Z.land (wshr 8 modrm 3) 0x7 in
      if inst_offset =? 3 then
        let rex := if rex_r =? 0 then 0x48 else 0x49 in
        copy_at bytes (offset - 3) [rex; 0xc7; Z.lor 0xc0 reg; 0; 0; 0; 0]
      else if inst_offset =? 4 then
        let rex := if rex_r =? 0 then 0x18 else 0x19 in
        copy_at bytes (offset - 3) [rex; 0xc7; Z.lor 0xc0 reg; 0; 0; 0; 0]
      else Ok bytes
  | Relax.TlsDescToInitialExec =>
      rex ← get_at bytes (offset - 3);
      modrm ← get_at bytes (offset - 1);
      let rex_r := Z.land (wshr 8 rex 2) 1 in
      let reg := Z.land (wshr 8 modrm 3) 0x7 in
      let rex := if rex_r =? 0 then 0x48 else 0x4c in
      copy_at bytes (offset - 3) [rex; 0x8b; Z.lor 0x05 (wshl 8 reg 3); 0; 0; 0; 0]
  | Relax.SkipTlsDescCall => copy_at bytes offset [0x66; 0x90]
  | Relax.NoOp => Ok bytes
  end.

(** How [*offset_in_section] moves. *)
Definition offset_shift (kind : RelaxationKind) : Z :=
  match kind with
  | Relax.JmpIndirectToRelative => -1
  | Relax.TlsGdToLocalExec | Relax.TlsGdToInitialExec => 8
  | Relax.TlsGdToLocalExecLarge => 9
  | Relax.TlsLdToLocalExec | Relax.TlsLdToLocalExecNoPlt => 5
  | Relax.TlsLdToLocalExec64 => 15
  | _ => 0
  end.

(** The kinds that end with [*addend = 0]. *)
Definition clears_addend (kind : RelaxationKind) : bool :=
  match kind with
  | Relax.MovIndirectToAbsolute | Relax.RexMovIndirectToAbsolute _
  | Relax.RexAddIndirectToAbsolute _ | Relax.RexSubIndirectToAbsolute _
  | Relax.RexCmpIndirectToAbsolute _ | Relax.TlsGdToLocalExec
  | Relax.TlsGdToLocalExecLarge => true
  | Relax.TlsDescToLocalExec inst_offset => (inst_offset =? 3) || (inst_offset =? 4)
  | _ => false
  end.

Definition apply (kind : RelaxationKind) (s : ApplyArgs) : res ApplyArgs :=
  bytes ← apply_bytes kind (section_bytes s) (offset_in_section s);
  Ok (mkApplyArgs bytes (wadd 64 (offset_in_section s) (offset_shift kind))
        (if clears_addend kind then 0 else addend s)).

Definition next_modifier (kind : RelaxationKind) : RelocationModifier :=
  match kind with
  | Relax.TlsGdToInitialExec | Relax.TlsGdToLocalExec | Relax.TlsGdToLocalExecLarge
  | Relax.TlsLdToLocalExec | Relax.TlsLdToLocalExecNoPlt | Relax.TlsLdToLocalExec64 =>
      SkipNextRelocation
  | _ => Normal
  end.

(** ** The relocation table *)
Definition RelocSizeAndRange : Type := RelocationSize * res AllowedRange.

Definition RELOC_8_BYTE_UNSIGNED : RelocSizeAndRange := (RelSize.ByteSize 8, from_byte_size 8 Unsigned).
Definition RELOC_8_BYTE_SIGNED : RelocSizeAndRange := (RelSize.ByteSize 8, from_byte_size 8 Signed).
Definition RELOC_4_BYTE_UNSIGNED : RelocSizeAndRange := (RelSize.ByteSize 4, from_byte_size 4 Unsigned).
Definition RELOC_4_BYTE_SIGNED : RelocSizeAndRange := (RelSize.ByteSize 4, from_byte_size 4 Signed).
Definition RELOC_2_BYTE_SIGNED : RelocSizeAndRange := (RelSize.ByteSize 2, from_byte_size 2 Signed).
Definition RELOC_1_BYTE_SIGNED : RelocSizeAndRange := (RelSize.ByteSize 1, from_byte_size 1 Signed).
Definition RELOC_2_BYTE_MIXED : RelocSizeAndRange :=
  (RelSize.ByteSize 2, Ok (mkAllowedRange (- 2 ^ 15) (2 ^ 16 - 1 + 1))).
Definition RELOC_1_BYTE_MIXED : RelocSizeAndRange :=
  (RelSize.ByteSize 1, Ok (mkAllowedRange (- 2 ^ 7) (2 ^ 8 - 1 + 1))).
Definition RELOC_NONE : RelocSizeAndRange := (RelSize.ByteSize 0, Ok no_check).

Definition kind_and_size (r_type : R_X86_64) : option (RelocationKind * RelocSizeAndRange) :=
  match r_type with
  | R_X86_64_64 => Some (RelKind.Absolute, RELOC_8_BYTE_UNSIGNED)
  | R_X86_64_PC32 => Some (RelKind.Relative, RELOC_4_BYTE_SIGNED)
  | R_X86_64_PC64 => Some (RelKind.Relative, RELOC_8_BYTE_SIGNED)
  | R_X86_64_GOT32 => Some (RelKind.GotRelGotBase, RELOC_4_BYTE_UNSIGNED)
  | R_X86_64_GOT64 => Some (RelKind.GotRelGotBase, RELOC_8_BYTE_UNSIGNED)
  | R_X86_64_GOTOFF64 => Some (RelKind.SymRelGotBase, RELOC_8_BYTE_SIGNED)
  | R_X86_64_PLT32 => Some (RelKind.PltRelative, RELOC_4_BYTE_SIGNED)
  | R_X86_64_PLTOFF64 => Some (RelKind.PltRelGotBase, RELOC_8_BYTE_SIGNED)
  | R_X86_64_GOTPCREL => Some (RelKind.GotRelative, RELOC_4_BYTE_SIGNED)
  | R_X86_64_GOTPC64 => Some (RelKind.Relative, RELOC_8_BYTE_SIGNED)
  | R_X86_64_GOTPC32 => Some (RelKind.Relative, RELOC_4_BYTE_SIGNED)
  | R_X86_64_32 => Some (RelKind.Absolute, RELOC_4_BYTE_UNSIGNED)
  | R_X86_64_32S => Some (RelKind.Absolute, RELOC_4_BYTE_SIGNED)
  | R_X86_64_16 => Some (RelKind.Absolute, RELOC_2_BYTE_MIXED)
  | R_X86_64_PC16 => Some (RelKind.Relative, RELOC_2_BYTE_SIGNED)
  | R_X86_64_8 => Some (RelKind.Absolute, RELOC_1_BYTE_MIXED)
  | R_X86_64_PC8 => Some (RelKind.Relative, RELOC_1_BYTE_SIGNED)
  | R_X86_64_TLSGD => Some (RelKind.TlsGd, RELOC_4_BYTE_SIGNED)
  | R_X86_64_TLSLD => Some (RelKind.TlsLd, RELOC_4_BYTE_SIGNED)
  | R_X86_64_DTPOFF32 => Some (RelKind.DtpOff, RELOC_4_BYTE_SIGNED)
  | R_X86_64_DTPOFF64 => Some (RelKind.DtpOff, RELOC_8_BYTE_SIGNED)
  | R_X86_64_GOTTPOFF | R_X86_64_CODE_4_GOTTPOFF | R_X86_64_CODE_5_GOTTPOFF
  | R_X86_64_CODE_6_GOTTPOFF => Some (RelKind.GotTpOff, RELOC_4_BYTE_SIGNED)
  | R_X86_64_GOTPCRELX | R_X86_64_REX_GOTPCRELX | R_X86_64_CODE_4_GOTPCRELX
  | R_X86_64_CODE_5_GOTPCRELX | R_X86_64_CODE_6_GOTPCRELX =>
      Some (RelKind.GotRelative, RELOC_4_BYTE_SIGNED)
  | R_X86_64_TPOFF32 => Some (RelKind.TpOff, RELOC_4_BYTE_SIGNED)
  | R_X86_64_GOTPC32_TLSDESC | R_X86_64_CODE_4_GOTPC32_TLSDESC
  | R_X86_64_CODE_5_GOTPC32_TLSDESC | R_X86_64_CODE_6_GOTPC32_TLSDESC =>
      Some (RelKind.TlsDesc, RELOC_4_BYTE_SIGNED)
  | R_X86_64_TLSDESC_CALL => Some (RelKind.TlsDescCall, RELOC_NONE)
  | R_X86_64_NONE => Some (RelKind.None, RELOC_NONE)
  | _ => None
  end.

Definition relocation_from_raw (r_type : R_X86_64) : res (option RelocationKindInfo) :=
  finish_entry false
    ('(kind, (size, range)) ← kind_and_size r_type; Some (entry kind size None range 1 0)).

(** ** Specification *)

(** The bytes around [offset] that a relaxation may touch: [before] bytes in
    front of the relocated field and [after] bytes from it on. *)
Definition window (kind : RelaxationKind) : Z * Z :=
  match kind with
  | Relax.MovIndirectToLea | Relax.MovIndirectToAbsolute => (2, 0)
  | Relax.CallIndirectToRelative => (2, 0)
  | Relax.RexAddIndirectToAbsolute inst_offset => (if inst_offset =? 6 then 5 else 3, 0)
  | Relax.RexMovIndirectToAbsolute _ | Relax.RexSubIndirectToAbsolute _
  | Relax.RexCmpIndirectToAbsolute _ => (3, 0)
  | Relax.JmpIndirectToRelative => (2, 4)
  | Relax.TlsGdToLocalExec | Relax.TlsGdToInitialExec => (4, 8)
  | Relax.TlsGdToLocalExecLarge | Relax.TlsLdToLocalExec64 => (3, 19)
  | Relax.TlsLdToLocalExec => (3, 9)
  | Relax.TlsLdToLocalExecNoPlt => (3, 10)
  | Relax.TlsDescToLocalExec _ | Relax.TlsDescToInitialExec => (3, 4)
  | Relax.SkipTlsDescCall => (0, 2)
  | Relax.NoOp => (0, 0)
  end.

(** The computation succeeds, keeps the length, and changes bytes only in
    [lo, hi). *)
Definition writes_within (lo hi : Z) (l : list Z) (m : res (list Z)) : Prop :=
  exists l', m = Ok l' /\ length l' = length l /\ bytes_ok l' /\
    forall i, Z.of_nat i < lo \/ hi <= Z.of_nat i -> l' !! i = l !! i.

(** The rewrites that turn a load from the GOT into an immediate operand: where
    the prefix is, the immediate form's opcode and its ModRM extension. *)
Definition immediate_form (kind : RelaxationKind) : option (Z * Z * Z) :=
  match kind with
  | Relax.RexMovIndirectToAbsolute i => Some (i, 0xc7, 0)
  | Relax.RexAddIndirectToAbsolute i => Some (i, 0x81, 0)
  | Relax.RexSubIndirectToAbsolute i => Some (i, 0x81, 5)
  | Relax.RexCmpIndirectToAbsolute i => Some (i, 0x81, 7)
  | _ => None
  end.

(** Register numbers as the processor decodes them, from a REX prefix
    ([inst_offset] 3) or a REX2 payload ([inst_offset] 4) and ModRM. *)
Definition reg_number (inst_offset rex modrm : Z) : Z :=
  Z.lor (Z.lor (if inst_offset =? 4 then Z.shiftl (Z.land (Z.shiftr rex 6) 1) 4 else 0)
               (Z.shiftl (Z.land (Z.shiftr rex 2) 1) 3))
        (Z.land (Z.shiftr modrm 3) 7).

Definition rm_number (inst_offset rex modrm : Z) : Z :=
  Z.lor (Z.lor (if inst_offset =? 4 then Z.shiftl (Z.land (Z.shiftr rex 4) 1) 4 else 0)
               (Z.shiftl (Z.land rex 1) 3))
        (Z.land modrm 7).

(** The B bits of the prefix, which a RIP-relative operand leaves clear. *)
Definition b_mask (inst_offset : Z) : Z := if inst_offset =? 4 then 0x11 else 0x01.

(** What every accepted value must be for a byte-sized field not to truncate it. *)
Definition representable (n v : Z) : Prop := wrap (8 * n) v = v \/ signed (8 * n) v = v.

(** The prefix [TlsDescToLocalExec] writes. *)
Definition le_prefix (i rex : Z) : Z :=
  let rex_r := Z.land (wshr 8 rex 2) 1 in
  if i =? 3 then (if rex_r =? 0 then 0x48 else 0x49) else (if rex_r =? 0 then 0x18 else 0x19).

(** ** Lemmas *)
Lemma writes_within_ok lo hi l : bytes_ok l -> writes_within lo hi l (Ok l).
Proof. intros. by exists l. Qed.

Lemma writes_within_bind lo hi l m f :
  writes_within lo hi l m ->
  (forall l', bytes_ok l' -> length l' = length l -> writes_within lo hi l' (f l')) ->
  writes_within lo hi l (m ≫= f).
Proof.
  intros (l1 & -> & Hlen & Hok & Hout) Hf.
  destruct (Hf l1 Hok Hlen) as (l2 & E2 & Hlen2 & Hok2 & Hout2).
  exists l2. unfold mbind, res_bind. repeat split; [done|congruence|done|]. intros i Hi. by rewrite Hout2, Hout.
Qed.

Lemma writes_within_copy_at lo hi l o src :
  bytes_ok l -> bytes_ok src -> 0 <= lo <= o -> o + Z.of_nat (length src) <= hi ->
  hi <= Z.of_nat (length l) -> writes_within lo hi l (copy_at l o src).
Proof.
  intros Hl Hs Hlo Hhi Hlen.
  destruct (copy_at_ok l o src) as [l' E]; [lia..|]. exists l'. split; [done|].
  split; [by eapply copy_at_length|]. split.
  - revert E. unfold copy_at. case_decide; [|done]. intros [= <-].
    apply Forall_app; split; [by apply Forall_take|].
    apply Forall_app; split; [done|by apply Forall_drop].
  - intros i Hi. eapply copy_at_lookup_out; [done|]. lia.
Qed.

Lemma set_at_copy_at l i v : set_at l i v = copy_at l i [v].
Proof.
  unfold set_at, copy_at. cbn [length].
  destruct (decide (0 <= i < Z.of_nat (length l))).
  - rewrite decide_True by lia. f_equal. rewrite insert_take_drop by lia.
    do 3 f_equal. lia.
  - by rewrite decide_False by lia.
Qed.

Lemma writes_within_set_at lo hi l i v :
  bytes_ok l -> byte_ok v -> 0 <= lo <= i -> i < hi <= Z.of_nat (length l) ->
  writes_within lo hi l (set_at l i v).
Proof.
  intros. rewrite set_at_copy_at.
  apply writes_within_copy_at; [done|by apply Forall_singleton|done|cbn [length]; lia|lia].
Qed.

Lemma get_at_byte l i :
  bytes_ok l -> 0 <= i < Z.of_nat (length l) -> exists b, get_at l i = Ok b /\ byte_ok b.
Proof.
  intros Hok Hi. unfold get_at. rewrite decide_True by lia.
  destruct (lookup_lt_is_Some_2 l (Z.to_nat i)) as [b Hb]; [lia|].
  rewrite Hb. exists b. split; [done|]. eapply Forall_lookup_1; eauto.
Qed.

Lemma writes_within_update_at lo hi l i f :
  bytes_ok l -> (forall b, byte_ok b -> byte_ok (f b)) ->
  0 <= lo <= i -> i < hi <= Z.of_nat (length l) ->
  writes_within lo hi l (update_at l i f).
Proof.
  intros Hok Hf Hlo Hhi. unfold update_at.
  destruct (get_at_byte l i) as (b & -> & Hb); [done|lia|].
  apply writes_within_set_at; auto.
Qed.

Lemma rex_to_b_byte i b : byte_ok b -> byte_ok (rex_to_b i b).
Proof. intros. unfold byte_ok in *. unfold rex_to_b, move_r_to_b, wnot. in_range. Qed.

Lemma reg_to_rm_byte top b : byte_ok top -> byte_ok b -> byte_ok (reg_to_rm top b).
Proof. intros. unfold byte_ok in *. unfold reg_to_rm. in_range. Qed.

Lemma evex_r_to_b_byte b : byte_ok b -> byte_ok (evex_r_to_b b).
Proof.
  intros. unfold byte_ok in *. unfold evex_r_to_b.
  repeat case_match; in_range.
Qed.

Lemma writes_within_set_opcode_and_rm lo hi l offset opcode top :
  bytes_ok l -> byte_ok opcode -> byte_ok top ->
  0 <= lo <= offset - 2 -> offset <= hi <= Z.of_nat (length l) ->
  writes_within lo hi l (set_opcode_and_rm l offset opcode top).
Proof.
  intros. unfold set_opcode_and_rm. apply writes_within_bind.
  - apply writes_within_set_at; (done || lia).
  - intros l' Hok' Hlen'. apply writes_within_update_at; [done| |lia|lia].
    intros. by apply reg_to_rm_byte.
Qed.

Ltac byte_list :=
  repeat (apply Forall_cons_2; [unfold byte_ok; solve [in_range]|]); apply Forall_nil_2.

Lemma apply_bytes_window kind l offset :
  bytes_ok l -> 0 <= offset - (window kind).1 ->
  offset + (window kind).2 <= Z.of_nat (length l) ->
  writes_within (offset - (window kind).1) (offset + (window kind).2) l (apply_bytes kind l offset).
Proof.
  intros Hok Hlo Hhi.
  destruct kind; cbn [window fst snd apply_bytes] in *;
    try solve [apply writes_within_ok; done];
    try solve [apply writes_within_copy_at; [done|byte_list|lia|cbn [length]; lia|lia]];
    try solve [apply writes_within_set_opcode_and_rm; (done || lia)];
    try solve [apply writes_within_set_at; (done || lia)];
    try solve [apply writes_within_bind;
      [ apply writes_within_update_at; [done|apply rex_to_b_byte|lia|lia]
      | intros; apply writes_within_set_opcode_and_rm; (done || lia) ]].
  - apply writes_within_bind.
    + destruct (inst_offset =? 6) eqn:E6.
      * apply Z.eqb_eq in E6 as ->. cbn.
        apply writes_within_update_at; [done|apply evex_r_to_b_byte|lia|lia].
      * destruct (_ || _); [|by apply writes_within_ok].
        apply writes_within_update_at; [done|apply rex_to_b_byte|lia|lia].
    + intros. destruct (inst_offset =? 6);
        apply writes_within_set_opcode_and_rm; (done || lia).
  - destruct (get_at_byte l (offset - 3)) as (rex & -> & Hr); [done|lia|].
    destruct (get_at_byte l (offset - 1)) as (modrm & -> & Hm); [done|lia|].
    unfold mbind, res_bind, byte_ok in *.
    repeat case_match; try (by apply writes_within_ok);
      (apply writes_within_copy_at; [done|byte_list|lia|cbn [length]; lia|lia]).
  - destruct (get_at_byte l (offset - 3)) as (rex & -> & Hr); [done|lia|].
    destruct (get_at_byte l (offset - 1)) as (modrm & -> & Hm); [done|lia|].
    unfold mbind, res_bind, byte_ok in *.
    apply writes_within_copy_at; [done| |lia|cbn [length]; lia|lia].
    case_match; byte_list.
Qed.

(** Updating known bytes in the middle of a buffer. *)
Lemma get_at_app pre x post :
  get_at (pre ++ x :: post) (Z.of_nat (length pre)) = Ok x.
Proof.
  unfold get_at. rewrite decide_True by lia. rewrite Nat2Z.id.
  by rewrite list_lookup_middle.
Qed.

Lemma copy_at_app pre src old post :
  length src = length old ->
  copy_at (pre ++ old ++ post) (Z.of_nat (length pre)) src = Ok (pre ++ src ++ post).
Proof.
  intros Hlen. unfold copy_at. rewrite decide_True by (rewrite !length_app; lia).
  rewrite Nat2Z.id, take_app_length, Hlen, <- drop_drop, drop_app_length.
  by rewrite drop_app_length.
Qed.

Lemma set_at_app pre x y post :
  set_at (pre ++ x :: post) (Z.of_nat (length pre)) y = Ok (pre ++ y :: post).
Proof. rewrite set_at_copy_at. apply (copy_at_app pre [y] [x] post eq_refl). Qed.

Lemma update_at_app pre x post f :
  update_at (pre ++ x :: post) (Z.of_nat (length pre)) f = Ok (pre ++ f x :: post).
Proof. unfold update_at. rewrite get_at_app. apply set_at_app. Qed.

Lemma set_opcode_and_rm_app pre x op modrm post opcode top :
  set_opcode_and_rm (pre ++ x :: op :: modrm :: post) (Z.of_nat (length pre) + 3) opcode top =
  Ok (pre ++ x :: opcode :: reg_to_rm top modrm :: post).
Proof.
  unfold set_opcode_and_rm.
  replace (Z.of_nat (length pre) + 3 - 2) with (Z.of_nat (length (pre ++ [x])))
    by (rewrite length_app; cbn [length]; lia).
  replace (Z.of_nat (length pre) + 3 - 1) with (Z.of_nat (length (pre ++ [x; opcode])))
    by (rewrite length_app; cbn [length]; lia).
  replace (pre ++ x :: op :: modrm :: post) with ((pre ++ [x]) ++ op :: modrm :: post)
    by (by rewrite <- app_assoc).
  rewrite set_at_app. unfold mbind, res_bind.
  replace ((pre ++ [x]) ++ opcode :: modrm :: post) with ((pre ++ [x; opcode]) ++ modrm :: post)
    by (by rewrite <- !app_assoc).
  rewrite update_at_app. by rewrite <- app_assoc.
Qed.

Lemma immediate_form_apply kind i opcode ext pre rex op modrm post :
  immediate_form kind = Some (i, opcode, ext) -> i = 3 \/ i = 4 ->
  apply_bytes kind (pre ++ rex :: op :: modrm :: post) (Z.of_nat (length pre) + 3) =
  Ok (pre ++ rex_to_b i rex :: opcode :: reg_to_rm (Z.lor 0xc0 (Z.shiftl ext 3)) modrm :: post).
Proof.
  intros Hk Hi.
  assert (Z.of_nat (length pre) + 3 - 3 = Z.of_nat (length pre)) as Ho by lia.
  destruct kind; try discriminate; injection Hk as <- <- <-; cbn [apply_bytes];
    rewrite ?Ho; try (rewrite update_at_app; unfold mbind, res_bind; apply set_opcode_and_rm_app).
  replace ((inst_offset =? 3) || (inst_offset =? 4)) with true by (destruct Hi; subst; done).
  rewrite update_at_app; unfold mbind, res_bind; apply set_opcode_and_rm_app.
Qed.

Lemma tlsdesc_le_fields i rex modrm :
  (i = 3 \/ (i = 4 /\ Z.land rex 0x40 = 0x40)) -> byte_ok rex -> byte_ok modrm ->
  let modrm' := Z.lor 0xc0 (Z.land (wshr 8 modrm 3) 7) in
  rm_number i (le_prefix i rex) modrm' = reg_number i rex modrm /\
  Z.shiftr modrm' 3 = 0x18 /\ Z.land (le_prefix i rex) 8 = 8.
Proof.
  intros Hi Hr Hm.
  pose (P := fun i rex modrm =>
    let modrm' := Z.lor 0xc0 (Z.land (wshr 8 modrm 3) 7) in
    (rm_number i (le_prefix i rex) modrm' =? reg_number i rex modrm) &&
    (Z.shiftr modrm' 3 =? 0x18) && (Z.land (le_prefix i rex) 8 =? 8)).
  enough (P i rex modrm = true) as HP.
  { unfold P in HP. cbv zeta in *. rewrite !andb_true_iff, !Z.eqb_eq in HP. tauto. }
  destruct Hi as [->|[-> Hb]].
  - revert rex modrm Hr Hm.
    exact (fun rex modrm => all_byte_pairs_spec (P 3) rex modrm ltac:(vm_compute; reflexivity)).
  - pose proof (all_byte_pairs_spec
      (fun rex modrm => implb (Z.land rex 0x40 =? 0x40) (P 4 rex modrm)) rex modrm
      ltac:(vm_compute; reflexivity) Hr Hm) as H.
    cbn beta in H. by rewrite Hb in H.
Qed.

Lemma tlsdesc_ie_fields rex modrm :
  byte_ok rex -> byte_ok modrm ->
  let rex' := if Z.land (wshr 8 rex 2) 1 =? 0 then 0x48 else 0x4c in
  let modrm' := Z.lor 0x05 (wshl 8 (Z.land (wshr 8 modrm 3) 7) 3) in
  reg_number 3 rex' modrm' = reg_number 3 rex modrm /\
  Z.land modrm' 0xc7 = 0x05 /\ Z.land rex' 8 = 8.
Proof.
  intros Hr Hm.
  pose proof (all_byte_pairs_spec (fun rex modrm =>
    let rex' := if Z.land (wshr 8 rex 2) 1 =? 0 then 0x48 else 0x4c in
    let modrm' := Z.lor 0x05 (wshl 8 (Z.land (wshr 8 modrm 3) 7) 3) in
    (reg_number 3 rex' modrm' =? reg_number 3 rex modrm) &&
    (Z.land modrm' 0xc7 =? 0x05) && (Z.land rex' 8 =? 8)) rex modrm
    ltac:(vm_compute; reflexivity) Hr Hm) as H.
  cbv zeta beta in *. rewrite !andb_true_iff, !Z.eqb_eq in H. tauto.
Qed.

(** A range no wider than the field's unsigned or signed range loses nothing. *)
Lemma contains_representable n r v :
  contains r v = true -> 0 < n ->
  (- 2 ^ (8 * n - 1) <= ar_min r) -> (ar_max r <= 2 ^ (8 * n)) -> representable n v.
Proof.
  unfold contains, representable. rewrite andb_true_iff, Z.leb_le, Z.ltb_lt.
  intros [H1 H2] Hn Hmin Hmax.
  destruct (decide (0 <= v)); [left; apply wrap_small; unfold in_u; lia|].
  right. apply signed_of_signed; [lia|]. unfold in_i.
  assert (0 < 2 ^ (8 * n - 1)) by (apply Z.pow_pos_nonneg; lia). lia.
Qed.

(** ** Theorems *)

(** Every relaxation is total and local: when the bytes of its window are
    in the section, [apply] succeeds, the section keeps its length, and no byte
    outside the window changes; the relocation offset moves by the kind's fixed
    amount and the addend is kept or zeroed. *)
Theorem x86_64_apply_window kind s :
  bytes_ok (section_bytes s) -> 0 <= offset_in_section s - (window kind).1 ->
  offset_in_section s + (window kind).2 <= Z.of_nat (length (section_bytes s)) ->
  exists s', apply kind s = Ok s' /\
    length (section_bytes s') = length (section_bytes s) /\ bytes_ok (section_bytes s') /\
    (forall i, Z.of_nat i < offset_in_section s - (window kind).1 \/
               offset_in_section s + (window kind).2 <= Z.of_nat i ->
               section_bytes s' !! i = section_bytes s !! i) /\
    offset_in_section s' = wadd 64 (offset_in_section s) (offset_shift kind) /\
    (addend s' = addend s \/ addend s' = 0).
Proof.
  intros Hok Hlo Hhi.
  destruct (apply_bytes_window kind _ _ Hok Hlo Hhi) as (l' & E & Hlen & Hok' & Hout).
  unfold apply. rewrite E. eexists. split; [done|]. cbn. repeat split; try done.
  destruct (clears_addend kind); auto.
Qed.

Lemma x86_64_apply_window_witness :
  exists s', apply Relax.TlsGdToLocalExec (mkApplyArgs (replicate 16 0x66) 4 (-4)) = Ok s' /\
    length (section_bytes s') = 16%nat /\ bytes_ok (section_bytes s') /\
    (forall i, Z.of_nat i < 0 \/ 12 <= Z.of_nat i ->
               section_bytes s' !! i = replicate 16 0x66 !! i) /\
    offset_in_section s' = 12 /\ (addend s' = -4 \/ addend s' = 0).
Proof.
  apply (x86_64_apply_window Relax.TlsGdToLocalExec (mkApplyArgs (replicate 16 0x66) 4 (-4))).
  - apply Forall_replicate. split; vm_compute; congruence.
  - vm_compute; congruence.
  - vm_compute; congruence.
Defined.

(** Relaxing a GOT load to an immediate keeps the destination register: the
    bytes [prefix opcode modrm] become the immediate form's opcode with register
    addressing, whose ModRM.rm register is the ModRM.reg register of the original;
    the prefix's W bit is kept, the addend cleared, and the rest of the section
    unchanged. *)
Theorem x86_64_immediate_keeps_register kind i opcode ext pre rex op modrm post addend :
  immediate_form kind = Some (i, opcode, ext) -> i = 3 \/ i = 4 ->
  byte_ok rex -> byte_ok modrm -> Z.land rex (b_mask i) = 0 ->
  exists rex' modrm',
    apply kind (mkApplyArgs (pre ++ rex :: op :: modrm :: post) (Z.of_nat (length pre) + 3) addend) =
      Ok (mkApplyArgs (pre ++ rex' :: opcode :: modrm' :: post)
            (wadd 64 (Z.of_nat (length pre) + 3) 0) 0) /\
    rm_number i rex' modrm' = reg_number i rex modrm /\
    Z.land (Z.shiftr modrm' 3) 7 = ext /\ Z.shiftr modrm' 6 = 3 /\
    Z.land rex' 8 = Z.land rex 8.
Proof.
  intros Hk Hi Hr Hm Hb. unfold byte_ok in *.
  exists (rex_to_b i rex), (reg_to_rm (Z.lor 0xc0 (Z.shiftl ext 3)) modrm). split.
  { unfold apply. cbn [section_bytes offset_in_section Relaxation.addend].
    erewrite immediate_form_apply by done. unfold mbind, res_bind.
    by destruct kind; try discriminate. }
  assert (ext = 0 \/ ext = 5 \/ ext = 7) as He.
  { destruct kind; try discriminate; injection Hk as _ _ <-; auto. }
  rewrite <- (unmasked 8 rex _ Hr Hb).
  destruct Hi as [->| ->]; cbn -[Z.land Z.lor Z.shiftl Z.shiftr];
    unfold rex_to_b, rm_number, reg_number, reg_to_rm, move_r_to_b, b_mask;
    cbn [Z.eqb Pos.eqb]; destruct He as [->|[->| ->]]; repeat split; bits.
Qed.

Lemma x86_64_immediate_keeps_register_witness :
  exists rex' modrm',
    apply (Relax.RexMovIndirectToAbsolute 3) (mkApplyArgs [0x4c; 0x8b; 0x35; 0; 0; 0; 0] 3 (-4)) =
      Ok (mkApplyArgs [rex'; 0xc7; modrm'; 0; 0; 0; 0] 3 0) /\
    rm_number 3 rex' modrm' = 14 /\
    Z.land (Z.shiftr modrm' 3) 7 = 0 /\ Z.shiftr modrm' 6 = 3 /\ Z.land rex' 8 = 8.
Proof.
  apply (x86_64_immediate_keeps_register (Relax.RexMovIndirectToAbsolute 3) 3 0xc7 0
           [] 0x4c 0x8b 0x35 [0; 0; 0; 0] (-4)).
  - reflexivity.
  - left; reflexivity.
  - split; vm_compute; congruence.
  - split; vm_compute; congruence.
  - reflexivity.
Defined.

(** Relaxing a TLS descriptor load keeps the destination register: to a
    [mov $imm32, %reg] for local-exec (the REX2 form being used only for the
    registers with bit 4 set), to a RIP-relative [mov] from the GOT for
    initial-exec; the four displacement bytes are cleared. *)
Theorem x86_64_tlsdesc_keeps_register i pre rex op modrm d0 d1 d2 d3 post addend :
  (i = 3 \/ (i = 4 /\ Z.land rex 0x40 = 0x40)) -> byte_ok rex -> byte_ok modrm ->
  let offset := Z.of_nat (length pre) + 3 in
  let s := mkApplyArgs (pre ++ [rex; op; modrm; d0; d1; d2; d3] ++ post) offset addend in
  (exists rex' modrm',
    apply (Relax.TlsDescToLocalExec i) s =
      Ok (mkApplyArgs (pre ++ [rex'; 0xc7; modrm'; 0; 0; 0; 0] ++ post) (wadd 64 offset 0) 0) /\
    rm_number i rex' modrm' = reg_number i rex modrm /\
    Z.shiftr modrm' 3 = 0x18 /\ Z.land rex' 8 = 8) /\
  (i = 3 -> exists rex' modrm',
    apply Relax.TlsDescToInitialExec s =
      Ok (mkApplyArgs (pre ++ [rex'; 0x8b; modrm'; 0; 0; 0; 0] ++ post) (wadd 64 offset 0) addend) /\
    reg_number i rex' modrm' = reg_number i rex modrm /\
    Z.land modrm' 0xc7 = 0x05 /\ Z.land rex' 8 = 8).
Proof.
  intros Hi Hr Hm offset s. unfold byte_ok in *.
  assert (offset - 3 = Z.of_nat (length pre)) as Ho by (subst offset; lia).
  assert (get_at (section_bytes s) (offset - 3) = Ok rex) as Hg3
    by (rewrite Ho; apply get_at_app).
  assert (get_at (section_bytes s) (offset - 1) = Ok modrm) as Hg1.
  { replace (offset - 1) with (Z.of_nat (length (pre ++ [rex; op])))
      by (rewrite length_app; cbn [length]; subst offset; lia).
    subst s. cbn [section_bytes].
    replace (pre ++ [rex; op; modrm; d0; d1; d2; d3] ++ post) with
      ((pre ++ [rex; op]) ++ modrm :: [d0; d1; d2; d3] ++ post) by (by rewrite <- app_assoc).
    apply get_at_app. }
  assert (forall src, length src = 7%nat ->
    copy_at (section_bytes s) (offset - 3) src = Ok (pre ++ src ++ post)) as Hc
    by (intros; rewrite Ho; by apply copy_at_app).
  clearbody offset. split; [|intros ->]; unfold apply; cbn [apply_bytes];
    change (offset_in_section s) with offset; rewrite Hg3, Hg1; unfold mbind, res_bind.
  - pose proof (tlsdesc_le_fields i rex modrm Hi Hr Hm) as Hf. cbv zeta in Hf.
    exists (le_prefix i rex), (Z.lor 0xc0 (Z.land (wshr 8 modrm 3) 7)). split; [|exact Hf].
    destruct Hi as [->|[-> _]]; cbn [Z.eqb Pos.eqb clears_addend offset_shift orb];
      by rewrite Hc.
  - pose proof (tlsdesc_ie_fields rex modrm Hr Hm) as Hf. cbv zeta in Hf.
    eexists _, _. split; [|exact Hf]. by rewrite Hc.
Qed.

Lemma x86_64_tlsdesc_keeps_register_witness :
  (exists rex' modrm',
    apply (Relax.TlsDescToLocalExec 4) (mkApplyArgs [0xd5; 0x4c; 0x8d; 0x05; 1; 2; 3; 4] 4 0) =
      Ok (mkApplyArgs [0xd5; rex'; 0xc7; modrm'; 0; 0; 0; 0] 4 0) /\
    rm_number 4 rex' modrm' = 24 /\ Z.shiftr modrm' 3 = 0x18 /\ Z.land rex' 8 = 8) /\
  (4 = 3 -> exists rex' modrm',
    apply Relax.TlsDescToInitialExec (mkApplyArgs [0xd5; 0x4c; 0x8d; 0x05; 1; 2; 3; 4] 4 0) =
      Ok (mkApplyArgs [0xd5; rex'; 0x8b; modrm'; 0; 0; 0; 0] 4 0) /\
    reg_number 4 rex' modrm' = 24 /\ Z.land modrm' 0xc7 = 0x05 /\ Z.land rex' 8 = 8).
Proof.
  apply (x86_64_tlsdesc_keeps_register 4 [0xd5] 0x4c 0x8d 0x05 1 2 3 4 [] 0).
  - right. split; reflexivity.
  - split; vm_compute; congruence.
  - split; vm_compute; congruence.
Defined.

(** The x86-64 table is total, and a value its range check accepts is never
    truncated: the [n]-byte field, read back unsigned or signed, is the value. *)
Theorem x86_64_relocation_table_lossless r_type :
  exists o, relocation_from_raw r_type = Ok o /\
    match o with
    | Some info =>
        rki_alignment info = 1 /\ rki_bias info = 0 /\ rki_mask info = None /\
        exists n, rki_size info = RelSize.ByteSize n /\
          (n = 0 \/ n = 1 \/ n = 2 \/ n = 4 \/ n = 8) /\
          forall v, 0 < n -> contains (rki_range info) v = true -> representable n v
    | None => True
    end.
Proof.
  destruct r_type; eexists; (split; [reflexivity|]); try exact I; cbn [rki_alignment rki_bias rki_mask rki_size rki_range];
    (split; [reflexivity|]); (split; [reflexivity|]); (split; [reflexivity|]);
    eexists; (split; [reflexivity|]); (split; [tauto|]);
    intros v Hn Hv; try (exfalso; lia); apply (contains_representable _ _ _ Hv); [lia|vm_compute; congruence..].
Qed.
