(* ===== verification/Reloc.v ===== *)
(** Writing relocations, over all architectures: the [RelocationInstruction] and
    [RelocationKindInfo] methods of [linker-utils/src/elf.rs]. *)
From Stdlib Require Import ZArith Lia.
From stdpp Require Import base list list_numbers numbers strings option.
From S2P Require Import Prelude Bits BitMisc Elf Relaxation AArch64 RiscV64 LoongArch64 Ppc64 X86_64.

Local Open Scope Z_scope.

(** ** RelocationInstruction *)
Definition write_to_value (self : RelocationInstruction) (extracted_value : Z) (negative : bool)
    (dest : list Z) : res (list Z) :=
  match self with
  | RelInsn.AArch64 insn => AArch64.write_to_value insn extracted_value negative dest
  | RelInsn.RiscV insn => RiscV64.write_to_value insn extracted_value negative dest
  | RelInsn.LoongArch64 insn => LoongArch64.write_to_value insn extracted_value negative dest
  | RelInsn.Ppc64 insn => Ppc64.write_to_value insn extracted_value negative dest
  end.

Definition read_value (self : RelocationInstruction) (bytes : list Z) : res (Z * bool) :=
  match self with
  | RelInsn.AArch64 insn => AArch64.read_value insn bytes
  | RelInsn.RiscV insn => RiscV64.read_value insn bytes
  | RelInsn.LoongArch64 insn => LoongArch64.read_value insn bytes
  | RelInsn.Ppc64 insn => Ppc64.read_value insn bytes
  end.

Definition write_windows_size (self : RelocationInstruction) : Z :=
  match self with
  | RelInsn.AArch64 _ | RelInsn.RiscV _ | RelInsn.LoongArch64 _ | RelInsn.Ppc64 _ => 4
  end.

Definition bit_mask (self : RelocationInstruction) (range : BitRange) : res (list Z) :=
  let all_ones := wsub 64 (wshl 64 1 (wsub 32 (br_end range) (br_start range))) 1 in
  mask ← write_to_value self all_ones false [0; 0; 0; 0];
  Ok (map (wnot 8) mask).

(** ** RelocationKindInfo *)
Section WithLeb128.

(** [leb128::write::unsigned] of the [leb128] crate. *)
Variable leb128_write : Z -> list Z.

Definition write_to_buffer (self : RelocationKindInfo) (value : Z) (output : list Z) : res (list Z) :=
  _ ← verify self (signed 64 value);
  match rki_kind self with
  | RelKind.PairSubtractionULEB128 _ =>
      let encoded := leb128_write value in
      if decide (length encoded <= 10)%nat then
        _ ← ensure (bool_decide (length encoded <= length output)%nat)
              "cannot write encoded ULEB128 value of {n} bytes";
        copy_at output 0 encoded
      else Panic
  | _ =>
      match rki_size self with
      | RelSize.ByteSize byte_size =>
          _ ← ensure (byte_size <=? Z.of_nat (length output))
                "Relocation outside of bounds of section";
          value_bytes ← slice (le_bytes 8 value) 0 byte_size;
          copy_at output 0 value_bytes
      | RelSize.BitMasking (mkBitMask insn range) =>
          let extracted_value := extract_bit_range value (br_start range) (br_end range) in
          let negative := signed 64 value <? 0 in
          write_to_value insn extracted_value negative output
      end
  end.

End WithLeb128.

Definition LOW6_MASK : Z := 0x3f.

Definition adjust_value_based_on_content (self : RelocationKindInfo) (value : Z)
    (content : list Z) (offset_in_section : Z) : res Z :=
  match rki_size self with
  | RelSize.BitMasking _ => Err "Unexpected size for the addition/subtraction relocation"
  | RelSize.ByteSize rel_size =>
      data ← slice content offset_in_section (offset_in_section + rel_size);
      read_data ← copy_at (replicate 8 0) 0 data;
      let current_value := le_val read_data in
      let with_low6 v := Z.lor v (Z.land current_value (wnot 64 LOW6_MASK)) in
      match rki_kind self with
      | RelKind.AbsoluteSetWord6 => Ok (with_low6 (Z.land value LOW6_MASK))
      | RelKind.AbsoluteAddition => Ok (wadd 64 current_value value)
      | RelKind.AbsoluteAdditionWord6 =>
          Ok (with_low6
                (Z.land (wadd 64 (Z.land current_value LOW6_MASK) (Z.land value LOW6_MASK)) LOW6_MASK))
      | RelKind.AbsoluteSubtraction => Ok (wsub 64 current_value value)
      | RelKind.AbsoluteSubtractionWord6 =>
          Ok (with_low6
                (Z.land (wsub 64 (Z.land current_value LOW6_MASK) (Z.land value LOW6_MASK)) LOW6_MASK))
      | _ => Err "Unexpected relocation: {self:?}"
      end
  end.

(** The two steps [elf_writer.rs] makes for the kinds that update the content:
    compute the new value from the bytes at the offset, then write it there. *)
Definition update_content (leb128_write : Z -> list Z) (self : RelocationKindInfo) (value : Z)
    (out : list Z) (offset : Z) : res (list Z) :=
  v ← adjust_value_based_on_content self value out offset;
  update_from out offset (write_to_buffer leb128_write self v).

(** ** Specification *)

(** How far the instruction jumps, from the value [read_value] decodes. *)
Definition displacement (i : RelocationInstruction) (value : Z) : Z :=
  match i with
  | RelInsn.AArch64 _ | RelInsn.LoongArch64 _ => 4 * signed 64 value
  | RelInsn.RiscV _ => signed 64 value
  | RelInsn.Ppc64 PPC.Branch24 => signed 26 value
  | RelInsn.Ppc64 _ => signed 16 value
  end.

(** The direct branches and calls of the four instruction-encoded targets. *)
Definition branch_rows : list (res (option RelocationKindInfo)) :=
  [ AArch64.relocation_type_from_raw R_AARCH64_CALL26;
    AArch64.relocation_type_from_raw R_AARCH64_JUMP26;
    AArch64.relocation_type_from_raw R_AARCH64_CONDBR19;
    AArch64.relocation_type_from_raw R_AARCH64_TSTBR14;
    RiscV64.relocation_type_from_raw R_RISCV_BRANCH;
    RiscV64.relocation_type_from_raw R_RISCV_JAL;
    RiscV64.relocation_type_from_raw R_RISCV_RVC_BRANCH;
    RiscV64.relocation_type_from_raw R_RISCV_RVC_JUMP;
    LoongArch64.relocation_type_from_raw R_LARCH_B16;
    LoongArch64.relocation_type_from_raw R_LARCH_B21;
    LoongArch64.relocation_type_from_raw R_LARCH_B26;
    Ppc64.relocation_type_from_raw R_PPC64_REL24;
    Ppc64.relocation_type_from_raw R_PPC64_REL14 ].

(** What the form of a branch row has room for, of the displacements its check accepts: all
    of them, but for [R_LARCH_B16], which names a 12-bit unsigned form. *)
Definition form_holds (i : RelocationInstruction) (v : Z) : Prop :=
  match i with
  | RelInsn.LoongArch64 LA.Shift10 => 0 <= v < 2 ^ 14
  | _ => True
  end.

(** AArch64 branch fields are OR-ed in, so they must start out zero. *)
Definition field_clear (i : RelocationInstruction) (word : Z) : Prop :=
  match i with
  | RelInsn.AArch64 insn => Z.land word (AArch64.field_mask insn) = 0
  | _ => True
  end.

(** The kinds that combine the value with the bytes already there, and the
    resulting word. *)
Definition updates_content (kind : RelocationKind) : bool :=
  match kind with
  | RelKind.AbsoluteSetWord6 | RelKind.AbsoluteAddition | RelKind.AbsoluteAdditionWord6
  | RelKind.AbsoluteSubtraction | RelKind.AbsoluteSubtractionWord6 => true
  | _ => false
  end.

Definition new_content (kind : RelocationKind) (w v : Z) : Z :=
  match kind with
  | RelKind.AbsoluteSetWord6 => w - w mod 64 + v mod 64
  | RelKind.AbsoluteAddition => w + v
  | RelKind.AbsoluteAdditionWord6 => w - w mod 64 + (w + v) mod 64
  | RelKind.AbsoluteSubtraction => w - v
  | RelKind.AbsoluteSubtractionWord6 => w - w mod 64 + (w - v) mod 64
  | _ => w
  end.

(** As many bits as the tables extract for a form. *)
Definition row_width (i : RelocationInstruction) : Z :=
  match i with
  | RelInsn.AArch64 i => AArch64.field_width i
  | RelInsn.RiscV RV.UiType => 64
  | RelInsn.RiscV (RV.CbType | RV.CjType) => 16
  | RelInsn.RiscV _ => 32
  | RelInsn.LoongArch64 i => LoongArch64.value_width i
  | RelInsn.Ppc64 PPC.Branch24 => 26
  | RelInsn.Ppc64 _ => 16
  end.

(** The bits of the first four bytes that [write_to_value] leaves in place. *)
Definition kept_bits (i : RelocationInstruction) : Z :=
  match i with
  | RelInsn.AArch64 i => wrap 32 (Z.lnot (AArch64.field_mask i))
  | RelInsn.RiscV ((RV.CbType | RV.CjType | RV.CluiType) as i) =>
      Z.lor (RiscV64.keep_mask i) 0xFFFF0000
  | RelInsn.RiscV i => RiscV64.keep_mask i
  | RelInsn.LoongArch64 i => LoongArch64.keep_mask i
  | RelInsn.Ppc64 i => wrap 32 (Z.lnot (Ppc64.field_mask i))
  end.

(** Forms that patch two instructions. *)
Definition two_words (i : RelocationInstruction) : bool :=
  match i with
  | RelInsn.RiscV RV.UiType | RelInsn.LoongArch64 (LA.Call30 | LA.Call36) => true
  | _ => false
  end.

(** The forms that add 0x800 before taking the high bits; adding it to all ones
    leaves none. *)
Definition rounded (i : RelocationInstruction) : bool :=
  match i with RelInsn.RiscV (RV.UType | RV.CluiType) => true | _ => false end.

(** The opcode bits that the MOVZ/MOVN form owns and MOVZ has clear. *)
Definition clear_opcode_bits (i : RelocationInstruction) : Z :=
  match i with RelInsn.AArch64 A64.Movnz => 0x2D000000 | _ => 0 end.

(** ** Lemmas *)
Lemma verify_ok info v :
  verify info v = Ok tt ->
  is_multiple_of (wrap 64 v) (rki_alignment info) = true /\ contains (rki_range info) v = true.
Proof.
  unfold verify, ensure, mbind, res_bind.
  destruct (is_multiple_of _ _); [|done]. by destruct (contains _ _).
Qed.

Lemma contains_range lo hi v :
  contains (mkAllowedRange lo hi) v = true -> lo <= v < hi.
Proof. unfold contains. rewrite andb_true_iff, Z.leb_le, Z.ltb_lt. done. Qed.

(** Alignment of the wrapped value is alignment of the value. *)
Lemma is_multiple_of_mod k v :
  0 <= k <= 64 -> is_multiple_of (wrap 64 v) (2 ^ k) = true -> v mod 2 ^ k = 0.
Proof.
  intros Hk. unfold is_multiple_of. rewrite (proj2 (Z.eqb_neq (2 ^ k) 0)) by (apply Z.pow_nonzero; lia).
  rewrite Z.eqb_eq. unfold wrap. intros H. rewrite <- H.
  replace (2 ^ 64) with (2 ^ k * 2 ^ (64 - k)) by (rewrite <- Z.pow_add_r by lia; f_equal; lia).
  rewrite Z.rem_mul_r by (try apply Z.pow_nonzero; try apply Z.pow_pos_nonneg; lia).
  rewrite Z.mul_comm, Z.mod_add, Z.mod_mod by (apply Z.pow_nonzero; lia). done.
Qed.

Lemma mod_land1 v : v mod 2 ^ 1 = 0 -> Z.land (wrap 64 v) 1 = 0.
Proof.
  intros H. change 1 with (Z.ones 1) at 1. rewrite Z.land_ones by lia. unfold wrap.
  Z.to_euclidean_division_equations; lia.
Qed.

Lemma copy_at_prefix out src :
  (length src <= length out)%nat -> copy_at out 0 src = Ok (src ++ drop (length src) out).
Proof. intros. unfold copy_at. by rewrite decide_True by lia. Qed.

Lemma slice_le_bytes n v :
  0 <= n <= 8 -> slice (le_bytes 8 v) 0 n = Ok (le_bytes (Z.to_nat n) v).
Proof.
  intros Hn. unfold slice. rewrite decide_True by (rewrite length_le_bytes; lia).
  rewrite Z.sub_0_r. change (Z.to_nat 0) with 0%nat. by rewrite drop_0, take_le_bytes by lia.
Qed.

Lemma write_to_buffer_masked lw info i s e v buf :
  (rki_kind info = RelKind.Relative \/ rki_kind info = RelKind.PltRelative) ->
  rki_size info = RelSize.BitMasking (mkBitMask i (mkBitRange s e)) ->
  in_i 64 v -> verify info v = Ok tt ->
  write_to_buffer lw info (wrap 64 v) buf =
    write_to_value i (extract_bit_range (wrap 64 v) s e) (v <? 0) buf.
Proof.
  intros Hk Hs Hv Hok. unfold write_to_buffer.
  rewrite signed_wrap_arg, signed_of_signed, Hok, Hs by (done || lia).
  by destruct Hk as [-> | ->].
Qed.

(** *** One lemma per architecture: what a written branch decodes to. *)
Lemma aarch64_branch_decodes i s v neg w rest :
  (i = A64.JumpCall \/ i = A64.Bcond \/ i = A64.TstBr) ->
  s = AArch64.field_width i + 2 -> in_i s v -> v mod 2 ^ 2 = 0 -> in_u 32 w ->
  Z.land w (AArch64.field_mask i) = 0 ->
  exists buf r,
    AArch64.write_to_value i (extract_bit_range (wrap 64 v) 2 s) neg (le_bytes 4 w ++ rest) = Ok buf /\
    AArch64.read_value i buf = Ok r /\ 4 * signed 64 r.1 = v.
Proof.
  intros Hi -> Hv Hm Hw H0. set (n := AArch64.field_width i) in *.
  assert (0 < n < 60) as Hn by (subst n; destruct Hi as [->|[->| ->]]; cbn; lia).
  set (x := extract_bit_range (wrap 64 v) 2 (n + 2)).
  assert (in_u n x) as Hx.
  { subst x. rewrite extract_bit_range_land by (try apply wrap_range; lia).
    rewrite Z.land_ones by lia. replace n with (n + 2 - 2) at 1 by lia. apply wrap_range. lia. }
  do 2 eexists. split; [by apply AArch64.aarch64_write_to_value_word|].
  split; [apply AArch64.aarch64_read_write_word; [by destruct Hi as [->|[->| ->]]|done..]|].
  cbn [fst]. replace (AArch64.read_back i x neg) with (sign_extend x (n - 1))
    by (subst n; by destruct Hi as [->|[->| ->]]).
  rewrite sign_extend_signed by (done || lia).
  rewrite signed_wrap_arg by lia.
  pose proof (extract_signed 2 (n + 2) v ltac:(lia) ltac:(lia) ltac:(lia) Hv Hm) as Hex.
  replace (n + 2 - 2) with n in Hex by lia. fold x in Hex. change (2 ^ 2) with 4 in Hex.
  rewrite signed_of_signed; [lia|lia|].
  pose proof (signed_range n x ltac:(lia)) as [Hl Hu]. unfold in_i.
  assert (2 ^ (n - 1) <= 2 ^ 63) by (apply Z.pow_le_mono_r; lia). lia.
Qed.

Lemma loongarch_branch_decodes i v neg w rest :
  (i = LA.Branch21 \/ i = LA.Branch26) ->
  in_i (LoongArch64.value_width i + 2) v -> v mod 2 ^ 2 = 0 -> in_u 32 w ->
  exists buf r,
    LoongArch64.write_to_value i (extract_bit_range (wrap 64 v) 2 (LoongArch64.value_width i + 2)) neg
      (le_bytes 4 w ++ rest) = Ok buf /\
    LoongArch64.read_value i buf = Ok r /\ 4 * signed 64 r.1 = v.
Proof.
  intros Hi Hv Hm Hw. set (n := LoongArch64.value_width i) in *.
  assert (0 < n < 60) as Hn by (subst n; destruct Hi as [->| ->]; cbn; lia).
  set (x := extract_bit_range (wrap 64 v) 2 (n + 2)).
  assert (in_u n x) as Hx.
  { subst x. rewrite extract_bit_range_land by (try apply wrap_range; lia).
    rewrite Z.land_ones by lia. replace n with (n + 2 - 2) at 1 by lia. apply wrap_range. lia. }
  do 2 eexists.
  split; [pose proof (LoongArch64.loongarch_write_to_value_word i x neg w rest) as Hww;
          replace (LoongArch64.insn_bytes i) with 4%nat in Hww by (by destruct Hi as [->| ->]);
          exact Hww|].
  split; [apply LoongArch64.loongarch_read_write_word; [by destruct Hi as [->| ->]..|done|done]|].
  replace (LoongArch64.read_back i x) with (wrap 64 (signed n x), signed n x <? 0)
    by (subst n; by destruct Hi as [->| ->]).
  cbn [fst]. rewrite signed_wrap_arg by lia.
  pose proof (extract_signed 2 (n + 2) v ltac:(lia) ltac:(lia) ltac:(lia) Hv Hm) as Hex.
  replace (n + 2 - 2) with n in Hex by lia. fold x in Hex. change (2 ^ 2) with 4 in Hex.
  rewrite signed_of_signed; [lia|lia|].
  pose proof (signed_range n x ltac:(lia)) as [Hl Hu]. unfold in_i.
  assert (2 ^ (n - 1) <= 2 ^ 63) by (apply Z.pow_le_mono_r; lia). lia.
Qed.

(** The 16 bits of [R_LARCH_B16] in the 12-bit form: its reader finds the low 12. *)
Lemma loongarch_b16_decodes v neg w rest :
  in_i 18 v -> v mod 2 ^ 2 = 0 -> in_u 32 w ->
  exists buf r,
    LoongArch64.write_to_value LA.Shift10 (extract_bit_range (wrap 64 v) 2 18) neg (le_bytes 4 w ++ rest) = Ok buf /\
    LoongArch64.read_value LA.Shift10 buf = Ok r /\ (4 * signed 64 r.1 = v <-> 0 <= v < 2 ^ 14).
Proof.
  intros Hv Hm Hw. set (x := extract_bit_range (wrap 64 v) 2 18).
  assert (x = Z.land (Z.shiftr (wrap 64 v) 2) (Z.ones 16)) as Hx
    by (apply extract_bit_range_land; [apply wrap_range; lia|done]).
  assert (in_u 16 x) as Hxu by (rewrite Hx, Z.land_ones by lia; apply wrap_range; lia).
  do 2 eexists. split; [exact (LoongArch64.loongarch_write_to_value_word LA.Shift10 x neg w rest)|].
  cbn [LoongArch64.keep_mask LoongArch64.imm_word LoongArch64.insn_bytes LoongArch64.read_value].
  rewrite u32_from_le_bytes by in_range. unfold mbind, res_bind. split; [reflexivity|]. cbn [fst].
  assert (LoongArch64.field (Z.lor (Z.land w 0xFFC003FF) (wrap 32 (wshl 64 x 10))) 10 0xfff = Z.land x 0xfff) as ->
    by (unfold LoongArch64.field; bits).
  assert (4 * Z.land x 0xfff = v mod 2 ^ 14) as Hmod.
  { change 0xfff with (Z.ones 12). rewrite Hx, !Z.land_ones, Z.shiftr_div_pow2 by lia. unfold wrap.
    clear -Hm. change (2 ^ 2) with 4 in *. change (2 ^ 16) with 65536. change (2 ^ 12) with 4096.
    change (2 ^ 14) with 16384. change (2 ^ 64) with 18446744073709551616. Z.div_mod_to_equations. lia. }
  assert (in_u 12 (Z.land x 0xfff)) as Hl by in_range.
  unfold in_u in Hl. rewrite signed_of_signed by (unfold in_i; lia). rewrite Hmod.
  pose proof (Z.mod_pos_bound v (2 ^ 14) ltac:(lia)). split; [lia|]. intros H0. by apply Z.mod_small.
Qed.

Lemma riscv_branch_decodes i v neg w rest :
  RiscV64.branch_form i = true -> in_i (RiscV64.imm_width i) v -> v mod 2 ^ 1 = 0 ->
  in_u (RiscV64.word_bits i) w ->
  exists buf r,
    RiscV64.write_to_value i
      (extract_bit_range (wrap 64 v) 0 (Z.max 16 (RiscV64.word_bits i))) neg
      (le_bytes (RiscV64.insn_bytes i) w ++ rest) = Ok buf /\
    RiscV64.read_value i buf = Ok r /\ signed 64 r.1 = v.
Proof.
  intros Hi Hv Hm Hw. set (e := Z.max 16 (RiscV64.word_bits i)).
  pose proof (wrap_range 64 v ltac:(lia)) as HV.
  assert (in_u 64 (extract_bit_range (wrap 64 v) 0 e)) as Hx.
  { subst e. rewrite extract_bit_range_land; [|done|by destruct i]. by apply in_u_land, in_u_shiftr. }
  do 2 eexists. split; [by apply RiscV64.riscv_write_to_value_word|].
  split; [apply RiscV64.read_single_word; [by destruct i|done..]|]. cbv zeta. cbn [fst].
  rewrite signed_wrap_arg by lia.
  assert (Z.land (extract_bit_range (wrap 64 v) 0 e) (RiscV64.imm_mask i) =
          wrap (RiscV64.imm_width i) (wrap 64 v)) as ->.
  { apply mod_land1 in Hm. rewrite <- (unmasked 64 (wrap 64 v) 1) by done.
    subst e. clear Hx. generalize dependent (wrap 64 v). intros V _ HV.
    destruct i; try done; cbn [RiscV64.imm_mask RiscV64.imm_width];
      unfold RiscV64.word_bits; cbn [RiscV64.insn_bytes];
      change (Z.max 16 (8 * Z.of_nat 4)) with 32; change (Z.max 16 (8 * Z.of_nat 2)) with 16;
      extract_simp; bits. }
  assert (signed (RiscV64.imm_width i) (wrap (RiscV64.imm_width i) (wrap 64 v)) = v) as Hsv.
  { rewrite signed_wrap_arg by (by destruct i). unfold signed.
    assert (wrap (RiscV64.imm_width i) (wrap 64 v) = wrap (RiscV64.imm_width i) v) as Hww.
    { apply Z.bits_inj'; intros k Hk. rewrite !testbit_wrap by (destruct i; cbn; lia).
      repeat case_decide; try done. destruct i; cbn in *; lia. }
    rewrite Hww. apply signed_of_signed; [by destruct i|done]. }
  rewrite Hsv. apply signed_of_signed; [lia|]. destruct Hv as [Hl Hu]. unfold in_i.
  assert (2 ^ (RiscV64.imm_width i - 1) <= 2 ^ 63) by (apply Z.pow_le_mono_r; destruct i; cbn; lia). lia.
Qed.

Lemma ppc64_branch_decodes i v neg w rest :
  let n := match i with PPC.Branch24 => 26 | _ => 16 end in
  (i = PPC.Branch24 \/ i = PPC.Branch14) -> in_i n v -> v mod 2 ^ 2 = 0 -> in_u 32 w ->
  exists buf r,
    Ppc64.write_to_value i (extract_bit_range (wrap 64 v) 0 n) neg (le_bytes 4 w ++ rest) = Ok buf /\
    Ppc64.read_value i buf = Ok r /\ signed n r.1 = v.
Proof.
  intros n Hi Hv Hm Hw. set (x := extract_bit_range (wrap 64 v) 0 n).
  do 2 eexists. split; [by apply Ppc64.ppc64_write_to_value_word|].
  split.
  { unfold Ppc64.read_value. rewrite Ppc64.insn_at_le_bytes by (by apply Ppc64.new_insn_range).
    reflexivity. }
  cbn [fst].
  assert (Z.land (Ppc64.new_insn i x w) (Ppc64.field_mask i) = wrap n (wrap 64 v)) as ->.
  { assert (Z.land (wrap 64 v) 3 = 0) as H3.
    { change 3 with (Z.ones 2) at 1. rewrite Z.land_ones by lia. unfold wrap.
      change (2 ^ 2) with 4 in *. Z.to_euclidean_division_equations; lia. }
    subst x. pose proof (wrap_range 64 v ltac:(lia)) as HV.
    rewrite <- (unmasked 64 (wrap 64 v) 3) by done.
    clear Hv Hm. generalize dependent (wrap 64 v). intros V _ HV.
    unfold Ppc64.new_insn. destruct Hi as [->| ->]; subst n; cbn [Ppc64.field_mask];
      extract_simp; bits. }
  assert (wrap n (wrap 64 v) = wrap n v) as ->.
  { apply Z.bits_inj'; intros k Hk. rewrite !testbit_wrap by (subst n; destruct i; lia).
    repeat case_decide; try done. destruct i; subst n; lia. }
  rewrite signed_wrap_arg by (subst n; by destruct i).
  apply signed_of_signed; [subst n; by destruct i|done].
Qed.

(** A form that holds every displacement. *)
Lemma decodes_holds {A B} (P : A -> Prop) (Q : A -> B -> Prop) (R : B -> Prop) :
  (exists a b, P a /\ Q a b /\ R b) -> exists a b, P a /\ Q a b /\ (R b <-> True).
Proof. intros (a & b & ? & ? & ?). exists a, b. tauto. Qed.

(** ** Theorems *)

(** C32. Direct branches reach their target on AArch64, RISC-V, LoongArch and PowerPC: when
    the range and alignment check of a branch row accepts the displacement, writing it
    succeeds, and the code's own reader decodes the written instruction to exactly that
    displacement; the one exception is LoongArch's [R_LARCH_B16], which names a 12-bit
    form and is read back right if and only if the displacement is in [0, 2^14). On
    AArch64, which ORs the field in, this takes an instruction whose branch field is zero,
    as assemblers leave it; on the others any bytes may be there. *)
Theorem branch_reaches_target lw info i rg v buf :
  Ok (Some info) ∈ branch_rows -> rki_size info = RelSize.BitMasking (mkBitMask i rg) ->
  in_i 64 v -> verify info v = Ok tt ->
  bytes_ok buf -> (4 <= length buf)%nat -> field_clear i (le_val (take 4 buf)) ->
  exists buf' r, write_to_buffer lw info (wrap 64 v) buf = Ok buf' /\
    read_value i buf' = Ok r /\ (displacement i r.1 = v <-> form_holds i v).
Proof.
  intros Hin Hsize Hv Hver Hok Hlen Hclear. destruct rg as [s e].
  destruct (verify_ok _ _ Hver) as [Hm Hr].
  destruct (word_prefix 4 buf Hok Hlen) as [Hw Hd]. change (8 * Z.of_nat 4) with 32 in Hw.
  destruct (word_prefix 2 buf Hok ltac:(lia)) as [Hw2 Hd2]. change (8 * Z.of_nat 2) with 16 in Hw2.
  unfold branch_rows in Hin. rewrite !elem_of_cons, elem_of_nil in Hin.
  repeat destruct Hin as [Hin|Hin]; try done;
    vm_compute in Hin; injection Hin as ->; cbn [rki_size] in Hsize; injection Hsize as <- <- <-;
    cbn [rki_alignment] in Hm; cbn [rki_range] in Hr; apply contains_range in Hr;
    (erewrite write_to_buffer_masked; [|cbn; tauto|reflexivity|done|done]);
    first [apply (is_multiple_of_mod 2) in Hm; [|lia] | apply (is_multiple_of_mod 1) in Hm; [|lia]];
    cbn [write_to_value read_value displacement field_clear form_holds] in *.
  all: first
    [ rewrite Hd; refine (loongarch_b16_decodes v _ _ _ _ _ _); [unfold in_i; cbn; lia|done|done]
    | apply decodes_holds ].
  all: first
    [ rewrite Hd; eapply aarch64_branch_decodes;
      [tauto|reflexivity|unfold in_i; cbn; lia|done|done|done]
    | rewrite Hd; refine (loongarch_branch_decodes _ v _ _ _ _ _ _ _);
      [tauto|unfold in_i; cbn; lia|done|done]
    | rewrite Hd; refine (ppc64_branch_decodes _ v _ _ _ _ _ _ _);
      [tauto|unfold in_i; cbn; lia|done|done]
    | rewrite Hd; refine (riscv_branch_decodes RV.BType v _ _ _ _ _ _ _);
      [done|unfold in_i; cbn; lia|done|done]
    | rewrite Hd; refine (riscv_branch_decodes RV.JType v _ _ _ _ _ _ _);
      [done|unfold in_i; cbn; lia|done|done]
    | rewrite Hd2; refine (riscv_branch_decodes RV.CbType v _ _ _ _ _ _ _);
      [done|unfold in_i; cbn; lia|done|done]
    | rewrite Hd2; refine (riscv_branch_decodes RV.CjType v _ _ _ _ _ _ _);
      [done|unfold in_i; cbn; lia|done|done] ].
Qed.

Lemma branch_reaches_target_witness :
  exists buf' r,
    write_to_buffer (fun _ => []) (mkRelocationKindInfo RelKind.PltRelative
      (bit_mask_aarch64 2 28 A64.JumpCall) None (mkAllowedRange (- 2 ^ 27) (2 ^ 27)) 4 0 true)
      (2 ^ 64 - 8) [0; 0; 0; 0x94] = Ok buf' /\
    read_value (RelInsn.AArch64 A64.JumpCall) buf' = Ok r /\
    (displacement (RelInsn.AArch64 A64.JumpCall) r.1 = -8 <->
      form_holds (RelInsn.AArch64 A64.JumpCall) (-8)).
Proof.
  apply (branch_reaches_target (fun _ => []) (mkRelocationKindInfo RelKind.PltRelative
      (bit_mask_aarch64 2 28 A64.JumpCall) None (mkAllowedRange (- 2 ^ 27) (2 ^ 27)) 4 0 true)
      (RelInsn.AArch64 A64.JumpCall) (mkBitRange 2 28) (-8) [0; 0; 0; 0x94]).
  - left.
  - reflexivity.
  - split; vm_compute; congruence.
  - reflexivity.
  - repeat constructor; vm_compute; congruence.
  - vm_compute; lia.
  - reflexivity.
Defined.

Lemma le_bytes_le_val_pad n w : le_val (le_bytes n w ++ replicate (8 - n) 0) = le_val (le_bytes n w).
Proof.
  assert (forall l k, le_val (l ++ replicate k 0) = le_val l) as H.
  { induction l as [|b l IH]; intros k; cbn; [|by rewrite IH].
    induction k as [|k IHk]; cbn; [done|]. by rewrite IHk. }
  apply H.
Qed.

Lemma land_low6 x : Z.land x LOW6_MASK = x mod 64.
Proof. change LOW6_MASK with (Z.ones 6). by rewrite Z.land_ones by lia. Qed.

Lemma with_low6_arith w x :
  in_u 64 w -> 0 <= x < 64 -> Z.lor x (Z.land w (wnot 64 LOW6_MASK)) = w - w mod 64 + x.
Proof.
  intros Hw Hx.
  assert (Z.land w (wnot 64 LOW6_MASK) = Z.shiftl (Z.shiftr w 6) 6) as -> by (unfold LOW6_MASK; bits).
  rewrite (lor_shiftl_add 6) by (unfold in_u; lia). rewrite Z.shiftr_div_pow2 by lia.
  change (2 ^ 6) with 64. pose proof (Z.div_mod w 64). lia.
Qed.

Lemma adjust_spec info n w v pre post :
  rki_size info = RelSize.ByteSize (Z.of_nat n) -> (n <= 8)%nat ->
  in_u (8 * Z.of_nat n) w -> in_u 64 v -> updates_content (rki_kind info) = true ->
  adjust_value_based_on_content info v (pre ++ le_bytes n w ++ post) (Z.of_nat (length pre)) =
    Ok (wrap 64 (new_content (rki_kind info) w v)).
Proof.
  intros Hs Hn Hw Hv Hk. unfold adjust_value_based_on_content. rewrite Hs.
  assert (slice (pre ++ le_bytes n w ++ post) (Z.of_nat (length pre))
            (Z.of_nat (length pre) + Z.of_nat n) = Ok (le_bytes n w)) as ->.
  { unfold slice. rewrite decide_True by (rewrite !length_app, length_le_bytes; lia).
    rewrite Nat2Z.id, drop_app_length. f_equal.
    rewrite take_app_length'; [done|]. rewrite length_le_bytes. lia. }
  unfold mbind, res_bind.
  rewrite copy_at_prefix by (rewrite length_le_bytes, length_replicate; lia).
  rewrite length_le_bytes, drop_replicate, le_bytes_le_val_pad, le_val_le_bytes.
  rewrite wrap_small by done.
  assert (in_u 64 w) as Hw64 by (eapply in_u_weaken; [exact Hw|lia]).
  destruct Hw64 as [Hwl Hwu]. destruct Hv as [Hvl Hvu].
  assert (forall x, 0 <= x < 64 -> wrap 64 (w - w mod 64 + x) = w - w mod 64 + x) as Hsmall.
  { intros x Hx. apply wrap_small. unfold in_u. Z.to_euclidean_division_equations; lia. }
  destruct (rki_kind info); try done; cbn [new_content]; rewrite ?land_low6;
    try (rewrite with_low6_arith by (unfold in_u; try apply Z.mod_pos_bound; lia));
    try (rewrite Hsmall by (apply Z.mod_pos_bound; lia)); try reflexivity.
  - f_equal. f_equal. unfold wadd, wrap. Z.to_euclidean_division_equations; lia.
  - f_equal. f_equal. unfold wsub, wrap. Z.to_euclidean_division_equations; lia.
Qed.

(** The in-place arithmetic relocations compute what they are named for:
    the [n]-byte word at the offset becomes [w + v], [w - v], or its low six bits are
    replaced, added to or subtracted from (keeping the top two bits of the byte),
    modulo the word size; the bytes around it do not change.  The range check of
    these rows rejects only the value [i64::MAX]. *)
Theorem update_content_spec lw info n w v pre post :
  rki_size info = RelSize.ByteSize (Z.of_nat n) -> (n <= 8)%nat ->
  rki_alignment info = 1 -> rki_range info = no_check ->
  updates_content (rki_kind info) = true ->
  in_u (8 * Z.of_nat n) w -> in_u 64 v ->
  wrap 64 (new_content (rki_kind info) w v) <> 2 ^ 63 - 1 ->
  update_content lw info v (pre ++ le_bytes n w ++ post) (Z.of_nat (length pre)) =
    Ok (pre ++ le_bytes n (new_content (rki_kind info) w v) ++ post).
Proof.
  intros Hs Hn Ha Hr Hk Hw Hv Hmax. unfold update_content.
  rewrite (adjust_spec info n w v pre post) by done. unfold mbind, res_bind.
  set (x := new_content (rki_kind info) w v) in *.
  unfold update_from. rewrite decide_True by (rewrite !length_app; lia).
  rewrite Nat2Z.id, drop_app_length, take_app_length.
  assert (write_to_buffer lw info (wrap 64 x) (le_bytes n w ++ post) = Ok (le_bytes n x ++ post)) as Hwb.
  { pose proof (wrap_range 64 x ltac:(lia)) as Hx.
    unfold write_to_buffer, verify.
    rewrite signed_wrap_arg, signed_wrap, Ha, Hr, Hs by lia.
    unfold is_multiple_of. rewrite Z.mod_1_r. cbn [Z.eqb ensure mbind res_bind].
    assert (contains no_check (signed 64 x) = true) as ->.
    { pose proof (signed_range 64 x ltac:(lia)) as [Hl Hu].
      unfold contains, no_check. cbn [ar_min ar_max]. rewrite andb_true_iff, Z.leb_le, Z.ltb_lt.
      split; [done|]. assert (signed 64 x <> 2 ^ 63 - 1) as Hne; [|change (64 - 1) with 63 in *; lia].
      intros E. apply Hmax. rewrite <- (signed_wrap 64 x), E by lia. done. }
    transitivity (value_bytes ← slice (le_bytes 8 (wrap 64 x)) 0 (Z.of_nat n);
                  copy_at (le_bytes n w ++ post) 0 value_bytes).
    { cbn [ensure]. rewrite (proj2 (Z.leb_le _ _)) by (rewrite length_app, length_le_bytes; lia).
      by destruct (rki_kind info). }
    rewrite slice_le_bytes by lia. rewrite Nat2Z.id. cbn [mbind res_bind].
    rewrite copy_at_prefix by (rewrite length_app, !length_le_bytes; lia).
    rewrite length_le_bytes, drop_app_length' by (by rewrite length_le_bytes). do 2 f_equal.
    rewrite <- (le_bytes_wrap n (wrap 64 x)), <- (le_bytes_wrap n x). f_equal.
    apply Z.bits_inj'; intros i Hi. rewrite !testbit_wrap by lia.
    repeat case_decide; done || lia. }
  by rewrite Hwb.
Qed.

Lemma update_content_spec_witness :
  update_content (fun _ => [])
    (mkRelocationKindInfo RelKind.AbsoluteSubtraction (RelSize.ByteSize 4) None no_check 1 0 false)
    0x1000 ([7] ++ le_bytes 4 0x1234 ++ [8; 9]) 1 = Ok ([7] ++ le_bytes 4 0x234 ++ [8; 9]).
Proof.
  apply (update_content_spec (fun _ => [])
    (mkRelocationKindInfo RelKind.AbsoluteSubtraction (RelSize.ByteSize 4) None no_check 1 0 false)
    4 0x1234 0x1000 [7] [8; 9]); try reflexivity.
  - lia.
  - split; vm_compute; congruence.
  - split; vm_compute; congruence.
  - vm_compute. congruence.
Defined.

(** [bit_mask] is the mask of the bits [write_to_value] keeps for every
    one-instruction form but three: the MOVZ/MOVN form also keeps the opcode bits that
    MOVZ has clear, and the two RISC-V high-part forms, whose rounding turns the
    all-ones probe into zero, report every bit as kept.  The two-instruction forms do
    not fit the four-byte probe and panic. *)
Theorem bit_mask_is_kept_bits i :
  bit_mask i (mkBitRange 0 (row_width i)) =
    if two_words i then Panic
    else Ok (le_bytes 4
      (if rounded i then 0xFFFFFFFF
       else Z.lor (kept_bits i) (clear_opcode_bits i))).
Proof. destruct i as [i|i|i|i]; destruct i; vm_compute; reflexivity. Qed.

(** A ULEB128 pair subtraction is written as the crate encodes it: the value
    can be decoded from the front of the buffer, the rest of the buffer follows, and
    its length does not change; a buffer that is too short is an error. *)
Theorem write_to_buffer_uleb128 lw info r v out :
  rki_kind info = RelKind.PairSubtractionULEB128 r -> verify info (signed 64 v) = Ok tt ->
  (length (lw v) <= 10)%nat ->
  (forall rest, uleb_decode (lw v ++ rest) = Some (v, rest)) ->
  if decide (length (lw v) <= length out)%nat then
    exists out', write_to_buffer lw info v out = Ok out' /\ length out' = length out /\
      uleb_decode out' = Some (v, drop (length (lw v)) out)
  else is_Err (write_to_buffer lw info v out).
Proof.
  intros Hk Hver Hlen Hdec. unfold write_to_buffer. rewrite Hver, Hk. unfold mbind, res_bind.
  rewrite (decide_True (P := (length (lw v) <= 10)%nat)) by done. case_decide as Hfit.
  - rewrite bool_decide_true by done. cbn [ensure]. rewrite copy_at_prefix by done.
    eexists. split; [done|]. rewrite Hdec, length_app, length_drop. split; [lia|done].
  - rewrite bool_decide_false by done. by eexists.
Qed.

Lemma write_to_buffer_uleb128_witness :
  exists out', write_to_buffer (fun v => [v mod 128 + 128; v / 128])
      (mkRelocationKindInfo (RelKind.PairSubtractionULEB128 (RT_RISCV R_RISCV_SET_ULEB128))
        (RelSize.ByteSize 8) None no_check 1 0 false) 300 [0; 0; 7] = Ok out' /\
    length out' = 3%nat /\ uleb_decode out' = Some (300, [7]).
Proof.
  apply (write_to_buffer_uleb128 (fun v => [v mod 128 + 128; v / 128])
    (mkRelocationKindInfo (RelKind.PairSubtractionULEB128 (RT_RISCV R_RISCV_SET_ULEB128))
      (RelSize.ByteSize 8) None no_check 1 0 false) (RT_RISCV R_RISCV_SET_ULEB128) 300 [0; 0; 7]).
  - reflexivity.
  - reflexivity.
  - vm_compute; lia.
  - reflexivity.
Defined.
