(* ===== verification/ValueFlags.v ===== *)
(** Symbol flags: [libjdxld/src/value_flags.rs], with the atomic updates that
    several threads make to one symbol's flags while they scan relocations. *)
From Stdlib Require Import ZArith Lia.
From stdpp Require Import base list list_numbers numbers strings option relations.
From S2P Require Import Prelude Bits BitMisc.

Local Open Scope Z_scope.

(** ** ValueFlags: the 32-bit flag set *)
Definition ABSOLUTE : Z := 2 ^ 0.
Definition DYNAMIC : Z := 2 ^ 1.
Definition IFUNC : Z := 2 ^ 2.
Definition NON_INTERPOSABLE : Z := 2 ^ 3.
Definition DOWNGRADE_TO_LOCAL : Z := 2 ^ 4.
Definition DYNAMIC_FUNCTION : Z := 2 ^ 5.
Definition DIRECT : Z := 2 ^ 6.
Definition GOT : Z := 2 ^ 7.
Definition PLT : Z := 2 ^ 8.
Definition GOT_TLS_MODULE : Z := 2 ^ 9.
Definition GOT_TLS_OFFSET : Z := 2 ^ 10.
Definition GOT_TLS_DESCRIPTOR : Z := 2 ^ 11.
Definition EXPORT_DYNAMIC : Z := 2 ^ 12.
Definition COPY_RELOCATION : Z := 2 ^ 13.
Definition IFUNC_GOT_FOR_ADDRESS : Z := 2 ^ 14.
Definition HAS_RANGE_LIMITED_REL : Z := 2 ^ 15.
Definition HAS_NON_IR_REF : Z := 2 ^ 16.

Definition contains (self other : Z) : bool := Z.land self other =? other.

Definition merge (self other : Z) : Z :=
  if contains other NON_INTERPOSABLE then Z.lor self NON_INTERPOSABLE else self.

Definition RESOLUTION_FLAGS : Z :=
  foldr Z.lor 0 [DIRECT; GOT; PLT; GOT_TLS_MODULE; GOT_TLS_OFFSET; GOT_TLS_DESCRIPTOR;
                 EXPORT_DYNAMIC; COPY_RELOCATION; IFUNC_GOT_FOR_ADDRESS].

Definition resolution_flags (self : Z) : Z := Z.land self RESOLUTION_FLAGS.
Definition has_resolution (self : Z) : bool := negb (resolution_flags self =? 0).

Definition is_dynamic (self : Z) : bool := contains self DYNAMIC.
Definition is_ifunc (self : Z) : bool := contains self IFUNC.
Definition has_link_time_address (self : Z) : bool :=
  negb (contains self IFUNC) && negb (contains self DYNAMIC) && negb (contains self ABSOLUTE).
Definition is_absolute (self : Z) : bool := contains self ABSOLUTE.
Definition is_function (self : Z) : bool := contains self DYNAMIC_FUNCTION.
Definition is_downgraded_to_local (self : Z) : bool := contains self DOWNGRADE_TO_LOCAL.
Definition is_interposable (self : Z) : bool := negb (contains self NON_INTERPOSABLE).
Definition needs_direct (self : Z) : bool := contains self DIRECT.
Definition needs_copy_relocation (self : Z) : bool := contains self COPY_RELOCATION.
Definition needs_export_dynamic (self : Z) : bool := contains self EXPORT_DYNAMIC.
Definition needs_got (self : Z) : bool := contains self GOT.
Definition needs_plt (self : Z) : bool := contains self PLT.
Definition needs_got_tls_offset (self : Z) : bool := contains self GOT_TLS_OFFSET.
Definition needs_got_tls_module (self : Z) : bool := contains self GOT_TLS_MODULE.
Definition needs_got_tls_descriptor (self : Z) : bool := contains self GOT_TLS_DESCRIPTOR.
Definition needs_ifunc_got_for_address (self : Z) : bool := contains self IFUNC_GOT_FOR_ADDRESS.
Definition needs_tls_got (self : Z) : bool :=
  contains self GOT_TLS_OFFSET || contains self GOT_TLS_MODULE || contains self GOT_TLS_DESCRIPTOR.

(** ** AtomicValueFlags::fetch_or, by several threads at once

    A call is about to load, about to do the atomic [fetch_or], or has returned.
    The loads are [Relaxed]: a load may return any value the location has had, so the
    state keeps the location's modification order, newest first; the read-modify-write
    reads the newest. *)
Inductive call :=
| Load (flags : Z)
| FetchOr (flags : Z)
| Returned (flags previous : Z).

Record atomic_state := mkAtomic { history : list Z; calls : list call }.

Definition current (s : atomic_state) : option Z := head (history s).

Inductive fetch_or_step : atomic_state -> atomic_state -> Prop :=
| load_hit s i flags current_bits :
    calls s !! i = Some (Load flags) -> current_bits ∈ history s ->
    contains current_bits flags = true ->
    fetch_or_step s (mkAtomic (history s) (<[i := Returned flags current_bits]> (calls s)))
| load_miss s i flags current_bits :
    calls s !! i = Some (Load flags) -> current_bits ∈ history s ->
    contains current_bits flags = false ->
    fetch_or_step s (mkAtomic (history s) (<[i := FetchOr flags]> (calls s)))
| fetch_or_rmw s i flags previous_bits :
    calls s !! i = Some (FetchOr flags) -> current s = Some previous_bits ->
    fetch_or_step s
      (mkAtomic (Z.lor previous_bits flags :: history s)
                (<[i := Returned flags previous_bits]> (calls s))).

(** ** Specification *)
Definition call_flags (c : call) : Z :=
  match c with Load f | FetchOr f | Returned f _ => f end.

Definition returned (c : call) : bool := match c with Returned _ _ => true | _ => false end.

(** The call returned flags without bit [b], which it was asked to set: it is
    the one that set it. *)
Definition first_setter (b : Z) (c : call) : bool :=
  match c with
  | Returned f previous => Z.testbit f b && negb (Z.testbit previous b)
  | _ => false
  end.

Definition initial (bits : Z) (requests : list Z) : atomic_state :=
  mkAtomic [bits] (map Load requests).

(** Steps a call, and all calls together, can still take. *)
Definition steps_left (c : call) : nat :=
  match c with Load _ => 2 | FetchOr _ => 1 | Returned _ _ => 0 end.

Definition measure (s : atomic_state) : nat := sum_list_with steps_left (calls s).

(** How many calls report having set bit [b]. *)
Definition count (b : Z) (cs : list call) : nat := length (List.filter (first_setter b) cs).

(** ** Lemmas *)
Lemma contains_bits x f b : contains x f = true -> Z.testbit f b = true -> Z.testbit x b = true.
Proof.
  unfold contains. rewrite Z.eqb_eq. intros H Hf. rewrite <- H, Z.land_spec in Hf.
  by apply andb_true_iff in Hf as [? _].
Qed.

Lemma insert_split (cs : list call) i c' c :
  cs !! i = Some c -> <[i := c']> cs = take i cs ++ c' :: drop (S i) cs.
Proof. intros Hi. apply insert_take_drop. by eapply lookup_lt_Some. Qed.

Lemma count_insert b cs i c c' :
  cs !! i = Some c -> first_setter b c = false ->
  count b (<[i := c']> cs) = ((if first_setter b c' then 1 else 0) + count b cs)%nat.
Proof.
  intros Hi Hc. unfold count. rewrite (insert_split cs i c' c Hi).
  rewrite <- (take_drop_middle cs i c Hi) at 3.
  rewrite !List.filter_app, !length_app. cbn [List.filter]. rewrite Hc.
  destruct (first_setter b c'); cbn [length]; lia.
Qed.

Lemma flags_insert cs i c c' :
  cs !! i = Some c -> call_flags c' = call_flags c ->
  map call_flags (<[i := c']> cs) = map call_flags cs.
Proof.
  intros Hi Hc. rewrite (insert_split cs i c' c Hi).
  rewrite <- (take_drop_middle cs i c Hi) at 3.
  rewrite !List.map_app. cbn [map]. by rewrite Hc.
Qed.

Lemma sum_insert cs i c c' :
  cs !! i = Some c ->
  (sum_list_with steps_left (<[i := c']> cs) + steps_left c =
   sum_list_with steps_left cs + steps_left c')%nat.
Proof.
  intros Hi. rewrite (insert_split cs i c' c Hi).
  rewrite <- (take_drop_middle cs i c Hi) at 3.
  rewrite !sum_list_with_app. cbn [sum_list_with]. lia.
Qed.

(** The invariant, bit by bit: [x] is the newest value. *)
Record fetch_or_inv (init : Z) (requests : list Z) (s : atomic_state) (x : Z) : Prop := {
  inv_current : current s = Some x;
  inv_flags : map call_flags (calls s) = requests;
  inv_init : forall b, Z.testbit init b = true -> forall v, v ∈ history s -> Z.testbit v b = true;
  inv_old : forall v b, v ∈ history s -> Z.testbit v b = true -> Z.testbit x b = true;
  inv_source : forall b, Z.testbit x b = true ->
    Z.testbit init b = true \/ exists f, f ∈ requests /\ Z.testbit f b = true;
  inv_returned : forall f p b, Returned f p ∈ calls s -> Z.testbit f b = true -> Z.testbit x b = true;
  inv_count : forall b, count b (calls s) =
    if Z.testbit x b && negb (Z.testbit init b) then 1%nat else 0%nat
}.

Lemma elem_of_insert_cases (cs : list call) i c d :
  d ∈ <[i := c]> cs -> d = c \/ d ∈ cs.
Proof.
  rewrite !list_elem_of_lookup. intros [j Hj]. rewrite list_lookup_insert_Some in Hj.
  destruct Hj as [(_ & -> & _)|(_ & Hj)]; eauto.
Qed.

Lemma fetch_or_inv_initial init requests :
  fetch_or_inv init requests (initial init requests) init.
Proof.
  split; cbn.
  - done.
  - rewrite List.map_map. cbn. apply List.map_id.
  - intros b Hb v Hv%list_elem_of_singleton. by subst.
  - intros v b Hv%list_elem_of_singleton. by subst.
  - auto.
  - intros f p b Hin. apply list_elem_of_fmap in Hin as (? & ? & _). done.
  - intros b. rewrite andb_negb_r. unfold count.
    by induction requests as [|f requests IH].
Qed.

Lemma fetch_or_inv_step init requests s x s' :
  fetch_or_inv init requests s x -> fetch_or_step s s' ->
  exists x', fetch_or_inv init requests s' x'.
Proof.
  intros [Hcur Hfl Hini Hold Hsrc Hret Hcnt] Hstep. destruct Hstep as
    [s i f v Hi Hv Hc|s i f v Hi Hv Hc|s i f v Hi Hv].
  - exists x. split; cbn [calls history]; try done.
    + by erewrite flags_insert.
    + intros g p b [[= -> ->]|Hin]%elem_of_insert_cases Hb; [|by eapply Hret].
      eapply Hold; [exact Hv|]. by eapply contains_bits.
    + intros b. erewrite count_insert by done. rewrite Hcnt. cbn [first_setter].
      destruct (Z.testbit f b) eqn:E; [|done]. by rewrite (contains_bits v f b).
  - exists x. split; cbn [calls history]; try done.
    + by erewrite flags_insert.
    + intros g p b [[=]|Hin]%elem_of_insert_cases. by eapply Hret.
    + intros b. rewrite (count_insert b _ i _ (FetchOr f) Hi) by done. apply Hcnt.
  - assert (v = x) as -> by congruence.
    assert (f ∈ requests) as Hf.
    { rewrite <- Hfl. apply list_elem_of_fmap. exists (FetchOr f). split; [done|].
      by eapply list_elem_of_lookup_2. }
    exists (Z.lor x f). split; cbn [calls history].
    + done.
    + by erewrite flags_insert.
    + intros b Hb w [->|Hw]%elem_of_cons; [|by eapply Hini].
      rewrite Z.lor_spec, (Hini b Hb x); [done|].
      unfold current in Hcur. destruct (history s); [done|]. injection Hcur as ->. by left.
    + intros w b Hw Hb. rewrite Z.lor_spec, orb_true_iff.
      apply elem_of_cons in Hw as [->|Hw]; [by rewrite Z.lor_spec, orb_true_iff in Hb|].
      left. by eapply Hold.
    + intros b Hb. rewrite Z.lor_spec, orb_true_iff in Hb. destruct Hb as [Hb|Hb]; eauto.
    + intros g p b Hin Hb. rewrite Z.lor_spec, orb_true_iff.
      apply elem_of_insert_cases in Hin as [[= -> ->]|Hin]; eauto.
    + intros b. erewrite count_insert by done. rewrite Hcnt, Z.lor_spec. cbn [first_setter].
      destruct (Z.testbit x b) eqn:E; cbn; rewrite ?andb_false_r, ?andb_true_r; cbn; [done|].
      destruct (Z.testbit f b) eqn:E'; cbn; [|done].
      destruct (Z.testbit init b) eqn:E''; [|done].
      assert (Z.testbit x b = true); [|congruence]. eapply Hini; [done|].
      unfold current in Hcur. destruct (history s); [done|]. injection Hcur as ->. by left.
Qed.

Lemma fetch_or_inv_reachable init requests s :
  rtc fetch_or_step (initial init requests) s -> exists x, fetch_or_inv init requests s x.
Proof.
  intros H. remember (initial init requests) as s0 eqn:E0.
  assert (exists x, fetch_or_inv init requests s0 x) as Hinv
    by (subst; eexists; apply fetch_or_inv_initial).
  clear E0. induction H as [|s0 s1 s Hstep _ IH]; [done|].
  apply IH. destruct Hinv as [x Hx]. by eapply fetch_or_inv_step.
Qed.

(** ** Theorems *)

(** C37. However the threads interleave, and whatever stale values their relaxed
    loads return, once all calls have returned the location holds the initial flags
    together with every requested flag, and each newly set flag was reported as
    previously clear to exactly one of the callers that requested it (so the work that
    follows a first request is done exactly once). *)
Theorem fetch_or_linearizable init requests s :
  rtc fetch_or_step (initial init requests) s -> Forall (fun c => returned c = true) (calls s) ->
  exists x, current s = Some x /\
    (forall b, Z.testbit x b = Z.testbit init b || existsb (fun f => Z.testbit f b) requests) /\
    (forall b, length (List.filter (first_setter b) (calls s)) =
       if Z.testbit x b && negb (Z.testbit init b) then 1%nat else 0%nat).
Proof.
  intros Hr Hall. destruct (fetch_or_inv_reachable _ _ _ Hr) as [x Hx].
  exists x. split; [apply Hx|]. split; [|apply Hx]. intros b.
  apply eq_bool_prop_intro. rewrite !Is_true_true, orb_true_iff, List.existsb_exists.
  split.
  - intros Hb. destruct (inv_source _ _ _ _ Hx b Hb) as [?|(f & Hf & ?)]; [by left|].
    right. exists f. split; [by apply list_elem_of_In|done].
  - intros [Hb|(f & Hf & Hb)].
    + eapply (inv_init _ _ _ _ Hx b Hb). pose proof (inv_current _ _ _ _ Hx) as Hc.
      unfold current in Hc. destruct (history s); [done|]. injection Hc as ->. by left.
    + rewrite <- (inv_flags _ _ _ _ Hx) in Hf. apply list_elem_of_In, list_elem_of_fmap in Hf as (c & -> & Hc).
      rewrite Forall_forall in Hall. specialize (Hall c Hc).
      destruct c as [|f|f p]; try done. by eapply (inv_returned _ _ _ _ Hx).
Qed.

Lemma fetch_or_linearizable_witness :
  exists x, current (mkAtomic [0x80; 0x80; 0] [Returned 0x80 0; Returned 0x80 0x80]) = Some x /\
    (forall b, Z.testbit x b = Z.testbit 0 b || existsb (fun f => Z.testbit f b) [0x80; 0x80]) /\
    (forall b, length (List.filter (first_setter b) [Returned 0x80 0; Returned 0x80 0x80]) =
       if Z.testbit x b && negb (Z.testbit 0 b) then 1%nat else 0%nat).
Proof.
  apply (fetch_or_linearizable 0 [0x80; 0x80]
           (mkAtomic [0x80; 0x80; 0] [Returned 0x80 0; Returned 0x80 0x80])).
  - eapply rtc_l; [apply (load_miss _ 0 0x80 0); [reflexivity|left|reflexivity]|].
    eapply rtc_l; [apply (load_miss _ 1 0x80 0); [reflexivity|left|reflexivity]|].
    eapply rtc_l; [apply (fetch_or_rmw _ 0 0x80 0); reflexivity|].
    eapply rtc_l; [apply (fetch_or_rmw _ 1 0x80 0x80); reflexivity|].
    apply rtc_refl.
  - repeat constructor.
Defined.

(** The calls terminate under every schedule: each step uses up some of the at
    most two steps a call has, and as long as a call has not returned some step is
    possible, so every run ends with all calls returned. *)
Theorem fetch_or_terminates init requests s :
  rtc fetch_or_step (initial init requests) s ->
  (forall s', fetch_or_step s s' -> (measure s' < measure s)%nat) /\
  (Forall (fun c => returned c = true) (calls s) \/ exists s', fetch_or_step s s').
Proof.
  intros Hr. split.
  - intros s' Hstep. unfold measure. destruct Hstep as [s i f v Hi _ _|s i f v Hi _ _|s i f v Hi _];
      cbn [calls]; match goal with |- context [<[i := ?c']> _] => pose proof (sum_insert _ i _ c' Hi) as H end;
      cbn [steps_left] in H; lia.
  - destruct (fetch_or_inv_reachable _ _ _ Hr) as [x Hx]. pose proof (inv_current _ _ _ _ Hx) as Hc.
    assert (x ∈ history s) as Hin.
    { unfold current in Hc. destruct (history s); [done|]. injection Hc as ->. by left. }
    destruct (decide (Forall (fun c => returned c = true) (calls s))) as [?|Hn]; [by left|right].
    apply not_Forall_Exists in Hn; [|apply _]. apply Exists_exists in Hn as (c & Hcin & Hc').
    apply list_elem_of_lookup in Hcin as [i Hi].
    destruct c as [f|f|f p]; [|by eexists; eapply fetch_or_rmw|by destruct Hc'].
    destruct (contains x f) eqn:E; eexists; [by eapply load_hit|by eapply load_miss].
Qed.

Lemma fetch_or_terminates_witness :
  (forall s', fetch_or_step (initial 0 [0x80; 0x40]) s' ->
     (measure s' < measure (initial 0 [0x80; 0x40]%Z))%nat) /\
  (Forall (fun c => returned c = true) (calls (initial 0 [0x80; 0x40])) \/
   exists s', fetch_or_step (initial 0 [0x80; 0x40]) s').
Proof. apply (fetch_or_terminates 0 [0x80; 0x40]). apply rtc_refl. Defined.
