(* ===== verification/Symbols.v ===== *)
(** Symbol names and the choice of definitions: [libjdxld/src/symbol_db.rs], with the
    strengths [libjdxld/src/resolution.rs] gives to the symbols of a loaded file.

    Symbols of all files are numbered in load order.  Global names live in hash buckets
    ([SymbolBucket]): the first symbol of a name is entered, later ones become its
    alternatives ([populate_symbol_db]).  Once the files to load are known, every group of
    alternatives picks one definition ([select_symbol]) and redirects the others to it
    ([process_alternatives]).  Buckets are processed by several threads and a hash map is
    read in no particular order, so the effects of a group are also given as a list of
    stores ([group_stores]) whose interleavings the theorems cover.

    What the [object] crate reads from a symbol-table entry is the record
    [SymbolAttributes]; the hash function is a parameter. *)
From Stdlib Require Import ZArith Lia Permutation.
From stdpp Require Import base list list_numbers numbers strings option gmap fin_maps sorting.
From S2P Require Import Prelude Bits BitMisc ValueFlags.

Local Open Scope Z_scope.

(** ** Identifiers *)

(** A file in a group. *)
Definition FileId : Type := Z * Z.

Definition index_file {A} (v : list (list A)) (fid : FileId) : res A :=
  files ← index v fid.1; index files fid.2.

(** [SymbolId::undefined]. *)
Definition undefined_id : Z := 0.

(** [SymbolDb::definition]: two steps through the table of definitions. *)
Definition definition (symbol_definitions : list Z) (symbol_id : Z) : res Z :=
  step1 ← index symbol_definitions symbol_id;
  index symbol_definitions step1.

Definition is_canonical (symbol_definitions : list Z) (symbol_id : Z) : res bool :=
  resolution ← index symbol_definitions symbol_id; Ok (resolution =? symbol_id).

(** ** Strength of a symbol *)
Inductive SymbolStrength := Undefined | Weak | GnuUnique | Strong | Common (size : Z).

#[export] Instance SymbolStrength_eq_dec : EqDecision SymbolStrength.
Proof. solve_decision. Defined.

Inductive Visibility := Default | Protected | Hidden.

#[export] Instance Visibility_eq_dec : EqDecision Visibility.
Proof. solve_decision. Defined.

Definition visibility_rank (v : Visibility) : Z := match v with Default => 0 | Protected => 1 | Hidden => 2 end.
(** [Visibility::max], from the derived order. *)
Definition visibility_max (a b : Visibility) : Visibility :=
  if visibility_rank a <=? visibility_rank b then b else a.

(** What is read from an entry of a symbol table. *)
Record SymbolAttributes := mkAttributes {
  is_weak : bool;
  is_common : bool;
  is_gnu_unique : bool;
  size : Z;
  visibility : Visibility;
  section_is_group : bool            (* its section has [SHF_GROUP] *)
}.

(** [SymbolStrength::of]. *)
Definition strength_of (sym : SymbolAttributes) : SymbolStrength :=
  if is_weak sym then Weak
  else if is_common sym then Common (size sym)
  else if is_gnu_unique sym then GnuUnique
  else Strong.

Inductive ResolvedFile :=
| Object (start_symbol_id : Z) (symbols : list SymbolAttributes)
| Dynamic (start_symbol_id : Z) (symbols : list SymbolAttributes)
| StubLibrary (start_symbol_id num_symbols : Z)   (* those after the first [num_symbols] are weak *)
| OtherFile.                                      (* not loaded, prelude, linker script, synthetic *)

(** A parsed input object, loaded or not. *)
Record SequencedInputObject := mkObject {
  obj_start_symbol_id : Z;
  obj_symbols : list SymbolAttributes;
  obj_is_dynamic : bool
}.

Inductive Group :=
| Objects (files : list SequencedInputObject)
| StubLibraries (files : list (Z * Z))            (* first symbol, number of strong symbols *)
| OtherGroup.                                     (* prelude, linker scripts, synthetic symbols *)

(** The tables of [SymbolDb] and of the resolution phase that are read here. *)
Record Tables := mkTables {
  symbol_file_ids : list FileId;
  groups : list Group;
  resolved : list (list ResolvedFile);
  allow_multiple_definitions : bool
}.

(** [SymbolId::to_input] and the lookup in the file's symbol table. *)
Definition object_symbol (start : Z) (symbols : list SymbolAttributes) (symbol_id : Z) : option SymbolAttributes :=
  symbols !! Z.to_nat (wsub 32 symbol_id start).

Definition object_strength (start : Z) (symbols : list SymbolAttributes) (symbol_id : Z) : SymbolStrength :=
  match object_symbol start symbols symbol_id with
  | Some sym => strength_of sym
  | None => Undefined
  end.

Definition stub_strength (start num_symbols symbol_id : Z) : SymbolStrength :=
  if wsub 32 symbol_id start <? num_symbols then Strong else Weak.

Section Selection.
Context (db : Tables).

Definition symbol_strength (symbol_id : Z) : res SymbolStrength :=
  file_id ← index (symbol_file_ids db) symbol_id;
  file ← index_file (resolved db) file_id;
  Ok (match file with
      | Object start symbols | Dynamic start symbols => object_strength start symbols symbol_id
      | StubLibrary start num_symbols => stub_strength start num_symbols symbol_id
      | OtherFile => Undefined
      end).

Definition is_in_comdat_group (symbol_id : Z) : res bool :=
  file_id ← index (symbol_file_ids db) symbol_id;
  file ← index_file (resolved db) file_id;
  Ok (match file with
      | Object start symbols =>
          match object_symbol start symbols symbol_id with
          | Some sym => section_is_group sym
          | None => false
          end
      | _ => false
      end).

Definition input_symbol_visibility (symbol_id : Z) : res Visibility :=
  file_id ← index (symbol_file_ids db) symbol_id;
  group ← index (groups db) file_id.1;
  match group with
  | Objects files =>
      file ← index files file_id.2;
      Ok (match object_symbol (obj_start_symbol_id file) (obj_symbols file) symbol_id with
          | Some sym => visibility sym
          | None => Default
          end)
  | _ => Ok Default
  end.

(** ** SymbolPrioritySelector *)
Record SymbolPrioritySelector := mkSelector {
  first_strong : option Z;
  max_common : option (Z * Z);       (* size and symbol *)
  first_weak : option Z
}.

Definition new_selector : SymbolPrioritySelector := mkSelector None None None.

Definition consider (self : SymbolPrioritySelector) (id : Z) (strength : SymbolStrength) : SymbolPrioritySelector :=
  match strength with
  | Strong =>
      match first_strong self with
      | None => mkSelector (Some id) (max_common self) (first_weak self)
      | Some _ => self
      end
  | Weak | GnuUnique =>
      match first_weak self with
      | None => mkSelector (first_strong self) (max_common self) (Some id)
      | Some _ => self
      end
  | Common size =>
      match max_common self with
      | Some (prev_size, _) =>
          if size <=? prev_size then self else mkSelector (first_strong self) (Some (size, id)) (first_weak self)
      | None => mkSelector (first_strong self) (Some (size, id)) (first_weak self)
      end
  | Undefined => self
  end.

Definition best (self : SymbolPrioritySelector) : option Z :=
  match first_strong self with
  | Some id => Some id
  | None => match max_common self with Some (_, id) => Some id | None => first_weak self end
  end.

(** ** select_symbol *)

(** The first loop: symbols of shared objects are passed over, and a second strong
    definition is an error unless both are in COMDAT groups. *)
Fixpoint consider_all (flags : list Z) (ids : list Z) (selector : SymbolPrioritySelector) :
    res SymbolPrioritySelector :=
  match ids with
  | [] => Ok selector
  | id :: ids =>
      f ← index flags id;
      if is_dynamic f then consider_all flags ids selector
      else
        strength ← symbol_strength id;
        _ ← (match strength, first_strong selector with
             | Strong, Some existing =>
                 existing_in_group ← is_in_comdat_group existing;
                 in_group ← is_in_comdat_group id;
                 ensure (negb ((negb existing_in_group || negb in_group) && negb (allow_multiple_definitions db)))
                   "{}, defined in {} and {}"
             | _, _ => Ok tt
             end);
        consider_all flags ids (consider selector id strength)
  end.

(** The second loop, over the symbols of shared objects. *)
Fixpoint first_defined (ids : list Z) (first_id : Z) : res Z :=
  match ids with
  | [] => Ok first_id
  | alt :: ids =>
      strength ← symbol_strength alt;
      match strength with Undefined => first_defined ids first_id | _ => Ok alt end
  end.

Definition select_symbol (flags : list Z) (first_id : Z) (alternatives : list Z) : res Z :=
  selector ← consider_all flags (first_id :: alternatives) new_selector;
  match best selector with
  | Some id => Ok id
  | None => first_defined (first_id :: alternatives) first_id
  end.

(** ** process_alternatives *)
Record DbState := mkState {
  definitions : list Z;              (* [symbol_definitions] *)
  flags : list Z;                    (* [per_symbol_flags] *)
  errors : list string
}.

Definition update_definition (to_update new_definition : Z) (s : DbState) : res DbState :=
  d ← index_update (definitions s) to_update (fun _ => new_definition);
  Ok (mkState d (flags s) (errors s)).

Definition or_assign (symbol_id bits : Z) (s : DbState) : res DbState :=
  f ← index_update (flags s) symbol_id (fun f => Z.lor f bits);
  Ok (mkState (definitions s) f (errors s)).

Definition visibility_bits (v : Visibility) : Z :=
  match v with
  | Hidden => Z.lor NON_INTERPOSABLE DOWNGRADE_TO_LOCAL
  | Protected => NON_INTERPOSABLE
  | Default => 0
  end.

Definition handle_non_default_visibility (symbol_id : Z) (v : Visibility) (s : DbState) : res DbState :=
  match v with
  | Default => Ok s
  | _ =>
      f ← index (flags s) symbol_id;
      if contains f DYNAMIC then Ok s else or_assign symbol_id (visibility_bits v) s
  end.

Definition merged_visibility (first : Z) (alternatives : list Z) : res Visibility :=
  v ← input_symbol_visibility first;
  for_each (fun id vis => v ← input_symbol_visibility id; Ok (visibility_max vis v)) alternatives v.

(** The body of the loop, for one group of alternatives. *)
Definition process_group (group : Z * list Z) (s : DbState) : res DbState :=
  let '(first, alternatives) := group in
  v ← merged_visibility first alternatives;
  match select_symbol (flags s) first alternatives with
  | Ok selected =>
      s ← update_definition first selected s;
      s ← for_each (fun alt => update_definition alt selected) alternatives s;
      match v with
      | Default => Ok s
      | _ =>
          s ← handle_non_default_visibility first v s;
          for_each (fun alt => handle_non_default_visibility alt v) alternatives s
      end
  | Err err => Ok (mkState (definitions s) (flags s) (errors s ++ [err]))
  | Panic => Panic
  end.

(** [process_alternatives], over the entries of the map in the order they come. *)
Definition process_alternatives (alternative_definitions : list (Z * list Z)) (s : DbState) : res DbState :=
  for_each process_group alternative_definitions s.

End Selection.

(** ** Names *)
Record SymbolBucket := mkBucket {
  name_to_id : gmap (list Z) Z;
  versioned_name_to_id : gmap (list Z * list Z) Z;
  alternative_definitions : gmap Z (list Z);
  alternative_versioned_definitions : gmap Z (list Z)
}.

Definition empty_bucket : SymbolBucket := mkBucket ∅ ∅ ∅ ∅.

(** [map.entry(key).or_default().push(id)]. *)
Definition push_alternative (key id : Z) (m : gmap Z (list Z)) : gmap Z (list Z) :=
  <[key := default [] (m !! key) ++ [id]]> m.

Definition add_extra_symbol_definition (first_symbol_id new_symbol_id : Z) (self : SymbolBucket) : SymbolBucket :=
  mkBucket (name_to_id self) (versioned_name_to_id self)
    (push_alternative first_symbol_id new_symbol_id (alternative_definitions self))
    (alternative_versioned_definitions self).

Definition add_symbol (pending : Z * list Z) (self : SymbolBucket) : SymbolBucket :=
  let '(symbol_id, name) := pending in
  match name_to_id self !! name with
  | Some first_symbol_id => add_extra_symbol_definition first_symbol_id symbol_id self
  | None =>
      mkBucket (<[name := symbol_id]> (name_to_id self)) (versioned_name_to_id self)
        (alternative_definitions self) (alternative_versioned_definitions self)
  end.

Definition add_versioned_symbol (pending : Z * (list Z * list Z)) (self : SymbolBucket) : SymbolBucket :=
  let '(symbol_id, name) := pending in
  match versioned_name_to_id self !! name with
  | Some first_symbol_id =>
      mkBucket (name_to_id self) (versioned_name_to_id self) (alternative_definitions self)
        (push_alternative first_symbol_id symbol_id (alternative_versioned_definitions self))
  | None =>
      mkBucket (name_to_id self) (<[name := symbol_id]> (versioned_name_to_id self))
        (alternative_definitions self) (alternative_versioned_definitions self)
  end.

(** [PendingSymbolHashBucket], and [SymbolLoadOutputs] as the list of them. *)
Record PendingSymbolHashBucket := mkPending {
  symbols : list (Z * list Z);
  versioned_symbols : list (Z * (list Z * list Z))
}.

Definition SymbolLoadOutputs : Type := list PendingSymbolHashBucket.

Section Names.
Context (hash_bytes : list Z -> Z).

(** [VersionedSymbolName::prehashed]. *)
Definition versioned_hash (name : list Z * list Z) : Z := Z.lxor (hash_bytes name.1) (hash_bytes name.2).

(** [hash as usize % num_buckets]. *)
Definition bucket_index {A} (buckets : list A) (hash : Z) : Z := hash mod Z.of_nat (length buckets).

Definition add_non_versioned (pending : Z * list Z) (outputs : SymbolLoadOutputs) : res SymbolLoadOutputs :=
  index_update outputs (bucket_index outputs (hash_bytes pending.2))
    (fun b => mkPending (symbols b ++ [pending]) (versioned_symbols b)).

Definition add_versioned (pending : Z * (list Z * list Z)) (outputs : SymbolLoadOutputs) : res SymbolLoadOutputs :=
  index_update outputs (bucket_index outputs (versioned_hash pending.2))
    (fun b => mkPending (symbols b) (versioned_symbols b ++ [pending])).

(** *** [SymbolLoader::load_symbols] *)

(** What the loader asks of an entry: the methods of the symbol, its flags
    ([compute_value_flags]), and its name, version and whether it is the default version
    ([get_symbol_name_and_version], which can fail). *)
Record RawSymbolName := mkRawName { raw_name : list Z; is_default : bool; version_name : option (list Z) }.

Record SymtabEntry := mkEntry {
  is_undefined : bool;
  should_ignore : bool;
  is_local : bool;
  is_tls : bool;
  value_flags : Z;
  name_and_version : res RawSymbolName
}.

(** [SymbolWriterShard], over the tables it writes. *)
Record Shard := mkShard {
  resolutions : list Z;
  shard_flags : list Z;
  file_ids : list FileId;
  next : Z
}.

Definition set_next (f resolution : Z) (file_id : FileId) (s : Shard) : Shard :=
  mkShard (resolutions s ++ [resolution]) (shard_flags s ++ [f]) (file_ids s ++ [file_id]) (next s + 1).

Section Loader.
Context (should_downgrade_to_local : list Z -> bool) (downgrades_all : bool).

Definition load_symbol (file_id : FileId) (symbol : SymtabEntry) (state : Shard * SymbolLoadOutputs) :
    res (Shard * SymbolLoadOutputs) :=
  let '(shard, outputs) := state in
  let symbol_id := next shard in
  if is_undefined symbol || should_ignore symbol then
    Ok (set_next (value_flags symbol) undefined_id file_id shard, outputs)
  else if is_local symbol then
    Ok (set_next (value_flags symbol) symbol_id file_id shard, outputs)
  else
    info ← name_and_version symbol;
    let f := value_flags symbol in
    let f :=
      if should_downgrade_to_local (raw_name info) then
        let f := Z.lor f DOWNGRADE_TO_LOCAL in
        if negb downgrades_all && negb (is_tls symbol) then Z.lor f NON_INTERPOSABLE else f
      else f in
    outputs ← (if is_default info then add_non_versioned (symbol_id, raw_name info) outputs else Ok outputs);
    outputs ← (match version_name info with
               | Some version => add_versioned (symbol_id, (raw_name info, version)) outputs
               | None => Ok outputs
               end);
    Ok (set_next f symbol_id file_id shard, outputs).

Definition load_symbols (file_id : FileId) (entries : list SymtabEntry) (state : Shard * SymbolLoadOutputs) :
    res (Shard * SymbolLoadOutputs) :=
  for_each (load_symbol file_id) entries state.

End Loader.

(** *** [populate_symbol_db] *)
Definition populate_bucket (b : Z) (per_group_outputs : list SymbolLoadOutputs) (bucket : SymbolBucket) :
    res SymbolBucket :=
  for_each (fun outputs bucket =>
    pending ← index outputs b;
    let bucket := foldl (fun bucket p => add_symbol p bucket) bucket (symbols pending) in
    Ok (foldl (fun bucket p => add_versioned_symbol p bucket) bucket (versioned_symbols pending)))
  per_group_outputs bucket.

Fixpoint populate_buckets (b : Z) (per_group_outputs : list SymbolLoadOutputs) (buckets : list SymbolBucket) :
    res (list SymbolBucket) :=
  match buckets with
  | [] => Ok []
  | bucket :: buckets =>
      bucket ← populate_bucket b per_group_outputs bucket;
      buckets ← populate_buckets (b + 1) per_group_outputs buckets;
      Ok (bucket :: buckets)
  end.

Definition populate_symbol_db (buckets : list SymbolBucket) (per_group_outputs : list SymbolLoadOutputs) :
    res (list SymbolBucket) :=
  populate_buckets 0 per_group_outputs buckets.

(** *** Lookups *)
Definition get_unversioned (buckets : list SymbolBucket) (name : list Z) : res (option Z) :=
  bucket ← index buckets (bucket_index buckets (hash_bytes name));
  Ok (name_to_id bucket !! name).

Section Lookup.
Context (db : Tables).

(** [SequencedInput::is_dynamic] and [SequencedInput::symbol_strength]. *)
Definition input_is_dynamic (file_id : FileId) : res bool :=
  group ← index (groups db) file_id.1;
  match group with
  | Objects files => file ← index files file_id.2; Ok (obj_is_dynamic file)
  | StubLibraries files => _ ← index files file_id.2; Ok true
  | OtherGroup => Ok false
  end.

Definition input_strength (file_id : FileId) (symbol_id : Z) : res SymbolStrength :=
  group ← index (groups db) file_id.1;
  match group with
  | Objects files =>
      file ← index files file_id.2;
      Ok (object_strength (obj_start_symbol_id file) (obj_symbols file) symbol_id)
  | StubLibraries files => file ← index files file_id.2; Ok (stub_strength file.1 file.2 symbol_id)
  | OtherGroup => Ok Undefined
  end.

(** [SymbolBucket::get_non_dynamic]. *)
Definition get_non_dynamic (self : SymbolBucket) (symbol_id : Z) : res (option Z) :=
  match alternative_definitions self !! symbol_id with
  | None => Ok None
  | Some alternatives =>
      selector ← for_each (fun alt selector =>
        file_id ← index (symbol_file_ids db) alt;
        dynamic ← input_is_dynamic file_id;
        if dynamic : bool then Ok selector
        else strength ← input_strength file_id alt; Ok (consider selector alt strength))
        alternatives new_selector;
      Ok (best selector)
  end.

(** [PreHashedSymbolName]. *)
Inductive SymbolName :=
| Unversioned (name : list Z)
| Versioned (name : list Z * list Z).

(** [SymbolDb::get]. *)
Definition get (buckets : list SymbolBucket) (key : SymbolName) (allow_dynamic : bool) : res (option Z) :=
  '(bucket, found) ← (match key with
                      | Unversioned name =>
                          bucket ← index buckets (bucket_index buckets (hash_bytes name));
                          Ok (bucket, name_to_id bucket !! name)
                      | Versioned name =>
                          bucket ← index buckets (bucket_index buckets (versioned_hash name));
                          Ok (bucket, versioned_name_to_id bucket !! name)
                      end);
  match found with
  | None => Ok None
  | Some symbol_id =>
      if allow_dynamic then Ok (Some symbol_id)
      else
        file_id ← index (symbol_file_ids db) symbol_id;
        dynamic ← input_is_dynamic file_id;
        if dynamic : bool then get_non_dynamic bucket symbol_id else Ok (Some symbol_id)
  end.

(** *** [resolve_alternative_symbol_definitions]

    The maps are drained, whatever their order; the errors are sorted, and the sum of them
    is the error of the link. *)
Definition drain (bucket : SymbolBucket) : SymbolBucket :=
  mkBucket (name_to_id bucket) (versioned_name_to_id bucket) ∅ ∅.

Definition process_bucket (bucket : SymbolBucket) (s : DbState) : res DbState :=
  s ← process_alternatives db (map_to_list (alternative_definitions bucket)) s;
  process_alternatives db (map_to_list (alternative_versioned_definitions bucket)) s.

Definition resolve_alternative_symbol_definitions (buckets : list SymbolBucket) (s : DbState) :
    res (list SymbolBucket * DbState) :=
  s ← for_each process_bucket buckets s;
  match errors s with
  | [] => Ok (map drain buckets, s)
  | _ => Err "Duplicate symbols detected: {error_details}"
  end.

End Lookup.

(** *** [--wrap] *)
Definition override_name (name : list Z) (symbol_id : Z) (buckets : list SymbolBucket) : res (list SymbolBucket) :=
  index_update buckets (bucket_index buckets (hash_bytes name))
    (fun b => mkBucket (<[name := symbol_id]> (name_to_id b)) (versioned_name_to_id b)
                (alternative_definitions b) (alternative_versioned_definitions b)).

(** ["__real_"] and ["__wrap_"]. *)
Definition real_prefix : list Z := [95; 95; 114; 101; 97; 108; 95].
Definition wrap_prefix : list Z := [95; 95; 119; 114; 97; 112; 95].

Definition apply_wrap (name : list Z) (buckets : list SymbolBucket) : res (list SymbolBucket) :=
  real ← get_unversioned buckets (real_prefix ++ name);
  orig_id ← (match real with Some id => Ok (Some id) | None => get_unversioned buckets name end);
  wrap_id ← get_unversioned buckets (wrap_prefix ++ name);
  buckets ← (match wrap_id with Some id => override_name name id buckets | None => Ok buckets end);
  match orig_id with Some id => override_name (real_prefix ++ name) id buckets | None => Ok buckets end.

Definition apply_wrapped_symbol_overrides (wrap : list (list Z)) (buckets : list SymbolBucket) :
    res (list SymbolBucket) :=
  for_each apply_wrap wrap buckets.

End Names.

(** ** Precedence *)
Section Precedence.
Context (db : Tables) (table : list Z) (ids : list Z) (st : Z -> SymbolStrength) (fl : Z -> Z) (grp : Z -> bool).
(** The lookups of the symbols of the group succeed. *)
Hypothesis Hst : forall id, id ∈ ids -> symbol_strength db id = Ok (st id).
Hypothesis Hfl : forall id, id ∈ ids -> index table id = Ok (fl id).
Hypothesis Hgrp : forall id, id ∈ ids -> is_in_comdat_group db id = Ok (grp id).

(** The symbol is not from a shared object. *)
Definition regular (id : Z) : Prop := is_dynamic (fl id) = false.

(** Strong before common before weak; the larger common symbol before the smaller. *)
Definition rank (s : SymbolStrength) : Z :=
  match s with Undefined => 0 | Weak | GnuUnique => 1 | Common _ => 2 | Strong => 3 end.

Definition beats (s t : SymbolStrength) : Prop :=
  rank t < rank s \/ match s, t with Common a, Common b => b < a | _, _ => False end.

(** The symbol at position [i] is the one to take: the earliest of the strongest. *)
Definition preferred (i : nat) (id : Z) : Prop :=
  ids !! i = Some id /\ regular id /\ st id <> Undefined /\
  forall j c, ids !! j = Some c -> regular c -> ~ beats (st c) (st id) /\ ((j < i)%nat -> beats (st id) (st c)).

(** Two strong definitions that are an error: the first one and one among the first [n]
    symbols, not both in COMDAT groups. *)
Definition duplicated_before (n : nat) : Prop :=
  allow_multiple_definitions db = false /\
  exists i j a b, ids !! i = Some a /\ ids !! j = Some b /\ (i < j < n)%nat /\
    regular a /\ st a = Strong /\ (forall k c, (k < i)%nat -> ids !! k = Some c -> ~ (regular c /\ st c = Strong)) /\
    regular b /\ st b = Strong /\ grp a && grp b = false.

Definition duplicated : Prop := duplicated_before (length ids).

(** *** The selector *)
Definition first_with (P : Z -> Prop) (pre : list Z) (o : option Z) : Prop :=
  match o with
  | Some a => exists i, pre !! i = Some a /\ P a /\ forall j b, (j < i)%nat -> pre !! j = Some b -> ~ P b
  | None => forall b, b ∈ pre -> ~ P b
  end.

Definition common_of (n : Z) (a : Z) : Prop := regular a /\ st a = Common n.

Definition largest_common (pre : list Z) (o : option (Z * Z)) : Prop :=
  match o with
  | Some (n, a) => exists i, pre !! i = Some a /\ common_of n a /\
      forall j b m, pre !! j = Some b -> common_of m b -> m <= n /\ ((j < i)%nat -> m < n)
  | None => forall b m, b ∈ pre -> ~ common_of m b
  end.

Definition strong_def (a : Z) : Prop := regular a /\ st a = Strong.
Definition weak_def (a : Z) : Prop := regular a /\ rank (st a) = 1.

Record selector_inv (pre : list Z) (sel : SymbolPrioritySelector) : Prop := {
  si_strong : first_with strong_def pre (first_strong sel);
  si_common : largest_common pre (max_common sel);
  si_weak : first_with weak_def pre (first_weak sel)
}.

Lemma elem_of_snoc {A} (l : list A) x y : y ∈ l ++ [x] -> y ∈ l \/ y = x.
Proof. rewrite elem_of_app, list_elem_of_singleton. done. Qed.

Lemma lookup_snoc_last {A} (l : list A) x : (l ++ [x]) !! length l = Some x.
Proof. by rewrite lookup_app_r, Nat.sub_diag. Qed.

Lemma lookup_snoc_before {A} (l : list A) x i j y z :
  l !! i = Some y -> (j < i)%nat -> (l ++ [x]) !! j = Some z -> l !! j = Some z.
Proof. intros Hi%lookup_lt_Some Hj. by rewrite lookup_app_l by lia. Qed.

Lemma first_with_skip P pre o id : ~ P id \/ is_Some o -> first_with P pre o -> first_with P (pre ++ [id]) o.
Proof.
  intros Hor. destruct o as [a|]; cbn.
  - intros (i & Hi & Ha & Hmin). exists i. split_and!; [by apply lookup_app_l_Some|done|].
    intros j b Hj Hb. apply (Hmin j); [done|]. by eapply lookup_snoc_before.
  - intros H b [Hb| ->]%elem_of_snoc; [by apply H|]. destruct Hor as [?|[? ?]]; done.
Qed.

Lemma first_with_hit (P : Z -> Prop) pre id : P id -> first_with P pre None -> first_with P (pre ++ [id]) (Some id).
Proof.
  intros HP H. exists (length pre). split_and!; [apply lookup_snoc_last|done|].
  intros j b Hj [Hb|[-> ->]]%snoc_lookup; [|lia]. apply H. by eapply list_elem_of_lookup_2.
Qed.

Lemma largest_skip pre o id :
  (forall m, common_of m id -> exists n a, o = Some (n, a) /\ m <= n) ->
  largest_common pre o -> largest_common (pre ++ [id]) o.
Proof.
  intros Hid. destruct o as [[n a]|]; cbn.
  - intros (i & Hi & Ha & Hmax). exists i. split_and!; [by apply lookup_app_l_Some|done|].
    intros j b m [Hb|[-> ->]]%snoc_lookup Hm; [by apply (Hmax j b)|].
    destruct (Hid m Hm) as (n' & a' & [= <- <-] & Hle). split; [done|]. apply lookup_lt_Some in Hi. lia.
  - intros H b m [Hb| ->]%elem_of_snoc; [by apply H|]. intros Hm. by destruct (Hid m Hm) as (? & ? & ? & _).
Qed.

Lemma largest_hit pre o id m :
  common_of m id -> match o with Some (n, _) => n < m | None => True end ->
  largest_common pre o -> largest_common (pre ++ [id]) (Some (m, id)).
Proof.
  intros Hid Ho H. exists (length pre). split_and!; [apply lookup_snoc_last|done|].
  intros j b k [Hb|[-> ->]]%snoc_lookup Hk.
  - destruct o as [[n a]|]; cbn in H.
    + destruct H as (i & _ & _ & Hmax). destruct (Hmax j b k Hb Hk). lia.
    + exfalso. by apply (H b k); [eapply list_elem_of_lookup_2|].
  - destruct Hid as [_ H1], Hk as [_ H2]. rewrite H1 in H2. injection H2 as ->. lia.
Qed.

(** [consider] extends the invariant by the symbol, and a symbol of a shared object or
    without definition changes nothing. *)
Lemma selector_inv_skip pre sel id :
  selector_inv pre sel -> (regular id -> st id = Undefined) -> selector_inv (pre ++ [id]) sel.
Proof.
  intros [H1 H2 H3] Hid. split.
  - apply first_with_skip; [left|done]. intros [Hr Hs]. by rewrite Hid in Hs.
  - apply largest_skip; [|done]. intros m [Hr Hs]. by rewrite Hid in Hs.
  - apply first_with_skip; [left|done]. intros [Hr Hs]. by rewrite Hid in Hs.
Qed.

Lemma selector_inv_consider pre sel id :
  selector_inv pre sel -> regular id -> selector_inv (pre ++ [id]) (consider sel id (st id)).
Proof.
  intros Hinv Hreg. destruct Hinv as [H1 H2 H3].
  assert (forall P o, (P id -> is_Some o) -> first_with P pre o -> first_with P (pre ++ [id]) o) as Hskip.
  { intros P o Hor Hw. apply first_with_skip; [|done]. destruct o; [by right|left]. intros HP.
    by destruct (Hor HP). }
  destruct (st id) as [| | | |n] eqn:Es; cbn [consider].
  - apply selector_inv_skip; [by split|done].
  - destruct (first_weak sel) as [a|] eqn:Ew; split; cbn [first_strong max_common first_weak].
    1,4: apply Hskip; [intros [_ Hs]; congruence|done].
    1,3: apply largest_skip; [intros m [_ Hs]; congruence|done].
    + rewrite Ew. apply Hskip; [by intros _|done].
    + apply first_with_hit; [|done]. split; [done|by rewrite Es].
  - destruct (first_weak sel) as [a|] eqn:Ew; split; cbn [first_strong max_common first_weak].
    1,4: apply Hskip; [intros [_ Hs]; congruence|done].
    1,3: apply largest_skip; [intros m [_ Hs]; congruence|done].
    + rewrite Ew. apply Hskip; [by intros _|done].
    + apply first_with_hit; [|done]. split; [done|by rewrite Es].
  - destruct (first_strong sel) as [a|] eqn:Ew; split; cbn [first_strong max_common first_weak].
    + rewrite Ew. apply Hskip; [by intros _|done].
    + apply largest_skip; [intros m [_ Hs]; congruence|done].
    + apply Hskip; [intros [_ Hs]; rewrite Es in Hs; done|done].
    + by apply first_with_hit.
    + apply largest_skip; [intros m [_ Hs]; congruence|done].
    + apply Hskip; [intros [_ Hs]; rewrite Es in Hs; done|done].
  - assert (common_of n id) as Hn by done.
    destruct (max_common sel) as [[k a]|] eqn:Ew; [destruct (Z.leb_spec n k)|]; split;
      cbn [first_strong max_common first_weak].
    1,4,7: apply Hskip; [intros [_ Hs]; congruence|done].
    2,4,6: apply Hskip; [intros [_ Hs]; rewrite Es in Hs; done|done].
    + rewrite Ew. apply largest_skip; [|done]. intros m [_ Hs]. exists k, a. split; [done|].
      rewrite Es in Hs. by injection Hs as <-.
    + by apply (largest_hit pre (Some (k, a))).
    + by apply (largest_hit pre None).
Qed.

(** What [best] returns. *)
Lemma best_preferred sel :
  selector_inv ids sel ->
  match best sel with
  | Some id => exists i, preferred i id
  | None => forall c, c ∈ ids -> regular c -> st c = Undefined
  end.
Proof.
  intros [H1 H2 H3]. unfold best.
  destruct (first_strong sel) as [a|]; cbn in H1.
  { destruct H1 as (i & Hi & [Ha Hs] & Hmin). exists i. split_and!; [done|done|congruence|].
    intros j c Hc Hr. rewrite Hs. split; [intros [H|H]; destruct (st c); cbn in H; done || lia|].
    intros Hj. left. cbn. pose proof (Hmin j c Hj Hc) as Hn. unfold strong_def in Hn.
    destruct (st c); cbn; try lia. by exfalso; apply Hn. }
  destruct (max_common sel) as [[n a]|]; cbn in H2.
  { destruct H2 as (i & Hi & [Ha Hs] & Hmax). exists i. split_and!; [done|done|congruence|].
    intros j c Hc Hr. assert (st c <> Strong) as Hns.
    { intros E. apply (H1 c); [by eapply list_elem_of_lookup_2|done]. }
    rewrite Hs. split.
    - intros [H|H]; destruct (st c) eqn:E; cbn in H; try done; try lia. destruct (Hmax j c size0 Hc); [done|lia].
    - intros Hj. unfold beats. destruct (st c) eqn:E; cbn; try (left; lia); [done|]. right.
      by apply (Hmax j c size0 Hc). }
  destruct (first_weak sel) as [a|]; cbn in H3.
  { destruct H3 as (i & Hi & [Ha Hs] & Hmin). exists i. split_and!; [done|done| |].
    { intros E. by rewrite E in Hs. }
    intros j c Hc Hr. pose proof (list_elem_of_lookup_2 _ _ _ Hc) as Hin.
    assert (rank (st c) <= 1) as Hle.
    { destruct (st c) eqn:E; cbn; try lia; exfalso; [by apply (H1 c)|by apply (H2 c size0)]. }
    split.
    - intros [H|H]; [lia|]. destruct (st c) eqn:E; cbn in Hle; done || lia.
    - intros Hj. left. pose proof (Hmin j c Hj Hc) as Hn. unfold weak_def in Hn.
      assert (rank (st c) <> 1) by tauto. destruct (st c); cbn in *; lia. }
  intros c Hc Hr. destruct (st c) eqn:E; [done| | | |]; exfalso.
  - apply (H3 c Hc). split; [done|by rewrite E].
  - apply (H3 c Hc). split; [done|by rewrite E].
  - by apply (H1 c Hc).
  - by apply (H2 c size0 Hc).
Qed.

(** *** The loops *)
Lemma duplicated_step n :
  duplicated_before (S n) -> duplicated_before n \/
  (allow_multiple_definitions db = false /\ exists i a b, ids !! i = Some a /\ ids !! n = Some b /\ (i < n)%nat /\
    strong_def a /\ (forall k c, (k < i)%nat -> ids !! k = Some c -> ~ strong_def c) /\
    strong_def b /\ grp a && grp b = false).
Proof.
  intros (Ha & i & j & a & b & H1 & H2 & H3 & H4 & H5 & H6 & H7 & H8 & H9).
  destruct (decide (j = n)) as [->|Hne].
  - right. split; [done|]. exists i, a, b. split_and!; done || lia.
  - left. split; [done|]. exists i, j, a, b. split_and!; done || lia.
Qed.

Lemma duplicated_weaken n m : (n <= m)%nat -> duplicated_before n -> duplicated_before m.
Proof. intros Hle (Ha & i & j & a & b & H1 & H2 & H3 & H4). split; [done|]. exists i, j, a, b. split_and!; try done; lia || apply H4. Qed.

Lemma consider_all_spec rest : forall pre sel,
  ids = pre ++ rest -> selector_inv pre sel -> ~ duplicated_before (length pre) ->
  (duplicated /\ is_Err (consider_all db table rest sel)) \/
  (~ duplicated /\ exists sel', consider_all db table rest sel = Ok sel' /\ selector_inv ids sel').
Proof.
  induction rest as [|id rest IH]; intros pre sel Hids Hinv Hnd.
  - right. rewrite app_nil_r in Hids. unfold duplicated. rewrite Hids in *. split; [done|]. by exists sel.
  - assert (ids = (pre ++ [id]) ++ rest) as Hids' by (by rewrite Hids, <- app_assoc).
    assert (ids !! length pre = Some id) as Hpos by (by rewrite Hids, lookup_app_r, Nat.sub_diag).
    assert (id ∈ ids) as Hin by (by eapply list_elem_of_lookup_2).
    assert (length (pre ++ [id]) = S (length pre)) as Hlen by (rewrite length_app; cbn; lia).
    cbn [consider_all]. rewrite Hfl by done. cbn [mbind res_bind].
    destruct (is_dynamic (fl id)) eqn:Edyn.
    { apply (IH (pre ++ [id])); [done|apply selector_inv_skip; [done|congruence]|]. rewrite Hlen.
      intros [H|(_ & i & a & b & _ & Hb & _ & _ & _ & [Hr _] & _)]%duplicated_step; [done|]. assert (b = id) as -> by congruence.
      unfold regular in Hr. congruence. }
    rewrite Hst by done. cbn [mbind res_bind].
    assert (~ duplicated_before (S (length pre)) ->
      duplicated /\ is_Err (consider_all db table rest (consider sel id (st id))) \/
      ~ duplicated /\ (exists sel', consider_all db table rest (consider sel id (st id)) = Ok sel' /\ selector_inv ids sel')) as Hgo.
    { intros Hnd'. apply (IH (pre ++ [id])); [done|by apply selector_inv_consider|by rewrite Hlen]. }
    pose proof (si_strong _ _ Hinv) as Hfirst.
    assert (forall i a, ids !! i = Some a -> (i < length pre)%nat -> pre !! i = Some a) as Hpre
      by (intros i a Hi Hlt; by rewrite Hids, lookup_app_l in Hi).
    destruct (decide (st id = Strong)) as [Es|Hns]; [rewrite Es in *; destruct (first_strong sel) as [a|] eqn:Ef|]; cbn in Hfirst.
    + destruct Hfirst as (i & Hi & Ha & Hmin). pose proof (lookup_lt_Some _ _ _ Hi) as Hilt.
      assert (ids !! i = Some a) as Hia by (rewrite Hids; by apply lookup_app_l_Some).
      rewrite !Hgrp by (done || by eapply list_elem_of_lookup_2). cbn [mbind res_bind]. unfold ensure.
      assert (forall k c, (k < i)%nat -> ids !! k = Some c -> ~ strong_def c) as Hmin'
        by (intros k c Hk Hc; apply (Hmin k); [done|apply Hpre; [done|lia]]).
      destruct (allow_multiple_definitions db) eqn:Eallow; [|destruct (grp a && grp id) eqn:Eg].
      * rewrite andb_false_r. cbn [negb mbind res_bind]. apply Hgo.
        intros [H|(? & _)]%duplicated_step; [done|congruence].
      * rewrite <- negb_andb, Eg. cbn [negb andb mbind res_bind]. apply Hgo.
        intros [H|(_ & i' & a' & b & Ha' & Hb & Hlt & Hs' & Hmin2 & _ & Hg)]%duplicated_step; [done|].
        assert (b = id) as -> by congruence. assert (i' = i) as ->; [|congruence].
        destruct (Nat.lt_trichotomy i i') as [Hc|[?|Hc]]; [|done|]; exfalso.
        -- by apply (Hmin2 i a).
        -- by apply (Hmin' i' a').
      * rewrite <- negb_andb, Eg. cbn [negb andb mbind res_bind]. left. split; [|by eexists].
        split; [done|]. exists i, (length pre), a, id. destruct Ha. split_and!; try done.
        apply lookup_lt_Some in Hpos. lia.
    + cbn [mbind res_bind]. apply Hgo.
      intros [H|(_ & i' & a' & b & Ha' & Hb & Hlt & Hs' & _)]%duplicated_step; [done|].
      apply (Hfirst a'); [|done]. eapply list_elem_of_lookup_2. by apply Hpre.
    + assert (forall (r : res unit), (match st id, first_strong sel with Strong, Some _ => r | _, _ => Ok tt end) = Ok tt) as Hr.
      { intros r. destruct (st id), (first_strong sel); done. }
      destruct (st id) eqn:Es'; try done; cbn [mbind res_bind]; apply Hgo;
        (intros [H|(_ & i' & a' & b & _ & Hb & _ & _ & _ & [_ Hsb] & _)]%duplicated_step; [done|]; congruence).
Qed.

Lemma first_defined_spec rest first_id : forall pre,
  ids = pre ++ rest -> (forall c, c ∈ pre -> st c = Undefined) ->
  exists id, first_defined db rest first_id = Ok id /\
    ((exists i, ids !! i = Some id /\ st id <> Undefined /\ forall j c, (j < i)%nat -> ids !! j = Some c -> st c = Undefined) \/
     ((forall c, c ∈ ids -> st c = Undefined) /\ id = first_id)).
Proof.
  induction rest as [|alt rest IH]; intros pre Hids Hpre.
  - exists first_id. split; [done|]. right. rewrite app_nil_r in Hids. by subst.
  - assert (ids !! length pre = Some alt) as Hpos by (by rewrite Hids, lookup_app_r, Nat.sub_diag).
    cbn [first_defined]. rewrite Hst by (by eapply list_elem_of_lookup_2). cbn [mbind res_bind].
    assert (st alt = Undefined -> exists id, first_defined db rest first_id = Ok id /\
      ((exists i, ids !! i = Some id /\ st id <> Undefined /\ forall j c, (j < i)%nat -> ids !! j = Some c -> st c = Undefined) \/
       ((forall c, c ∈ ids -> st c = Undefined) /\ id = first_id))) as Hgo.
    { intros Hu. apply (IH (pre ++ [alt])); [by rewrite <- app_assoc|]. intros c [?| ->]%elem_of_snoc; auto. }
    destruct (st alt) eqn:Es; [by apply Hgo|..]; clear Hgo; (exists alt; split; [done|]; left; exists (length pre);
      split_and!; [done|congruence|]; intros j c Hj Hc; apply Hpre; rewrite Hids, lookup_app_l in Hc by done;
      by eapply list_elem_of_lookup_2).
Qed.

(** The definition that a group of symbols of one name is given. *)
Definition chosen (first_id id : Z) : Prop :=
  (exists i, preferred i id) \/
  ((forall c, c ∈ ids -> regular c -> st c = Undefined) /\
   ((exists i, ids !! i = Some id /\ st id <> Undefined /\
       forall j c, (j < i)%nat -> ids !! j = Some c -> st c = Undefined) \/
    ((forall c, c ∈ ids -> st c = Undefined) /\ id = first_id))).

Lemma select_symbol_spec first alternatives :
  ids = first :: alternatives ->
  (duplicated /\ is_Err (select_symbol db table first alternatives)) \/
  (~ duplicated /\ exists id, select_symbol db table first alternatives = Ok id /\ chosen first id).
Proof.
  intros Hids. unfold select_symbol. rewrite <- Hids.
  destruct (consider_all_spec ids [] new_selector eq_refl) as [[Hd [e He]]|[Hnd (sel & Hsel & Hinv)]].
  - split; [intros b|intros b m|intros b]; by intros ?%not_elem_of_nil.
  - intros (_ & i & j & a & b & _ & _ & H & _). cbn in H. lia.
  - left. split; [done|]. rewrite He. by eexists.
  - right. split; [done|]. rewrite Hsel. cbn [mbind res_bind]. pose proof (best_preferred _ Hinv) as Hb.
    destruct (best sel) as [id|].
    + exists id. split; [done|]. by left.
    + destruct (first_defined_spec ids first [] eq_refl) as (id & Hid & Hor); [by intros c H%not_elem_of_nil|].
      exists id. split; [done|]. by right.
Qed.

End Precedence.

(** ** The stores of a group

    What processing a group writes, one atomic operation each: the threads of
    [resolve_alternative_symbol_definitions] interleave them in any way. *)
Inductive store :=
| Define (to_update new_definition : Z)
| Restrict (symbol_id : Z) (v : Visibility).

Definition run_store (st : store) (s : DbState) : res DbState :=
  match st with
  | Define to_update new_definition => update_definition to_update new_definition s
  | Restrict symbol_id v => handle_non_default_visibility symbol_id v s
  end.

Definition group_ids (group : Z * list Z) : list Z := group.1 :: group.2.

Definition group_stores (db : Tables) (table : list Z) (group : Z * list Z) : list store :=
  match merged_visibility db group.1 group.2, select_symbol db table group.1 group.2 with
  | Ok v, Ok selected =>
      map (fun id => Define id selected) (group_ids group) ++
      match v with Default => [] | _ => map (fun id => Restrict id v) (group_ids group) end
  | _, _ => []
  end.

(** *** Effects of stores, by index *)
Lemma index_Ok_lt {A} (l : list A) i x : index l i = Ok x -> 0 <= i < Z.of_nat (length l).
Proof. intros [H1 H2]%index_ok. apply lookup_lt_Some in H2. lia. Qed.

Lemma index_update_Ok {A} (l : list A) i (f : A -> A) l' :
  index_update l i f = Ok l' ->
  length l' = length l /\
  forall j, index l' j = if decide (j = i) then x ← index l i; Ok (f x) else index l j.
Proof.
  intros H. destruct (index_update_ok _ _ _ _ H) as (x & Hx & Hlen & Hi & Hj). split; [done|].
  intros j. case_decide as E; [subst; by rewrite Hx|by apply Hj].
Qed.

Lemma index_eq {A} (l k : list A) : (forall j, index l j = index k j) -> l = k.
Proof.
  intros H. apply list_eq. intros i. specialize (H (Z.of_nat i)). unfold index in H.
  rewrite !decide_True, !Nat2Z.id in H by lia. destruct (l !! i), (k !! i); simplify_eq; done.
Qed.

Lemma visibility_bits_dynamic f v : is_dynamic (Z.lor f (visibility_bits v)) = is_dynamic f.
Proof.
  unfold is_dynamic, contains. rewrite Z.land_lor_distr_l.
  replace (Z.land (visibility_bits v) DYNAMIC) with 0 by (by destruct v). by rewrite Z.lor_0_r.
Qed.

(** What a store of visibility does to the flags of its symbol. *)
Definition restrict (v : Visibility) (f : Z) : Z :=
  if is_dynamic f then f else Z.lor f (visibility_bits v).

Lemma restrict_dynamic v f : is_dynamic (restrict v f) = is_dynamic f.
Proof. unfold restrict. destruct (is_dynamic f) eqn:E; [done|]. by rewrite visibility_bits_dynamic. Qed.

Lemma restrict_twice v f : restrict v (restrict v f) = restrict v f.
Proof.
  unfold restrict at 1. rewrite restrict_dynamic. unfold restrict. destruct (is_dynamic f) eqn:E; [done|].
  by rewrite <- Z.lor_assoc, Z.lor_diag.
Qed.

Lemma restrict_store id v s s' :
  handle_non_default_visibility id v s = Ok s' -> v <> Default ->
  definitions s' = definitions s /\ errors s' = errors s /\ length (flags s') = length (flags s) /\
  forall j, index (flags s') j = if decide (j = id) then f ← index (flags s) id; Ok (restrict v f) else index (flags s) j.
Proof.
  intros H Hv. assert ((f ← index (flags s) id; if contains f DYNAMIC then Ok s else or_assign id (visibility_bits v) s) = Ok s') as H'
    by (destruct v; [done|exact H..]). clear H. destruct (index (flags s) id) as [f| |] eqn:Hf; cbn [mbind res_bind] in *; try done.
  unfold restrict, is_dynamic. destruct (contains f DYNAMIC).
  - injection H' as <-. split_and!; try done. intros j. by case_decide; subst.
  - unfold or_assign in H'. destruct (index_update (flags s) id _) as [l| |] eqn:El; cbn [mbind res_bind] in H'; try done.
    injection H' as <-. destruct (index_update_Ok _ _ _ _ El) as [Hlen Hat]. split_and!; try done.
    intros j. cbn. rewrite Hat, Hf. by case_decide.
Qed.

Lemma define_store id d s s' :
  update_definition id d s = Ok s' ->
  flags s' = flags s /\ errors s' = errors s /\ length (definitions s') = length (definitions s) /\
  is_Ok (index (definitions s) id) /\
  forall j, index (definitions s') j = if decide (j = id) then Ok d else index (definitions s) j.
Proof.
  unfold update_definition. destruct (index_update (definitions s) id _) as [l| |] eqn:El; cbn [mbind res_bind]; try done.
  intros [= <-]. destruct (index_update_ok _ _ _ _ El) as (x & Hx & Hlen & Hi & Hj). split_and!; try done; [by exists x|].
  intros j. case_decide; [by subst|by apply Hj].
Qed.

(** Stores that agree on what they write. *)
Definition consistent (l : list store) : Prop :=
  (forall a d d', Define a d ∈ l -> Define a d' ∈ l -> d = d') /\
  (forall a v v', Restrict a v ∈ l -> Restrict a v' ∈ l -> v = v') /\
  (forall a v, Restrict a v ∈ l -> v <> Default).

(** The state after consistent stores, in any order. *)
Record stored (l : list store) (s s' : DbState) : Prop := {
  sd_length : length (definitions s') = length (definitions s) /\ length (flags s') = length (flags s) /\ errors s' = errors s;
  sd_define a d : Define a d ∈ l -> index (definitions s') a = Ok d;
  sd_keep a : (forall d, Define a d ∉ l) -> index (definitions s') a = index (definitions s) a;
  sd_restrict a v : Restrict a v ∈ l -> index (flags s') a = f ← index (flags s) a; Ok (restrict v f);
  sd_flags a : (forall v, Restrict a v ∉ l) -> index (flags s') a = index (flags s) a
}.

Lemma defines_dec (l : list store) a : (forall d, Define a d ∉ l) \/ exists d, Define a d ∈ l.
Proof.
  induction l as [|x l [IH|[d IH]]]; [left; intros d; apply not_elem_of_nil| |right; exists d; by right].
  destruct x as [b e|b v]; [destruct (decide (b = a)) as [->|Hne]; [right; exists e; by left|]|];
    left; intros d [Heq|Hin]%elem_of_cons; try (by apply (IH d)); congruence.
Qed.

Lemma restricts_dec (l : list store) a : (forall v, Restrict a v ∉ l) \/ exists v, Restrict a v ∈ l.
Proof.
  induction l as [|x l [IH|[v IH]]]; [left; intros v; apply not_elem_of_nil| |right; exists v; by right].
  destruct x as [b e|b w]; [|destruct (decide (b = a)) as [->|Hne]; [right; exists w; by left|]];
    left; intros v [Heq|Hin]%elem_of_cons; try (by apply (IH v)); congruence.
Qed.

Lemma run_stores_stored l : forall s s',
  consistent l -> for_each run_store l s = Ok s' -> stored l s s'.
Proof.
  induction l as [|x l IH]; intros s s' Hc H.
  - injection H as <-. split; try done; intros a d ?%not_elem_of_nil; done.
  - cbn [for_each] in H. destruct (run_store x s) as [s1| |] eqn:E1; cbn [mbind res_bind] in H; try done.
    assert (consistent l) as Hc' by (destruct Hc as (H1 & H2 & H3); split_and!; intros; [eapply H1|eapply H2|eapply H3]; by right).
    destruct (IH s1 s' Hc' H) as [Hlen Hdef Hkeep Hres Hfl].
    pose proof (fun a => defines_dec l a) as Hdec. pose proof (fun a => restricts_dec l a) as Hdec'.
    destruct x as [b e|b w]; cbn [run_store] in E1.
    + destruct (define_store _ _ _ _ E1) as (Hf & He & Hl1 & _ & Hat). rewrite Hf in *.
      split.
      * destruct Hlen as (? & ? & ?). split_and!; congruence.
      * intros a d [[= -> ->]|Hin]%elem_of_cons; [|by apply Hdef].
        destruct (Hdec b) as [Hno|[d' Hd']]; [rewrite (Hkeep b Hno), Hat; by rewrite decide_True|].
        rewrite (Hdef b d' Hd'). f_equal. apply (proj1 Hc b); [by right|by left].
      * intros a Hno. rewrite Hkeep by (intros d Hd; apply (Hno d); by right). rewrite Hat.
        case_decide; [|done]. subst. exfalso. apply (Hno e). by left.
      * intros a v [?|Hin]%elem_of_cons; [done|]. by apply Hres.
      * intros a Hno. apply Hfl. intros v Hv. apply (Hno v). by right.
    + assert (w <> Default) as Hw by (apply (proj2 (proj2 Hc) b); by left).
      destruct (restrict_store _ _ _ _ E1 Hw) as (Hd1 & He & Hl1 & Hat). rewrite Hd1 in *.
      split.
      * destruct Hlen as (? & ? & ?). split_and!; congruence.
      * intros a d [?|Hin]%elem_of_cons; [done|]. by apply Hdef.
      * intros a Hno. apply Hkeep. intros d Hd. apply (Hno d). by right.
      * intros a v [[= -> ->]|Hin]%elem_of_cons.
        -- destruct (Hdec' b) as [Hno|[v' Hv']]; [rewrite (Hfl b Hno), Hat; by rewrite decide_True|].
           assert (v' = w) as -> by (apply (proj1 (proj2 Hc) b); [by right|by left]).
           rewrite (Hres b w Hv'), Hat, decide_True by done. destruct (index (flags s) b); try done.
           cbn. by rewrite restrict_twice.
        -- rewrite (Hres a v Hin), Hat. case_decide; [|done]. subst.
           assert (v = w) as -> by (apply (proj1 (proj2 Hc) b); [by right|by left]).
           destruct (index (flags s) b); try done. cbn. by rewrite restrict_twice.
      * intros a Hno. rewrite Hfl by (intros v Hv; apply (Hno v); by right). rewrite Hat.
        case_decide; [|done]. subst. exfalso. apply (Hno w). by left.
Qed.

(** *** Groups as stores *)
Definition same_dynamic (t t' : list Z) : Prop :=
  forall id, (f ← index t id; Ok (is_dynamic f)) = (f ← index t' id; Ok (is_dynamic f)).

Section Stores.
Context (db : Tables).

Lemma consider_all_ext t t' ids sel : same_dynamic t t' -> consider_all db t ids sel = consider_all db t' ids sel.
Proof.
  intros Hd. revert sel. induction ids as [|id ids IH]; intros sel; [done|]. cbn [consider_all].
  pose proof (Hd id) as H. destruct (index t id) as [f| |], (index t' id) as [f'| |]; cbn [mbind res_bind] in *;
    try congruence. injection H as ->. destruct (is_dynamic f'); [apply IH|].
  destruct (symbol_strength db id); cbn [mbind res_bind]; [|done..].
  match goal with |- (_ ← ?r; _) = _ => destruct r end; cbn [mbind res_bind]; [apply IH|done..].
Qed.

Lemma select_symbol_ext t t' first alts : same_dynamic t t' -> select_symbol db t first alts = select_symbol db t' first alts.
Proof. intros Hd. unfold select_symbol. by rewrite (consider_all_ext t t') by done. Qed.

Lemma group_stores_ext t t' g : same_dynamic t t' -> group_stores db t g = group_stores db t' g.
Proof. intros Hd. unfold group_stores. by rewrite (select_symbol_ext t t') by done. Qed.

Lemma run_store_frame x s s' : run_store x s = Ok s' ->
  same_dynamic (flags s) (flags s') /\ errors s' = errors s /\
  length (definitions s') = length (definitions s) /\ length (flags s') = length (flags s).
Proof.
  destruct x as [b e|b w]; cbn [run_store]; intros H.
  - destruct (define_store _ _ _ _ H) as (Hf & He & Hl & _). rewrite Hf. done.
  - destruct (decide (w = Default)) as [->|Hw]; [injection H as <-; done|].
    destruct (restrict_store _ _ _ _ H Hw) as (Hd & He & Hl & Hat). rewrite Hd. split_and!; try done.
    intros id. rewrite Hat. case_decide; [|done]. subst. destruct (index (flags s) b); cbn; [|done..].
    by rewrite restrict_dynamic.
Qed.

Lemma run_stores_frame l : forall s s', for_each run_store l s = Ok s' ->
  same_dynamic (flags s) (flags s') /\ errors s' = errors s /\
  length (definitions s') = length (definitions s) /\ length (flags s') = length (flags s).
Proof.
  induction l as [|x l IH]; intros s s' H; [injection H as <-; done|]. cbn [for_each] in H.
  destruct (run_store x s) as [s1| |] eqn:E; cbn [mbind res_bind] in H; try done.
  destruct (run_store_frame _ _ _ E) as (H1 & H2 & H3 & H4). destruct (IH _ _ H) as (H5 & H6 & H7 & H8).
  split_and!; [intros id; by rewrite H1|congruence..].
Qed.

(** Processing a group runs its stores, or records the error. *)
Lemma process_group_stores g s s' :
  process_group db g s = Ok s' ->
  (exists e, s' = mkState (definitions s) (flags s) (errors s ++ [e])) \/
  (exists sel, select_symbol db (flags s) g.1 g.2 = Ok sel /\ is_Ok (merged_visibility db g.1 g.2)) /\
  for_each run_store (group_stores db (flags s) g) s = Ok s'.
Proof.
  destruct g as [first alts]. unfold process_group, group_stores. cbn [fst snd].
  destruct (merged_visibility db first alts) as [v| |]; cbn [mbind res_bind]; try done.
  destruct (select_symbol db (flags s) first alts) as [sel|e|] eqn:Es; [|intros [= <-]; left; by exists e|done].
  intros H. right. split; [exists sel; split; [done|by exists v]|].
  rewrite for_each_app. cbn [group_ids fst snd map for_each run_store].
  destruct (update_definition first sel s) as [s1| |]; cbn [mbind res_bind] in *; try done.
  rewrite for_each_map. change (fun x => run_store (Define x sel)) with (fun alt => update_definition alt sel).
  destruct (for_each (fun alt => update_definition alt sel) alts s1) as [s2| |]; cbn [mbind res_bind] in *; try done.
  destruct v; [exact H|..]; cbn [map for_each run_store].
  all: destruct (handle_non_default_visibility first _ s2) as [s3| |]; cbn [mbind res_bind] in *; try done.
  all: rewrite for_each_map; exact H.
Qed.

Lemma process_group_errors g s s' : process_group db g s = Ok s' -> (length (errors s) <= length (errors s'))%nat.
Proof.
  intros [[e ->]|[_ H]]%process_group_stores; [cbn [errors]; rewrite length_app; cbn; lia|].
  destruct (run_stores_frame _ _ _ H) as (_ & -> & _). done.
Qed.

Lemma process_alternatives_errors gs : forall s s',
  process_alternatives db gs s = Ok s' -> (length (errors s) <= length (errors s'))%nat.
Proof.
  unfold process_alternatives. induction gs as [|g gs IH]; intros s s' H; [injection H as <-; done|]. cbn [for_each] in H.
  destruct (process_group db g s) as [s1| |] eqn:E; cbn [mbind res_bind] in H; try done.
  apply process_group_errors in E. apply IH in H. lia.
Qed.

Lemma process_alternatives_stores gs : forall s s',
  process_alternatives db gs s = Ok s' -> errors s' = errors s ->
  for_each run_store (concat (map (group_stores db (flags s)) gs)) s = Ok s' /\
  forall g, g ∈ gs -> exists sel, select_symbol db (flags s) g.1 g.2 = Ok sel /\ is_Ok (merged_visibility db g.1 g.2).
Proof.
  unfold process_alternatives. induction gs as [|g gs IH]; intros s s' H He.
  { split; [done|]. by intros g ?%not_elem_of_nil. }
  cbn [for_each] in H. destruct (process_group db g s) as [s1| |] eqn:E; cbn [mbind res_bind] in H; try done.
  pose proof (process_alternatives_errors gs _ _ H) as Hle.
  destruct (process_group_stores _ _ _ E) as [[e ->]|[Hg Hrun]].
  { cbn in Hle. rewrite He, length_app in Hle. cbn in Hle. lia. }
  destruct (run_stores_frame _ _ _ Hrun) as (Hd & He1 & _). destruct (IH s1 s' H) as [Hrest Hgs]; [congruence|].
  split.
  - cbn [map concat]. rewrite for_each_app, Hrun. cbn [mbind res_bind]. rewrite <- Hrest. f_equal. f_equal.
    apply map_ext. intros g'. by apply group_stores_ext.
  - intros g' [->|Hin]%elem_of_cons; [done|]. destruct (Hgs g' Hin) as (sel & Hs & Hv). exists sel.
    split; [|done]. by rewrite (select_symbol_ext _ (flags s1)).
Qed.

Lemma elem_of_group_stores t g x : x ∈ group_stores db t g ->
  exists v sel, merged_visibility db g.1 g.2 = Ok v /\ select_symbol db t g.1 g.2 = Ok sel /\
    ((exists a, a ∈ group_ids g /\ x = Define a sel) \/ (exists a, a ∈ group_ids g /\ v <> Default /\ x = Restrict a v)).
Proof.
  unfold group_stores. destruct (merged_visibility db g.1 g.2) as [v| |]; try by intros ?%not_elem_of_nil.
  destruct (select_symbol db t g.1 g.2) as [sel| |]; try by intros ?%not_elem_of_nil.
  intros [H|H]%elem_of_app; exists v, sel; (split; [done|split; [done|]]).
  - left. apply list_elem_of_In, in_map_iff in H as (a & <- & Ha%list_elem_of_In). by exists a.
  - right. destruct (decide (v = Default)) as [->|Hv]; [by apply not_elem_of_nil in H|].
    assert (x ∈ map (fun id => Restrict id v) (group_ids g)) as H' by (by destruct v).
    apply list_elem_of_In, in_map_iff in H' as (a & <- & Ha%list_elem_of_In). by exists a.
Qed.

(** No symbol is in two groups. *)
Definition disjoint_groups (gs : list (Z * list Z)) : Prop := NoDup (concat (map group_ids gs)).

Lemma disjoint_groups_unique gs g g' a :
  disjoint_groups gs -> g ∈ gs -> g' ∈ gs -> a ∈ group_ids g -> a ∈ group_ids g' -> g = g'.
Proof.
  unfold disjoint_groups. induction gs as [|h gs IH]; cbn [map concat]; intros Hnd Hg Hg' Ha Ha'; [by apply not_elem_of_nil in Hg|].
  apply NoDup_app in Hnd as (_ & Hdis & Hnd).
  apply elem_of_cons in Hg as [->|Hg], Hg' as [->|Hg'].
  - done.
  - exfalso. apply (Hdis a Ha). apply elem_of_concat_map. by exists g'.
  - exfalso. apply (Hdis a Ha'). apply elem_of_concat_map. by exists g.
  - by apply IH.
Qed.

Lemma group_stores_consistent t gs : disjoint_groups gs -> consistent (concat (map (group_stores db t) gs)).
Proof.
  intros Hnd. split_and!.
  - intros a d d' (g & Hg & (v & sel & _ & Hs & [(b & Hb & [= -> ->])|(b & _ & _ & [=])])%elem_of_group_stores)%elem_of_concat_map
      (g' & Hg' & (v' & sel' & _ & Hs' & [(b' & Hb' & [= -> ->])|(b' & _ & _ & [=])])%elem_of_group_stores)%elem_of_concat_map.
    assert (g = g') as <- by (by apply (disjoint_groups_unique gs _ _ b')). congruence.
  - intros a d d' (g & Hg & (v & sel & Hv & _ & [(b & _ & [=])|(b & Hb & _ & [= -> ->])])%elem_of_group_stores)%elem_of_concat_map
      (g' & Hg' & (v' & sel' & Hv' & _ & [(b' & _ & [=])|(b' & Hb' & _ & [= -> ->])])%elem_of_group_stores)%elem_of_concat_map.
    assert (g = g') as <- by (by apply (disjoint_groups_unique gs _ _ b')). congruence.
  - intros a w (g & Hg & (v & sel & _ & _ & [(b & _ & [=])|(b & _ & Hv & [= -> ->])])%elem_of_group_stores)%elem_of_concat_map.
    done.
Qed.

(** *** Any order of the stores *)
Definition store_in_range (s : DbState) (x : store) : Prop :=
  match x with
  | Define a _ => 0 <= a < Z.of_nat (length (definitions s))
  | Restrict a v => v = Default \/ 0 <= a < Z.of_nat (length (flags s))
  end.

Lemma index_in_range {A} (l : list A) i : 0 <= i < Z.of_nat (length l) -> exists x, index l i = Ok x.
Proof.
  intros H. unfold index. rewrite decide_True by lia. destruct (l !! Z.to_nat i) as [x|] eqn:E; [by exists x|].
  apply lookup_ge_None in E. lia.
Qed.

Lemma run_store_in_range x s : (exists s', run_store x s = Ok s') <-> store_in_range s x.
Proof.
  destruct x as [b e|b w]; cbn [run_store store_in_range].
  - split.
    + intros [s' H]. by destruct (define_store _ _ _ _ H) as (_ & _ & _ & [y Hy%index_Ok_lt] & _).
    + intros [y Hy]%index_in_range. unfold update_definition, index_update. rewrite Hy. by eexists.
  - destruct w; [split; [by left|by eexists]|..].
    all: split; [intros [s' H]; right; cbn in H; destruct (index (flags s) b) as [y| |] eqn:Hy; try done; by apply index_Ok_lt in Hy
                |intros [?|[y Hy]%index_in_range]; [done|]; cbn; rewrite Hy; cbn [mbind res_bind];
                 destruct (contains y DYNAMIC); [by eexists|]; unfold or_assign, index_update; rewrite Hy; by eexists].
Qed.

Lemma run_stores_in_range l : forall s,
  (exists s', for_each run_store l s = Ok s') <-> Forall (store_in_range s) l.
Proof.
  induction l as [|x l IH]; intros s; [split; [constructor|by eexists]|]. cbn [for_each]. rewrite Forall_cons, <- run_store_in_range.
  assert (forall s1, run_store x s = Ok s1 -> Forall (store_in_range s1) l <-> Forall (store_in_range s) l) as Hsame.
  { intros s1 H1. destruct (run_store_frame _ _ _ H1) as (_ & _ & Hd & Hf).
    apply Forall_iff. intros [a d|a v]; cbn; by rewrite ?Hd, ?Hf. }
  split.
  - intros [s' H]. destruct (run_store x s) as [s1| |] eqn:E; cbn [mbind res_bind] in H; try done.
    split; [by exists s1|]. apply (Hsame s1 eq_refl), IH. by exists s'.
  - intros [[s1 H1] Hl]. rewrite H1. cbn [mbind res_bind]. apply IH. by apply (Hsame s1).
Qed.

Lemma consistent_perm l k : l ≡ₚ k -> consistent l -> consistent k.
Proof.
  intros Hp (H1 & H2 & H3). split_and!.
  - intros a d d'. rewrite <- !Hp. apply H1.
  - intros a v v'. rewrite <- !Hp. apply H2.
  - intros a v. rewrite <- Hp. apply H3.
Qed.

(** Consistent stores end in the same state in every order. *)
Lemma stores_commute l k s s' :
  consistent l -> l ≡ₚ k -> for_each run_store l s = Ok s' -> for_each run_store k s = Ok s'.
Proof.
  intros Hc Hp H. assert (Forall (store_in_range s) k) as Hk by (rewrite <- Hp; apply run_stores_in_range; by exists s').
  apply run_stores_in_range in Hk as [s2 H2]. rewrite H2. f_equal.
  pose proof (run_stores_stored l s s' Hc H) as S1. pose proof (run_stores_stored k s s2 (consistent_perm _ _ Hp Hc) H2) as S2.
  destruct (sd_length _ _ _ S1) as (_ & _ & He1), (sd_length _ _ _ S2) as (_ & _ & He2).
  assert (definitions s2 = definitions s') as Hd.
  { apply index_eq. intros a. destruct (defines_dec l a) as [Hno|[d Hd]].
    - rewrite (sd_keep _ _ _ S1) by done. apply (sd_keep _ _ _ S2). intros d. by rewrite <- Hp.
    - rewrite (sd_define _ _ _ S1 a d Hd). apply (sd_define _ _ _ S2). by rewrite <- Hp. }
  assert (flags s2 = flags s') as Hf.
  { apply index_eq. intros a. destruct (restricts_dec l a) as [Hno|[v Hv]].
    - rewrite (sd_flags _ _ _ S1) by done. apply (sd_flags _ _ _ S2). intros v. by rewrite <- Hp.
    - rewrite (sd_restrict _ _ _ S1 a v Hv). apply (sd_restrict _ _ _ S2). by rewrite <- Hp. }
  destruct s', s2; cbn in *; congruence.
Qed.

End Stores.

(** ** What resolution promises *)

(** The definitions after the groups have been processed. *)
Lemma process_alternatives_definitions db gs s s' :
  disjoint_groups gs -> process_alternatives db gs s = Ok s' -> errors s' = errors s ->
  (forall g, g ∈ gs -> exists sel, select_symbol db (flags s) g.1 g.2 = Ok sel /\
     forall id, id ∈ group_ids g -> index (definitions s') id = Ok sel) /\
  (forall id, (forall g, g ∈ gs -> id ∉ group_ids g) -> index (definitions s') id = index (definitions s) id).
Proof.
  intros Hnd H He. destruct (process_alternatives_stores db gs s s' H He) as [Hrun Hgs].
  pose proof (run_stores_stored _ _ _ (group_stores_consistent db (flags s) gs Hnd) Hrun) as Hst. split.
  - intros g Hg. destruct (Hgs g Hg) as (sel & Hsel & v & Hv). exists sel. split; [done|]. intros id Hid.
    apply (sd_define _ _ _ Hst). apply elem_of_concat_map. exists g. split; [done|]. unfold group_stores.
    rewrite Hv, Hsel. apply elem_of_app. left. apply list_elem_of_In, in_map_iff. exists id.
    split; [done|by apply list_elem_of_In].
  - intros id Hno. apply (sd_keep _ _ _ Hst). intros d Hd%elem_of_concat_map. destruct Hd as (g & Hg & Hd).
    apply elem_of_group_stores in Hd as (v & sel & _ & _ & [(a & Ha & [= -> ->])|(a & _ & _ & [=])]).
    by apply (Hno g).
Qed.

(** *** Names in buckets *)
Section Populate.
Context (hash_bytes : list Z -> Z).

(** The symbols of a name, in load order. *)
Definition ids_of (name : list Z) (l : list (Z * list Z)) : list Z :=
  (filter (fun p => p.2 = name) l).*1.

Lemma ids_of_app name l k : ids_of name (l ++ k) = ids_of name l ++ ids_of name k.
Proof. unfold ids_of. by rewrite filter_app, fmap_app. Qed.

Lemma ids_of_one name p : ids_of name [p] = if decide (p.2 = name) then [p.1] else [].
Proof. unfold ids_of. rewrite filter_cons, filter_nil. by case_decide. Qed.

Lemma elem_of_ids_of name l id : id ∈ ids_of name l <-> (id, name) ∈ l.
Proof.
  unfold ids_of. rewrite list_elem_of_fmap. split.
  - intros ([i n] & -> & [Hn Hin]%list_elem_of_filter). cbn in *. by subst.
  - intros H. exists (id, name). split; [done|]. by apply list_elem_of_filter.
Qed.

Lemma ids_of_nodup name l : NoDup l.*1 -> NoDup (ids_of name l).
Proof.
  intros H. unfold ids_of. eapply sublist_NoDup; [exact H|]. apply fmap_sublist, sublist_filter.
Qed.

(** The bucket after the symbols [l]. *)
Record bucket_inv (l : list (Z * list Z)) (b : SymbolBucket) : Prop := {
  bi_name name : name_to_id b !! name = head (ids_of name l);
  bi_alternatives first alts : alternative_definitions b !! first = Some alts <->
    alts <> [] /\ exists name, ids_of name l = first :: alts
}.

Lemma bucket_inv_empty : bucket_inv [] empty_bucket.
Proof.
  split; [done|]. intros first alts. cbn. rewrite lookup_empty. split; [done|]. by intros [_ [name [=]]].
Qed.

Lemma bucket_inv_name l b p : bucket_inv l b -> NoDup (l ++ [p]).*1 -> bucket_inv (l ++ [p]) (add_symbol p b).
Proof.
  destruct p as [id name]. intros Hb Hnd. unfold add_symbol. rewrite (bi_name _ _ Hb).
  assert (forall n, ids_of n (l ++ [(id, name)]) = ids_of n l ++ if decide (name = n) then [id] else []) as Hids.
  { intros n. by rewrite ids_of_app, ids_of_one. }
  assert (forall n first rest, ids_of n l = first :: rest -> forall n' rest', ids_of n' l = first :: rest' -> n = n') as Huniq.
  { intros n first rest H n' rest' H'.
    assert ((first, n) ∈ l) as H1 by (apply elem_of_ids_of; rewrite H; by left).
    assert ((first, n') ∈ l) as H2 by (apply elem_of_ids_of; rewrite H'; by left).
    rewrite fmap_app in Hnd. apply NoDup_app in Hnd as [Hnd _].
    apply list_elem_of_lookup in H1 as [i1 H1], H2 as [i2 H2].
    assert (i1 = i2) as ->; [|congruence]. apply (NoDup_lookup _ _ _ first Hnd); rewrite list_lookup_fmap; by rewrite ?H1, ?H2. }
  destruct (ids_of name l) as [|first rest] eqn:E; cbn [head].
  - split.
    + intros n. cbn [name_to_id]. rewrite Hids. destruct (decide (name = n)) as [->|Hne].
      * by rewrite lookup_insert_eq, E.
      * by rewrite lookup_insert_ne, app_nil_r, (bi_name _ _ Hb).
    + intros f alts. cbn [alternative_definitions]. rewrite (bi_alternatives _ _ Hb). split; intros [Hne [n Hn]]; (split; [done|]).
      * exists n. rewrite Hids. case_decide; [|by rewrite app_nil_r]. subst. congruence.
      * exists n. rewrite Hids in Hn. case_decide; [|by rewrite app_nil_r in Hn]. subst. rewrite E in Hn. cbn in Hn. congruence.
  - split.
    + intros n. cbn. rewrite Hids, (bi_name _ _ Hb). case_decide; [|by rewrite app_nil_r]. subst. by rewrite E.
    + intros f alts. cbn [alternative_definitions add_extra_symbol_definition]. unfold push_alternative.
      assert (default [] (alternative_definitions b !! first) = rest) as ->.
      { destruct (alternative_definitions b !! first) as [k|] eqn:Ek; cbn.
        - apply (bi_alternatives _ _ Hb) in Ek as [_ [n Hn]]. assert (n = name) as -> by (by eapply Huniq). congruence.
        - destruct rest as [|x rest]; [done|]. assert (alternative_definitions b !! first = Some (x :: rest)); [|congruence].
          apply (bi_alternatives _ _ Hb). split; [done|by exists name]. }
      destruct (decide (f = first)) as [->|Hne].
      * rewrite lookup_insert_eq. split.
        -- intros [= <-]. split; [by destruct rest|]. exists name. by rewrite Hids, decide_True, E.
        -- intros [Hne [n Hn]]. rewrite Hids in Hn. case_decide as En.
           ++ subst. rewrite E in Hn. cbn in Hn. congruence.
           ++ rewrite app_nil_r in Hn. exfalso. apply En. by eapply Huniq.
      * rewrite lookup_insert_ne by done. rewrite (bi_alternatives _ _ Hb). split; intros [Hne' [n Hn]]; (split; [done|]); exists n.
        -- rewrite Hids. case_decide; [|by rewrite app_nil_r]. subst. congruence.
        -- rewrite Hids in Hn. case_decide; [|by rewrite app_nil_r in Hn]. subst. rewrite E in Hn. cbn in Hn. congruence.
Qed.

Lemma bucket_inv_foldl k : forall l b, bucket_inv l b -> NoDup (l ++ k).*1 ->
  bucket_inv (l ++ k) (foldl (fun b p => add_symbol p b) b k) /\
  versioned_name_to_id (foldl (fun b p => add_symbol p b) b k) = versioned_name_to_id b /\
  alternative_versioned_definitions (foldl (fun b p => add_symbol p b) b k) = alternative_versioned_definitions b.
Proof.
  induction k as [|p k IH]; intros l b Hb Hnd; [by rewrite app_nil_r|].
  replace (l ++ p :: k) with ((l ++ [p]) ++ k) in * by (by rewrite <- app_assoc). cbn [foldl].
  destruct (IH (l ++ [p]) (add_symbol p b)) as (H1 & H2 & H3); [apply bucket_inv_name; [done|]|done|].
  - rewrite fmap_app in Hnd. by apply NoDup_app in Hnd as [Hnd _].
  - split; [done|]. rewrite H2, H3. destruct p as [id name]. unfold add_symbol. by destruct (name_to_id b !! name).
Qed.

(** The names of one bucket. *)
Definition in_bucket (n : nat) (b : Z) (p : Z * list Z) : Prop := hash_bytes p.2 mod Z.of_nat n = b.

#[global] Instance in_bucket_dec n b p : Decision (in_bucket n b p).
Proof. unfold in_bucket. apply _. Defined.

Lemma add_non_versioned_spec l : forall outs, (0 < length outs)%nat ->
  exists outs', for_each (add_non_versioned hash_bytes) l outs = Ok outs' /\ length outs' = length outs /\
    forall b x, index outs b = Ok x ->
      index outs' b = Ok (mkPending (symbols x ++ filter (in_bucket (length outs) b) l) (versioned_symbols x)).
Proof.
  induction l as [|p l IH]; intros outs Hlen.
  - exists outs. split_and!; [done..|]. intros b x Hx. rewrite filter_nil, app_nil_r. by destruct x.
  - cbn [for_each].
    assert (0 <= bucket_index outs (hash_bytes p.2) < Z.of_nat (length outs)) as Hr by (apply Z.mod_pos_bound; lia).
    destruct (index_in_range outs _ Hr) as [x Hx].
    assert (exists outs1, add_non_versioned hash_bytes p outs = Ok outs1) as [outs1 H1]
      by (unfold add_non_versioned, index_update; rewrite Hx; by eexists).
    rewrite H1. cbn [mbind res_bind]. destruct (index_update_Ok _ _ _ _ H1) as [Hl1 Hat].
    destruct (IH outs1) as (outs' & Hf & Hl' & Hat'); [lia|]. exists outs'.
    split_and!; [exact Hf|etrans; [exact Hl'|exact Hl1]|].
    intros b y Hy. specialize (Hat b). rewrite filter_cons. unfold in_bucket at 1. fold (bucket_index outs (hash_bytes p.2)).
    case_decide as E.
    + subst b. rewrite decide_True by done. rewrite Hx in Hy, Hat. injection Hy as ->. cbn [mbind res_bind] in Hat.
      rewrite (Hat' _ _ Hat), Hl1. cbn. by rewrite <- app_assoc.
    + rewrite decide_False by (intros Hx'; apply E; symmetry; exact Hx'). rewrite Hy in Hat. by rewrite (Hat' _ _ Hat), Hl1.
Qed.

(** [read_symbols] for groups without symbol versions, and [populate_symbol_db]. *)
Definition load_names (num_buckets : nat) (loads : list (list (Z * list Z))) : res (list SymbolBucket) :=
  outputs ← mapM (fun l => for_each (add_non_versioned hash_bytes) l (replicate num_buckets (mkPending [] []))) loads;
  populate_symbol_db (replicate num_buckets empty_bucket) outputs.

Lemma index_replicate {A} n (x : A) b : 0 <= b < Z.of_nat n -> index (replicate n x) b = Ok x.
Proof. intros H. unfold index. rewrite decide_True by lia. by rewrite lookup_replicate_2 by lia. Qed.

Definition bucket_names (n : nat) (b : Z) (loads : list (list (Z * list Z))) : list (Z * list Z) :=
  filter (in_bucket n b) (concat loads).

Lemma populate_bucket_spec n b outputs loads :
  0 <= b < Z.of_nat n -> NoDup (concat loads).*1 ->
  Forall2 (fun l outs => index outs b = Ok (mkPending (filter (in_bucket n b) l) [])) loads outputs ->
  exists bucket, populate_bucket b outputs empty_bucket = Ok bucket /\ bucket_inv (bucket_names n b loads) bucket /\
    versioned_name_to_id bucket = ∅ /\ alternative_versioned_definitions bucket = ∅.
Proof.
  intros Hb Hnd Hf. unfold bucket_names.
  assert (forall pre bucket, bucket_inv pre bucket -> NoDup (pre ++ filter (in_bucket n b) (concat loads)).*1 ->
    exists bucket', populate_bucket b outputs bucket = Ok bucket' /\
      bucket_inv (pre ++ filter (in_bucket n b) (concat loads)) bucket' /\
      versioned_name_to_id bucket' = versioned_name_to_id bucket /\
      alternative_versioned_definitions bucket' = alternative_versioned_definitions bucket) as H.
  { clear Hnd. induction Hf as [|l outs loads outputs Ho _ IH]; intros pre bucket Hinv Hnd.
    - exists bucket. cbn [concat] in *. rewrite filter_nil, app_nil_r in *. done.
    - unfold populate_bucket. cbn [for_each]. rewrite Ho. cbn [mbind res_bind symbols versioned_symbols foldl].
      cbn [concat] in *. rewrite filter_app, app_assoc in *.
      destruct (bucket_inv_foldl (filter (in_bucket n b) l) pre bucket Hinv) as (H1 & H2 & H3).
      { rewrite fmap_app in Hnd. by apply NoDup_app in Hnd as [Hnd _]. }
      destruct (IH _ _ H1 Hnd) as (bucket' & H4 & H5 & H6 & H7). exists bucket'.
      split; [exact H4|]. split_and!; [done|congruence..]. }
  destruct (H [] empty_bucket bucket_inv_empty) as (bucket & H1 & H2 & H3 & H4).
  - cbn [app]. eapply sublist_NoDup; [exact Hnd|]. apply fmap_sublist, sublist_filter.
  - by exists bucket.
Qed.

Lemma load_names_spec n loads :
  (0 < n)%nat -> NoDup (concat loads).*1 ->
  exists buckets, load_names n loads = Ok buckets /\ length buckets = n /\
    forall b bucket, index buckets b = Ok bucket ->
      bucket_inv (bucket_names n b loads) bucket /\
      versioned_name_to_id bucket = ∅ /\ alternative_versioned_definitions bucket = ∅.
Proof.
  intros Hn Hnd. unfold load_names.
  destruct (mapM_Ok (fun l => for_each (add_non_versioned hash_bytes) l (replicate n (mkPending [] []))) loads) as (outputs & Ho & Hf).
  { intros l _. destruct (add_non_versioned_spec l (replicate n (mkPending [] []))) as (outs & H & _);
      [by rewrite length_replicate|]. by exists outs. }
  rewrite Ho. cbn [mbind res_bind].
  assert (forall b, 0 <= b < Z.of_nat n ->
    Forall2 (fun l outs => index outs b = Ok (mkPending (filter (in_bucket n b) l) [])) loads outputs) as Hb.
  { intros b Hb. eapply Forall2_impl; [exact Hf|]. intros l outs H. cbn in H.
    destruct (add_non_versioned_spec l (replicate n (mkPending [] []))) as (outs' & H' & _ & Hat); [by rewrite length_replicate|].
    assert (outs' = outs) as -> by congruence. rewrite length_replicate in Hat. apply (Hat b (mkPending [] [])).
    by apply index_replicate. }
  unfold populate_symbol_db.
  assert (forall k b0, (b0 + k = n)%nat -> exists buckets, populate_buckets (Z.of_nat b0) outputs (replicate k empty_bucket) = Ok buckets /\
    length buckets = k /\ forall i bucket, buckets !! i = Some bucket ->
      bucket_inv (bucket_names n (Z.of_nat (b0 + i)) loads) bucket /\
      versioned_name_to_id bucket = ∅ /\ alternative_versioned_definitions bucket = ∅) as H.
  { induction k as [|k IH]; intros b0 Hk; [exists []; by split_and!|]. cbn [replicate populate_buckets].
    destruct (populate_bucket_spec n (Z.of_nat b0) outputs loads) as (bucket & H1 & H2); [lia|done|apply Hb; lia|].
    rewrite H1. cbn [mbind res_bind]. destruct (IH (S b0)) as (buckets & H3 & H4 & H5); [lia|].
    replace (Z.of_nat b0 + 1) with (Z.of_nat (S b0)) by lia. rewrite H3. cbn [mbind res_bind].
    exists (bucket :: buckets). split_and!; [done|cbn; lia|]. intros [|i] x Hx; cbn in Hx.
    - injection Hx as <-. by rewrite Nat.add_0_r.
    - replace (b0 + S i)%nat with (S b0 + i)%nat by lia. by apply H5. }
  destruct (H n 0%nat eq_refl) as (buckets & H1 & H2 & H3). exists buckets. split_and!; [done..|].
  intros b bucket [Hb0 Hi]%index_ok. specialize (H3 _ _ Hi). by rewrite Nat.add_0_l, Z2Nat.id in H3.
Qed.

End Populate.

(** *** Groups of all buckets *)
Definition bucket_groups (b : SymbolBucket) : list (Z * list Z) :=
  map_to_list (alternative_definitions b) ++ map_to_list (alternative_versioned_definitions b).

Lemma process_buckets_groups db buckets : forall s,
  for_each (process_bucket db) buckets s = process_alternatives db (concat (map bucket_groups buckets)) s.
Proof.
  induction buckets as [|b buckets IH]; intros s; [done|]. cbn [for_each map concat].
  unfold process_alternatives. change (bucket_groups b) with
    (map_to_list (alternative_definitions b) ++ map_to_list (alternative_versioned_definitions b)).
  rewrite !for_each_app.
  change (process_bucket db b s) with (s' ← for_each (process_group db) (map_to_list (alternative_definitions b)) s;
    for_each (process_group db) (map_to_list (alternative_versioned_definitions b)) s').
  destruct (for_each (process_group db) (map_to_list (alternative_definitions b)) s) as [s1| |]; cbn [mbind res_bind]; try done.
  destruct (for_each (process_group db) (map_to_list (alternative_versioned_definitions b)) s1); cbn [mbind res_bind]; done.
Qed.

Lemma select_symbol_member db table first alts sel :
  select_symbol db table first alts = Ok sel -> sel ∈ first :: alts.
Proof.
  set (ids := first :: alts). unfold select_symbol. fold ids.
  set (inside := fun s => (forall a, first_strong s = Some a -> a ∈ ids) /\
    (forall n a, max_common s = Some (n, a) -> a ∈ ids) /\ (forall a, first_weak s = Some a -> a ∈ ids)).
  assert (forall l s s', (forall a, a ∈ l -> a ∈ ids) -> inside s -> consider_all db table l s = Ok s' -> inside s') as Hin.
  { induction l as [|id l IH]; intros s s' Hl Hs; cbn [consider_all]; [by intros [= <-]|].
    destruct (index table id) as [f| |]; cbn [mbind res_bind]; try done.
    assert (forall a, a ∈ l -> a ∈ ids) as Hl' by (intros a Ha; apply Hl; by right).
    destruct (is_dynamic f); [by apply IH|]. destruct (symbol_strength db id) as [st| |]; cbn [mbind res_bind]; try done.
    match goal with |- (_ ← ?r; _) = _ -> _ => destruct r end; cbn [mbind res_bind]; try done. apply IH; [done|].
    assert (id ∈ ids) by (apply Hl; by left). destruct s as [o1 o2 o3], Hs as (H1 & H2 & H3). cbn in H1, H2, H3.
    destruct st as [| | | |n]; cbn; [|destruct o3|destruct o3|destruct o1|destruct o2 as [[m c]|]; [case_match|]]; split_and!; cbn; naive_solver. }
  assert (forall l, (forall a, a ∈ l -> a ∈ ids) -> forall x, first_defined db l first = Ok x -> x ∈ ids) as Hfirst.
  { induction l as [|a l IH]; intros Hl x; cbn [first_defined]; [intros [= <-]; by left|].
    destruct (symbol_strength db a) as [st| |]; cbn [mbind res_bind]; try done.
    destruct st; [apply IH; intros b Hb; apply Hl; by right|..]; intros [= <-]; apply Hl; by left. }
  destruct (consider_all db table ids new_selector) as [s| |] eqn:E; cbn [mbind res_bind]; try done.
  apply Hin in E as (H1 & H2 & H3); [|done|by split_and!]. unfold best.
  destruct (first_strong s) as [a|]; [intros [= <-]; by apply H1|].
  destruct (max_common s) as [[n a]|]; [intros [= <-]; by apply (H2 n)|].
  destruct (first_weak s) as [a|]; [intros [= <-]; by apply H3|]. by apply Hfirst.
Qed.

Section Refinement.
Context (hash_bytes : list Z -> Z) (loads : list (list (Z * list Z))) (n : nat).
Hypothesis Hn : (0 < n)%nat.
Hypothesis Hnd : NoDup (concat loads).*1.

Lemma name_of_id id a b : (id, a) ∈ concat loads -> (id, b) ∈ concat loads -> a = b.
Proof.
  intros [i Hi]%list_elem_of_lookup [j Hj]%list_elem_of_lookup.
  assert (i = j) as ->; [|congruence]. apply (NoDup_lookup _ _ _ id Hnd); rewrite list_lookup_fmap; by rewrite ?Hi, ?Hj.
Qed.

Lemma ids_of_bucket name b :
  ids_of name (bucket_names hash_bytes n b loads) =
    if decide (hash_bytes name mod Z.of_nat n = b) then ids_of name (concat loads) else [].
Proof.
  unfold ids_of, bucket_names. rewrite list_filter_filter. case_decide as E.
  - f_equal. apply list_filter_iff. intros [id m]. unfold in_bucket. cbn.
    split; [by intros [? _]|]. intros ->. by rewrite E.
  - destruct (filter (fun x : Z * list Z => x.2 = name /\ in_bucket hash_bytes n b x) (concat loads)) as [|x l] eqn:F; [done|].
    assert (x ∈ filter (fun x : Z * list Z => x.2 = name /\ in_bucket hash_bytes n b x) (concat loads)) as Hx by (rewrite F; by left).
    apply list_elem_of_filter in Hx as [[Hm Hb] _]. unfold in_bucket in Hb. by rewrite Hm in Hb.
Qed.

Context (buckets : list SymbolBucket).
Hypothesis Hbuckets : length buckets = n /\ forall b bucket, index buckets b = Ok bucket ->
  bucket_inv (bucket_names hash_bytes n b loads) bucket /\
  versioned_name_to_id bucket = ∅ /\ alternative_versioned_definitions bucket = ∅.

(** A group is the symbols of a name that has several. *)
Lemma bucket_group_names g b bucket :
  index buckets b = Ok bucket -> g ∈ bucket_groups bucket <->
  g.2 <> [] /\ exists name, hash_bytes name mod Z.of_nat n = b /\ ids_of name (concat loads) = group_ids g.
Proof.
  intros Hb. destruct (proj2 Hbuckets _ _ Hb) as (Hinv & _ & Hv). unfold bucket_groups. rewrite Hv, map_to_list_empty, app_nil_r.
  destruct g as [first alts]. rewrite elem_of_map_to_list, (bi_alternatives _ _ Hinv). cbn [fst snd group_ids].
  split; intros [Hne [name H]]; (split; [done|]); exists name.
  - rewrite ids_of_bucket in H. case_decide; [done|by destruct alts].
  - destruct H as [Hh H]. by rewrite ids_of_bucket, decide_True.
Qed.

Lemma elem_of_all_groups g :
  g ∈ concat (map bucket_groups buckets) <->
  g.2 <> [] /\ exists name, ids_of name (concat loads) = group_ids g.
Proof.
  rewrite elem_of_concat_map. split.
  - intros (bucket & [i Hi]%list_elem_of_lookup & Hg).
    assert (index buckets (Z.of_nat i) = Ok bucket) as Hb
      by (unfold index; rewrite decide_True by lia; by rewrite Nat2Z.id, Hi).
    apply (bucket_group_names _ _ _ Hb) in Hg as (Hne & name & _ & H). split; [done|by exists name].
  - intros (Hne & name & H). destruct (index_in_range buckets (hash_bytes name mod Z.of_nat n)) as [bucket Hb].
    { rewrite (proj1 Hbuckets). apply Z.mod_pos_bound. lia. }
    exists bucket. split; [apply index_ok in Hb as [_ Hb]; by eapply list_elem_of_lookup_2|].
    apply (bucket_group_names _ _ _ Hb). split; [done|]. by exists name.
Qed.

Lemma named_groups_disjoint gs :
  NoDup gs.*1 -> (forall g, g ∈ gs -> exists name, ids_of name (concat loads) = group_ids g) -> disjoint_groups gs.
Proof.
  unfold disjoint_groups. induction gs as [|g gs IH]; intros Hk Hg; [constructor|]. cbn [map concat]. cbn in Hk.
  apply NoDup_cons in Hk as [Hk1 Hk2]. destruct (Hg g ltac:(by left)) as [name Hname]. apply NoDup_app. split_and!.
  - rewrite <- Hname. by apply ids_of_nodup.
  - intros id Hid (g' & Hg' & Hid')%elem_of_concat_map. destruct (Hg g' ltac:(by right)) as [name' Hname'].
    rewrite <- Hname, elem_of_ids_of in Hid. rewrite <- Hname', elem_of_ids_of in Hid'.
    pose proof (name_of_id _ _ _ Hid Hid') as <-. apply Hk1. apply list_elem_of_fmap. exists g'.
    split; [|done]. unfold group_ids in *. congruence.
  - apply IH; [done|]. intros g' Hg'. apply Hg. by right.
Qed.

Lemma all_groups_disjoint : disjoint_groups (concat (map bucket_groups buckets)).
Proof.
  apply named_groups_disjoint; [|intros g Hg; by apply elem_of_all_groups in Hg as [_ ?]].
  assert (forall k b0 bs, bs = drop b0 buckets -> (b0 + k = length buckets)%nat ->
    NoDup (concat (map bucket_groups bs)).*1 /\
    forall first, first ∈ (concat (map bucket_groups bs)).*1 -> exists name, (first, name) ∈ concat loads /\
      Z.of_nat b0 <= hash_bytes name mod Z.of_nat n) as H.
  { induction k as [|k IH]; intros b0 bs -> Hlen.
    - rewrite drop_ge by lia. split; [constructor|]. by intros first ?%not_elem_of_nil.
    - destruct (buckets !! b0) as [bucket|] eqn:Hb; [|apply lookup_ge_None in Hb; lia].
      rewrite (drop_S _ _ _ Hb). cbn [map concat]. rewrite fmap_app.
      assert (index buckets (Z.of_nat b0) = Ok bucket) as Hib
        by (unfold index; rewrite decide_True by lia; by rewrite Nat2Z.id, Hb).
      destruct (IH (S b0) (drop (S b0) buckets) eq_refl) as [IH1 IH2]; [lia|].
      assert (forall first, first ∈ (bucket_groups bucket).*1 -> exists name, (first, name) ∈ concat loads /\
        hash_bytes name mod Z.of_nat n = Z.of_nat b0) as Hhere.
      { intros first (g & -> & Hg)%list_elem_of_fmap. apply (bucket_group_names _ _ _ Hib) in Hg as (_ & name & Hh & Hids).
        exists name. split; [|done]. apply elem_of_ids_of. rewrite Hids. by left. }
      split.
      + apply NoDup_app. split_and!; [| |done].
        * unfold bucket_groups. destruct (proj2 Hbuckets _ _ Hib) as (_ & _ & ->).
          rewrite map_to_list_empty, app_nil_r. apply NoDup_fst_map_to_list.
        * intros first (name & H1 & H2)%Hhere (name' & H3 & H4)%IH2. pose proof (name_of_id _ _ _ H1 H3) as <-. lia.
      + intros first [(name & H1 & H2)%Hhere|(name & H1 & H2)%IH2]%elem_of_app; exists name; (split; [done|lia]). }
  by destruct (H (length buckets) 0%nat buckets eq_refl eq_refl) as [? _].
Qed.

End Refinement.

(** *** Loading a file *)
Section Loading.
Context (hash_bytes : list Z -> Z) (should_downgrade_to_local : list Z -> bool) (downgrades_all : bool).

(** The symbol has an entry of its own in the table of definitions, or none. *)
Definition own_definition (id : Z) (e : SymtabEntry) : Z := if is_undefined e || should_ignore e then undefined_id else id.

(** The names of the global definitions among the entries from number [id] on. *)
Fixpoint global_names (id : Z) (entries : list SymtabEntry) : list (Z * list Z) :=
  match entries with
  | [] => []
  | e :: entries =>
      (if is_undefined e || should_ignore e || is_local e then []
       else match name_and_version e with Ok info => [(id, raw_name info)] | _ => [] end) ++
      global_names (id + 1) entries
  end.

(** Entries without versions. *)
Definition unversioned_entry (e : SymtabEntry) : Prop :=
  forall info, name_and_version e = Ok info -> is_default info = true /\ version_name info = None.

(** Symbols are numbered in order, every definition starts as its own, and the global
    ones are entered under their names. *)
Lemma load_symbols_names file_id entries : forall shard outs shard' outs',
  Forall unversioned_entry entries ->
  load_symbols hash_bytes should_downgrade_to_local downgrades_all file_id entries (shard, outs) = Ok (shard', outs') ->
  for_each (add_non_versioned hash_bytes) (global_names (next shard) entries) outs = Ok outs' /\
  next shard' = next shard + Z.of_nat (length entries) /\
  resolutions shard' = resolutions shard ++ imap (fun i e => own_definition (next shard + Z.of_nat i) e) entries.
Proof.
  unfold load_symbols. induction entries as [|e entries IH]; intros shard outs shard' outs' Hv H.
  { injection H as <- <-. cbn. rewrite app_nil_r. split_and!; [done|lia|done]. }
  apply Forall_cons in Hv as [He Hv]. cbn [for_each] in H.
  destruct (load_symbol hash_bytes should_downgrade_to_local downgrades_all file_id e (shard, outs)) as [[shard1 outs1]| |] eqn:E1;
    cbn [mbind res_bind] in H; try done.
  destruct (IH _ _ _ _ Hv H) as (H1 & H2 & H3).
  assert (next shard1 = next shard + 1 /\ resolutions shard1 = resolutions shard ++ [own_definition (next shard) e] /\
    for_each (add_non_versioned hash_bytes)
      (if is_undefined e || should_ignore e || is_local e then []
       else match name_and_version e with Ok info => [(next shard, raw_name info)] | _ => [] end) outs = Ok outs1) as (Hn & Hr & Ho).
  { unfold load_symbol in E1. unfold own_definition. destruct (is_undefined e || should_ignore e); cbn [orb];
      [by injection E1 as <- <-|]. destruct (is_local e); [by injection E1 as <- <-|].
    destruct (name_and_version e) as [info| |] eqn:Hi; cbn [mbind res_bind] in E1; try done.
    destruct (He info Hi) as [Hdef Hno]. rewrite Hdef, Hno in E1.
    destruct (add_non_versioned hash_bytes (next shard, raw_name info) outs) as [outs2| |] eqn:Ea; cbn [mbind res_bind] in E1; try done.
    injection E1 as <- <-. cbn [for_each]. by rewrite Ea. }
  cbn [global_names]. rewrite for_each_app, Ho. cbn [mbind res_bind]. rewrite <- Hn. split; [done|]. split.
  - rewrite H2, Hn. cbn [length]. lia.
  - rewrite H3, Hr, <- app_assoc. f_equal. cbn [app imap]. f_equal; [f_equal; lia|]. apply imap_ext. intros i x _. cbn.
    f_equal. lia.
Qed.

End Loading.

(** *** The theorems *)

(** C8. [select_symbol] fails exactly when two strong definitions collide outside COMDAT
    groups and multiple definitions are not allowed; otherwise it takes the earliest of
    the strongest definitions in regular files (strong, then the largest common symbol,
    then weak), and, when only shared objects define the name, the first that does. *)
Theorem select_symbol_precedence db table first alternatives st fl grp :
  (forall id, id ∈ first :: alternatives ->
     symbol_strength db id = Ok (st id) /\ index table id = Ok (fl id) /\ is_in_comdat_group db id = Ok (grp id)) ->
  (duplicated db (first :: alternatives) st fl grp /\ is_Err (select_symbol db table first alternatives)) \/
  (~ duplicated db (first :: alternatives) st fl grp /\
   exists id, select_symbol db table first alternatives = Ok id /\ chosen (first :: alternatives) st fl first id).
Proof.
  intros H. by apply select_symbol_spec; [intros id Hid; apply H..|].
Qed.

(** C9. The definitions and flags that resolution leaves do not depend on the order in
    which the hash maps give their groups, nor on how the stores of the threads
    interleave, when no symbol is in two groups. *)
Theorem resolution_order_irrelevant db gs gs' run s s' :
  disjoint_groups gs -> process_alternatives db gs s = Ok s' -> errors s' = errors s ->
  gs ≡ₚ gs' -> run ≡ₚ concat (map (group_stores db (flags s)) gs') ->
  for_each run_store run s = Ok s'.
Proof.
  intros Hnd H He Hgs Hrun. destruct (process_alternatives_stores db gs s s' H He) as [Hseq _].
  apply (stores_commute (concat (map (group_stores db (flags s)) gs))); [by apply group_stores_consistent| |done].
  rewrite Hrun. clear -Hgs. induction Hgs; cbn [map concat]; [done|by f_equiv| |by etrans].
  rewrite !app_assoc. f_equiv. apply Permutation_app_comm.
Qed.

(** C7. Name lookup for names without symbol versions refines a map from names to the
    selected definition: when every symbol is loaded under a plain name (no [@version] and
    no default version), each symbol once, and at first defined by itself, then after loading and
    a resolution that reports no error the name leads to its first symbol, and all symbols
    of the name to one and the same definition, the one [select_symbol] picks among them;
    whatever the (positive) number of buckets and the hash function. With default versions
    a symbol is in two groups and the claim fails: see [overlapping_groups_race]. *)
Theorem names_resolve hash_bytes db n loads defs fl :
  (0 < n)%nat -> NoDup (concat loads).*1 ->
  (forall p, p ∈ concat loads -> index defs p.1 = Ok p.1) ->
  exists buckets, load_names hash_bytes n loads = Ok buckets /\
    forall buckets' s',
      resolve_alternative_symbol_definitions db buckets (mkState defs fl []) = Ok (buckets', s') ->
      forall name id0 rest, ids_of name (concat loads) = id0 :: rest ->
        get_unversioned hash_bytes buckets' name = Ok (Some id0) /\
        exists sel, sel ∈ id0 :: rest /\
          match rest with [] => sel = id0 | _ => select_symbol db fl id0 rest = Ok sel end /\
          forall id, id ∈ id0 :: rest -> definition (definitions s') id = Ok sel.
Proof.
  intros Hn Hnd Hself. destruct (load_names_spec hash_bytes n loads Hn Hnd) as (buckets & Hload & Hb).
  exists buckets. split; [done|]. intros buckets' s' Hres name id0 rest Hids.
  unfold resolve_alternative_symbol_definitions in Hres. rewrite process_buckets_groups in Hres.
  destruct (process_alternatives db _ _) as [s1| |] eqn:Hp; cbn [mbind res_bind] in Hres; try done.
  destruct (errors s1) eqn:He; [|done]. injection Hres as <- <-.
  destruct (process_alternatives_definitions db _ _ _ (all_groups_disjoint hash_bytes loads n Hn Hnd buckets Hb) Hp)
    as [Hdef Hkeep]; [done|]. cbn [definitions flags] in Hdef, Hkeep. split.
  - destruct (index_in_range buckets (hash_bytes name mod Z.of_nat n)) as [bucket Hbucket];
      [rewrite (proj1 Hb); apply Z.mod_pos_bound; lia|].
    unfold get_unversioned, bucket_index. rewrite length_map, (proj1 Hb).
    assert (index (map drain buckets) (hash_bytes name mod Z.of_nat n) = Ok (drain bucket)) as ->.
    { apply index_ok in Hbucket as [H0 Hi]. unfold index. rewrite decide_True by done.
      change (map drain buckets) with (drain <$> buckets). by rewrite list_lookup_fmap, Hi. }
    cbn [mbind res_bind drain name_to_id]. destruct (proj2 Hb _ _ Hbucket) as [Hinv _].
    rewrite (bi_name _ _ Hinv), ids_of_bucket, decide_True, Hids by done. done.
  - destruct rest as [|id1 rest].
    + exists id0. assert (index (definitions s1) id0 = Ok id0) as Hid0.
      { rewrite Hkeep.
        - apply (Hself (id0, name)). apply elem_of_ids_of. rewrite Hids. by left.
        - intros g Hg Hin. apply (elem_of_all_groups hash_bytes loads n Hn buckets Hb) in Hg as (Hne & name' & Hname').
          assert ((id0, name') ∈ concat loads) as H1 by (apply elem_of_ids_of; by rewrite Hname').
          assert ((id0, name) ∈ concat loads) as H2 by (apply elem_of_ids_of; rewrite Hids; by left).
          pose proof (name_of_id loads Hnd _ _ _ H1 H2) as ->. rewrite Hids in Hname'. unfold group_ids in Hname'.
          injection Hname' as _ Hnil. by rewrite <- Hnil in Hne. }
      split_and!; [by left|done|]. intros id ->%list_elem_of_singleton. unfold definition. rewrite Hid0. by cbn.
    + destruct (Hdef (id0, id1 :: rest)) as (sel & Hsel & Hall).
      { apply (elem_of_all_groups hash_bytes loads n Hn buckets Hb). split; [done|by exists name]. }
      exists sel. pose proof (select_symbol_member _ _ _ _ _ Hsel) as Hmem. split_and!; [done..|].
      intros id Hid. unfold definition. rewrite (Hall id Hid). cbn [mbind res_bind]. by apply Hall.
Qed.

(** *** Examples *)
Module Example.

(** An object with a weak and a strong symbol and a common one, then a shared object. *)
Definition weak : SymbolAttributes := mkAttributes true false false 0 Default false.
Definition strong : SymbolAttributes := mkAttributes false false false 0 Hidden false.
Definition common (n : Z) : SymbolAttributes := mkAttributes false true false n Default false.

Definition object_symbols : list SymbolAttributes := [weak; strong; common 8; common 16].

Definition db : Tables :=
  mkTables [(0, 0); (0, 0); (0, 0); (0, 0); (1, 0); (1, 0)]
    [Objects [mkObject 0 object_symbols false]; Objects [mkObject 4 [strong; strong] true]]
    [[Object 0 object_symbols]; [Dynamic 4 [strong; strong]]] false.

Definition table : list Z := [0; 0; 0; 0; DYNAMIC; DYNAMIC].
Definition defs : list Z := [0; 1; 2; 3; 4; 5].

(** [f] at 0, 1 and 4; [c] at 2 and 3; [g] at 5. *)
Definition loads : list (list (Z * list Z)) :=
  [[(0, [102]); (1, [102]); (2, [99]); (3, [99])]; [(4, [102]); (5, [103])]].

Definition st (id : Z) : SymbolStrength :=
  match id with 0 => Weak | 2 => Common 8 | 3 => Common 16 | _ => Strong end.
Definition fl (id : Z) : Z := if id <? 4 then 0 else DYNAMIC.

Definition groups : list (Z * list Z) := [(0, [1; 4]); (2, [3])].

Definition resolved_state : DbState :=
  mkState [1; 1; 3; 3; 1; 5] [24; 24; 0; 0; DYNAMIC; DYNAMIC] [].

Lemma groups_resolved : process_alternatives db groups (mkState defs table []) = Ok resolved_state.
Proof. vm_compute. reflexivity. Qed.

End Example.

Lemma select_symbol_precedence_witness :
  (forall id, id ∈ [0; 1; 4] ->
     symbol_strength Example.db id = Ok (Example.st id) /\ index Example.table id = Ok (Example.fl id) /\
     is_in_comdat_group Example.db id = Ok false) /\
  select_symbol Example.db Example.table 0 [1; 4] = Ok 1 /\ chosen [0; 1; 4] Example.st Example.fl 0 1.
Proof.
  assert (forall id, id ∈ [0; 1; 4] ->
     symbol_strength Example.db id = Ok (Example.st id) /\ index Example.table id = Ok (Example.fl id) /\
     is_in_comdat_group Example.db id = Ok false) as H.
  { intros id Hid. repeat (apply elem_of_cons in Hid as [->|Hid]; [by vm_compute|]). by apply not_elem_of_nil in Hid. }
  assert (select_symbol Example.db Example.table 0 [1; 4] = Ok 1) as Hs by (vm_compute; reflexivity).
  split; [exact H|]. split; [exact Hs|].
  destruct (select_symbol_precedence Example.db Example.table 0 [1; 4] Example.st Example.fl (fun _ => false) H)
    as [[_ [e He]]|[_ (id & Hid & Hc)]].
  - rewrite Hs in He. discriminate.
  - rewrite Hs in Hid. injection Hid as <-. exact Hc.
Defined.

Lemma resolution_order_irrelevant_witness :
  let run := rev (concat (map (group_stores Example.db Example.table) Example.groups)) in
  disjoint_groups Example.groups /\
  process_alternatives Example.db Example.groups (mkState Example.defs Example.table []) = Ok Example.resolved_state /\
  for_each run_store run (mkState Example.defs Example.table []) = Ok Example.resolved_state.
Proof.
  assert (disjoint_groups Example.groups) as Hd.
  { unfold disjoint_groups. cbn. repeat (constructor; [rewrite ?elem_of_cons, elem_of_nil; lia|]). constructor. }
  intros run. split; [exact Hd|]. split; [exact Example.groups_resolved|].
  apply (resolution_order_irrelevant Example.db Example.groups Example.groups run); [exact Hd|exact Example.groups_resolved| | |].
  - reflexivity.
  - reflexivity.
  - symmetry. apply Permutation_rev.
Defined.

Lemma names_resolve_witness :
  (0 < 2)%nat /\ NoDup (concat Example.loads).*1 /\
  (forall p, p ∈ concat Example.loads -> index Example.defs p.1 = Ok p.1) /\
  exists buckets, load_names (fun l => default 0 (head l)) 2 Example.loads = Ok buckets /\
    forall buckets' s',
      resolve_alternative_symbol_definitions Example.db buckets (mkState Example.defs Example.table []) = Ok (buckets', s') ->
      definition (definitions s') 0 = Ok 1 /\ definition (definitions s') 4 = Ok 1 /\
      definition (definitions s') 2 = Ok 3 /\ definition (definitions s') 5 = Ok 5.
Proof.
  assert (NoDup (concat Example.loads).*1) as Hnd.
  { cbn. repeat (constructor; [rewrite ?elem_of_cons, elem_of_nil; lia|]). constructor. }
  assert (forall p, p ∈ concat Example.loads -> index Example.defs p.1 = Ok p.1) as Hself.
  { intros p Hp. cbn in Hp. repeat (apply elem_of_cons in Hp as [->|Hp]; [reflexivity|]). by apply not_elem_of_nil in Hp. }
  split; [lia|]. split; [exact Hnd|]. split; [exact Hself|].
  destruct (names_resolve (fun l => default 0 (head l)) Example.db 2 Example.loads Example.defs Example.table
    ltac:(lia) Hnd Hself) as (buckets & Hload & H).
  exists buckets. split; [exact Hload|]. intros buckets' s' Hres. specialize (H buckets' s' Hres).
  destruct (H [102] 0 [1; 4] eq_refl) as (_ & sel & _ & Hsel & Hall). vm_compute in Hsel. injection Hsel as <-.
  destruct (H [99] 2 [3] eq_refl) as (_ & sel & _ & Hsel & Hall'). vm_compute in Hsel. injection Hsel as <-.
  destruct (H [103] 5 [] eq_refl) as (_ & sel & _ & -> & Hall'').
  split_and!; [apply Hall|apply Hall|apply Hall'|apply Hall'']; rewrite ?elem_of_cons; auto.
Defined.

(** A symbol with a default version is in two groups, that of its name and that of its
    versioned name, which are in different buckets in general: what becomes of it depends
    on which bucket comes first.  Here 0 is an object's definition of the name, 1 and 2
    are the definitions of two shared objects under the same version. *)
Lemma overlapping_groups_race :
  let db := mkTables [(0, 0); (1, 0); (1, 1)]
    [Objects [mkObject 0 [Example.strong] false]; Objects [mkObject 1 [Example.strong] true; mkObject 2 [Example.strong] true]]
    [[Object 0 [Example.strong]]; [Dynamic 1 [Example.strong]; Dynamic 2 [Example.strong]]] false in
  let s := mkState [0; 1; 2] [0; DYNAMIC; DYNAMIC] [] in
  match process_alternatives db [(0, [1; 2]); (1, [2])] s, process_alternatives db [(1, [2]); (0, [1; 2])] s with
  | Ok s1, Ok s2 => definitions s1 = [0; 1; 1] /\ definitions s2 = [0; 0; 0]
  | _, _ => False
  end.
Proof. vm_compute. done. Qed.

(** A versioned name whose first symbol is from a shared object: [get] looks for a regular
    definition among the alternatives of unversioned names, and misses the one there is. *)
Lemma versioned_alternative_missed :
  let db := mkTables [(0, 0); (1, 0)]
    [Objects [mkObject 0 [Example.strong] true]; Objects [mkObject 1 [Example.strong] false]]
    [[Dynamic 0 [Example.strong]]; [Object 1 [Example.strong]]] false in
  let name := ([102], [86]) in
  let bucket := add_versioned_symbol (1, name) (add_versioned_symbol (0, name) empty_bucket) in
  alternative_versioned_definitions bucket !! 0 = Some [1] /\
  get (fun _ => 0) db [bucket] (Versioned name) false = Ok None.
Proof. vm_compute. done. Qed.
