(* ===== verification/Relr.v ===== *)
(** RELR relative relocations: the bitmap packing of [libjdxld/src/elf.rs]
    ([RelrBitmap], [RelrEncoder], [got_relr_bitmap_relr_count]) and its users, the
    allocation in [elf.rs] and the writing in [elf_writer.rs]. *)
From Stdlib Require Import ZArith Lia.
From stdpp Require Import base list list_numbers numbers strings option sorting.
From S2P Require Import Prelude Bits BitMisc Elf.

Local Open Scope Z_scope.

Section Relr.

(** [C::RELR_ENTRY_SIZE]: 4 for 32-bit classes and 8 for 64-bit ones. *)
Variable entry_size : Z.

(** ** RelrBitmap *)
Record RelrBitmap := mkRelrBitmap { rb_start : Z; rb_end : Z; rb_encoded : Z }.

Definition relr_bitmap_slots : Z := entry_size * 8 - 1.

Definition after (address : Z) : RelrBitmap :=
  let start := wadd 64 address entry_size in
  mkRelrBitmap start (wadd 64 start (wmul 64 relr_bitmap_slots entry_size)) 1.

Definition next (self : RelrBitmap) : RelrBitmap :=
  let address_range := wmul 64 relr_bitmap_slots entry_size in
  mkRelrBitmap (wadd 64 (rb_start self) address_range) (wadd 64 (rb_end self) address_range) 1.

Definition insert (self : RelrBitmap) (address : Z) : bool * RelrBitmap :=
  let offset := wsub 64 address (rb_start self) in
  if negb ((rb_start self <=? address) && (address <? rb_end self)) ||
     negb (is_multiple_of offset entry_size) then (false, self)
  else (true, mkRelrBitmap (rb_start self) (rb_end self)
                (Z.lor (rb_encoded self) (wshl 64 1 (offset / entry_size + 1)))).

(** ** RelrEncoder *)
Inductive RelrState :=
| NoRun
| AddressOnly (next_bitmap : RelrBitmap)
| WithBitmap (bitmap : RelrBitmap).

Inductive RelrEntryEncoding := New | Update.

(** [encode]: the new state, and the one call it makes to [encode_fn]. *)
Definition encode (state : RelrState) (address : Z) : RelrState * (Z * RelrEntryEncoding) :=
  match state with
  | NoRun => (AddressOnly (after address), (address, New))
  | AddressOnly next_bitmap =>
      let (inserted, next_bitmap) := insert next_bitmap address in
      if inserted then (WithBitmap next_bitmap, (rb_encoded next_bitmap, New))
      else (AddressOnly (after address), (address, New))
  | WithBitmap bitmap =>
      let (inserted, bitmap) := insert bitmap address in
      if inserted then (WithBitmap bitmap, (rb_encoded bitmap, Update))
      else
        let (inserted, next_bitmap) := insert (next bitmap) address in
        if inserted then (WithBitmap next_bitmap, (rb_encoded next_bitmap, New))
        else (AddressOnly (after address), (address, New))
  end.

(** The allocation pass: entries to reserve for the relocations of a section. *)
Fixpoint allocate (state : RelrState) (offsets : list Z) : nat :=
  match offsets with
  | [] => 0
  | offset :: offsets =>
      let '(state, (_, encoding)) := encode state offset in
      match encoding with
      | New => S (allocate state offsets)
      | Update => allocate state offsets
      end
  end.

(** The writing pass: [free] reserved entries are left, [entries] are written and
    the last of them is the one an [Update] rewrites. *)
Record RelrWriter := mkRelrWriter { rw_state : RelrState; rw_free : nat; rw_entries : list Z }.

Definition write_entry (free : nat) (entries : list Z) (call : Z * RelrEntryEncoding) :
    res (nat * list Z) :=
  match call with
  | (encoded, New) =>
      match free with
      | O => Err "Insufficient .relr.dyn allocation"
      | S free => Ok (free, entries ++ [encoded])
      end
  | (encoded, Update) =>
      match entries with
      | [] => Err "Internal error in RELR bitmap encoding"
      | _ => Ok (free, take (length entries - 1) entries ++ [encoded])
      end
  end.

Fixpoint write_addresses (writer : RelrWriter) (places : list Z) : res RelrWriter :=
  match places with
  | [] => Ok writer
  | place :: places =>
      let (state, call) := encode (rw_state writer) place in
      '(free, entries) ← write_entry (rw_free writer) (rw_entries writer) call;
      write_addresses (mkRelrWriter state free entries) places
  end.

(** ** The GOT block *)
Definition got_relr_bitmap_relr_count (n : Z) : Z :=
  if n =? 0 then 0
  else 1 + (Z.max 0 (n - 1) + (relr_bitmap_slots - 1)) / relr_bitmap_slots.

(** The bitmap loop of [write_got_relr_bitmap]; [fuel] bounds the iterations. *)
Fixpoint got_bitmaps (fuel : nat) (remaining : Z) : list Z :=
  match fuel with
  | O => []
  | S fuel =>
      if 0 <? remaining then
        let slots := Z.min remaining relr_bitmap_slots in
        let bitmap := Z.lor (wshl 64 (wsub 64 (wshl 64 1 slots) 1) 1) 1 in
        bitmap :: got_bitmaps fuel (Z.max 0 (remaining - relr_bitmap_slots))
      else []
  end.

Definition write_got_relr_bitmap (n base : Z) : list Z :=
  if (base =? 0) || (n =? 0) then [] else base :: got_bitmaps (Z.to_nat n) (n - 1).

(** ** Specification: what the dynamic loader relocates *)
Definition bitmap_addresses (base encoded : Z) : list Z :=
  map (fun i => base + i * entry_size)
    (List.filter (fun i => Z.testbit encoded (i + 1)) (seqZ 0 relr_bitmap_slots)).

(** An even entry is an address; an odd one is a bitmap for the words that follow
    the previous entry's. The result is the addresses and the next base. *)
Fixpoint decode_from (base : Z) (entries : list Z) : list Z * Z :=
  match entries with
  | [] => ([], base)
  | e :: entries =>
      if Z.even e then
        let (l, b) := decode_from (e + entry_size) entries in (e :: l, b)
      else
        let (l, b) := decode_from (base + relr_bitmap_slots * entry_size) entries in
        (bitmap_addresses base e ++ l, b)
  end.

Definition decode (entries : list Z) : list Z := (decode_from 0 entries).1.

(** Addresses whose windows stay below 2^64. *)
Definition in_space (a : Z) : Prop :=
  0 <= a /\ a + entry_size + 2 * relr_bitmap_slots * entry_size < 2 ^ 64.

Definition bitmap_spans (b : RelrBitmap) : Prop :=
  0 <= rb_start b /\ rb_end b = rb_start b + relr_bitmap_slots * entry_size /\
  rb_end b + relr_bitmap_slots * entry_size < 2 ^ 64.

(** The state describes the entries written so far, which decode to [addrs]. *)
Definition encodes (state : RelrState) (entries addrs : list Z) : Prop :=
  match state with
  | NoRun => entries = [] /\ addrs = []
  | AddressOnly b =>
      bitmap_spans b /\ rb_encoded b = 1 /\ decode_from 0 entries = (addrs, rb_start b) /\
      (forall a, a ∈ addrs -> a < rb_start b)
  | WithBitmap b =>
      bitmap_spans b /\
      exists pre l0,
        entries = pre ++ [rb_encoded b] /\ Z.even (rb_encoded b) = false /\
        decode_from 0 pre = (l0, rb_start b) /\
        addrs = l0 ++ bitmap_addresses (rb_start b) (rb_encoded b) /\
        (forall a, a ∈ addrs -> a < rb_end b)  /\
        (forall j, 0 <= j -> (forall a, a ∈ addrs -> a < rb_start b + j * entry_size) ->
           Z.testbit (rb_encoded b) (j + 1) = false)
  end.

(** Two runs on the same section, at addresses [k] apart. *)
Definition shift_bitmap (k : Z) (b : RelrBitmap) : RelrBitmap :=
  mkRelrBitmap (rb_start b + k) (rb_end b + k) (rb_encoded b).

Definition shift_state (k : Z) (s : RelrState) : RelrState :=
  match s with
  | NoRun => NoRun
  | AddressOnly b => AddressOnly (shift_bitmap k b)
  | WithBitmap b => WithBitmap (shift_bitmap k b)
  end.

Definition state_spans (s : RelrState) : Prop :=
  match s with NoRun => True | AddressOnly b | WithBitmap b => bitmap_spans b end.

Hypothesis entry_size_cases : entry_size = 4 \/ entry_size = 8.

(** ** Lemmas *)
Lemma slots_bounds : 31 <= relr_bitmap_slots <= 63 /\ relr_bitmap_slots * entry_size <= 504.
Proof. unfold relr_bitmap_slots. destruct entry_size_cases as [-> | ->]; lia. Qed.

Lemma window_size : wmul 64 relr_bitmap_slots entry_size = relr_bitmap_slots * entry_size.
Proof. pose proof slots_bounds. apply wrap_small. unfold in_u. destruct entry_size_cases; nia. Qed.

Lemma after_spec a :
  in_space a ->
  after a = mkRelrBitmap (a + entry_size) (a + entry_size + relr_bitmap_slots * entry_size) 1 /\
  bitmap_spans (after a).
Proof.
  intros [H1 H2]. pose proof slots_bounds.
  assert (after a = mkRelrBitmap (a + entry_size) (a + entry_size + relr_bitmap_slots * entry_size) 1) as E.
  { unfold after. rewrite window_size. unfold wadd.
    rewrite (wrap_small 64 (a + entry_size)) by (unfold in_u; destruct entry_size_cases; nia).
    rewrite wrap_small by (unfold in_u; destruct entry_size_cases; nia). done. }
  split; [done|]. rewrite E. unfold bitmap_spans. cbn. destruct entry_size_cases; nia.
Qed.

Lemma next_spec b :
  bitmap_spans b ->
  next b = mkRelrBitmap (rb_end b) (rb_end b + relr_bitmap_slots * entry_size) 1.
Proof.
  intros (H1 & H2 & H3). pose proof slots_bounds.
  unfold next. rewrite window_size. unfold wadd.
  rewrite (wrap_small 64 (rb_start b + _)) by (unfold in_u; destruct entry_size_cases; nia).
  rewrite (wrap_small 64 (rb_end b + _)) by (unfold in_u; destruct entry_size_cases; nia).
  by rewrite <- H2.
Qed.

(** The bitmap position of an address. *)
Definition fits (start a : Z) : bool :=
  (start <=? a) && (a <? start + relr_bitmap_slots * entry_size) && ((a - start) mod entry_size =? 0).

Lemma insert_spec start enc a :
  0 <= start -> start + relr_bitmap_slots * entry_size < 2 ^ 64 -> 
  let b := mkRelrBitmap start (start + relr_bitmap_slots * entry_size) enc in
  insert b a =
    if fits start a then
      (true, mkRelrBitmap start (start + relr_bitmap_slots * entry_size)
               (Z.lor enc (2 ^ ((a - start) / entry_size + 1))))
    else (false, b).
Proof.
  intros H1 H2 b. pose proof slots_bounds as [Hs1 Hs2]. unfold insert, fits. cbn [rb_start rb_end rb_encoded b].
  destruct (start <=? a) eqn:E1; [|done]. apply Z.leb_le in E1.
  destruct (a <? _) eqn:E2; [|done]. apply Z.ltb_lt in E2. cbn [andb negb orb].
  assert (wsub 64 a start = a - start) as -> by (apply wrap_small; unfold in_u; lia).
  unfold is_multiple_of. rewrite (proj2 (Z.eqb_neq entry_size 0)) by lia.
  destruct (_ =? 0); [cbn [negb]|done].
  assert (0 <= (a - start) / entry_size < 63) as Hq.
  { split; [apply Z.div_pos; lia|]. apply Z.div_lt_upper_bound; nia. }
  unfold wshl. rewrite (Z.mod_small _ 64), Z.shiftl_1_l by lia.
  rewrite wrap_small; [done|]. split; [apply Z.pow_nonneg; lia|].
  apply Z.pow_lt_mono_r; lia.
Qed.

Lemma decode_from_app base l1 l2 :
  decode_from base (l1 ++ l2) =
    let (r1, b1) := decode_from base l1 in let (r2, b2) := decode_from b1 l2 in (r1 ++ r2, b2).
Proof.
  revert base; induction l1 as [|e l1 IH]; intros base; cbn [app decode_from].
  - by destruct (decode_from base l2).
  - destruct (Z.even e); rewrite IH;
      destruct (decode_from _ l1) as [r1 b1]; destruct (decode_from b1 l2); by rewrite ?app_assoc.
Qed.

Lemma filter_none (p : Z -> bool) l : (forall x, x ∈ l -> p x = false) -> List.filter p l = [].
Proof.
  induction l as [|x l IH]; intros H; cbn; [done|].
  rewrite H by (by left). apply IH. intros y Hy. apply H. by right.
Qed.

Lemma bitmap_addresses_empty start : bitmap_addresses start 1 = [].
Proof.
  unfold bitmap_addresses. rewrite filter_none; [done|].
  intros x Hx%elem_of_seqZ. apply (testbit_small 1 1); [split; vm_compute; congruence|lia].
Qed.

(** Setting a bit above all set bits appends one address. *)
Lemma bitmap_addresses_snoc start enc k :
  0 <= k < relr_bitmap_slots -> (forall j, k <= j -> Z.testbit enc (j + 1) = false) ->
  bitmap_addresses start (Z.lor enc (2 ^ (k + 1))) =
    bitmap_addresses start enc ++ [start + k * entry_size].
Proof.
  intros Hk Hclear. unfold bitmap_addresses.
  replace relr_bitmap_slots with (k + (1 + (relr_bitmap_slots - k - 1))) by lia.
  rewrite !seqZ_app by lia. rewrite !List.filter_app, !List.map_app. change (seqZ (0 + k) 1) with [k].
  assert (forall i, Z.testbit (Z.lor enc (2 ^ (k + 1))) (i + 1) =
                    Z.testbit enc (i + 1) || bool_decide (i = k)) as Hbit.
  { intros i. rewrite Z.lor_spec. f_equal. destruct (decide (0 <= i + 1)).
    - rewrite testbit_pow2 by lia. apply bool_decide_ext. lia.
    - rewrite Z.testbit_neg_r by lia. symmetry. apply bool_decide_false. lia. }
  assert (List.filter (fun i => Z.testbit (Z.lor enc (2 ^ (k + 1))) (i + 1)) (seqZ 0 k) =
          List.filter (fun i => Z.testbit enc (i + 1)) (seqZ 0 k)) as ->.
  { apply List.filter_ext_in. intros i Hi%list_elem_of_In%elem_of_seqZ.
    rewrite Hbit, bool_decide_false by lia. apply orb_false_r. }
  rewrite !(filter_none _ (seqZ (0 + k + 1) _)).
  - cbn [List.filter]. rewrite Hbit, Hclear, bool_decide_true by lia. cbn [map orb].
    by rewrite !app_nil_r.
  - intros i Hi%elem_of_seqZ. apply Hclear. lia.
  - intros i Hi%elem_of_seqZ. rewrite Hbit, Hclear, bool_decide_false by lia. done.
Qed.

Lemma odd_lor enc k : 0 <= k -> Z.even enc = false -> Z.even (Z.lor enc (2 ^ (k + 1))) = false.
Proof.
  intros Hk. rewrite <- !Z.negb_odd, <- !Z.bit0_odd, Z.lor_spec. intros H.
  apply negb_false_iff in H. by rewrite H.
Qed.

Lemma fits_position start a :
  fits start a = true -> 0 <= start ->
  exists k, 0 <= k < relr_bitmap_slots /\ (a - start) / entry_size = k /\ a = start + k * entry_size.
Proof.
  unfold fits. rewrite !andb_true_iff, Z.leb_le, Z.ltb_lt, Z.eqb_eq. intros [[H1 H2] H3] H.
  exists ((a - start) / entry_size).
  assert (a - start = entry_size * ((a - start) / entry_size)) as E
    by (pose proof (Z.div_mod (a - start) entry_size); lia).
  split; [|split; [done|lia]]. destruct entry_size_cases; nia.
Qed.

(** Decoding an address entry, and a bitmap entry, at the end. *)
Lemma decode_snoc_address base pre l b a :
  decode_from base pre = (l, b) -> Z.even a = true ->
  decode_from base (pre ++ [a]) = (l ++ [a], a + entry_size).
Proof. intros H Ha. rewrite decode_from_app, H. cbn. by rewrite Ha. Qed.

Lemma decode_snoc_bitmap base pre l b e :
  decode_from base pre = (l, b) -> Z.even e = false ->
  decode_from base (pre ++ [e]) =
    (l ++ bitmap_addresses b e, b + relr_bitmap_slots * entry_size).
Proof. intros H He. rewrite decode_from_app, H. cbn. by rewrite He, app_nil_r. Qed.

(** Starting a new run. *)
Lemma encodes_address pre l b a :
  in_space a -> Z.even a = true -> decode_from 0 pre = (l, b) ->
  (forall x, x ∈ l -> x < a) ->
  encodes (AddressOnly (after a)) (pre ++ [a]) (l ++ [a]).
Proof.
  intros Hs He Hd Hl. destruct (after_spec a Hs) as [-> Hsp]. split; [done|]. cbn.
  split; [done|]. split; [by eapply decode_snoc_address|].
  intros x [Hx|Hx%list_elem_of_singleton]%elem_of_app; [apply Hl in Hx|]; destruct entry_size_cases; lia.
Qed.

(** Putting an address into a bitmap whose window it fits. *)
Lemma encodes_bitmap pre l start enc a :
  0 <= start -> in_space a -> Z.even enc = false -> decode_from 0 pre = (l, start) ->
  fits start a = true ->
  (forall x, x ∈ l ++ bitmap_addresses start enc -> x < a) ->
  (forall j, 0 <= j -> (forall x, x ∈ l ++ bitmap_addresses start enc -> x < start + j * entry_size) ->
     Z.testbit enc (j + 1) = false) ->
  let enc' := Z.lor enc (2 ^ ((a - start) / entry_size + 1)) in
  encodes (WithBitmap (mkRelrBitmap start (start + relr_bitmap_slots * entry_size) enc'))
    (pre ++ [enc']) ((l ++ bitmap_addresses start enc) ++ [a]).
Proof.
  intros Hst [Hs1 Hs2] He Hd Hf Hl Hclear enc'.
  destruct (fits_position _ _ Hf Hst) as (k & Hk & Ek & Ea). subst enc'. rewrite Ek.
  pose proof slots_bounds as [Hb1 Hb2].
  assert (forall j, k <= j -> Z.testbit enc (j + 1) = false) as Hcl.
  { intros j Hj. apply Hclear; [lia|]. intros x Hx%Hl. destruct entry_size_cases; nia. }
  split; [unfold bitmap_spans; cbn; destruct entry_size_cases; nia|].
  exists pre, l. cbn [rb_start rb_end rb_encoded]. repeat split.
  - apply odd_lor; [lia|done].
  - done.
  - rewrite bitmap_addresses_snoc, Ea by done. by rewrite app_assoc.
  - intros x [Hx%Hl|Hx%list_elem_of_singleton]%elem_of_app; destruct entry_size_cases; nia.
  - intros j Hj Hlt. rewrite Z.lor_spec, testbit_pow2 by lia.
    assert (a < start + j * entry_size) as Haj
      by (apply Hlt, elem_of_app; right; by apply list_elem_of_singleton).
    rewrite Hcl by (destruct entry_size_cases; nia).
    apply bool_decide_false. destruct entry_size_cases; nia.
Qed.

Lemma encodes_decode state entries addrs : encodes state entries addrs -> decode entries = addrs.
Proof.
  unfold decode. destruct state as [|b|b]; cbn.
  - by intros [-> ->].
  - intros (_ & _ & -> & _). done.
  - intros (_ & pre & l0 & -> & He & Hd & -> & _). by rewrite (decode_snoc_bitmap _ _ _ _ _ Hd He).
Qed.

(** What a call does to the entries written so far. *)
Definition entry_after (entries : list Z) (call : Z * RelrEntryEncoding) : list Z :=
  match call.2 with
  | New => entries ++ [call.1]
  | Update => take (length entries - 1) entries ++ [call.1]
  end.

Lemma insert_spans b a :
  bitmap_spans b ->
  insert b a =
    if fits (rb_start b) a then
      (true, mkRelrBitmap (rb_start b) (rb_start b + relr_bitmap_slots * entry_size)
               (Z.lor (rb_encoded b) (2 ^ ((a - rb_start b) / entry_size + 1))))
    else (false, b).
Proof.
  intros (H1 & H2 & H3). pose proof slots_bounds. destruct b as [s e c]; cbn in *. subst e.
  apply insert_spec; destruct entry_size_cases; nia.
Qed.

Lemma encode_encodes state entries addrs a :
  encodes state entries addrs -> in_space a -> Z.even a = true -> (forall x, x ∈ addrs -> x < a) ->
  encodes (encode state a).1 (entry_after entries (encode state a).2) (addrs ++ [a]) /\
  ((encode state a).2.2 = Update -> entries <> []).
Proof.
  intros Henc Hs He Hlt. pose proof slots_bounds as [Hb1 Hb2].
  destruct state as [|b|b]; cbn [encode].
  - destruct Henc as [-> ->]. cbn [fst snd entry_after app]. split; [|done].
    apply (encodes_address [] [] 0); (done || by intros ? ?%elem_of_nil).
  - destruct Henc as (Hsp & Henc1 & Hd & Hl). pose proof Hsp as (Hsp1 & Hsp2 & Hsp3).
    rewrite insert_spans, Henc1 by done. destruct (fits (rb_start b) a) eqn:Ef; cbn [fst snd entry_after].
    + split; [|done]. pose proof (bitmap_addresses_empty (rb_start b)) as Hem.
      pose proof (encodes_bitmap entries addrs (rb_start b) 1 a Hsp1 Hs eq_refl Hd Ef) as H.
      rewrite Hem, app_nil_r in H. apply H; [done|].
      intros j Hj _. apply (testbit_small 1 1); [split; vm_compute; congruence|lia].
    + split; [|done]. by eapply encodes_address.
  - destruct Henc as (Hsp & pre & l0 & -> & Hev & Hd & -> & Hl & Hclear).
    pose proof Hsp as (Hsp1 & Hsp2 & Hsp3).
    rewrite insert_spans by done.
    destruct (fits (rb_start b) a) eqn:Ef; cbn [fst snd].
    + split; [|intros _; by destruct pre]. unfold entry_after. cbn [fst snd rb_encoded].
      rewrite length_app, take_app_length' by (cbn; lia).
      by apply encodes_bitmap.
    + rewrite (next_spec b Hsp), insert_spec by lia.
      pose proof (decode_snoc_bitmap _ _ _ _ _ Hd Hev) as Hd'. rewrite <- Hsp2 in Hd'.
      destruct (fits (rb_end b) a) eqn:Ef'; cbn [fst snd]; (split; [|done]); unfold entry_after; cbn [fst snd rb_encoded].
      * pose proof (bitmap_addresses_empty (rb_end b)) as Hem.
        pose proof (encodes_bitmap (pre ++ [rb_encoded b])
          (l0 ++ bitmap_addresses (rb_start b) (rb_encoded b)) (rb_end b) 1 a ltac:(lia) Hs eq_refl Hd' Ef') as H.
        rewrite Hem, app_nil_r in H. apply H; [done|].
        intros j Hj _. apply (testbit_small 1 1); [split; vm_compute; congruence|lia].
      * by eapply encodes_address.
Qed.

(** *** The two passes stay in step *)
Lemma encode_spans state a : state_spans state -> in_space a -> state_spans (encode state a).1.
Proof.
  intros Hsp Hs. pose proof slots_bounds as [Hb1 Hb2]. pose proof Hs as [Hs1 Hs2].
  assert (forall start enc, 0 <= start -> fits start a = true ->
    bitmap_spans (mkRelrBitmap start (start + relr_bitmap_slots * entry_size) enc)) as Hfit.
  { intros start enc H0 Hf. destruct (fits_position _ _ Hf H0) as (k & Hk & _ & Ea).
    unfold bitmap_spans. cbn. destruct entry_size_cases; nia. }
  destruct (after_spec a Hs) as [_ Haft].
  destruct state as [|b|b]; cbn [encode]; [done|..]; pose proof Hsp as (Hsp1 & Hsp2 & Hsp3);
    rewrite insert_spans by done.
  - destruct (fits _ a) eqn:E; cbn [fst state_spans]; auto.
  - destruct (fits _ a) eqn:E; cbn [fst state_spans]; auto.
    rewrite (next_spec b), insert_spec by (done || lia).
    destruct (fits (rb_end b) a) eqn:E'; cbn [fst state_spans]; auto. apply Hfit; [lia|done].
Qed.

Lemma fits_shift k start a : fits (start + k) (a + k) = fits start a.
Proof.
  unfold fits. replace (a + k - (start + k)) with (a - start) by lia. do 2 f_equal.
  - destruct (Z.leb_spec (start + k) (a + k)), (Z.leb_spec start a); done || lia.
  - destruct (Z.ltb_spec (a + k) (start + k + relr_bitmap_slots * entry_size)),
      (Z.ltb_spec a (start + relr_bitmap_slots * entry_size)); done || lia.
Qed.

Lemma shift_mk k s n e :
  shift_bitmap k (mkRelrBitmap s (s + n) e) = mkRelrBitmap (s + k) (s + k + n) e.
Proof. unfold shift_bitmap. cbn. f_equal. lia. Qed.

Lemma encode_shift k state a :
  state_spans state -> state_spans (shift_state k state) -> in_space a -> in_space (a + k) ->
  (encode (shift_state k state) (a + k)).1 = shift_state k (encode state a).1 /\
  (encode (shift_state k state) (a + k)).2.2 = (encode state a).2.2.
Proof.
  intros Hsp Hsp' Hs Hs'. pose proof slots_bounds as [Hb1 Hb2].
  assert (shift_bitmap k (after a) = after (a + k)) as Hafter.
  { rewrite (proj1 (after_spec a Hs)), (proj1 (after_spec _ Hs')). unfold shift_bitmap. cbn. f_equal; lia. }
  destruct state as [|b|b]; cbn [encode shift_state]; [cbn; by rewrite Hafter|..];
    pose proof Hsp as (H1 & H2 & H3); pose proof Hsp' as (H1' & H2' & H3');
    cbn [shift_bitmap rb_start rb_end] in H1', H2', H3';
    rewrite !insert_spans by done; cbn [shift_bitmap rb_start rb_encoded];
    rewrite fits_shift; replace (a + k - (rb_start b + k)) with (a - rb_start b) by lia.
  - destruct (fits _ a); cbn -[shift_bitmap]; [by rewrite shift_mk|by rewrite Hafter].
  - destruct (fits _ a); cbn [fst snd].
    + cbn [shift_state]. by rewrite shift_mk.
    + rewrite !next_spec by done. cbn [shift_bitmap rb_end].
      rewrite !insert_spec by lia. rewrite fits_shift.
      replace (a + k - (rb_end b + k)) with (a - rb_end b) by lia.
      destruct (fits _ a); cbn -[shift_bitmap]; [by rewrite shift_mk|by rewrite Hafter].
Qed.

Lemma write_addresses_in_step k state offsets entries addrs :
  encodes (shift_state k state) entries addrs -> state_spans state ->
  StronglySorted Z.lt offsets ->
  (forall o, o ∈ offsets -> in_space o /\ in_space (o + k) /\ Z.even (o + k) = true) ->
  (forall x o, x ∈ addrs -> o ∈ offsets -> x < o + k) ->
  exists state' entries',
    write_addresses (mkRelrWriter (shift_state k state) (allocate state offsets) entries)
      (map (fun o => o + k) offsets) = Ok (mkRelrWriter state' 0 entries') /\
    encodes state' entries' (addrs ++ map (fun o => o + k) offsets).
Proof.
  intros Henc Hsp Hsorted. revert state entries addrs Henc Hsp.
  induction Hsorted as [|o offsets Hsorted IH Hlt]; intros state entries addrs Henc Hsp Hall Hbelow.
  { cbn. rewrite app_nil_r. eauto. }
  destruct (Hall o) as (Hs & Hs' & He); [by left|].
  assert (state_spans (shift_state k state)) as Hspk.
  { destruct state as [|b|b]; cbn in *; [done|apply Henc|apply Henc]. }
  destruct (encode_shift k state o) as [Est Eenc]; [done..|].
  destruct (encode_encodes _ _ _ (o + k) Henc Hs' He) as [Henc' Hne].
  { intros x Hx. apply Hbelow; [done|by left]. }
  pose proof (encode_spans state o Hsp Hs) as Hsp'.
  cbn [map write_addresses allocate].
  destruct (encode state o) as [s1 [v1 e1]]. cbn [fst snd] in *.
  cbn [rw_state rw_free rw_entries].
  destruct (encode (shift_state k state) (o + k)) as [s2 [v2 e2]]. cbn [fst snd] in *. subst s2 e2.
  assert (forall free, write_entry (match e1 with New => S free | Update => free end) entries (v2, e1) =
            Ok (free, entry_after entries (v2, e1))) as Hwrite.
  { intros free. unfold entry_after. destruct e1; cbn; [done|].
    destruct entries; [by destruct Hne|done]. }
  specialize (Hwrite (allocate s1 offsets)).
  replace (match e1 with New => S (allocate s1 offsets) | Update => allocate s1 offsets end)
    with (match e1 with New => S (allocate s1 offsets) | Update => allocate s1 offsets end) in * by done.
  rewrite Hwrite. unfold mbind, res_bind.
  destruct (IH s1 (entry_after entries (v2, e1)) (addrs ++ [o + k])) as (st' & en' & Hw & Hen); try done.
  - intros o' Ho'. apply Hall. by right.
  - intros x o' [Hx|Hx%list_elem_of_singleton]%elem_of_app Ho'.
    + apply Hbelow; [done|by right].
    + subst. rewrite Forall_forall in Hlt. specialize (Hlt o' Ho'). lia.
  - exists st', en'. split; [exact Hw|]. by rewrite <- app_assoc in Hen.
Qed.

(** *** The GOT block *)
Lemma full_bitmap_eq slots :
  0 < slots <= 63 ->
  Z.lor (wshl 64 (wsub 64 (wshl 64 1 slots) 1) 1) 1 = Z.ones (slots + 1).
Proof.
  intros H. rewrite mask_ones by lia.
  assert (0 < 2 ^ slots) by (apply Z.pow_pos_nonneg; lia).
  rewrite wshl_small; [|apply (in_u_weaken slots); [unfold in_u; rewrite Z.ones_equiv; lia|lia]|lia].
  apply Z.bits_inj'; intros i Hi. rewrite Z.lor_spec, Z.shiftl_spec by done.
  destruct (decide (i = 0)) as [->|];
    [by rewrite (Z.testbit_neg_r _ (0 - 1)), Z.ones_spec_low by lia|].
  replace (Z.testbit 1 i) with false
    by (symmetry; apply (testbit_small 1 1); [split; vm_compute; congruence|lia]).
  rewrite orb_false_r. destruct (decide (i <= slots)).
  - by rewrite !Z.ones_spec_low by lia.
  - by rewrite !Z.ones_spec_high by lia.
Qed.

Lemma bitmap_addresses_ones base slots :
  0 <= slots <= relr_bitmap_slots ->
  bitmap_addresses base (Z.ones (slots + 1)) = map (fun i => base + i * entry_size) (seqZ 0 slots).
Proof.
  intros H. unfold bitmap_addresses. replace relr_bitmap_slots with (slots + (relr_bitmap_slots - slots)) by lia.
  rewrite seqZ_app, List.filter_app by lia. rewrite (filter_none _ (seqZ (0 + slots) _)).
  - rewrite app_nil_r. f_equal. rewrite List.forallb_filter_id; [done|].
    apply List.forallb_forall. intros i Hi%list_elem_of_In%elem_of_seqZ. by rewrite Z.ones_spec_low by lia.
  - intros i Hi%elem_of_seqZ. by rewrite Z.ones_spec_high by lia.
Qed.

Lemma got_bitmaps_spec fuel remaining base :
  0 <= remaining <= Z.of_nat fuel ->
  (decode_from base (got_bitmaps fuel remaining)).1 =
    map (fun i => base + i * entry_size) (seqZ 0 remaining) /\
  Z.of_nat (length (got_bitmaps fuel remaining)) =
    (remaining + (relr_bitmap_slots - 1)) / relr_bitmap_slots.
Proof.
  pose proof slots_bounds as [Hb _].
  revert remaining base; induction fuel as [|fuel IH]; intros remaining base Hr.
  { replace remaining with 0 by lia. cbn. rewrite Z.div_small; [done|lia]. }
  cbn [got_bitmaps]. destruct (0 <? remaining) eqn:E; [apply Z.ltb_lt in E|apply Z.ltb_ge in E].
  2: { replace remaining with 0 by lia. cbn. rewrite Z.div_small; [done|lia]. }
  set (slots := Z.min remaining relr_bitmap_slots).
  rewrite full_bitmap_eq by lia. cbn [decode_from length].
  assert (Z.even (Z.ones (slots + 1)) = false) as ->.
  { rewrite <- Z.negb_odd, <- Z.bit0_odd, Z.ones_spec_low by lia. done. }
  destruct (IH (Z.max 0 (remaining - relr_bitmap_slots)) (base + relr_bitmap_slots * entry_size)) as [IH1 IH2]; [lia|].
  destruct (decode_from _ (got_bitmaps fuel _)) as [l b] eqn:Ed. cbn [fst] in IH1 |- *.
  rewrite bitmap_addresses_ones by lia. split.
  - rewrite IH1. destruct (decide (remaining <= relr_bitmap_slots)).
    + replace (Z.max 0 (remaining - relr_bitmap_slots)) with 0 by lia. cbn [seqZ map]. 
      replace slots with remaining by lia. apply app_nil_r.
    + replace slots with relr_bitmap_slots by lia.
      replace (Z.max 0 (remaining - relr_bitmap_slots)) with (remaining - relr_bitmap_slots) by lia.
      replace remaining with (relr_bitmap_slots + (remaining - relr_bitmap_slots)) at 2 by lia.
      rewrite seqZ_app, List.map_app by lia. f_equal.
      replace (0 + relr_bitmap_slots) with (relr_bitmap_slots + 0) by lia.
      rewrite <- (fmap_add_seqZ relr_bitmap_slots 0).
      unfold fmap. rewrite List.map_map. apply List.map_ext. intros; lia.
  - rewrite Nat2Z.inj_succ, IH2. destruct (decide (remaining <= relr_bitmap_slots)).
    + replace (Z.max 0 (remaining - relr_bitmap_slots)) with 0 by lia.
      rewrite Z.div_small by lia. apply Z.div_unique with (remaining - 1); lia.
    + replace (Z.max 0 (remaining - relr_bitmap_slots)) with (remaining - relr_bitmap_slots) by lia.
      rewrite <- Z.add_1_r. rewrite <- Z.div_add by lia. f_equal. lia.
Qed.

(** ** Theorems *)

(** C36. RELR packing is exact.  The allocation pass, run on a section's ascending
    relocation offsets, reserves exactly the entries the writing pass needs at the
    section's final address [k]: writing succeeds and leaves none over, and the loader's
    decoding of the written entries is the list of relocated places. *)
Theorem relr_roundtrip offsets k :
  StronglySorted Z.lt offsets ->
  (forall o, o ∈ offsets -> in_space o /\ in_space (o + k) /\ Z.even (o + k) = true) ->
  exists state entries,
    write_addresses (mkRelrWriter NoRun (allocate NoRun offsets) []) (map (fun o => o + k) offsets) =
      Ok (mkRelrWriter state 0 entries) /\
    decode entries = map (fun o => o + k) offsets.
Proof.
  intros Hs Hall.
  destruct (write_addresses_in_step k NoRun offsets [] []) as (st & en & Hw & Hen); try done.
  { by intros ? ? ?%elem_of_nil. }
  exists st, en. split; [exact Hw|]. by apply encodes_decode in Hen.
Qed.

(** The GOT block's RELR entries relocate its [n] slots in order, and there
    are as many of them as [got_relr_bitmap_relr_count] reserved. *)
Theorem got_relr_bitmap_exact n base :
  0 < n < 2 ^ 64 -> 0 < base -> Z.even base = true ->
  decode (write_got_relr_bitmap n base) = map (fun i => base + i * entry_size) (seqZ 0 n) /\
  Z.of_nat (length (write_got_relr_bitmap n base)) = got_relr_bitmap_relr_count n.
Proof.
  intros Hn Hb He. unfold write_got_relr_bitmap, got_relr_bitmap_relr_count.
  rewrite (proj2 (Z.eqb_neq base 0)), (proj2 (Z.eqb_neq n 0)) by lia. cbn [orb].
  destruct (got_bitmaps_spec (Z.to_nat n) (n - 1) (base + entry_size)) as [H1 H2]; [lia|].
  unfold decode. cbn [decode_from length]. rewrite He.
  destruct (decode_from (base + entry_size) _) as [l b]. cbn [fst] in *. split.
  - rewrite H1. replace n with (1 + (n - 1)) at 2 by lia. rewrite seqZ_app, List.map_app by lia.
    change (seqZ 0 1) with [0]. cbn [map app]. f_equal; [lia|].
    change (0 + 1) with (1 + 0). rewrite <- (fmap_add_seqZ 1 0). unfold fmap. rewrite List.map_map.
    apply List.map_ext. intros; lia.
  - rewrite Nat2Z.inj_succ, H2, Z.max_r by lia. lia.
Qed.

End Relr.

Lemma relr_roundtrip_witness :
  exists state entries,
    write_addresses 8 (mkRelrWriter NoRun (allocate 8 NoRun [0; 8; 24; 600; 4096]) [])
      [0x10000; 0x10008; 0x10018; 0x10258; 0x11000] = Ok (mkRelrWriter state 0 entries) /\
    decode 8 entries = [0x10000; 0x10008; 0x10018; 0x10258; 0x11000].
Proof.
  apply (relr_roundtrip 8 (or_intror eq_refl) [0; 8; 24; 600; 4096] 0x10000).
  - repeat constructor.
  - intros o Ho. apply list_elem_of_In in Ho. unfold in_space, relr_bitmap_slots.
    repeat destruct Ho as [<-|Ho]; try destruct Ho; repeat split; vm_compute; congruence.
Defined.

Lemma got_relr_bitmap_exact_witness :
  decode 8 (write_got_relr_bitmap 8 100 0x2000) = map (fun i => 0x2000 + i * 8) (seqZ 0 100) /\
  Z.of_nat (length (write_got_relr_bitmap 8 100 0x2000)) = got_relr_bitmap_relr_count 8 100.
Proof.
  apply (got_relr_bitmap_exact 8 (or_intror eq_refl) 100 0x2000).
  - lia.
  - lia.
  - reflexivity.
Defined.
