(* ===== verification/RelocValue.v ===== *)
(** The value of a relocation: [apply_relocation] and its helpers in
    [libjdxld/src/elf_writer.rs], the [Resolution] methods and page masks of
    [libjdxld/src/elf.rs], and the merged-string lookup of
    [libjdxld/src/string_merging.rs]. *)
From Stdlib Require Import ZArith Lia.
From stdpp Require Import base list list_numbers numbers strings option.
From S2P Require Import Prelude Bits BitMisc Elf Relaxation AArch64 RiscV64 LoongArch64 Ppc64 X86_64 Reloc ValueFlags.

Local Open Scope Z_scope.

#[export] Instance R_RISCV_eq_dec : EqDecision R_RISCV.
Proof. solve_decision. Defined.
#[export] Instance R_LARCH_eq_dec : EqDecision R_LARCH.
Proof. solve_decision. Defined.

(** [r_type == other], for the two targets that have ULEB128 pairs. *)
Definition same_r_type (a b : RelocationType) : bool :=
  match a, b with
  | RT_RISCV a, RT_RISCV b => bool_decide (a = b)
  | RT_LARCH a, RT_LARCH b => bool_decide (a = b)
  | _, _ => false
  end.

(** ** Page masks *)
Record PageMaskValue := mkPageMaskValue {
  pm_symbol_plus_addend : Z;
  pm_got_entry : Z;
  pm_place : Z;
  pm_got : Z
}.

Definition U64_MAX : Z := 2 ^ 64 - 1.

Definition get_page_mask (mask : option PageMask) : PageMaskValue :=
  match mask with
  | None => mkPageMaskValue U64_MAX U64_MAX U64_MAX U64_MAX
  | Some (PageMask.SymbolPlusAddendAndPosition mask) =>
      mkPageMaskValue (wnot 64 mask) U64_MAX (wnot 64 mask) U64_MAX
  | Some (PageMask.GotEntryAndPosition mask) =>
      mkPageMaskValue U64_MAX (wnot 64 mask) (wnot 64 mask) U64_MAX
  | Some (PageMask.GotBase mask) => mkPageMaskValue U64_MAX U64_MAX U64_MAX (wnot 64 mask)
  | Some (PageMask.Position mask) => mkPageMaskValue U64_MAX U64_MAX (wnot 64 mask) U64_MAX
  end.

(** ** Output kinds *)
Inductive RelocationModel := NonRelocatable | PositionIndependent.

Inductive OutputKind :=
| StaticExecutable (model : RelocationModel)
| DynamicExecutable (model : RelocationModel)
| SharedObject
| PartialLink.

Definition is_shared_object (k : OutputKind) : bool :=
  match k with SharedObject => true | _ => false end.

Definition is_position_independent (k : OutputKind) : bool :=
  match k with
  | SharedObject | DynamicExecutable PositionIndependent | StaticExecutable PositionIndependent => true
  | _ => false
  end.

(** ** Symbols, sections and resolutions *)
Record Symbol := mkSymbol {
  sym_section : option Z;
  sym_value : Z;
  sym_has_name : bool
}.

(** The slots of an input section; only a merged-string slot is looked into. *)
Inductive SectionSlot :=
| Discard | Unloaded | MustLoad | Loaded | Sorted | FrameData
| MergeStrings (start_input_offset : Z)
| UnloadedDebugInfo | LoadedDebugInfo | NoteGnuProperty | RiscvVAttributes.

Record ObjectLayout := mkObjectLayout {
  ol_sections : list SectionSlot;
  ol_section_id_start : Z
}.

Record Resolution := mkResolution {
  raw_value : Z;
  dynamic_symbol_index_opt : option Z;
  flags : Z;
  got_address_opt : option Z;
  plt_address_opt : option Z
}.

Section Values.

(** [C::GOT_ENTRY_SIZE]. *)
Variable got_entry_size : Z.

(** [find_string] in the output section of a part, added to the address of its
    bucket: part, slot start, input offset. *)
Variable merged_string_address : Z -> Z -> Z -> res Z.

Definition got_address (r : Resolution) : res Z :=
  match got_address_opt r with Some a => Ok a | None => Err "Missing GOT address" end.

Definition got_address_for_relocation (r : Resolution) : res Z :=
  got_address ← got_address r;
  Ok (if needs_ifunc_got_for_address (flags r) then wadd 64 got_address got_entry_size else got_address).

Definition tlsgd_got_address (r : Resolution) : res Z :=
  got_address ← got_address r;
  Ok (if needs_got_tls_offset (flags r) then wadd 64 got_address got_entry_size else got_address).

Definition tls_descriptor_got_address (r : Resolution) : res Z :=
  got_address ← got_address r;
  let got_address :=
    if needs_got_tls_offset (flags r) then wadd 64 got_address got_entry_size else got_address in
  let got_address :=
    if needs_got_tls_module (flags r) then wadd 64 got_address (wmul 64 2 got_entry_size)
    else got_address in
  Ok got_address.

Definition plt_address (r : Resolution) : res Z :=
  match plt_address_opt r with Some a => Ok a | None => Err "Missing PLT address" end.

Definition dynamic_symbol_index (r : Resolution) : res Z :=
  match dynamic_symbol_index_opt r with
  | Some i => Ok i
  | None => Err "Missing dynamic_symbol_index"
  end.

Definition get_merged_string_output_address (symbol : Symbol) (addend : Z) (object : ObjectLayout)
    (section_part_ids : list Z) (zero_unnamed : bool) : res (option Z) :=
  match sym_section symbol with
  | None => Ok None
  | Some section_index =>
      let input_section_id := ol_section_id_start object + section_index in
      match ol_sections object !! Z.to_nat section_index with
      | None => Panic
      | Some (MergeStrings start_input_offset) =>
          if negb (sym_has_name symbol) && zero_unnamed then Ok (Some 0)
          else
            let input_offset :=
              if sym_has_name symbol then sym_value symbol
              else wadd 64 (sym_value symbol) (wrap 64 addend) in
            part_id ← get_at section_part_ids input_section_id;
            address ← merged_string_address part_id start_input_offset input_offset;
            Ok (Some (if sym_has_name symbol then wadd 64 address (wrap 64 addend) else address))
      | Some _ => Ok None
      end
  end.

Definition value_with_addend (r : Resolution) (addend : Z) (symbol : Symbol)
    (object : ObjectLayout) (section_part_ids : list Z) : res Z :=
  if is_ifunc (flags r) then
    plt ← plt_address r; Ok (wadd 64 plt (wrap 64 addend))
  else
    merged ← (if raw_value r =? 0
              then get_merged_string_output_address symbol addend object section_part_ids false
              else Ok None);
    match merged with
    | Some address => Ok address
    | None => Ok (wadd 64 (raw_value r) (wrap 64 addend))
    end.

(** ** Absolute relocations: the value written in place, and the dynamic
    relocation that is written to the tables *)
Inductive TableEffect :=
| NoEffect
| SymbolRelocation (place addend symbol : Z)
| IfuncRelocation (place resolver_address : Z)
| RelrEntry (place : Z)
| RelativeRela (place addend : Z).

Record SectionInfo := mkSectionInfo {
  section_address : Z;
  is_writable : bool;
  is_alloc : bool
}.

Definition write_address_relocation (relr_dyn : bool) (place relative_address : Z) : Z * TableEffect :=
  if relr_dyn && is_multiple_of place 2 then (relative_address, RelrEntry place)
  else (0, RelativeRela place (signed 64 relative_address)).

Definition write_absolute_relocation (relr_dyn : bool) (output_kind : OutputKind) (r : Resolution)
    (place addend : Z) (section_info : SectionInfo) (symbol : Symbol) (object : ObjectLayout)
    (section_part_ids : list Z) : res (Z * TableEffect) :=
  let value := value_with_addend r addend symbol object section_part_ids in
  if negb (is_alloc section_info) then v ← value; Ok (v, NoEffect)
  else if is_dynamic (flags r) && is_absolute (flags r) && negb (is_writable section_info) then
    Ok (0, NoEffect)
  else if is_interposable (flags r) && is_writable section_info then
    index ← dynamic_symbol_index r; Ok (0, SymbolRelocation place addend index)
  else if is_ifunc (flags r) && is_writable section_info && is_position_independent output_kind then
    Ok (0, IfuncRelocation place (signed 64 (signed 64 (raw_value r) + addend)))
  else if is_position_independent output_kind && negb (is_absolute (flags r)) then
    address ← value; Ok (write_address_relocation relr_dyn place address)
  else v ← value; Ok (v, NoEffect).

(** ** Everything else [apply_relocation] reads *)
Record Relocation := mkRelocation {
  rel_offset : Z;
  rel_type : RelocationType;
  rel_addend : Z;
  rel_symbol : Symbol;
  rel_resolution : Resolution
}.

(** A relocation that an [R_RISCV_PCREL_LO12] may point back to, with its kind. *)
Record HighPart := mkHighPart { hp_relocation : Relocation; hp_kind : RelocationKind }.

Record Env := mkEnv {
  env_place : Z;
  env_section : SectionInfo;
  env_object : ObjectLayout;
  env_part_ids : list Z;
  env_output_kind : OutputKind;
  env_relr_dyn : bool;
  env_got_base : Z;
  env_tls_start : Z;
  env_tls_end : Z;
  env_tp_offset_start : Z;
  env_tlsld_got_entry : option Z;
  env_undefined : bool;
  env_branch_local_entry : Z;
  (* keyed by output offset, newest first, and the ones still to come *)
  env_high_part_symbols : list (Z * HighPart);
  env_following_high_parts : list (Z * HighPart);
  env_previous : option Relocation
}.

Definition find_offset (offset : Z) (l : list (Z * HighPart)) : option HighPart :=
  snd <$> List.find (fun e => e.1 =? offset) l.

Definition tlsld_got_entry (env : Env) : res Z :=
  match env_tlsld_got_entry env with Some a => Ok a | None => Panic end.

(** [&layout.symbol_db.section_part_ids[object_layout.section_id_range.as_usize()]]. *)
Definition object_part_ids (env : Env) : res (list Z) :=
  let start := ol_section_id_start (env_object env) in
  slice (env_part_ids env) start (start + Z.of_nat (length (ol_sections (env_object env)))).

Definition low12_value (env : Env) (rel : Relocation) (bias : Z) : res Z :=
  let value := value_with_addend (rel_resolution rel) (rel_addend rel) (rel_symbol rel)
                 (env_object env) (env_part_ids env) in
  _ ← ensure (rel_addend rel =? 0) "Unexpected addend for R_RISCV_PCREL_LO12 relocation";
  address ← value;
  let hi_offset_in_section := wsub 64 address (section_address (env_section env)) in
  match (match find_offset hi_offset_in_section (env_high_part_symbols env) with
         | Some h => Some h
         | None => find_offset hi_offset_in_section (env_following_high_parts env)
         end) with
  | None => Err "Missing High relocation connected with R_RISCV_PCREL_LO12"
  | Some (mkHighPart hi_rel hi_kind) =>
      let addend := wrap 64 (rel_addend hi_rel) in
      let resolution := rel_resolution hi_rel in
      let place := wadd 64 (section_address (env_section env)) hi_offset_in_section in
      let finish v := wsub 64 (wadd 64 v bias) place in
      match hi_kind with
      | RelKind.Relative =>
          part_ids ← object_part_ids env;
          v ← value_with_addend resolution (rel_addend hi_rel) (rel_symbol hi_rel)
                (env_object env) part_ids;
          Ok (finish v)
      | RelKind.GotRelative =>
          v ← got_address_for_relocation resolution; Ok (finish (wadd 64 v addend))
      | RelKind.TlsGd => v ← tlsgd_got_address resolution; Ok (finish (wadd 64 v addend))
      | RelKind.TlsLd => v ← tlsld_got_entry env; Ok (finish (wadd 64 v addend))
      | RelKind.GotTpOff => v ← got_address resolution; Ok (finish (wadd 64 v addend))
      | _ => Err "Unsupported high part relocation {:?} connected with R_RISCV_PCREL_LO12"
      end
  end.

Definition get_pair_subtraction_relocation_value (env : Env) (rel set_rel : Relocation)
    (expected_r_type : RelocationType) : res Z :=
  _ ← ensure (rel_offset set_rel =? rel_offset rel)
        "PairSubtractionULEB128 relocation must have equal offset";
  _ ← ensure (same_r_type (rel_type set_rel) expected_r_type)
        "unexpected previous relocation: expected: {}, was: {}";
  set_resolution_val ← value_with_addend (rel_resolution set_rel) (rel_addend set_rel)
                         (rel_symbol set_rel) (env_object env) (env_part_ids env);
  sub_resolution_val ← value_with_addend (rel_resolution rel) (rel_addend rel)
                         (rel_symbol rel) (env_object env) (env_part_ids env);
  Ok (wsub 64 set_resolution_val sub_resolution_val).

(** The [match rel_info.kind] of [apply_relocation]. *)
Definition relocation_value (env : Env) (rel_info : RelocationKindInfo) (rel : Relocation) :
    res (Z * TableEffect) :=
  let resolution := rel_resolution rel in
  let place := env_place env in
  let mask := get_page_mask (rki_mask rel_info) in
  let bias := rki_bias rel_info in
  let addend := wrap 64 (rel_addend rel) in
  let with_addend := value_with_addend resolution (rel_addend rel) (rel_symbol rel)
                       (env_object env) (env_part_ids env) in
  (* [.wrapping_add(addend).wrapping_add(bias).bitand(mask.got_entry)] *)
  let got_entry v := Z.land (wadd 64 (wadd 64 v addend) bias) (pm_got_entry mask) in
  let from_place v := wsub 64 v (Z.land place (pm_place mask)) in
  let from_got v := wsub 64 v (Z.land (env_got_base env) (pm_got mask)) in
  let plain (m : res Z) : res (Z * TableEffect) := v ← m; Ok (v, NoEffect) in
  match rki_kind rel_info with
  | RelKind.Absolute =>
      write_absolute_relocation (env_relr_dyn env) (env_output_kind env) resolution place
        (rel_addend rel) (env_section env) (rel_symbol rel) (env_object env) (env_part_ids env)
  | RelKind.AbsoluteSet | RelKind.AbsoluteSetWord6 | RelKind.AbsoluteAddition
  | RelKind.AbsoluteAdditionWord6 | RelKind.AbsoluteSubtraction
  | RelKind.AbsoluteSubtractionWord6 => plain with_addend
  | RelKind.AbsoluteLowPart =>
      plain (v ← with_addend; Ok (Z.land v (pm_symbol_plus_addend mask)))
  | RelKind.Relative =>
      plain (v ← with_addend;
             Ok (from_place (Z.land (wadd 64 (wadd 64 v (env_branch_local_entry env)) bias)
                               (pm_symbol_plus_addend mask))))
  | RelKind.RelativeLoongArchHigh =>
      plain (v ← with_addend; Ok (highest_relocation_with_bias v place))
  | RelKind.RelativeRiscVLow12 => plain (low12_value env rel bias)
  | RelKind.PairSubtractionULEB128 expected_r_type =>
      match env_previous env with
      | Some set_rel => plain (get_pair_subtraction_relocation_value env rel set_rel expected_r_type)
      | None => Err "Missing previous relocation for PairSubtractionULEB128"
      end
  | RelKind.GotRelative =>
      plain (v ← got_address_for_relocation resolution;
             Ok (from_place (Z.land (wadd 64 (wadd 64 v bias) addend) (pm_got_entry mask))))
  | RelKind.GotRelativeLoongArch64 =>
      plain (v ← got_address_for_relocation resolution;
             Ok (highest_relocation_with_bias (wadd 64 v addend) place))
  | RelKind.GotRelGotBase =>
      plain (v ← got_address_for_relocation resolution; Ok (from_got (got_entry v)))
  | RelKind.Got =>
      plain (v ← (if needs_got_tls_module (flags resolution) then tlsgd_got_address resolution
                  else got_address_for_relocation resolution);
             Ok (Z.land (wadd 64 v bias) (pm_got_entry mask)))
  | RelKind.SymRelGotBase =>
      plain (v ← with_addend; Ok (from_got (Z.land (wadd 64 v bias) (pm_symbol_plus_addend mask))))
  | RelKind.PltRelGotBase => plain (v ← plt_address resolution; Ok (from_got (wadd 64 v bias)))
  | RelKind.PltRelative =>
      plain (v ← plt_address resolution; Ok (from_place (wadd 64 (wadd 64 v addend) bias)))
  | RelKind.TlsGd => plain (v ← tlsgd_got_address resolution; Ok (from_place (got_entry v)))
  | RelKind.TlsGdGot => plain (v ← tlsgd_got_address resolution; Ok (got_entry v))
  | RelKind.TlsGdGotBase => plain (v ← tlsgd_got_address resolution; Ok (from_got (got_entry v)))
  | RelKind.TlsLd => plain (v ← tlsld_got_entry env; Ok (from_place (got_entry v)))
  | RelKind.TlsLdGot => plain (v ← tlsld_got_entry env; Ok (got_entry v))
  | RelKind.TlsLdGotBase => plain (v ← tlsld_got_entry env; Ok (from_got (got_entry v)))
  | RelKind.DtpOff =>
      let v := wadd 64 (wadd 64 (raw_value resolution) addend) bias in
      plain (Ok (wsub 64 v (if is_shared_object (env_output_kind env) then env_tls_start env
                            else env_tls_end env)))
  | RelKind.GotTpOff => plain (v ← got_address resolution; Ok (from_place (got_entry v)))
  | RelKind.GotTpOffLoongArch64 =>
      plain (v ← got_address resolution; Ok (highest_relocation_with_bias (wadd 64 v addend) place))
  | RelKind.GotTpOffGot => plain (v ← got_address resolution; Ok (got_entry v))
  | RelKind.GotTpOffGotBase => plain (v ← got_address resolution; Ok (from_got (got_entry v)))
  | RelKind.TpOff =>
      plain (Ok (if env_undefined env then wadd 64 addend bias
                 else wsub 64 (wadd 64 (wadd 64 (raw_value resolution) addend) bias)
                        (env_tp_offset_start env)))
  | RelKind.TlsDesc =>
      plain (v ← tls_descriptor_got_address resolution; Ok (from_place (got_entry v)))
  | RelKind.TlsDescLoongArch64 =>
      plain (v ← tls_descriptor_got_address resolution;
             Ok (highest_relocation_with_bias (wadd 64 v addend) place))
  | RelKind.TlsDescGot => plain (v ← tls_descriptor_got_address resolution; Ok (got_entry v))
  | RelKind.TlsDescGotBase =>
      plain (v ← tls_descriptor_got_address resolution; Ok (from_got (got_entry v)))
  | RelKind.None | RelKind.TlsDescCall => plain (Ok 0)
  | RelKind.Alignment => Panic
  end.

(** ** Range-extension thunks *)
Record ThunkEnv := mkThunkEnv {
  thunk_config : bool;                        (* [A::thunk_config().is_some()] *)
  thunk_block : list (Z * Z);                 (* the block serving the section: symbol, address *)
  thunk_symbol : Z                            (* the canonical symbol *)
}.

Definition maybe_get_thunk_for_relocation (thunks : ThunkEnv) (rel_info : RelocationKindInfo)
    (place value : Z) : res (option Z) :=
  if negb (thunk_config thunks) then Ok None
  else if negb (rki_thunkable rel_info) then Ok None
  else if Elf.contains (rki_range rel_info) (signed 64 value) then Ok None
  else
    match List.find (fun e => e.1 =? thunk_symbol thunks) (thunk_block thunks) with
    | Some (_, thunk_address) =>
        if thunk_address =? 0 then Err "Thunk address not yet allocated for symbol {}"
        else
          let mask := get_page_mask (rki_mask rel_info) in
          Ok (Some (wsub 64 (Z.land (wadd 64 thunk_address (rki_bias rel_info))
                               (pm_symbol_plus_addend mask))
                      (Z.land place (pm_place mask))))
    | None => Err "Branch relocation out of range by {over} for symbol {sym} but no thunk allocated"
    end.

(** The end of [apply_relocation]: the value, adjusted by the content and by
    thunks, goes into the section. *)
Definition write_relocation (leb128_write : Z -> list Z) (env : Env) (thunks : ThunkEnv)
    (rel_info : RelocationKindInfo) (rel : Relocation) (out : list Z) (offset_in_section : Z) :
    res (list Z * TableEffect) :=
  '(value, effect) ← relocation_value env rel_info rel;
  value ← (if updates_content (rki_kind rel_info)
           then adjust_value_based_on_content rel_info value out offset_in_section else Ok value);
  thunked ← maybe_get_thunk_for_relocation thunks rel_info (env_place env) value;
  let value := match thunked with Some v => v | None => value end in
  out ← update_from out offset_in_section (write_to_buffer leb128_write rel_info value);
  Ok (out, effect).

End Values.

(** ** Specification *)

(** The instruction word at the offset received a field from which [value] is
    read back, the bytes before it did not change, and no table entry was made. *)
Definition field_written (gs : Z) (ms : Z -> Z -> Z -> res Z) (lw : Z -> list Z)
    (env : Env) (thunks : ThunkEnv) (info : RelocationKindInfo) (rel : Relocation)
    (i : RelocationInstruction) (pre : list Z) (w : Z) (post : list Z) (value : Z * bool) : Prop :=
  exists o,
    write_relocation gs ms lw env thunks info rel (pre ++ le_bytes 4 w ++ post)
      (Z.of_nat (length pre)) = Ok (pre ++ o, NoEffect) /\
    read_value i o = Ok value.

(** The address [S + A] a relocation refers to. *)
Definition target (ms : Z -> Z -> Z -> res Z) (env : Env) (rel : Relocation) : res Z :=
  value_with_addend ms (rel_resolution rel) (rel_addend rel) (rel_symbol rel)
    (env_object env) (env_part_ids env).

Definition page (x : Z) : Z := x - x mod 4096.

(** What [pcalau12i], [addi.d], [lu32i.d], [lu52i.d] and [add.d] compute from
    their immediates. *)
Definition pcala_address (pc hi20 lo12 lo20 hi12 : Z) : Z :=
  let base := wrap 64 (page pc + signed 20 hi20 * 4096) in
  let tmp := wrap 32 (signed 12 lo12) + lo20 * 2 ^ 32 + hi12 * 2 ^ 52 in
  wrap 64 (base + tmp).

(** A static link for the witnesses: one object, no dynamic tables. *)
Definition sample_env (place : Z) : Env :=
  mkEnv place (mkSectionInfo 0x10000 false true) (mkObjectLayout [Loaded; Loaded] 0) [5; 6]
    (StaticExecutable NonRelocatable) false 0x20000 0x30000 0x30010 0x30010 None false 0 [] [] None.

Definition sample_rel (r_type : RelocationType) (value : Z) : Relocation :=
  mkRelocation 0 r_type 0 (mkSymbol (Some 1) 0 true) (mkResolution value None DIRECT None None).

Definition no_thunks : ThunkEnv := mkThunkEnv false [] 0.

Definition pcala_row (k : nat) : R_LARCH :=
  match k with
  | O => R_LARCH_PCALA_HI20 | 1%nat => R_LARCH_PCALA_LO12
  | 2%nat => R_LARCH_PCALA64_LO20 | _ => R_LARCH_PCALA64_HI12
  end.

Definition pcala_form (k : nat) : LoongArch64Instruction :=
  match k with O | 2%nat => LA.Shift5 | _ => LA.Shift10 end.

(** The high-part rows use the whole address and no bias. *)
Definition high_row (r_type : R_RISCV) : bool :=
  match r_type with
  | R_RISCV_PCREL_HI20 | R_RISCV_GOT_HI20 | R_RISCV_TLS_GOT_HI20 | R_RISCV_TLS_GD_HI20 => true
  | _ => false
  end.

(** What the code does when it meets the high part itself, at its own place. *)
Definition at_high_part (env : Env) (offset : Z) : Env :=
  mkEnv (wadd 64 (section_address (env_section env)) offset) (env_section env) (env_object env)
    (env_part_ids env) (env_output_kind env) (env_relr_dyn env) (env_got_base env)
    (env_tls_start env) (env_tls_end env) (env_tp_offset_start env) (env_tlsld_got_entry env)
    (env_undefined env) (env_branch_local_entry env) (env_high_part_symbols env)
    (env_following_high_parts env) (env_previous env).

(** The value does not depend on the table of sections: the symbol has an address
    of its own. *)
Definition has_address (rel : Relocation) : bool :=
  is_ifunc (flags (rel_resolution rel)) || negb (raw_value (rel_resolution rel) =? 0).

(** An [auipc] at 0x10010 against [value], met before its low part at 0x10014. *)
Definition sample_high_part (value : Z) (symbol : Symbol) : HighPart :=
  mkHighPart
    (mkRelocation 0x10 (RT_RISCV R_RISCV_PCREL_HI20) 0 symbol (mkResolution value None DIRECT None None))
    RelKind.Relative.

Definition sample_low_env (object : ObjectLayout) (value : Z) (symbol : Symbol) : Env :=
  mkEnv 0x10014 (mkSectionInfo 0x10000 false true) object [5; 6; 7; 8]
    (StaticExecutable NonRelocatable) false 0x20000 0x30000 0x30010 0x30010 None false 0
    [(0x10, sample_high_part value symbol)] [] None.

(** The address a call ends up at: its own target when the branch reaches it,
    else the thunk that serves the section. *)
Definition call_destination (thunks : ThunkEnv) (info : RelocationKindInfo) (place destination : Z) :
    option Z :=
  if Elf.contains (rki_range info) (signed 64 (wsub 64 destination place)) then Some destination
  else
    match List.find (fun e => e.1 =? thunk_symbol thunks) (thunk_block thunks) with
    | Some (_, a) => if a =? 0 then None else Some a
    | None => None
    end.

Definition reachable (place a : Z) : Prop :=
  in_i 28 (signed 64 (wsub 64 a place)) /\ signed 64 (wsub 64 a place) mod 4 = 0.

(** ** Lemmas *)
Lemma copy_at_write_tail pre tail f o :
  f tail = Ok o -> update_from (pre ++ tail) (Z.of_nat (length pre)) f = Ok (pre ++ o).
Proof.
  intros H. unfold update_from. rewrite decide_True by (rewrite length_app; lia).
  rewrite Nat2Z.id, drop_app_length, take_app_length. by rewrite H.
Qed.

Lemma land_u64_max x : in_u 64 x -> Z.land x U64_MAX = x.
Proof. intros. change U64_MAX with (Z.ones 64). by apply masked. Qed.

Lemma land_page x : in_u 64 x -> Z.land x (wnot 64 PAGE_MASK_4KB) = page x.
Proof.
  intros Hx. change (wnot 64 PAGE_MASK_4KB) with 0xFFFFFFFFFFFFF000.
  assert (Z.land x 0xFFFFFFFFFFFFF000 = Z.shiftl (Z.shiftr x 12) 12) as -> by bits.
  rewrite Z.shiftl_mul_pow2, Z.shiftr_div_pow2 by lia. unfold page. change (2 ^ 12) with 4096.
  Z.to_euclidean_division_equations; lia.
Qed.

(** A value that needs neither its content nor a thunk is written as it is. *)
Lemma write_relocation_plain gs ms lw env thunks info rel pre tail v eff o :
  relocation_value gs ms env info rel = Ok (v, eff) ->
  updates_content (rki_kind info) = false -> rki_thunkable info = false ->
  write_to_buffer lw info v tail = Ok o ->
  write_relocation gs ms lw env thunks info rel (pre ++ tail) (Z.of_nat (length pre)) =
    Ok (pre ++ o, eff).
Proof.
  intros Hv Hu Ht Hw. unfold write_relocation. rewrite Hv. cbn [mbind res_bind]. rewrite Hu.
  assert (maybe_get_thunk_for_relocation thunks info (env_place env) v = Ok None) as Hth
    by (unfold maybe_get_thunk_for_relocation; rewrite Ht; by destruct (thunk_config thunks)).
  cbn [mbind res_bind]. rewrite Hth. cbn [mbind res_bind].
  by rewrite (copy_at_write_tail pre tail _ o).
Qed.

Lemma write_to_buffer_bits lw info i s e v buf :
  updates_content (rki_kind info) = false ->
  (forall r, rki_kind info <> RelKind.PairSubtractionULEB128 r) ->
  rki_size info = RelSize.BitMasking (mkBitMask i (mkBitRange s e)) ->
  verify info (signed 64 v) = Ok tt ->
  write_to_buffer lw info v buf =
    write_to_value i (extract_bit_range v s e) (signed 64 v <? 0) buf.
Proof.
  intros _ Hk Hs Hok. unfold write_to_buffer. rewrite Hok, Hs. cbn [mbind res_bind].
  destruct (rki_kind info); try done. by destruct (Hk r_type).
Qed.

(** The bits [s, e) of a 64-bit value. *)
Lemma extract_div v s e :
  in_u 64 v -> 0 <= s -> s < e -> e <= 64 ->
  extract_bit_range v s e = wrap (e - s) (v / 2 ^ s).
Proof.
  intros Hv Hs He He'. rewrite extract_bit_range_land by (done || lia).
  by rewrite Z.land_ones, Z.shiftr_div_pow2 by lia.
Qed.

(** [field_written] for the forms of AArch64 and of LoongArch. *)
Lemma aarch64_field_written gs ms lw env thunks info rel i s e pre w post v :
  relocation_value gs ms env info rel = Ok (v, NoEffect) ->
  updates_content (rki_kind info) = false -> rki_thunkable info = false ->
  (forall r, rki_kind info <> RelKind.PairSubtractionULEB128 r) ->
  rki_size info = RelSize.BitMasking (mkBitMask (RelInsn.AArch64 i) (mkBitRange s e)) ->
  verify info (signed 64 v) = Ok tt -> in_u 64 v ->
  0 <= s -> e <= 64 -> e - s = AArch64.field_width i ->
  i <> A64.MachOLow12 -> i <> A64.Movnz -> in_u 32 w -> Z.land w (AArch64.field_mask i) = 0 ->
  field_written gs ms lw env thunks info rel (RelInsn.AArch64 i) pre w post
    (AArch64.read_back i (wrap (e - s) (v / 2 ^ s)) (signed 64 v <? 0), false).
Proof.
  intros Hv Hu Ht Hk Hs Hok H64 Hs0 He Hw Hi Hi' Hw32 Hclear.
  assert (0 < AArch64.field_width i) by (by destruct i).
  assert (in_u (AArch64.field_width i) (wrap (e - s) (v / 2 ^ s))) by (rewrite Hw; apply wrap_range; lia).
  eexists. split.
  - eapply write_relocation_plain; [done..|].
    erewrite write_to_buffer_bits by done. rewrite extract_div by (done || lia).
    cbn [write_to_value]. by rewrite AArch64.aarch64_write_to_value_word.
  - cbn [read_value]. rewrite AArch64.aarch64_read_write_word by done. by destruct i.
Qed.

Lemma loongarch_field_written gs ms lw env thunks info rel i s e pre w post v :
  relocation_value gs ms env info rel = Ok (v, NoEffect) ->
  updates_content (rki_kind info) = false -> rki_thunkable info = false ->
  (forall r, rki_kind info <> RelKind.PairSubtractionULEB128 r) ->
  rki_size info = RelSize.BitMasking (mkBitMask (RelInsn.LoongArch64 i) (mkBitRange s e)) ->
  verify info (signed 64 v) = Ok tt -> in_u 64 v ->
  0 <= s -> e <= 64 -> e - s = LoongArch64.value_width i ->
  i = LA.Shift5 \/ i = LA.Shift10 -> in_u 32 w ->
  field_written gs ms lw env thunks info rel (RelInsn.LoongArch64 i) pre w post
    (wrap (e - s) (v / 2 ^ s), false).
Proof.
  intros Hv Hu Ht Hk Hs Hok H64 Hs0 He Hw Hi Hw32.
  assert (0 < LoongArch64.value_width i) by (by destruct i).
  assert (in_u (LoongArch64.value_width i) (wrap (e - s) (v / 2 ^ s)))
    by (rewrite Hw; apply wrap_range; lia).
  eexists. split.
  - eapply write_relocation_plain; [done..|].
    erewrite write_to_buffer_bits by done. rewrite extract_div by (done || lia).
    cbn [write_to_value].
    pose proof (LoongArch64.loongarch_write_to_value_word i (wrap (e - s) (v / 2 ^ s)) (signed 64 v <? 0) w post)
      as Hww.
    replace (LoongArch64.insn_bytes i) with 4%nat in Hww by (by destruct Hi as [->| ->]). exact Hww.
  - cbn [read_value]. rewrite LoongArch64.loongarch_read_write_word by (done || by destruct Hi as [->| ->]).
    by destruct Hi as [->| ->].
Qed.

(** *** Values of the rows the address sequences use *)
Lemma page_range x : 0 <= x -> 0 <= page x <= x /\ page x mod 4096 = 0.
Proof. unfold page. Z.to_euclidean_division_equations; lia. Qed.

Lemma relative_page_value gs ms env info rel t :
  rki_kind info = RelKind.Relative ->
  rki_mask info = Some (PageMask.SymbolPlusAddendAndPosition PAGE_MASK_4KB) ->
  target ms env rel = Ok t -> env_branch_local_entry env = 0 -> in_u 64 (env_place env) ->
  relocation_value gs ms env info rel =
    Ok (wsub 64 (page (wadd 64 t (rki_bias info))) (page (env_place env)), NoEffect).
Proof.
  intros Hk Hm Ht Hb Hp. unfold relocation_value. rewrite Hk. unfold target in Ht. rewrite Ht, Hm, Hb.
  cbn [get_page_mask pm_symbol_plus_addend pm_place mbind res_bind].
  rewrite !land_page by in_range. unfold wadd. rewrite Z.add_0_r.
  assert (forall a b, wrap 64 (wrap 64 a + b) = wrap 64 (a + b)) as ->; [|done].
  intros a b. unfold wrap. by rewrite Z.add_mod_idemp_l.
Qed.

Lemma low_part_value gs ms env info rel t :
  rki_kind info = RelKind.AbsoluteLowPart -> rki_mask info = None ->
  target ms env rel = Ok t -> in_u 64 t ->
  relocation_value gs ms env info rel = Ok (t, NoEffect).
Proof.
  intros Hk Hm Ht H64. unfold relocation_value. rewrite Hk. unfold target in Ht. rewrite Ht, Hm.
  cbn [get_page_mask pm_symbol_plus_addend mbind res_bind]. by rewrite land_u64_max.
Qed.

Lemma verify_unaligned info v :
  rki_alignment info = 1 -> Elf.contains (rki_range info) v = true -> verify info v = Ok tt.
Proof.
  intros Ha Hr. unfold verify. rewrite Ha, Hr. unfold is_multiple_of. by rewrite Z.mod_1_r.
Qed.

(** [no_check] rejects one value only. *)
Lemma no_check_contains v : in_u 64 v -> v <> 2 ^ 63 - 1 -> Elf.contains no_check (signed 64 v) = true.
Proof.
  intros Hv Hne. pose proof (signed_range 64 v ltac:(lia)) as [Hl Hu].
  unfold Elf.contains, no_check. cbn [ar_min ar_max]. rewrite andb_true_iff, Z.leb_le, Z.ltb_lt.
  split; [done|]. change (64 - 1) with 63 in *.
  destruct (decide (signed 64 v = 2 ^ 63 - 1)) as [E|]; [|lia]. exfalso. apply Hne.
  rewrite <- (wrap_small 64 v), <- signed_wrap, E by (done || lia). done.
Qed.

Lemma adrp_add_arith p t :
  in_u 64 t -> in_u 64 p ->
  wadd 64 (wadd 64 (page p) (wmul 64 4096 (wrap 64 ((page t - page p) / 4096)))) (t mod 4096) = t.
Proof.
  intros Ht [Hp _]. destruct (page_range p Hp) as [_ Hpp], (page_range t (proj1 Ht)) as [_ Hpt].
  rewrite <- (wrap_small 64 t) at 3 by done. unfold wadd, wmul, wrap.
  rewrite Z.mul_mod_idemp_r, Z.add_mod_idemp_r, Z.add_mod_idemp_l by done. f_equal.
  unfold page in *. Z.to_euclidean_division_equations; lia.
Qed.

(** ** Theorems, by architecture *)

(** *** AArch64 *)

(** C33. On AArch64, an ADRP and ADD pair computes the address it refers to: for
    any symbol, addend and place whose pages are less than 4GB apart, both
    relocations are written, and the page the ADRP adds to its own page and the low
    twelve bits the ADD adds give [S + A].  The address 2^63 - 1 is the one value that
    the unchecked range rejects. *)
Theorem adrp_add_reaches_target gs ms lw env env' thunks rel rel' hi lo t pre w post pre' w' post' :
  AArch64.relocation_type_from_raw R_AARCH64_ADR_PREL_PG_HI21 = Ok (Some hi) ->
  AArch64.relocation_type_from_raw R_AARCH64_ADD_ABS_LO12_NC = Ok (Some lo) ->
  target ms env rel = Ok t -> target ms env' rel' = Ok t -> in_u 64 t -> t <> 2 ^ 63 - 1 ->
  env_branch_local_entry env = 0 -> in_u 64 (env_place env) ->
  - 2 ^ 32 <= page t - page (env_place env) < 2 ^ 32 ->
  in_u 32 w -> Z.land w (AArch64.field_mask A64.Adr) = 0 ->
  in_u 32 w' -> Z.land w' (AArch64.field_mask A64.Add) = 0 ->
  exists x y,
    field_written gs ms lw env thunks hi rel (RelInsn.AArch64 A64.Adr) pre w post (x, false) /\
    field_written gs ms lw env' thunks lo rel' (RelInsn.AArch64 A64.Add) pre' w' post' (y, false) /\
    wadd 64 (wadd 64 (page (env_place env)) (wmul 64 4096 x)) y = t.
Proof.
  intros Hhi Hlo Ht Ht' H64 Hne Hb Hp Hd Hw Hc Hw' Hc'.
  vm_compute in Hhi, Hlo. injection Hhi as <-. injection Hlo as <-.
  set (p := env_place env) in *. set (d := page t - page p) in *.
  assert (signed 64 (wrap 64 d) = d) as Hs
    by (rewrite signed_wrap_arg by lia; apply signed_of_signed; [lia|unfold in_i; lia]).
  do 2 eexists. split; [|split].
  - eapply (aarch64_field_written _ _ _ _ _ _ _ A64.Adr 12 33 _ _ _ (wrap 64 d)); try done.
    + erewrite relative_page_value by done. cbn [rki_bias].
      unfold wadd. rewrite Z.add_0_r, (wrap_small 64 t) by done. reflexivity.
    + rewrite Hs. apply verify_unaligned; [done|].
      unfold Elf.contains. cbn [rki_range ar_min ar_max]. rewrite andb_true_iff, Z.leb_le, Z.ltb_lt. lia.
    + apply wrap_range. lia.
  - eapply (aarch64_field_written _ _ _ _ _ _ _ A64.Add 0 12 _ _ _ t); try done.
    + by eapply low_part_value.
    + apply verify_unaligned; [done|]. by apply no_check_contains.
  - cbn [AArch64.read_back AArch64.field_width]. rewrite Z.div_1_r.
    rewrite sign_extend_signed by (lia || apply wrap_range; lia).
    assert (d mod 2 ^ 12 = 0) as Hdm.
    { destruct (page_range p (proj1 Hp)) as [_ Hpp], (page_range t (proj1 H64)) as [_ Hpt].
      subst d. change (2 ^ 12) with 4096. Z.to_euclidean_division_equations; lia. }
    pose proof (extract_signed 12 33 d ltac:(lia) ltac:(lia) ltac:(lia) ltac:(unfold in_i; lia) Hdm) as He.
    rewrite extract_div in He by (lia || apply wrap_range; lia).
    change (33 - 12) with 21 in *. change (2 ^ 12) with 4096 in *.
    assert (signed 21 (wrap 21 (wrap 64 d / 4096)) = d / 4096) as ->
      by (rewrite <- He at 2; by rewrite Z.div_mul by done).
    apply (adrp_add_arith p t H64 Hp).
Qed.

Lemma adrp_add_reaches_target_witness :
  exists x y,
    field_written 8 (fun _ _ _ => Panic) (fun _ => []) (sample_env 0x10ffc) no_thunks
      (mkRelocationKindInfo RelKind.Relative (bit_mask_aarch64 12 33 A64.Adr)
         (Some (PageMask.SymbolPlusAddendAndPosition PAGE_MASK_4KB))
         (mkAllowedRange (- 2 ^ 32) (2 ^ 32)) 1 0 false)
      (sample_rel (RT_AARCH64 R_AARCH64_ADR_PREL_PG_HI21) 0x1234) (RelInsn.AArch64 A64.Adr) [1; 2; 3; 4] 0x90000000 [] (x, false) /\
    field_written 8 (fun _ _ _ => Panic) (fun _ => []) (sample_env 0x11000) no_thunks
      (mkRelocationKindInfo RelKind.AbsoluteLowPart (bit_mask_aarch64 0 12 A64.Add) None no_check 1 0 false)
      (sample_rel (RT_AARCH64 R_AARCH64_ADR_PREL_PG_HI21) 0x1234) (RelInsn.AArch64 A64.Add) [] 0x91000000 [9] (y, false) /\
    wadd 64 (wadd 64 0x10000 (wmul 64 4096 x)) y = 0x1234.
Proof.
  apply (adrp_add_reaches_target 8 (fun _ _ _ => Panic) (fun _ => []) (sample_env 0x10ffc)
    (sample_env 0x11000) no_thunks (sample_rel (RT_AARCH64 R_AARCH64_ADR_PREL_PG_HI21) 0x1234) (sample_rel (RT_AARCH64 R_AARCH64_ADR_PREL_PG_HI21) 0x1234)
    (mkRelocationKindInfo RelKind.Relative (bit_mask_aarch64 12 33 A64.Adr)
         (Some (PageMask.SymbolPlusAddendAndPosition PAGE_MASK_4KB))
         (mkAllowedRange (- 2 ^ 32) (2 ^ 32)) 1 0 false)
    (mkRelocationKindInfo RelKind.AbsoluteLowPart (bit_mask_aarch64 0 12 A64.Add) None no_check 1 0 false)
    0x1234 [1; 2; 3; 4] 0x90000000 [] [] 0x91000000 [9]); try reflexivity;
    try (vm_compute; congruence); split; vm_compute; congruence.
Defined.

(** *** LoongArch *)
Lemma high_value_arith t p :
  in_u 64 t -> in_u 64 p ->
  highest_relocation_with_bias t (p + 8) =
    wrap 64 (page t + 2 ^ 31 + (if Z.testbit t 11 then 4096 - 2 ^ 32 else 0) - page p).
Proof.
  intros Ht Hp. unfold highest_relocation_with_bias.
  change SIZE_2KB with (2 ^ 11). rewrite land_pow2_eqb, negb_involutive by lia.
  assert (wsub 64 (p + 8) 8 = p) as -> by (unfold wsub; rewrite <- (wrap_small 64 p) by done; f_equal; rewrite wrap_small by done; lia).
  rewrite !land_page by (done || in_range).
  assert (forall k, k mod 4096 = 0 -> page (wrap 64 (t + k)) = wrap 64 (page t + k)) as Hpage.
  { intros k Hk. unfold page, wrap. change (2 ^ 64) with (4096 * 2 ^ 52).
    Z.to_euclidean_division_equations; lia. }
  assert (forall a b c, wadd 64 (wadd 64 a b) c = wrap 64 (a + (b + c))) as Hadd.
  { intros. unfold wadd, wrap. rewrite Z.add_mod_idemp_l by done. f_equal. lia. }
  rewrite Hadd. assert (forall a b, wsub 64 (wrap 64 a) b = wrap 64 (a - b)) as Hsub.
  { intros. unfold wsub, wrap. by rewrite Zminus_mod_idemp_l. }
  assert (wrap 64 (t + (SIZE_2GB + (if Z.testbit t 11 then wsub 64 SIZE_4KB SIZE_4GB else 0))) =
          wrap 64 (t + (2 ^ 31 + (if Z.testbit t 11 then 4096 - 2 ^ 32 else 0)))) as ->.
  { destruct (Z.testbit t 11); [|done]. unfold wsub, wrap. rewrite !Z.add_assoc.
    by rewrite Z.add_mod_idemp_r. }
  rewrite Hpage by (by destruct (Z.testbit t 11)). rewrite Hsub. f_equal. lia.
Qed.

Lemma testbit11 t : in_u 64 t -> Z.testbit t 11 = (2048 <=? t mod 4096).
Proof.
  intros [Hl _]. rewrite Z.testbit_eqb by lia. change (2 ^ 11) with 2048.
  destruct (Z.eqb_spec ((t / 2048) mod 2) 1), (Z.leb_spec 2048 (t mod 4096)); try done;
    Z.to_euclidean_division_equations; lia.
Qed.

(** The high part of the 32-bit offset, as [pcalau12i] sign-extends it. *)
Lemma pcala_hi20_arith a :
  a mod 4096 = 0 ->
  signed 20 (wrap 20 (wrap 64 a / 2 ^ 12)) * 4096 = (a + 2 ^ 31) mod 2 ^ 32 - 2 ^ 31.
Proof.
  intros Ha. assert (a = 4096 * (a / 4096)) as Hq by (pose proof (Z.div_mod a 4096); lia).
  set (q := a / 4096) in *. clearbody q. subst a. clear Ha.
  assert (wrap 20 (wrap 64 (4096 * q) / 2 ^ 12) = wrap 20 q) as ->.
  { unfold wrap. change (2 ^ 64) with (4096 * 2 ^ 52). change (2 ^ 12) with 4096.
    rewrite Z.mul_mod_distr_l by done. rewrite (Z.mul_comm 4096), Z.div_mul by done.
    change (2 ^ 52) with (2 ^ 20 * 2 ^ 32). rewrite Z.rem_mul_r by done.
    rewrite Z.mul_comm, Z.mod_add, Z.mod_mod by done. done. }
  rewrite signed_wrap_arg by lia. unfold signed, wrap. change (2 ^ 20) with 1048576.
  change (2 ^ (20 - 1)) with 524288. change (2 ^ 31) with (4096 * 524288).
  change (2 ^ 32) with (4096 * 1048576). rewrite <- Z.mul_add_distr_l, Z.mul_mod_distr_l by done.
  case_match; Z.to_euclidean_division_equations; lia.
Qed.

(** The upper immediates hold bits 32 to 64. *)
Lemma pcala_high_arith v :
  in_u 64 v -> wrap 20 (v / 2 ^ 32) * 2 ^ 32 + wrap 12 (v / 2 ^ 52) * 2 ^ 52 = v - v mod 2 ^ 32.
Proof.
  intros [Hl Hu]. assert (v / 2 ^ 52 = v / 2 ^ 32 / 2 ^ 20) as ->
    by (rewrite Z.div_div by done; done).
  pose proof (Z.div_mod v (2 ^ 32) ltac:(done)) as Hv.
  assert (0 <= v / 2 ^ 32 < 2 ^ 32) as Hq
    by (split; [apply Z.div_pos|apply Z.div_lt_upper_bound]; lia).
  assert (wrap 12 (v / 2 ^ 32 / 2 ^ 20) = v / 2 ^ 32 / 2 ^ 20) as ->.
  { apply Z.mod_small. split; [apply Z.div_pos; lia|apply Z.div_lt_upper_bound; lia]. }
  unfold wrap. pose proof (Z.div_mod (v / 2 ^ 32) (2 ^ 20) ltac:(done)).
  change (2 ^ 52) with (2 ^ 20 * 2 ^ 32). nia.
Qed.

Lemma pcala_lo12_arith t :
  wrap 32 (signed 12 (wrap 12 t)) =
    t mod 4096 + (if 2048 <=? t mod 4096 then 2 ^ 32 - 4096 else 0).
Proof.
  rewrite signed_wrap_arg by lia. unfold signed, wrap. change (2 ^ 12) with 4096.
  change (2 ^ (12 - 1)) with 2048. change (2 ^ 32) with 4294967296.
  destruct (Z.leb_spec 2048 (t mod 4096)), (Z.ltb_spec (t mod 4096) 2048); try lia;
    pose proof (Z.mod_pos_bound t 4096); [rewrite <- (Z_mod_plus_full _ 1)|];
    rewrite Z.mod_small; lia.
Qed.

Lemma pcala_arith t p :
  in_u 64 t -> in_u 64 p ->
  let carry := if Z.testbit t 11 then 4096 else 0 in
  let v1 := wsub 64 (page (wadd 64 t SIZE_2KB)) (page p) in
  let v2 := highest_relocation_with_bias t (p + 8) in
  pcala_address p (wrap 20 (v1 / 2 ^ 12)) (wrap 12 t) (wrap 20 (v2 / 2 ^ 32)) (wrap 12 (v2 / 2 ^ 52)) = t.
Proof.
  intros Ht Hp carry v1 v2. pose proof (page_range p (proj1 Hp)) as [_ Hpp].
  pose proof (page_range t (proj1 Ht)) as [_ Hpt].
  set (b := Z.testbit t 11) in *.
  assert (b = (2048 <=? t mod 4096)) as Hb by (by apply testbit11).
  set (a := page t + carry - page p).
  assert (a mod 4096 = 0) as Ha.
  { subst a carry. destruct b; Z.to_euclidean_division_equations; lia. }
  assert (v1 = wrap 64 a) as ->.
  { subst v1 a carry. unfold wsub, wadd.
    assert (page (wrap 64 (t + SIZE_2KB)) = wrap 64 (page t + (if b then 4096 else 0))) as ->.
    { rewrite Hb. change SIZE_2KB with 2048. unfold page, wrap. change (2 ^ 64) with (4096 * 2 ^ 52).
      clear Hb. destruct (Z.leb_spec 2048 (t mod 4096));
        Z.to_euclidean_division_equations; lia. }
    unfold wrap. by rewrite Zminus_mod_idemp_l. }
  assert (v2 = wrap 64 (a + 2 ^ 31 - (if b then 2 ^ 32 else 0))) as ->.
  { subst v2 a carry. rewrite high_value_arith by done. f_equal. subst b. destruct (Z.testbit t 11); lia. }
  unfold pcala_address. rewrite pcala_hi20_arith, pcala_lo12_arith, <- Hb by done.
  rewrite <- Z.add_assoc, pcala_high_arith by (apply wrap_range; lia).
  set (c := a + 2 ^ 31 - (if b then 2 ^ 32 else 0)).
  assert (wrap 64 c mod 2 ^ 32 = (a + 2 ^ 31) mod 2 ^ 32) as ->.
  { unfold wrap. change (2 ^ 64) with (2 ^ 32 * 2 ^ 32). rewrite Z.rem_mul_r by done.
    rewrite Z.mul_comm, Z.mod_add, Z.mod_mod by done. subst c.
    destruct b; [|by rewrite Z.sub_0_r]. rewrite <- (Z_mod_plus_full _ 1). f_equal. lia. }
  transitivity (wrap 64 t); [|by apply wrap_small]. unfold wrap. rewrite Z.add_mod_idemp_l by done.
  set (m := (a + 2 ^ 31) mod 2 ^ 32). replace (page p + (m - 2 ^ 31) + (t mod 4096 + (if b then 2 ^ 32 - 4096 else 0) + (c mod 2 ^ 64 - m))) with (page p - 2 ^ 31 + t mod 4096 + (if b then 2 ^ 32 - 4096 else 0) + c mod 2 ^ 64) by lia.
  rewrite Z.add_mod_idemp_r by done. f_equal. subst c a carry. unfold page. destruct b; lia.
Qed.

(** The value of each of the four relocations at their places. *)
Lemma pcala_value gs ms k env info rel t p :
  LoongArch64.relocation_type_from_raw (pcala_row k) = Ok (Some info) -> (k < 4)%nat ->
  target ms env rel = Ok t -> in_u 64 t -> in_u 64 (p + 12) -> 0 <= p -> p mod 4096 < 4092 ->
  env_branch_local_entry env = 0 -> env_place env = p + 4 * Z.of_nat k ->
  relocation_value gs ms env info rel =
    Ok (match k with
        | O => wsub 64 (page (wadd 64 t SIZE_2KB)) (page p)
        | 1%nat => t
        | _ => highest_relocation_with_bias t (p + 8)
        end, NoEffect).
Proof.
  intros Hi Hk Ht H64 Hp Hp0 Hm Hb Hpl.
  destruct k as [|[|[|[|k]]]]; [..|lia]; vm_compute in Hi; injection Hi as <-.
  - erewrite relative_page_value by (done || (rewrite Hpl; unfold in_u in *; lia)).
    do 4 f_equal. lia.
  - by eapply low_part_value.
  - unfold relocation_value. cbn [rki_kind]. unfold target in Ht. rewrite Ht. cbn [mbind res_bind].
    do 3 f_equal. lia.
  - unfold relocation_value. cbn [rki_kind]. unfold target in Ht. rewrite Ht. cbn [mbind res_bind].
    do 2 f_equal. replace (env_place env) with (p + 4 + 8) by lia.
    rewrite !high_value_arith by (done || unfold in_u in *; lia). f_equal. f_equal.
    unfold page. Z.to_euclidean_division_equations; lia.
Qed.

Lemma pcala_value_range t p k :
  in_u 64 t -> t <> 2 ^ 63 - 1 -> in_u 64 (p + 12) -> 0 <= p ->
  let v := match k with
           | O => wsub 64 (page (wadd 64 t SIZE_2KB)) (page p)
           | 1%nat => t
           | _ => highest_relocation_with_bias t (p + 8)
           end in
  in_u 64 v /\ v <> 2 ^ 63 - 1.
Proof.
  intros Ht Hne Hp Hp0 v.
  assert (forall x, x mod 4096 = 0 -> in_u 64 (wrap 64 x) /\ wrap 64 x <> 2 ^ 63 - 1) as Hmul.
  { intros x Hx. split; [apply wrap_range; lia|]. intros E.
    assert (wrap 64 x mod 4096 = 0) as Hw.
    { unfold wrap. change (2 ^ 64) with (4096 * 2 ^ 52). rewrite Z.rem_mul_r, Hx by done.
      rewrite Z.add_0_l, Z.mul_comm. by apply Z.mod_mul. }
    rewrite E in Hw. vm_compute in Hw. congruence. }
  destruct (page_range p Hp0) as [_ Hpp]. destruct (page_range t (proj1 Ht)) as [_ Hpt].
  subst v. destruct k as [|[|k]]; [|done|].
  - apply Hmul. destruct (page_range (wadd 64 t SIZE_2KB)) as [_ Hq];
      [apply wrap_range; lia|]. rewrite Zminus_mod, Hq, Hpp. done.
  - rewrite high_value_arith by (done || unfold in_u in *; lia). apply Hmul.
    destruct (Z.testbit t 11); Z.to_euclidean_division_equations; lia.
Qed.

(** C34. On LoongArch, the four instructions [pcalau12i], [addi.d], [lu32i.d] and
    [lu52i.d] of a 64-bit address, four bytes apart, compute it: the four relocations
    are written whatever the distance, and the 4KB-page, sign-extended low, upper 20
    and top 12 parts add up to [S + A].  The first instruction must not be the last of
    its page: the code counts eight bytes back for the top part, too, which is twelve
    bytes from the first. *)
Theorem pcala_reaches_target gs ms lw env thunks rel info t p pre w post :
  (forall k, (k < 4)%nat ->
     LoongArch64.relocation_type_from_raw (pcala_row k) = Ok (Some (info k)) /\
     target ms (env k) (rel k) = Ok t /\ env_branch_local_entry (env k) = 0 /\
     env_place (env k) = p + 4 * Z.of_nat k /\ in_u 32 (w k)) ->
  in_u 64 t -> t <> 2 ^ 63 - 1 -> in_u 64 (p + 12) -> 0 <= p -> p mod 4096 < 4092 ->
  exists f : nat -> Z,
    (forall k, (k < 4)%nat ->
       field_written gs ms lw (env k) thunks (info k) (rel k) (RelInsn.LoongArch64 (pcala_form k))
         (pre k) (w k) (post k) (f k, false)) /\
    pcala_address p (f 0%nat) (f 1%nat) (f 2%nat) (f 3%nat) = t.
Proof.
  intros Hall Ht Hne Hp Hp0 Hm.
  set (v := fun k : nat => match k with
           | O => wsub 64 (page (wadd 64 t SIZE_2KB)) (page p)
           | 1%nat => t
           | _ => highest_relocation_with_bias t (p + 8)
           end).
  set (s := fun k : nat => match k with O => 12 | 1%nat => 0 | 2%nat => 32 | _ => 52 end).
  set (e := fun k : nat => match k with O => 32 | 1%nat => 12 | 2%nat => 52 | _ => 64 end).
  exists (fun k => wrap (e k - s k) (v k / 2 ^ s k)). split.
  - intros k Hk. destruct (Hall k Hk) as (Hi & Htk & Hb & Hpl & Hw).
    pose proof (pcala_value gs ms k (env k) (info k) (rel k) t p Hi Hk Htk Ht Hp Hp0 Hm Hb Hpl) as Hv.
    destruct (pcala_value_range t p k Ht Hne Hp Hp0) as [Hr1 Hr2].
    change (match k with O => _ | _ => _ end) with (v k) in Hr1, Hr2.
    change (match k with O => _ | _ => _ end) with (v k) in Hv. clearbody v.
    clear Hall Htk Hpl Hb.
    destruct k as [|[|[|[|k]]]]; [..|lia]; vm_compute in Hi; injection Hi as Hi; subst s e; cbn beta iota;
      (eapply loongarch_field_written; rewrite <- ?Hi; try done;
       [rewrite Hi; exact Hv
       |apply verify_unaligned; [done|by apply no_check_contains]
       |cbn; tauto]).
  - subst s e v. cbn beta iota. rewrite Z.div_1_r. apply pcala_arith; [done|unfold in_u in *; lia].
Qed.

Lemma pcala_reaches_target_witness :
  let t := 0xfedcba9876543a98 in
  let env k := sample_env (0x10ff8 + 4 * Z.of_nat k) in
  let rel k := sample_rel (RT_LARCH (pcala_row k)) t in
  let info k :=
    match LoongArch64.relocation_type_from_raw (pcala_row k) with
    | Ok (Some info) => info
    | _ => mkRelocationKindInfo RelKind.None (RelSize.ByteSize 0) None no_check 1 0 false
    end in
  exists f : nat -> Z,
    (forall k, (k < 4)%nat ->
       field_written 8 (fun _ _ _ => Panic) (fun _ => []) (env k) no_thunks (info k) (rel k)
         (RelInsn.LoongArch64 (pcala_form k)) [] 0x1a000004 [] (f k, false)) /\
    pcala_address 0x10ff8 (f 0%nat) (f 1%nat) (f 2%nat) (f 3%nat) = t.
Proof.
  apply (pcala_reaches_target 8 (fun _ _ _ => Panic) (fun _ => [])
    (fun k => sample_env (0x10ff8 + 4 * Z.of_nat k)) no_thunks
    (fun k => sample_rel (RT_LARCH (pcala_row k)) 0xfedcba9876543a98)
    (fun k => match LoongArch64.relocation_type_from_raw (pcala_row k) with
      | Ok (Some info) => info
      | _ => mkRelocationKindInfo RelKind.None (RelSize.ByteSize 0) None no_check 1 0 false
      end) 0xfedcba9876543a98 0x10ff8 (fun _ => []) (fun _ => 0x1a000004) (fun _ => [])).
  - intros k Hk. destruct k as [|[|[|[|k]]]]; [..|lia];
      repeat split; try reflexivity; vm_compute; congruence.
  - split; vm_compute; congruence.
  - vm_compute. congruence.
  - split; vm_compute; congruence.
  - vm_compute. congruence.
  - reflexivity.
Defined.

(** When [pcalau12i] is the last instruction of its page, the top part is computed
    from the next page, and the borrow can reach it: the address below comes out as
    2^52 less. *)
Lemma pcala_last_of_page :
  let p := 0xffc in
  let t := 2 ^ 52 - 2 ^ 31 in
  let hi20 := extract_bit_range (wsub 64 (page (wadd 64 t SIZE_2KB)) (page p)) 12 32 in
  let lo12 := extract_bit_range t 0 12 in
  let lo20 := extract_bit_range (highest_relocation_with_bias t (p + 8)) 32 52 in
  let hi12 := extract_bit_range (highest_relocation_with_bias t (p + 12)) 52 64 in
  pcala_address p hi20 lo12 lo20 hi12 = wrap 64 (t - 2 ^ 52).
Proof. vm_compute. reflexivity. Qed.

(** *** RISC-V *)

Lemma value_with_address ms rel a object ids ids' :
  has_address rel = true ->
  value_with_addend ms (rel_resolution rel) a (rel_symbol rel) object ids =
  value_with_addend ms (rel_resolution rel) a (rel_symbol rel) object ids'.
Proof.
  unfold has_address, value_with_addend. destruct (is_ifunc _); [done|].
  by destruct (raw_value _ =? 0).
Qed.

Lemma wadd_zero x : in_u 64 x -> wadd 64 x 0 = x.
Proof. intros. unfold wadd. rewrite Z.add_0_r. by apply wrap_small. Qed.

Lemma wadd_wrap_l a b : wadd 64 (wadd 64 a b) 0 = wadd 64 a b.
Proof. apply wadd_zero. in_range. Qed.

Lemma wsub_wrap_l a b : wsub 64 (wadd 64 a 0) b = wsub 64 a b.
Proof. unfold wsub, wadd, wrap. rewrite Z.add_0_r, Zminus_mod_idemp_l. done. Qed.

(** A RISC-V low part takes its value from the high part its symbol points at:
    the [R_RISCV_PCREL_LO12_*] value is what the high-part relocation itself gets at its
    own place, error cases included, for every kind of high part and whether it was met
    before or is still to come.  For a PC-relative one the referenced symbol must have an
    address of its own and the object's sections must be in the part table. *)
Theorem lo12_value_is_hi20_value gs ms env rel offset hi_rel r_type hi_info :
  target ms env rel = Ok (wadd 64 (section_address (env_section env)) offset) ->
  in_u 64 offset -> rel_addend rel = 0 ->
  find_offset offset (env_high_part_symbols env) = Some (mkHighPart hi_rel (rki_kind hi_info)) \/
    (find_offset offset (env_high_part_symbols env) = None /\
     find_offset offset (env_following_high_parts env) = Some (mkHighPart hi_rel (rki_kind hi_info))) ->
  high_row r_type = true ->
  RiscV64.relocation_type_from_raw r_type = Ok (Some hi_info) ->
  env_branch_local_entry env = 0 ->
  (rki_kind hi_info = RelKind.Relative ->
     has_address hi_rel = true /\ is_Ok (object_part_ids env)) ->
  low12_value gs ms env rel 0 =
    ('(v, _) ← relocation_value gs ms (at_high_part env offset) hi_info hi_rel; Ok v).
Proof.
  intros Ht Ho Ha Hf Hrow Hi Hb Hrel. unfold low12_value, target in *.
  rewrite Ha. rewrite Ha in Ht. rewrite Ht. cbn [Z.eqb ensure mbind res_bind].
  assert (wsub 64 (wadd 64 (section_address (env_section env)) offset)
            (section_address (env_section env)) = offset) as ->.
  { unfold wsub, wadd, wrap. rewrite Zminus_mod_idemp_l. rewrite Z.add_simpl_l. by apply Z.mod_small. }
  match goal with |- match ?x with _ => _ end = _ => assert (x = Some (mkHighPart hi_rel (rki_kind hi_info))) as -> end.
  { destruct Hf as [Hf|[Hf Hf']]; rewrite Hf; done. }
  destruct r_type; try discriminate Hrow; vm_compute in Hi; injection Hi as <-;
    cbn [rki_kind] in *; unfold relocation_value; cbn [rki_kind rki_mask rki_bias get_page_mask
      pm_symbol_plus_addend pm_place pm_got_entry at_high_part env_place env_object env_part_ids
      env_branch_local_entry];
    rewrite ?Hb, ?(land_u64_max (wadd 64 _ _)) by in_range.
  - (* GOT *) destruct (got_address_for_relocation _ _); cbn [mbind res_bind]; try done.
    rewrite !wadd_wrap_l. rewrite land_u64_max by in_range. f_equal. unfold wsub, wadd, wrap.
    rewrite Z.add_0_r, !Zplus_mod_idemp_l. done.
  - (* TLS IE *) destruct (got_address _); cbn [mbind res_bind]; try done.
    rewrite !wadd_wrap_l. by rewrite land_u64_max by in_range.
  - (* TLS GD *) destruct (tlsgd_got_address _ _); cbn [mbind res_bind]; try done.
    rewrite !wadd_wrap_l. by rewrite land_u64_max by in_range.
  - (* PC-relative *) destruct (Hrel eq_refl) as [Hhas [ids Hids]]. rewrite Hids. cbn [mbind res_bind].
    rewrite (value_with_address ms hi_rel _ _ ids (env_part_ids env)) by done.
    destruct (value_with_addend ms (rel_resolution hi_rel) (rel_addend hi_rel) (rel_symbol hi_rel)
                (env_object env) (env_part_ids env)); cbn [mbind res_bind]; try done.
    rewrite !wadd_wrap_l, land_u64_max by in_range. by rewrite !wsub_wrap_l.
Qed.

Lemma lo12_value_is_hi20_value_witness :
  low12_value 8 (fun _ _ _ => Panic)
    (sample_low_env (mkObjectLayout [Loaded; Loaded] 2) 0x12345 (mkSymbol (Some 1) 0 true))
    (sample_rel (RT_RISCV R_RISCV_PCREL_LO12_I) 0x10010) 0 = Ok 0x2335.
Proof.
  apply (lo12_value_is_hi20_value 8 (fun _ _ _ => Panic)
    (sample_low_env (mkObjectLayout [Loaded; Loaded] 2) 0x12345 (mkSymbol (Some 1) 0 true))
    (sample_rel (RT_RISCV R_RISCV_PCREL_LO12_I) 0x10010) 0x10
    (hp_relocation (sample_high_part 0x12345 (mkSymbol (Some 1) 0 true)))
    R_RISCV_PCREL_HI20
    (mkRelocationKindInfo RelKind.Relative (bit_mask_riscv 0 32 RV.UType) None
       (mkAllowedRange (- 2 ^ 31) (2 ^ 32)) 1 0 false)).
  - reflexivity.
  - split; vm_compute; congruence.
  - reflexivity.
  - left. reflexivity.
  - reflexivity.
  - reflexivity.
  - reflexivity.
  - intros _. split; [reflexivity|]. exists [7; 8]. vm_compute. reflexivity.
Defined.

(** For a high part against the section symbol of merged strings, the part table is
    indexed twice, once by the object's section range and once by the section's index
    in the whole link: the high part is written and its low part is out of range. *)
Lemma lo12_of_merged_string_panics :
  let object := mkObjectLayout [Loaded; MergeStrings 0] 2 in
  let symbol := mkSymbol (Some 1) 0 false in
  let env := sample_low_env object 0 symbol in
  let ms := fun part_id start offset => Ok (0x40000 + offset) in
  (exists hi_info,
     RiscV64.relocation_type_from_raw R_RISCV_PCREL_HI20 = Ok (Some hi_info) /\
     relocation_value 8 ms (at_high_part env 0x10) hi_info (hp_relocation (sample_high_part 0 symbol)) =
       Ok (0x2fff0, NoEffect)) /\
  low12_value 8 ms env (sample_rel (RT_RISCV R_RISCV_PCREL_LO12_I) 0x10010) 0 = Panic.
Proof.
  split; [|vm_compute; reflexivity].
  exists (mkRelocationKindInfo RelKind.Relative (bit_mask_riscv 0 32 RV.UType) None
    (mkAllowedRange (- 2 ^ 31) (2 ^ 32)) 1 0 false).
  split; vm_compute; reflexivity.
Qed.

(** *** Thunks *)

Lemma reachable_contains place a :
  in_i 28 (signed 64 (wsub 64 a place)) ->
  Elf.contains (mkAllowedRange (- 2 ^ 27) (2 ^ 27)) (signed 64 (wsub 64 a place)) = true.
Proof.
  intros [Hl Hu]. change (28 - 1) with 27 in *. unfold Elf.contains. cbn [ar_min ar_max].
  by rewrite andb_true_iff, Z.leb_le, Z.ltb_lt.
Qed.

Lemma signed_sub_add place a : in_u 64 a -> wadd 64 place (signed 64 (wsub 64 a place)) = a.
Proof.
  intros Ha. rewrite <- (wrap_small 64 a) at 2 by done. unfold wadd.
  assert (wrap 64 (place + signed 64 (wsub 64 a place)) =
          wrap 64 (place + wrap 64 (signed 64 (wsub 64 a place)))) as ->
    by (unfold wrap; by rewrite Z.add_mod_idemp_r).
  rewrite signed_wrap by lia. unfold wsub, wrap. rewrite Z.mod_mod, Z.add_mod_idemp_r by done.
  f_equal. lia.
Qed.

Lemma call26_row r_type info :
  r_type = R_AARCH64_CALL26 \/ r_type = R_AARCH64_JUMP26 ->
  AArch64.relocation_type_from_raw r_type = Ok (Some info) ->
  info = mkRelocationKindInfo RelKind.PltRelative (bit_mask_aarch64 2 28 A64.JumpCall) None
           (mkAllowedRange (- 2 ^ 27) (2 ^ 27)) 4 0 true.
Proof. intros [-> | ->] H; vm_compute in H; by injection H as <-. Qed.

Lemma call26_value gs ms env rel plt :
  plt_address (rel_resolution rel) = Ok plt -> in_u 64 (env_place env) ->
  relocation_value gs ms env (mkRelocationKindInfo RelKind.PltRelative (bit_mask_aarch64 2 28 A64.JumpCall)
      None (mkAllowedRange (- 2 ^ 27) (2 ^ 27)) 4 0 true) rel =
    Ok (wsub 64 (wadd 64 plt (wrap 64 (rel_addend rel))) (env_place env), NoEffect).
Proof.
  intros Hplt Hp. unfold relocation_value. rewrite Hplt.
  cbn [rki_kind rki_mask rki_bias get_page_mask pm_place mbind res_bind].
  by rewrite land_u64_max, wadd_wrap_l.
Qed.

(** A reachable displacement is written, and the instruction decodes back to it. *)
Lemma call26_written lw place a w post :
  reachable place a -> in_u 64 a -> in_u 32 w -> Z.land w (AArch64.field_mask A64.JumpCall) = 0 ->
  exists o r,
    write_to_buffer lw (mkRelocationKindInfo RelKind.PltRelative (bit_mask_aarch64 2 28 A64.JumpCall)
      None (mkAllowedRange (- 2 ^ 27) (2 ^ 27)) 4 0 true) (wsub 64 a place) (le_bytes 4 w ++ post) = Ok o /\
    read_value (RelInsn.AArch64 A64.JumpCall) o = Ok r /\
    wadd 64 place (displacement (RelInsn.AArch64 A64.JumpCall) r.1) = a.
Proof.
  intros [Hin Hal] Ha Hw Hc. set (d := signed 64 (wsub 64 a place)) in *.
  assert (wrap 64 d = wsub 64 a place) as Hd.
  { subst d. rewrite signed_wrap by lia. apply wrap_wrap. lia. }
  pose proof (aarch64_branch_decodes A64.JumpCall 28 d (d <? 0) w post ltac:(tauto) eq_refl Hin Hal Hw Hc)
    as (o & r & Ho & Hr & Hdisp).
  exists o, r. split; [|split; [done|]].
  - rewrite <- Hd. rewrite (write_to_buffer_masked _ _ (RelInsn.AArch64 A64.JumpCall) 2 28);
      [exact Ho|cbn; tauto|reflexivity| |].
    + apply signed_range. lia.
    + unfold verify. cbn [rki_alignment rki_range]. subst d. rewrite reachable_contains by done.
      set (d := signed 64 _) in *.
      unfold is_multiple_of. cbn [Z.eqb]. unfold wrap. change (2 ^ 64) with (4 * 2 ^ 62).
      rewrite Z.rem_mul_r, Hal by done. rewrite Z.add_0_l, Z.mul_comm, Z.mod_mul by done. done.
  - cbn [displacement]. rewrite Hdisp. by apply signed_sub_add.
Qed.

(** An AArch64 call or jump reaches its destination whatever the distance, if a
    thunk serves the section: when the 28-bit displacement holds the distance the
    instruction goes to the PLT address plus addend, else to the symbol's thunk, and when
    neither is possible the relocation is an error, never a wrong branch. *)
Theorem call26_reaches_destination gs ms lw env thunks rel r_type info plt pre w post :
  r_type = R_AARCH64_CALL26 \/ r_type = R_AARCH64_JUMP26 ->
  AArch64.relocation_type_from_raw r_type = Ok (Some info) ->
  thunk_config thunks = true ->
  plt_address (rel_resolution rel) = Ok plt -> in_u 64 (env_place env) ->
  in_u 32 w -> Z.land w (AArch64.field_mask A64.JumpCall) = 0 ->
  let destination := wadd 64 plt (wrap 64 (rel_addend rel)) in
  match call_destination thunks info (env_place env) destination with
  | Some a =>
      in_u 64 a -> reachable (env_place env) a ->
      exists value,
        field_written gs ms lw env thunks info rel (RelInsn.AArch64 A64.JumpCall) pre w post value /\
        wadd 64 (env_place env) (displacement (RelInsn.AArch64 A64.JumpCall) value.1) = a
  | None =>
      is_Err (write_relocation gs ms lw env thunks info rel (pre ++ le_bytes 4 w ++ post)
                (Z.of_nat (length pre)))
  end.
Proof.
  intros Hrow Hi Hcfg Hplt Hp Hw Hc destination.
  rewrite (call26_row _ _ Hrow Hi) in *. clear Hi Hrow.
  assert (in_u 64 destination) as Hdest by (subst destination; in_range).
  unfold call_destination, field_written, write_relocation, maybe_get_thunk_for_relocation.
  rewrite (call26_value gs ms env rel plt) by done. fold destination. rewrite Hcfg.
  cbn [rki_range rki_kind updates_content rki_thunkable rki_mask rki_bias mbind res_bind negb
       get_page_mask pm_symbol_plus_addend pm_place].
  rewrite land_u64_max with (x := env_place env) by done.
  destruct (Elf.contains _ _).
  - intros _ Hreach.
    destruct (call26_written lw (env_place env) destination w post Hreach Hdest Hw Hc)
      as (o & r & Ho & Hr & Hd).
    exists r. split; [|done]. exists o. split; [|done].
    cbn [mbind res_bind]. by rewrite (copy_at_write_tail pre _ _ o Ho).
  - destruct (List.find _ _) as [[s a]|]; [|by eexists].
    destruct (a =? 0); [by eexists|]. intros Ha Hreach.
    rewrite wadd_zero, land_u64_max by done.
    destruct (call26_written lw (env_place env) a w post Hreach Ha Hw Hc) as (o & r & Ho & Hr & Hd).
    exists r. split; [|done]. exists o. split; [|done].
    cbn [mbind res_bind]. by rewrite (copy_at_write_tail pre _ _ o Ho).
Qed.

Lemma call26_reaches_destination_witness :
  exists value,
    field_written 8 (fun _ _ _ => Panic) (fun _ => []) (sample_env 0x10000)
      (mkThunkEnv true [(7, 0x20000)] 7)
      (mkRelocationKindInfo RelKind.PltRelative (bit_mask_aarch64 2 28 A64.JumpCall) None
         (mkAllowedRange (- 2 ^ 27) (2 ^ 27)) 4 0 true)
      (mkRelocation 0 (RT_AARCH64 R_AARCH64_CALL26) 0 (mkSymbol (Some 1) 0 true)
         (mkResolution 0x50000000 None DIRECT None (Some 0x50000000)))
      (RelInsn.AArch64 A64.JumpCall) [] 0x94000000 [] value /\
    wadd 64 0x10000 (displacement (RelInsn.AArch64 A64.JumpCall) value.1) = 0x20000.
Proof.
  pose proof (call26_reaches_destination 8 (fun _ _ _ => Panic) (fun _ => []) (sample_env 0x10000)
    (mkThunkEnv true [(7, 0x20000)] 7)
    (mkRelocation 0 (RT_AARCH64 R_AARCH64_CALL26) 0 (mkSymbol (Some 1) 0 true)
       (mkResolution 0x50000000 None DIRECT None (Some 0x50000000))) R_AARCH64_CALL26
    (mkRelocationKindInfo RelKind.PltRelative (bit_mask_aarch64 2 28 A64.JumpCall) None
         (mkAllowedRange (- 2 ^ 27) (2 ^ 27)) 4 0 true) 0x50000000 [] 0x94000000 []
    (or_introl eq_refl) eq_refl eq_refl eq_refl) as H.
  cbv zeta in H.
  match type of H with
  | _ -> _ -> _ -> match ?x with _ => _ end => assert (x = Some 0x20000) as E by (vm_compute; reflexivity)
  end.
  rewrite E in H. apply H; try reflexivity; try (split; vm_compute; congruence).
  split; [split; vm_compute; congruence|reflexivity].
Defined.
