(* ===== verification/Alignment.v ===== *)
(** Alignments: [libjdxld/src/alignment.rs]. *)
From Stdlib Require Import ZArith Lia.
From stdpp Require Import base list numbers strings option.
From S2P Require Import Prelude Bits BitMisc.

Local Open Scope Z_scope.

(** An alignment, always a power of two. *)
Record Alignment := mkAlignment { exponent : Z }.

#[export] Instance Alignment_eq_dec : EqDecision Alignment.
Proof. solve_decision. Defined.

Definition MAX_ALIGNMENT_EXPONENT : Z := 21.
Definition NUM_ALIGNMENTS : Z := MAX_ALIGNMENT_EXPONENT + 1.
Definition MIN : Alignment := mkAlignment 0.
Definition MAX : Alignment := mkAlignment MAX_ALIGNMENT_EXPONENT.

(** [raw.trailing_zeros()] of a power of two. *)
Definition trailing_zeros (raw : Z) : Z := Z.log2 raw.

(** [raw.is_power_of_two()]. *)
Definition is_power_of_two (raw : Z) : bool := (0 <? raw) && (raw =? 2 ^ Z.log2 raw).

Definition new (raw : Z) : res Alignment :=
  if negb (is_power_of_two raw) then Err "Invalid alignment 0x{raw:x}"
  else
    let exponent := trailing_zeros raw in
    if MAX_ALIGNMENT_EXPONENT <? exponent then Err "Unsupported alignment 0x{raw:x}"
    else Ok (mkAlignment exponent).

Definition from_exponent (exponent : Z) : res Alignment :=
  if MAX_ALIGNMENT_EXPONENT <? exponent then Err "Unsupported alignment 2^{exponent}"
  else Ok (mkAlignment (wrap 8 exponent)).

Definition value (self : Alignment) : Z := wshl 64 1 (exponent self).
Definition mask (self : Alignment) : Z := wsub 64 (value self) 1.

(** [value.next_multiple_of(n)], whose addition wraps. *)
Definition next_multiple_of (value n : Z) : Z :=
  let r := value mod n in if r =? 0 then value else wadd 64 value (n - r).

Definition align_up (self : Alignment) (v : Z) : Z := next_multiple_of v (value self).
Definition align_down (self : Alignment) (v : Z) : Z := Z.land v (wnot 64 (mask self)).

Definition align_modulo (self : Alignment) (ref_offset offset : Z) : Z :=
  let mask := mask self in
  let offset := align_up self offset in
  if Z.land offset mask =? Z.land ref_offset mask then offset
  else
    let adjustment := wsub 64 (wadd 64 (Z.land ref_offset mask) (value self)) (Z.land offset mask) in
    let adjustment := if value self <? adjustment then wsub 64 adjustment (value self) else adjustment in
    wadd 64 offset adjustment.

(** [a.max(b)] and [a.min(b)] of the derived order. *)
Definition alignment_max (a b : Alignment) : Alignment := if exponent a <=? exponent b then b else a.
Definition alignment_min (a b : Alignment) : Alignment := if exponent a <=? exponent b then a else b.

(** ** Specification *)

(** What [new] and the constants guarantee. *)
Definition valid (a : Alignment) : Prop := 0 <= exponent a <= MAX_ALIGNMENT_EXPONENT.

(** ** Lemmas *)
Lemma valid_pow a : valid a -> 0 < 2 ^ exponent a <= 2 ^ 21.
Proof.
  intros [Hl Hu]. unfold MAX_ALIGNMENT_EXPONENT in Hu.
  split; [apply Z.pow_pos_nonneg; lia|apply Z.pow_le_mono_r; lia].
Qed.

Lemma value_pow a : valid a -> value a = 2 ^ exponent a.
Proof.
  intros Hv. pose proof (valid_pow a Hv). destruct Hv as [Hl Hu]. unfold MAX_ALIGNMENT_EXPONENT in Hu.
  unfold value, wshl. rewrite Z.mod_small, Z.shiftl_mul_pow2, Z.mul_1_l by lia.
  apply wrap_small. unfold in_u. lia.
Qed.

Lemma mask_ones_eq a : valid a -> mask a = Z.ones (exponent a).
Proof.
  intros Hv. unfold mask. rewrite value_pow by done. pose proof (valid_pow a Hv).
  unfold wsub. rewrite wrap_small by (unfold in_u; lia). rewrite Z.ones_equiv. lia.
Qed.

Lemma land_mask a v : valid a -> Z.land v (mask a) = v mod 2 ^ exponent a.
Proof. intros Hv. rewrite mask_ones_eq by done. apply Z.land_ones. apply Hv. Qed.

(** [align_up] without wrap-around. *)
Lemma align_up_eq a v :
  valid a -> 0 <= v -> v + 2 ^ exponent a <= 2 ^ 64 ->
  align_up a v = v + (- v) mod 2 ^ exponent a.
Proof.
  intros Hv Hl Hu. unfold align_up, next_multiple_of. rewrite value_pow by done.
  pose proof (valid_pow a Hv) as [Hp _]. set (n := 2 ^ exponent a) in *. clearbody n.
  pose proof (Z.mod_pos_bound v n Hp).
  destruct (Z.eqb_spec (v mod n) 0) as [E|E].
  - rewrite Z.mod_opp_l_z by lia. lia.
  - rewrite Z.mod_opp_l_nz by lia. unfold wadd. rewrite wrap_small by (unfold in_u; lia). done.
Qed.

Lemma align_up_bounds a v :
  valid a -> 0 <= v -> v + 2 ^ exponent a <= 2 ^ 64 ->
  v <= align_up a v < v + 2 ^ exponent a /\ align_up a v mod 2 ^ exponent a = 0.
Proof.
  intros Hv Hl Hu. rewrite align_up_eq by done. pose proof (valid_pow a Hv) as [Hp _].
  set (n := 2 ^ exponent a) in *. clearbody n.
  pose proof (Z.mod_pos_bound (- v) n Hp). split; [lia|].
  rewrite Z.add_mod_idemp_r, Z.add_opp_diag_r by lia. apply Z.mod_0_l. lia.
Qed.

(** Aligning two congruent offsets keeps them congruent. *)
Lemma align_up_congruent a b v w :
  valid a -> valid b -> exponent a <= exponent b ->
  0 <= v -> v + 2 ^ exponent a <= 2 ^ 64 -> 0 <= w -> w + 2 ^ exponent a <= 2 ^ 64 ->
  v mod 2 ^ exponent b = w mod 2 ^ exponent b ->
  align_up a v mod 2 ^ exponent b = align_up a w mod 2 ^ exponent b.
Proof.
  intros Ha Hb Hab Hv Hvu Hw Hwu Hc. rewrite !align_up_eq by done.
  pose proof (valid_pow a Ha) as [Hpa _]. pose proof (valid_pow b Hb) as [Hpb _].
  assert (2 ^ exponent b = 2 ^ exponent a * 2 ^ (exponent b - exponent a)) as Hd.
  { destruct Ha. rewrite <- Z.pow_add_r by lia. f_equal. lia. }
  set (m := 2 ^ (exponent b - exponent a)) in *.
  set (n := 2 ^ exponent a) in *. set (q := 2 ^ exponent b) in *.
  assert (0 < m) as Hm by (apply Z.pow_pos_nonneg; lia). clearbody m n q.
  assert ((- v) mod n = (- w) mod n) as ->.
  { assert (forall x, (- x) mod n = (- (x mod q)) mod n) as Hx.
    { intros x. rewrite (Z.div_mod x q) at 1 by lia. subst q.
      replace (- (n * m * (x / (n * m)) + x mod (n * m)))
        with (- (x mod (n * m)) + (- (m * (x / (n * m)))) * n) by lia.
      apply Z.mod_add. lia. }
    rewrite (Hx v), (Hx w), Hc. done. }
  rewrite <- (Z.add_mod_idemp_l v), <- (Z.add_mod_idemp_l w), Hc by lia. done.
Qed.

Lemma align_modulo_eq a r o :
  valid a -> 0 <= r -> 0 <= o -> o + 2 * 2 ^ exponent a <= 2 ^ 64 ->
  align_modulo a r o = align_up a o + r mod 2 ^ exponent a.
Proof.
  intros Hv Hr Ho Hu. pose proof (valid_pow a Hv) as [Hp Hp'].
  destruct (align_up_bounds a o Hv Ho ltac:(lia)) as [Hb Hm].
  unfold align_modulo. rewrite !land_mask, value_pow, Hm by done.
  pose proof (Z.mod_pos_bound r (2 ^ exponent a) Hp) as Hrm.
  destruct (Z.eqb_spec 0 (r mod 2 ^ exponent a)) as [E|E]; [lia|].
  set (n := 2 ^ exponent a) in *. set (x := r mod n) in *.
  assert (wadd 64 x n = x + n) as -> by (apply wrap_small; unfold in_u; lia).
  assert (wsub 64 (x + n) 0 = x + n) as ->
    by (unfold wsub; rewrite Z.sub_0_r; apply wrap_small; unfold in_u; lia).
  rewrite (proj2 (Z.ltb_lt _ _)) by lia.
  assert (wsub 64 (x + n) n = x) as ->
    by (unfold wsub; rewrite Z.add_simpl_r; apply wrap_small; unfold in_u; lia).
  apply wrap_small. unfold in_u. lia.
Qed.

Lemma align_up_nonneg a v : 0 <= v -> 0 <= align_up a v.
Proof.
  intros Hv. unfold align_up, next_multiple_of. destruct (_ =? 0); [done|]. apply wrap_range. lia.
Qed.

Lemma align_modulo_nonneg a r o : 0 <= o -> 0 <= align_modulo a r o.
Proof.
  intros Ho. unfold align_modulo. destruct (_ =? _); [by apply align_up_nonneg|]. apply wrap_range. lia.
Qed.

Lemma align_down_eq a v : valid a -> in_u 64 v -> align_down a v = v - v mod 2 ^ exponent a.
Proof.
  intros Ha Hv. unfold align_down. rewrite mask_ones_eq by done. destruct Ha as [Hl Hu].
  unfold MAX_ALIGNMENT_EXPONENT in Hu.
  assert (Z.land v (wnot 64 (Z.ones (exponent a))) = Z.ldiff v (Z.ones (exponent a))) as ->.
  { apply Z.bits_inj'; intros i Hi. rewrite Z.land_spec, Z.ldiff_spec. unfold wnot.
    rewrite testbit_wrap, Z.lnot_spec by lia. case_decide; [done|].
    by rewrite (testbit_small 64 v) by (done || lia). }
  rewrite Z.ldiff_ones_r, Z.shiftl_mul_pow2, Z.shiftr_div_pow2 by lia.
  pose proof (Z.div_mod v (2 ^ exponent a) ltac:(apply Z.pow_nonzero; lia)). lia.
Qed.

(** Distinct multiples are a whole step apart. *)
Lemma multiple_gap n x y : 0 < n -> x mod n = 0 -> y mod n = 0 -> x < y -> x + n <= y.
Proof.
  intros Hn Hx Hy Hlt. pose proof (Z.div_mod x n ltac:(lia)). pose proof (Z.div_mod y n ltac:(lia)).
  assert (x / n < y / n); nia.
Qed.

Lemma max_valid a b : valid a -> valid b -> valid (alignment_max a b).
Proof. unfold alignment_max. by destruct (_ <=? _). Qed.

Lemma min_valid a b : valid a -> valid b -> valid (alignment_min a b).
Proof. unfold alignment_min. by destruct (_ <=? _). Qed.

Lemma max_le_l a b : exponent a <= exponent (alignment_max a b).
Proof. unfold alignment_max. destruct (Z.leb_spec (exponent a) (exponent b)); lia. Qed.

Lemma max_le_r a b : exponent b <= exponent (alignment_max a b).
Proof. unfold alignment_max. destruct (Z.leb_spec (exponent a) (exponent b)); lia. Qed.

Lemma min_le_r a b : exponent (alignment_min a b) <= exponent b.
Proof. unfold alignment_min. destruct (Z.leb_spec (exponent a) (exponent b)); lia. Qed.

(** ** Theorems *)

(** The alignment arithmetic is exact where it does not leave 64 bits: [new]
    accepts exactly the powers of two up to 2^21 and gives back the same value,
    [align_up] is the least multiple at or above, [align_down] the greatest at or below,
    and [align_modulo] the least offset at or above [align_up] that is congruent to the
    reference. *)
Theorem alignment_spec raw r v :
  0 <= raw -> 0 <= r -> 0 <= v < 2 ^ 63 ->
  match new raw with
  | Ok a =>
      valid a /\ value a = raw /\
      (forall m, m mod raw = 0 -> v <= m <-> align_up a v <= m) /\ align_up a v mod raw = 0 /\
      (forall m, m mod raw = 0 -> m <= v <-> m <= align_down a v) /\ align_down a v mod raw = 0 /\
      align_modulo a r v mod raw = r mod raw /\
      align_up a v <= align_modulo a r v < align_up a v + raw
  | Err _ => forall e, 0 <= e <= 21 -> raw <> 2 ^ e
  | Panic => False
  end.
Proof.
  intros Hraw Hr Hv. unfold new, is_power_of_two, trailing_zeros.
  destruct (Z.ltb_spec 0 raw) as [H0|H0]; cbn [andb negb];
    [|intros e He; pose proof (Z.pow_pos_nonneg 2 e); lia].
  destruct (Z.eqb_spec raw (2 ^ Z.log2 raw)) as [E|E]; cbn [negb];
    [|intros e He Hx; apply E; rewrite Hx, Z.log2_pow2; lia].
  unfold MAX_ALIGNMENT_EXPONENT. destruct (Z.ltb_spec 21 (Z.log2 raw)) as [H|H].
  { intros e He ->. rewrite Z.log2_pow2 in H; lia. }
  set (a := mkAlignment (Z.log2 raw)).
  assert (valid a) as Ha by (split; cbn; [apply Z.log2_nonneg|done]).
  assert (2 ^ exponent a = raw) as Hpow by (cbn; done).
  pose proof (valid_pow a Ha) as [Hp Hp'].
  destruct (align_up_bounds a v Ha ltac:(lia) ltac:(lia)) as [Hb Hm].
  rewrite align_modulo_eq by (done || lia).
  rewrite align_down_eq by (done || unfold in_u; lia). rewrite Hpow in *.
  pose proof (Z.mod_pos_bound v raw H0). pose proof (Z.mod_pos_bound r raw H0).
  assert (v - v mod raw + raw > v /\ (v - v mod raw) mod raw = 0) as [Hd Hdm].
  { split; [lia|]. rewrite Zminus_mod_idemp_r, Z.sub_diag. apply Z.mod_0_l. lia. }
  split; [done|]. split; [by rewrite value_pow|]. repeat split; try done; try lia.
  - intros Hvm. destruct (Z.le_gt_cases (align_up a v) m) as [|Hgt]; [done|].
    pose proof (multiple_gap raw m (align_up a v)). lia.
  - intros Hmv. destruct (Z.le_gt_cases m (v - v mod raw)) as [|Hgt]; [done|].
    pose proof (multiple_gap raw (v - v mod raw) m). lia.
  - rewrite <- Z.add_mod_idemp_l, Hm, Z.add_0_l by lia. apply Z.mod_mod. lia.
Qed.

Lemma alignment_spec_witness :
  match new 4096 with
  | Ok a =>
      valid a /\ value a = 4096 /\
      (forall m, m mod 4096 = 0 -> 0x42af7e <= m <-> align_up a 0x42af7e <= m) /\
      align_up a 0x42af7e mod 4096 = 0 /\
      (forall m, m mod 4096 = 0 -> m <= 0x42af7e <-> m <= align_down a 0x42af7e) /\
      align_down a 0x42af7e mod 4096 = 0 /\
      align_modulo a 0x2afce 0x42af7e mod 4096 = 0x2afce mod 4096 /\
      align_up a 0x42af7e <= align_modulo a 0x2afce 0x42af7e < align_up a 0x42af7e + 4096
  | Err _ => forall e, 0 <= e <= 21 -> 4096 <> 2 ^ e
  | Panic => False
  end.
Proof. apply (alignment_spec 4096 0x2afce 0x42af7e); lia. Defined.
