(* ===== verification/PartMap.v ===== *)
(** Parts of output sections: the identifiers of [libjdxld/src/part_id.rs] and
    [libjdxld/src/output_section_id.rs], and [OutputSectionPartMap] of
    [libjdxld/src/output_section_part_map.rs]. *)
From Stdlib Require Import ZArith Lia.
From stdpp Require Import base list numbers strings option sorting.
From S2P Require Import Prelude Alignment.

Local Open Scope Z_scope.

(** ** The standard library's [BTreeMap], as an association list in key order *)
Section BTree.
Context {A : Type}.

Fixpoint bt_get (m : list (Z * A)) (k : Z) : option A :=
  match m with
  | [] => None
  | (k', x) :: m => if k =? k' then Some x else bt_get m k
  end.

(** An update through [m.entry(k).or_insert(d)]. *)
Fixpoint bt_update (m : list (Z * A)) (k : Z) (d : A) (f : A -> A) : list (Z * A) :=
  match m with
  | [] => [(k, f d)]
  | (k', x) :: m' =>
      if k =? k' then (k', f x) :: m'
      else if k <? k' then (k, f d) :: (k', x) :: m'
      else (k', x) :: bt_update m' k d f
  end.

(** [m.range(lo..hi)]. *)
Definition bt_range (m : list (Z * A)) (lo hi : Z) : list (Z * A) :=
  filter (fun e => lo <= e.1 < hi) m.

(** Keys ascend, starting at [from]. *)
Fixpoint bt_sorted (from : Z) (m : list (Z * A)) : Prop :=
  match m with
  | [] => True
  | (k, _) :: m => from <= k /\ bt_sorted (k + 1) m
  end.

Lemma bt_sorted_weaken m a b : b <= a -> bt_sorted a m -> bt_sorted b m.
Proof. destruct m as [|[k x] m]; [done|]. cbn. intros ? [? ?]. split; [lia|done]. Qed.

Lemma bt_get_below m from k : bt_sorted from m -> k < from -> bt_get m k = None.
Proof.
  revert from. induction m as [|[k' x] m IH]; intros from; [done|]. cbn. intros [Hf Hs] Hk.
  destruct (Z.eqb_spec k k'); [lia|]. apply (IH (k' + 1)); [done|lia].
Qed.

Lemma bt_get_update m from k d f j :
  bt_sorted from m ->
  bt_get (bt_update m k d f) j = if j =? k then Some (f (default d (bt_get m k))) else bt_get m j.
Proof.
  revert from. induction m as [|[k' x] m IH]; intros from; cbn [bt_update bt_get bt_sorted];
    [by destruct (j =? k)|].
  intros [Hf Hs]. destruct (Z.eqb_spec k k') as [->|Hk]; cbn [bt_get]; [by destruct (j =? k')|].
  destruct (Z.ltb_spec k k'); cbn [bt_get].
  - rewrite (bt_get_below m (k' + 1) k) by (done || lia). by destruct (j =? k).
  - rewrite (IH (k' + 1)) by done. destruct (Z.eqb_spec j k'), (Z.eqb_spec j k); congruence || lia.
Qed.

Lemma bt_update_sorted m from k d f :
  bt_sorted from m -> from <= k -> bt_sorted from (bt_update m k d f).
Proof.
  revert from. induction m as [|[k' x] m IH]; intros from; cbn [bt_update bt_sorted]; [done|].
  intros [Hf Hs] Hk. destruct (Z.eqb_spec k k') as [->|Hne]; [done|].
  destruct (Z.ltb_spec k k'); cbn [bt_sorted].
  - split; [done|]. split; [lia|done].
  - split; [done|]. apply IH; [done|lia].
Qed.

Lemma bt_update_twice m k d f g :
  bt_update (bt_update m k d f) k d g = bt_update m k d (fun x => g (f x)).
Proof.
  induction m as [|[k' x] m IH]; cbn [bt_update]; [by rewrite Z.eqb_refl|].
  destruct (Z.eqb_spec k k') as [->|Hne]; cbn [bt_update]; [by rewrite Z.eqb_refl|].
  destruct (k <? k') eqn:E; cbn [bt_update]; [by rewrite Z.eqb_refl|].
  rewrite (proj2 (Z.eqb_neq k k')), E, IH by done. done.
Qed.

End BTree.

(** ** OutputSectionPartMap *)
Record PartMap (A : Type) := mkPartMap { parts : list A; sparse : option (list (Z * A)) }.
Arguments mkPartMap {A}.
Arguments parts {A}.
Arguments sparse {A}.

Section Access.
Context {A : Type} (d : A).   (* [T::default()] *)

Definition sparse_contents (m : PartMap A) : list (Z * A) := default [] (sparse m).

Definition part_get (m : PartMap A) (part_id : Z) : A :=
  match parts m !! Z.to_nat part_id with
  | Some x => x
  | None => default d (bt_get (sparse_contents m) part_id)
  end.

(** An update through [get_mut]. *)
Definition part_update (m : PartMap A) (part_id : Z) (f : A -> A) : PartMap A :=
  match parts m !! Z.to_nat part_id with
  | Some x => mkPartMap (<[Z.to_nat part_id := f x]> (parts m)) (sparse m)
  | None => mkPartMap (parts m) (Some (bt_update (sparse_contents m) part_id d f))
  end.

Fixpoint enumerate_from (i : Z) (l : list A) : list (Z * A) :=
  match l with [] => [] | x :: l => (i, x) :: enumerate_from (i + 1) l end.

Definition in_range (m : PartMap A) (lo hi : Z) : list (Z * A) :=
  if (lo <=? hi) && (hi <=? Z.of_nat (length (parts m))) then
    enumerate_from lo (take (Z.to_nat (hi - lo)) (drop (Z.to_nat lo) (parts m)))
  else bt_range (sparse_contents m) lo hi.

(** The dense parts are the first [n]; the others follow them. *)
Definition part_map_wf (n : nat) (m : PartMap A) : Prop :=
  length (parts m) = n /\ bt_sorted (Z.of_nat n) (sparse_contents m).

Definition has_entry (m : PartMap A) (part_id : Z) : Prop :=
  is_Some (parts m !! Z.to_nat part_id) \/ is_Some (bt_get (sparse_contents m) part_id).

Lemma part_update_wf n m part_id f :
  part_map_wf n m -> 0 <= part_id -> part_map_wf n (part_update m part_id f).
Proof.
  intros [Hn Hs] Hid. unfold part_update. destruct (parts m !! _) eqn:E; split; cbn [parts].
  - by rewrite length_insert.
  - done.
  - done.
  - cbn. apply bt_update_sorted; [done|]. apply lookup_ge_None in E. lia.
Qed.

Lemma part_get_update n m part_id f j :
  part_map_wf n m -> 0 <= part_id -> 0 <= j ->
  part_get (part_update m part_id f) j = if j =? part_id then f (part_get m part_id) else part_get m j.
Proof.
  intros [Hn Hs] Hid Hj. unfold part_get, part_update.
  destruct (parts m !! Z.to_nat part_id) as [x|] eqn:E; cbn [parts sparse].
  - destruct (Z.eqb_spec j part_id) as [->|Hne].
    + by rewrite list_lookup_insert_eq by (by eapply lookup_lt_Some).
    + rewrite list_lookup_insert_ne by lia. done.
  - assert (forall p x, sparse_contents (mkPartMap p (Some x)) = x :> list (Z * A)) as -> by done.
    rewrite (bt_get_update _ (Z.of_nat n)) by done.
    destruct (Z.eqb_spec j part_id) as [->|Hne]; [by rewrite E|done].
Qed.

Lemma part_update_twice m part_id f g :
  part_update (part_update m part_id f) part_id g = part_update m part_id (fun x => g (f x)).
Proof.
  unfold part_update. destruct (parts m !! Z.to_nat part_id) as [x|] eqn:E; cbn [parts sparse].
  - rewrite list_lookup_insert_eq by (by eapply lookup_lt_Some). by rewrite list_insert_insert_eq.
  - rewrite E. f_equal. f_equal. apply bt_update_twice.
Qed.

Lemma part_get_no_entry m part_id : ~ has_entry m part_id -> part_get m part_id = d.
Proof.
  unfold has_entry, part_get. intros H.
  destruct (parts m !! _); [exfalso; apply H; by left; eexists|].
  destruct (bt_get _ _); [exfalso; apply H; by right; eexists|done].
Qed.

End Access.

(** [mut_with_map]: the callback updates an entry of [m] and returns a value. *)
Fixpoint bt_mut_with {T U V} (dT : T) (m : list (Z * T)) (o : list (Z * U)) (cb : T -> U -> T * V) :
    list (Z * T) * list (Z * V) :=
  match o with
  | [] => (m, [])
  | (k, u) :: o =>
      let l := default dT (bt_get m k) in
      let '(m, out) := bt_mut_with dT (bt_update m k dT (fun t => (cb t u).1)) o cb in
      (m, (k, (cb l u).2) :: out)
  end.

Definition mut_with_map {T U V} (dT : T) (m : PartMap T) (other : PartMap U) (cb : T -> U -> T * V) :
    PartMap T * PartMap V :=
  let pairs := zip_with cb (parts m) (parts other) in
  let parts_left := map fst pairs ++ drop (length (parts other)) (parts m) in
  match sparse other with
  | None => (mkPartMap parts_left (sparse m), mkPartMap (map snd pairs) None)
  | Some o =>
      let '(s, out) := bt_mut_with dT (sparse_contents m) o cb in
      (mkPartMap parts_left (Some s), mkPartMap (map snd pairs) (Some out))
  end.

(** ** The maps of sizes and offsets *)
Definition increment (m : PartMap Z) (part_id size : Z) : PartMap Z :=
  part_update 0 m part_id (fun v => wadd 64 v size).

Definition decrement (m : PartMap Z) (part_id size : Z) : PartMap Z :=
  part_update 0 m part_id (fun v => wsub 64 v size).

Definition merge_and_return_start_offsets (m sizes : PartMap Z) : PartMap Z * PartMap Z :=
  mut_with_map 0 m sizes (fun offset size => (wadd 64 offset size, offset)).

Fixpoint bt_merge (m rhs : list (Z * Z)) : list (Z * Z) :=
  match rhs with
  | [] => m
  | (k, r) :: rhs => bt_merge (bt_update m k 0 (fun l => wadd 64 l r)) rhs
  end.

Definition merge (m rhs : PartMap Z) : PartMap Z :=
  mkPartMap
    (zip_with (wadd 64) (parts m) (parts rhs) ++ drop (length (parts rhs)) (parts m))
    (match sparse rhs with
     | None => sparse m
     | Some r => Some (bt_merge (sparse_contents m) r)
     end).

(** [compute_start_offsets_by_group] over the sizes of the groups, and the sum
    [compute_total_section_part_sizes] starts with. *)
Fixpoint compute_start_offsets_by_group (offsets : PartMap Z) (groups : list (PartMap Z)) :
    list (PartMap Z) :=
  match groups with
  | [] => []
  | g :: groups =>
      let '(offsets, start) := merge_and_return_start_offsets offsets g in
      start :: compute_start_offsets_by_group offsets groups
  end.

Definition total_sizes (empty : PartMap Z) (groups : list (PartMap Z)) : PartMap Z :=
  fold_left merge groups empty.

(** ** Part identifiers *)
Section PartIds.

(** [P::NUM_SINGLE_PART_SECTIONS], and the minimum alignment of each section. *)
Variable NUM_SINGLE_PART_SECTIONS : Z.
Variable min_alignment : Z -> Alignment.

Definition output_section_id (part_id : Z) : Z :=
  if part_id <? NUM_SINGLE_PART_SECTIONS then part_id
  else wadd 32 ((part_id - NUM_SINGLE_PART_SECTIONS) / NUM_ALIGNMENTS) NUM_SINGLE_PART_SECTIONS.

Definition alignment (part_id : Z) : Alignment :=
  if NUM_SINGLE_PART_SECTIONS <=? part_id then
    mkAlignment (NUM_ALIGNMENTS - 1 - (part_id - NUM_SINGLE_PART_SECTIONS) mod NUM_ALIGNMENTS)
  else min_alignment (output_section_id part_id).

Definition num_parts (section_id : Z) : Z :=
  if section_id <? NUM_SINGLE_PART_SECTIONS then 1 else NUM_ALIGNMENTS.

Definition base_part_id (section_id : Z) : Z :=
  if section_id <? NUM_SINGLE_PART_SECTIONS then section_id
  else wadd 32 NUM_SINGLE_PART_SECTIONS
         (wmul 32 (section_id - NUM_SINGLE_PART_SECTIONS) NUM_ALIGNMENTS).

Definition part_id_range (section_id : Z) : Z * Z :=
  let base := base_part_id section_id in (base, wadd 32 base (num_parts section_id)).

Definition part_id_with_alignment (section_id : Z) (a : Alignment) : res Z :=
  if section_id <? NUM_SINGLE_PART_SECTIONS then Panic
  else
    let regular_offset := section_id - NUM_SINGLE_PART_SECTIONS in
    Ok (wsub 32 (wsub 32 (wadd 32 (wadd 32 NUM_SINGLE_PART_SECTIONS
                                     (wmul 32 regular_offset NUM_ALIGNMENTS)) NUM_ALIGNMENTS) 1)
          (exponent a)).

(** [sizes.max_alignment(range)]: the alignment of the first part that is not
    empty, and at least the minimum of the section. *)
Definition max_alignment (sizes : PartMap Z) (range : Z * Z) : Alignment :=
  alignment_max
    (match List.find (fun e => negb (e.2 =? 0)) (in_range sizes range.1 range.2) with
     | Some (part_id, _) => alignment part_id
     | None => MIN
     end)
    (min_alignment (output_section_id range.1)).

(** The identifiers of the sections that the 32-bit part identifiers have room for. *)
Definition section_fits (section_id : Z) : Prop :=
  0 <= NUM_SINGLE_PART_SECTIONS /\ 0 <= section_id /\
  NUM_SINGLE_PART_SECTIONS + (section_id + 1) * NUM_ALIGNMENTS < 2 ^ 32.

Lemma part_id_range_eq s :
  section_fits s ->
  part_id_range s =
    if s <? NUM_SINGLE_PART_SECTIONS then (s, s + 1)
    else (NUM_SINGLE_PART_SECTIONS + (s - NUM_SINGLE_PART_SECTIONS) * NUM_ALIGNMENTS,
          NUM_SINGLE_PART_SECTIONS + (s - NUM_SINGLE_PART_SECTIONS) * NUM_ALIGNMENTS + NUM_ALIGNMENTS).
Proof.
  intros (Hn & Hs & Hf). unfold part_id_range, base_part_id, num_parts.
  change NUM_ALIGNMENTS with 22 in *. unfold wadd, wmul.
  destruct (Z.ltb_spec s NUM_SINGLE_PART_SECTIONS).
  - by rewrite wrap_small by (unfold in_u; lia).
  - rewrite !(wrap_small 32) by (unfold in_u; try rewrite !wrap_small; unfold in_u; lia). done.
Qed.

Lemma part_of_section s p :
  section_fits s -> (part_id_range s).1 <= p < (part_id_range s).2 -> output_section_id p = s.
Proof.
  intros Hs. rewrite part_id_range_eq by done. destruct Hs as (Hn & Hs & Hf). unfold output_section_id.
  change NUM_ALIGNMENTS with 22 in *.
  destruct (Z.ltb_spec s NUM_SINGLE_PART_SECTIONS); cbn [fst snd]; intros Hp.
  - rewrite (proj2 (Z.ltb_lt _ _)) by lia. lia.
  - rewrite (proj2 (Z.ltb_ge _ _)) by lia.
    assert ((p - NUM_SINGLE_PART_SECTIONS) / 22 = s - NUM_SINGLE_PART_SECTIONS) as ->
      by (symmetry; apply (Z.div_unique_pos _ _ _ (p - NUM_SINGLE_PART_SECTIONS - (s - NUM_SINGLE_PART_SECTIONS) * 22)); lia).
    unfold wadd. rewrite wrap_small by (unfold in_u; lia). lia.
Qed.

Lemma part_with_alignment_eq s e :
  section_fits s -> NUM_SINGLE_PART_SECTIONS <= s -> 0 <= e <= MAX_ALIGNMENT_EXPONENT ->
  part_id_with_alignment s (mkAlignment e) = Ok ((part_id_range s).2 - 1 - e).
Proof.
  intros Hs Hge He. rewrite part_id_range_eq by done. destruct Hs as (Hn & Hs & Hf).
  unfold part_id_with_alignment. rewrite (proj2 (Z.ltb_ge _ _)) by lia. cbn [exponent snd].
  change NUM_ALIGNMENTS with 22 in *. change MAX_ALIGNMENT_EXPONENT with 21 in *.
  unfold wadd, wsub, wmul. f_equal.
  rewrite (wrap_small 32 (_ * _)) by (unfold in_u; lia).
  rewrite (wrap_small 32 (NUM_SINGLE_PART_SECTIONS + _)) by (unfold in_u; lia).
  rewrite (wrap_small 32 (_ + _ + 22)) by (unfold in_u; lia).
  rewrite (wrap_small 32 (_ - 1)) by (unfold in_u; lia).
  rewrite wrap_small by (unfold in_u; lia). done.
Qed.

End PartIds.

(** ** Lemmas *)

(** The entries of a range come in the order of their parts. *)
Lemma bt_sorted_range {A} (m : list (Z * A)) from lo hi :
  bt_sorted from m -> bt_sorted (Z.max lo from) (bt_range m lo hi).
Proof.
  revert from. induction m as [|[k x] m IH]; intros from; [done|]. cbn [bt_sorted]. intros [Hf Hs].
  unfold bt_range. rewrite filter_cons. cbn [fst]. specialize (IH _ Hs). fold (bt_range m lo hi).
  case_decide; cbn [bt_sorted]; (split; [lia|]) || idtac;
    (eapply bt_sorted_weaken; [|exact IH]; lia).
Qed.

Lemma enumerate_sorted {A} (l : list A) from i : from <= i -> bt_sorted from (enumerate_from i l).
Proof.
  revert from i. induction l as [|x l IH]; intros from i Hi; [done|]. split; [done|]. apply IH. lia.
Qed.

Lemma enumerate_bound {A} (l : list A) i k x :
  (k, x) ∈ enumerate_from i l -> i <= k < i + Z.of_nat (length l).
Proof.
  revert i. induction l as [|y l IH]; intros i; [by rewrite elem_of_nil|]. cbn [enumerate_from length].
  rewrite elem_of_cons. intros [[= -> ->]|H]; [lia|]. apply IH in H. lia.
Qed.

Lemma in_range_sorted {A} n (m : PartMap A) lo hi :
  part_map_wf n m -> bt_sorted lo (in_range m lo hi).
Proof.
  intros [_ Hs]. unfold in_range. destruct (_ && _); [by apply enumerate_sorted|].
  apply (bt_sorted_weaken _ (Z.max lo (Z.of_nat n))); [lia|by apply bt_sorted_range].
Qed.

Lemma in_range_bound {A} (m : PartMap A) lo hi p x :
  0 <= lo -> (p, x) ∈ in_range m lo hi -> lo <= p < hi.
Proof.
  intros Hlo. unfold in_range. destruct (_ && _) eqn:E.
  - intros H%enumerate_bound. rewrite length_take, length_drop in H.
    apply andb_true_iff in E as [E1%Z.leb_le E2%Z.leb_le]. lia.
  - unfold bt_range. rewrite list_elem_of_filter. intros [? _]. done.
Qed.

Lemma bt_range_get {A} (m : list (Z * A)) from lo hi p x :
  bt_sorted from m -> (p, x) ∈ bt_range m lo hi -> bt_get m p = Some x /\ from <= p.
Proof.
  revert from. induction m as [|[k y] m IH]; intros from; [by rewrite elem_of_nil|]. cbn [bt_sorted bt_get].
  intros [Hf Hs]. unfold bt_range in *. rewrite list_elem_of_filter, elem_of_cons.
  intros [Hr [[= -> ->]|Hin]]; [by rewrite Z.eqb_refl|].
  destruct (IH (k + 1) Hs) as [Hg Hk]; [by rewrite list_elem_of_filter|].
  destruct (Z.eqb_spec p k); [lia|]. split; [done|lia].
Qed.

Lemma enumerate_get {A} (l : list A) i p x :
  (p, x) ∈ enumerate_from i l -> l !! Z.to_nat (p - i) = Some x.
Proof.
  revert i. induction l as [|y l IH]; intros i; [by rewrite elem_of_nil|]. cbn [enumerate_from].
  rewrite elem_of_cons. intros [[= -> ->]|H]; [by rewrite Z.sub_diag|].
  pose proof (enumerate_bound _ _ _ _ H). apply IH in H.
  replace (Z.to_nat (p - i)) with (S (Z.to_nat (p - (i + 1)))) by lia. done.
Qed.

(** The entries of a range are what [part_get] reads. *)
Lemma in_range_get {A} (d : A) n m lo hi p x :
  part_map_wf n m -> 0 <= lo -> (p, x) ∈ in_range m lo hi -> part_get d m p = x.
Proof.
  intros [Hn Hs] Hlo Hin. pose proof (in_range_bound m lo hi p x Hlo Hin) as Hb.
  unfold in_range in Hin. unfold part_get. destruct (_ && _) eqn:E.
  - apply andb_true_iff in E as [E1%Z.leb_le E2%Z.leb_le].
    apply enumerate_get in Hin. apply lookup_take_Some in Hin as [Hin _].
    rewrite lookup_drop in Hin. replace (Z.to_nat lo + Z.to_nat (p - lo))%nat with (Z.to_nat p) in Hin by lia.
    by rewrite Hin.
  - apply (bt_range_get _ (Z.of_nat n)) in Hin as [-> Hk]; [|done].
    by rewrite (proj2 (lookup_ge_None _ _)) by lia.
Qed.

Lemma bt_sorted_elem {A} (l : list (Z * A)) from p x : bt_sorted from l -> (p, x) ∈ l -> from <= p.
Proof.
  revert from. induction l as [|[k y] l IH]; intros from; [by rewrite elem_of_nil|]. cbn.
  intros [Hf Hs]. rewrite elem_of_cons. intros [[= -> ->]|H]; [done|]. apply (IH (k + 1)) in H; [lia|done].
Qed.

(** [find] on a sorted list gives the least match. *)
Lemma find_least {A} (P : Z * A -> bool) l from p x :
  bt_sorted from l -> (p, x) ∈ l -> P (p, x) = true ->
  exists q y, List.find P l = Some (q, y) /\ q <= p /\ (q, y) ∈ l.
Proof.
  revert from. induction l as [|[k z] l IH]; intros from; [by rewrite elem_of_nil|]. cbn.
  intros [Hf Hs]. rewrite elem_of_cons. destruct (P (k, z)) eqn:E.
  - intros Hin Hp. exists k, z. split; [done|]. split; [|by left].
    destruct Hin as [[= -> ->]|Hin]; [done|]. apply (bt_sorted_elem l (k + 1)) in Hin; [lia|done].
  - intros [[= -> ->]|Hin] Hp; [congruence|].
    destruct (IH _ Hs Hin Hp) as (q & y & Hq & Hle & Hi). exists q, y. split; [done|]. split; [done|].
    by right.
Qed.

Section PartIdLemmas.
Variable NUM_SINGLE_PART_SECTIONS : Z.
Variable min_alignment : Z -> Alignment.
#[local] Abbreviation align_of := (alignment NUM_SINGLE_PART_SECTIONS min_alignment).
#[local] Abbreviation range_of := (part_id_range NUM_SINGLE_PART_SECTIONS).
#[local] Abbreviation fits := (section_fits NUM_SINGLE_PART_SECTIONS).

(** Within a section, later parts have smaller alignments. *)
Lemma alignment_regular s e :
  fits s -> NUM_SINGLE_PART_SECTIONS <= s -> 0 <= e <= MAX_ALIGNMENT_EXPONENT ->
  align_of ((range_of s).2 - 1 - e) = mkAlignment e.
Proof.
  intros Hs Hge He. rewrite part_id_range_eq by done. destruct Hs as (Hn & Hs & Hf).
  unfold alignment. rewrite (proj2 (Z.ltb_ge _ _)) by lia. cbn [snd].
  change NUM_ALIGNMENTS with 22 in *. change MAX_ALIGNMENT_EXPONENT with 21 in *.
  rewrite (proj2 (Z.leb_le _ _)) by lia. f_equal.
  replace (NUM_SINGLE_PART_SECTIONS + (s - NUM_SINGLE_PART_SECTIONS) * 22 + 22 - 1 - e -
             NUM_SINGLE_PART_SECTIONS) with (21 - e + (s - NUM_SINGLE_PART_SECTIONS) * 22) by lia.
  rewrite Z.mod_add, Z.mod_small by lia. lia.
Qed.

Lemma alignment_antitone s p q :
  fits s -> (range_of s).1 <= p -> p <= q -> q < (range_of s).2 ->
  exponent (align_of q) <= exponent (align_of p).
Proof.
  intros Hs Hp Hpq Hq. destruct (Z.lt_ge_cases s NUM_SINGLE_PART_SECTIONS) as [Hlt|Hge].
  - rewrite part_id_range_eq in Hp, Hq by done.
    rewrite (proj2 (Z.ltb_lt _ _)) in Hp, Hq by lia. cbn in Hp, Hq. by replace q with p by lia.
  - assert ((range_of s).2 - (range_of s).1 = 22) as Hd.
    { rewrite part_id_range_eq, (proj2 (Z.ltb_ge _ _)) by (done || lia). cbn [fst snd].
      change NUM_ALIGNMENTS with 22. lia. }
    pose proof (alignment_regular s ((range_of s).2 - 1 - p)) as HA.
    pose proof (alignment_regular s ((range_of s).2 - 1 - q)) as HB.
    unfold MAX_ALIGNMENT_EXPONENT in *.
    replace ((range_of s).2 - 1 - ((range_of s).2 - 1 - p)) with p in HA by lia.
    replace ((range_of s).2 - 1 - ((range_of s).2 - 1 - q)) with q in HB by lia.
    rewrite HA, HB by (done || lia). cbn. lia.
Qed.

(** No part that holds anything is aligned more than the section is. *)
Lemma max_alignment_covers n sizes s p size :
  part_map_wf n sizes -> fits s -> (p, size) ∈ in_range sizes (range_of s).1 (range_of s).2 ->
  size <> 0 ->
  exponent (align_of p) <= exponent (max_alignment NUM_SINGLE_PART_SECTIONS min_alignment sizes (range_of s)).
Proof.
  intros Hwf Hs Hin Hne. unfold max_alignment.
  assert (0 <= (range_of s).1) as Hlo.
  { rewrite part_id_range_eq by done. destruct Hs as (? & ? & _). change NUM_ALIGNMENTS with 22.
    destruct (Z.ltb_spec s NUM_SINGLE_PART_SECTIONS); cbn; lia. }
  destruct (find_least (fun e => negb (e.2 =? 0)) _ _ _ _ (in_range_sorted n sizes _ _ Hwf) Hin)
    as (q & y & -> & Hle & Hq); [cbn; by apply negb_true_iff, Z.eqb_neq|].
  etransitivity; [|apply max_le_l].
  apply in_range_bound in Hin, Hq; [|done..]. by apply (alignment_antitone s); [|lia..].
Qed.

Lemma max_alignment_min sizes s :
  fits s ->
  exponent (min_alignment s) <= exponent (max_alignment NUM_SINGLE_PART_SECTIONS min_alignment sizes (range_of s)).
Proof.
  intros Hs. unfold max_alignment.
  rewrite (part_of_section _ s) by (done || (rewrite part_id_range_eq by done; change NUM_ALIGNMENTS with 22; destruct (_ <? _); cbn; lia)).
  apply max_le_r.
Qed.

(** Part identifiers encode section and alignment: for a section split by
    alignment, [part_id_with_alignment] has the section's identifier and the given
    alignment, lies in the section's range, and every identifier of the range is of this
    form; ranges of different sections do not meet. *)
Theorem part_ids_bijective s :
  fits s -> NUM_SINGLE_PART_SECTIONS <= s ->
  (forall e, 0 <= e <= MAX_ALIGNMENT_EXPONENT ->
     exists p, part_id_with_alignment NUM_SINGLE_PART_SECTIONS s (mkAlignment e) = Ok p /\
       (range_of s).1 <= p < (range_of s).2 /\
       output_section_id NUM_SINGLE_PART_SECTIONS p = s /\ align_of p = mkAlignment e) /\
  (forall p, (range_of s).1 <= p < (range_of s).2 ->
     valid (align_of p) /\
     part_id_with_alignment NUM_SINGLE_PART_SECTIONS s (align_of p) = Ok p) /\
  (forall s' p, fits s' -> (range_of s).1 <= p < (range_of s).2 ->
     (range_of s').1 <= p < (range_of s').2 -> s' = s).
Proof.
  intros Hs Hge.
  assert ((range_of s).2 - (range_of s).1 = 22) as Hd.
  { rewrite part_id_range_eq, (proj2 (Z.ltb_ge _ _)) by (done || lia). cbn [fst snd].
    change NUM_ALIGNMENTS with 22. lia. }
  split; [|split].
  - intros e He. exists ((range_of s).2 - 1 - e). unfold MAX_ALIGNMENT_EXPONENT in *.
    split; [by apply part_with_alignment_eq|]. split; [lia|].
    split; [apply part_of_section; [done|lia]|by apply alignment_regular].
  - intros p Hp. assert (align_of p = mkAlignment ((range_of s).2 - 1 - p)) as ->.
    { rewrite <- (alignment_regular s) by (done || (unfold MAX_ALIGNMENT_EXPONENT; lia)).
      f_equal. lia. }
    split; [unfold valid, MAX_ALIGNMENT_EXPONENT; cbn [exponent]; lia|].
    rewrite part_with_alignment_eq by (done || (unfold MAX_ALIGNMENT_EXPONENT; lia)). f_equal. lia.
  - intros s' p Hs' Hp Hp'. rewrite <- (part_of_section _ s p), <- (part_of_section _ s' p) by done. done.
Qed.

End PartIdLemmas.

Lemma part_ids_bijective_witness :
  (forall e, 0 <= e <= 21 ->
     exists p, part_id_with_alignment 34 41 (mkAlignment e) = Ok p /\
       (part_id_range 34 41).1 <= p < (part_id_range 34 41).2 /\
       output_section_id 34 p = 41 /\ alignment 34 (fun _ => MIN) p = mkAlignment e) /\
  (forall p, (part_id_range 34 41).1 <= p < (part_id_range 34 41).2 ->
     valid (alignment 34 (fun _ => MIN) p) /\
     part_id_with_alignment 34 41 (alignment 34 (fun _ => MIN) p) = Ok p) /\
  (forall s' p, section_fits 34 s' -> (part_id_range 34 41).1 <= p < (part_id_range 34 41).2 ->
     (part_id_range 34 s').1 <= p < (part_id_range 34 s').2 -> s' = 41).
Proof. apply (part_ids_bijective 34 (fun _ => MIN) 41); [vm_compute; repeat split; congruence|lia]. Defined.

(** *** Groups *)

(** The entries [mut_with_map] returns, and what it leaves, part by part. *)
Lemma bt_mut_get {T U V} (dT : T) (m : list (Z * T)) from (o : list (Z * U)) (cb : T -> U -> T * V) k :
  bt_sorted from m -> bt_sorted from o ->
  let r := bt_mut_with dT m o cb in
  bt_sorted from r.1 /\
  bt_get r.1 k = match bt_get o k with
                 | Some u => Some (cb (default dT (bt_get m k)) u).1
                 | None => bt_get m k
                 end /\
  bt_get r.2 k = match bt_get o k with
                 | Some u => Some (cb (default dT (bt_get m k)) u).2
                 | None => None
                 end.
Proof.
  intros Hm Ho. cbv zeta. assert (forall from', bt_sorted from' o -> from <= from' -> 
    let r := bt_mut_with dT m o cb in
    bt_sorted from r.1 /\
    bt_get r.1 k = match bt_get o k with
                   | Some u => Some (cb (default dT (bt_get m k)) u).1
                   | None => bt_get m k
                   end /\
    bt_get r.2 k = match bt_get o k with
                   | Some u => Some (cb (default dT (bt_get m k)) u).2
                   | None => None
                   end) as H; [|by apply (H from)].
  clear Ho. revert m Hm. induction o as [|[j u] o IH]; intros m Hm from' Ho Hle; [done|].
  cbn [bt_mut_with bt_get bt_sorted] in *. destruct Ho as [Hj Ho].
  specialize (IH (bt_update m j dT (fun t => (cb t u).1)) ltac:(by apply bt_update_sorted; [|lia])
                (j + 1) Ho ltac:(lia)).
  destruct (bt_mut_with _ _ _ _) as [m' out]. cbn [fst snd] in *. destruct IH as (Hs & H1 & H2).
  cbn [bt_get]. rewrite H1, H2, (bt_get_update m from) by done. split; [done|].
  destruct (Z.eqb_spec k j) as [->|Hne]; [|done]. rewrite (bt_get_below o (j + 1) j) by (done || lia). done.
Qed.

Lemma merge_start_offsets_get n m sizes k :
  part_map_wf n m -> part_map_wf n sizes -> 0 <= k ->
  (forall j, 0 <= j -> in_u 64 (part_get 0 m j)) ->
  let r := merge_and_return_start_offsets m sizes in
  part_map_wf n r.1 /\ part_get 0 r.1 k = wadd 64 (part_get 0 m k) (part_get 0 sizes k) /\
  (has_entry sizes k -> part_get 0 r.2 k = part_get 0 m k).
Proof.
  intros [Hn Hs] [Hn' Hs'] Hk Hr. cbv zeta. unfold merge_and_return_start_offsets, mut_with_map.
  set (cb := fun offset size : Z => (wadd 64 offset size, offset)).
  assert (forall i, (map fst (zip_with cb (parts m) (parts sizes)) ++
      drop (length (parts sizes)) (parts m)) !! i =
      x ← parts m !! i; y ← parts sizes !! i; Some (wadd 64 x y)) as Hl.
  { intros i. rewrite Hn', <- Hn, drop_all, app_nil_r, list_lookup_fmap, lookup_zip_with.
    destruct (parts m !! i), (parts sizes !! i); done. }
  assert (forall i, map snd (zip_with cb (parts m) (parts sizes)) !! i =
      x ← parts m !! i; y ← parts sizes !! i; Some x) as Hl2.
  { intros i. rewrite list_lookup_fmap, lookup_zip_with.
    destruct (parts m !! i), (parts sizes !! i); done. }
  pose proof (bt_mut_get 0 (sparse_contents m) (Z.of_nat n) (sparse_contents sizes) cb k Hs Hs') as Hb.
  pose proof (Hr k Hk) as Hrk.
  assert (length (map fst (zip_with cb (parts m) (parts sizes)) ++
      drop (length (parts sizes)) (parts m)) = n) as Hlen.
  { rewrite length_app, length_map, length_zip_with, length_drop. lia. }
  assert (parts m !! Z.to_nat k = None <-> parts sizes !! Z.to_nat k = None) as Hdense
    by (rewrite !lookup_ge_None; lia).
  unfold part_map_wf, part_get, has_entry in *. unfold sparse_contents in *.
  destruct (sparse sizes) as [o|]; cbn [default from_option] in *; unfold id in *.
  - destruct (bt_mut_with _ _ _ _) as [s out]. cbn [fst snd parts sparse] in *.
    destruct Hb as (Hss & Hg1 & Hg2). split; [split; [exact Hlen|exact Hss]|]. rewrite Hl, Hl2.
    destruct (parts m !! Z.to_nat k) as [x|] eqn:E, (parts sizes !! Z.to_nat k) as [y|] eqn:E';
      cbn [mbind option_bind]; try (by pose proof (proj1 Hdense eq_refl)); try (by pose proof (proj2 Hdense eq_refl)); [by split; intros|].
    cbn. rewrite Hg1, Hg2. destruct (bt_get o k); cbn; [by split; intros|].
    split; [|intros [[? ?]|[? ?]]; done]. unfold wadd. by rewrite Z.add_0_r, wrap_small.
  - cbn [fst snd parts sparse] in *. split; [by split|]. rewrite Hl, Hl2.
    destruct (parts m !! Z.to_nat k) as [x|] eqn:E, (parts sizes !! Z.to_nat k) as [y|] eqn:E';
      cbn [mbind option_bind]; try (by pose proof (proj1 Hdense eq_refl)); try (by pose proof (proj2 Hdense eq_refl)); [by split; intros|]. cbn.
    split; [|intros [[? ?]|[? ?]]; done]. unfold wadd. by rewrite Z.add_0_r, wrap_small.
Qed.

Lemma merge_eq m rhs : merge m rhs = (merge_and_return_start_offsets m rhs).1.
Proof.
  unfold merge, merge_and_return_start_offsets, mut_with_map.
  assert (map fst (zip_with (fun offset size : Z => (wadd 64 offset size, offset)) (parts m) (parts rhs)) =
          zip_with (wadd 64) (parts m) (parts rhs)) as ->.
  { generalize (parts rhs). induction (parts m) as [|x l IH]; intros [|y r]; [done..|]. cbn. by rewrite IH. }
  destruct (sparse rhs) as [o|]; [|done].
  assert (forall s, bt_merge s o = (bt_mut_with 0 s o (fun offset size => (wadd 64 offset size, offset))).1) as ->.
  { induction o as [|[k r] o IH]; intros s; [done|]. cbn [bt_merge bt_mut_with]. rewrite IH. cbn [fst].
    by destruct (bt_mut_with _ _ _ _). }
  by destruct (bt_mut_with _ _ _ _).
Qed.

(** The bytes the groups put into a part. *)
Definition group_sum (groups : list (PartMap Z)) (part_id : Z) : Z :=
  foldr (fun g acc => part_get 0 g part_id + acc) 0 groups.

Lemma merged_range n m g :
  part_map_wf n m -> part_map_wf n g -> (forall j, 0 <= j -> in_u 64 (part_get 0 m j)) ->
  forall j, 0 <= j -> in_u 64 (part_get 0 (merge_and_return_start_offsets m g).1 j).
Proof.
  intros Hm Hg Hr j Hj. destruct (merge_start_offsets_get n m g j Hm Hg Hj Hr) as (_ & -> & _).
  apply wrap_range. lia.
Qed.

Lemma total_sizes_get n empty groups k :
  part_map_wf n empty -> Forall (part_map_wf n) groups -> 0 <= k ->
  (forall j, 0 <= j -> in_u 64 (part_get 0 empty j)) ->
  part_get 0 (total_sizes empty groups) k = wrap 64 (part_get 0 empty k + group_sum groups k).
Proof.
  unfold total_sizes. intros He Hg Hk. revert empty He. induction Hg as [|g groups Hg _ IH];
    intros empty He Hr; cbn [fold_left group_sum foldr].
  - rewrite Z.add_0_r, wrap_small by auto. done.
  - destruct (merge_start_offsets_get n empty g k He Hg Hk Hr) as (Hwf & Hget & _).
    rewrite merge_eq, IH, Hget by (done || by apply (merged_range n)).
    unfold group_sum, wadd, wrap. rewrite Z.add_mod_idemp_l by done. f_equal. lia.
Qed.

Lemma start_offsets_get n offsets groups k i g s :
  part_map_wf n offsets -> Forall (part_map_wf n) groups -> 0 <= k ->
  (forall j, 0 <= j -> in_u 64 (part_get 0 offsets j)) ->
  groups !! i = Some g -> compute_start_offsets_by_group offsets groups !! i = Some s -> has_entry g k ->
  part_get 0 s k = wrap 64 (part_get 0 offsets k + group_sum (take i groups) k).
Proof.
  intros Ho Hg Hk. revert offsets i Ho. induction Hg as [|g' groups Hg' _ IH]; intros offsets i Ho Hr; [done|].
  cbn [compute_start_offsets_by_group].
  pose proof (merged_range n offsets g' Ho Hg' Hr) as Hr'.
  destruct (merge_start_offsets_get n offsets g' k Ho Hg' Hk Hr) as (Hwf & Hget & Hst).
  destruct (merge_and_return_start_offsets offsets g') as [offsets' start]. cbn [fst snd] in *.
  destruct i as [|i]; cbn.
  - intros [= <-] [= <-] He. rewrite Z.add_0_r, wrap_small by auto. by apply Hst.
  - intros Hgi Hsi He. rewrite (IH offsets' i Hwf Hr' Hgi Hsi He), Hget.
    unfold wadd, wrap. rewrite Z.add_mod_idemp_l by done. f_equal. unfold group_sum. lia.
Qed.

Lemma start_offsets_length offsets groups :
  length (compute_start_offsets_by_group offsets groups) = length groups.
Proof.
  revert offsets. induction groups as [|g groups IH]; intros offsets; [done|]. cbn.
  destruct (merge_and_return_start_offsets _ _). cbn. by rewrite IH.
Qed.

(** The groups that are laid out in parallel tile every part: each group's
    start offset in a part it uses is the part's offset plus the sizes of the groups
    before it, and the size the part was laid out with is the sum of them all, so the
    ranges of different groups do not overlap and the last one ends where the part does. *)
Theorem groups_tile_parts n empty offsets groups k :
  part_map_wf n empty -> part_map_wf n offsets -> Forall (part_map_wf n) groups -> 0 <= k ->
  (forall j, 0 <= j -> part_get 0 empty j = 0) ->
  (forall j, 0 <= j -> in_u 64 (part_get 0 offsets j)) ->
  Forall (fun g => 0 <= part_get 0 g k) groups ->
  part_get 0 offsets k + group_sum groups k < 2 ^ 64 ->
  part_get 0 (total_sizes empty groups) k = group_sum groups k /\
  length (compute_start_offsets_by_group offsets groups) = length groups /\
  forall i g s, groups !! i = Some g -> compute_start_offsets_by_group offsets groups !! i = Some s ->
    has_entry g k ->
    part_get 0 s k = part_get 0 offsets k + group_sum (take i groups) k /\
    part_get 0 s k + part_get 0 g k = part_get 0 offsets k + group_sum (take (S i) groups) k /\
    part_get 0 s k + part_get 0 g k <= part_get 0 offsets k + part_get 0 (total_sizes empty groups) k.
Proof.
  intros He Ho Hg Hk Hz Hr Hpos Hsum.
  assert (forall l, Forall (fun g => 0 <= part_get 0 g k) l -> 0 <= group_sum l k) as Hge.
  { induction 1; cbn; [done|]. unfold group_sum in *. lia. }
  assert (forall a b, group_sum (a ++ b) k = group_sum a k + group_sum b k) as Happ.
  { induction a; intros b; cbn; [done|]. unfold group_sum in *. rewrite IHa. lia. }
  pose proof (Hge _ Hpos). pose proof (proj1 (Hr k Hk)).
  assert (part_get 0 (total_sizes empty groups) k = group_sum groups k) as Ht.
  { rewrite (total_sizes_get n), Hz by (done || (intros; rewrite Hz by done; done)).
    rewrite Z.add_0_l. apply wrap_small. unfold in_u. lia. }
  split; [done|]. split; [apply start_offsets_length|]. intros i g s Hi Hs Hen.
  assert (groups = take i groups ++ g :: drop (S i) groups) as Hsplit by (by rewrite take_drop_middle).
  pose proof (Happ (take i groups) (g :: drop (S i) groups)) as Hi'. rewrite <- Hsplit in Hi'.
  assert (forall g l, group_sum (g :: l) k = part_get 0 g k + group_sum l k) as Hcons by done.
  rewrite Hcons in Hi'. assert (group_sum [] k = 0) as Hnil by done.
  pose proof (Hge _ (Forall_take _ i _ Hpos)). pose proof (Hge _ (Forall_drop _ (S i) _ Hpos)).
  pose proof (proj1 (Forall_lookup _ groups) Hpos i g Hi) as Hgp. cbn in Hgp.
  assert (part_get 0 s k = part_get 0 offsets k + group_sum (take i groups) k) as Hsk.
  { rewrite (start_offsets_get n offsets groups k i g s) by done. apply wrap_small. unfold in_u. lia. }
  split; [done|]. rewrite (take_S_r _ _ g) by done. rewrite Happ, Hcons, Hnil, Ht, Hsk, Hi'. lia.
Qed.

Lemma groups_tile_parts_witness :
  let g1 := mkPartMap [4; 0] (Some [(5, 8)]) in
  let g2 := mkPartMap [2; 7] (Some [(5, 1); (9, 3)]) in
  let offsets := mkPartMap [0x1000; 0x2000] (Some [(5, 0x3000)]) in
  part_get 0 (total_sizes (mkPartMap [0; 0] None) [g1; g2]) 5 = 9 /\
  length (compute_start_offsets_by_group offsets [g1; g2]) = 2%nat /\
  forall i g s, [g1; g2] !! i = Some g ->
    compute_start_offsets_by_group offsets [g1; g2] !! i = Some s -> has_entry g 5 ->
    part_get 0 s 5 = 0x3000 + group_sum (take i [g1; g2]) 5 /\
    part_get 0 s 5 + part_get 0 g 5 = 0x3000 + group_sum (take (S i) [g1; g2]) 5 /\
    part_get 0 s 5 + part_get 0 g 5 <= 0x3000 + part_get 0 (total_sizes (mkPartMap [0; 0] None) [g1; g2]) 5.
Proof.
  apply (groups_tile_parts 2 (mkPartMap [0; 0] None) (mkPartMap [0x1000; 0x2000] (Some [(5, 0x3000)]))
    [mkPartMap [4; 0] (Some [(5, 8)]); mkPartMap [2; 7] (Some [(5, 1); (9, 3)])] 5).
  - by split.
  - split; [done|]. cbn. lia.
  - repeat constructor; cbn; lia.
  - lia.
  - intros j Hj. unfold part_get. cbn. destruct (Z.to_nat j) as [|[|[|?]]]; done.
  - intros j Hj. unfold part_get. cbn [parts sparse sparse_contents default].
    destruct (Z.to_nat j) as [|[|?]]; cbn; [split; lia..|]. destruct (j =? 5); split; vm_compute; congruence.
  - repeat constructor; vm_compute; congruence.
  - vm_compute. congruence.
Defined.
