(* ===== verification/Layout.v ===== *)
(** The addresses of output sections: [compute_layout_sections] and
    [compute_segment_alignments] of [libjdxld/src/layout.rs]. *)
From Stdlib Require Import ZArith Lia.
From stdpp Require Import base list numbers strings option.
From S2P Require Import Prelude Alignment PartMap.

Local Open Scope Z_scope.

(** ** What a platform provides *)
Class Platform := {
  NUM_SINGLE_PART_SECTIONS : Z;
  RELRO_PADDING_SECTION_ID : option Z;
  (* new file and memory offset, from the alignment of the segment and the old ones *)
  align_load_segment_start : Alignment -> Z -> Z -> Z * Z;
  (* [SectionAttributes::occupies_only_tls_address_space], from [is_tls] and [is_no_bits] *)
  only_tls_address_space : bool -> bool -> bool
}.

(** What the layout relies on: a segment start only moves the offsets forward,
    by less than twice the largest alignment. *)
Class LawfulPlatform (P : Platform) : Prop := {
  segment_start_file a file mem :
    valid a -> 0 <= file -> file + 2 ^ 23 <= 2 ^ 64 ->
    file <= (align_load_segment_start a file mem).1 <= file + 2 ^ 22;
  segment_start_mem_nonneg a file mem : 0 <= mem -> 0 <= (align_load_segment_start a file mem).2;
  segment_start_mem a file mem :
    valid a -> 0 <= file -> 0 <= mem -> mem + 2 ^ 23 <= 2 ^ 64 ->
    mem <= (align_load_segment_start a file mem).2 <= mem + 2 ^ 22
}.

(** A platform with load segments starts them at congruent file and memory
    offsets, and placing the load address afterwards keeps that. *)
Class CongruentPlatform (P : Platform) : Prop := {
  segment_start_congruent a file mem lma :
    valid a -> 0 <= file -> file + 2 ^ 23 <= 2 ^ 64 -> 0 <= mem -> mem + 2 ^ 23 <= 2 ^ 64 ->
    let r := align_load_segment_start a file mem in
    (align_load_segment_start a r.1 lma).1 mod 2 ^ exponent a = r.2 mod 2 ^ exponent a
}.

(** An ELF section like [.tbss]; no section of Mach-O and of WebAssembly. *)
Definition elf_occupies_only_tls_address_space (is_tls is_no_bits : bool) : bool := is_tls && is_no_bits.
Definition macho_occupies_only_tls_address_space (is_tls is_no_bits : bool) : bool := false.
Definition wasm_occupies_only_tls_address_space (is_tls is_no_bits : bool) : bool := false.

(** [ELF_NUM_SINGLE_PART_SECTIONS] and [SinglePartSectionId::RelroPadding]. *)
Definition elf_platform : Platform := {|
  NUM_SINGLE_PART_SECTIONS := 34;
  RELRO_PADDING_SECTION_ID := Some 29;
  align_load_segment_start := fun segment_alignment file_offset mem_offset =>
    (file_offset, align_modulo segment_alignment file_offset mem_offset);
  only_tls_address_space := elf_occupies_only_tls_address_space
|}.

Definition macho_platform : Platform := {|
  NUM_SINGLE_PART_SECTIONS := 11;
  RELRO_PADDING_SECTION_ID := None;
  align_load_segment_start := fun segment_alignment file_offset mem_offset =>
    (align_up segment_alignment file_offset, align_up segment_alignment mem_offset);
  only_tls_address_space := macho_occupies_only_tls_address_space
|}.

Definition wasm_platform : Platform := {|
  NUM_SINGLE_PART_SECTIONS := 16;
  RELRO_PADDING_SECTION_ID := None;
  align_load_segment_start := fun _ file_offset mem_offset => (file_offset, mem_offset);
  only_tls_address_space := wasm_occupies_only_tls_address_space
|}.

#[export] Instance elf_lawful : LawfulPlatform elf_platform.
Proof.
  split; intros a file mem; cbn; [lia|by apply align_modulo_nonneg|].
  intros Ha Hf Hm Hu. pose proof (valid_pow a Ha) as [Hp Hp']. rewrite align_modulo_eq by (done || lia).
  pose proof (align_up_bounds a mem Ha Hm ltac:(lia)). pose proof (Z.mod_pos_bound file _ Hp). lia.
Qed.

#[export] Instance macho_lawful : LawfulPlatform macho_platform.
Proof.
  split; intros a file mem; cbn; [|by apply align_up_nonneg|]; intros Ha; pose proof (valid_pow a Ha).
  - intros Hf Hu. pose proof (align_up_bounds a file Ha Hf). lia.
  - intros _ Hm Hu. pose proof (align_up_bounds a mem Ha Hm). lia.
Qed.

#[export] Instance wasm_lawful : LawfulPlatform wasm_platform.
Proof. split; intros; cbn; lia. Qed.

#[export] Instance elf_congruent : CongruentPlatform elf_platform.
Proof.
  split. intros a file mem lma Ha Hf Hfu Hm Hmu. cbn. pose proof (valid_pow a Ha) as [Hp Hp'].
  rewrite align_modulo_eq by (done || lia).
  destruct (align_up_bounds a mem Ha Hm ltac:(lia)) as [_ Hz].
  rewrite <- Z.add_mod_idemp_l, Hz, Z.add_0_l, Z.mod_mod by lia. done.
Qed.

#[export] Instance macho_congruent : CongruentPlatform macho_platform.
Proof.
  split. intros a file mem lma Ha Hf Hfu Hm Hmu. cbn. pose proof (valid_pow a Ha) as [Hp Hp'].
  destruct (align_up_bounds a file Ha Hf ltac:(lia)) as [Hb _].
  destruct (align_up_bounds a (align_up a file) Ha ltac:(lia) ltac:(lia)) as [_ ->].
  by destruct (align_up_bounds a mem Ha Hm ltac:(lia)) as [_ ->].
Qed.

(** ** Data *)
Record OutputRecordLayout := mkRecord {
  file_size : Z;
  mem_size : Z;
  rec_alignment : Alignment;
  file_offset : Z;
  mem_offset : Z;
  lma_offset : Z
}.

Definition default_record : OutputRecordLayout := mkRecord 0 0 MIN 0 0 0.

Definition file_end (r : OutputRecordLayout) : Z := wadd 64 (file_offset r) (file_size r).
Definition mem_end (r : OutputRecordLayout) : Z := wadd 64 (mem_offset r) (mem_size r).

Record MemoryRegion := mkMemoryRegion { origin : Z; region_length : Z; used : Z }.

Record ResolvedLocationCounter := mkLocationCounter { lc_value : Z; section_offset : option Z }.

Inductive SymbolLoc :=
| SectionStartRelative (section_id : Z)
| SectionEndRelative (section_id : Z)
| SectionEnd (section_id : Z)
| FirstSection
| LocationCounter (idx : Z) (section_id : option Z)
| NoLoc.

(** [ProgramSegmentDef], as far as the layout of sections reads it. *)
Record ProgramSegmentDef := mkSegmentDef { is_loadable : bool }.

(** [args] as far as the layout reads them. *)
Record LayoutArgs := mkLayoutArgs {
  loadable_segment_alignment : Alignment;
  should_output_partial_object : bool
}.

Section Layout.
Context `{P : Platform}.

(** [linker_script::Expression]; its evaluation is a parameter of the layout. *)
Context {Expression : Type}.

Inductive OrderEvent :=
| SegmentStart (segment_id : Z)
| SegmentEnd (segment_id : Z)
| Section_ (section_id : Z)
| SetLocation (expr : Expression) (loc : SymbolLoc) (idx : Z)
| SetLocationRelative (expr : Expression) (section_id : Z) (loc : SymbolLoc) (idx : Z)
| SetSectionAddress (expr : Expression).

Record SectionLocationInfo := mkLocationInfo {
  at_location : option Expression;
  is_top_level : bool
}.

Record SectionOutputInfo := mkSectionOutputInfo {
  merge_target : option Z;               (* [Some primary] for a secondary section *)
  is_alloc : bool;
  is_tls_section : bool;
  is_no_bits : bool;
  min_alignment : Alignment;
  location_info : option SectionLocationInfo;
  region_name : option (list Z)
}.

Definition occupies_only_tls_address_space (info : SectionOutputInfo) : bool :=
  only_tls_address_space (is_tls_section info) (is_no_bits info).

Record LayoutState := mkState {
  st_file : Z;
  st_mem : Z;
  st_lma : Z;
  pending_location : option Z;
  resolved_lc : list ResolvedLocationCounter;
  tls_memsave : option Z;
  nonalloc_mem_offsets : list Z;
  reloc_alloc_mem_offsets : list Z;
  section_layouts : list OutputRecordLayout;
  records_out : PartMap OutputRecordLayout;
  laid_out_mem_offsets : PartMap (option Z);
  memory_regions : list (list Z * MemoryRegion)
}.

(** [expression_eval], which reads the state, the symbols and the sizes. *)
Variable expression_eval : Expression -> SymbolLoc -> LayoutState -> res Z.

Variable args : LayoutArgs.
Variable output_sections : list SectionOutputInfo.
Variable program_segments : list ProgramSegmentDef.
Variable sizes : PartMap Z.

(** *** Lookups *)
Definition output_info (section_id : Z) : res SectionOutputInfo := index output_sections section_id.

Definition primary_output_section (section_id : Z) : res Z :=
  info ← output_info section_id;
  Ok (match merge_target info with Some primary => primary | None => section_id end).

Definition section_min_alignment (section_id : Z) : Alignment :=
  match output_info section_id with Ok info => min_alignment info | _ => MIN end.

Definition part_alignment (part_id : Z) : Alignment :=
  alignment NUM_SINGLE_PART_SECTIONS section_min_alignment part_id.

Definition section_range (section_id : Z) : Z * Z := part_id_range NUM_SINGLE_PART_SECTIONS section_id.

Definition section_max_alignment (section_id : Z) : Alignment :=
  max_alignment NUM_SINGLE_PART_SECTIONS section_min_alignment sizes (section_range section_id).

Fixpoint region_get (m : list (list Z * MemoryRegion)) (name : list Z) : option MemoryRegion :=
  match m with
  | [] => None
  | (k, r) :: m => if bool_decide (name = k) then Some r else region_get m name
  end.

Fixpoint region_set_used (m : list (list Z * MemoryRegion)) (name : list Z) (u : Z) :
    list (list Z * MemoryRegion) :=
  match m with
  | [] => []
  | (k, r) :: m =>
      if bool_decide (name = k) then (k, mkMemoryRegion (origin r) (region_length r) u) :: m
      else (k, r) :: region_set_used m name u
  end.

(** The parts of a section, and one empty part if it has none. *)
Definition section_parts (section_id : Z) : list (Z * Z) :=
  let range := section_range section_id in
  match in_range sizes range.1 range.2 with
  | [] => [(range.1, 0)]
  | parts => parts
  end.

(** *** State updates *)
Definition set_offsets (s : LayoutState) (file mem lma : Z) : LayoutState :=
  mkState file mem lma (pending_location s) (resolved_lc s) (tls_memsave s) (nonalloc_mem_offsets s)
    (reloc_alloc_mem_offsets s) (section_layouts s) (records_out s) (laid_out_mem_offsets s)
    (memory_regions s).

Definition set_location (s : LayoutState) (pending : option Z) (lc : list ResolvedLocationCounter) :
    LayoutState :=
  mkState (st_file s) (st_mem s) (st_lma s) pending lc (tls_memsave s) (nonalloc_mem_offsets s)
    (reloc_alloc_mem_offsets s) (section_layouts s) (records_out s) (laid_out_mem_offsets s)
    (memory_regions s).

Definition set_unplaced (s : LayoutState) (nonalloc reloc_alloc : list Z) : LayoutState :=
  mkState (st_file s) (st_mem s) (st_lma s) (pending_location s) (resolved_lc s) (tls_memsave s)
    nonalloc reloc_alloc (section_layouts s) (records_out s) (laid_out_mem_offsets s)
    (memory_regions s).

Definition set_tls (s : LayoutState) (mem : Z) (memsave : option Z) : LayoutState :=
  mkState (st_file s) mem (st_lma s) (pending_location s) (resolved_lc s) memsave
    (nonalloc_mem_offsets s) (reloc_alloc_mem_offsets s) (section_layouts s) (records_out s)
    (laid_out_mem_offsets s) (memory_regions s).

Definition set_layouts (s : LayoutState) (layouts : list OutputRecordLayout)
    (records : PartMap OutputRecordLayout) (laid_out : PartMap (option Z)) : LayoutState :=
  mkState (st_file s) (st_mem s) (st_lma s) (pending_location s) (resolved_lc s) (tls_memsave s)
    (nonalloc_mem_offsets s) (reloc_alloc_mem_offsets s) layouts records laid_out (memory_regions s).

Definition set_regions (s : LayoutState) (regions : list (list Z * MemoryRegion)) : LayoutState :=
  mkState (st_file s) (st_mem s) (st_lma s) (pending_location s) (resolved_lc s) (tls_memsave s)
    (nonalloc_mem_offsets s) (reloc_alloc_mem_offsets s) (section_layouts s) (records_out s)
    (laid_out_mem_offsets s) regions.

(** *** One part *)

(** The record of a part and the offsets after it. *)
Definition place_part (alloc has_data_in_file : bool) (part_id : Z) (a : Alignment) (size : Z)
    (s : LayoutState) : res (OutputRecordLayout * LayoutState) :=
  let file := if has_data_in_file then align_up a (st_file s) else st_file s in
  let section_id := output_section_id NUM_SINGLE_PART_SECTIONS part_id in
  if alloc then
    let fsize := if has_data_in_file then size else 0 in
    if should_output_partial_object args then
      offset ← index (reloc_alloc_mem_offsets s) section_id;
      let mem := align_up a offset in
      reloc ← index_update (reloc_alloc_mem_offsets s) section_id (fun _ => wadd 64 mem size);
      Ok (mkRecord fsize size a file mem mem,
          set_unplaced (set_offsets s (wadd 64 file fsize) (st_mem s) (st_lma s))
            (nonalloc_mem_offsets s) reloc)
    else
      let mem := align_up a (st_mem s) in
      let lma := align_up a (st_lma s) in
      Ok (mkRecord fsize size a file mem lma,
          set_offsets s (wadd 64 file fsize) (wadd 64 mem size) (wadd 64 lma size))
  else
    offset ← index (nonalloc_mem_offsets s) section_id;
    let mem := align_up a offset in
    nonalloc ← index_update (nonalloc_mem_offsets s) section_id (fun o => wadd 64 o size);
    Ok (mkRecord size size a file mem mem,
        set_unplaced (set_offsets s (wadd 64 file size) (st_mem s) (st_lma s))
          nonalloc (reloc_alloc_mem_offsets s)).

Definition layout_section_from_part_layouts (part section_layout : OutputRecordLayout)
    (info : SectionOutputInfo) (is_first_part : bool) : OutputRecordLayout :=
  if is_first_part then
    mkRecord (file_size part) (mem_size part)
      (if 0 <? mem_size part then alignment_max (min_alignment info) (rec_alignment part)
       else min_alignment info)
      (file_offset part) (mem_offset part) (lma_offset part)
  else
    let file := Z.min (file_offset section_layout) (file_offset part) in
    let mem := Z.min (mem_offset section_layout) (mem_offset part) in
    let lma := Z.min (lma_offset section_layout) (lma_offset part) in
    mkRecord (wsub 64 (Z.max (file_end section_layout) (file_end part)) file)
      (wsub 64 (Z.max (mem_end section_layout) (mem_end part)) mem)
      (if 0 <? mem_size part then alignment_max (rec_alignment section_layout) (rec_alignment part)
       else rec_alignment section_layout)
      file mem lma.

Definition with_lma (r : OutputRecordLayout) (lma : Z) : OutputRecordLayout :=
  mkRecord (file_size r) (mem_size r) (rec_alignment r) (file_offset r) (mem_offset r) lma.

(** The body of the loop over the parts of a section. *)
Definition layout_part (section_id : Z) (info : SectionOutputInfo) (alloc has_data_in_file : bool)
    (max_alignment : Alignment) (is_first_part : bool) (part_id part_size : Z) (s : LayoutState) :
    res LayoutState :=
  let a := if is_first_part then max_alignment else alignment_min (part_alignment part_id) max_alignment in
  let size :=
    if bool_decide (Some section_id = RELRO_PADDING_SECTION_ID) then
      wsub 64 (align_up (loadable_segment_alignment args) (st_mem s)) (st_mem s)
    else part_size in
  '(record, s) ← place_part alloc has_data_in_file part_id a size s;
  layouts ← index_update (section_layouts s) section_id
              (fun l => layout_section_from_part_layouts record l info is_first_part);
  let s := set_layouts s layouts
             (part_update default_record (records_out s) part_id (fun _ => record))
             (part_update None (laid_out_mem_offsets s) part_id (fun _ => Some (mem_offset record))) in
  match location_info info ≫= at_location with
  | None => Ok s
  | Some expr =>
      lma ← expression_eval expr NoLoc s;
      layouts ← index_update (section_layouts s) section_id (fun l => with_lma l lma);
      Ok (set_layouts (set_offsets s (st_file s) (st_mem s) lma) layouts
            (part_update default_record (records_out s) part_id (fun r => with_lma r lma))
            (laid_out_mem_offsets s))
  end.

Fixpoint layout_parts (section_id : Z) (info : SectionOutputInfo) (alloc has_data_in_file : bool)
    (max_alignment : Alignment) (is_first_part : bool) (parts : list (Z * Z)) (s : LayoutState) :
    res LayoutState :=
  match parts with
  | [] => Ok s
  | (part_id, part_size) :: parts =>
      s ← layout_part section_id info alloc has_data_in_file max_alignment is_first_part
            part_id part_size s;
      layout_parts section_id info alloc has_data_in_file max_alignment false parts s
  end.

(** *** One section *)

(** Entering and leaving the sections that only take TLS address space. *)
Definition tls_overlap (info : SectionOutputInfo) (s : LayoutState) : LayoutState :=
  if occupies_only_tls_address_space info then
    match tls_memsave s with
    | None => set_tls s (st_mem s) (Some (st_mem s))
    | Some _ => s
    end
  else
    match tls_memsave s with
    | Some saved => set_tls s saved None
    | None => s
    end.

(** The memory region of the section, and an assigned location. *)
Definition find_region (info : SectionOutputInfo) (s : LayoutState) : res (option MemoryRegion) :=
  match region_name info with
  | None => Ok None
  | Some name =>
      match region_get (memory_regions s) name with
      | Some region => Ok (Some region)
      | None => Err "Memory region '{}' not declared"
      end
  end.

Definition start_section (section_id : Z) (info primary : SectionOutputInfo) (is_primary : bool)
    (location : option Z) (s : LayoutState) : res LayoutState :=
  region ← find_region info s;
  let mem := match region with Some r => wadd 64 (origin r) (used r) | None => st_mem s end in
  match location with
  | None => Ok (set_offsets s (st_file s) mem mem)
  | Some offset =>
      _ ← (match region with
           | Some r =>
               ensure (negb ((offset <? mem) || (wadd 64 mem (region_length r) <? offset)))
                 "address 0x{offset:x} of section '{}' is not within region `{}`"
           | None => Ok tt
           end);
      let is_top_level := match location_info info with Some i => is_top_level i | None => false end in
      file ← (if (is_primary || negb is_top_level) && is_alloc primary && negb (is_no_bits primary) then
                if offset <? mem then
                  Err "Cannot move location counter backwards (from 0x{mem_offset:x} to 0x{offset:x})"
                else Ok (wadd 64 (st_file s) (offset - mem))
              else Ok (st_file s));
      Ok (set_offsets s file offset offset)
  end.

Definition finish_region (info : SectionOutputInfo) (s : LayoutState) : res LayoutState :=
  match region_name info with
  | None => Ok s
  | Some name =>
      match region_get (memory_regions s) name with
      | None => Ok s
      | Some region =>
          if wadd 64 (origin region) (region_length region) <? st_mem s then
            Err "region '{}' overflowed by {} bytes"
          else Ok (set_regions s (region_set_used (memory_regions s) name (wsub 64 (st_mem s) (origin region))))
      end
  end.

Definition layout_section (section_id : Z) (s : LayoutState) : res LayoutState :=
  info ← output_info section_id;
  let location := pending_location s in
  let s := tls_overlap info (set_location s None (resolved_lc s)) in
  primary_id ← primary_output_section section_id;
  primary ← output_info primary_id;
  s ← start_section section_id info primary (section_id =? primary_id) location s;
  s ← layout_parts section_id info (is_alloc primary) (negb (is_no_bits primary))
        (section_max_alignment section_id) true (section_parts section_id) s;
  finish_region info s.

(** *** All events *)
Fixpoint assoc_get {A} (m : list (Z * A)) (k : Z) : option A :=
  match m with
  | [] => None
  | (k', x) :: m => if k =? k' then Some x else assoc_get m k
  end.

Definition start_segment (segment_alignments : list (Z * Alignment)) (segment_id : Z) (s : LayoutState) :
    res LayoutState :=
  def ← index program_segments segment_id;
  if is_loadable def then
    let a := default (loadable_segment_alignment args) (assoc_get segment_alignments segment_id) in
    match pending_location s with
    | Some addr => Ok (set_offsets s (align_modulo a addr (st_file s)) addr addr)
    | None =>
        let '(file, mem) := align_load_segment_start a (st_file s) (st_mem s) in
        let '(file, lma) := align_load_segment_start a file (st_lma s) in
        Ok (set_offsets s file mem lma)
    end
  else Ok s.

Definition layout_event (segment_alignments : list (Z * Alignment)) (event : OrderEvent) (s : LayoutState) :
    res LayoutState :=
  match event with
  | SetLocation expr loc idx =>
      '(lc, loc) ← (match loc with
                    | SectionEnd _ =>
                        lc ← index_update (resolved_lc s) idx (fun _ => mkLocationCounter (st_mem s) None);
                        Ok (lc, LocationCounter idx None)
                    | _ => Ok (resolved_lc s, loc)
                    end);
      let s := set_location s (pending_location s) lc in
      value ← expression_eval expr loc s;
      lc ← index_update lc idx (fun _ => mkLocationCounter value None);
      Ok (set_location s (Some value) lc)
  | SetLocationRelative expr section_id loc idx =>
      primary_id ← primary_output_section section_id;
      base ← index (section_layouts s) primary_id;
      value ← expression_eval expr loc s;
      let offset := wsub 64 value (mem_offset base) in
      lc ← index_update (resolved_lc s) idx (fun _ => mkLocationCounter value (Some offset));
      Ok (set_location s (Some value) lc)
  | SetSectionAddress expr =>
      value ← expression_eval expr NoLoc s;
      Ok (set_location s (Some value) (resolved_lc s))
  | SegmentStart segment_id => start_segment segment_alignments segment_id s
  | SegmentEnd _ => Ok s
  | Section_ section_id => layout_section section_id s
  end.

Fixpoint layout_events (segment_alignments : list (Z * Alignment)) (events : list OrderEvent)
    (s : LayoutState) : res LayoutState :=
  match events with
  | [] => Ok s
  | e :: events =>
      s ← layout_event segment_alignments e s;
      layout_events segment_alignments events s
  end.

(** *** The alignment of segments *)
Fixpoint compute_segment_alignments (events : list OrderEvent) (active : list Z)
    (alignments : list (Z * Alignment)) : res (list (Z * Alignment)) :=
  match events with
  | [] => Ok alignments
  | SegmentStart segment_id :: events =>
      def ← index program_segments segment_id;
      if is_loadable def then
        compute_segment_alignments events (active ++ [segment_id])
          (match assoc_get alignments segment_id with
           | Some _ => alignments
           | None => (segment_id, loadable_segment_alignment args) :: alignments
           end)
      else compute_segment_alignments events active alignments
  | SegmentEnd segment_id :: events =>
      compute_segment_alignments events (List.filter (fun id => negb (id =? segment_id)) active) alignments
  | Section_ section_id :: events =>
      let max := section_max_alignment section_id in
      compute_segment_alignments events active
        (map (fun e => (e.1, if existsb (Z.eqb e.1) active then alignment_max e.2 max else e.2)) alignments)
  | _ :: events => compute_segment_alignments events active alignments
  end.

(** [compute_layout_sections]: the state it starts from, and its result. *)
Definition initial_state (num_sections num_location_counters : nat) (mem : Z)
    (regions : list (list Z * MemoryRegion)) : LayoutState :=
  mkState 0 mem mem None
    (match num_location_counters with
     | O => []
     | S n => mkLocationCounter mem None :: replicate n (mkLocationCounter 0 None)
     end)
    None (replicate num_sections 0) (replicate num_sections 0) (replicate num_sections default_record)
    (mkPartMap (map (fun _ => default_record) (parts sizes)) None)
    (mkPartMap (map (fun _ => None) (parts sizes)) None) regions.

Definition compute_layout_sections (base_address : Expression) (num_location_counters : nat)
    (regions : list (list Z * MemoryRegion)) (output_order : list OrderEvent) :
    res (PartMap OutputRecordLayout * list OutputRecordLayout * list ResolvedLocationCounter) :=
  segment_alignments ← compute_segment_alignments output_order [] [];
  mem ← expression_eval base_address NoLoc
          (initial_state (length output_sections) 0 0 regions);
  s ← layout_events segment_alignments output_order
        (initial_state (length output_sections) num_location_counters mem regions);
  Ok (records_out s, section_layouts s, resolved_lc s).

(** ** Specification *)

(** The inputs the layout relies on: alignments are powers of two up to 2^21,
    sizes do not wrap, evaluated expressions are addresses. *)
Definition sections_wf : Prop :=
  valid (loadable_segment_alignment args) /\ Forall (fun info => valid (min_alignment info)) output_sections.

Definition sizes_wf (n : nat) : Prop :=
  part_map_wf n sizes /\ forall p, 0 <= p -> 0 <= part_get 0 sizes p.

Definition evaluates_to_addresses : Prop :=
  forall e l s v, expression_eval e l s = Ok v -> 0 <= v < 2 ^ 48.

(** How far an event can move the offsets. *)
Definition part_cost (size : Z) : Z := size + 2 ^ 22.

Definition parts_cost (parts : list (Z * Z)) : Z :=
  foldr (fun e acc => part_cost e.2 + acc) 0 parts.

Definition event_cost (e : OrderEvent) : Z :=
  match e with
  | SegmentStart _ => 2 ^ 24
  | Section_ s => 2 ^ 48 + parts_cost (section_parts s)
  | _ => 0
  end.

Definition events_cost (events : list OrderEvent) : Z :=
  foldr (fun e acc => event_cost e + acc) 0 events.

(** Two ranges have no byte in common. *)
Definition disjoint_ranges (a alen b blen : Z) : Prop :=
  forall x, a <= x < a + alen -> b <= x < b + blen -> False.

(** The recorded ranges of the selected parts end by [limit] and are apart. *)
Definition ranges (start size : OutputRecordLayout -> Z) (sel : Z -> Prop) (limit : Z)
    (records : PartMap OutputRecordLayout) : Prop :=
  (forall p, 0 <= p -> sel p ->
     let r := part_get default_record records p in 0 <= size r /\ start r + size r <= limit) /\
  (forall p q, 0 <= p -> 0 <= q -> p <> q -> sel p -> sel q ->
     let r := part_get default_record records p in
     let r' := part_get default_record records q in
     start r + size r <= start r' \/ start r' + size r' <= start r \/ size r = 0 \/ size r' = 0).

(** ** Lemmas *)
Lemma ranges_update n start size sel limit limit' records p r :
  part_map_wf n records -> 0 <= p -> ranges start size sel limit records ->
  limit <= limit' ->
  (sel p -> limit <= start r /\ 0 <= size r /\ start r + size r <= limit') ->
  ranges start size sel limit' (part_update default_record records p (fun _ => r)).
Proof.
  intros Hwf Hp [H1 H2] Hle Hr. split.
  - intros q Hq Hs. cbv zeta. rewrite (part_get_update default_record n) by done.
    destruct (Z.eqb_spec q p) as [->|Hne]; [by apply Hr|]. destruct (H1 q Hq Hs). lia.
  - intros a b Ha Hb Hab Hsa Hsb. cbv zeta. rewrite !(part_get_update default_record n) by done.
    pose proof (H1 a Ha Hsa) as Ra. pose proof (H1 b Hb Hsb) as Rb. cbv zeta in Ra, Rb.
    destruct (Z.eqb_spec a p) as [->|Hna], (Z.eqb_spec b p) as [->|Hnb]; [done|..].
    + destruct (Hr Hsa). lia.
    + destruct (Hr Hsb). lia.
    + by apply H2.
Qed.

Lemma ranges_weaken start size sel a b records :
  a <= b -> ranges start size sel a records -> ranges start size sel b records.
Proof. intros Hab [H1 H2]. split; [|done]. intros p Hp Hs. destruct (H1 p Hp Hs). cbv zeta. lia. Qed.

Lemma part_alignment_valid p : sections_wf -> valid (part_alignment p).
Proof.
  intros [_ Hs]. unfold part_alignment, alignment. destruct (_ <=? _).
  - change NUM_ALIGNMENTS with 22. unfold valid, MAX_ALIGNMENT_EXPONENT. cbn [exponent].
    pose proof (Z.mod_pos_bound (p - NUM_SINGLE_PART_SECTIONS) 22). lia.
  - unfold section_min_alignment, output_info, index.
    case_decide; [|by split]. destruct (output_sections !! _) as [info|] eqn:E; [|by split].
    by apply (proj1 (Forall_lookup _ _) Hs _ _ E).
Qed.

Lemma section_min_alignment_valid s : sections_wf -> valid (section_min_alignment s).
Proof.
  intros [_ Hs]. unfold section_min_alignment, output_info, index.
  case_decide; [|by split]. destruct (output_sections !! _) as [info|] eqn:E; [|by split].
  by apply (proj1 (Forall_lookup _ _) Hs _ _ E).
Qed.

Lemma section_max_alignment_valid s : sections_wf -> valid (section_max_alignment s).
Proof.
  intros Hs. unfold section_max_alignment, max_alignment. apply max_valid.
  - destruct (List.find _ _) as [[p x]|]; [by apply part_alignment_valid|by split].
  - by apply section_min_alignment_valid.
Qed.

(** The padding of RELRO is less than a page, whatever the address. *)
Lemma relro_padding_bound mem :
  sections_wf -> 0 <= mem ->
  0 <= wsub 64 (align_up (loadable_segment_alignment args) mem) mem < 2 ^ 21.
Proof.
  intros [Hv _] Hm. pose proof (valid_pow _ Hv) as [Hp Hp'].
  unfold align_up, next_multiple_of. rewrite value_pow by done.
  set (k := 2 ^ exponent (loadable_segment_alignment args)) in *. clearbody k.
  pose proof (Z.mod_pos_bound mem k Hp). destruct (Z.eqb_spec (mem mod k) 0).
  - unfold wsub. rewrite Z.sub_diag. by vm_compute.
  - unfold wsub, wadd, wrap. rewrite Zminus_mod_idemp_l.
    replace (mem + (k - mem mod k) - mem) with (k - mem mod k) by lia.
    rewrite Z.mod_small by lia. lia.
Qed.

Lemma align_up_moves a v limit :
  valid a -> 0 <= v <= limit -> limit + 2 ^ 22 <= 2 ^ 64 ->
  v <= align_up a v <= v + 2 ^ 21.
Proof.
  intros Ha Hv Hl. pose proof (valid_pow a Ha). pose proof (align_up_bounds a v Ha). lia.
Qed.

(** *** Files: what holds between events *)
Definition file_inv (n : nat) (limit : Z) (s : LayoutState) : Prop :=
  part_map_wf n (records_out s) /\ 0 <= st_file s <= limit /\ 0 <= st_mem s /\
  (forall v, pending_location s = Some v -> 0 <= v < 2 ^ 48) /\
  (forall m, tls_memsave s = Some m -> 0 <= m) /\
  ranges file_offset file_size (fun _ => True) (st_file s) (records_out s).

Lemma place_part_file alloc has_data p a size s r s' limit :
  place_part alloc has_data p a size s = Ok (r, s') ->
  valid a -> 0 <= size -> 0 <= st_file s <= limit -> 0 <= st_mem s -> limit + size + 2 ^ 22 <= 2 ^ 64 ->
  st_file s <= file_offset r /\ 0 <= file_size r /\ file_offset r + file_size r = st_file s' /\
  st_file s' <= st_file s + size + 2 ^ 21 /\ 0 <= st_mem s' /\
  pending_location s' = pending_location s /\ tls_memsave s' = tls_memsave s /\
  records_out s' = records_out s.
Proof.
  intros Hp Ha Hsize Hf Hm Hl. unfold place_part in Hp.
  pose proof (align_up_moves a (st_file s) limit Ha Hf ltac:(lia)) as Hup.
  set (file := if has_data then align_up a (st_file s) else st_file s) in *.
  assert (st_file s <= file <= st_file s + 2 ^ 21) as Hfile by (subst file; destruct has_data; lia).
  clearbody file. clear Hup.
  assert (forall k, 0 <= k <= size -> wadd 64 file k = file + k) as Hadd
    by (intros k Hk; apply wrap_small; unfold in_u; lia).
  destruct alloc; [destruct (should_output_partial_object args)|].
  - destruct (index _ _); cbn [mbind res_bind] in Hp; try done.
    destruct (index_update _ _ _); cbn [mbind res_bind] in Hp; try done. injection Hp as <- <-.
    cbn. rewrite Hadd by (destruct has_data; lia). destruct has_data; repeat split; lia.
  - injection Hp as <- <-. cbn. rewrite Hadd by (destruct has_data; lia).
    pose proof (wrap_range 64 (align_up a (st_mem s) + size) ltac:(lia)) as [? _].
    destruct has_data; repeat split; done || lia.
  - destruct (index _ _); cbn [mbind res_bind] in Hp; try done.
    destruct (index_update _ _ _); cbn [mbind res_bind] in Hp; try done. injection Hp as <- <-.
    cbn. rewrite Hadd by lia. repeat split; lia.
Qed.

Definition part_bytes (section_id part_size : Z) (s : LayoutState) : Z :=
  if bool_decide (Some section_id = RELRO_PADDING_SECTION_ID) then
    wsub 64 (align_up (loadable_segment_alignment args) (st_mem s)) (st_mem s)
  else part_size.

Lemma part_bytes_bound section_id part_size s :
  sections_wf -> 0 <= st_mem s -> 0 <= part_size ->
  0 <= part_bytes section_id part_size s <= part_size + 2 ^ 21.
Proof.
  intros Hwf Hm Hp. unfold part_bytes. case_bool_decide; [|lia].
  pose proof (relro_padding_bound _ Hwf Hm). lia.
Qed.

(** What [layout_part] does apart from the tables: it places the part, records
    it, and an AT expression may then change load addresses. *)
Lemma layout_part_inv section_id info alloc has_data max first p psize s s' :
  layout_part section_id info alloc has_data max first p psize s = Ok s' ->
  exists r s1 f,
    place_part alloc has_data p (if first then max else alignment_min (part_alignment p) max)
      (part_bytes section_id psize s) s = Ok (r, s1) /\
    records_out s' = part_update default_record (records_out s1) p (fun _ => f r) /\
    (forall x, file_offset (f x) = file_offset x /\ file_size (f x) = file_size x /\
               mem_offset (f x) = mem_offset x /\ mem_size (f x) = mem_size x /\
               rec_alignment (f x) = rec_alignment x) /\
    st_file s' = st_file s1 /\ st_mem s' = st_mem s1 /\
    pending_location s' = pending_location s1 /\ tls_memsave s' = tls_memsave s1 /\
    memory_regions s' = memory_regions s1.
Proof.
  unfold layout_part. fold (part_bytes section_id psize s).
  destruct (place_part _ _ _ _ _ _) as [[r s1]| |] eqn:E; cbn [mbind res_bind]; try done.
  destruct (index_update _ _ _) as [layouts| |]; cbn [mbind res_bind]; try done.
  destruct (location_info info ≫= at_location) as [e|].
  - destruct (expression_eval _ _ _) as [lma| |]; cbn [mbind res_bind]; try done.
    destruct (index_update _ _ _) as [layouts'| |]; cbn [mbind res_bind]; try done.
    intros [= <-]. exists r, s1, (fun r => with_lma r lma). cbn. by rewrite part_update_twice.
  - intros [= <-]. by exists r, s1, (fun r => r).
Qed.

Lemma layout_part_file n limit section_id info alloc has_data max first p psize s s' :
  sections_wf -> valid max -> file_inv n limit s -> 0 <= p -> 0 <= psize ->
  limit + part_cost psize + 2 ^ 22 <= 2 ^ 64 ->
  layout_part section_id info alloc has_data max first p psize s = Ok s' ->
  file_inv n (limit + part_cost psize) s' /\ pending_location s' = pending_location s.
Proof.
  intros Hwf Hmax (Hrw & Hf & Hm & Hpend & Htls & Hr) Hp Hps Hl Hlay. unfold part_cost in *.
  apply layout_part_inv in Hlay as (r & s1 & f & Hplace & Hrec & Hsame & Hf' & Hm' & Hpend' & Htls' & _).
  pose proof (part_bytes_bound section_id psize s Hwf Hm Hps) as Hb.
  assert (valid (if first then max else alignment_min (part_alignment p) max)) as Ha
    by (destruct first; [done|apply min_valid; [by apply part_alignment_valid|done]]).
  pose proof (place_part_file _ _ _ _ _ _ _ _ limit Hplace Ha ltac:(lia) Hf Hm ltac:(lia))
    as (H1 & H2 & H3 & H4 & H5 & H6 & H7 & H8).
  split; [|by rewrite Hpend']. unfold file_inv. rewrite Hf', Hm', Hpend', Htls', H6, H7, Hrec, H8.
  split; [by apply part_update_wf|]. split; [lia|]. split; [done|]. split; [done|]. split; [done|].
  destruct (Hsame r) as (Hs1 & Hs2 & _).
  apply (ranges_update n _ _ _ (st_file s)); [done|done|done|lia|]. rewrite Hs1, Hs2. lia.
Qed.

Lemma layout_parts_file n section_id info alloc has_data max parts : forall limit first s s',
  sections_wf -> valid max -> file_inv n limit s ->
  Forall (fun e => 0 <= e.1 /\ 0 <= e.2) parts -> limit + parts_cost parts + 2 ^ 22 <= 2 ^ 64 ->
  layout_parts section_id info alloc has_data max first parts s = Ok s' ->
  file_inv n (limit + parts_cost parts) s'.
Proof.
  induction parts as [|[p size] parts IH]; intros limit first s s' Hwf Hmax Hinv Hps Hl; cbn [layout_parts].
  - intros [= <-]. cbn. by rewrite Z.add_0_r.
  - apply Forall_cons_1 in Hps as [[Hp Hsize] Hps]. cbn [fst snd] in *.
    assert (0 <= parts_cost parts) as Hc.
    { clear -Hps. induction Hps as [|[q z] l [? ?] _ IH]; cbn [parts_cost foldr]; [done|].
      fold (parts_cost l). unfold part_cost. cbn [fst snd] in *. lia. }
    cbn [parts_cost foldr] in Hl |- *. fold (parts_cost parts) in Hl |- *. cbn [snd] in Hl |- *.
    destruct (layout_part _ _ _ _ _ _ _ _ _) as [s1| |] eqn:E; cbn [mbind res_bind]; try done.
    destruct (layout_part_file n limit section_id info alloc has_data max first p size s s1)
      as [Hinv1 _]; try done; [lia|].
    intros Hrest. apply IH with (limit := limit + part_cost size) in Hrest; [|done..|lia].
    by rewrite Z.add_assoc.
Qed.

Lemma section_parts_wf n section_id :
  sizes_wf n -> 0 <= section_id ->
  Forall (fun e => 0 <= e.1 /\ 0 <= e.2) (section_parts section_id).
Proof.
  intros [Hwf Hs] Hid. unfold section_parts.
  assert (0 <= (section_range section_id).1) as Hlo.
  { unfold section_range, part_id_range, base_part_id. cbn [fst].
    destruct (_ <? _); [done|]. unfold wadd. apply wrap_range. lia. }
  destruct (in_range sizes _ _) as [|e l] eqn:E; [apply Forall_singleton; split; [exact Hlo|done]|].
  rewrite <- E. apply Forall_lookup. intros i [p x] Hin%list_elem_of_lookup_2. cbn [fst snd].
  pose proof (in_range_bound _ _ _ _ _ Hlo Hin). split; [lia|].
  rewrite <- (in_range_get 0 n sizes _ _ p x Hwf Hlo Hin). apply Hs. lia.
Qed.

Lemma parts_cost_nonneg parts : Forall (fun e => 0 <= e.1 /\ 0 <= e.2) parts -> 0 <= parts_cost parts.
Proof.
  induction 1 as [|[p x] l [? ?] _ IH]; [done|]. cbn [parts_cost foldr]. fold (parts_cost l).
  unfold part_cost. cbn [fst snd] in *. lia.
Qed.

Lemma file_inv_weaken n a b s : a <= b -> file_inv n a s -> file_inv n b s.
Proof. intros Hab (? & ? & ? & ? & ? & ?). unfold file_inv. split_and!; try done; lia. Qed.

Lemma index_nonneg {A} (l : list A) i x : index l i = Ok x -> 0 <= i.
Proof. intros Hi. by apply index_ok in Hi as [? _]. Qed.

Lemma tls_overlap_file n limit info s :
  file_inv n limit s -> file_inv n limit (tls_overlap info s).
Proof.
  intros (H1 & H2 & H3 & H4 & H5 & H6). unfold tls_overlap.
  destruct (occupies_only_tls_address_space info), (tls_memsave s) as [m|] eqn:E; unfold file_inv; cbn;
    split_and!; try done; try lia.
  - by rewrite E.
  - intros ? [= <-]. done.
  - by apply H5.
  - by rewrite E.
Qed.

Lemma start_section_file n limit section_id info primary is_primary location s s' :
  file_inv n limit s -> (forall v, location = Some v -> 0 <= v < 2 ^ 48) ->
  limit + 2 ^ 48 <= 2 ^ 63 ->
  start_section section_id info primary is_primary location s = Ok s' ->
  file_inv n (limit + 2 ^ 48) s'.
Proof.
  intros (H1 & H2 & H3 & H4 & H5 & H6) Hloc Hl. unfold start_section.
  destruct (find_region info s) as [region| |]; cbn [mbind res_bind]; try done.
  set (mem := match region with Some r => wadd 64 (origin r) (used r) | None => st_mem s end).
  assert (0 <= mem) as Hmem by (subst mem; destruct region; [apply wrap_range; lia|done]).
  destruct location as [offset|].
  - specialize (Hloc offset eq_refl).
    match goal with |- mbind _ ?m = _ -> _ => destruct m as [[]| |] end; cbn [mbind res_bind]; try done.
    match goal with |- context [if ?b then _ else Ok (st_file s)] => destruct b end.
    + destruct (Z.ltb_spec offset mem); cbn [mbind res_bind]; try done. intros [= <-].
      assert (wadd 64 (st_file s) (offset - mem) = st_file s + (offset - mem)) as Heq
        by (apply wrap_small; unfold in_u; lia).
      unfold file_inv. cbn. rewrite Heq. split_and!; try done; try lia.
      eapply ranges_weaken; [|exact H6]. lia.
    + cbn [mbind res_bind]. intros [= <-]. unfold file_inv. cbn. split_and!; try done; lia.
  - intros [= <-]. unfold file_inv. cbn. split_and!; try done; lia.
Qed.

Lemma finish_region_file n limit info s s' :
  file_inv n limit s -> finish_region info s = Ok s' -> file_inv n limit s'.
Proof.
  intros Hi. unfold finish_region. destruct (region_name info) as [name|]; [|by intros [= <-]].
  destruct (region_get _ _) as [region|]; [|by intros [= <-]].
  destruct (_ <? _); [done|]. by intros [= <-].
Qed.

Lemma layout_section_file n limit section_id s s' :
  sections_wf -> sizes_wf n -> file_inv n limit s ->
  limit + event_cost (Section_ section_id) + 2 ^ 22 <= 2 ^ 63 ->
  layout_section section_id s = Ok s' ->
  file_inv n (limit + event_cost (Section_ section_id)) s'.
Proof.
  intros Hwf Hsz Hi Hl. unfold layout_section.
  destruct (output_info section_id) as [info| |] eqn:Einfo; cbn [mbind res_bind]; try done.
  pose proof (index_nonneg _ _ _ Einfo) as Hid.
  destruct (primary_output_section section_id) as [pid| |]; cbn [mbind res_bind]; try done.
  destruct (output_info pid) as [primary| |]; cbn [mbind res_bind]; try done.
  cbn [event_cost] in *. set (parts := section_parts section_id) in *.
  pose proof (section_parts_wf n section_id Hsz Hid) as Hps. fold parts in Hps.
  pose proof (parts_cost_nonneg _ Hps) as Hpc.
  assert (file_inv n limit (set_location s None (resolved_lc s))) as Hi0.
  { destruct Hi as (? & ? & ? & ? & ? & ?). unfold file_inv; cbn; split_and!; done || lia. }
  apply (tls_overlap_file n limit info) in Hi0.
  destruct (start_section _ _ _ _ _ _) as [s1| |] eqn:E1; cbn [mbind res_bind]; try done.
  apply (start_section_file n limit) in E1; [|done|by intros v Hv; apply Hi|lia].
  destruct (layout_parts _ _ _ _ _ _ _ _) as [s2| |] eqn:E2; cbn [mbind res_bind]; try done.
  apply (layout_parts_file n _ _ _ _ _ parts (limit + 2 ^ 48)) in E2;
    [|try done; try lia; by apply section_max_alignment_valid..].
  rewrite Z.add_assoc. by apply finish_region_file.
Qed.

Lemma set_location_file n limit s v lc :
  file_inv n limit s -> 0 <= v < 2 ^ 48 -> file_inv n limit (set_location s (Some v) lc).
Proof. intros (? & ? & ? & ? & ? & ?) Hv. unfold file_inv. cbn. split_and!; try done; try lia; cbn; by intros ? [= <-]. Qed.

(** *** Files: every event *)
Definition alignments_valid (l : list (Z * Alignment)) : Prop := Forall (fun e => valid e.2) l.

Lemma assoc_get_elem {A} (m : list (Z * A)) k x : assoc_get m k = Some x -> (k, x) ∈ m.
Proof.
  induction m as [|[k' y] m IH]; [done|]. cbn. rewrite elem_of_cons.
  destruct (Z.eqb_spec k k') as [->|]; [intros [= ->]; by left|]. right. by apply IH.
Qed.

Lemma alignments_get l k :
  alignments_valid l -> sections_wf -> valid (default (loadable_segment_alignment args) (assoc_get l k)).
Proof.
  intros Hl [Hv _]. destruct (assoc_get l k) as [a|] eqn:E; [|done]. cbn.
  apply assoc_get_elem, list_elem_of_lookup_1 in E as [i E].
  by apply (proj1 (Forall_lookup _ _) Hl _ _ E).
Qed.

Lemma compute_segment_alignments_valid events : forall active l l',
  sections_wf -> alignments_valid l -> compute_segment_alignments events active l = Ok l' ->
  alignments_valid l'.
Proof.
  induction events as [|e events IH]; intros active l l' Hwf Hl; cbn [compute_segment_alignments];
    [by intros [= <-]|]. destruct e; try (by apply IH).
  - destruct (index _ _) as [def| |]; cbn [mbind res_bind]; try done.
    destruct (is_loadable def); [|by apply IH]. apply IH; [done|].
    destruct (assoc_get l segment_id); [done|]. constructor; [by destruct Hwf|done].
  - apply IH; [done|]. apply Forall_lookup. intros i x Hx. rewrite list_lookup_fmap in Hx.
    destruct (l !! i) as [[k a]|] eqn:E; [|done]. cbn in Hx. injection Hx as <-. cbn.
    apply (proj1 (Forall_lookup _ _) Hl) in E. cbn in E.
    destruct (existsb _ _); [|done]. apply max_valid; [done|]. by apply section_max_alignment_valid.
Qed.

Lemma start_segment_file `{!LawfulPlatform P} n limit alignments segment_id s s' :
  sections_wf -> alignments_valid alignments -> file_inv n limit s -> limit + 2 ^ 24 + 2 ^ 22 <= 2 ^ 63 ->
  start_segment alignments segment_id s = Ok s' -> file_inv n (limit + 2 ^ 24) s'.
Proof.
  intros Hwf Hal (H1 & H2 & H3 & H4 & H5 & H6) Hl. unfold start_segment.
  destruct (index _ _) as [def| |]; cbn [mbind res_bind]; try done.
  destruct (is_loadable def).
  2: { intros [= <-]. unfold file_inv. split_and!; done || lia. }
  pose proof (alignments_get alignments segment_id Hal Hwf) as Hv.
  set (a := default _ _) in *. clearbody a. pose proof (valid_pow a Hv) as [Hp Hp'].
  destruct (pending_location s) as [addr|] eqn:E.
  - intros [= <-]. pose proof (H4 _ eq_refl). unfold file_inv. cbn.
    rewrite align_modulo_eq by (done || lia).
    pose proof (align_up_bounds a (st_file s) Hv). pose proof (Z.mod_pos_bound addr _ Hp).
    split_and!; try done; try lia; [by rewrite E|]. eapply ranges_weaken; [|exact H6]. lia.
  - pose proof (segment_start_file a (st_file s) (st_mem s) Hv) as Hf.
    pose proof (segment_start_mem_nonneg a (st_file s) (st_mem s) H3) as Hm.
    destruct (align_load_segment_start a (st_file s) (st_mem s)) as [file mem]. cbn [fst snd] in *.
    pose proof (segment_start_file a file (st_lma s) Hv) as Hf'.
    destruct (align_load_segment_start a file (st_lma s)) as [file' lma]. cbn [fst snd] in *.
    intros [= <-]. unfold file_inv. cbn. split_and!; try done; try lia; [by rewrite E|].
    eapply ranges_weaken; [|exact H6]. lia.
Qed.

Lemma layout_event_file `{!LawfulPlatform P} n limit alignments e s s' :
  sections_wf -> sizes_wf n -> evaluates_to_addresses -> alignments_valid alignments ->
  file_inv n limit s -> limit + event_cost e + 2 ^ 22 <= 2 ^ 63 ->
  layout_event alignments e s = Ok s' -> file_inv n (limit + event_cost e) s'.
Proof.
  intros Hwf Hsz Hev Hal Hi Hl. destruct e; cbn [layout_event event_cost] in *; rewrite ?Z.add_0_r.
  - by apply start_segment_file.
  - by intros [= <-].
  - by apply layout_section_file.
  - match goal with |- mbind _ ?m = _ -> _ => destruct m as [[lc loc']| |] eqn:El end;
      cbn [mbind res_bind]; try done.
    destruct (expression_eval _ _ _) as [v| |] eqn:Ev; cbn [mbind res_bind]; try done.
    destruct (index_update lc idx _); cbn [mbind res_bind]; try done.
    intros [= <-]. apply (set_location_file n limit (set_location s (pending_location s) lc)); [done|].
    by apply Hev in Ev.
  - destruct (primary_output_section _); cbn [mbind res_bind]; try done.
    destruct (index (section_layouts s) _); cbn [mbind res_bind]; try done.
    destruct (expression_eval _ _ _) as [v| |] eqn:Ev; cbn [mbind res_bind]; try done.
    destruct (index_update _ _ _); cbn [mbind res_bind]; try done.
    intros [= <-]. apply (set_location_file n limit s); [done|]. by apply Hev in Ev.
  - destruct (expression_eval _ _ _) as [v| |] eqn:Ev; cbn [mbind res_bind]; try done.
    intros [= <-]. apply (set_location_file n limit s); [done|]. by apply Hev in Ev.
Qed.

Lemma event_cost_nonneg n e :
  sizes_wf n -> (forall s, e = Section_ s -> 0 <= s) -> 0 <= event_cost e.
Proof.
  intros Hs He. destruct e; cbn [event_cost]; try done.
  pose proof (parts_cost_nonneg _ (section_parts_wf n section_id Hs (He _ eq_refl))). lia.
Qed.

Definition events_wf (events : list OrderEvent) : Prop :=
  Forall (fun e => match e with Section_ s => 0 <= s | _ => True end) events.

Lemma events_cost_nonneg n events : sizes_wf n -> events_wf events -> 0 <= events_cost events.
Proof.
  intros Hs He. induction He as [|e events He _ IH]; [done|]. cbn [events_cost foldr].
  fold (events_cost events). enough (0 <= event_cost e) by lia.
  apply (event_cost_nonneg n); [done|]. by intros s ->.
Qed.

Lemma layout_events_file `{!LawfulPlatform P} n alignments events : forall limit s s',
  sections_wf -> sizes_wf n -> evaluates_to_addresses -> alignments_valid alignments -> events_wf events ->
  file_inv n limit s -> limit + events_cost events + 2 ^ 22 <= 2 ^ 63 ->
  layout_events alignments events s = Ok s' -> file_inv n (limit + events_cost events) s'.
Proof.
  induction events as [|e events IH]; intros limit s s' Hwf Hsz Hev Hal Hes Hi Hl; cbn [layout_events].
  - intros [= <-]. cbn. by rewrite Z.add_0_r.
  - apply Forall_cons_1 in Hes as [He Hes]. pose proof (events_cost_nonneg n events Hsz Hes).
    cbn [events_cost foldr] in *. fold (events_cost events) in *.
    destruct (layout_event _ _ _) as [s1| |] eqn:E; cbn [mbind res_bind]; try done.
    apply (layout_event_file n limit) in E; [|done..|lia].
    intros Hrest. apply (IH (limit + event_cost e)) in Hrest; [|done..|lia]. by rewrite Z.add_assoc.
Qed.

(** *** Memory: the offsets stay in bounds where no section is in a region *)
Definition mem_bounded (limit : Z) (s : LayoutState) : Prop :=
  st_mem s <= limit /\ forall m, tls_memsave s = Some m -> m <= limit.

(** The memory offset the next section that takes memory starts from. *)
Definition mem_base (s : LayoutState) : Z := default (st_mem s) (tls_memsave s).

Lemma place_part_mem alloc has_data p a size s r s' limit :
  place_part alloc has_data p a size s = Ok (r, s') ->
  should_output_partial_object args = false ->
  valid a -> 0 <= size -> 0 <= st_mem s <= limit -> limit + size + 2 ^ 22 <= 2 ^ 64 ->
  st_mem s <= st_mem s' <= st_mem s + size + 2 ^ 21 /\
  (if alloc then mem_offset r = align_up a (st_mem s) /\ mem_size r = size /\
                 st_mem s' = mem_offset r + mem_size r
   else st_mem s' = st_mem s) /\
  (alloc && has_data = true -> file_offset r = align_up a (st_file s) /\ file_size r = mem_size r).
Proof.
  intros Hp Hpart Ha Hsize Hm Hl. unfold place_part in Hp. rewrite Hpart in Hp.
  pose proof (align_up_moves a (st_mem s) limit Ha Hm ltac:(lia)) as Hup.
  destruct alloc; cbn [andb].
  - injection Hp as <- <-. cbn.
    assert (wadd 64 (align_up a (st_mem s)) size = align_up a (st_mem s) + size) as ->
      by (apply wrap_small; unfold in_u; lia).
    split; [lia|]. split; [done|]. by intros ->.
  - destruct (index _ _); cbn [mbind res_bind] in Hp; try done.
    destruct (index_update _ _ _); cbn [mbind res_bind] in Hp; try done. injection Hp as <- <-.
    cbn. split; [lia|]. done.
Qed.

(** One part, where its effect on both offsets is known. *)
Lemma layout_part_step n limit section_id info alloc has_data max first p psize s s' :
  sections_wf -> should_output_partial_object args = false -> valid max ->
  file_inv n limit s -> mem_bounded limit s -> 0 <= psize -> limit + part_cost psize + 2 ^ 22 <= 2 ^ 64 ->
  layout_part section_id info alloc has_data max first p psize s = Ok s' ->
  exists r a, valid a /\ exponent a <= exponent max /\
    records_out s' = part_update default_record (records_out s) p (fun _ => r) /\
    tls_memsave s' = tls_memsave s /\ mem_bounded (limit + part_cost psize) s' /\
    (if alloc then mem_offset r = align_up a (st_mem s) /\ 0 <= mem_size r /\
                   st_mem s' = mem_offset r + mem_size r
     else st_mem s' = st_mem s) /\
    (alloc && has_data = true ->
       file_offset r = align_up a (st_file s) /\ st_file s' = file_offset r + mem_size r).
Proof.
  intros Hwf Hpart Hmax (Hrw & Hf & Hm & _ & Htls & _) [Hml Hmt] Hps Hl Hlay. unfold part_cost in *.
  apply layout_part_inv in Hlay as (r & s1 & f & Hplace & Hrec & Hsame & Hf' & Hm' & _ & Htls' & _).
  pose proof (part_bytes_bound section_id psize s Hwf Hm Hps) as Hb.
  set (a := if first then max else alignment_min (part_alignment p) max) in *.
  assert (valid a /\ exponent a <= exponent max) as [Ha Hae].
  { subst a. destruct first; [done|]. split; [apply min_valid; [by apply part_alignment_valid|done]|].
    apply min_le_r. }
  destruct (place_part_file _ _ _ _ _ _ _ _ limit Hplace Ha ltac:(lia) Hf Hm ltac:(lia))
    as (_ & _ & Hend & _ & _ & _ & Htls1 & Hrec1).
  destruct (place_part_mem _ _ _ _ _ _ _ _ limit Hplace Hpart Ha ltac:(lia) ltac:(lia) ltac:(lia))
    as (Hmv & Halloc & Hdata).
  destruct (Hsame r) as (S1 & S2 & S3 & S4 & S5).
  exists (f r), a. rewrite Hrec, Hrec1, Htls', Htls1, S1, S3, S4, Hm', Hf'. unfold mem_bounded. rewrite Hm', Htls', Htls1.
  split; [done|]. split; [done|]. split; [done|]. split; [done|].
  split; [split; [lia|]; intros m Hme; apply Hmt in Hme; lia|].
  split; [destruct alloc; [destruct Halloc as (E1 & E2 & E3)|]; rewrite ?E1, ?E2 in *; lia|].
  intros Hd. apply Hdata in Hd as [E1 E2]. lia.
Qed.

Lemma Forall_sub {A} (Q : A -> Prop) l all : Forall Q all -> l ⊆ all -> Forall Q l.
Proof.
  intros Hall Hsub. apply Forall_lookup. intros i x Hx%list_elem_of_lookup_2%Hsub.
  apply list_elem_of_lookup_1 in Hx as [j Hj]. by apply (proj1 (Forall_lookup _ _) Hall _ _ Hj).
Qed.

(** Rule induction over the parts of a section. *)
Lemma layout_parts_ind (I : Z -> LayoutState -> Prop) section_id info alloc has_data max (all : list (Z * Z)) :
  (forall limit first p psize s s',
     (p, psize) ∈ all -> I limit s -> limit + part_cost psize + 2 ^ 22 <= 2 ^ 63 ->
     layout_part section_id info alloc has_data max first p psize s = Ok s' ->
     I (limit + part_cost psize) s') ->
  Forall (fun e => 0 <= e.1 /\ 0 <= e.2) all ->
  forall parts limit first s s', parts ⊆ all -> I limit s -> limit + parts_cost parts + 2 ^ 22 <= 2 ^ 63 ->
  layout_parts section_id info alloc has_data max first parts s = Ok s' ->
  I (limit + parts_cost parts) s'.
Proof.
  intros Hstep Hall. induction parts as [|[p size] parts IH]; intros limit first s s' Hsub HI Hl; cbn [layout_parts].
  - intros [= <-]. cbn. by rewrite Z.add_0_r.
  - assert (parts ⊆ all) as Hsub' by (intros x Hx; apply Hsub; by right).
    pose proof (parts_cost_nonneg parts (Forall_sub _ _ _ Hall Hsub')).
    cbn [parts_cost foldr] in Hl |- *. fold (parts_cost parts) in Hl |- *. cbn [snd] in Hl |- *.
    destruct (layout_part _ _ _ _ _ _ _ _ _) as [s1| |] eqn:E; cbn [mbind res_bind]; try done.
    apply (Hstep limit) in E; [|apply Hsub; by left|done|lia].
    intros Hrest. apply (IH _ _ _ _ Hsub' E) in Hrest; [|lia]. by rewrite Z.add_assoc.
Qed.

Lemma section_parts_ids section_id p size :
  section_fits NUM_SINGLE_PART_SECTIONS section_id -> (p, size) ∈ section_parts section_id ->
  0 <= p /\ output_section_id NUM_SINGLE_PART_SECTIONS p = section_id.
Proof.
  intros Hfit Hin. pose proof (part_id_range_eq NUM_SINGLE_PART_SECTIONS section_id Hfit) as Hr.
  pose proof Hfit as (Hn & Hs & _).
  assert (0 <= (section_range section_id).1 < (section_range section_id).2) as Hlo.
  { unfold section_range. rewrite Hr. change NUM_ALIGNMENTS with 22. destruct (Z.ltb_spec section_id NUM_SINGLE_PART_SECTIONS); cbn [fst snd]; lia. }
  assert ((section_range section_id).1 <= p < (section_range section_id).2) as Hp.
  { unfold section_parts in Hin. destruct (in_range sizes _ _) as [|e l] eqn:E.
    - apply list_elem_of_singleton in Hin. assert (p = (section_range section_id).1) as -> by congruence. lia.
    - rewrite <- E in Hin. apply in_range_bound in Hin; [done|lia]. }
  split; [lia|]. by apply part_of_section.
Qed.

(** *** Memory: sections that take address space of their own *)
Definition no_regions : Prop := Forall (fun info => region_name info = None) output_sections.

(** Allocated, and not overlapping what follows as the TLS sections without data do. *)
Definition takes_memory (section_id : Z) : bool :=
  match output_info section_id, (pid ← primary_output_section section_id; output_info pid) with
  | Ok info, Ok primary => is_alloc primary && negb (occupies_only_tls_address_space info)
  | _, _ => false
  end.

Definition section_of (p : Z) : Z := output_section_id NUM_SINGLE_PART_SECTIONS p.

Lemma layout_section_inv section_id s s' :
  layout_section section_id s = Ok s' ->
  exists info pid primary s1 s2,
    output_info section_id = Ok info /\ primary_output_section section_id = Ok pid /\
    output_info pid = Ok primary /\
    start_section section_id info primary (section_id =? pid) (pending_location s)
      (tls_overlap info (set_location s None (resolved_lc s))) = Ok s1 /\
    layout_parts section_id info (is_alloc primary) (negb (is_no_bits primary))
      (section_max_alignment section_id) true (section_parts section_id) s1 = Ok s2 /\
    finish_region info s2 = Ok s'.
Proof.
  unfold layout_section.
  destruct (output_info section_id) as [info| |]; cbn [mbind res_bind]; try done.
  destruct (primary_output_section section_id) as [pid| |]; cbn [mbind res_bind]; try done.
  destruct (output_info pid) as [primary| |] eqn:Ep; cbn [mbind res_bind]; try done.
  destruct (start_section _ _ _ _ _ _) as [s1| |] eqn:E1; cbn [mbind res_bind]; try done.
  destruct (layout_parts _ _ _ _ _ _ _ _) as [s2| |] eqn:E2; cbn [mbind res_bind]; try done.
  intros Hf. by exists info, pid, primary, s1, s2.
Qed.

Lemma no_regions_info section_id info :
  no_regions -> output_info section_id = Ok info -> region_name info = None.
Proof.
  intros Hn Hi. apply index_ok in Hi as [_ Hi]. by apply (proj1 (Forall_lookup _ _) Hn _ _ Hi).
Qed.

Lemma finish_region_none info s s' :
  region_name info = None -> finish_region info s = Ok s' -> s' = s.
Proof. unfold finish_region. intros ->. by intros [= <-]. Qed.

(** Entering a section leaves the base alone, and the base is the memory offset
    unless the section only takes TLS address space. *)
Lemma tls_overlap_base info s :
  mem_base (tls_overlap info s) = mem_base s /\ st_file (tls_overlap info s) = st_file s /\
  records_out (tls_overlap info s) = records_out s /\
  pending_location (tls_overlap info s) = pending_location s /\
  (occupies_only_tls_address_space info = false -> tls_memsave (tls_overlap info s) = None) /\
  (occupies_only_tls_address_space info = true -> tls_memsave (tls_overlap info s) <> None).
Proof.
  unfold tls_overlap, mem_base.
  destruct (occupies_only_tls_address_space info), (tls_memsave s) eqn:E; cbn; rewrite ?E; done.
Qed.

Lemma tls_overlap_bounded limit info s :
  mem_bounded limit s -> mem_bounded limit (tls_overlap info s).
Proof.
  intros [H1 H2]. unfold tls_overlap, mem_bounded.
  destruct (occupies_only_tls_address_space info), (tls_memsave s) eqn:E; cbn; rewrite ?E;
    split; try done; naive_solver.
Qed.

Lemma take_pending_file n limit info s lc :
  file_inv n limit s -> file_inv n limit (tls_overlap info (set_location s None lc)).
Proof.
  intros (? & ? & ? & ? & ? & ?). apply tls_overlap_file. unfold file_inv; cbn; split_and!; done || lia.
Qed.

Lemma mem_base_bounded limit s : mem_bounded limit s -> mem_base s <= limit.
Proof. intros [H1 H2]. unfold mem_base. destruct (tls_memsave s); cbn; [by apply H2|done]. Qed.

Definition memory_inv (n : nat) (limit : Z) (s : LayoutState) : Prop :=
  file_inv n limit s /\ mem_bounded limit s /\ pending_location s = None /\
  ranges mem_offset mem_size (fun p => takes_memory (section_of p) = true) (mem_base s) (records_out s).

Lemma layout_part_memory n limit section_id info pid primary max first p psize s s' :
  sections_wf -> should_output_partial_object args = false -> valid max ->
  output_info section_id = Ok info -> primary_output_section section_id = Ok pid ->
  output_info pid = Ok primary ->
  0 <= p -> section_of p = section_id -> 0 <= psize ->
  memory_inv n limit s -> (occupies_only_tls_address_space info = false -> tls_memsave s = None) ->
  limit + part_cost psize + 2 ^ 22 <= 2 ^ 63 ->
  layout_part section_id info (is_alloc primary) (negb (is_no_bits primary)) max first p psize s = Ok s' ->
  memory_inv n (limit + part_cost psize) s' /\ tls_memsave s' = tls_memsave s.
Proof.
  intros Hwf Hpart Hmax Hi Hpid Hprim Hp Hsec Hps (Hfile & Hmb & Hpend & Hr) Hocc Hl Hlay.
  pose proof (layout_part_file n limit _ _ _ _ _ _ _ _ _ _ Hwf Hmax Hfile Hp Hps ltac:(lia) Hlay) as [Hfile' Hpend'].
  destruct (layout_part_step n limit _ _ _ _ _ _ _ _ _ _ Hwf Hpart Hmax Hfile Hmb Hps ltac:(lia) Hlay)
    as (r & a & Ha & _ & Hrec & Htls & Hmb' & Halloc & _).
  split; [|done]. split; [done|]. split; [done|]. split; [by rewrite Hpend'|].
  destruct Hfile as (Hrw & _ & Hm & _). destruct Hmb as [Hml _]. unfold part_cost in *.
  pose proof (align_up_moves a (st_mem s) limit Ha ltac:(lia) ltac:(lia)) as Hup.
  rewrite Hrec. apply (ranges_update n _ _ _ (mem_base s)); [done|done|done|..].
  - unfold mem_base. rewrite Htls. destruct (tls_memsave s); cbn; [done|].
    destruct (is_alloc primary); lia.
  - rewrite Hsec. unfold takes_memory. rewrite Hi, Hpid. cbn [mbind res_bind]. rewrite Hprim.
    intros [Hal Hno%negb_true_iff]%andb_true_iff. specialize (Hocc Hno). rewrite Hal in Halloc.
    unfold mem_base. rewrite Htls, Hocc. cbn. lia.
Qed.

Lemma layout_section_memory n limit section_id s s' :
  sections_wf -> sizes_wf n -> no_regions -> should_output_partial_object args = false ->
  section_fits NUM_SINGLE_PART_SECTIONS section_id ->
  memory_inv n limit s -> limit + event_cost (Section_ section_id) + 2 ^ 22 <= 2 ^ 63 ->
  layout_section section_id s = Ok s' ->
  memory_inv n (limit + event_cost (Section_ section_id)) s'.
Proof.
  intros Hwf Hsz Hnr Hpart Hfit Hinv Hl Hlay.
  apply layout_section_inv in Hlay as (info & pid & primary & s1 & s2 & Hi & Hpid & Hprim & H1 & H2 & H3).
  pose proof (no_regions_info _ _ Hnr Hi) as Hreg. apply finish_region_none in H3 as ->; [|done].
  destruct Hinv as (Hfile & Hmb & Hpend & Hr). rewrite Hpend in H1.
  set (s0 := tls_overlap info (set_location s None (resolved_lc s))) in *.
  pose proof (take_pending_file n limit info s (resolved_lc s) Hfile) as Hfile0. fold s0 in Hfile0.
  assert (mem_bounded limit s0) as Hmb0 by (by apply tls_overlap_bounded).
  destruct (tls_overlap_base info (set_location s None (resolved_lc s))) as (B1 & B2 & B3 & B4 & B5 & _).
  fold s0 in B1, B2, B3, B4, B5. clearbody s0.
  unfold start_section, find_region in H1. rewrite Hreg in H1. cbn [mbind res_bind] in H1.
  injection H1 as <-. cbn [event_cost] in *.
  pose proof (section_parts_wf n section_id Hsz (index_nonneg _ _ _ Hi)) as Hps.
  pose proof (parts_cost_nonneg _ Hps) as Hpc.
  pose (I := fun l s => memory_inv n l s /\ (occupies_only_tls_address_space info = false -> tls_memsave s = None)).
  enough (I (limit + 2 ^ 48 + parts_cost (section_parts section_id)) s2) as [He _] by (by rewrite Z.add_assoc).
  refine (layout_parts_ind I _ _ _ _ _ _ _ Hps _ _ _ _ _ _ _ _ H2); [|done|split|lia].
  - intros l first p size t t' Hin [Ht Hocc] Hlt Hstep.
    destruct (section_parts_ids _ _ _ Hfit Hin) as [Hp Hsec].
    assert (0 <= size) as Hsize by (apply list_elem_of_lookup_1 in Hin as [j Hj];
      by apply (proj1 (Forall_lookup _ _) Hps) in Hj as [_ ?]).
    destruct (layout_part_memory n l section_id info pid primary _ _ _ _ _ _ Hwf Hpart
                (section_max_alignment_valid _ Hwf) Hi Hpid Hprim Hp Hsec Hsize Ht Hocc Hlt Hstep)
      as [Ht' Htls]. split; [done|by rewrite Htls].
  - destruct Hfile0 as (F1 & F2 & F3 & F4 & F5 & F6). destruct Hmb0 as [M1 M2].
    split; [|split; [|split]].
    + unfold file_inv. cbn. split_and!; done || lia.
    + split; cbn; [lia|]. intros m Hm%M2. lia.
    + cbn. by rewrite B4.
    + cbn [records_out set_offsets]. rewrite B3. cbn.
      change (ranges mem_offset mem_size (fun p => takes_memory (section_of p) = true) (mem_base s0) (records_out s)).
      by rewrite B1.
  - cbn. done.
Qed.

(** The orders without assigned locations. *)
Definition plain_order (events : list OrderEvent) : Prop :=
  Forall (fun e => match e with
                   | Section_ s => section_fits NUM_SINGLE_PART_SECTIONS s
                   | SegmentStart _ | SegmentEnd _ => True
                   | _ => False
                   end) events.

Lemma plain_events_wf events : plain_order events -> events_wf events.
Proof.
  unfold plain_order, events_wf. induction 1 as [|e events He _ IH]; constructor; [|done].
  destruct e; try done. by destruct He as (_ & ? & _).
Qed.

Lemma start_segment_memory `{!LawfulPlatform P} n limit alignments segment_id s s' :
  sections_wf -> alignments_valid alignments -> memory_inv n limit s -> limit + 2 ^ 24 + 2 ^ 22 <= 2 ^ 63 ->
  start_segment alignments segment_id s = Ok s' -> memory_inv n (limit + 2 ^ 24) s'.
Proof.
  intros Hwf Hal (Hfile & [M1 M2] & Hpend & Hr) Hl Hstep.
  split; [by apply (start_segment_file n limit alignments segment_id s)|]. revert Hstep.
  destruct Hfile as (H1 & H2 & H3 & H4 & H5 & H6). unfold start_segment, mem_bounded.
  destruct (index _ _) as [def| |]; cbn [mbind res_bind]; try done.
  destruct (is_loadable def); [|intros [= <-]; split_and!; try done; [lia|]; intros m Hm%M2; lia].
  rewrite Hpend. pose proof (alignments_get alignments segment_id Hal Hwf) as Hv.
  set (a := default _ _) in *. clearbody a.
  pose proof (segment_start_mem a (st_file s) (st_mem s) Hv) as Hm.
  destruct (align_load_segment_start a (st_file s) (st_mem s)) as [file mem]. cbn [fst snd] in *.
  destruct (align_load_segment_start a file (st_lma s)) as [file' lma]. intros [= <-]. cbn.
  split_and!; [lia|intros m E%M2; lia|done|].
  eapply ranges_weaken; [|exact Hr]. unfold mem_base. cbn. destruct (tls_memsave s); cbn; lia.
Qed.

Lemma layout_events_memory `{!LawfulPlatform P} n alignments events : forall limit s s',
  sections_wf -> sizes_wf n -> no_regions -> should_output_partial_object args = false ->
  alignments_valid alignments -> plain_order events ->
  memory_inv n limit s -> limit + events_cost events + 2 ^ 22 <= 2 ^ 63 ->
  layout_events alignments events s = Ok s' -> memory_inv n (limit + events_cost events) s'.
Proof.
  induction events as [|e events IH]; intros limit s s' Hwf Hsz Hnr Hpart Hal Hes Hi Hl; cbn [layout_events].
  - intros [= <-]. cbn. by rewrite Z.add_0_r.
  - apply Forall_cons_1 in Hes as [He Hes].
    pose proof (events_cost_nonneg n events Hsz (plain_events_wf _ Hes)).
    cbn [events_cost foldr] in *. fold (events_cost events) in *.
    destruct (layout_event _ _ _) as [s1| |] eqn:E; cbn [mbind res_bind]; try done.
    assert (memory_inv n (limit + event_cost e) s1) as Hi1.
    { destruct e; cbn [layout_event event_cost] in *; try done.
      - by apply (start_segment_memory n limit alignments segment_id s); [..|lia|].
      - injection E as <-. by rewrite Z.add_0_r.
      - apply (layout_section_memory n limit _ s); done || (cbn [event_cost]; lia). }
    intros Hrest. apply (IH (limit + event_cost e)) in Hrest; [|done..|lia]. by rewrite Z.add_assoc.
Qed.













(** *** Memory offsets stay in bounds, with assigned locations too *)
Definition bounded_inv (n : nat) (limit : Z) (s : LayoutState) : Prop :=
  file_inv n limit s /\ mem_bounded limit s.

Lemma bounded_weaken n a b s : a <= b -> bounded_inv n a s -> bounded_inv n b s.
Proof.
  intros Hab [Hf [M1 M2]]. split; [by apply (file_inv_weaken n a)|]. split; [lia|]. intros m Hm%M2. lia.
Qed.










(** *** A loadable segment: one displacement for all its data *)




(** The parts laid out by the sections [done]. *)
Definition laid_out (done : list Z) (p : Z) : Prop :=
  exists section_id size, section_id ∈ done /\ (p, size) ∈ section_parts section_id.








(** *** The events of a segment *)
















Lemma initial_part_map n num_sections num_lcs mem regions :
  sizes_wf n -> part_map_wf n (records_out (initial_state num_sections num_lcs mem regions)) /\
  forall p, part_get default_record (records_out (initial_state num_sections num_lcs mem regions)) p = default_record.
Proof.
  intros [[Hn _] _]. split; [split; cbn; [by rewrite length_map|done]|].
  intros p. unfold part_get. cbn [records_out initial_state PartMap.parts].
  rewrite list_lookup_fmap. by destruct (PartMap.parts sizes !! Z.to_nat p).
Qed.

Lemma initial_ranges n num_sections num_lcs mem regions start size sel limit :
  sizes_wf n -> start default_record + size default_record <= limit -> size default_record = 0 ->
  ranges start size sel limit (records_out (initial_state num_sections num_lcs mem regions)).
Proof.
  intros Hsz Hle Hz. destruct (initial_part_map n num_sections num_lcs mem regions Hsz) as [_ Hget].
  split; [intros p Hp Hs|intros p q Hp Hq Hpq Hs Hs']; cbv zeta; rewrite !Hget; lia.
Qed.

Lemma initial_memory n num_sections num_lcs mem regions :
  sizes_wf n -> 0 <= mem < 2 ^ 48 ->
  memory_inv n (2 ^ 48) (initial_state num_sections num_lcs mem regions).
Proof.
  intros Hsz Hm. destruct (initial_part_map n num_sections num_lcs mem regions Hsz) as [Hwf _].
  split; [|split; [|split; [done|apply (initial_ranges n num_sections num_lcs mem regions); [done|cbn; lia|done]]]].
  - unfold file_inv. split_and!; try done; cbn; try lia. apply (initial_ranges n num_sections num_lcs mem regions); [done|cbn; lia|done].
  - split; cbn; [lia|done].
Qed.

(** What a successful layout went through. *)
Lemma compute_layout_sections_inv n base_address num_lcs regions order records layouts lcs :
  sizes_wf n -> sections_wf -> evaluates_to_addresses ->
  compute_layout_sections base_address num_lcs regions order = Ok (records, layouts, lcs) ->
  exists alignments mem s,
    compute_segment_alignments order [] [] = Ok alignments /\ alignments_valid alignments /\
    memory_inv n (2 ^ 48) (initial_state (length output_sections) num_lcs mem regions) /\
    layout_events alignments order (initial_state (length output_sections) num_lcs mem regions) = Ok s /\
    records = records_out s.
Proof.
  intros Hsz Hwf Hev. unfold compute_layout_sections.
  destruct (compute_segment_alignments order [] []) as [al| |] eqn:Eal; cbn [mbind res_bind]; try done.
  destruct (expression_eval _ _ _) as [mem| |] eqn:Ev; cbn [mbind res_bind]; try done.
  destruct (layout_events _ _ _) as [s| |] eqn:Es; cbn [mbind res_bind]; try done.
  intros [= <- <- <-]. exists al, mem, s. split; [done|].
  split; [by apply (compute_segment_alignments_valid order [] []) in Eal; [|done|constructor]|].
  split; [|done]. apply initial_memory; [done|]. by apply Hev in Ev.
Qed.

Lemma ranges_disjoint start size sel limit records p q :
  ranges start size sel limit records -> 0 <= p -> 0 <= q -> p <> q -> sel p -> sel q ->
  let r := part_get default_record records p in
  let r' := part_get default_record records q in
  disjoint_ranges (start r) (size r) (start r') (size r').
Proof.
  intros [_ H] Hp Hq Hpq Sp Sq. cbv zeta. specialize (H p q Hp Hq Hpq Sp Sq). cbv zeta in H.
  intros x H1 H2. lia.
Qed.


(** ** Theorems *)

(** C2. The output file has room for every part: whatever the order of segments and
    sections, the memory regions, AT expressions and assigned locations, the file
    ranges the layout gives to two different parts have no byte in common. *)
Theorem file_ranges_disjoint `{!LawfulPlatform P} n base_address num_lcs regions order records layouts lcs :
  sections_wf -> sizes_wf n -> evaluates_to_addresses -> events_wf order -> events_cost order <= 2 ^ 62 ->
  compute_layout_sections base_address num_lcs regions order = Ok (records, layouts, lcs) ->
  forall p q, 0 <= p -> 0 <= q -> p <> q ->
    let r := part_get default_record records p in
    let r' := part_get default_record records q in
    disjoint_ranges (file_offset r) (file_size r) (file_offset r') (file_size r').
Proof.
  intros Hwf Hsz Hev Hew Hcost Hlay p q Hp Hq Hpq.
  apply (compute_layout_sections_inv n) in Hlay as (al & mem & s & _ & Hal & [Hi _] & Hs & ->); [|done..].
  apply (layout_events_file n al order (2 ^ 48)) in Hs; [|done..|lia].
  by apply (ranges_disjoint _ _ (fun _ => True) (st_file s)); [apply Hs|..].
Qed.

(** C3. Sections do not overlap in memory: in an order without regions and assigned
    locations, the address ranges of two parts of allocated sections are disjoint,
    except that TLS sections without data share addresses with what follows them. *)
Theorem memory_ranges_disjoint `{!LawfulPlatform P} n base_address num_lcs regions order records layouts lcs :
  sections_wf -> sizes_wf n -> evaluates_to_addresses -> no_regions ->
  should_output_partial_object args = false -> plain_order order -> events_cost order <= 2 ^ 62 ->
  compute_layout_sections base_address num_lcs regions order = Ok (records, layouts, lcs) ->
  forall p q, 0 <= p -> 0 <= q -> p <> q ->
    takes_memory (section_of p) = true -> takes_memory (section_of q) = true ->
    let r := part_get default_record records p in
    let r' := part_get default_record records q in
    disjoint_ranges (mem_offset r) (mem_size r) (mem_offset r') (mem_size r').
Proof.
  intros Hwf Hsz Hev Hnr Hpart Hplain Hcost Hlay p q Hp Hq Hpq Tp Tq.
  apply (compute_layout_sections_inv n) in Hlay as (al & mem & s & _ & Hal & Hi & Hs & ->); [|done..].
  apply (layout_events_memory n al order (2 ^ 48)) in Hs; [|done..|lia].
  by apply (ranges_disjoint _ _ (fun p => takes_memory (section_of p) = true) (mem_base s)); [apply Hs|..].
Qed.


End Layout.

(** ** A small ELF executable *)
Module Example.

Definition section (alloc tls nobits : bool) : SectionOutputInfo (Expression := Z) :=
  mkSectionOutputInfo None alloc tls nobits MIN None None.

(** [.text], [.tdata], [.tbss], [.data], [.bss] and [.comment] follow the built-in sections. *)
Definition output_sections : list (SectionOutputInfo (Expression := Z)) :=
  replicate 34 (section true false false) ++
  [section true false false; section true true false; section true true true;
   section true false false; section true false true; section false false false].

Definition args : LayoutArgs := mkLayoutArgs (mkAlignment 12) false.
Definition program_segments : list ProgramSegmentDef :=
  [mkSegmentDef true; mkSegmentDef true; mkSegmentDef false].

(** Part [34 + 22 * i + 21 - e] is aligned to [2^e]. *)
Definition sizes : PartMap Z :=
  mkPartMap (352 :: replicate 33 0)
    (Some [(51, 2001); (55, 3); (73, 16); (94, 64); (115, 7); (117, 24); (139, 100); (165, 50)]).

Definition expression_eval (e : Z) (_ : SymbolLoc) (_ : LayoutState) : res Z :=
  if (0 <=? e) && (e <? 2 ^ 48) then Ok e else Err "not an address".

Definition pre : list (OrderEvent (Expression := Z)) :=
  [SegmentStart 0; Section_ 0; Section_ 34; SegmentEnd 0].
Definition seg : list (OrderEvent (Expression := Z)) :=
  [SegmentStart 2; Section_ 35; Section_ 36; SegmentEnd 2; Section_ 37].
Definition post : list (OrderEvent (Expression := Z)) := [Section_ 38; SegmentEnd 1; Section_ 39].
Definition order : list (OrderEvent (Expression := Z)) := pre ++ SegmentStart 1 :: (seg ++ post).

Definition layout : res (PartMap OutputRecordLayout * list OutputRecordLayout * list ResolvedLocationCounter) :=
  compute_layout_sections (P := elf_platform) expression_eval args output_sections program_segments sizes
    0x400000 1 [] order.

Definition records : PartMap OutputRecordLayout :=
  match layout with Ok (records, _, _) => records | _ => mkPartMap [] None end.
Definition layouts : list OutputRecordLayout :=
  match layout with Ok (_, layouts, _) => layouts | _ => [] end.
Definition lcs : list ResolvedLocationCounter := match layout with Ok (_, _, lcs) => lcs | _ => [] end.

Lemma layout_ok :
  compute_layout_sections (P := elf_platform) expression_eval args output_sections program_segments sizes
    0x400000 1 [] order = Ok (records, layouts, lcs).
Proof. by vm_compute. Qed.

(** [.tdata] is 16 bytes into its page in both; [.data] reuses the addresses of [.tbss]. *)
Example tdata_record :
  part_get default_record records 73 = mkRecord 16 16 (mkAlignment 4) 2368 0x401940 0x401940.
Proof. by vm_compute. Qed.

Example data_record :
  mem_offset (part_get default_record records 115) = 0x401980 /\
  mem_end (part_get default_record records 94) = 0x4019a0.
Proof. by vm_compute. Qed.

Lemma sections_ok : sections_wf args output_sections.
Proof. split; [by split|]. repeat constructor; vm_compute; congruence. Qed.

Lemma sizes_ok : sizes_wf sizes 34.
Proof.
  split; [split; [done|cbn; lia]|]. intros p Hp. unfold part_get.
  destruct (parts sizes !! Z.to_nat p) as [x|] eqn:E.
  - apply list_elem_of_lookup_2 in E. cbn [parts sizes] in E.
    apply elem_of_cons in E as [->|E]; [lia|]. apply elem_of_replicate in E as [-> _]. lia.
  - cbn [sparse_contents sizes sparse default from_option id bt_get]. repeat case_match; cbn; lia.
Qed.

Lemma eval_ok : evaluates_to_addresses expression_eval.
Proof. intros e l s v. unfold expression_eval. destruct (_ && _) eqn:E; [|done]. intros [= <-]. lia. Qed.

Lemma no_regions_ok : no_regions output_sections.
Proof. repeat constructor. Qed.

End Example.

Lemma file_ranges_disjoint_witness :
  let r := part_get default_record Example.records 73 in
  let r' := part_get default_record Example.records 117 in
  disjoint_ranges (file_offset r) (file_size r) (file_offset r') (file_size r').
Proof.
  apply (file_ranges_disjoint (P := elf_platform) Example.expression_eval Example.args Example.output_sections
    Example.program_segments Example.sizes 34 0x400000 1 [] Example.order _ Example.layouts Example.lcs
    Example.sections_ok Example.sizes_ok Example.eval_ok); try lia.
  - repeat constructor; vm_compute; congruence.
  - vm_compute. congruence.
  - exact Example.layout_ok.
Defined.

Lemma memory_ranges_disjoint_witness :
  let r := part_get default_record Example.records 73 in
  let r' := part_get default_record Example.records 139 in
  disjoint_ranges (mem_offset r) (mem_size r) (mem_offset r') (mem_size r').
Proof.
  apply (memory_ranges_disjoint (P := elf_platform) Example.expression_eval Example.args Example.output_sections
    Example.program_segments Example.sizes 34 0x400000 1 [] Example.order _ Example.layouts Example.lcs
    Example.sections_ok Example.sizes_ok Example.eval_ok Example.no_regions_ok); try lia.
  - by vm_compute.
  - repeat constructor; vm_compute; congruence.
  - vm_compute. congruence.
  - exact Example.layout_ok.
  - by vm_compute.
  - by vm_compute.
Defined.

