(* ===== verification/Thunks.v ===== *)
(** Range-extension thunks: [libjdxld/src/thunks.rs], the space
    [libjdxld/src/layout.rs] gives them, and the instructions
    [libjdxld/src/elf_aarch64.rs] writes. *)
From Stdlib Require Import ZArith Lia.
From stdpp Require Import base list list_numbers numbers strings option gmap sorting.
From S2P Require Import Prelude Bits BitMisc Elf AArch64 ValueFlags Symbols PartMap RelocValue.

Local Open Scope Z_scope.

(** ** Blocks *)

(** An object and the range it takes in the primary part. *)
Definition object_range : Type := FileId * Z * Z.

(** A call of [assign]: file, block, and whether the file owns the block. *)
Definition assignment : Type := FileId * Z * bool.

(** The loop of [assign_thunk_blocks]: the calls of [assign] and the number of blocks. *)
Fixpoint assign_loop (max_branch_range : Z) (objects : list object_range) (num_blocks : Z)
    (prev_block_id prev_block_pos : Z) (pending_next : option (Z * FileId * Z)) :
    list assignment * Z :=
  match objects with
  | [] =>
      match pending_next with
      | Some (next_id, first_file_id, _) => ([(first_file_id, next_id, true)], num_blocks)
      | None => ([], num_blocks)
      end
  | (file_id, start, end_) :: objects =>
      match pending_next with
      | Some (next_id, first_file_id, first_object_start) =>
          if max_branch_range <=? wsub 64 end_ first_object_start then
            let '(calls, n) := assign_loop max_branch_range objects num_blocks next_id end_ None in
            ((first_file_id, next_id, false) :: (file_id, next_id, true) :: calls, n)
          else
            let '(calls, n) := assign_loop max_branch_range objects num_blocks prev_block_id prev_block_pos
                                 pending_next in
            ((file_id, next_id, false) :: calls, n)
      | None =>
          if max_branch_range <=? wsub 64 end_ prev_block_pos then
            assign_loop max_branch_range objects (num_blocks + 1) prev_block_id prev_block_pos
              (Some (wrap 32 num_blocks, file_id, start))
          else
            let '(calls, n) := assign_loop max_branch_range objects num_blocks prev_block_id prev_block_pos None in
            ((file_id, prev_block_id, false) :: calls, n)
      end
  end.

Definition assign_thunk_blocks (objects : list object_range) (max_branch_range : Z) :
    list assignment * Z :=
  match objects with
  | [] => ([], 0)
  | (first_file_id, _, first_end) :: objects =>
      let '(calls, n) := assign_loop max_branch_range objects 1 0 first_end None in
      ((first_file_id, 0, true) :: calls, n)
  end.

(** ** Specification of the assignment *)

(** The objects follow each other from [pos] on, with or without gaps: each ends at most [m]
    after the end of the one before it, and the last ends below 2^63. *)
Fixpoint follow (m pos : Z) (objects : list object_range) : Prop :=
  match objects with
  | [] => pos < 2 ^ 63
  | (_, start, end_) :: objects => pos <= start <= end_ /\ end_ <= pos + m /\ follow m end_ objects
  end.

(** How far a block at [pos] is from both ends of an object. *)
Definition in_reach (range m pos start end_ : Z) : Prop := end_ - pos < range /\ pos - start <= Z.max range m + m.

(** An object of [objects] that ends at [pos] owns block [b]. *)
Definition block_at (calls : list assignment) (objects : list object_range) (b pos : Z) : Prop :=
  exists g start, (g, b, true) ∈ calls /\ (g, start, pos) ∈ objects.

Definition owned_blocks (calls : list assignment) : list Z :=
  omap (fun c : assignment => if c.2 then Some c.1.2 else None) calls.

(** ** Lemmas about the assignment *)
Lemma follow_bound m pos objects :
  0 <= pos -> follow m pos objects ->
  pos < 2 ^ 63 /\ forall f s e, (f, s, e) ∈ objects -> pos <= s <= e /\ e < 2 ^ 63.
Proof.
  revert pos. induction objects as [|[[f s] e] objects IH]; intros pos Hpos; cbn [follow].
  - intros H. split; [done|]. intros f s e Hin. by apply not_elem_of_nil in Hin.
  - intros (Hse & Hem & Hc). destruct (IH e ltac:(lia) Hc) as [He Hall]. split; [lia|].
    intros f' s' e' [[= -> -> ->]|Hin]%elem_of_cons; [lia|]. specialize (Hall _ _ _ Hin). lia.
Qed.

(** The loop numbers blocks consecutively; between two blocks being placed the
    newest is the pending one. *)
Definition numbering (num_blocks prev_block_id : Z) (pending_next : option (Z * FileId * Z)) : Prop :=
  match pending_next with
  | None => num_blocks = prev_block_id + 1
  | Some (next_id, _, _) => num_blocks = next_id + 1 /\ next_id = prev_block_id + 1
  end.

Definition pending_file (pending_next : option (Z * FileId * Z)) : list FileId :=
  match pending_next with Some (_, f, _) => [f] | None => [] end.

Lemma assign_loop_spec range objects : forall num prev pos pending,
  0 <= prev -> num + Z.of_nat (length objects) < 2 ^ 32 -> numbering num prev pending ->
  let r := assign_loop range objects num prev pos pending in
  r.1.*1.*1 ≡ₚ pending_file pending ++ objects.*1.*1 /\
  num <= r.2 <= num + Z.of_nat (length objects) /\
  owned_blocks r.1 = seqZ (prev + 1) (r.2 - (prev + 1)) /\
  Forall (fun c : assignment => prev <= c.1.2 < r.2) r.1.
Proof.
  induction objects as [|[[f s] e] objects IH]; intros num prev pos pending Hprev Hlen Hnum;
    cbn [assign_loop length] in *; cbv zeta.
  - destruct pending as [[[next g] gs]|]; cbn in Hnum |- *.
    + destruct Hnum as [-> ->]. replace (prev + 1 + 1 - (prev + 1)) with 1 by lia.
      split; [done|]. split; [lia|]. split; [done|]. repeat constructor; cbn; lia.
    + subst num. rewrite Z.sub_diag. split; [done|]. split; [lia|]. split; [done|constructor].
  - destruct pending as [[[next g] gs]|]; cbn in Hnum.
    + destruct Hnum as [-> ->]. destruct (range <=? wsub 64 e gs).
      * specialize (IH (prev + 1 + 1) (prev + 1) e None ltac:(lia) ltac:(lia) eq_refl). cbv zeta in IH.
        destruct (assign_loop _ _ _ _ _ _) as [calls n]. cbn [fst snd fmap list_fmap] in *.
        destruct IH as (Hp & Hn & Ho & Hf). cbn [pending_file app] in *. split; [by rewrite Hp|].
        split; [lia|]. split.
        -- unfold owned_blocks in *. cbn [omap list_omap snd fst]. rewrite Ho.
           rewrite (seqZ_cons (prev + 1)) by lia. do 2 f_equal; lia.
        -- constructor; [cbn; lia|]. constructor; [cbn; lia|].
           eapply Forall_impl; [exact Hf|]. cbn. intros; lia.
      * specialize (IH (prev + 1 + 1) prev pos (Some (prev + 1, g, gs)) ltac:(lia) ltac:(lia) (conj eq_refl eq_refl)).
        cbv zeta in IH. destruct (assign_loop _ _ _ _ _ _) as [calls n]. cbn [fst snd fmap list_fmap pending_file app] in *.
        destruct IH as (Hp & Hn & Ho & Hf). split; [rewrite Hp; apply Permutation_swap|]. split; [lia|].
        split; [exact Ho|]. constructor; [cbn; lia|done].
    + subst num. destruct (range <=? wsub 64 e pos).
      * rewrite wrap_small by (unfold in_u; lia).
        specialize (IH (prev + 1 + 1) prev pos (Some (prev + 1, f, s)) ltac:(lia) ltac:(lia) (conj eq_refl eq_refl)).
        cbv zeta in IH. destruct (assign_loop _ _ _ _ _ _) as [calls n]. cbn [fst snd fmap list_fmap pending_file app] in *.
        destruct IH as (Hp & Hn & Ho & Hf). split; [done|]. split; [lia|]. done.
      * specialize (IH (prev + 1) prev pos None ltac:(lia) ltac:(lia) eq_refl). cbv zeta in IH.
        destruct (assign_loop _ _ _ _ _ _) as [calls n]. cbn [fst snd fmap list_fmap pending_file app] in *.
        destruct IH as (Hp & Hn & Ho & Hf). split; [by rewrite Hp|]. split; [lia|]. split; [exact Ho|].
        constructor; [cbn; lia|done].
Qed.

Lemma block_at_mono calls calls' objects objects' b pos :
  calls ⊆ calls' -> objects ⊆ objects' -> block_at calls objects b pos -> block_at calls' objects' b pos.
Proof. intros H1 H2 (g & s & Hc & Ho). exists g, s. split; [by apply H1|by apply H2]. Qed.

(** Where the loop puts the blocks, relative to the objects that use them. *)
Lemma assign_loop_reach range m objects : forall num prev pos pending p,
  0 <= m -> 0 < range -> 0 <= pos <= p -> follow m p objects ->
  0 <= num -> num + Z.of_nat (length objects) < 2 ^ 32 ->
  let calls := (assign_loop range objects num prev pos pending).1 in
  match pending with
  | None =>
      forall f s e, (f, s, e) ∈ objects -> exists b o, (f, b, o) ∈ calls /\
        (b = prev /\ in_reach range m pos s e \/
         exists at_, block_at calls objects b at_ /\ in_reach range m at_ s e)
  | Some (next, g, gs) =>
      forall ge, 0 <= gs <= ge -> ge - gs <= m -> ge <= p -> p - gs < range \/ p = ge ->
      exists o at_, (g, next, o) ∈ calls /\ block_at calls ((g, gs, ge) :: objects) next at_ /\
        ge <= at_ /\ at_ - gs <= Z.max range m + m /\
        forall f s e, (f, s, e) ∈ objects -> exists b o, (f, b, o) ∈ calls /\
          exists at_, block_at calls ((g, gs, ge) :: objects) b at_ /\ in_reach range m at_ s e
  end.
Proof.
  induction objects as [|[[f s] e] objects IH]; intros num prev pos pending p Hm Hr0 Hpos Hc Hnum Hlen;
    cbn [assign_loop length] in *; cbv zeta.
  - destruct pending as [[[next g] gs]|]; [|intros f s e Hin; by apply not_elem_of_nil in Hin].
    intros ge Hge Hgm Hgp Hr. exists true, ge. cbn. split; [by left|].
    split; [exists g, gs; split; by left|]. split; [lia|]. split; [lia|].
    intros f s e Hin. by apply not_elem_of_nil in Hin.
  - cbn [follow] in Hc. destruct Hc as (Hse & Hem & Hc).
    destruct (follow_bound m e objects ltac:(lia) Hc) as [He _].
    assert (forall x, 0 <= x <= e -> wsub 64 e x = e - x) as Hsub
      by (intros x Hx; apply wrap_small; unfold in_u; lia).
    destruct pending as [[[next g] gs]|].
    + intros ge Hge Hgm Hgp Hr. rewrite Hsub by lia. destruct (Z.leb_spec range (e - gs)).
      * specialize (IH num next e None e Hm Hr0 ltac:(lia) Hc Hnum ltac:(lia)). cbv zeta in IH.
        destruct (assign_loop _ _ _ _ _ _) as [calls n]. cbn [fst snd] in *.
        exists false, e. split; [by left|]. split; [exists f, s; split; [right; by left|right; by left]|].
        split; [lia|]. split; [lia|]. intros f' s' e' [[= -> -> ->]|Hin]%elem_of_cons.
        -- exists next, true. split; [right; by left|]. exists e.
           split; [exists f, s; split; [right; by left|right; by left]|]. split; lia.
        -- destruct (IH _ _ _ Hin) as (b & o & Hb & Hreach). exists b, o. split; [by do 2 right|].
           destruct Hreach as [[-> Hreach]|(at_ & Hat & Hreach)].
           ++ exists e. split; [|done]. exists f, s. split; [right; by left|right; by left].
           ++ exists at_. split; [|done]. eapply block_at_mono; [..|exact Hat]; intros x Hx; by do 2 right.
      * specialize (IH num prev pos (Some (next, g, gs)) e Hm Hr0 ltac:(lia) Hc Hnum ltac:(lia)). cbv zeta in IH.
        destruct (assign_loop _ _ _ _ _ _) as [calls n]. cbn [fst snd] in *.
        destruct (IH ge Hge Hgm ltac:(lia) ltac:(lia)) as (o & at_ & Ho & Hat & Hgat & Hrat & Hall).
        assert (forall b q, block_at calls ((g, gs, ge) :: objects) b q ->
                  block_at ((f, next, false) :: calls) ((g, gs, ge) :: (f, s, e) :: objects) b q) as Hlift.
        { intros b q. apply block_at_mono; [intros x Hx; by right|].
          intros x [->|Hx]%elem_of_cons; [by left|by do 2 right]. }
        exists o, at_. split; [by right|]. split; [by apply Hlift|]. split; [lia|]. split; [lia|].
        intros f' s' e' [[= -> -> ->]|Hin]%elem_of_cons.
        -- exists next, false. split; [by left|]. exists at_. split; [by apply Hlift|]. split; lia.
        -- destruct (Hall _ _ _ Hin) as (b & o' & Hb & q & Hq & Hreach). exists b, o'.
           split; [by right|]. exists q. split; [by apply Hlift|done].
    + rewrite Hsub by lia. destruct (Z.leb_spec range (e - pos)).
      * rewrite wrap_small by (unfold in_u; lia).
        specialize (IH (num + 1) prev pos (Some (num, f, s)) e Hm Hr0 ltac:(lia) Hc ltac:(lia) ltac:(lia)). cbv zeta in IH.
        destruct (assign_loop _ _ _ _ _ _) as [calls n]. cbn [fst snd] in *.
        destruct (IH e ltac:(lia) ltac:(lia) ltac:(lia) ltac:(by right)) as (o & at_ & Ho & Hat & Hgat & Hrat & Hall).
        intros f' s' e' [[= -> -> ->]|Hin]%elem_of_cons.
        -- exists num, o. split; [done|]. right. exists at_. split; [done|]. split; lia.
        -- destruct (Hall _ _ _ Hin) as (b & o' & Hb & q & Hq & Hreach). exists b, o'. split; [done|].
           right. by exists q.
      * specialize (IH num prev pos None e Hm Hr0 ltac:(lia) Hc Hnum ltac:(lia)). cbv zeta in IH.
        destruct (assign_loop _ _ _ _ _ _) as [calls n]. cbn [fst snd] in *.
        intros f' s' e' [[= -> -> ->]|Hin]%elem_of_cons.
        -- exists prev, false. split; [by left|]. left. split; [done|]. split; lia.
        -- destruct (IH _ _ _ Hin) as (b & o & Hb & Hreach). exists b, o. split; [by right|].
           destruct Hreach as [?|(at_ & Hat & Hreach)]; [by left|]. right. exists at_. split; [|done].
           eapply block_at_mono; [..|exact Hat]; intros x Hx; by right.
Qed.

Lemma assign_thunk_blocks_spec objects range :
  Z.of_nat (length objects) < 2 ^ 31 ->
  let r := assign_thunk_blocks objects range in
  r.1.*1.*1 ≡ₚ objects.*1.*1 /\ 0 <= r.2 <= Z.of_nat (length objects) /\
  owned_blocks r.1 = seqZ 0 r.2 /\ Forall (fun c : assignment => 0 <= c.1.2 < r.2) r.1.
Proof.
  intros Hlen. destruct objects as [|[[f s] e] objects]; cbn [assign_thunk_blocks length] in *; cbv zeta.
  { split; [done|]. split; [cbn; lia|]. split; [done|constructor]. }
  pose proof (assign_loop_spec range objects 1 0 e None ltac:(lia) ltac:(lia) eq_refl) as H. cbv zeta in H.
  destruct (assign_loop _ _ _ _ _ _) as [calls n]. cbn [fst snd fmap list_fmap pending_file app] in *.
  destruct H as (Hp & Hn & Ho & Hf). split; [by rewrite Hp|]. split; [lia|]. split.
  - unfold owned_blocks in *. cbn [omap list_omap snd fst]. rewrite Ho, (seqZ_cons 0) by lia.
    do 2 f_equal; lia.
  - constructor; [cbn; lia|done].
Qed.

(** ** Objects, symbols and the blocks they need *)

(** [ObjectLayoutState] as far as thunks are concerned. *)
Record ObjectState := mkObject {
  obj_file_id : FileId;
  post_gc_primary_bytes : Z;
  symbol_id_range : Z * Z;                   (* first symbol and their number *)
  thunk_block_id : Z;
  owns_thunk_block : bool
}.

Inductive FileLayoutState :=
| Object (obj : ObjectState)
| OtherFile.

(** The tables of the symbol database that are read here, indexed by symbol. *)
Record SymbolDb := mkSymbolDb {
  symbol_definitions : list Z;
  symbol_file_ids : list FileId;
  symbol_part_ids : list Z;                  (* [part_id_for_symbol] *)
  per_symbol_flags : list Z
}.

Record ThunkLayoutBuilder := mkBuilder {
  branch_range : Z;
  primary_function_part_id : Z;
  conservative : bool;
  non_primary_referenced_symbols : list Z
}.

Record ThunkConfig := mkThunkConfig {
  config_part_id : Z;
  min_branch_range : Z;
  thunk_size : Z;
  config_conservative : bool
}.

Definition MAXIMUM_THUNK_BYTES_PER_BLOCK : Z := 2 * 1024 * 1024.

(** [ThunkLayoutBuilder::new], from the executable bytes of each object. *)
Definition new_builder (thunk_config : option ThunkConfig) (executable_bytes : list Z) :
    option ThunkLayoutBuilder :=
  config ← thunk_config;
  if foldr (wadd 64) 0 executable_bytes <? min_branch_range config then None
  else Some (mkBuilder (wsub 64 (min_branch_range config) MAXIMUM_THUNK_BYTES_PER_BLOCK)
               (config_part_id config) (config_conservative config) []).

(** *** Ranges in the primary part *)
Fixpoint file_ranges (offset : Z) (files : list FileLayoutState) : list (option (Z * Z)) * Z :=
  match files with
  | [] => ([], offset)
  | Object obj :: files =>
      let end_ := wadd 64 offset (post_gc_primary_bytes obj) in
      let '(ranges, last) := file_ranges end_ files in (Some (offset, end_) :: ranges, last)
  | OtherFile :: files =>
      let '(ranges, last) := file_ranges offset files in (None :: ranges, last)
  end.

Fixpoint collect_primary_ranges (groups : list (list FileLayoutState)) (initial_offset : Z) :
    list (list (option (Z * Z))) :=
  match groups with
  | [] => []
  | files :: groups =>
      let '(ranges, last) := file_ranges initial_offset files in
      ranges :: collect_primary_ranges groups last
  end.

(** The objects with code in the primary part: [post_gc_bounds]. *)
Definition file_bounds (primary_ranges : list (list (option (Z * Z)))) (fid : FileId) (file : FileLayoutState) :
    res (option object_range) :=
  match file with
  | Object obj =>
      range ← index_file primary_ranges fid;
      Ok (match range with
          | Some (start, end_) => if start <? end_ then Some (obj_file_id obj, start, end_) else None
          | None => None
          end)
  | OtherFile => Ok None
  end.

Definition enumerate_files (groups : list (list FileLayoutState)) : list (FileId * FileLayoutState) :=
  concat (map (fun g => map (fun f => ((g.1, f.1), f.2)) (enumerate_from 0 g.2)) (enumerate_from 0 groups)).

Definition post_gc_bounds (groups : list (list FileLayoutState))
    (primary_ranges : list (list (option (Z * Z)))) : res (list object_range) :=
  bounds ← mapM (fun e => file_bounds primary_ranges e.1 e.2) (enumerate_files groups);
  Ok (omap id bounds).

(** The closure that records an assignment in the object's state. *)
Definition set_block (block_id : Z) (is_owner : bool) (file : FileLayoutState) : FileLayoutState :=
  match file with
  | Object obj => Object (mkObject (obj_file_id obj) (post_gc_primary_bytes obj) (symbol_id_range obj)
                            block_id is_owner)
  | OtherFile => OtherFile
  end.

Definition assign (groups : list (list FileLayoutState)) (c : assignment) : res (list (list FileLayoutState)) :=
  let '(fid, block_id, is_owner) := c in
  group ← index groups fid.1;
  group ← index_update group fid.2 (set_block block_id is_owner);
  index_update groups fid.1 (fun _ => group).

Fixpoint assign_all (groups : list (list FileLayoutState)) (calls : list assignment) :
    res (list (list FileLayoutState)) :=
  match calls with
  | [] => Ok groups
  | c :: calls => groups ← assign groups c; assign_all groups calls
  end.

(** The objects of each block. *)
Fixpoint push_objects (files : list FileLayoutState) (blocks : list (list ObjectState)) :
    res (list (list ObjectState)) :=
  match files with
  | [] => Ok blocks
  | Object obj :: files =>
      if 0 <? post_gc_primary_bytes obj then
        blocks ← index_update blocks (thunk_block_id obj) (fun objects => objects ++ [obj]);
        push_objects files blocks
      else push_objects files blocks
  | OtherFile :: files => push_objects files blocks
  end.

Definition assign_thunk_blocks_to_groups (groups : list (list FileLayoutState))
    (primary_ranges : list (list (option (Z * Z)))) (max_branch_range : Z) :
    res (list (list FileLayoutState) * list (list ObjectState)) :=
  bounds ← post_gc_bounds groups primary_ranges;
  let '(calls, num_blocks) := assign_thunk_blocks bounds max_branch_range in
  groups ← assign_all groups calls;
  blocks ← push_objects (concat groups) (replicate (Z.to_nat (Z.max num_blocks 1)) []);
  Ok (groups, blocks).

(** *** The symbols a block needs *)
Section Refs.
Variable self : ThunkLayoutBuilder.
Variable db : SymbolDb.
Variable primary_ranges : list (list (option (Z * Z))).

Definition primary_range_for_symbol (definition_id : Z) : res (option (Z * Z)) :=
  definition_flags ← index (per_symbol_flags db) definition_id;
  if contains definition_flags IFUNC || contains definition_flags DYNAMIC then Ok None
  else
    part_id ← index (symbol_part_ids db) definition_id;
    if negb (part_id =? primary_function_part_id self) then Ok None
    else
      fid ← index (symbol_file_ids db) definition_id;
      index_file primary_ranges fid.

Definition provably_in_range (src_start src_end definition_id : Z) : res bool :=
  definition_flags ← index (per_symbol_flags db) definition_id;
  range ← primary_range_for_symbol definition_id;
  Ok (match range with
      | Some (def_start, def_end) =>
          let def_start := if contains definition_flags PLT then 0 else def_start in
          let span_start := Z.min src_start def_start in
          let span_end := Z.max src_end def_end in
          Z.max 0 (span_end - span_start) <? branch_range self
      | None => src_end <? branch_range self
      end).

(** One symbol of an object: what it adds to the block. *)
Definition object_symbol (obj : ObjectState) (local_symbol_id : Z) : res (option Z) :=
  raw_flags ← index (per_symbol_flags db) local_symbol_id;
  if negb (contains raw_flags HAS_RANGE_LIMITED_REL) then Ok None
  else
    definition_id ← definition (symbol_definitions db) local_symbol_id;
    range ← index_file primary_ranges (obj_file_id obj);
    match range with
    | None => Ok None
    | Some (src_start, src_end) =>
        if conservative self then Ok (Some definition_id)
        else
          in_range ← provably_in_range src_start src_end definition_id;
          Ok (if in_range : bool then None else Some definition_id)
    end.

Definition object_symbols (obj : ObjectState) : res (list Z) :=
  symbols ← mapM (object_symbol obj) (seqZ (symbol_id_range obj).1 (symbol_id_range obj).2);
  Ok (omap id symbols).

Definition block_symbols (objects : list ObjectState) : res (list Z) :=
  symbols ← mapM object_symbols objects; Ok (concat symbols).

(** [symbols.dedup()]. *)
Fixpoint dedup (l : list Z) : list Z :=
  match l with
  | x :: ((y :: _) as l') => if x =? y then dedup l' else x :: dedup l'
  | _ => l
  end.

(** The sorted symbols of a block; the first block also serves the other parts. *)
Definition build_block (i : nat) (symbols : list Z) : list Z :=
  dedup (merge_sort Z.le
    (match i with O => symbols ++ non_primary_referenced_symbols self | S _ => symbols end)).

End Refs.

(** [ThunkLayoutBuilder::build]: the groups with their blocks assigned, and the
    symbols of each block. *)
Definition build (self : ThunkLayoutBuilder) (db : SymbolDb) (groups : list (list FileLayoutState))
    (non_primary_text_size : Z) : res (list (list FileLayoutState) * list (list Z)) :=
  let primary_ranges := collect_primary_ranges groups non_primary_text_size in
  '(groups, blocks) ← assign_thunk_blocks_to_groups groups primary_ranges (branch_range self);
  symbols ← mapM (block_symbols self db primary_ranges) blocks;
  Ok (groups, imap (build_block self) symbols).

(** *** Addresses: [allocate_thunk_block_space] and [finalise_layout] *)

(** The space an object's thunks take in the primary part. *)
Definition object_thunk_bytes (config : ThunkConfig) (thunk_blocks : list (list Z)) (obj : ObjectState) : Z :=
  if owns_thunk_block obj then
    wmul 64 (match thunk_blocks !! Z.to_nat (thunk_block_id obj) with
             | Some symbols => Z.of_nat (length symbols)
             | None => 0
             end) (thunk_size config)
  else 0.

(** The addresses of a block's thunks, and the address after them. *)
Fixpoint thunk_addresses (config : ThunkConfig) (symbols : list Z) (addr : Z) : list (Z * Z) * Z :=
  match symbols with
  | [] => ([], addr)
  | symbol_id :: symbols =>
      let '(rest, last) := thunk_addresses config symbols (wadd 64 addr (thunk_size config)) in
      ((symbol_id, addr) :: rest, last)
  end.

(** *** The instructions of a thunk *)
Definition THUNK_TEMPLATE : list Z :=
  [0x10; 0x00; 0x00; 0x90; 0x10; 0x02; 0x00; 0x91; 0x00; 0x02; 0x1F; 0xD6].

Definition MIN_BRANCH_RANGE : Z := 128 * 1024 * 1024.

(** [ElfAArch64::write_thunk]: ADRP, ADD, BR. *)
Definition write_thunk (thunk_address target_address : Z) (buf : list Z) : res (list Z) :=
  if negb (length buf =? length THUNK_TEMPLATE)%nat then Panic
  else
    let buf := THUNK_TEMPLATE in
    let thunk_page := Z.land thunk_address (wnot 64 PAGE_MASK_4KB) in
    let target_page := Z.land target_address (wnot 64 PAGE_MASK_4KB) in
    let page_diff := signed 64 (wsub 64 target_page thunk_page) in
    let page_count := Z.land (wrap 64 (Z.quot page_diff SIZE_4KB)) 0x1FFFFF in
    adrp ← (slice buf 0 4 ≫= AArch64.write_to_value A64.Adr page_count false);
    add ← (slice buf 4 8 ≫= AArch64.write_to_value A64.Add (Z.land target_address PAGE_MASK_4KB) false);
    Ok (adrp ++ add ++ drop 8 buf).

(** ** Lemmas about a thunk's instructions *)
Lemma thunk_land_page x : in_u 64 x -> Z.land x (wnot 64 PAGE_MASK_4KB) = page x.
Proof.
  intros Hx. unfold page. change PAGE_MASK_4KB with (Z.ones 12).
  assert (Z.land x (wnot 64 (Z.ones 12)) = Z.ldiff x (Z.ones 12)) as ->.
  { apply Z.bits_inj'; intros i Hi. rewrite Z.land_spec, Z.ldiff_spec. unfold wnot.
    rewrite testbit_wrap, Z.lnot_spec by lia. case_decide; [done|].
    by rewrite (testbit_small 64 x) by (done || lia). }
  rewrite Z.ldiff_ones_r, Z.shiftl_mul_pow2, Z.shiftr_div_pow2 by lia. change (2 ^ 12) with 4096.
  pose proof (Z.div_mod x 4096). lia.
Qed.

(** The page count of a thunk, and the displacement its ADRP makes of it. *)
Lemma thunk_page_count p t :
  in_u 64 p -> in_u 64 t -> - 2 ^ 32 <= page t - page p < 2 ^ 32 ->
  let count := Z.land (wrap 64 (Z.quot (signed 64 (wsub 64 (page t) (page p))) SIZE_4KB)) 0x1FFFFF in
  in_u 21 count /\ sign_extend count 20 = wrap 64 ((page t - page p) / 4096).
Proof.
  intros Hp Ht Hd. cbv zeta. set (d := page t - page p) in *.
  assert (signed 64 (wsub 64 (page t) (page p)) = d) as ->
    by (unfold wsub; rewrite signed_wrap_arg by lia; apply signed_of_signed; [lia|unfold in_i; lia]).
  assert (d mod 4096 = 0) as Hm.
  { destruct (page_range p (proj1 Hp)) as [_ Hpp], (page_range t (proj1 Ht)) as [_ Hpt].
    subst d. Z.to_euclidean_division_equations; lia. }
  assert (Z.quot d SIZE_4KB = d / 4096) as -> by (change SIZE_4KB with 4096; Z.to_euclidean_division_equations; lia).
  set (k := d / 4096). assert (in_i 21 k) as Hk
    by (unfold in_i; subst k; Z.to_euclidean_division_equations; lia).
  change 0x1FFFFF with (Z.ones 21). rewrite Z.land_ones by lia. fold (wrap 21 (wrap 64 k)).
  assert (wrap 21 (wrap 64 k) = wrap 21 k) as ->.
  { unfold wrap. change (2 ^ 64) with (2 ^ 21 * 2 ^ 43). rewrite Z.rem_mul_r by lia.
    rewrite Z.mul_comm, Z.mod_add by lia. apply Z.mod_mod. lia. }
  split; [apply wrap_range; lia|]. rewrite (sign_extend_signed 21) by (lia || apply wrap_range; lia).
  by rewrite signed_wrap_arg, signed_of_signed by (done || lia).
Qed.

(** A block's thunks are one after another, and fill the space its owner has for them. *)
Lemma thunk_addresses_spec config symbols : forall addr,
  0 <= addr -> 0 <= thunk_size config ->
  addr + Z.of_nat (length symbols) * thunk_size config < 2 ^ 64 ->
  let r := thunk_addresses config symbols addr in
  r.1.*1 = symbols /\ r.2 = addr + Z.of_nat (length symbols) * thunk_size config /\
  forall i e, r.1 !! i = Some e -> e.2 = addr + Z.of_nat i * thunk_size config.
Proof.
  induction symbols as [|x symbols IH]; intros addr Ha Hs Hu; cbn [thunk_addresses length] in *; cbv zeta.
  - cbn. split; [done|]. split; [lia|done].
  - assert (wadd 64 addr (thunk_size config) = addr + thunk_size config) as ->
      by (apply wrap_small; unfold in_u; nia).
    specialize (IH (addr + thunk_size config) ltac:(lia) Hs ltac:(lia)). cbv zeta in IH.
    destruct (thunk_addresses _ _ _) as [rest last]. cbn [fst snd fmap list_fmap] in *.
    destruct IH as (-> & -> & Hget). split; [done|]. split; [lia|].
    intros [|i] e Hi; [injection Hi as <-; cbn; lia|]. apply Hget in Hi. lia.
Qed.

Lemma object_thunk_bytes_fill config blocks obj symbols :
  owns_thunk_block obj = true -> blocks !! Z.to_nat (thunk_block_id obj) = Some symbols ->
  0 <= thunk_size config -> Z.of_nat (length symbols) * thunk_size config < 2 ^ 64 ->
  object_thunk_bytes config blocks obj = (thunk_addresses config symbols 0).2.
Proof.
  intros Ho Hb Hs Hu. destruct (thunk_addresses_spec config symbols 0 ltac:(lia) Hs ltac:(lia)) as (_ & -> & _).
  unfold object_thunk_bytes. rewrite Ho, Hb. apply wrap_small. unfold in_u. lia.
Qed.

(** ** Lemmas about files and blocks *)
Lemma Forall2_elem_l {A B} (R : A -> B -> Prop) l k x :
  Forall2 R l k -> x ∈ l -> exists y, y ∈ k /\ R x y.
Proof.
  intros Hf [i Hi]%list_elem_of_lookup_1. destruct (Forall2_lookup_l _ _ _ _ _ Hf Hi) as (y & Hy & HR).
  exists y. split; [by eapply list_elem_of_lookup_2|done].
Qed.

Lemma index_Ok {A} (v : list A) i : 0 <= i < Z.of_nat (length v) -> is_Ok (index v i).
Proof.
  intros Hi. unfold index. rewrite decide_True by lia.
  destruct (v !! Z.to_nat i) as [x|] eqn:E; [by exists x|]. apply lookup_ge_None in E. lia.
Qed.

Lemma index_lookup {A} (v : list A) i x : 0 <= i -> v !! Z.to_nat i = Some x -> index v i = Ok x.
Proof. intros Hi Hx. unfold index. by rewrite decide_True, Hx by lia. Qed.

Lemma index_file_ok {A} (v : list (list A)) fid x :
  index_file v fid = Ok x <->
  0 <= fid.1 /\ 0 <= fid.2 /\ exists group, v !! Z.to_nat fid.1 = Some group /\ group !! Z.to_nat fid.2 = Some x.
Proof.
  unfold index_file. split.
  - destruct (index v fid.1) as [group| |] eqn:E; cbn [mbind res_bind]; try done.
    intros H. apply index_ok in E as [? ?], H as [? ?]. split; [done|]. split; [done|]. by exists group.
  - intros (H1 & H2 & group & Hg & Hx). rewrite (index_lookup _ _ _ H1 Hg). cbn [mbind res_bind].
    by apply index_lookup.
Qed.

Lemma assign_shape {A} (groups : list (list A)) g group group' fid' :
  groups !! g = Some group -> length group' = length group ->
  is_Ok (index_file (<[g := group']> groups) fid') -> is_Ok (index_file groups fid').
Proof.
  intros Hg Hlen [file (H1 & H2 & gr & Hgr & Hf)%index_file_ok].
  destruct (decide (Z.to_nat fid'.1 = g)) as [E|E].
  - subst g. rewrite list_lookup_insert_eq in Hgr by (by eapply lookup_lt_Some). injection Hgr as <-.
    apply lookup_lt_Some in Hf. rewrite Hlen in Hf. apply lookup_lt_is_Some in Hf as [x Hx].
    exists x. apply index_file_ok. split; [done|]. split; [done|]. by exists group.
  - rewrite list_lookup_insert_ne in Hgr by done. exists file. apply index_file_ok.
    split; [done|]. split; [done|]. by exists gr.
Qed.

Lemma assign_get groups fid b o file :
  index_file groups fid = Ok file ->
  exists groups', assign groups (fid, b, o) = Ok groups' /\
    (forall fid' file', index_file groups fid' = Ok file' ->
      index_file groups' fid' = Ok (if bool_decide (fid' = fid) then set_block b o file' else file')) /\
    forall fid', is_Ok (index_file groups' fid') -> is_Ok (index_file groups fid').
Proof.
  intros (H1 & H2 & group & Hg & Hf)%index_file_ok. unfold assign.
  rewrite (index_lookup _ _ _ H1 Hg). cbn [mbind res_bind].
  pose proof (lookup_lt_Some _ _ _ Hf). pose proof (lookup_lt_Some _ _ _ Hg).
  unfold index_update. rewrite (index_lookup _ _ _ H2 Hf). cbn [mbind res_bind]. rewrite (index_lookup _ _ _ H1 Hg). cbn [mbind res_bind]. eexists. split; [reflexivity|].
  split; [|intros fid'; eapply assign_shape; [exact Hg|apply length_insert]].
  intros fid' file' (H1' & H2' & group' & Hg' & Hf')%index_file_ok. apply index_file_ok.
  split; [done|]. split; [done|]. destruct (decide (fid'.1 = fid.1)) as [E1|E1].
  - rewrite E1, list_lookup_insert_eq by done. rewrite E1 in Hg'. rewrite Hg in Hg'. injection Hg' as <-.
    eexists. split; [done|]. destruct (decide (fid'.2 = fid.2)) as [E2|E2].
    + rewrite bool_decide_eq_true_2 by (destruct fid, fid'; cbn in *; congruence).
      rewrite E2 in *. rewrite list_lookup_insert_eq by done. congruence.
    + rewrite bool_decide_eq_false_2 by congruence. rewrite list_lookup_insert_ne by lia. done.
  - rewrite bool_decide_eq_false_2 by congruence. rewrite list_lookup_insert_ne by lia. by exists group'.
Qed.

Lemma assign_all_get calls : forall groups,
  (forall c, c ∈ calls -> is_Ok (index_file groups c.1.1)) ->
  exists groups', assign_all groups calls = Ok groups' /\
    (forall fid file, index_file groups fid = Ok file ->
      exists file', index_file groups' fid = Ok file' /\
        ((forall b o, (fid, b, o) ∉ calls) /\ file' = file \/
         exists b o, (fid, b, o) ∈ calls /\ file' = set_block b o file)) /\
    forall fid, is_Ok (index_file groups' fid) -> is_Ok (index_file groups fid).
Proof.
  induction calls as [|[[fid b] o] calls IH]; intros groups Hok; cbn [assign_all].
  - exists groups. split; [done|]. split; [|done]. intros fid file Hf. exists file. split; [done|]. left. split; [|done].
    intros b o. apply not_elem_of_nil.
  - destruct (Hok (fid, b, o)) as [file Hfile]; [by left|]. cbn [fst] in Hfile.
    destruct (assign_get groups fid b o file Hfile) as (groups1 & H1 & Hget & Hshape). rewrite H1. cbn [mbind res_bind].
    destruct (IH groups1) as (groups' & H2 & Hall & Hshape').
    { intros c Hc. destruct (Hok c) as [file' Hf']; [by right|]. eexists. by apply Hget. }
    exists groups'. split; [done|]. split; [|by intros fid' Hf'; apply Hshape, Hshape'].
    intros fid' file' Hf'. apply Hget in Hf'.
    destruct (Hall _ _ Hf') as (file2 & Hf2 & Hcase). exists file2. split; [done|].
    case_bool_decide as E.
    + subst fid'. right. destruct Hcase as [[Hno ->]|(b' & o' & Hin & ->)].
      * exists b, o. split; [by left|done].
      * exists b', o'. split; [by right|]. by destruct file'.
    + destruct Hcase as [[Hno ->]|(b' & o' & Hin & ->)].
      * left. split; [|done]. intros b' o' [|]%elem_of_cons; [congruence|by eapply Hno].
      * right. exists b', o'. split; [by right|done].
Qed.

(** *** Ranges follow the files *)
Definition file_bytes (file : FileLayoutState) : Z :=
  match file with Object obj => post_gc_primary_bytes obj | OtherFile => 0 end.

Definition files_bytes (files : list FileLayoutState) : Z := foldr (fun f acc => file_bytes f + acc) 0 files.

Lemma files_bytes_app a b : files_bytes (a ++ b) = files_bytes a + files_bytes b.
Proof. unfold files_bytes. induction a as [|x a IH]; cbn; [done|]. rewrite IH. lia. Qed.

Lemma files_bytes_nonneg files : Forall (fun f => 0 <= file_bytes f) files -> 0 <= files_bytes files.
Proof. unfold files_bytes. induction 1; cbn; lia. Qed.

(** The range of each file, where nothing wraps. *)
Lemma file_ranges_exact files : forall offset,
  Forall (fun f => 0 <= file_bytes f) files -> 0 <= offset -> offset + files_bytes files < 2 ^ 64 ->
  (file_ranges offset files).2 = offset + files_bytes files /\
  forall i file, files !! i = Some file ->
    (file_ranges offset files).1 !! i =
      Some (match file with
            | Object obj => Some (offset + files_bytes (take i files),
                                  offset + files_bytes (take i files) + post_gc_primary_bytes obj)
            | OtherFile => None
            end).
Proof.
  induction files as [|file files IH]; intros offset Hf Ho Hs; [split; [cbn; lia|done]|].
  apply Forall_cons in Hf as [Hf0 Hf]. pose proof (files_bytes_nonneg _ Hf).
  change (files_bytes (file :: files)) with (file_bytes file + files_bytes files) in *.
  assert (forall i, files_bytes (take (S i) (file :: files)) = file_bytes file + files_bytes (take i files)) as Hcons
    by done.
  destruct file as [obj|]; cbn [file_ranges file_bytes] in *.
  - assert (wadd 64 offset (post_gc_primary_bytes obj) = offset + post_gc_primary_bytes obj) as ->
      by (apply wrap_small; unfold in_u; lia).
    destruct (IH (offset + post_gc_primary_bytes obj) Hf ltac:(lia) ltac:(lia)) as [H2 H1].
    destruct (file_ranges _ files) as [ranges last]. cbn [fst snd] in *. split; [lia|].
    intros [|i] file Hi; cbn in Hi; [injection Hi as <-; cbn; repeat f_equal; lia|].
    rewrite Hcons. etransitivity; [exact (H1 i file Hi)|].
    destruct file; [|done]. do 2 f_equal; f_equal; lia.
  - destruct (IH offset Hf ltac:(lia) ltac:(lia)) as [H2 H1].
    destruct (file_ranges _ files) as [ranges last]. cbn [fst snd] in *. split; [lia|].
    intros [|i] file Hi; cbn in Hi; [by injection Hi as <-|].
    rewrite Hcons. exact (H1 i file Hi).
Qed.

(** The primary bytes before a file. *)
Definition bytes_before (groups : list (list FileLayoutState)) (fid : FileId) : Z :=
  files_bytes (concat (take (Z.to_nat fid.1) groups)) +
  files_bytes (take (Z.to_nat fid.2) (default [] (groups !! Z.to_nat fid.1))).

Lemma bytes_before_nonneg groups fid :
  Forall (fun f => 0 <= file_bytes f) (concat groups) -> 0 <= bytes_before groups fid.
Proof.
  intros Hb. unfold bytes_before.
  assert (0 <= files_bytes (concat (take (Z.to_nat fid.1) groups))).
  { apply files_bytes_nonneg. rewrite <- (take_drop (Z.to_nat fid.1) groups), concat_app in Hb.
    by apply Forall_app in Hb as [? _]. }
  enough (0 <= files_bytes (take (Z.to_nat fid.2) (default [] (groups !! Z.to_nat fid.1)))) by lia.
  destruct (groups !! Z.to_nat fid.1) as [group|] eqn:E; cbn; [|by destruct (Z.to_nat fid.2)].
  apply files_bytes_nonneg, Forall_take. apply list_elem_of_lookup_2 in E.
  apply list_elem_of_In, in_split in E as (l1 & l2 & ->). rewrite concat_app in Hb.
  apply Forall_app in Hb as [_ Hb]. cbn in Hb. by apply Forall_app in Hb as [? _].
Qed.

Lemma collect_primary_ranges_exact groups : forall offset,
  Forall (fun f => 0 <= file_bytes f) (concat groups) -> 0 <= offset ->
  offset + files_bytes (concat groups) < 2 ^ 64 ->
  forall fid file, index_file groups fid = Ok file ->
    index_file (collect_primary_ranges groups offset) fid =
      Ok (match file with
          | Object obj => Some (offset + bytes_before groups fid,
                                offset + bytes_before groups fid + post_gc_primary_bytes obj)
          | OtherFile => None
          end).
Proof.
  induction groups as [|files groups IH]; intros offset Hf Ho Hs [g f] file (H1 & H2 & group & Hg & Hx)%index_file_ok;
    [done|]. cbn [fst snd] in *. cbn [concat] in Hf, Hs. apply Forall_app in Hf as [Hfiles Hf].
  rewrite files_bytes_app in Hs. pose proof (files_bytes_nonneg _ Hfiles). pose proof (files_bytes_nonneg _ Hf).
  destruct (file_ranges_exact files offset Hfiles Ho ltac:(lia)) as [Hlast Hget].
  cbn [collect_primary_ranges]. destruct (file_ranges offset files) as [ranges last]. cbn [fst snd] in *.
  apply index_file_ok. cbn [fst snd]. split; [done|]. split; [done|].
  unfold bytes_before. cbn [fst snd].
  destruct (Z.to_nat g) as [|n] eqn:En; cbn in Hg.
  - injection Hg as <-. exists ranges. split; [done|]. cbn. exact (Hget _ _ Hx).
  - assert (index_file groups (Z.of_nat n, f) = Ok file) as Hn.
    { apply index_file_ok. cbn [fst snd]. rewrite Nat2Z.id. split; [lia|]. split; [done|]. by exists group. }
    apply (IH last Hf ltac:(lia) ltac:(lia)) in Hn. apply index_file_ok in Hn as (_ & _ & gr & Hgr & Hx').
    cbn [fst snd] in Hgr, Hx'. rewrite Nat2Z.id in Hgr. exists gr. split; [done|]. rewrite Hx'.
    unfold bytes_before. cbn [fst snd]. rewrite Nat2Z.id. cbn [take concat lookup list_lookup].
    rewrite files_bytes_app. destruct file; [|done]. cbn. rewrite Hlast, <- !Z.add_assoc. reflexivity.
Qed.

Lemma enumerate_elem {A} (l : list A) : forall from i x,
  l !! i = Some x -> (from + Z.of_nat i, x) ∈ enumerate_from from l.
Proof.
  induction l as [|y l IH]; intros from i x; [done|]. cbn [enumerate_from]. destruct i; cbn.
  - intros [= ->]. rewrite Z.add_0_r. by left.
  - intros H. right. apply (IH (from + 1)) in H. by replace (from + Z.of_nat (S i)) with (from + 1 + Z.of_nat i) by lia.
Qed.

Lemma enumerate_files_elem groups fid file :
  (fid, file) ∈ enumerate_files groups <-> index_file groups fid = Ok file.
Proof.
  unfold enumerate_files. rewrite list_elem_of_In, in_concat, index_file_ok. split.
  - intros (l & Hl & Hin). apply in_map_iff in Hl as ([g group] & <- & Hg).
    apply in_map_iff in Hin as ([f file'] & [= <- ->] & Hf). cbn [fst snd] in *.
    apply list_elem_of_In in Hg, Hf. pose proof (enumerate_bound _ _ _ _ Hg). pose proof (enumerate_bound _ _ _ _ Hf).
    apply enumerate_get in Hg, Hf. rewrite Z.sub_0_r in *. split; [lia|]. split; [lia|]. by exists group.
  - intros (H1 & H2 & group & Hg & Hf). destruct fid as [g f]. cbn [fst snd] in *.
    apply (enumerate_elem _ 0) in Hg, Hf. rewrite Z.add_0_l, Z2Nat.id in * by done.
    exists (map (fun x => ((g, x.1), x.2)) (enumerate_from 0 group)). split.
    + apply in_map_iff. exists (g, group). split; [done|by apply list_elem_of_In].
    + apply in_map_iff. exists (f, file). split; [done|by apply list_elem_of_In].
Qed.

Lemma post_gc_bounds_ok groups primary_ranges :
  (forall fid file, index_file groups fid = Ok file -> is_Ok (index_file primary_ranges fid)) ->
  exists bounds, post_gc_bounds groups primary_ranges = Ok bounds /\
    (length bounds <= length (enumerate_files groups))%nat /\
    forall b, b ∈ bounds <->
      exists fid obj start end_, index_file groups fid = Ok (Object obj) /\
        index_file primary_ranges fid = Ok (Some (start, end_)) /\ start < end_ /\
        b = (obj_file_id obj, start, end_).
Proof.
  intros Hok. unfold post_gc_bounds.
  destruct (mapM_Ok (fun e => file_bounds primary_ranges e.1 e.2) (enumerate_files groups)) as (k & -> & Hf).
  { intros [fid file] Hin. apply enumerate_files_elem in Hin. cbn. destruct file as [obj|]; [|by eexists].
    destruct (Hok _ _ Hin) as [r Hr]. cbn. rewrite Hr. by eexists. }
  cbn [mbind res_bind]. eexists. split; [reflexivity|].
  split; [rewrite (Forall2_length _ _ _ Hf); clear; induction k as [|[x|] k IH]; cbn; lia|]. intros b. rewrite list_elem_of_omap. split.
  - intros (o & Ho & Hb). cbn in Hb. subst o. apply list_elem_of_lookup_1 in Ho as [i Hi].
    destruct (Forall2_lookup_r _ _ _ _ _ Hf Hi) as ([fid file] & Hfile & Hbounds).
    apply list_elem_of_lookup_2, enumerate_files_elem in Hfile. cbn in Hbounds.
    destruct file as [obj|]; [|done]. cbn in Hbounds.
    destruct (index_file primary_ranges fid) as [r| |] eqn:Er; cbn [mbind res_bind] in Hbounds; try done.
    destruct r as [[s e]|]; [|done]. destruct (Z.ltb_spec s e); [|done]. injection Hbounds as <-.
    by exists fid, obj, s, e.
  - intros (fid & obj & s & e & Hfile & Hr & Hse & ->).
    destruct (Forall2_elem_l _ _ _ (fid, Object obj) Hf) as (o & Ho & Hbounds); [by apply enumerate_files_elem|].
    cbn in Hbounds. rewrite Hr in Hbounds. cbn [mbind res_bind] in Hbounds.
    rewrite (proj2 (Z.ltb_lt s e)) in Hbounds by done. exists o. split; [done|]. cbn. congruence.
Qed.

(** Every object with primary code ends up in its block. *)
Lemma push_objects_ok files : forall blocks,
  (forall obj, Object obj ∈ files -> 0 < post_gc_primary_bytes obj ->
     0 <= thunk_block_id obj < Z.of_nat (length blocks)) ->
  exists blocks', push_objects files blocks = Ok blocks' /\ length blocks' = length blocks /\
    (forall b objects, blocks !! b = Some objects -> exists objects', blocks' !! b = Some objects' /\
       objects ⊆ objects' /\
       forall obj, obj ∈ objects' -> obj ∈ objects \/ Object obj ∈ files /\ 0 < post_gc_primary_bytes obj) /\
    (forall obj, Object obj ∈ files -> 0 < post_gc_primary_bytes obj ->
       exists objects', blocks' !! Z.to_nat (thunk_block_id obj) = Some objects' /\ obj ∈ objects').
Proof.
  induction files as [|file files IH]; intros blocks Hid; cbn [push_objects].
  - exists blocks. split; [done|]. split; [done|]. split.
    + intros b objects Hb. exists objects. split; [done|]. split; [done|]. intros obj Hobj. by left.
    + intros obj Hin. by apply not_elem_of_nil in Hin.
  - assert (forall blocks1, (forall obj, Object obj ∈ files -> 0 < post_gc_primary_bytes obj ->
       0 <= thunk_block_id obj < Z.of_nat (length blocks1)) -> _) as IH' by exact IH. clear IH.
    assert (file = OtherFile \/ (exists obj, file = Object obj /\ post_gc_primary_bytes obj <= 0) ->
      exists blocks', push_objects files blocks = Ok blocks' /\ length blocks' = length blocks /\
      (forall b objects, blocks !! b = Some objects -> exists objects', blocks' !! b = Some objects' /\
         objects ⊆ objects' /\
         forall obj, obj ∈ objects' -> obj ∈ objects \/ Object obj ∈ file :: files /\ 0 < post_gc_primary_bytes obj) /\
      (forall obj, Object obj ∈ file :: files -> 0 < post_gc_primary_bytes obj ->
         exists objects', blocks' !! Z.to_nat (thunk_block_id obj) = Some objects' /\ obj ∈ objects')) as Hskip.
    { intros Hfile. destruct (IH' blocks) as (blocks' & Hp & Hl & Hkeep & Hnew);
        [intros obj Hobj; apply Hid; by right|].
      exists blocks'. split; [done|]. split; [done|]. split.
      - intros b objects Hb. destruct (Hkeep b objects Hb) as (o' & Ho' & Hsub & Hsrc).
        exists o'. split; [done|]. split; [done|]. intros obj Hobj.
        destruct (Hsrc obj Hobj) as [|[? ?]]; [by left|right]. split; [by right|done].
      - intros obj [<-|Hin]%elem_of_cons Hpos; [|by apply Hnew].
        destruct Hfile as [?|(obj' & [= <-] & ?)]; [done|lia]. }
    destruct file as [obj|]; [|apply Hskip; by left].
    destruct (Z.ltb_spec 0 (post_gc_primary_bytes obj)) as [Hpos|]; [|apply Hskip; right; by exists obj].
    clear Hskip. destruct (Hid obj) as [Hlo Hhi]; [by left|done|].
    destruct (blocks !! Z.to_nat (thunk_block_id obj)) as [objects0|] eqn:E0; [|apply lookup_ge_None in E0; lia].
    unfold index_update. rewrite (index_lookup _ _ _ Hlo E0). cbn [mbind res_bind].
    destruct (IH' (<[Z.to_nat (thunk_block_id obj) := objects0 ++ [obj]]> blocks)) as (blocks' & Hp & Hl & Hkeep & Hnew);
      [intros o Ho Hop; rewrite length_insert; apply Hid; [by right|done]|].
    exists blocks'. split; [done|]. rewrite length_insert in Hl. split; [done|]. split.
    + intros b objects Hb. destruct (decide (b = Z.to_nat (thunk_block_id obj))) as [->|Hne].
      * destruct (Hkeep (Z.to_nat (thunk_block_id obj)) (objects0 ++ [obj])) as (o' & Ho' & Hsub & Hsrc);
          [by rewrite list_lookup_insert_eq by (by eapply lookup_lt_Some)|].
        rewrite E0 in Hb. injection Hb as <-. exists o'. split; [done|].
        split; [intros x Hx; apply Hsub, elem_of_app; by left|]. intros x Hx.
        destruct (Hsrc x Hx) as [[?|Heq%list_elem_of_singleton]%elem_of_app|[? ?]]; [by left|right..].
        -- subst x. split; [by left|done].
        -- split; [by right|done].
      * destruct (Hkeep b objects) as (o' & Ho' & Hsub & Hsrc); [by rewrite list_lookup_insert_ne by done|].
        exists o'. split; [done|]. split; [done|]. intros x Hx.
        destruct (Hsrc x Hx) as [|[? ?]]; [by left|right]. split; [by right|done].
    + intros o [[= ->]|Hin]%elem_of_cons Hop; [|by apply Hnew].
      destruct (Hkeep (Z.to_nat (thunk_block_id obj)) (objects0 ++ [obj])) as (o' & Ho' & Hsub & _);
        [by rewrite list_lookup_insert_eq by (by eapply lookup_lt_Some)|].
      exists o'. split; [done|]. apply Hsub, elem_of_app. right. by apply list_elem_of_singleton.
Qed.

(** *** Sorting and deduplication *)
Lemma dedup_cons a b l : dedup (a :: b :: l) = if a =? b then dedup (b :: l) else a :: dedup (b :: l).
Proof. done. Qed.

Lemma dedup_elem l x : x ∈ dedup l <-> x ∈ l.
Proof.
  induction l as [|a l IH]; [done|]. destruct l as [|b l]; [done|].
  rewrite dedup_cons. destruct (Z.eqb_spec a b) as [->|Hab].
  - rewrite IH, !elem_of_cons. tauto.
  - rewrite elem_of_cons, IH, !elem_of_cons. tauto.
Qed.

Lemma dedup_sorted l : StronglySorted Z.le l -> StronglySorted Z.lt (dedup l).
Proof.
  induction l as [|a l IH]; intros Hs; [constructor|]. apply StronglySorted_inv in Hs as [Hs Hall].
  specialize (IH Hs). destruct l as [|b l]; [by repeat constructor|].
  rewrite dedup_cons. destruct (Z.eqb_spec a b) as [->|Hab]; [done|]. constructor; [done|].
  apply Forall_forall. intros x Hx. rewrite dedup_elem in Hx. apply StronglySorted_inv in Hs as [_ Hb].
  apply Forall_cons in Hall as [Hle _]. rewrite Forall_forall in Hb.
  apply elem_of_cons in Hx as [->|Hx]; [lia|]. specialize (Hb x Hx). cbn in Hb. lia.
Qed.

Lemma build_block_spec self i symbols :
  StronglySorted Z.lt (build_block self i symbols) /\ symbols ⊆ build_block self i symbols /\
  (i = 0%nat -> non_primary_referenced_symbols self ⊆ build_block self i symbols).
Proof.
  unfold build_block. split; [apply dedup_sorted, StronglySorted_merge_sort; apply _|].
  assert (forall l, l ⊆ dedup (merge_sort Z.le l)) as Hsub.
  { intros l x Hx. apply dedup_elem. by rewrite merge_sort_Permutation. }
  destruct i; split; try done; intros; (etransitivity; [|apply Hsub]); intros x Hx; apply elem_of_app; auto.
Qed.

(** ** What the blocks have to hold *)

(** Files know their identifiers, sizes do not wrap, and there are fewer than 2^31 files. *)
Record files_wf (groups : list (list FileLayoutState)) (offset : Z) : Prop := {
  wf_ids fid obj : index_file groups fid = Ok (Object obj) -> obj_file_id obj = fid;
  wf_bytes : Forall (fun f => 0 <= file_bytes f) (concat groups);
  wf_offset : 0 <= offset;
  wf_total : offset + files_bytes (concat groups) < 2 ^ 63;
  wf_count : Z.of_nat (length (enumerate_files groups)) < 2 ^ 31
}.

(** The tables have an entry for the symbol and for its definition. *)
Definition symbol_wf (db : SymbolDb) (groups : list (list FileLayoutState)) (symbol_id : Z) : Prop :=
  is_Ok (index (per_symbol_flags db) symbol_id) /\
  exists d, definition (symbol_definitions db) symbol_id = Ok d /\ is_Ok (index (per_symbol_flags db) d) /\
    is_Ok (index (symbol_part_ids db) d) /\
    exists fid, index (symbol_file_ids db) d = Ok fid /\ is_Ok (index_file groups fid).

Definition object_symbol_ids (obj : ObjectState) : list Z :=
  seqZ (symbol_id_range obj).1 (symbol_id_range obj).2.

Definition symbols_wf (db : SymbolDb) (groups : list (list FileLayoutState)) : Prop :=
  forall fid obj x, index_file groups fid = Ok (Object obj) -> x ∈ object_symbol_ids obj -> symbol_wf db groups x.

(** Where a branch to the symbol may go, as far as the sizes tell: into the part
    of its definition's object, or its PLT entry, or anywhere up to the end of the source
    for code that is not in the primary part. *)
Definition possible_destination (self : ThunkLayoutBuilder) (db : SymbolDb)
    (primary_ranges : list (list (option (Z * Z)))) (src_end d dst : Z) : Prop :=
  exists flags, index (per_symbol_flags db) d = Ok flags /\
    match primary_range_for_symbol self db primary_ranges d with
    | Ok (Some (def_start, def_end)) =>
        (if contains flags PLT then 0 else def_start) <= dst <= def_end
    | Ok None => 0 <= dst <= src_end
    | _ => False
    end.

(** Every branch from the range to the definition is short enough. *)
Definition branch_in_range (self : ThunkLayoutBuilder) (db : SymbolDb)
    (primary_ranges : list (list (option (Z * Z)))) (src_start src_end d : Z) : Prop :=
  forall src dst, src_start <= src <= src_end ->
    possible_destination self db primary_ranges src_end d dst ->
    Z.abs (src - dst) < branch_range self.

Lemma provably_in_range_sound self db primary_ranges src_start src_end d :
  0 <= src_start ->
  provably_in_range self db primary_ranges src_start src_end d = Ok true ->
  branch_in_range self db primary_ranges src_start src_end d.
Proof.
  unfold provably_in_range. intros Hpos H src dst Hsrc (flags & Hflags & Hdst). revert H.
  rewrite Hflags. cbn [mbind res_bind].
  destruct (primary_range_for_symbol self db primary_ranges d) as [[[ds de]|]| |]; cbn [mbind res_bind]; try done.
  - intros [= H]. destruct (contains flags PLT); lia.
  - intros [= H]. lia.
Qed.

Section Build.
Variable self : ThunkLayoutBuilder.
Variable db : SymbolDb.
Variable groups : list (list FileLayoutState).
Variable offset : Z.
Hypothesis Hfiles : files_wf groups offset.
Hypothesis Hsymbols : symbols_wf db groups.

#[local] Abbreviation ranges := (collect_primary_ranges groups offset).

Lemma ranges_exact fid obj :
  index_file groups fid = Ok (Object obj) ->
  index_file ranges fid =
    Ok (Some (offset + bytes_before groups fid, offset + bytes_before groups fid + post_gc_primary_bytes obj)).
Proof.
  intros Hf. destruct Hfiles as [_ Hb Ho Ht _].
  by rewrite (collect_primary_ranges_exact groups offset Hb Ho ltac:(lia) fid _ Hf).
Qed.

Lemma ranges_ok fid : is_Ok (index_file groups fid) -> is_Ok (index_file ranges fid).
Proof.
  intros [file Hf]. destruct Hfiles as [_ Hb Ho Ht _].
  eexists. by rewrite (collect_primary_ranges_exact groups offset Hb Ho ltac:(lia) fid _ Hf).
Qed.

Lemma primary_range_ok d :
  is_Ok (index (per_symbol_flags db) d) -> is_Ok (index (symbol_part_ids db) d) ->
  (exists fid, index (symbol_file_ids db) d = Ok fid /\ is_Ok (index_file groups fid)) ->
  is_Ok (primary_range_for_symbol self db ranges d).
Proof.
  intros [f Hf] [p Hp] (fid & Hfid & Hok). unfold primary_range_for_symbol. rewrite Hf. cbn [mbind res_bind].
  destruct (_ || _); [by eexists|]. rewrite Hp. cbn [mbind res_bind]. destruct (negb _); [by eexists|].
  rewrite Hfid. cbn [mbind res_bind]. by apply ranges_ok.
Qed.

(** An object in its block is the one it was, up to its block. *)
Definition same_object (obj obj' : ObjectState) : Prop :=
  obj_file_id obj' = obj_file_id obj /\ post_gc_primary_bytes obj' = post_gc_primary_bytes obj /\
  symbol_id_range obj' = symbol_id_range obj.

Lemma object_symbol_ok fid obj obj' x :
  index_file groups fid = Ok (Object obj) -> same_object obj obj' -> x ∈ object_symbol_ids obj ->
  exists o, object_symbol self db ranges obj' x = Ok o /\
    forall flags d, index (per_symbol_flags db) x = Ok flags -> contains flags HAS_RANGE_LIMITED_REL = true ->
      definition (symbol_definitions db) x = Ok d ->
      o = Some d \/
      provably_in_range self db ranges (offset + bytes_before groups fid)
        (offset + bytes_before groups fid + post_gc_primary_bytes obj) d = Ok true.
Proof.
  intros Hobj (Hid & Hbytes & Hrange) Hx.
  destruct (Hsymbols fid obj x Hobj Hx) as ([flags Hflags] & d & Hd & [df Hdf] & Hpart & Hfile).
  unfold object_symbol. rewrite Hflags. cbn [mbind res_bind].
  destruct (contains flags HAS_RANGE_LIMITED_REL) eqn:Ef; cbn [negb].
  2: { exists None. split; [done|]. intros f d' [= <-] Hc. congruence. }
  rewrite Hd, Hid, (wf_ids _ _ Hfiles fid obj Hobj), (ranges_exact fid obj Hobj). cbn [mbind res_bind].
  destruct (conservative self).
  - exists (Some d). split; [done|]. intros f d' _ _ [= <-]. by left.
  - destruct (primary_range_ok d) as [r Hr]; [by eexists|done|done|].
    unfold provably_in_range at 1. rewrite Hdf, Hr. cbn [mbind res_bind].
    match goal with |- context [Ok (if ?b then _ else _)] => destruct b eqn:Eb end.
    + exists None. split; [done|]. intros f d' _ _ [= <-]. right. unfold provably_in_range.
      rewrite Hdf, Hr. cbn [mbind res_bind]. by rewrite Eb.
    + exists (Some d). split; [done|]. intros f d' _ _ [= <-]. by left.
Qed.

Lemma block_symbols_ok objects :
  (forall obj', obj' ∈ objects -> exists fid obj, index_file groups fid = Ok (Object obj) /\ same_object obj obj') ->
  exists symbols, block_symbols self db ranges objects = Ok symbols /\
    forall fid obj obj' x flags d, obj' ∈ objects -> index_file groups fid = Ok (Object obj) -> same_object obj obj' ->
      x ∈ object_symbol_ids obj -> index (per_symbol_flags db) x = Ok flags ->
      contains flags HAS_RANGE_LIMITED_REL = true -> definition (symbol_definitions db) x = Ok d ->
      d ∈ symbols \/
      provably_in_range self db ranges (offset + bytes_before groups fid)
        (offset + bytes_before groups fid + post_gc_primary_bytes obj) d = Ok true.
Proof.
  intros Hall. unfold block_symbols.
  assert (forall obj', obj' ∈ objects -> is_Ok (object_symbols self db ranges obj')) as Hok.
  { intros obj' Hin. destruct (Hall obj' Hin) as (fid & obj & Hobj & Hsame). unfold object_symbols.
    pose proof Hsame as (_ & _ & Hr). rewrite Hr.
    destruct (mapM_Ok (object_symbol self db ranges obj') (object_symbol_ids obj)) as (k & Hk & _).
    - intros x Hx. destruct (object_symbol_ok fid obj obj' x Hobj Hsame Hx) as (o & Ho & _). by exists o.
    - unfold object_symbol_ids in Hk. rewrite Hk. by eexists. }
  destruct (mapM_Ok _ _ Hok) as (k & -> & Hf). cbn [mbind res_bind]. eexists. split; [reflexivity|].
  intros fid obj obj' x flags d Hin Hobj Hsame Hx Hflags Hc Hd.
  destruct (Forall2_elem_l _ _ _ _ Hf Hin) as (symbols & Hsym & Hos). unfold object_symbols in Hos.
  pose proof Hsame as (_ & _ & Hr). rewrite Hr in Hos.
  destruct (mapM_Ok (object_symbol self db ranges obj') (object_symbol_ids obj)) as (l & Hl & Hfl).
  { intros y Hy. destruct (object_symbol_ok fid obj obj' y Hobj Hsame Hy) as (o & Ho & _). by exists o. }
  unfold object_symbol_ids in Hl. rewrite Hl in Hos. cbn [mbind res_bind] in Hos. injection Hos as <-.
  destruct (Forall2_elem_l _ _ _ _ Hfl Hx) as (o & Ho & Hox). cbn in Hox.
  destruct (object_symbol_ok fid obj obj' x Hobj Hsame Hx) as (o' & Ho' & Hspec). rewrite Hox in Ho'. injection Ho' as <-.
  destruct (Hspec flags d Hflags Hc Hd) as [->|Hin_range]; [left|by right].
  apply list_elem_of_In, in_concat. exists (omap id l). split; [by apply list_elem_of_In|].
  apply list_elem_of_In, list_elem_of_omap. by exists (Some d).
Qed.

Lemma concat_files (gs : list (list FileLayoutState)) file : file ∈ concat gs -> exists fid, index_file gs fid = Ok file.
Proof.
  intros Hin. apply list_elem_of_In, in_concat in Hin as (group & Hg & Hf).
  apply list_elem_of_In, list_elem_of_lookup_1 in Hg as [g Hg].
  apply list_elem_of_In, list_elem_of_lookup_1 in Hf as [f Hf].
  exists (Z.of_nat g, Z.of_nat f). apply index_file_ok. cbn. rewrite !Nat2Z.id.
  split; [lia|]. split; [lia|]. by exists group.
Qed.

Lemma index_file_concat (gs : list (list FileLayoutState)) fid file : index_file gs fid = Ok file -> file ∈ concat gs.
Proof.
  intros (_ & _ & group & Hg & Hf)%index_file_ok. apply list_elem_of_In, in_concat. exists group.
  apply list_elem_of_lookup_2 in Hg, Hf. by split; apply list_elem_of_In.
Qed.

(** The assignment of blocks to the objects of all groups. *)
Lemma assign_to_groups_ok range :
  exists groups' blocks, assign_thunk_blocks_to_groups groups ranges range = Ok (groups', blocks) /\
    (forall objects obj', objects ∈ blocks -> obj' ∈ objects ->
       exists fid obj, index_file groups fid = Ok (Object obj) /\ same_object obj obj') /\
    (0 < length blocks)%nat /\
    forall fid obj, index_file groups fid = Ok (Object obj) -> 0 < post_gc_primary_bytes obj ->
      exists obj' objects, index_file groups' fid = Ok (Object obj') /\ same_object obj obj' /\
        blocks !! Z.to_nat (thunk_block_id obj') = Some objects /\ obj' ∈ objects.
Proof.
  unfold assign_thunk_blocks_to_groups.
  destruct (post_gc_bounds_ok groups ranges) as (bounds & -> & Hlen & Hbounds);
    [intros fid file Hf; apply ranges_ok; by exists file|]. cbn [mbind res_bind].
  pose proof (wf_count _ _ Hfiles) as Hcount.
  pose proof (assign_thunk_blocks_spec bounds range ltac:(lia)) as Hspec. cbv zeta in Hspec.
  destruct (assign_thunk_blocks bounds range) as [calls n]. cbn [fst snd] in Hspec.
  destruct Hspec as (Hperm & Hn & _ & Hblk).
  assert (forall fid b o, (fid, b, o) ∈ calls -> exists obj, index_file groups fid = Ok (Object obj)) as Hcall.
  { intros fid b o Hin. assert (fid ∈ calls.*1.*1) as Hfid.
    { apply list_elem_of_fmap. exists (fid, b). split; [done|]. apply list_elem_of_fmap. by exists (fid, b, o). }
    rewrite Hperm in Hfid. apply list_elem_of_fmap in Hfid as ([f s] & -> & Hfid).
    apply list_elem_of_fmap in Hfid as ([[f1 s1] e1] & [= -> ->] & Hb).
    apply Hbounds in Hb as (fid' & obj & s' & e' & Hobj & _ & _ & [= -> -> ->]).
    rewrite (wf_ids _ _ Hfiles fid' obj Hobj). by exists obj. }
  destruct (assign_all_get calls groups) as (groups' & -> & Hget & Hshape).
  { intros [[fid b] o] Hin. destruct (Hcall _ _ _ Hin) as [obj Hobj]. by eexists. }
  cbn [mbind res_bind].
  assert (forall fid obj', index_file groups' fid = Ok (Object obj') ->
    exists obj, index_file groups fid = Ok (Object obj) /\ same_object obj obj' /\
      (0 < post_gc_primary_bytes obj -> 0 <= thunk_block_id obj' < n)) as Hobjs.
  { intros fid obj' Hobj'. destruct (Hshape fid) as [file Hfile]; [by eexists|].
    destruct (Hget fid file Hfile) as (file' & Hfile' & Hcase). rewrite Hobj' in Hfile'. injection Hfile' as <-.
    destruct Hcase as [[Hno <-]|(b & o & Hin & Hset)].
    - exists obj'. split; [done|]. split; [done|]. intros Hpos. exfalso.
      assert (fid ∈ bounds.*1.*1) as Hfid.
      { apply list_elem_of_fmap. exists (fid, offset + bytes_before groups fid). split; [done|].
        apply list_elem_of_fmap. eexists. split; [|apply Hbounds; exists fid, obj'; do 2 eexists;
          split; [done|]; split; [by apply ranges_exact|]; split; [|reflexivity]; lia].
        cbn. by rewrite (wf_ids _ _ Hfiles fid obj' Hfile). }
      rewrite <- Hperm in Hfid. apply list_elem_of_fmap in Hfid as ([f b] & -> & Hfid).
      apply list_elem_of_fmap in Hfid as ([[f' b'] o] & [= -> ->] & Hb). by eapply Hno.
    - destruct file as [obj|]; [|done]. injection Hset as ->. exists obj. split; [done|]. split; [done|].
      intros _. cbn. rewrite Forall_forall in Hblk. exact (Hblk _ Hin). }
  destruct (push_objects_ok (concat groups') (replicate (Z.to_nat (Z.max n 1)) [])) as (blocks & -> & Hbl & Hkeep & Hnew).
  { intros obj' [fid Hin]%concat_files Hpos. rewrite length_replicate.
    destruct (Hobjs fid obj' Hin) as (obj & _ & (_ & Hb & _) & Hid). specialize (Hid ltac:(lia)). lia. }
  cbn [mbind res_bind]. exists groups', blocks. split; [done|]. rewrite length_replicate in Hbl.
  split; [|split; [lia|]].
  - intros objects obj' [i Hi]%list_elem_of_lookup_1 Hin.
    destruct (Hkeep i []) as (objects' & Ho' & _ & Hsrc).
    { apply lookup_replicate. split; [done|]. apply lookup_lt_Some in Hi. lia. }
    rewrite Hi in Ho'. injection Ho' as <-. destruct (Hsrc obj' Hin) as [Hnil|[Hfile _]];
      [by apply not_elem_of_nil in Hnil|].
    apply concat_files in Hfile as [fid Hfile]. destruct (Hobjs fid obj' Hfile) as (obj & Hobj & Hsame & _).
    by exists fid, obj.
  - intros fid obj Hobj Hpos. destruct (Hget fid (Object obj) Hobj) as (file' & Hfile' & Hcase).
    assert (exists obj', file' = Object obj') as [obj' ->]
      by (destruct Hcase as [[_ ->]|(b & o & _ & ->)]; by eexists).
    destruct (Hobjs fid obj' Hfile') as (obj0 & Hobj0 & Hsame & _). rewrite Hobj in Hobj0. injection Hobj0 as <-.
    destruct (Hnew obj') as (objects & Hobjects & Hin);
      [by eapply index_file_concat|destruct Hsame as (_ & -> & _); done|]. by exists obj', objects.
Qed.

End Build.

(** ** Theorems *)

(** C39. No branch is left without the thunk it may need: for objects, symbol tables and
    sizes that fit together, laying out the thunks succeeds, every block lists its symbols
    once and in ascending order, the first block has all symbols that other code
    refers to, and for every object with code in the primary part and every symbol it makes
    range-limited references to, either the symbol is in the object's block or every branch
    to the symbol is shorter than the branch range. *)
Theorem needed_thunks_allocated self db groups offset :
  files_wf groups offset -> symbols_wf db groups ->
  exists groups' blocks, build self db groups offset = Ok (groups', blocks) /\
    Forall (StronglySorted Z.lt) blocks /\
    (exists first, blocks !! 0%nat = Some first /\ non_primary_referenced_symbols self ⊆ first) /\
    forall fid obj x flags d, index_file groups fid = Ok (Object obj) -> 0 < post_gc_primary_bytes obj ->
      x ∈ object_symbol_ids obj -> index (per_symbol_flags db) x = Ok flags ->
      contains flags HAS_RANGE_LIMITED_REL = true -> definition (symbol_definitions db) x = Ok d ->
      exists obj' symbols, index_file groups' fid = Ok (Object obj') /\ same_object obj obj' /\
        blocks !! Z.to_nat (thunk_block_id obj') = Some symbols /\
        (d ∈ symbols \/
         let start := offset + bytes_before groups fid in
         branch_in_range self db (collect_primary_ranges groups offset) start
           (start + post_gc_primary_bytes obj) d).
Proof.
  intros Hfiles Hsymbols. unfold build.
  destruct (assign_to_groups_ok groups offset Hfiles (branch_range self))
    as (groups' & objects & -> & Hsrc & Hlen & Hblocks). cbn [mbind res_bind].
  destruct (mapM_Ok (block_symbols self db (collect_primary_ranges groups offset)) objects) as (symbols & Hsym & Hf).
  { intros l Hl. destruct (block_symbols_ok self db groups offset Hfiles Hsymbols l) as (k & Hk & _);
      [intros obj' Ho; by eapply Hsrc|by exists k]. }
  rewrite Hsym. cbn [mbind res_bind]. exists groups', (imap (build_block self) symbols). split; [done|].
  pose proof (Forall2_length _ _ _ Hf) as Hlf. split; [|split].
  - apply Forall_lookup. intros i l Hi. rewrite list_lookup_imap in Hi.
    destruct (symbols !! i); [|done]. injection Hi as <-. apply build_block_spec.
  - destruct symbols as [|l symbols]; [cbn in Hlf; lia|]. exists (build_block self 0 l). split; [done|].
    by apply build_block_spec.
  - intros fid obj x flags d Hobj Hpos Hx Hflags Hc Hd.
    destruct (Hblocks fid obj Hobj Hpos) as (obj' & l & Hobj' & Hsame & Hl & Hin).
    destruct (Forall2_lookup_l _ _ _ _ _ Hf Hl) as (k & Hk & Hkl).
    exists obj', (build_block self (Z.to_nat (thunk_block_id obj')) k). split; [done|]. split; [done|].
    split; [by rewrite list_lookup_imap, Hk|].
    destruct (block_symbols_ok self db groups offset Hfiles Hsymbols l) as (k' & Hk' & Hneed).
    { intros o Ho. eapply Hsrc; [by eapply list_elem_of_lookup_2|done]. }
    rewrite Hkl in Hk'. injection Hk' as <-.
    destruct (Hneed fid obj obj' x flags d Hin Hobj Hsame Hx Hflags Hc Hd) as [Hd'|Hrange].
    + left. by apply (proj1 (proj2 (build_block_spec self _ k))).
    + right. apply provably_in_range_sound; [|done].
      destruct Hfiles as [_ Hb Ho _ _]. pose proof (bytes_before_nonneg groups fid Hb). lia.
Qed.

(** Two groups; the function of file (1, 0) is called from all, and symbol 5 is an alias of it. *)
Definition sample_groups : list (list FileLayoutState) :=
  [[Object (mkObject (0, 0) 300 (0, 2) 0 false); OtherFile];
   [Object (mkObject (1, 0) 400 (2, 2) 0 false); Object (mkObject (1, 1) 0 (4, 1) 0 false);
    Object (mkObject (1, 2) 500 (5, 1) 0 false)]].

Definition sample_db : SymbolDb :=
  mkSymbolDb [0; 2; 2; 3; 4; 2]
    [(0, 0); (0, 0); (1, 0); (1, 0); (1, 1); (1, 2)] [7; 7; 7; 7; 9; 7]
    [0; HAS_RANGE_LIMITED_REL; 0; 0; 0; HAS_RANGE_LIMITED_REL].

Definition sample_builder : ThunkLayoutBuilder := mkBuilder 900 7 false [4; 3; 4].

Example sample_build :
  build sample_builder sample_db sample_groups 50 =
    Ok ([[Object (mkObject (0, 0) 300 (0, 2) 0 true); OtherFile];
         [Object (mkObject (1, 0) 400 (2, 2) 0 false); Object (mkObject (1, 1) 0 (4, 1) 0 false);
          Object (mkObject (1, 2) 500 (5, 1) 1 true)]], [[3; 4]; [2]]).
Proof. by vm_compute. Qed.

Lemma sample_files_wf : files_wf sample_groups 50.
Proof.
  split; try (vm_compute; congruence); [|repeat constructor; vm_compute; congruence].
  intros fid obj Hf. apply enumerate_files_elem in Hf. cbn in Hf.
  repeat (apply elem_of_cons in Hf as [Hf|Hf]; [injection Hf; intros; subst; done || discriminate|]).
  by apply not_elem_of_nil in Hf.
Qed.

Lemma sample_symbols_wf x : 0 <= x < 6 -> symbol_wf sample_db sample_groups x.
Proof.
  intros Hx. assert (x = 0 \/ x = 1 \/ x = 2 \/ x = 3 \/ x = 4 \/ x = 5) as Hcases by lia.
  destruct Hcases as [->|[->|[->|[->|[->| ->]]]]]; (split; [by eexists|]); eexists; (split; [reflexivity|]);
    (split; [by eexists|]); (split; [by eexists|]); eexists; (split; [reflexivity|]); by eexists.
Qed.

Lemma needed_thunks_allocated_witness :
  exists groups' blocks, build sample_builder sample_db sample_groups 50 = Ok (groups', blocks) /\
    Forall (StronglySorted Z.lt) blocks /\
    (exists first, blocks !! 0%nat = Some first /\ [4; 3; 4] ⊆ first) /\
    forall fid obj x flags d, index_file sample_groups fid = Ok (Object obj) -> 0 < post_gc_primary_bytes obj ->
      x ∈ object_symbol_ids obj -> index (per_symbol_flags sample_db) x = Ok flags ->
      contains flags HAS_RANGE_LIMITED_REL = true -> definition (symbol_definitions sample_db) x = Ok d ->
      exists obj' symbols, index_file groups' fid = Ok (Object obj') /\ same_object obj obj' /\
        blocks !! Z.to_nat (thunk_block_id obj') = Some symbols /\
        (d ∈ symbols \/
         let start := 50 + bytes_before sample_groups fid in
         branch_in_range sample_builder sample_db (collect_primary_ranges sample_groups 50) start
           (start + post_gc_primary_bytes obj) d).
Proof.
  apply (needed_thunks_allocated sample_builder sample_db sample_groups 50 sample_files_wf).
  intros fid obj x Hf Hx. apply sample_symbols_wf. apply enumerate_files_elem in Hf.
  unfold object_symbol_ids in Hx. apply elem_of_seqZ in Hx. cbn in Hf.
  repeat (apply elem_of_cons in Hf as [Hf|Hf];
    [first [discriminate | injection Hf; intros; subst; cbn in Hx; lia]|]).
  by apply not_elem_of_nil in Hf.
Defined.

(** C40. Thunk blocks partition the objects and are close to them. The calls of [assign]
    concern each file once and name the blocks that are counted, each of which has one owner,
    whose end is where the block is placed. For objects that follow each other (in the order
    of their addresses and without overlap), each ending at most [m] after the end of the one
    before it, gaps included: the end of every object is less than the branch range after
    the block it is assigned to, and the block is at most [m] and the branch range (or,
    should [m] be larger, twice [m]) after the start of the object. So what is kept below
    the branch range itself is the distance back to a block; the distance forward can exceed
    it, by up to [m] (see [block_beyond_range]). There are fewer than 2^31 objects and they
    end below 2^63. *)
Theorem thunk_blocks_in_reach objects range m pos :
  0 < range -> 0 <= m -> 0 <= pos -> follow m pos objects ->
  Z.of_nat (length objects) < 2 ^ 31 ->
  let calls := (assign_thunk_blocks objects range).1 in
  let num_blocks := (assign_thunk_blocks objects range).2 in
  calls.*1.*1 ≡ₚ objects.*1.*1 /\ owned_blocks calls = seqZ 0 num_blocks /\
  Forall (fun c : assignment => 0 <= c.1.2 < num_blocks) calls /\
  forall f start end_, (f, start, end_) ∈ objects ->
    exists b o at_, (f, b, o) ∈ calls /\ block_at calls objects b at_ /\ in_reach range m at_ start end_.
Proof.
  intros Hr Hm Hpos Hc Hlen. cbv zeta.
  destruct (assign_thunk_blocks_spec objects range Hlen) as (Hperm & _ & Hown & Hblk).
  split; [done|]. split; [done|]. split; [done|]. clear Hperm Hown Hblk. destruct objects as [|[[f0 s0] e0] objects]; cbn [assign_thunk_blocks].
  { intros f s e Hin. by apply not_elem_of_nil in Hin. }
  cbn [follow length] in *. destruct Hc as (Hse & Hem & Hc).
  pose proof (assign_loop_reach range m objects 1 0 e0 None e0 Hm Hr ltac:(lia) Hc ltac:(lia) ltac:(lia)) as H.
  cbv zeta in H. destruct (assign_loop _ _ _ _ _ _) as [calls n]. cbn [fst] in *.
  assert (block_at ((f0, 0, true) :: calls) ((f0, s0, e0) :: objects) 0 e0) as Hfirst
    by (exists f0, s0; split; by left).
  intros f s e [[= -> -> ->]|Hin]%elem_of_cons.
  - exists 0, true, e0. split; [by left|]. split; [done|]. unfold in_reach. lia.
  - destruct (H f s e Hin) as (b & o & Hb & Hreach). exists b, o.
    destruct Hreach as [[-> Hreach]|(at_ & Hat & Hreach)].
    + exists e0. split; [by right|]. by split.
    + exists at_. split; [by right|]. split; [|done].
      eapply block_at_mono; [..|exact Hat]; intros x Hx; by right.
Qed.

Lemma thunk_blocks_in_reach_witness :
  let objects := [((0, 0), 0, 100); ((0, 1), 300, 400); ((0, 2), 600, 700); ((0, 3), 900, 1000); ((0, 4), 1200, 1300)] in
  let calls := (assign_thunk_blocks objects 500).1 in
  let num_blocks := (assign_thunk_blocks objects 500).2 in
  calls.*1.*1 ≡ₚ objects.*1.*1 /\ owned_blocks calls = seqZ 0 num_blocks /\
  Forall (fun c : assignment => 0 <= c.1.2 < num_blocks) calls /\
  forall f start end_, (f, start, end_) ∈ objects ->
    exists b o at_, (f, b, o) ∈ calls /\ block_at calls objects b at_ /\ in_reach 500 300 at_ start end_.
Proof.
  apply (thunk_blocks_in_reach
    [((0, 0), 0, 100); ((0, 1), 300, 400); ((0, 2), 600, 700); ((0, 3), 900, 1000); ((0, 4), 1200, 1300)] 500 300 0);
    [lia|lia|lia|cbn; lia|cbn; lia].
Defined.

(** The margin is needed: with a range of 500, the third object is 700 bytes away
    from the end of the one that owns its block. *)
Lemma block_beyond_range :
  let calls := (assign_thunk_blocks
    [((0, 0), 0, 100); ((0, 1), 300, 400); ((0, 2), 600, 700); ((0, 3), 900, 1000); ((0, 4), 1200, 1300)] 500).1 in
  ((0, 2), 1, false) ∈ calls /\ ((0, 4), 1, true) ∈ calls /\ 1300 - 600 > 500.
Proof. cbv zeta. split; [|split; [|lia]]; apply (bool_decide_unpack _); by vm_compute. Qed.

(** A thunk reaches its target: for a thunk and a target whose pages are less
    than 4GB apart, the twelve bytes written are ADRP x16, ADD x16, x16 and BR x16, and the
    address the first two compute is the target. *)
Theorem thunk_reaches_target thunk_address target_address buf :
  in_u 64 thunk_address -> in_u 64 target_address -> length buf = 12%nat ->
  - 2 ^ 32 <= page target_address - page thunk_address < 2 ^ 32 ->
  exists adrp add x y,
    write_thunk thunk_address target_address buf = Ok (le_bytes 4 adrp ++ le_bytes 4 add ++ le_bytes 4 0xD61F0200) /\
    in_u 32 adrp /\ Z.land adrp (Z.lnot (AArch64.field_mask A64.Adr)) = 0x90000010 /\
    in_u 32 add /\ Z.land add (Z.lnot (AArch64.field_mask A64.Add)) = 0x91000210 /\
    AArch64.read_value A64.Adr (le_bytes 4 adrp) = Ok (x, false) /\
    AArch64.read_value A64.Add (le_bytes 4 add) = Ok (y, false) /\
    wadd 64 (wadd 64 (page thunk_address) (wmul 64 4096 x)) y = target_address.
Proof.
  intros Hp Ht Hlen Hd. unfold write_thunk. rewrite Hlen. cbn [length THUNK_TEMPLATE Nat.eqb negb].
  rewrite !thunk_land_page by done.
  destruct (thunk_page_count thunk_address target_address Hp Ht Hd) as [Hcount Hsign].
  set (count := Z.land (wrap 64 (Z.quot _ _)) _) in *. clearbody count.
  assert (Z.land target_address PAGE_MASK_4KB = target_address mod 4096) as ->
    by (change PAGE_MASK_4KB with (Z.ones 12); by rewrite Z.land_ones).
  assert (in_u 12 (target_address mod 4096)) as Hlow by (apply Z.mod_pos_bound; lia).
  change (slice THUNK_TEMPLATE 0 4) with (Ok (le_bytes 4 0x90000010 ++ []) : res (list Z)).
  change (slice THUNK_TEMPLATE 4 8) with (Ok (le_bytes 4 0x91000210 ++ []) : res (list Z)).
  change (drop 8 THUNK_TEMPLATE) with (le_bytes 4 0xD61F0200). cbn [mbind res_bind].
  rewrite aarch64_write_to_value_word by (done || (vm_compute; split; congruence)). cbn [mbind res_bind].
  rewrite aarch64_write_to_value_word by (done || (vm_compute; split; congruence)). cbn [mbind res_bind].
  rewrite !app_nil_r.
  exists (write_word A64.Adr count false 0x90000010), (write_word A64.Add (target_address mod 4096) false 0x91000210),
    (wrap 64 ((page target_address - page thunk_address) / 4096)), (target_address mod 4096).
  split; [done|].
  split; [apply write_word_range; [done|vm_compute; split; congruence]|].
  split; [rewrite write_word_frame by (done || (vm_compute; split; congruence)); by vm_compute|].
  split; [apply write_word_range; [done|vm_compute; split; congruence]|].
  split; [rewrite write_word_frame by (done || (vm_compute; split; congruence)); by vm_compute|].
  split; [|split; [|by apply adrp_add_arith]].
  - rewrite <- (app_nil_r (le_bytes 4 _)), aarch64_read_write_word by (done || (vm_compute; split; congruence)).
    cbn [read_back keeps_sign field_width andb]. by rewrite <- Hsign.
  - by rewrite <- (app_nil_r (le_bytes 4 _)), aarch64_read_write_word by (done || (vm_compute; split; congruence)).
Qed.

Lemma thunk_reaches_target_witness :
  exists adrp add x y,
    write_thunk 0x8000ffc 0x123456 (replicate 12 0) =
      Ok (le_bytes 4 adrp ++ le_bytes 4 add ++ le_bytes 4 0xD61F0200) /\
    in_u 32 adrp /\ Z.land adrp (Z.lnot (AArch64.field_mask A64.Adr)) = 0x90000010 /\
    in_u 32 add /\ Z.land add (Z.lnot (AArch64.field_mask A64.Add)) = 0x91000210 /\
    AArch64.read_value A64.Adr (le_bytes 4 adrp) = Ok (x, false) /\
    AArch64.read_value A64.Add (le_bytes 4 add) = Ok (y, false) /\
    wadd 64 (wadd 64 (page 0x8000ffc) (wmul 64 4096 x)) y = 0x123456.
Proof. apply (thunk_reaches_target 0x8000ffc 0x123456 (replicate 12 0)); vm_compute; done || (split; congruence). Defined.
