(* ===== verification/Trie.v ===== *)
(** The exports trie of Mach-O files ([libjdxld/src/trie.rs]): the tree of the sorted names
    ([new_topology]), its nodes and edges ([build_nodes]), the loop that settles offsets and
    the sizes of their encodings ([layout_until_stable]) and the bytes ([encode]).

    [walk] is the reader's side, as a dynamic loader searches the trie.  The invariant
    [links] says that the first, last and sibling indices of the nodes describe lists of
    children; [tree] says what those lists mean for the names.  Indices and sizes are
    naturals: they count elements of vectors in memory.  The [leb128] crate is the class
    [Leb128], with what its format promises as [Leb128Laws]. *)
From Stdlib Require Import ZArith Lia Sorted.
From stdpp Require Import base list list_numbers numbers strings option sorting sets relations.
From S2P Require Import Prelude.

Local Open Scope nat_scope.

(** ** The [leb128] crate *)
Class Leb128 := {
  write_uleb128 : Z -> list Z;
  uleb128_size : Z -> nat
}.

(** What the format promises: numbers of 64 bits read back, the announced size is
    right, larger numbers are not shorter, and those of seven bits take one byte. *)
Class Leb128Laws (W : Leb128) : Prop := {
  read_write v rest : in_u 64 v -> uleb_decode (write_uleb128 v ++ rest) = Some (v, rest);
  write_size v : in_u 64 v -> length (write_uleb128 v) = uleb128_size v;
  size_pos v : 1 <= uleb128_size v;
  size_bound v : uleb128_size v <= 10;
  size_mono v w : (0 <= v <= w)%Z -> uleb128_size v <= uleb128_size w;
  size_small v : (0 <= v < 128)%Z -> uleb128_size v = 1
}.

(** ** Data *)
Record Symbol := mkSymbol { name : list Z; address : Z; flags : Z }.

Record Node := mkNode {
  node_address : option Z;
  node_flags : Z;
  first_edge : nat;
  num_edges : nat;
  offset : nat;
  size : nat
}.

Record Edge := mkEdge { label : list Z; child : nat; child_offset_size : nat }.

Record UncompressedNode := mkUncompressed {
  symbol : option nat;
  representative : nat;
  depth : nat;
  first_child : option nat;
  last_child : option nat;
  previous_sibling : option nat;
  next_sibling : option nat;
  num_children : nat
}.

Definition default_node : UncompressedNode := mkUncompressed None 0 0 None None None None 0.

(** [v[i]] and [v[i].field = x]. *)
Definition get {A} (v : list A) (i : nat) : res A := match v !! i with Some x => Ok x | None => Panic end.
Definition modify {A} (v : list A) (i : nat) (f : A -> A) : res (list A) :=
  x ← get v i; Ok (<[i := f x]> v).

Definition unwrap {A} (o : option A) : res A := match o with Some x => Ok x | None => Panic end.

Definition set_symbol (s : option nat) (n : UncompressedNode) : UncompressedNode :=
  mkUncompressed s (representative n) (depth n) (first_child n) (last_child n) (previous_sibling n)
    (next_sibling n) (num_children n).
Definition set_first_child (c : option nat) (n : UncompressedNode) : UncompressedNode :=
  mkUncompressed (symbol n) (representative n) (depth n) c (last_child n) (previous_sibling n)
    (next_sibling n) (num_children n).
Definition set_last_child (c : option nat) (n : UncompressedNode) : UncompressedNode :=
  mkUncompressed (symbol n) (representative n) (depth n) (first_child n) c (previous_sibling n)
    (next_sibling n) (num_children n).
Definition set_previous_sibling (c : option nat) (n : UncompressedNode) : UncompressedNode :=
  mkUncompressed (symbol n) (representative n) (depth n) (first_child n) (last_child n) c
    (next_sibling n) (num_children n).
Definition set_next_sibling (c : option nat) (n : UncompressedNode) : UncompressedNode :=
  mkUncompressed (symbol n) (representative n) (depth n) (first_child n) (last_child n)
    (previous_sibling n) c (num_children n).
Definition set_num_children (k : nat) (n : UncompressedNode) : UncompressedNode :=
  mkUncompressed (symbol n) (representative n) (depth n) (first_child n) (last_child n)
    (previous_sibling n) (next_sibling n) k.

(** ** [Topology::new] *)
Fixpoint common_prefix (a b : list Z) : nat :=
  match a, b with
  | x :: a, y :: b => if (x =? y)%Z then S (common_prefix a b) else 0
  | _, _ => 0
  end.

(** The path to the previous symbol, deepest node first. *)
Fixpoint pop_path (nodes : list UncompressedNode) (common : nat) (path : list nat) : res (list nat) :=
  match path with
  | [] => Panic
  | p :: rest => n ← get nodes p; if common <? depth n then pop_path nodes common rest else Ok path
  end.

Definition append_child (nodes : list UncompressedNode) (parent child : nat) : res (list UncompressedNode) :=
  p ← get nodes parent;
  let previous := last_child p in
  nodes ← modify nodes child (set_previous_sibling previous);
  nodes ← (match previous with
           | Some s => modify nodes s (set_next_sibling (Some child))
           | None => modify nodes parent (set_first_child (Some child))
           end);
  nodes ← modify nodes parent (set_last_child (Some child));
  modify nodes parent (fun n => set_num_children (num_children n + 1) n).

(** The node between [parent] and its last child, at the end of the common prefix. *)
Definition split_edge (nodes : list UncompressedNode) (parent symbol_index common : nat) :
    res (list UncompressedNode) :=
  p ← get nodes parent;
  previous_child ← unwrap (last_child p);
  c ← get nodes previous_child;
  let previous := previous_sibling c in
  let branch := length nodes in
  let nodes := nodes ++ [mkUncompressed None (symbol_index - 1) common (Some previous_child)
                           (Some previous_child) previous None 1] in
  nodes ← modify nodes previous_child (set_previous_sibling None);
  nodes ← (match previous with
           | Some s => modify nodes s (set_next_sibling (Some branch))
           | None => modify nodes parent (set_first_child (Some branch))
           end);
  modify nodes parent (set_last_child (Some branch)).

(** The body of the loop over symbols, on the nodes and the path. First the node for the
    prefix shared with the previous name, which becomes the top of the path. *)
Definition find_parent (symbol_index common : nat) (state : list UncompressedNode * list nat) :
    res (list UncompressedNode * list nat * nat) :=
  let '(nodes, path) := state in
  path ← pop_path nodes common path;
  parent ← unwrap (head path);
  p ← get nodes parent;
  if depth p <? common then
    let branch := length nodes in
    nodes ← split_edge nodes parent symbol_index common;
    Ok (nodes, branch :: path, branch)
  else Ok (nodes, path, parent).

Definition add_symbol (previous_name : list Z) (symbol_index : nat) (sym : Symbol)
    (state : list UncompressedNode * list nat) : res (list UncompressedNode * list nat) :=
  '(nodes, path, parent) ← find_parent symbol_index (common_prefix previous_name (name sym)) state;
  p ← get nodes parent;
  if depth p =? length (name sym) then
    nodes ← modify nodes parent (set_symbol (Some symbol_index));
    Ok (nodes, path)
  else
    let child := length nodes in
    nodes ← append_child
              (nodes ++ [mkUncompressed (Some symbol_index) symbol_index (length (name sym)) None None None None 0])
              parent child;
    Ok (nodes, child :: path).

Fixpoint add_symbols (previous_name : list Z) (symbol_index : nat) (symbols : list Symbol)
    (state : list UncompressedNode * list nat) : res (list UncompressedNode * list nat) :=
  match symbols with
  | [] => Ok state
  | sym :: symbols =>
      state ← add_symbol previous_name symbol_index sym state;
      add_symbols (name sym) (S symbol_index) symbols state
  end.

Definition new_topology (symbols : list Symbol) : res (list UncompressedNode) :=
  '(nodes, _) ← add_symbols [] 0 symbols ([default_node], [0]);
  Ok nodes.

(** ** The builder *)
Section Builder.
Context `{W : Leb128}.

(** The children of a node, along the sibling links. *)
Fixpoint siblings (fuel : nat) (topology : list UncompressedNode) (c : option nat) : res (list nat) :=
  match c with
  | None => Ok []
  | Some i =>
      match fuel with
      | O => Panic
      | S fuel =>
          n ← get topology i;
          rest ← siblings fuel topology (next_sibling n);
          Ok (i :: rest)
      end
  end.

(** [name[lo..hi]]. *)
Definition name_slice (l : list Z) (lo hi : nat) : res (list Z) :=
  if (lo <=? hi) && (hi <=? length l) then Ok (take (hi - lo) (drop lo l)) else Panic.

Definition build_edge (symbols : list Symbol) (topology : list UncompressedNode) (source : UncompressedNode)
    (child_index : nat) : res Edge :=
  c ← get topology child_index;
  sym ← get symbols (representative c);
  l ← name_slice (name sym) (depth source) (depth c);
  Ok (mkEdge l child_index 1).

(** [build_nodes_from_topology]. *)
Fixpoint build_nodes (symbols : list Symbol) (topology sources : list UncompressedNode) (edges : list Edge) :
    res (list Node * list Edge) :=
  match sources with
  | [] => Ok ([], edges)
  | source :: sources =>
      '(a, f) ← (match symbol source with
                 | None => Ok (None, 0%Z)
                 | Some i => sym ← get symbols i; Ok (Some (address sym), flags sym)
                 end);
      kids ← siblings (length topology) topology (first_child source);
      new_edges ← mapM (build_edge symbols topology source) kids;
      '(nodes, all_edges) ← build_nodes symbols topology sources (edges ++ new_edges);
      Ok (mkNode a f (length edges) (num_children source) 0 0 :: nodes, all_edges)
  end.

Definition regular_export_size (f a : Z) : nat := uleb128_size f + uleb128_size a.

Definition node_edges (edges : list Edge) (n : Node) : res (list Edge) :=
  if first_edge n + num_edges n <=? length edges then Ok (take (num_edges n) (drop (first_edge n) edges))
  else Panic.

Definition edge_size (e : Edge) : nat := length (label e) + 1 + child_offset_size e.

Definition terminal_size (n : Node) : nat :=
  match node_address n with Some a => regular_export_size (node_flags n) a | None => 0 end.

Definition node_size (edges : list Edge) (n : Node) : res nat :=
  es ← node_edges edges n;
  Ok (uleb128_size (Z.of_nat (terminal_size n)) + terminal_size n + 1 + sum_list_with edge_size es).

(** One round of [layout_until_stable]: the offsets, then the sizes of the child offsets. *)
Fixpoint layout_nodes (edges : list Edge) (nodes : list Node) (pos : nat) : res (list Node) :=
  match nodes with
  | [] => Ok []
  | n :: nodes =>
      s ← node_size edges n;
      rest ← layout_nodes edges nodes (pos + s);
      Ok (mkNode (node_address n) (node_flags n) (first_edge n) (num_edges n) pos s :: rest)
  end.

Definition update_edge (nodes : list Node) (e : Edge) : res Edge :=
  n ← get nodes (child e);
  Ok (mkEdge (label e) (child e) (uleb128_size (Z.of_nat (offset n)))).

Definition edge_changed (e e' : Edge) : bool := negb (child_offset_size e =? child_offset_size e').

Fixpoint layout_until_stable (fuel : nat) (nodes : list Node) (edges : list Edge) :
    res (option (list Node * list Edge)) :=
  match fuel with
  | O => Ok None
  | S fuel =>
      nodes ← layout_nodes edges nodes 0;
      new_edges ← mapM (update_edge nodes) edges;
      if existsb (fun p => edge_changed p.1 p.2) (zip edges new_edges) then
        layout_until_stable fuel nodes new_edges
      else Ok (Some (nodes, new_edges))
  end.

Definition encode_edge (nodes : list Node) (e : Edge) : res (list Z) :=
  n ← get nodes (child e);
  Ok (label e ++ [0%Z] ++ write_uleb128 (Z.of_nat (offset n))).

Definition encode_node (nodes : list Node) (edges : list Edge) (n : Node) : res (list Z) :=
  let terminal :=
    match node_address n with
    | Some a =>
        write_uleb128 (Z.of_nat (regular_export_size (node_flags n) a)) ++
        write_uleb128 (node_flags n) ++ write_uleb128 a
    | None => write_uleb128 0
    end in
  es ← node_edges edges n;
  encoded ← mapM (encode_edge nodes) es;
  Ok (terminal ++ [wrap 8 (Z.of_nat (num_edges n))] ++ concat encoded).

Definition encode (nodes : list Node) (edges : list Edge) : res (list Z) :=
  encoded ← mapM (encode_node nodes edges) nodes; Ok (concat encoded).

Definition encoded_size (nodes : list Node) : nat :=
  match last nodes with Some n => offset n + size n | None => 0 end.

(** The nodes and edges of a topology, laid out; ten rounds per edge are enough
    ([layout_until_stable_total]). *)
Definition laid_out (symbols : list Symbol) (topology : list UncompressedNode) :
    res (option (list Node * list Edge)) :=
  '(nodes, edges) ← build_nodes symbols topology topology [];
  layout_until_stable (10 * length edges + 1) nodes edges.

Definition build_with_topology (symbols : list Symbol) (topology : list UncompressedNode) :
    res (option (list Z)) :=
  match symbols with
  | [] => Ok (Some [])
  | _ =>
      r ← laid_out symbols topology;
      match r with
      | Some (nodes, edges) => out ← encode nodes edges; Ok (Some out)
      | None => Ok None
      end
  end.

Definition size_with_topology (symbols : list Symbol) (topology : list UncompressedNode) :
    res (option nat) :=
  match symbols with
  | [] => Ok (Some 0)
  | _ =>
      r ← laid_out symbols topology;
      Ok (match r with Some (nodes, _) => Some (encoded_size nodes) | None => None end)
  end.

Definition build_sorted (symbols : list Symbol) : res (option (list Z)) :=
  topology ← new_topology symbols; build_with_topology symbols topology.

(** What [finalise_sizes_epilogue] of [macho.rs] reserves before any address is known: the size of
    a trie in which every address is [u64::MAX] and no symbol has flags; the topology is
    kept. *)
Definition reserved_exports (names : list (list Z)) : list Symbol :=
  map (fun n => mkSymbol n (2 ^ 64 - 1) 0) names.

Definition reserve_exports (names : list (list Z)) : res (list UncompressedNode * option nat) :=
  let exports := reserved_exports names in
  topology ← new_topology exports;
  exports_size ← size_with_topology exports topology;
  Ok (topology, exports_size).

(** The end of [build_exports_trie] of [macho_writer.rs]: the kept topology is used when every
    definition survived. *)
Definition write_exports (symbols : list Symbol) (num_definitions : nat) (topology : list UncompressedNode) :
    res (option (list Z)) :=
  if length symbols =? num_definitions then build_with_topology symbols topology else build_sorted symbols.

End Builder.

(** ** Specification: looking a name up in a trie *)
Fixpoint take_label (l : list Z) : option (list Z * list Z) :=
  match l with
  | [] => None
  | b :: l => if (b =? 0)%Z then Some ([], l) else '(s, rest) ← take_label l; Some (b :: s, rest)
  end.

(** The first of [n] edges whose label the name starts with. *)
Fixpoint find_edge (n : nat) (l : list Z) (q : list Z) : option (list Z * Z) :=
  match n with
  | O => None
  | S n =>
      '(s, l) ← take_label l;
      '(target, l) ← uleb_decode l;
      if bool_decide (s `prefix_of` q) then Some (drop (length s) q, target) else find_edge n l q
  end.

(** Flags and address of a name, from the node at [pos]. *)
Fixpoint walk (fuel : nat) (trie : list Z) (pos : nat) (q : list Z) : option (Z * Z) :=
  '(terminal, body) ← uleb_decode (drop pos trie);
  match q with
  | [] =>
      if (terminal =? 0)%Z then None
      else '(f, body) ← uleb_decode body; '(a, _) ← uleb_decode body; Some (f, a)
  | _ =>
      match fuel, drop (Z.to_nat terminal) body with
      | S fuel, n :: edges => '(q, target) ← find_edge (Z.to_nat n) edges q; walk fuel trie (Z.to_nat target) q
      | _, _ => None
      end
  end.

(** *** Names in order *)

(** The order of byte strings. *)
Fixpoint name_lt (a b : list Z) : Prop :=
  match a, b with
  | _, [] => False
  | [], _ :: _ => True
  | x :: a, y :: b => (x < y)%Z \/ x = y /\ name_lt a b
  end.

(** What the callers promise: names ascend, without duplicates and zero bytes, and
    addresses and flags are 64-bit numbers. *)
Record symbols_wf (symbols : list Symbol) : Prop := {
  wf_sorted : StronglySorted (fun a b => name_lt (name a) (name b)) symbols;
  wf_bytes : Forall (fun s => Forall (fun b => 0 < b < 256)%Z (name s)) symbols;
  wf_numbers : Forall (fun s => in_u 64 (address s) /\ in_u 64 (flags s)) symbols
}.

(** ** Lemmas about names *)
Lemma common_prefix_spec a b :
  take (common_prefix a b) a = take (common_prefix a b) b /\
  common_prefix a b <= length a /\ common_prefix a b <= length b /\
  forall q, q `prefix_of` a -> q `prefix_of` b -> length q <= common_prefix a b.
Proof.
  revert b. induction a as [|x a IH]; intros [|y b]; cbn [common_prefix];
    try (split_and!; cbn; try lia; [done|]; intros q Ha Hb; apply prefix_length in Ha, Hb; cbn in *; lia).
  destruct (Z.eqb_spec x y) as [->|Hne].
  - destruct (IH b) as (H1 & H2 & H3 & H4). cbn. split_and!; [by rewrite H1|lia|lia|].
    intros [|z q] Ha Hb; [cbn; lia|]. pose proof Ha as Ha'. apply prefix_cons_inv_1 in Ha' as ->.
    apply prefix_cons_inv_2 in Ha, Hb. specialize (H4 q Ha Hb). cbn. lia.
  - cbn. split_and!; try lia; [done|]. intros [|z q] Ha Hb; [cbn; lia|].
    apply prefix_cons_inv_1 in Ha, Hb. congruence.
Qed.

Lemma name_lt_irrefl a : ~ name_lt a a.
Proof. induction a as [|x a IH]; cbn; [by intros []|]. intros [?|[_ ?]]; [lia|done]. Qed.

Lemma name_lt_prefix a b : name_lt a b -> ~ b `prefix_of` a.
Proof.
  revert b. induction a as [|x a IH]; intros [|y b]; cbn; try done.
  - intros _ H. by apply prefix_nil_inv in H.
  - intros H Hp. pose proof Hp as Hp'. apply prefix_cons_inv_1 in Hp'. apply prefix_cons_inv_2 in Hp.
    destruct H as [?|[_ H]]; [lia|]. by apply (IH b).
Qed.

(** A common prefix of the outer two of three ordered names is one of the middle name. *)
Lemma name_lt_between a b c q :
  name_lt a b -> name_lt b c -> q `prefix_of` a -> q `prefix_of` c -> q `prefix_of` b.
Proof.
  revert a b c. induction q as [|z q IH]; intros a b c Hab Hbc Ha Hc; [apply prefix_nil|].
  destruct a as [|x a]; [by apply prefix_nil_inv in Ha|].
  destruct c as [|w c]; [by apply prefix_nil_inv in Hc|].
  pose proof (prefix_cons_inv_1 _ _ _ _ Ha) as ->. pose proof (prefix_cons_inv_1 _ _ _ _ Hc) as <-.
  apply prefix_cons_inv_2 in Ha, Hc. destruct b as [|y b]; [done|]. cbn in Hab, Hbc.
  assert (x = y) as -> by lia. apply prefix_cons. apply (IH a b c); [|..]; try done.
  - destruct Hab as [?|[_ ?]]; [lia|done].
  - destruct Hbc as [?|[_ ?]]; [lia|done].
Qed.

(** Where ordered names part, the later one has a larger byte or the earlier one ends. *)
Lemma name_lt_parts a b :
  name_lt a b ->
  common_prefix a b < length b /\
  forall x y, a !! common_prefix a b = Some x -> b !! common_prefix a b = Some y -> (x < y)%Z.
Proof.
  revert b. induction a as [|x a IH]; intros [|y b]; cbn [name_lt common_prefix]; try done.
  - intros _. split; [cbn; lia|done].
  - intros H. destruct (Z.eqb_spec x y) as [->|Hne]; cbn.
    + destruct H as [?|[_ H]]; [lia|]. destruct (IH b H) as [H1 H2]. split; [lia|done].
    + split; [lia|]. intros ? ? [= <-] [= <-]. lia.
Qed.

(** ** The linked nodes *)
Lemma alter_lookup {A} (f : A -> A) i (v : list A) j :
  alter f i v !! j = (if decide (i = j) then f else id) <$> v !! j.
Proof.
  case_decide as E.
  - subst. apply list_lookup_alter_eq.
  - rewrite list_lookup_alter_ne by done. by destruct (v !! j).
Qed.

Lemma modify_alter {A} (v : list A) i f : is_Some (v !! i) -> modify v i f = Ok (alter f i v).
Proof.
  intros [x Hx]. unfold modify, get. rewrite Hx. cbn [mbind res_bind]. f_equal. apply list_eq. intros j.
  destruct (decide (i = j)) as [->|Hne].
  - rewrite list_lookup_insert_eq by (exact (lookup_lt_Some _ _ _ Hx)).
    rewrite alter_lookup, Hx, decide_True by done. done.
  - rewrite list_lookup_insert_ne by done. by rewrite list_lookup_alter_ne by done.
Qed.

(** What a node says apart from its links. *)
Definition payload (n : UncompressedNode) : option nat * nat * nat := (symbol n, representative n, depth n).

(** The links describe the children [kids !! p] of every node [p]. *)
Record links (nodes : list UncompressedNode) (kids : list (list nat)) : Prop := {
  lk_length : length kids = length nodes;
  lk_node p ks n : kids !! p = Some ks -> nodes !! p = Some n ->
    first_child n = head ks /\ last_child n = last ks /\ num_children n = length ks;
  lk_sibling p ks j c n : kids !! p = Some ks -> ks !! j = Some c -> nodes !! c = Some n ->
    previous_sibling n = match j with O => None | S i => ks !! i end /\ next_sibling n = ks !! S j;
  lk_range p ks c : kids !! p = Some ks -> c ∈ ks -> 0 < c < length nodes;
  lk_unique p p' ks ks' j j' c : kids !! p = Some ks -> kids !! p' = Some ks' ->
    ks !! j = Some c -> ks' !! j' = Some c -> p = p' /\ j = j'
}.

Lemma last_of {A} (l : list A) : last l = match length l with O => None | S k => l !! k end.
Proof. rewrite list.last_lookup. by destruct l. Qed.

Lemma links_kids nodes kids p n : links nodes kids -> nodes !! p = Some n -> exists ks, kids !! p = Some ks.
Proof.
  intros Hl Hn. apply lookup_lt_Some in Hn. rewrite <- (lk_length _ _ Hl) in Hn.
  by apply lookup_lt_is_Some in Hn.
Qed.

Lemma links_kid_node nodes kids p ks c :
  links nodes kids -> kids !! p = Some ks -> c ∈ ks -> exists n, nodes !! c = Some n.
Proof. intros Hl Hk Hc. apply lookup_lt_is_Some. by apply (lk_range _ _ Hl p ks). Qed.

(** The effect of [append_child] on the node [j]. *)
Definition appended (ks : list nat) (parent child j : nat) (n : UncompressedNode) : UncompressedNode :=
  mkUncompressed (symbol n) (representative n) (depth n)
    (if decide (j = parent) then match last ks with None => Some child | Some _ => first_child n end else first_child n)
    (if decide (j = parent) then Some child else last_child n)
    (if decide (j = child) then last ks else previous_sibling n)
    match last ks with Some s => if decide (j = s) then Some child else next_sibling n | None => next_sibling n end
    (if decide (j = parent) then num_children n + 1 else num_children n).

Lemma append_child_nodes nodes kids parent ks child :
  links nodes kids -> kids !! parent = Some ks -> child < length nodes ->
  exists nodes', append_child nodes parent child = Ok nodes' /\ length nodes' = length nodes /\
    forall j, nodes' !! j = appended ks parent child j <$> nodes !! j.
Proof.
  intros Hl Hk Hc. unfold append_child.
  assert (parent < length nodes) as Hp by (rewrite <- (lk_length _ _ Hl); by eapply lookup_lt_Some).
  destruct (nodes !! parent) as [n|] eqn:Hn; [|apply lookup_ge_None in Hn; lia].
  destruct (lk_node _ _ Hl _ _ _ Hk Hn) as (Hf & Hla & Hnum).
  unfold get at 1. rewrite Hn. cbn [mbind res_bind].
  rewrite modify_alter by (by apply lookup_lt_is_Some). cbn [mbind res_bind]. rewrite Hla.
  set (v1 := alter _ child nodes).
  assert (length v1 = length nodes) as Hv1 by apply length_alter.
  destruct (last ks) as [s|] eqn:Es.
  - assert (s < length nodes) as Hs
      by (apply (lk_range _ _ Hl parent ks); [done|by apply last_Some_elem_of]).
    rewrite modify_alter by (apply lookup_lt_is_Some; lia). cbn [mbind res_bind].
    rewrite modify_alter by (apply lookup_lt_is_Some; rewrite length_alter; lia). cbn [mbind res_bind].
    rewrite modify_alter by (apply lookup_lt_is_Some; rewrite !length_alter; lia).
    eexists. split; [reflexivity|]. split; [by rewrite !length_alter|]. intros j. subst v1.
    rewrite !alter_lookup. destruct (nodes !! j) as [m|]; [|done]. cbn. f_equal. unfold appended. rewrite Es.
    destruct m. repeat case_decide; subst; done.
  - rewrite modify_alter by (apply lookup_lt_is_Some; lia). cbn [mbind res_bind].
    rewrite modify_alter by (apply lookup_lt_is_Some; rewrite length_alter; lia). cbn [mbind res_bind].
    rewrite modify_alter by (apply lookup_lt_is_Some; rewrite !length_alter; lia).
    eexists. split; [reflexivity|]. split; [by rewrite !length_alter|]. intros j. subst v1.
    rewrite !alter_lookup. destruct (nodes !! j) as [m|]; [|done]. cbn. f_equal. unfold appended. rewrite Es.
    destruct m. repeat case_decide; subst; done.
Qed.

Lemma links_parent_fresh nodes kids p ks c :
  links nodes kids -> kids !! p = Some ks -> c ∈ ks -> c < length nodes.
Proof. intros Hl Hk Hc. by apply (lk_range _ _ Hl p ks). Qed.

(** A node without links is pushed. *)
Lemma push_links nodes kids m :
  links nodes kids -> first_child m = None -> last_child m = None -> num_children m = 0 ->
  links (nodes ++ [m]) (kids ++ [[]]).
Proof.
  intros Hl H1 H2 H3. split.
  - rewrite !length_app, (lk_length _ _ Hl). done.
  - intros p ks n Hk Hn. apply snoc_lookup in Hk as [Hk|[-> ->]], Hn as [Hn|[? ->]].
    + by apply (lk_node _ _ Hl p).
    + subst. apply lookup_lt_Some in Hk. rewrite (lk_length _ _ Hl) in Hk. lia.
    + apply lookup_lt_Some in Hn. rewrite (lk_length _ _ Hl) in Hn. lia.
    + by rewrite H1, H2, H3.
  - intros p ks j c n Hk Hc Hn. apply snoc_lookup in Hk as [Hk|[-> ->]]; [|done].
    rewrite lookup_app_l in Hn by (apply (links_parent_fresh _ _ _ _ _ Hl Hk); by apply list_elem_of_lookup_2 in Hc).
    by apply (lk_sibling _ _ Hl p ks j c).
  - intros p ks c Hk Hc. apply snoc_lookup in Hk as [Hk|[-> ->]]; [|by apply not_elem_of_nil in Hc].
    apply (lk_range _ _ Hl p ks) in Hc; [|done]. rewrite length_app. lia.
  - intros p p' ks ks' j j' c Hk Hk' Hc Hc'.
    apply snoc_lookup in Hk as [Hk|[-> ->]]; [|done]. apply snoc_lookup in Hk' as [Hk'|[-> ->]]; [|done].
    by apply (lk_unique _ _ Hl p p' ks ks' j j' c).
Qed.

Lemma insert_kids (kids : list (list nat)) parent x p ks :
  <[parent := x]> kids !! p = Some ks ->
  p = parent /\ ks = x \/ p <> parent /\ kids !! p = Some ks.
Proof.
  intros H. destruct (decide (p = parent)) as [->|Hne].
  - left. apply list_lookup_insert_Some in H as [(_ & ? & _)|[? _]]; [done|congruence].
  - right. rewrite list_lookup_insert_ne in H by done. done.
Qed.

(** [append_child] on a node that is nobody's child yet. *)
Lemma append_child_links nodes kids parent ks child m :
  links nodes kids -> kids !! parent = Some ks -> nodes !! child = Some m ->
  next_sibling m = None -> 0 < child ->
  (forall p ks, kids !! p = Some ks -> child ∉ ks) ->
  exists nodes', append_child nodes parent child = Ok nodes' /\
    links nodes' (<[parent := ks ++ [child]]> kids) /\ payload <$> nodes' = payload <$> nodes.
Proof.
  intros Hl Hk Hm Hnext Hpos Hfresh.
  assert (child < length nodes) as Hc by (by eapply lookup_lt_Some).
  destruct (append_child_nodes _ _ _ _ _ Hl Hk Hc) as (nodes' & Happ & Hlen & Hat).
  exists nodes'. split; [done|]. split; [split|].
  - rewrite length_insert, Hlen. apply Hl.
  - intros p kp n' Hkp Hn'. rewrite Hat in Hn'. destruct (nodes !! p) as [n|] eqn:Hn; [|done].
    injection Hn' as <-. apply insert_kids in Hkp as [[-> ->]|[Hne Hkp]].
    + destruct (lk_node _ _ Hl _ _ _ Hk Hn) as (H1 & H2 & H3). cbn. rewrite !decide_True by done.
      rewrite last_snoc, length_app, H1, H3. split_and!; [|done|done]. by destruct ks as [|k ks] using rev_ind;
        [|rewrite last_snoc; destruct ks].
    + cbn. rewrite !decide_False by done. by apply (lk_node _ _ Hl p).
  - intros p kp j c n' Hkp Hj Hn'. rewrite Hat in Hn'. destruct (nodes !! c) as [n|] eqn:Hn; [|done].
    injection Hn' as <-. cbn [previous_sibling next_sibling appended]. apply insert_kids in Hkp as [[-> ->]|[Hne Hkp]].
    + apply snoc_lookup in Hj as [Hj|[-> ->]].
      * destruct (lk_sibling _ _ Hl _ _ _ _ _ Hk Hj Hn) as [H1 H2].
        pose proof (list_elem_of_lookup_2 _ _ _ Hj) as Hin. pose proof (lookup_lt_Some _ _ _ Hj) as Hlt.
        rewrite decide_False by (intros ->; by apply (Hfresh parent ks)). split.
        -- rewrite H1. destruct j; [done|]. rewrite lookup_app_l by lia. done.
        -- rewrite last_of. destruct (length ks) as [|k] eqn:Ek; [lia|].
           destruct (ks !! k) as [s|] eqn:Es; [|apply lookup_ge_None in Es; lia].
           case_decide as Ecs.
           ++ subst s. destruct (lk_unique _ _ Hl _ _ _ _ _ _ _ Hk Hk Hj Es) as [_ ->].
              rewrite <- Ek, lookup_app_r, Nat.sub_diag by lia. done.
           ++ rewrite H2. assert (j <> k) by (intros ->; congruence). rewrite lookup_app_l by lia. done.
      * assert (n = m) as -> by congruence. rewrite decide_True by done. rewrite last_of. split.
        -- destruct (length ks) as [|k] eqn:Ek; [done|]. rewrite lookup_app_l by lia. done.
        -- rewrite (lookup_ge_None_2 (ks ++ [child])) by (rewrite length_app; cbn; lia).
           destruct (length ks) as [|k]; [done|]. destruct (ks !! k) as [s|] eqn:Es; [|done].
           rewrite decide_False; [done|]. intros <-. apply list_elem_of_lookup_2 in Es. by apply (Hfresh parent ks).
    + destruct (lk_sibling _ _ Hl _ _ _ _ _ Hkp Hj Hn) as [H1 H2].
      rewrite decide_False by (intros ->; apply list_elem_of_lookup_2 in Hj; by apply (Hfresh p kp)).
      split; [done|]. destruct (last ks) as [s|] eqn:Es; [|done]. rewrite decide_False; [done|]. intros <-.
      apply last_Some_elem_of, list_elem_of_lookup in Es as [i Hi].
      by destruct (lk_unique _ _ Hl _ _ _ _ _ _ _ Hk Hkp Hi Hj) as [? _].
  - rewrite Hlen. intros p kp c Hkp Hin. apply insert_kids in Hkp as [[-> ->]|[Hne Hkp]].
    + apply elem_of_app in Hin as [Hin|Hin%list_elem_of_singleton]; [by apply (lk_range _ _ Hl parent ks)|]. lia.
    + by apply (lk_range _ _ Hl p kp).
  - intros p p' kp kp' j j' c Hkp Hkp' Hj Hj'.
    apply insert_kids in Hkp as [[-> ->]|[Hne Hkp]], Hkp' as [[-> ->]|[Hne' Hkp']];
      repeat match goal with H : (_ ++ [_]) !! _ = Some _ |- _ => apply snoc_lookup in H as [H|[? ?]] end; subst;
      try (by split); try (exfalso; match goal with H : _ !! _ = Some child |- _ =>
             apply list_elem_of_lookup_2 in H; eapply Hfresh in H; by eauto end);
      by eapply (lk_unique _ _ Hl).
  - apply list_eq. intros j. rewrite !list_lookup_fmap, Hat. by destruct (nodes !! j).
Qed.

(** The effect of [split_edge] on the node [j], one of the old nodes. *)
Definition split_node (rest : list nat) (parent c branch j : nat) (n : UncompressedNode) : UncompressedNode :=
  mkUncompressed (symbol n) (representative n) (depth n)
    (if decide (j = parent) then match last rest with None => Some branch | Some _ => first_child n end
     else first_child n)
    (if decide (j = parent) then Some branch else last_child n)
    (if decide (j = c) then None else previous_sibling n)
    match last rest with Some s => if decide (j = s) then Some branch else next_sibling n | None => next_sibling n end
    (num_children n).

Definition branch_node (rest : list nat) (c symbol_index common : nat) : UncompressedNode :=
  mkUncompressed None (symbol_index - 1) common (Some c) (Some c) (last rest) None 1.

(** The sibling before the last child is the last of the other children. *)
Lemma links_previous nodes kids parent rest c n :
  links nodes kids -> kids !! parent = Some (rest ++ [c]) -> nodes !! c = Some n ->
  previous_sibling n = last rest /\ next_sibling n = None.
Proof.
  intros Hl Hk Hn. assert ((rest ++ [c]) !! length rest = Some c) as Hc by (by rewrite lookup_app_r, Nat.sub_diag).
  destruct (lk_sibling _ _ Hl _ _ _ _ _ Hk Hc Hn) as [-> ->]. split.
  - rewrite last_of. destruct (length rest) eqn:E; [done|]. by rewrite lookup_app_l by lia.
  - apply lookup_ge_None_2. rewrite length_app. cbn. lia.
Qed.

Lemma split_edge_nodes nodes kids parent rest c symbol_index common :
  links nodes kids -> kids !! parent = Some (rest ++ [c]) ->
  exists nodes', split_edge nodes parent symbol_index common = Ok nodes' /\
    length nodes' = S (length nodes) /\
    nodes' !! length nodes = Some (branch_node rest c symbol_index common) /\
    forall j, j < length nodes -> nodes' !! j = split_node rest parent c (length nodes) j <$> nodes !! j.
Proof.
  intros Hl Hk. unfold split_edge.
  assert (parent < length nodes) as Hp by (rewrite <- (lk_length _ _ Hl); by eapply lookup_lt_Some).
  assert (forall x, x ∈ rest ++ [c] -> x < length nodes) as Hrange
    by (intros x Hx; by eapply links_parent_fresh).
  assert (c < length nodes) as Hc by (apply Hrange; set_solver).
  destruct (nodes !! parent) as [n|] eqn:Hn; [|apply lookup_ge_None in Hn; lia].
  destruct (nodes !! c) as [m|] eqn:Hm; [|apply lookup_ge_None in Hm; lia].
  destruct (lk_node _ _ Hl _ _ _ Hk Hn) as (_ & Hla & _). rewrite last_snoc in Hla.
  destruct (links_previous _ _ _ _ _ _ Hl Hk Hm) as [Hprev _].
  unfold get at 1 2. rewrite Hn. cbn [mbind res_bind]. rewrite Hla. cbn [unwrap mbind res_bind].
  rewrite Hm. cbn [mbind res_bind]. rewrite Hprev. fold (branch_node rest c symbol_index common).
  set (b := branch_node rest c symbol_index common).
  assert (length (nodes ++ [b]) = S (length nodes)) as Hlb by (rewrite length_app; cbn; lia).
  rewrite modify_alter by (apply lookup_lt_is_Some; lia). cbn [mbind res_bind].
  set (v1 := alter _ c (nodes ++ [b])).
  assert (length v1 = S (length nodes)) as Hv1 by (subst v1; by rewrite length_alter).
  assert (forall x, last rest = Some x -> x < length nodes) as Hlast
    by (intros x Hx; apply Hrange; apply last_Some_elem_of in Hx; set_solver).
  destruct (last rest) as [s|] eqn:Es.
  all: try specialize (Hlast s eq_refl).
  all: rewrite modify_alter by (apply lookup_lt_is_Some; lia); cbn [mbind res_bind].
  all: rewrite modify_alter by (apply lookup_lt_is_Some; rewrite length_alter; lia).
  all: eexists; split; [reflexivity|]; split; [by rewrite !length_alter|]; subst v1; split.
  all: try (rewrite !alter_lookup, lookup_app_r, Nat.sub_diag by lia; rewrite !decide_False by lia; done).
  all: intros j Hj; rewrite !alter_lookup, lookup_app_l by lia.
  all: destruct (nodes !! j) as [x|]; [|done]; cbn; f_equal; unfold split_node; rewrite Es.
  all: destruct x; repeat case_decide; subst; done.
Qed.

Lemma split_kids (kids : list (list nat)) parent x y p ks :
  parent < length kids -> (<[parent := x]> kids ++ [y]) !! p = Some ks ->
  p = parent /\ ks = x \/ p = length kids /\ ks = y \/ p < length kids /\ p <> parent /\ kids !! p = Some ks.
Proof.
  intros Hp H. apply snoc_lookup in H as [H|[-> ->]].
  - apply insert_kids in H as [?|[? H]]; [by left|]. right; right. split_and!; [|done|done].
    by eapply lookup_lt_Some.
  - right; left. by rewrite length_insert.
Qed.

(** The last child is moved below a new node. *)
Lemma split_edge_links nodes kids parent rest c symbol_index common :
  links nodes kids -> kids !! parent = Some (rest ++ [c]) ->
  exists nodes', split_edge nodes parent symbol_index common = Ok nodes' /\
    links nodes' (<[parent := rest ++ [length nodes]]> kids ++ [[c]]) /\
    payload <$> nodes' = (payload <$> nodes) ++ [(None, symbol_index - 1, common)].
Proof.
  intros Hl Hk. destruct (split_edge_nodes _ _ _ _ _ symbol_index common Hl Hk) as (nodes' & Hs & Hlen & Hb & Hat).
  assert (parent < length kids) as Hp by (by eapply lookup_lt_Some).
  pose proof (lk_length _ _ Hl) as Hkl.
  assert (forall j n', nodes' !! j = Some n' ->
    j = length nodes /\ n' = branch_node rest c symbol_index common \/
    j < length nodes /\ exists n, nodes !! j = Some n /\ n' = split_node rest parent c (length nodes) j n) as Hat'.
  { intros j n' Hj. destruct (decide (j < length nodes)) as [Hlt|Hge].
    - right. split; [done|]. rewrite Hat in Hj by done. destruct (nodes !! j) as [n|]; [|done]. exists n.
      split; [done|]. by injection Hj.
    - pose proof (lookup_lt_Some _ _ _ Hj). assert (j = length nodes) as -> by lia. left. split; [done|congruence]. }
  assert ((rest ++ [c]) !! length rest = Some c) as Hclast by (by rewrite lookup_app_r, Nat.sub_diag).
  assert (forall i x, rest !! i = Some x -> (rest ++ [c]) !! i = Some x) as Hrest
    by (intros i x Hx; by apply lookup_app_l_Some).
  assert (forall p ks i x, kids !! p = Some ks -> ks !! i = Some x -> x < length nodes) as Hold.
  { intros p ks i x Hkp Hx. apply (links_parent_fresh nodes kids p ks); [done..|]. by apply list_elem_of_lookup_2 in Hx. }
  exists nodes'. split; [done|]. split; [split|].
  - rewrite length_app, length_insert, Hlen, Hkl. cbn. lia.
  - intros p kp n' Hkp Hn'. apply Hat' in Hn' as [[-> ->]|(Hlt & n & Hn & ->)];
      apply (split_kids _ _ _ _ _ _ Hp) in Hkp as [[? ->]|[[? ->]|(? & Hne & Hkp)]]; try lia.
    + done.
    + subst p. destruct (lk_node _ _ Hl _ _ _ Hk Hn) as (H1 & H2 & H3). cbn. rewrite !decide_True by done.
      rewrite last_snoc, H1, H3, !length_app. split_and!; [|done|done].
      destruct rest as [|k ks] using rev_ind; [done|]. rewrite last_snoc. by destruct ks.
    + cbn. rewrite !decide_False by done. by apply (lk_node _ _ Hl p).
  - intros p kp j x n' Hkp Hj Hn'. apply Hat' in Hn' as [[-> ->]|(Hlt & n & Hn & ->)];
      apply (split_kids _ _ _ _ _ _ Hp) in Hkp as [[-> ->]|[[-> ->]|(? & Hne & Hkp)]].
    + apply snoc_lookup in Hj as [Hj|[-> _]]; [apply Hrest, (Hold _ _ _ _ Hk) in Hj; lia|]. cbn. split.
      * rewrite last_of. destruct (length rest) eqn:E; [done|]. by rewrite lookup_app_l by lia.
      * symmetry. apply lookup_ge_None_2. rewrite length_app. cbn. lia.
    + destruct j as [|j]; [|done]. injection Hj as Hj. apply (Hold _ _ _ _ Hk) in Hclast. lia.
    + apply (Hold _ _ _ _ Hkp) in Hj. lia.
    + apply snoc_lookup in Hj as [Hj|[-> ->]]; [|lia].
      pose proof (lookup_lt_Some _ _ _ Hj) as Hjlt.
      destruct (lk_sibling _ _ Hl _ _ _ _ _ Hk (Hrest _ _ Hj) Hn) as [H1 H2]. cbn. rewrite H1, H2. split.
      * rewrite decide_False; [destruct j; [done|]; by rewrite !lookup_app_l by lia|]. intros ->.
        destruct (lk_unique _ _ Hl _ _ _ _ _ _ _ Hk Hk (Hrest _ _ Hj) Hclast) as [_ ?]. lia.
      * rewrite last_of. destruct (length rest) as [|k] eqn:Ek; [lia|].
        destruct (rest !! k) as [s|] eqn:Es; [|apply lookup_ge_None in Es; lia].
        case_decide as Ecs.
        -- subst s. destruct (lk_unique _ _ Hl _ _ _ _ _ _ _ Hk Hk (Hrest _ _ Hj) (Hrest _ _ Es)) as [_ ->].
           by rewrite <- Ek, lookup_app_r, Nat.sub_diag by lia.
        -- assert (j <> k) by (intros ->; congruence). by rewrite !lookup_app_l by lia.
    + destruct j as [|j]; [|done]. injection Hj as <-. cbn. rewrite decide_True by done. split; [done|].
      destruct (links_previous _ _ _ _ _ _ Hl Hk Hn) as [_ ->]. rewrite last_of.
      destruct (length rest) as [|k]; [done|]. destruct (rest !! k) as [s|] eqn:Es; [|done].
      rewrite decide_False; [done|]. intros ->.
      destruct (lk_unique _ _ Hl _ _ _ _ _ _ _ Hk Hk (Hrest _ _ Es) Hclast) as [_ ?].
      apply lookup_lt_Some in Es. lia.
    + destruct (lk_sibling _ _ Hl _ _ _ _ _ Hkp Hj Hn) as [H1 H2]. cbn. rewrite H1, H2. split.
      * rewrite decide_False; [done|]. intros ->.
        by destruct (lk_unique _ _ Hl _ _ _ _ _ _ _ Hk Hkp Hclast Hj) as [? _].
      * rewrite last_of. destruct (length rest) as [|k]; [done|]. destruct (rest !! k) as [s|] eqn:Es; [|done].
        rewrite decide_False; [done|]. intros <-.
        by destruct (lk_unique _ _ Hl _ _ _ _ _ _ _ Hk Hkp (Hrest _ _ Es) Hj) as [? _].
  - rewrite Hlen. intros p kp x Hkp Hin. apply (split_kids _ _ _ _ _ _ Hp) in Hkp as [[-> ->]|[[-> ->]|(? & Hne & Hkp)]].
    + apply elem_of_app in Hin as [Hin|Hin%list_elem_of_singleton]; [|subst; lia].
      assert (0 < x < length nodes); [|lia]. apply (lk_range _ _ Hl parent (rest ++ [c])); [done|set_solver].
    + apply list_elem_of_singleton in Hin as ->.
      assert (0 < c < length nodes); [|lia]. apply (lk_range _ _ Hl parent (rest ++ [c])); [done|set_solver].
    + assert (0 < x < length nodes); [|lia]. by apply (lk_range _ _ Hl p kp).
  - intros p p' kp kp' j j' x Hkp Hkp' Hj Hj'. rewrite <- Hkl in *.
    assert (forall p kp j, (<[parent:=rest ++ [length kids]]> kids ++ [[c]]) !! p = Some kp -> kp !! j = Some x ->
      (x = length kids /\ p = parent /\ j = length rest) \/
      (x = c /\ p = length kids /\ j = 0) \/
      exists ks, kids !! p = Some ks /\ ks !! j = Some x /\ (p = parent -> j < length rest)) as Hcases.
    { clear -Hp Hk. intros p kp j Hkp Hj. apply (split_kids _ _ _ _ _ _ Hp) in Hkp as [[-> ->]|[[-> ->]|(? & Hne & Hkp)]].
      - apply snoc_lookup in Hj as [Hj|[-> ->]]; [right; right|by left]. exists (rest ++ [c]).
        pose proof (lookup_lt_Some _ _ _ Hj). by rewrite lookup_app_l.
      - destruct j; [|done]. injection Hj as <-. right; left. done.
      - right; right. by exists kp. }
    pose proof (Hold _ _ _ _ Hk Hclast) as Hcb.
    destruct (Hcases _ _ _ Hkp Hj) as [(H1 & -> & ->)|[(H1 & -> & ->)|(ks & H1 & H2 & H3)]],
      (Hcases _ _ _ Hkp' Hj') as [(H1' & -> & ->)|[(H1' & -> & ->)|(ks' & H1' & H2' & H3')]]; subst; try done; try lia.
    + apply (Hold _ _ _ _ H1') in H2'. lia.
    + destruct (lk_unique _ _ Hl _ _ _ _ _ _ _ H1' Hk H2' Hclast) as [? ?]. specialize (H3' ltac:(done)). lia.
    + apply (Hold _ _ _ _ H1) in H2. lia.
    + destruct (lk_unique _ _ Hl _ _ _ _ _ _ _ H1 Hk H2 Hclast) as [? ?]. specialize (H3 ltac:(done)). lia.
    + by eapply (lk_unique _ _ Hl).
  - apply list_eq. intros j. rewrite list_lookup_fmap. destruct (decide (j < length nodes)) as [Hlt|Hge].
    + rewrite Hat, lookup_app_l, list_lookup_fmap by (by rewrite ?length_fmap). by destruct (nodes !! j).
    + rewrite lookup_app_r, length_fmap by (rewrite length_fmap; lia).
      destruct (j - length nodes) as [|k] eqn:E.
      * assert (j = length nodes) as -> by lia. by rewrite Hb.
      * rewrite (lookup_ge_None_2 nodes') by lia. done.
Qed.

(** ** The tree of names *)
Section Tree.
Context (symbols : list Symbol).

(** The name of the [i]th symbol, and the one before it. *)
Definition nm (i : nat) : list Z := match symbols !! i with Some s => name s | None => [] end.
Definition prev (i : nat) : list Z := match i with O => [] | S k => nm k end.

(** The prefix a node stands for. *)
Definition pfx (x : option nat * nat * nat) : list Z := take x.2 (nm x.1.2).

Definition kid (kids : list (list nat)) (p c : nat) : Prop := exists ks, kids !! p = Some ks /\ c ∈ ks.

(** The tree over the first [i] symbols: children extend their parent, in ascending
    order of the byte that follows it, and every symbol has its node. *)
Record tree (i : nat) (ps : list (option nat * nat * nat)) (kids : list (list nat)) : Prop := {
  t_length : length kids = length ps;
  t_root : exists s r, ps !! 0 = Some (s, r, 0);
  t_depth p x : ps !! p = Some x -> x.2 <= length (nm x.1.2) /\ (x.1.2 < i \/ x.2 = 0);
  t_symbol p x k : ps !! p = Some x -> x.1.1 = Some k -> k < i /\ nm k = pfx x;
  t_kid p ks x c y : kids !! p = Some ks -> c ∈ ks -> ps !! p = Some x -> ps !! c = Some y ->
    x.2 < y.2 /\ pfx x `prefix_of` pfx y;
  t_ascend p ks x j j' c c' y y' b b' : kids !! p = Some ks -> ps !! p = Some x ->
    ks !! j = Some c -> ks !! j' = Some c' -> j < j' -> ps !! c = Some y -> ps !! c' = Some y' ->
    pfx y !! x.2 = Some b -> pfx y' !! x.2 = Some b' -> (b < b')%Z;
  t_reach k : k < i -> exists c x, rtc (kid kids) 0 c /\ ps !! c = Some x /\ x.1.1 = Some k;
  t_range p ks c : kids !! p = Some ks -> c ∈ ks -> c < length ps
}.

(** The path to the previous symbol: last children, from the root. *)
Inductive chain (kids : list (list nat)) : list nat -> Prop :=
| chain_root : chain kids [0]
| chain_kid c p ks path : chain kids (p :: path) -> kids !! p = Some ks -> last ks = Some c ->
    chain kids (c :: p :: path).

Lemma length_pfx i ps kids p x : tree i ps kids -> ps !! p = Some x -> length (pfx x) = x.2.
Proof. intros Ht Hx. unfold pfx. rewrite length_take. pose proof (t_depth _ _ _ Ht _ _ Hx). lia. Qed.

Lemma chain_reach kids p path : chain kids (p :: path) -> rtc (kid kids) 0 p.
Proof.
  intros H. remember (p :: path) as l eqn:E. revert p path E.
  induction H as [|c p ks path H IH Hk Hl]; intros q l [= <- <-]; [done|].
  eapply rtc_r; [by apply (IH p path)|]. exists ks. split; [done|]. by apply last_Some_elem_of.
Qed.

Lemma chain_lookup i ps kids p path :
  tree i ps kids -> chain kids (p :: path) -> exists x, ps !! p = Some x.
Proof.
  intros Ht H. apply lookup_lt_is_Some. inversion H as [|c p' ks path' _ Hk Hl]; subst.
  - destruct (t_root _ _ _ Ht) as (s & r & H0). by eapply lookup_lt_Some.
  - apply (t_range _ _ _ Ht p' ks); [done|]. by apply last_Some_elem_of.
Qed.

Lemma chain_depth i ps kids p path x :
  tree i ps kids -> chain kids (p :: path) -> ps !! p = Some x ->
  forall q y, q ∈ path -> ps !! q = Some y -> y.2 < x.2.
Proof.
  intros Ht H. remember (p :: path) as l eqn:E. revert p path x E.
  induction H as [|c p ks path H IH Hk Hl]; intros p' l x [= <- <-] Hx q y Hq Hy; [by apply not_elem_of_nil in Hq|].
  apply last_Some_elem_of in Hl. destruct (chain_lookup _ _ _ _ _ Ht H) as [z Hz].
  destruct (t_kid _ _ _ Ht _ _ _ _ _ Hk Hl Hz Hx) as [Hlt _]. apply elem_of_cons in Hq as [->|Hq].
  - by assert (y = z) as -> by congruence.
  - pose proof (IH p path z eq_refl Hz q y Hq Hy). lia.
Qed.

Lemma chain_ext kids kids' p path :
  chain kids (p :: path) -> (forall q ks, q ∈ path -> kids !! q = Some ks -> kids' !! q = Some ks) ->
  chain kids' (p :: path).
Proof.
  intros H. remember (p :: path) as l eqn:E. revert p path E.
  induction H as [|c p ks path H IH Hk Hl]; intros q l [= <- <-] Hext; [constructor|].
  econstructor; [|apply Hext; [by left|done]|done]. apply (IH p path); [done|].
  intros q ks' Hq. apply Hext. by right.
Qed.

Lemma pop_path_cons nodes common p path n :
  nodes !! p = Some n ->
  pop_path nodes common (p :: path) = if common <? depth n then pop_path nodes common path else Ok (p :: path).
Proof. intros Hn. cbn [pop_path]. unfold get. by rewrite Hn. Qed.

(** Popping the path leaves the deepest node that the new name shares. *)
Lemma pop_path_spec i nodes kids common path p x :
  tree i (payload <$> nodes) kids -> chain kids (p :: path) -> (payload <$> nodes) !! p = Some x ->
  pfx x `prefix_of` prev i ->
  exists q y rest, pop_path nodes common (p :: path) = Ok (q :: rest) /\ chain kids (q :: rest) /\
    (payload <$> nodes) !! q = Some y /\ y.2 <= common /\ pfx y `prefix_of` prev i /\
    ((q, rest) = (p, path) \/ exists ks c z, kids !! q = Some ks /\ last ks = Some c /\
       (payload <$> nodes) !! c = Some z /\ common < z.2 /\ pfx z `prefix_of` prev i).
Proof.
  intros Ht H. remember (p :: path) as l eqn:E. revert p path x E.
  induction H as [|c p ks path H IH Hk Hl]; intros q l x [= <- <-] Hx Hp.
  - destruct (t_root _ _ _ Ht) as (s & r & H0). assert (x = (s, r, 0)) as -> by congruence.
    rewrite list_lookup_fmap in Hx. destruct (nodes !! 0) as [n|] eqn:Hn; [|done]. injection Hx as H1 H2 H3.
    exists 0, (s, r, 0), []. rewrite (pop_path_cons _ _ _ _ _ Hn), H3.
    split_and!; [done|constructor|done|cbn; lia|done|by left].
  - pose proof Hx as Hx'. rewrite list_lookup_fmap in Hx'. destruct (nodes !! c) as [n|] eqn:Hn; [|done].
    injection Hx' as Hn'. rewrite (pop_path_cons _ _ _ _ _ Hn).
    assert (depth n = x.2) as -> by (by subst x).
    destruct (Nat.ltb_spec common x.2) as [Hlt|Hge].
    + destruct (chain_lookup _ _ _ _ _ Ht H) as [y Hy].
      destruct (t_kid _ _ _ Ht p ks y c x Hk (last_Some_elem_of _ _ Hl) Hy Hx) as [_ Hyx].
      destruct (IH p path y eq_refl Hy) as (q & z & rest & H1 & H2 & H3 & H4 & H5 & H6); [by etrans|].
      exists q, z, rest. split_and!; try done. right. destruct H6 as [[= -> ->]|H6]; [|done].
      by exists ks, c, x.
    + exists c, x, (p :: path). split_and!; try done; [by econstructor|by left].
Qed.

Local Ltac in_list := rewrite ?elem_of_app, ?list_elem_of_singleton; auto.

(** What a child pushed below [parent] changes. *)
Lemma grown_lookup (ps : list (option nat * nat * nat)) z p x :
  (ps ++ [z]) !! p = Some x -> ps !! p = Some x /\ p < length ps \/ p = length ps /\ x = z.
Proof. intros H. apply snoc_lookup in H as [H|?]; [left|by right]. split; [done|]. by eapply lookup_lt_Some. Qed.

Lemma tree_split i ps kids parent rest c x y common :
  tree i ps kids -> kids !! parent = Some (rest ++ [c]) -> ps !! parent = Some x -> ps !! c = Some y ->
  0 < i -> x.2 < common < y.2 -> pfx y `prefix_of` nm (i - 1) -> common <= length (nm (i - 1)) ->
  tree i (ps ++ [(None, i - 1, common)]) (<[parent := rest ++ [length ps]]> kids ++ [[c]]).
Proof.
  intros Ht Hk Hx Hy Hi [Hxc Hcy] Hpy Hlen.
  assert (parent < length kids) as Hp by (by eapply lookup_lt_Some).
  pose proof (t_length _ _ _ Ht) as Hkl. remember (None : option nat, i - 1, common) as z eqn:Ez.
  assert (pfx z = take common (nm (i - 1))) as Hz by (by rewrite Ez).
  assert (pfx z `prefix_of` pfx y) as Hzy.
  { rewrite Hz. destruct Hpy as [k ->]. rewrite take_app_le by (rewrite (length_pfx _ _ _ _ _ Ht Hy); lia).
    apply prefix_take. }
  assert (length (pfx z) = common) as Hlz by (rewrite Hz, length_take; lia).
  assert (c ∈ rest ++ [c]) as Hcin by in_list.
  destruct (t_kid _ _ _ Ht _ _ _ _ _ Hk Hcin Hx Hy) as [_ Hxy].
  assert (pfx x `prefix_of` pfx z) as Hxz.
  { destruct (prefix_weak_total _ _ _ Hxy Hzy) as [?|H]; [done|]. apply prefix_length in H.
    rewrite Hlz, (length_pfx _ _ _ _ _ Ht Hx) in H. lia. }
  assert (forall p q, kid kids p q -> rtc (kid (<[parent := rest ++ [length ps]]> kids ++ [[c]])) p q) as Hpath.
  { intros p q (ks & Hks & Hq). destruct (decide (p = parent)) as [->|Hne].
    - assert (ks = rest ++ [c]) as -> by congruence.
      assert ((<[parent := rest ++ [length ps]]> kids ++ [[c]]) !! parent = Some (rest ++ [length ps])) as Hkp
        by (rewrite lookup_app_l by (by rewrite length_insert); by apply list_lookup_insert_eq).
      apply elem_of_app in Hq as [Hq|Hq%list_elem_of_singleton].
      + apply rtc_once. eexists. split; [exact Hkp|in_list].
      + subst q. apply (rtc_l _ _ (length ps)); [eexists; split; [exact Hkp|in_list]|].
        apply rtc_once. exists [c]. split; [|in_list]. rewrite lookup_app_r, length_insert by (rewrite length_insert; lia).
        by rewrite Hkl, Nat.sub_diag.
    - apply rtc_once. exists ks. split; [|done]. rewrite lookup_app_l by (rewrite length_insert; by eapply lookup_lt_Some).
      by rewrite list_lookup_insert_ne. }
  assert (forall j q, rest !! j = Some q -> (rest ++ [c]) !! j = Some q) as Hrest
    by (intros j q Hq; by apply lookup_app_l_Some).
  assert ((rest ++ [c]) !! length rest = Some c) as Hlast by (by rewrite lookup_app_r, Nat.sub_diag).
  assert (forall p ks q, kids !! p = Some ks -> q ∈ ks -> q <> length ps) as Hnew.
  { intros p ks q Hks Hq ->. pose proof (t_range _ _ _ Ht _ _ _ Hks Hq). lia. }
  split.
  - rewrite !length_app, length_insert, Hkl. done.
  - destruct (t_root _ _ _ Ht) as (s & r & H0). exists s, r. rewrite lookup_app_l by (by eapply lookup_lt_Some). done.
  - intros p w [[H _]|[-> ->]]%grown_lookup; [by apply (t_depth _ _ _ Ht p)|]. rewrite Ez. cbn. split; [done|left; lia].
  - intros p w k [[H _]|[-> ->]]%grown_lookup; [by apply (t_symbol _ _ _ Ht p)|by rewrite Ez].
  - intros p ks w q v Hks Hq Hw Hv.
    apply (split_kids _ _ _ _ _ _ Hp) in Hks as [[-> ->]|[[-> ->]|(Hlt & Hne & Hks)]];
      apply grown_lookup in Hw as [[Hw ?]|[? ->]]; try lia; apply grown_lookup in Hv as [[Hv Hqv]|[Hqv ->]]; subst.
    + assert (w = x) as -> by congruence. apply (t_kid _ _ _ Ht parent (rest ++ [c]) x q v); try done.
      apply elem_of_app in Hq as [Hq|Hq%list_elem_of_singleton]; [in_list|lia].
    + assert (w = x) as -> by congruence. by split.
    + apply list_elem_of_singleton in Hq as ->. assert (v = y) as -> by congruence. done.
    + apply list_elem_of_singleton in Hq as <-. apply lookup_lt_Some in Hy. lia.
    + by apply (t_kid _ _ _ Ht p ks w q v).
    + by apply (Hnew _ _ _ Hks) in Hq.
  - intros p ks w j j' q q' v v' b b' Hks Hw Hj Hj' Hlt Hv Hv' Hb Hb'.
    apply (split_kids _ _ _ _ _ _ Hp) in Hks as [[-> ->]|[[-> ->]|(Hlt' & Hne & Hks)]].
    + apply grown_lookup in Hw as [[Hw ?]|[? ->]]; [|lia]. assert (w = x) as -> by congruence.
      apply snoc_lookup in Hj as [Hj|[-> ->]];
        [|apply lookup_lt_Some in Hj'; rewrite length_app in Hj'; cbn in Hj'; lia].
      apply grown_lookup in Hv as [[Hv _]|[Hqv _]]; [|by apply Hrest, list_elem_of_lookup_2, (Hnew _ _ _ Hk) in Hj].
      apply snoc_lookup in Hj' as [Hj'|[-> ->]].
      * apply grown_lookup in Hv' as [[Hv' _]|[Hqv _]]; [|by apply Hrest, list_elem_of_lookup_2, (Hnew _ _ _ Hk) in Hj'].
        by apply (t_ascend _ _ _ Ht parent (rest ++ [c]) x j j' q q' v v' b b'); auto.
      * apply grown_lookup in Hv' as [[Hv' ?]|[_ ->]]; [lia|].
        apply (t_ascend _ _ _ Ht parent (rest ++ [c]) x j (length rest) q c v y b b'); auto.
        destruct Hzy as [k ->]. by apply lookup_app_l_Some.
    + apply lookup_lt_Some in Hj, Hj'. cbn in Hj, Hj'. lia.
    + pose proof (list_elem_of_lookup_2 _ _ _ Hj) as Hq. pose proof (list_elem_of_lookup_2 _ _ _ Hj') as Hq'.
      apply grown_lookup in Hw as [[Hw ?]|[? ->]]; [|lia].
      apply grown_lookup in Hv as [[Hv _]|[? _]]; [|by apply (Hnew _ _ _ Hks) in Hq].
      apply grown_lookup in Hv' as [[Hv' _]|[? _]]; [|by apply (Hnew _ _ _ Hks) in Hq'].
      by apply (t_ascend _ _ _ Ht p ks w j j' q q' v v' b b').
  - intros k Hki. destruct (t_reach _ _ _ Ht k Hki) as (q & w & Hr & Hw & Hs). exists q, w.
    split_and!; [|by apply lookup_app_l_Some|done]. clear -Hr Hpath.
    induction Hr as [|p q r Hpq _ IH]; [done|]. etrans; [by apply Hpath|done].
  - intros p ks q Hks Hq. rewrite length_app. cbn.
    apply (split_kids _ _ _ _ _ _ Hp) in Hks as [[-> ->]|[[-> ->]|(_ & _ & Hks)]].
    + apply elem_of_app in Hq as [Hq|Hq%list_elem_of_singleton]; [|lia].
      assert (q < length ps); [|lia]. apply (t_range _ _ _ Ht parent (rest ++ [c])); [done|in_list].
    + apply list_elem_of_singleton in Hq as ->. apply lookup_lt_Some in Hy. lia.
    + pose proof (t_range _ _ _ Ht _ _ _ Hks Hq). lia.
Qed.

Lemma tree_append i ps kids parent ks x :
  tree i ps kids -> kids !! parent = Some ks -> ps !! parent = Some x ->
  rtc (kid kids) 0 parent ->
  pfx x `prefix_of` nm i -> x.2 < length (nm i) ->
  (forall c y b b', c ∈ ks -> ps !! c = Some y -> pfx y !! x.2 = Some b -> nm i !! x.2 = Some b' -> (b < b')%Z) ->
  tree (S i) (ps ++ [(Some i, i, length (nm i))]) (<[parent := ks ++ [length ps]]> kids ++ [[]]).
Proof.
  intros Ht Hk Hx Hreach Hpx Hlen Hbytes.
  assert (parent < length kids) as Hp by (by eapply lookup_lt_Some).
  pose proof (t_length _ _ _ Ht) as Hkl. remember (Some i, i, length (nm i)) as z eqn:Ez.
  assert (pfx z = nm i) as Hz by (rewrite Ez; apply firstn_all).
  assert (forall p q, kid kids p q -> kid (<[parent := ks ++ [length ps]]> kids ++ [[]]) p q) as Hpath.
  { intros p q (kp & Hkp & Hq). destruct (decide (p = parent)) as [->|Hne].
    - assert (kp = ks) as -> by congruence. exists (ks ++ [length ps]).
      rewrite lookup_app_l by (by rewrite length_insert). rewrite list_lookup_insert_eq by done.
      split; [done|in_list].
    - exists kp. split; [|done]. rewrite lookup_app_l by (rewrite length_insert; by eapply lookup_lt_Some).
      by rewrite list_lookup_insert_ne. }
  assert (forall p kp q, kids !! p = Some kp -> q ∈ kp -> q <> length ps) as Hnew.
  { intros p kp q Hkp Hq ->. pose proof (t_range _ _ _ Ht _ _ _ Hkp Hq). lia. }
  split.
  - rewrite !length_app, length_insert, Hkl. done.
  - destruct (t_root _ _ _ Ht) as (s & r & H0). exists s, r. rewrite lookup_app_l by (by eapply lookup_lt_Some). done.
  - intros p w [[H _]|[-> ->]]%grown_lookup.
    + destruct (t_depth _ _ _ Ht p w H). split; [done|lia].
    + rewrite Ez. cbn. split; [done|left; lia].
  - intros p w k [[H _]|[-> ->]]%grown_lookup Hs.
    + destruct (t_symbol _ _ _ Ht p w k H Hs). split; [lia|done].
    + rewrite Hz. rewrite Ez in Hs. injection Hs as <-. split; [lia|done].
  - intros p kp w q v Hkp Hq Hw Hv.
    apply (split_kids _ _ _ _ _ _ Hp) in Hkp as [[-> ->]|[[-> ->]|(Hlt & Hne & Hkp)]];
      [|by apply not_elem_of_nil in Hq|].
    + apply grown_lookup in Hw as [[Hw ?]|[? ->]]; [|lia]. assert (w = x) as -> by congruence.
      apply grown_lookup in Hv as [[Hv ?]|[_ ->]].
      * apply (t_kid _ _ _ Ht parent ks x q v); try done. apply elem_of_app in Hq as [?|Hq%list_elem_of_singleton]; [done|lia].
      * rewrite Hz. split; [|done]. by rewrite Ez.
    + apply grown_lookup in Hw as [[Hw ?]|[? ->]]; [|lia].
      apply grown_lookup in Hv as [[Hv ?]|[-> _]]; [|by apply (Hnew _ _ _ Hkp) in Hq].
      by apply (t_kid _ _ _ Ht p kp w q v).
  - intros p kp w j j' q q' v v' b b' Hkp Hw Hj Hj' Hlt Hv Hv' Hb Hb'.
    apply (split_kids _ _ _ _ _ _ Hp) in Hkp as [[-> ->]|[[-> ->]|(Hlt' & Hne & Hkp)]]; [|done|].
    + apply grown_lookup in Hw as [[Hw ?]|[? ->]]; [|lia]. assert (w = x) as -> by congruence.
      apply snoc_lookup in Hj as [Hj|[-> ->]];
        [|apply lookup_lt_Some in Hj'; rewrite length_app in Hj'; cbn in Hj'; lia].
      pose proof (list_elem_of_lookup_2 _ _ _ Hj) as Hq.
      apply grown_lookup in Hv as [[Hv _]|[-> _]]; [|by apply (Hnew _ _ _ Hk) in Hq].
      apply snoc_lookup in Hj' as [Hj'|[-> ->]].
      * apply grown_lookup in Hv' as [[Hv' _]|[-> _]]; [|by apply list_elem_of_lookup_2, (Hnew _ _ _ Hk) in Hj'].
        by apply (t_ascend _ _ _ Ht parent ks x j j' q q' v v' b b').
      * apply grown_lookup in Hv' as [[Hv' ?]|[_ ->]]; [lia|]. rewrite Hz in Hb'. by apply (Hbytes q v).
    + pose proof (list_elem_of_lookup_2 _ _ _ Hj) as Hq. pose proof (list_elem_of_lookup_2 _ _ _ Hj') as Hq'.
      apply grown_lookup in Hw as [[Hw ?]|[? ->]]; [|lia].
      apply grown_lookup in Hv as [[Hv _]|[? _]]; [|by apply (Hnew _ _ _ Hkp) in Hq].
      apply grown_lookup in Hv' as [[Hv' _]|[? _]]; [|by apply (Hnew _ _ _ Hkp) in Hq'].
      by apply (t_ascend _ _ _ Ht p kp w j j' q q' v v' b b').
  - intros k Hki. assert (forall q, rtc (kid kids) 0 q -> rtc (kid (<[parent := ks ++ [length ps]]> kids ++ [[]])) 0 q) as Hsub.
    { intros q. apply (rtc_subrel _ _ _ _ Hpath). }
    destruct (decide (k < i)) as [Hlt|Hge].
    + destruct (t_reach _ _ _ Ht k Hlt) as (q & w & Hr & Hw & Hs). exists q, w.
      split_and!; [by apply Hsub|by apply lookup_app_l_Some|done].
    + assert (k = i) as -> by lia. exists (length ps), z. split_and!.
      * eapply rtc_r; [by apply Hsub|]. exists (ks ++ [length ps]). rewrite lookup_app_l by (by rewrite length_insert).
        rewrite list_lookup_insert_eq by done. split; [done|in_list].
      * by rewrite lookup_app_r, Nat.sub_diag by lia.
      * by rewrite Ez.
  - intros p kp q Hkp Hq. rewrite length_app. cbn.
    apply (split_kids _ _ _ _ _ _ Hp) in Hkp as [[-> ->]|[[-> ->]|(_ & _ & Hkp)]]; [|by apply not_elem_of_nil in Hq|].
    + apply elem_of_app in Hq as [Hq|Hq%list_elem_of_singleton]; [|lia].
      pose proof (t_range _ _ _ Ht _ _ _ Hk Hq). lia.
    + pose proof (t_range _ _ _ Ht _ _ _ Hkp Hq). lia.
Qed.

(** The empty name, which can only be the first, names the root. *)
Lemma tree_root_symbol ps kids x :
  tree 0 ps kids -> ps !! 0 = Some x -> x.2 = 0 -> nm 0 = [] ->
  tree 1 (<[0 := (Some 0, x.1.2, x.2)]> ps) kids.
Proof.
  intros Ht Hx Hd Hnm. set (z := (Some 0, x.1.2, x.2)).
  assert (0 < length ps) as H0 by (by eapply lookup_lt_Some).
  assert (forall p w, <[0 := z]> ps !! p = Some w ->
    exists v, ps !! p = Some v /\ w.2 = v.2 /\ w.1.2 = v.1.2 /\ (w.1.1 = v.1.1 \/ p = 0 /\ w = z)) as Hat.
  { intros p w Hw. destruct (decide (p = 0)) as [->|Hne].
    - rewrite list_lookup_insert_eq in Hw by done. injection Hw as <-. exists x. split_and!; [done..|by right].
    - rewrite list_lookup_insert_ne in Hw by done. exists w. split_and!; [done..|by left]. }
  assert (forall w v : option nat * nat * nat, w.2 = v.2 -> w.1.2 = v.1.2 -> pfx w = pfx v) as Hpfx
    by (intros w v E1 E2; unfold pfx; by rewrite E1, E2).
  split.
  - rewrite length_insert. apply Ht.
  - exists (Some 0), x.1.2. rewrite list_lookup_insert_eq by done. unfold z. by rewrite Hd.
  - intros p w Hw. destruct (Hat p w Hw) as (v & Hv & -> & -> & _). destruct (t_depth _ _ _ Ht p v Hv). lia.
  - intros p w k Hw Hs. destruct (Hat p w Hw) as (v & Hv & E1 & E2 & [E3|[-> ->]]).
    + rewrite E3 in Hs. destruct (t_symbol _ _ _ Ht p v k Hv Hs). lia.
    + injection Hs as <-. split; [lia|]. unfold pfx, z. cbn. by rewrite Hd, Hnm.
  - intros p kp w q v Hkp Hq Hw Hv. destruct (Hat p w Hw) as (w' & Hw' & E1 & E2 & _).
    destruct (Hat q v Hv) as (v' & Hv' & E3 & E4 & _). rewrite E1, E3, (Hpfx w w'), (Hpfx v v') by done.
    by apply (t_kid _ _ _ Ht p kp w' q v').
  - intros p kp w j j' q q' v v' b b' Hkp Hw Hj Hj' Hlt Hv Hv' Hb Hb'.
    destruct (Hat p w Hw) as (w1 & Hw1 & E1 & E2 & _). destruct (Hat q v Hv) as (v1 & Hv1 & E3 & E4 & _).
    destruct (Hat q' v' Hv') as (v2 & Hv2 & E5 & E6 & _). rewrite E1, (Hpfx v v1) in Hb by done.
    rewrite E1, (Hpfx v' v2) in Hb' by done. by apply (t_ascend _ _ _ Ht p kp w1 j j' q q' v1 v2 b b').
  - intros k Hk. assert (k = 0) as -> by lia. exists 0, z. by rewrite list_lookup_insert_eq.
  - intros p kp q Hkp Hq. rewrite length_insert. by apply (t_range _ _ _ Ht p kp q).
Qed.

(** *** Adding a symbol *)
Hypothesis Hwf : symbols_wf symbols.

Lemma nm_sorted k i : k < i -> i < length symbols -> name_lt (nm k) (nm i).
Proof.
  intros Hk Hi. unfold nm. destruct (symbols !! i) as [b|] eqn:Hb; [|apply lookup_ge_None in Hb; lia].
  destruct (symbols !! k) as [a|] eqn:Ha; [|apply lookup_ge_None in Ha; lia].
  assert (forall l, StronglySorted (fun a b => name_lt (name a) (name b)) l ->
    forall k i, k < i -> l !! k = Some a -> l !! i = Some b -> name_lt (name a) (name b)) as H.
  { clear. induction 1 as [|x l _ IH Hx]; intros k i Hk Ha Hb; [done|]. destruct i as [|i]; [lia|].
    destruct k as [|k]; cbn in Ha, Hb; [|by apply (IH k i); [lia|..]]. injection Ha as ->.
    rewrite Forall_forall in Hx. apply Hx. by eapply list_elem_of_lookup_2. }
  by apply (H symbols (wf_sorted _ Hwf) k i).
Qed.

Lemma name_lt_byte a b n x y :
  name_lt a b -> take n a = take n b -> a !! n = Some x -> b !! n = Some y -> (x <= y)%Z.
Proof.
  revert a b. induction n as [|n IH]; intros [|u a] [|v b]; cbn; try done.
  - intros H _ [= ->] [= ->]. lia.
  - intros H [= -> E] Ha Hb. destruct H as [?|[_ H]]; [lia|]. by apply (IH a b).
Qed.

Lemma prefix_take_eq (q l : list Z) : q `prefix_of` l -> take (length q) l = q.
Proof. intros [k ->]. by rewrite take_app_length. Qed.

(** An earlier name that shares what the new one shares with its predecessor goes on
    with a smaller byte. *)
Lemma earlier_byte i k b b' :
  k < i -> i < length symbols ->
  take (common_prefix (prev i) (nm i)) (nm k) = take (common_prefix (prev i) (nm i)) (nm i) ->
  nm k !! common_prefix (prev i) (nm i) = Some b -> nm i !! common_prefix (prev i) (nm i) = Some b' ->
  (b < b')%Z.
Proof.
  intros Hk Hi Heq Hb Hb'. pose proof (nm_sorted k i Hk Hi) as Hlt.
  destruct (common_prefix_spec (prev i) (nm i)) as (_ & _ & _ & Hmax).
  set (n := common_prefix (prev i) (nm i)) in *.
  pose proof (name_lt_byte _ _ n _ _ Hlt Heq Hb Hb'). destruct (decide (b = b')) as [->|]; [|lia]. exfalso.
  assert (take (S n) (nm k) = take (S n) (nm i)) as Heq'
    by (by rewrite (take_S_r _ _ _ Hb), (take_S_r _ _ _ Hb'), Heq).
  assert (take (S n) (nm i) `prefix_of` prev i) as Hp.
  { destruct i as [|i]; [lia|]. cbn [prev]. destruct (decide (k = i)) as [->|Hne].
    - rewrite <- Heq'. apply prefix_take.
    - apply (name_lt_between (nm k) (nm i) (nm (S i))).
      + apply nm_sorted; lia.
      + apply nm_sorted; lia.
      + rewrite <- Heq'. apply prefix_take.
      + apply prefix_take. }
  specialize (Hmax _ Hp (prefix_take _ _)). rewrite length_take in Hmax. apply lookup_lt_Some in Hb'. lia.
Qed.

Definition on_path (ps : list (option nat * nat * nat)) (kids : list (list nat)) (path : list nat) (q : list Z) : Prop :=
  exists p rest x, path = p :: rest /\ chain kids path /\ ps !! p = Some x /\ pfx x = q.

Lemma payload_lookup (nodes : list UncompressedNode) (p : nat) x :
  (payload <$> nodes) !! p = Some x -> exists n, nodes !! p = Some n /\ payload n = x /\ depth n = x.2.
Proof.
  rewrite list_lookup_fmap. destruct (nodes !! p) as [n|]; [|done]. intros [= <-]. by exists n.
Qed.

(** The parent is the node of the common prefix, split off an edge if there was none. *)
Lemma find_parent_tree (nodes : list UncompressedNode) kids path i :
  i < length symbols -> links nodes kids -> tree i (payload <$> nodes) kids ->
  on_path (payload <$> nodes) kids path (prev i) ->
  exists nodes' kids' path' parent,
    find_parent i (common_prefix (prev i) (nm i)) (nodes, path) = Ok (nodes', path', parent) /\
    links nodes' kids' /\ tree i (payload <$> nodes') kids' /\ head path' = Some parent /\
    on_path (payload <$> nodes') kids' path' (take (common_prefix (prev i) (nm i)) (nm i)).
Proof.
  intros Hi Hl Ht (p & rest0 & x0 & -> & Hc & Hx0 & Hp0).
  destruct (common_prefix_spec (prev i) (nm i)) as (Heq & Hle1 & Hle2 & _).
  set (common := common_prefix (prev i) (nm i)) in *. clearbody common. unfold find_parent.
  destruct (pop_path_spec i nodes kids common _ _ _ Ht Hc Hx0) as (q & y & rest & -> & Hc' & Hy & Hd & Hpy & Hor);
    [by rewrite Hp0|]. cbn [mbind res_bind head unwrap].
  pose proof (length_pfx _ _ _ _ _ Ht Hy) as Hly.
  destruct (payload_lookup _ _ _ Hy) as (n & Hn & Hpn & Hdn). unfold get. rewrite Hn. cbn [mbind res_bind].
  rewrite Hdn. destruct (Nat.ltb_spec y.2 common) as [Hlt|Hge].
  - destruct Hor as [[= -> ->]|(ks & c & z & Hk & Hlast & Hz & Hcz & Hpz)].
    { assert (y = x0) as -> by congruence. rewrite <- Hp0, Hly in Hle1. lia. }
    apply last_Some in Hlast as [rest' ->].
    destruct (split_edge_links _ _ _ _ _ i common Hl Hk) as (nodes' & -> & Hl' & Hpay). cbn [mbind res_bind].
    destruct i as [|i]; [cbn in Hle1; lia|]. cbn [prev] in *.
    pose proof (tree_split _ _ _ _ _ _ _ _ common Ht Hk Hy Hz) as Ht'. rewrite length_fmap, <- Hpay in Ht'.
    replace (S i - 1) with i in * by lia.
    exists nodes', (<[q := rest' ++ [length nodes]]> kids ++ [[c]]), (length nodes :: q :: rest), (length nodes).
    split_and!; [done|done|apply Ht'; [lia|lia|done|done]|done|].
    eexists _, _, _. split_and!; [done| |by rewrite Hpay, lookup_app_r, length_fmap, Nat.sub_diag by (by rewrite length_fmap)|].
    + assert (q < length kids) by (by eapply lookup_lt_Some).
      apply (chain_kid _ _ _ (rest' ++ [length nodes])); [|by rewrite lookup_app_l, list_lookup_insert_eq
        by (by rewrite ?length_insert)|apply last_snoc].
      apply (chain_ext kids); [done|]. intros r kr Hr Hkr.
      rewrite lookup_app_l by (rewrite length_insert; by eapply lookup_lt_Some). rewrite list_lookup_insert_ne; [done|].
      intros ->. pose proof (chain_depth _ _ _ _ _ _ Ht Hc' Hy r y Hr Hy). lia.
    + unfold pfx. cbn. done.
  - exists nodes, kids, (q :: rest), q. split_and!; try done. exists q, rest, y. split_and!; try done.
    assert (y.2 = common) as E by lia. rewrite <- Heq, <- E, <- Hly. symmetry. by apply prefix_take_eq.
Qed.

Lemma fmap_insert_symbol (nodes : list UncompressedNode) p n s :
  nodes !! p = Some n ->
  payload <$> alter (set_symbol s) p nodes = <[p := (s, representative n, depth n)]> (payload <$> nodes).
Proof.
  intros Hn. apply list_eq. intros j. rewrite list_lookup_fmap, alter_lookup. case_decide as E.
  - subst. rewrite Hn. rewrite list_lookup_insert_eq; [done|]. rewrite length_fmap. by eapply lookup_lt_Some.
  - rewrite list_lookup_insert_ne, list_lookup_fmap by done. by destruct (nodes !! j).
Qed.

Lemma set_symbol_links nodes kids p s : links nodes kids -> links (alter (set_symbol s) p nodes) kids.
Proof.
  intros Hl. assert (forall j n, alter (set_symbol s) p nodes !! j = Some n -> exists m, nodes !! j = Some m /\
    first_child n = first_child m /\ last_child n = last_child m /\ num_children n = num_children m /\
    previous_sibling n = previous_sibling m /\ next_sibling n = next_sibling m) as Hat.
  { intros j n. rewrite alter_lookup. destruct (nodes !! j) as [m|]; [|done]. intros [= <-]. exists m. by case_decide. }
  split.
  - rewrite length_alter. apply Hl.
  - intros q ks n Hk Hn. destruct (Hat _ _ Hn) as (m & Hm & -> & -> & -> & _). by apply (lk_node _ _ Hl q).
  - intros q ks j c n Hk Hc Hn. destruct (Hat _ _ Hn) as (m & Hm & _ & _ & _ & -> & ->). by apply (lk_sibling _ _ Hl q ks j c).
  - rewrite length_alter. apply (lk_range _ _ Hl).
  - apply (lk_unique _ _ Hl).
Qed.

(** A new leaf below the parent. *)
Lemma add_child_tree (nodes : list UncompressedNode) kids parent rest x i :
  i < length symbols -> links nodes kids -> tree i (payload <$> nodes) kids ->
  chain kids (parent :: rest) -> (payload <$> nodes) !! parent = Some x ->
  x.2 = common_prefix (prev i) (nm i) -> pfx x = take x.2 (nm i) -> x.2 < length (nm i) ->
  exists nodes' kids',
    append_child (nodes ++ [mkUncompressed (Some i) i (length (nm i)) None None None None 0]) parent (length nodes) =
      Ok nodes' /\
    links nodes' kids' /\ tree (S i) (payload <$> nodes') kids' /\
    on_path (payload <$> nodes') kids' (length nodes :: parent :: rest) (nm i).
Proof.
  intros Hi Hl Ht Hc Hx Hd Hp Hlen. set (m := mkUncompressed (Some i) i (length (nm i)) None None None None 0).
  assert (parent < length nodes) as Hplt by (apply lookup_lt_Some in Hx; by rewrite length_fmap in Hx).
  destruct (kids !! parent) as [ks|] eqn:Hk; [|apply lookup_ge_None in Hk; rewrite (lk_length _ _ Hl) in Hk; lia].
  pose proof (push_links _ _ m Hl eq_refl eq_refl eq_refl) as Hl1.
  assert (tree (S i) ((payload <$> nodes) ++ [(Some i, i, length (nm i))]) (<[parent := ks ++ [length nodes]]> kids ++ [[]])) as Ht'.
  { rewrite <- (length_fmap payload nodes). apply (tree_append _ _ _ _ _ x); try done.
    - by eapply chain_reach.
    - rewrite Hp. apply prefix_take.
    - intros c y b b' Hin Hy Hb Hb'. destruct (t_kid _ _ _ Ht _ _ _ _ _ Hk Hin Hx Hy) as [Hlt Hpre].
      destruct (t_depth _ _ _ Ht _ _ Hy) as [Hly Hrep]. rewrite Hd in *.
      assert (pfx y `prefix_of` nm y.1.2) as Hyn by apply prefix_take.
      apply (earlier_byte i y.1.2); [lia|done| |by eapply prefix_lookup_Some|done].
      rewrite <- Hp. rewrite <- Hd, <- (length_pfx _ _ _ _ _ Ht Hx). apply prefix_take_eq. by etrans. }
  assert (exists nodes', append_child (nodes ++ [m]) parent (length nodes) = Ok nodes' /\
    links nodes' (<[parent := ks ++ [length nodes]]> kids ++ [[]]) /\
    payload <$> nodes' = (payload <$> nodes) ++ [(Some i, i, length (nm i))]) as (nodes' & -> & Hl' & Hpay).
  { rewrite <- insert_app_l by (rewrite (lk_length _ _ Hl); lia).
    destruct (append_child_links _ _ parent ks (length nodes) m Hl1) as (nodes' & H1 & H2 & H3).
    - by apply lookup_app_l_Some.
    - by rewrite lookup_app_r, Nat.sub_diag.
    - done.
    - lia.
    - intros p kp Hkp Hin. apply snoc_lookup in Hkp as [Hkp|[_ ->]]; [|by apply not_elem_of_nil in Hin].
      pose proof (links_parent_fresh _ _ _ _ _ Hl Hkp Hin). lia.
    - exists nodes'. split_and!; [done|done|]. by rewrite H3, fmap_app. }
  exists nodes', (<[parent := ks ++ [length nodes]]> kids ++ [[]]). split_and!; [done|done|by rewrite Hpay|].
  rewrite Hpay. eexists _, _, _. split_and!; [done| |by rewrite lookup_app_r, length_fmap, Nat.sub_diag
    by (by rewrite length_fmap)|apply firstn_all].
  assert (parent < length kids) by (by eapply lookup_lt_Some).
  apply (chain_kid _ _ _ (ks ++ [length nodes])); [|by rewrite lookup_app_l, list_lookup_insert_eq
    by (by rewrite ?length_insert)|apply last_snoc].
  apply (chain_ext kids); [done|]. intros r kr Hr Hkr.
  rewrite lookup_app_l by (rewrite length_insert; by eapply lookup_lt_Some). rewrite list_lookup_insert_ne; [done|].
  intros ->. pose proof (chain_depth _ _ _ _ _ _ Ht Hc Hx r x Hr Hx). lia.
Qed.

Lemma add_symbol_tree (nodes : list UncompressedNode) kids path i sym :
  symbols !! i = Some sym -> links nodes kids -> tree i (payload <$> nodes) kids ->
  on_path (payload <$> nodes) kids path (prev i) ->
  exists nodes' kids' path', add_symbol (prev i) i sym (nodes, path) = Ok (nodes', path') /\
    links nodes' kids' /\ tree (S i) (payload <$> nodes') kids' /\
    on_path (payload <$> nodes') kids' path' (prev (S i)).
Proof.
  intros Hsym Hl Ht Hon. assert (i < length symbols) as Hi by (by eapply lookup_lt_Some).
  assert (name sym = nm i) as Hname by (unfold nm; by rewrite Hsym).
  unfold add_symbol. rewrite Hname. destruct (common_prefix_spec (prev i) (nm i)) as (Heq & Hle1 & Hle2 & _).
  destruct (find_parent_tree _ _ _ _ Hi Hl Ht Hon) as (nodes1 & kids1 & path1 & parent & -> & Hl1 & Ht1 & Hh & Hon1).
  destruct Hon1 as (p & rest & x & -> & Hc & Hx & Hp). cbn in Hh. injection Hh as ->. cbn [mbind res_bind].
  destruct (payload_lookup _ _ _ Hx) as (n & Hn & Hpn & Hdn). unfold get at 1. rewrite Hn. cbn [mbind res_bind].
  pose proof (length_pfx _ _ _ _ _ Ht1 Hx) as Hlx. rewrite Hp, length_take, Nat.min_l in Hlx by done.
  rewrite Hdn. destruct (Nat.eqb_spec x.2 (length (nm i))) as [E|Hne].
  - assert (i = 0) as ->.
    { destruct i as [|i]; [done|]. exfalso. destruct (name_lt_parts _ _ (nm_sorted i (S i) ltac:(lia) Hi)) as [H _].
      cbn [prev] in Hlx. lia. }
    cbn [prev common_prefix] in Hlx. assert (nm 0 = []) as Hnil by (apply nil_length_inv; lia).
    rewrite modify_alter by eauto. cbn [mbind res_bind].
    assert (parent = 0) as ->.
    { inversion Hc as [|c p' ks path' Hc' Hk Hlast]; [done|]. subst.
      destruct (chain_lookup _ _ _ _ _ Ht1 Hc') as [y Hy].
      destruct (t_kid _ _ _ Ht1 _ _ _ _ _ Hk (last_Some_elem_of _ _ Hlast) Hy Hx). lia. }
    exists (alter (set_symbol (Some 0)) 0 nodes1), kids1, (0 :: rest). split_and!; [done|by apply set_symbol_links| |].
    + rewrite (fmap_insert_symbol _ _ n) by done. replace (representative n) with x.1.2 by (by rewrite <- Hpn).
      rewrite Hdn. by apply tree_root_symbol.
    + eexists _, _, _. split_and!; [done|done| |].
      * rewrite (fmap_insert_symbol _ _ n) by done. apply list_lookup_insert_eq. by eapply lookup_lt_Some.
      * cbn [prev]. unfold pfx. cbn. rewrite Hdn, <- Hlx, Hnil. done.
  - destruct (add_child_tree nodes1 kids1 parent rest x i) as (nodes' & kids' & -> & Hl' & Ht' & Hon'); try done.
    + by rewrite <- Hlx.
    + lia.
    + cbn [mbind res_bind]. by exists nodes', kids', (length nodes1 :: parent :: rest).
Qed.

Lemma add_symbols_tree l : forall i (nodes : list UncompressedNode) kids path,
  drop i symbols = l -> i <= length symbols -> links nodes kids -> tree i (payload <$> nodes) kids ->
  on_path (payload <$> nodes) kids path (prev i) ->
  exists nodes' kids' path', add_symbols (prev i) i l (nodes, path) = Ok (nodes', path') /\
    links nodes' kids' /\ tree (length symbols) (payload <$> nodes') kids'.
Proof.
  induction l as [|sym l IH]; intros i nodes kids path Hdrop Hi Hl Ht Hon.
  - exists nodes, kids, path. assert (i = length symbols) as <-; [|done].
    apply (f_equal length) in Hdrop. rewrite length_drop in Hdrop. cbn in Hdrop. lia.
  - assert (symbols !! i = Some sym) as Hsym.
    { rewrite <- (Nat.add_0_r i), <- lookup_drop, Hdrop. done. }
    destruct (add_symbol_tree _ _ _ _ _ Hsym Hl Ht Hon) as (nodes1 & kids1 & path1 & H1 & Hl1 & Ht1 & Hon1).
    cbn [add_symbols]. rewrite H1. cbn [mbind res_bind].
    replace (name sym) with (prev (S i)) by (cbn; unfold nm; by rewrite Hsym).
    apply (IH (S i) nodes1 kids1 path1); try done.
    + rewrite <- Nat.add_1_r, <- drop_drop, Hdrop. done.
    + by eapply lookup_lt_Some in Hsym.
Qed.

(** [Topology::new] builds the tree of the names. *)
Lemma new_topology_tree :
  exists nodes kids, new_topology symbols = Ok nodes /\ links nodes kids /\
    tree (length symbols) (payload <$> nodes) kids.
Proof.
  destruct (add_symbols_tree symbols 0 [default_node] [[]] [0]) as (nodes & kids & path & H & Hl & Ht).
  - done.
  - lia.
  - split; try done.
    + intros [|p] ks n; [|done]. by intros [= <-] [= <-].
    + intros [|p] ks j c n; [|done]. by intros [= <-].
    + intros [|p] ks c; [|done]. by intros [= <-] ?%not_elem_of_nil.
    + intros [|p] p' ks ks' j j' c; [|done]. by intros [= <-].
  - split; try done.
    + by exists None, 0.
    + intros [|p] x H; [|done]. injection H as <-. cbn. lia.
    + by intros [|p] x k; [intros [= <-]|].
    + intros [|p] ks x c y H; [|done]. injection H as <-. by intros ?%not_elem_of_nil.
    + intros [|p] ks x j j' c c' y y' b b' H; [|done]. injection H as <-. done.
    + lia.
    + intros [|p] ks c H; [|done]. injection H as <-. by intros ?%not_elem_of_nil.
  - exists 0, [], (None, 0, 0). split_and!; [done|constructor|done|done].
  - unfold new_topology. cbn [prev] in H. rewrite H. cbn [mbind res_bind]. by exists nodes, kids.
Qed.

End Tree.

(** ** The layout loop *)
Section LayoutLoop.
Context `{W : Leb128} {HW : Leb128Laws W}.

Definition same_node (n n' : Node) : Prop :=
  node_address n' = node_address n /\ node_flags n' = node_flags n /\
  first_edge n' = first_edge n /\ num_edges n' = num_edges n.

Definition same_edge (e e' : Edge) : Prop := label e' = label e /\ child e' = child e.

Definition edge_le (e e' : Edge) : Prop := same_edge e e' /\ child_offset_size e <= child_offset_size e'.

(** The same edges, and no more content. *)
Definition node_le (n n' : Node) : Prop :=
  first_edge n' = first_edge n /\ num_edges n' = num_edges n /\ terminal_size n <= terminal_size n'.

Lemma same_node_le n n' : same_node n n' -> node_le n n'.
Proof. intros (Ha & Hf & ? & ?). unfold node_le, terminal_size. rewrite Ha, Hf. by split_and!. Qed.

Lemma node_edges_rel (R : Edge -> Edge -> Prop) edges edges' n n' es :
  Forall2 R edges edges' -> node_le n n' -> node_edges edges n = Ok es ->
  exists es', node_edges edges' n' = Ok es' /\ Forall2 R es es'.
Proof.
  intros HR (Hf & Hn & _). unfold node_edges. rewrite Hf, Hn, (Forall2_length _ _ _ HR).
  case_match; [|done]. intros [= <-]. eexists. split; [done|]. by apply Forall2_take, Forall2_drop.
Qed.

Lemma sum_edge_size es es' :
  Forall2 edge_le es es' -> sum_list_with edge_size es <= sum_list_with edge_size es'.
Proof.
  induction 1 as [|e e' es es' [[Hl _] Hle] _ IH]; [done|]. cbn [sum_list_with]. unfold edge_size at 1 3. rewrite Hl. lia.
Qed.

(** Larger edges and contents make larger nodes. *)
Lemma node_size_le edges edges' n n' s :
  Forall2 edge_le edges edges' -> node_le n n' -> node_size edges n = Ok s ->
  exists s', node_size edges' n' = Ok s' /\ s <= s'.
Proof.
  intros HR Hs. unfold node_size. destruct (node_edges edges n) as [es| |] eqn:He; cbn [mbind res_bind]; try done.
  destruct (node_edges_rel _ _ _ _ _ _ HR Hs He) as (es' & -> & Hes). cbn [mbind res_bind]. intros [= <-].
  eexists. split; [reflexivity|]. destruct Hs as (_ & _ & Ht). apply sum_edge_size in Hes.
  pose proof (size_mono (Z.of_nat (terminal_size n)) (Z.of_nat (terminal_size n'))) as Hm.
  specialize (Hm ltac:(lia)). lia.
Qed.

Definition layout_of (edges : list Edge) (nodes : list Node) (pos : nat) (r : list Node) : Prop :=
  Forall2 same_node nodes r /\
  forall p n, r !! p = Some n -> node_size edges n = Ok (size n) /\
    offset n = pos + sum_list_with size (take p r).

Lemma node_size_same edges n n' : same_node n n' -> node_size edges n' = node_size edges n.
Proof.
  intros (Ha & Hf & H1 & H2). unfold node_size, node_edges, terminal_size. by rewrite Ha, Hf, H1, H2.
Qed.

Lemma layout_nodes_spec edges nodes : forall pos,
  (forall n, n ∈ nodes -> is_Ok (node_edges edges n)) ->
  exists r, layout_nodes edges nodes pos = Ok r /\ layout_of edges nodes pos r.
Proof.
  induction nodes as [|n nodes IH]; intros pos Hok.
  - exists []. split; [done|]. split; [constructor|]. by intros p n.
  - destruct (Hok n) as [es Hes]; [by left|].
    assert (exists s, node_size edges n = Ok s) as [s Hs]
      by (unfold node_size; rewrite Hes; by eexists).
    destruct (IH (pos + s)) as (r & Hr & Hsame & Hat); [intros m Hm; apply Hok; by right|].
    cbn [layout_nodes]. rewrite Hs. cbn [mbind res_bind]. rewrite Hr. cbn [mbind res_bind].
    eexists. split; [reflexivity|]. split; [by constructor|].
    intros [|p] m Hm; cbn in Hm.
    + injection Hm as <-. split; [|cbn; lia]. rewrite (node_size_same _ n); [done|by split].
    + destruct (Hat p m Hm) as [H1 H2]. split; [done|]. rewrite H2. cbn. lia.
Qed.

Lemma layout_mono edges edges' nodes nodes' : forall pos pos' r r',
  Forall2 edge_le edges edges' -> Forall2 same_node nodes nodes' -> pos <= pos' ->
  layout_nodes edges nodes pos = Ok r -> layout_nodes edges' nodes' pos' = Ok r' ->
  Forall2 (fun n n' => offset n <= offset n') r r'.
Proof.
  intros pos pos' r r' HR Hs. revert pos pos' r r'.
  induction Hs as [|n n' nodes nodes' Hn Hs IH]; intros pos pos' r r' Hp; cbn [layout_nodes].
  - intros [= <-] [= <-]. constructor.
  - destruct (node_size edges n) as [s| |] eqn:E; cbn [mbind res_bind]; try done.
    destruct (node_size_le _ _ _ _ _ HR (same_node_le _ _ Hn) E) as (s' & -> & Hle). cbn [mbind res_bind].
    destruct (layout_nodes edges nodes (pos + s)) as [q| |] eqn:E1; cbn [mbind res_bind]; try done. intros [= <-].
    destruct (layout_nodes edges' nodes' (pos' + s')) as [q'| |] eqn:E2; cbn [mbind res_bind]; try done. intros [= <-].
    constructor; [done|]. eapply IH; [|exact E1|exact E2]. lia.
Qed.

(** The child offset sizes of [edges'] are those of the offsets in [nodes]. *)
Definition updated (nodes : list Node) (e e' : Edge) : Prop :=
  same_edge e e' /\ exists n, nodes !! child e = Some n /\ child_offset_size e' = uleb128_size (Z.of_nat (offset n)).

Lemma update_edges_spec nodes edges :
  Forall (fun e => child e < length nodes) edges ->
  exists edges', mapM (update_edge nodes) edges = Ok edges' /\ Forall2 (updated nodes) edges edges'.
Proof.
  intros Hc. rewrite Forall_forall in Hc.
  destruct (mapM_Ok (update_edge nodes) edges) as (edges' & H & Hf).
  - intros e He. unfold update_edge, get. destruct (nodes !! child e) eqn:E; [by eexists|].
    apply lookup_ge_None in E. specialize (Hc e He). lia.
  - exists edges'. split; [done|]. eapply Forall2_impl; [exact Hf|]. intros e e'. unfold update_edge, get.
    destruct (nodes !! child e) as [n|] eqn:E; [|done]. intros [= <-]. split; [done|]. by exists n.
Qed.

Lemma updated_mono nodes nodes' edges edges1 edges2 :
  Forall2 (fun n n' => offset n <= offset n') nodes nodes' ->
  Forall2 (updated nodes) edges edges1 -> Forall2 (updated nodes') edges1 edges2 -> Forall2 edge_le edges1 edges2.
Proof.
  intros Hn H1. revert edges2. induction H1 as [|e e1 edges edges1 [[Hl Hc] (n & Hlk & Hs)] _ IH];
    intros edges2 H2; inversion H2 as [|? e2 ? ? [[Hl' Hc'] (n' & Hlk' & Hs')]]; subst; constructor; [|by apply IH].
  split; [by split|]. rewrite Hs, Hs'. rewrite Hc in Hlk'.
  destruct (Forall2_lookup_lr _ _ _ _ _ _ Hn Hlk Hlk'). all: apply size_mono; lia.
Qed.

(** *** Termination *)
Definition slack (edges : list Edge) : nat := sum_list_with (fun e => 10 - child_offset_size e) edges.

Lemma slack_decreases edges edges' :
  Forall2 edge_le edges edges' -> Forall (fun e => child_offset_size e <= 10) edges' ->
  slack edges' <= slack edges /\
  (existsb (fun p => edge_changed p.1 p.2) (zip edges edges') = true -> slack edges' < slack edges) /\
  (existsb (fun p => edge_changed p.1 p.2) (zip edges edges') = false -> edges' = edges).
Proof.
  unfold slack. induction 1 as [|e e' es es' [[Hl Hc] Hle] _ IH]; intros H10; [by split|].
  apply Forall_cons in H10 as [H0 H10]. destruct IH as (H1 & H2 & H3); [done|]. cbn. unfold edge_changed at 1 3. cbn.
  split; [lia|]. destruct (Nat.eqb_spec (child_offset_size e) (child_offset_size e')) as [E|]; cbn.
  - split; [intros H; specialize (H2 H); lia|]. intros H. rewrite (H3 H). f_equal.
    destruct e, e'; cbn in *; congruence.
  - split; [lia|done].
Qed.

Definition edges_in (nodes : list Node) (edges : list Edge) : Prop :=
  (forall n, n ∈ nodes -> is_Ok (node_edges edges n)) /\ Forall (fun e => child e < length nodes) edges.

Lemma edges_in_same nodes nodes' edges edges' :
  Forall2 same_node nodes nodes' -> Forall2 same_edge edges edges' -> edges_in nodes edges -> edges_in nodes' edges'.
Proof.
  intros Hn He [H1 H2]. split.
  - intros n' [i Hi]%list_elem_of_lookup_1. destruct (Forall2_lookup_r _ _ _ _ _ Hn Hi) as (n & Hin & Hs).
    destruct (H1 n) as [es Hes]; [by eapply list_elem_of_lookup_2|].
    destruct (node_edges_rel _ _ _ _ _ _ He (same_node_le _ _ Hs) Hes) as (es' & ? & _). by exists es'.
  - rewrite <- (Forall2_length _ _ _ Hn). clear -He H2. induction He as [|e e' es es' [_ Hc] _ IH]; [done|].
    inversion H2; subst. constructor; [by rewrite Hc|by apply IH].
Qed.

(** A stable layout: the offsets follow from the sizes, and the sizes of the child
    offsets from the offsets. *)
Definition stable (nodes : list Node) (edges : list Edge) : Prop :=
  (forall p n, nodes !! p = Some n -> node_size edges n = Ok (size n) /\ offset n = sum_list_with size (take p nodes)) /\
  Forall (fun e => exists n, nodes !! child e = Some n /\ child_offset_size e = uleb128_size (Z.of_nat (offset n))) edges.

Lemma Forall2_same_trans {A B C} (R1 : A -> B -> Prop) (R2 : B -> C -> Prop) (R3 : A -> C -> Prop) l1 l2 l3 :
  (forall x y z, R1 x y -> R2 y z -> R3 x z) -> Forall2 R1 l1 l2 -> Forall2 R2 l2 l3 -> Forall2 R3 l1 l3.
Proof. intros H H1. revert l3. induction H1; intros l3 H2; inversion H2; subst; constructor; eauto. Qed.

Lemma same_node_trans n1 n2 n3 : same_node n1 n2 -> same_node n2 n3 -> same_node n1 n3.
Proof. unfold same_node. intuition congruence. Qed.

Lemma same_edge_trans e1 e2 e3 : same_edge e1 e2 -> same_edge e2 e3 -> same_edge e1 e3.
Proof. unfold same_edge. intuition congruence. Qed.

Lemma layout_loop fuel : forall nodes edges,
  edges_in nodes edges -> slack edges < fuel ->
  (forall nodes1 edges1, layout_nodes edges nodes 0 = Ok nodes1 -> mapM (update_edge nodes1) edges = Ok edges1 ->
     Forall2 edge_le edges edges1) ->
  exists nodes' edges', layout_until_stable fuel nodes edges = Ok (Some (nodes', edges')) /\
    Forall2 same_node nodes nodes' /\ Forall2 same_edge edges edges' /\ stable nodes' edges'.
Proof.
  induction fuel as [|fuel IH]; intros nodes edges Hin Hfuel Hpre; [lia|].
  destruct (layout_nodes_spec edges nodes 0 (proj1 Hin)) as (r & Hr & Hsame & Hat).
  assert (edges_in r edges) as Hinr by (by eapply (edges_in_same nodes r edges edges); [|apply Forall_Forall2_diag, Forall_forall|]).
  destruct (update_edges_spec r edges (proj2 Hinr)) as (edges1 & Hu & Hup).
  pose proof (Hpre _ _ Hr Hu) as Hle. cbn [layout_until_stable]. rewrite Hr. cbn [mbind res_bind]. rewrite Hu.
  cbn [mbind res_bind].
  assert (Forall2 same_edge edges edges1) as Hse by (eapply Forall2_impl; [exact Hup|]; by intros ? ? [? _]).
  assert (Forall (fun e => child_offset_size e <= 10) edges1) as H10.
  { clear -Hup HW. induction Hup as [|e e' es es' [_ (n & _ & Hs)] _ IH]; constructor; [|done]. rewrite Hs. apply size_bound. }
  destruct (slack_decreases _ _ Hle H10) as (Hs1 & Hs2 & Hs3).
  destruct (existsb _ _) eqn:Ech.
  - specialize (Hs2 eq_refl). destruct (IH r edges1) as (nodes' & edges' & H1 & H2 & H3 & H4).
    + by apply (edges_in_same nodes r edges edges1).
    + lia.
    + intros nodes2 edges2 Hr2 Hu2. apply mapM_Ok_inv in Hu2.
      assert (Forall2 (updated nodes2) edges1 edges2) as Hup2.
      { eapply Forall2_impl; [exact Hu2|]. intros e e'. unfold update_edge, get.
        destruct (nodes2 !! child e) as [n|] eqn:E; [|done]. intros [= <-]. split; [done|]. by exists n. }
      apply (updated_mono r nodes2 edges); [|done|done]. by eapply (layout_mono edges edges1 nodes r 0 0).
    + exists nodes', edges'. split_and!; [done| | |done].
      * by eapply Forall2_same_trans; [exact same_node_trans|..].
      * by eapply Forall2_same_trans; [exact same_edge_trans|..].
  - specialize (Hs3 eq_refl) as ->. exists r, edges. split_and!; [done..|]. split.
    + intros p n Hn. destruct (Hat p n Hn). done.
    + clear -Hup. apply Forall_forall. intros e He. destruct (list_elem_of_lookup_1 _ _ He) as [i Hi].
      destruct (Forall2_lookup_lr _ _ _ _ _ _ Hup Hi Hi) as [_ (n & ? & ?)]. by exists n.
Qed.

(** *** Less content, no larger layout *)
Lemma layout_nodes_below edges edges' nodes nodes' : Forall2 edge_le edges edges' -> Forall2 node_le nodes nodes' ->
  forall pos pos' r, pos <= pos' -> layout_nodes edges nodes pos = Ok r ->
  (forall p n', nodes' !! p = Some n' -> node_size edges' n' = Ok (size n') /\
     offset n' = pos' + sum_list_with size (take p nodes')) ->
  Forall2 (fun n n' => node_le n n' /\ offset n <= offset n' /\ size n <= size n') r nodes'.
Proof.
  intros HR. induction 1 as [|n n' nodes nodes' Hn Hs IH]; intros pos pos' r Hp; cbn [layout_nodes].
  { intros [= <-] _. constructor. }
  destruct (node_size edges n) as [s| |] eqn:E; cbn [mbind res_bind]; try done.
  destruct (layout_nodes edges nodes (pos + s)) as [q| |] eqn:E1; cbn [mbind res_bind]; try done.
  intros [= <-] Hat. destruct (node_size_le _ _ _ _ _ HR Hn E) as (s' & Es' & Hle).
  destruct (Hat 0 n' eq_refl) as [H0 Ho]. rewrite Es' in H0. injection H0 as ->. cbn in Ho.
  constructor; [split; [exact Hn|cbn; lia]|].
  apply (IH (pos + s) (pos' + size n')); [lia|done|].
  intros p m Hm. destruct (Hat (S p) m Hm) as [H1 H2]. split; [done|]. cbn in H2. lia.
Qed.

Lemma layout_until_stable_below fuel : forall nodes edges nodes' edges' r e,
  Forall2 node_le nodes nodes' -> Forall2 edge_le edges edges' -> stable nodes' edges' ->
  layout_until_stable fuel nodes edges = Ok (Some (r, e)) ->
  Forall2 (fun n n' => offset n <= offset n' /\ size n <= size n') r nodes'.
Proof.
  induction fuel as [|fuel IH]; intros nodes edges nodes' edges' r e Hn He Hst; [done|]. cbn [layout_until_stable].
  destruct (layout_nodes edges nodes 0) as [q| |] eqn:Eq; cbn [mbind res_bind]; try done.
  apply (layout_nodes_below edges edges' nodes nodes' He Hn 0 0) in Eq as Hb; [|done|apply Hst].
  destruct (mapM (update_edge q) edges) as [edges1| |] eqn:Eu; cbn [mbind res_bind]; try done.
  destruct (existsb _ _); [|intros [= <- <-]; eapply Forall2_impl; [exact Hb|by intros ? ? (_ & ? & ?)]].
  apply (IH q edges1 nodes' edges' r e); [eapply Forall2_impl; [exact Hb|by intros ? ? (? & _)]| |done].
  apply mapM_Ok_inv in Eu. destruct Hst as [_ Hst]. clear -Eu He Hb Hst HW.
  induction He as [|e0 e' edges edges' [[Hl Hc] _] _ IH] in edges1, Eu, Hst |- *; inversion Eu as [|? e1 ? ? H1 H2]; subst; [constructor|].
  apply Forall_cons in Hst as [(m' & Hm' & Hs) Hst]. constructor; [|by apply IH].
  unfold update_edge, get in H1. destruct (q !! child e0) as [m|] eqn:Em; [|done]. injection H1 as <-.
  split; [done|]. cbn. rewrite Hs. rewrite Hc in Hm'.
  destruct (Forall2_lookup_lr _ _ _ _ _ _ Hb Em Hm') as (_ & Ho & _). apply size_mono. lia.
Qed.

Lemma encoded_size_below nodes nodes' :
  Forall2 (fun n n' => offset n <= offset n' /\ size n <= size n') nodes nodes' -> encoded_size nodes <= encoded_size nodes'.
Proof.
  intros H. unfold encoded_size. rewrite !last_lookup, (Forall2_length _ _ _ H).
  destruct (nodes !! _) as [n|] eqn:E; [|lia]. destruct (Forall2_lookup_l _ _ _ _ _ H E) as (n' & -> & ?). lia.
Qed.

End LayoutLoop.

(** ** The nodes and edges of the builder *)
Section Build.
Context (symbols : list Symbol) (T : list UncompressedNode) (kids : list (list nat)).
Hypothesis Hwf : symbols_wf symbols.
Hypothesis Hl : links T kids.
Hypothesis Ht : tree symbols (length symbols) (payload <$> T) kids.

Lemma T_payload c n : T !! c = Some n -> (payload <$> T) !! c = Some (payload n).
Proof. intros H. by rewrite list_lookup_fmap, H. Qed.

Lemma kids_nodup p ks : kids !! p = Some ks -> NoDup ks.
Proof.
  intros Hk. apply NoDup_alt. intros i j c Hi Hj. by destruct (lk_unique _ _ Hl _ _ _ _ _ _ _ Hk Hk Hi Hj).
Qed.

Lemma kids_length p ks : kids !! p = Some ks -> length ks <= length T.
Proof.
  intros Hk. rewrite <- (length_seq (length T) 0). apply submseteq_length, NoDup_submseteq; [by eapply kids_nodup|].
  intros c Hc. apply elem_of_seq. pose proof (lk_range _ _ Hl _ _ _ Hk Hc). lia.
Qed.

Lemma siblings_spec p ks : kids !! p = Some ks ->
  forall fuel j, length ks - j <= fuel -> siblings fuel T (ks !! j) = Ok (drop j ks).
Proof.
  intros Hk. induction fuel as [|fuel IH]; intros j Hj; cbn [siblings].
  - rewrite (lookup_ge_None_2 ks) by lia. by rewrite drop_ge by lia.
  - destruct (ks !! j) as [c|] eqn:Hc; [|apply lookup_ge_None in Hc; by rewrite drop_ge by lia].
    destruct (links_kid_node _ _ _ _ _ Hl Hk (list_elem_of_lookup_2 _ _ _ Hc)) as [n Hn].
    unfold get. rewrite Hn. cbn [mbind res_bind]. destruct (lk_sibling _ _ Hl _ _ _ _ _ Hk Hc Hn) as [_ ->].
    rewrite IH by lia. cbn [mbind res_bind]. f_equal. by rewrite (drop_S _ _ _ Hc).
Qed.

(** What follows the parent's prefix in the prefix of a child. *)
Lemma kid_prefix p ks c tn cn :
  kids !! p = Some ks -> c ∈ ks -> T !! p = Some tn -> T !! c = Some cn ->
  depth tn < depth cn /\
  pfx symbols (payload cn) = pfx symbols (payload tn) ++ drop (depth tn) (pfx symbols (payload cn)) /\
  length (pfx symbols (payload cn)) = depth cn.
Proof.
  intros Hk Hc Hp Hn. apply T_payload in Hp, Hn.
  destruct (t_kid _ _ _ _ Ht _ _ _ _ _ Hk Hc Hp Hn) as [Hlt Hpre]. split; [done|].
  split; [|by rewrite (length_pfx _ _ _ _ _ _ Ht Hn)].
  pose proof (length_pfx _ _ _ _ _ _ Ht Hp) as Hlen. cbn [payload snd] in Hlen.
  destruct Hpre as [k ->]. by rewrite <- Hlen, drop_app_length.
Qed.

Definition edge_rel (d : nat) (c : nat) (e : Edge) : Prop :=
  child e = c /\ exists cn, T !! c = Some cn /\ label e = drop d (pfx symbols (payload cn)).

Lemma build_edge_spec p ks c tn :
  kids !! p = Some ks -> c ∈ ks -> T !! p = Some tn ->
  exists e, build_edge symbols T tn c = Ok e /\ edge_rel (depth tn) c e /\ child_offset_size e = 1.
Proof.
  intros Hk Hc Hp. destruct (links_kid_node _ _ _ _ _ Hl Hk Hc) as [cn Hn].
  destruct (kid_prefix _ _ _ _ _ Hk Hc Hp Hn) as (Hlt & _ & _).
  destruct (t_depth _ _ _ _ Ht _ _ (T_payload _ _ Hn)) as [Hlen Hrep]. cbn in Hlen, Hrep.
  destruct (symbols !! representative cn) as [s|] eqn:Hs; [|apply lookup_ge_None in Hs; lia].
  unfold nm in Hlen. rewrite Hs in Hlen.
  unfold build_edge, get. rewrite Hn. cbn [mbind res_bind]. rewrite Hs. cbn [mbind res_bind].
  unfold name_slice. rewrite !(proj2 (Nat.leb_le _ _)) by lia. cbn [andb mbind res_bind].
  eexists. split; [reflexivity|]. split; [|done]. split; [done|]. exists cn. split; [done|]. cbn [label].
  unfold pfx, nm. cbn. rewrite Hs, take_drop_commute. f_equal. f_equal. lia.
Qed.

Lemma mapM_build_edge p ks tn l :
  kids !! p = Some ks -> T !! p = Some tn -> (forall c, c ∈ l -> c ∈ ks) ->
  exists es, mapM (build_edge symbols T tn) l = Ok es /\ Forall2 (edge_rel (depth tn)) l es /\
    Forall (fun e => child_offset_size e = 1) es.
Proof.
  intros Hk Hp. induction l as [|c l IH]; intros Hin; [by exists []|].
  destruct (build_edge_spec _ _ c _ Hk (Hin c ltac:(by left)) Hp) as (e & He & Hr & H1).
  destruct IH as (es & Hes & Hrs & H1s); [intros c' Hc'; apply Hin; by right|].
  exists (e :: es). cbn. rewrite He. cbn [mbind res_bind]. rewrite Hes. cbn. split_and!; [done|by constructor..].
Qed.

(** The node of the builder that stands for the node [tn] of the topology. *)
Definition node_content (tn : UncompressedNode) (n : Node) : Prop :=
  match symbol tn with
  | None => node_address n = None
  | Some k => exists s, symbols !! k = Some s /\ node_address n = Some (address s) /\ node_flags n = flags s
  end.

Definition node_ok (edges : list Edge) (p : nat) (n : Node) : Prop :=
  exists tn ks es, T !! p = Some tn /\ kids !! p = Some ks /\ node_content tn n /\ num_edges n = length ks /\
    node_edges edges n = Ok es /\ Forall2 (edge_rel (depth tn)) ks es.

Lemma node_edges_app edges es more n :
  first_edge n = length edges -> num_edges n = length es -> node_edges ((edges ++ es) ++ more) n = Ok es.
Proof.
  intros H1 H2. unfold node_edges. rewrite H1, H2, !length_app, (proj2 (Nat.leb_le _ _)) by lia.
  rewrite <- app_assoc, drop_app_length, take_app_length. done.
Qed.

Lemma build_nodes_spec l : forall k acc,
  drop k T = l -> exists nodes new, build_nodes symbols T l acc = Ok (nodes, acc ++ new) /\
    length nodes = length l /\
    Forall (fun e => child_offset_size e = 1 /\ child e < length T) new /\
    forall p n, nodes !! p = Some n -> node_ok (acc ++ new) (k + p) n.
Proof.
  induction l as [|tn l IH]; intros k acc Hdrop.
  - exists [], []. cbn. rewrite app_nil_r. split_and!; [done..|]. by intros p n.
  - assert (T !! k = Some tn) as Hk by (rewrite <- (Nat.add_0_r k), <- lookup_drop, Hdrop; done).
    destruct (links_kids _ _ _ _ Hl Hk) as [ks Hks]. destruct (lk_node _ _ Hl _ _ _ Hks Hk) as (Hf & _ & Hnum).
    destruct (mapM_build_edge k ks tn ks Hks Hk) as (es & Hes & Hrel & Hone); [done|].
    destruct (IH (S k) (acc ++ es)) as (nodes & new & Hb & Hlen & Hnew & Hok).
    { rewrite <- Nat.add_1_r, <- drop_drop, Hdrop. done. }
    assert (exists a f, (match symbol tn with
                 | None => Ok (None, 0%Z)
                 | Some i => sym ← get symbols i; Ok (Some (address sym), flags sym)
                 end) = Ok (a, f) /\ node_content tn (mkNode a f (length acc) (num_children tn) 0 0)) as (a & f & Ha & Hc).
    { unfold node_content. destruct (symbol tn) as [i|] eqn:Hs; [|by exists None, 0%Z].
      destruct (t_symbol _ _ _ _ Ht k _ i (T_payload _ _ Hk) Hs) as [Hi _].
      destruct (symbols !! i) as [s|] eqn:Hsi; [|apply lookup_ge_None in Hsi; lia].
      unfold get. rewrite Hsi. exists (Some (address s)), (flags s). split; [done|]. by exists s. }
    cbn [build_nodes]. rewrite Ha. cbn [mbind res_bind].
    rewrite Hf, head_lookup, (siblings_spec _ _ Hks) by (pose proof (kids_length _ _ Hks); lia).
    cbn [mbind res_bind]. rewrite drop_0, Hes. cbn [mbind res_bind]. rewrite Hb. cbn [mbind res_bind].
    eexists _, (es ++ new). rewrite app_assoc. split_and!; [done|cbn; by rewrite Hlen| |].
    + apply Forall_app. split; [|done]. apply Forall_forall. intros e He. rewrite Forall_forall in Hone.
      split; [by apply Hone|]. destruct (list_elem_of_lookup_1 _ _ He) as [j Hj].
      destruct (Forall2_lookup_r _ _ _ _ _ Hrel Hj) as (c & Hc' & Hce & _). rewrite Hce.
      pose proof (lk_range _ _ Hl _ _ _ Hks (list_elem_of_lookup_2 _ _ _ Hc')). lia.
    + intros [|p] n Hn; cbn in Hn; [injection Hn as <-|replace (k + S p) with (S k + p) by lia; by apply Hok].
      rewrite Nat.add_0_r. exists tn, ks, es. split_and!; try done.
      apply node_edges_app; [done|]. cbn. by rewrite Hnum, (Forall2_length _ _ _ Hrel).
Qed.

(** A node has at most 255 children. *)
Lemma kids_bound p ks : kids !! p = Some ks -> length ks <= 255.
Proof.
  intros Hk. destruct (Nat.le_gt_cases (length ks) 255) as [?|Hgt]; [done|exfalso].
  destruct (T !! p) as [tn|] eqn:Hp;
    [|apply lookup_ge_None in Hp; apply lookup_lt_Some in Hk; rewrite (lk_length _ _ Hl) in Hk; lia].
  assert (forall j c, ks !! j = Some c -> exists cn b, T !! c = Some cn /\
    pfx symbols (payload cn) !! depth tn = Some b /\ (0 < b < 256)%Z) as Hbyte.
  { intros j c Hj. pose proof (list_elem_of_lookup_2 _ _ _ Hj) as Hc. destruct (links_kid_node _ _ _ _ _ Hl Hk Hc) as [cn Hn].
    destruct (kid_prefix _ _ _ _ _ Hk Hc Hp Hn) as (Hlt & _ & Hlen). exists cn.
    destruct (pfx symbols (payload cn) !! depth tn) as [b|] eqn:Hb; [|apply lookup_ge_None in Hb; lia].
    exists b. split_and!; [done|done|..]; unfold pfx, nm in Hb; cbn in Hb; apply lookup_take_Some in Hb as [Hb _];
      destruct (symbols !! representative cn) as [s|] eqn:Hs; try done;
      pose proof (wf_bytes _ Hwf) as Hbytes; eapply Forall_lookup_1 in Hbytes; try done;
      eapply Forall_lookup_1 in Hbytes; try done; cbn in Hbytes; lia. }
  assert (forall j c cn b, ks !! j = Some c -> T !! c = Some cn ->
    pfx symbols (payload cn) !! depth tn = Some b -> (Z.of_nat j < b)%Z) as Hmin.
  { induction j as [|j IH]; intros c cn b Hj Hn Hb.
    - destruct (Hbyte _ _ Hj) as (cn' & b' & ? & ? & ?). simplify_eq. lia.
    - destruct (ks !! j) as [c0|] eqn:H0; [|apply lookup_ge_None in H0; apply lookup_lt_Some in Hj; lia].
      destruct (Hbyte _ _ H0) as (cn0 & b0 & Hn0 & Hb0 & _). specialize (IH _ _ _ eq_refl Hn0 Hb0).
      pose proof (t_ascend _ _ _ _ Ht p ks _ j (S j) c0 c _ _ b0 b Hk (T_payload _ _ Hp) H0 Hj ltac:(lia)
        (T_payload _ _ Hn0) (T_payload _ _ Hn) Hb0 Hb). lia. }
  destruct (ks !! 255) as [c|] eqn:Hc; [|apply lookup_ge_None in Hc; lia].
  destruct (Hbyte _ _ Hc) as (cn & b & Hn & Hb & Hr). pose proof (Hmin _ _ _ _ Hc Hn Hb). lia.
Qed.

(** *** The encoded trie *)
Context `{W : Leb128} {HW : Leb128Laws W}.
Context (nodes : list Node) (edges : list Edge).
Hypothesis Hlen : length nodes = length T.
Hypothesis Hok : forall p n, nodes !! p = Some n -> node_ok edges p n.
Hypothesis Hstable : stable nodes edges.
Hypothesis Hsmall : (Z.of_nat (encoded_size nodes) < 2 ^ 64)%Z.

Lemma sum_take_S p n : nodes !! p = Some n ->
  sum_list_with size (take (S p) nodes) = sum_list_with size (take p nodes) + size n.
Proof. intros Hn. rewrite (take_S_r _ _ _ Hn), sum_list_with_app. cbn. lia. Qed.

Lemma encoded_size_sum : encoded_size nodes = sum_list_with size nodes.
Proof.
  unfold encoded_size. rewrite last_lookup. destruct (nodes !! pred (length nodes)) as [n|] eqn:Hn.
  - destruct (proj1 Hstable _ _ Hn) as [_ ->]. rewrite <- sum_take_S by done.
    pose proof (lookup_lt_Some _ _ _ Hn). by rewrite take_ge by lia.
  - apply lookup_ge_None in Hn. destruct nodes; [done|]. cbn in Hn. lia.
Qed.

Lemma sum_take_le {A} (f : A -> nat) l k : sum_list_with f (take k l) <= sum_list_with f l.
Proof. rewrite <- (take_drop k l) at 2. rewrite sum_list_with_app. lia. Qed.

Lemma offset_small p n : nodes !! p = Some n -> in_u 64 (Z.of_nat (offset n)).
Proof.
  intros Hn. destruct (proj1 Hstable _ _ Hn) as [_ ->]. pose proof (sum_take_le size nodes p).
  rewrite encoded_size_sum in Hsmall. unfold in_u. lia.
Qed.

Lemma node_numbers p n a : nodes !! p = Some n -> node_address n = Some a -> in_u 64 a /\ in_u 64 (node_flags n).
Proof.
  intros Hn Ha. destruct (Hok _ _ Hn) as (tn & ks & es & _ & _ & Hc & _). unfold node_content in Hc.
  destruct (symbol tn) as [k|]; [|congruence]. destruct Hc as (s & Hs & Hsa & ->).
  pose proof (wf_numbers _ Hwf) as Hnum. eapply Forall_lookup_1 in Hnum; [|exact Hs].
  assert (a = address s) as -> by congruence. done.
Qed.

Lemma terminal_small n : in_u 64 (Z.of_nat (terminal_size n)).
Proof.
  unfold terminal_size, regular_export_size. destruct (node_address n) as [a|]; [|done].
  pose proof (size_bound a). pose proof (size_bound (node_flags n)). unfold in_u. lia.
Qed.

Definition encoded_edge (e : Edge) : list Z :=
  match nodes !! child e with
  | Some n => label e ++ [0%Z] ++ write_uleb128 (Z.of_nat (offset n))
  | None => []
  end.

Definition encoded_terminal (n : Node) : list Z :=
  match node_address n with
  | Some a =>
      write_uleb128 (Z.of_nat (terminal_size n)) ++ write_uleb128 (node_flags n) ++ write_uleb128 a
  | None => write_uleb128 0
  end.

(** The edges of a node, and what they lead to. *)
Lemma node_edges_spec p n tn ks :
  nodes !! p = Some n -> T !! p = Some tn -> kids !! p = Some ks ->
  exists es, node_edges edges n = Ok es /\ Forall2 (edge_rel (depth tn)) ks es /\
    mapM (encode_edge nodes) es = Ok (encoded_edge <$> es) /\
    Forall (fun e => length (encoded_edge e) = edge_size e) es.
Proof.
  intros Hn Htn Hks. destruct (Hok _ _ Hn) as (tn' & ks' & es & Htn' & Hks' & _ & _ & Hes & Hrel).
  assert (tn' = tn) as -> by congruence. assert (ks' = ks) as -> by congruence. exists es.
  assert (Forall (fun e => exists m, nodes !! child e = Some m /\
    child_offset_size e = uleb128_size (Z.of_nat (offset m))) es) as Hin.
  { unfold node_edges in Hes. case_match; [|done]. injection Hes as <-. apply Forall_take, Forall_drop, Hstable. }
  split_and!; [done|done| |].
  - clear -Hin. induction Hin as [|e es (m & Hm & _) _ IH]; [done|].
    cbn [mapM]. assert (encode_edge nodes e = Ok (encoded_edge e)) as ->
      by (unfold encode_edge, encoded_edge, get; by rewrite Hm). cbn [mbind res_bind]. by rewrite IH.
  - eapply Forall_impl; [exact Hin|]. intros e (m & Hm & Hs). unfold encoded_edge, edge_size. rewrite Hm, !length_app, Hs.
    rewrite write_size by (by eapply offset_small). cbn. lia.
Qed.

Lemma encode_node_spec p n tn ks :
  nodes !! p = Some n -> T !! p = Some tn -> kids !! p = Some ks ->
  exists es, Forall2 (edge_rel (depth tn)) ks es /\
    encode_node nodes edges n =
      Ok (encoded_terminal n ++ [Z.of_nat (length es)] ++ concat (encoded_edge <$> es)) /\
    length (encoded_terminal n ++ [Z.of_nat (length es)] ++ concat (encoded_edge <$> es)) = size n.
Proof.
  intros Hn Htn Hks. destruct (node_edges_spec _ _ _ _ Hn Htn Hks) as (es & Hes & Hrel & Henc & Hsize).
  exists es. split; [done|]. destruct (Hok _ _ Hn) as (tn' & ks' & es' & _ & Hks' & _ & Hnum & _ & _).
  assert (ks' = ks) by congruence. subst ks'. pose proof (kids_bound _ _ Hks) as H255.
  pose proof (Forall2_length _ _ _ Hrel) as Hle. split.
  - unfold encode_node. rewrite Hes. cbn [mbind res_bind]. rewrite Henc. cbn [mbind res_bind].
    rewrite Hnum, Hle, wrap_small by (unfold in_u; lia). unfold encoded_terminal, terminal_size.
    by destruct (node_address n).
  - destruct (proj1 Hstable _ _ Hn) as [Hs _]. unfold node_size in Hs. rewrite Hes in Hs. cbn [mbind res_bind] in Hs.
    injection Hs as <-. rewrite !length_app. cbn [length].
    assert (length (encoded_terminal n) = uleb128_size (Z.of_nat (terminal_size n)) + terminal_size n) as ->.
    { unfold encoded_terminal. destruct (node_address n) as [a|] eqn:Ha.
      - destruct (node_numbers _ _ _ Hn Ha). rewrite !length_app, !write_size by (done || apply terminal_small).
        unfold terminal_size. rewrite Ha. unfold regular_export_size. lia.
      - unfold terminal_size. rewrite Ha, write_size by done. change (Z.of_nat 0) with 0%Z. lia. }
    assert (length (concat (encoded_edge <$> es)) = sum_list_with edge_size es) as ->; [|lia].
    clear -Hsize. induction Hsize as [|e es He _ IH]; [done|]. cbn. by rewrite length_app, He, IH.
Qed.

Lemma node_exists p n : nodes !! p = Some n -> exists tn ks, T !! p = Some tn /\ kids !! p = Some ks.
Proof. intros Hn. destruct (Hok _ _ Hn) as (tn & ks & es & H1 & H2 & _). by exists tn, ks. Qed.

(** The encoding of every node is found at its offset. *)
Lemma encode_spec :
  exists trie, encode nodes edges = Ok trie /\ length trie = encoded_size nodes /\
    forall p n tn ks, nodes !! p = Some n -> T !! p = Some tn -> kids !! p = Some ks ->
      exists es rest, Forall2 (edge_rel (depth tn)) ks es /\
        drop (offset n) trie =
          encoded_terminal n ++ Z.of_nat (length es) :: concat (encoded_edge <$> es) ++ rest.
Proof.
  destruct (mapM_Ok (encode_node nodes edges) nodes) as (encs & Hencs & Hf).
  { intros n [p Hp]%list_elem_of_lookup_1. destruct (node_exists _ _ Hp) as (tn & ks & Htn & Hks).
    destruct (encode_node_spec _ _ _ _ Hp Htn Hks) as (es & _ & ? & _). by eexists. }
  assert (forall k, length (concat (take k encs)) = sum_list_with size (take k nodes)) as Hlens.
  { assert (Forall2 (fun n enc => length enc = size n) nodes encs) as Hs.
    { apply Forall2_same_length_lookup_2; [by eapply Forall2_length|]. intros p n enc Hn He.
      destruct (node_exists _ _ Hn) as (tn & ks & Htn & Hks).
      destruct (encode_node_spec _ _ _ _ Hn Htn Hks) as (es & _ & Hen & Hl').
      pose proof (Forall2_lookup_lr _ _ _ _ _ _ Hf Hn He). congruence. }
    clear -Hs. induction Hs as [|n enc ns es Hl _ IH]; intros [|k]; [done..|]. cbn. by rewrite length_app, Hl, IH. }
  exists (concat encs). unfold encode. rewrite Hencs. split; [done|]. split.
  - rewrite encoded_size_sum. specialize (Hlens (length nodes)).
    rewrite !take_ge in Hlens by (rewrite <- ?(Forall2_length _ _ _ Hf); done). done.
  - intros p n tn ks Hn Htn Hks. destruct (encode_node_spec _ _ _ _ Hn Htn Hks) as (es & Hrel & Hen & _).
    destruct (Forall2_lookup_l _ _ _ _ _ Hf Hn) as (enc & He & Hen'). exists es, (concat (drop (S p) encs)).
    split; [done|]. destruct (proj1 Hstable _ _ Hn) as [_ ->]. rewrite <- Hlens.
    rewrite <- (take_drop_middle _ _ _ He) at 2. rewrite concat_app, drop_app_length. cbn.
    assert (enc = encoded_terminal n ++ [Z.of_nat (length es)] ++ concat (encoded_edge <$> es)) as -> by congruence.
    by rewrite <- !app_assoc.
Qed.

(** *** Walking the trie *)
Lemma read_terminal p n l : nodes !! p = Some n ->
  exists body, uleb_decode (encoded_terminal n ++ l) = Some (Z.of_nat (terminal_size n), body) /\
    drop (terminal_size n) body = l /\
    match node_address n with
    | Some a => 0 < terminal_size n /\ body = write_uleb128 (node_flags n) ++ write_uleb128 a ++ l
    | None => terminal_size n = 0
    end.
Proof.
  intros Hn. unfold encoded_terminal. destruct (node_address n) as [a|] eqn:Ha.
  - destruct (node_numbers _ _ _ Hn Ha) as [H1 H2]. rewrite <- !app_assoc, read_write by apply terminal_small.
    eexists. split; [reflexivity|]. unfold terminal_size. rewrite Ha. unfold regular_export_size.
    pose proof (size_pos a). pose proof (size_pos (node_flags n)). split; [|split; [lia|done]].
    rewrite app_assoc. rewrite drop_app_length'; [done|]. by rewrite length_app, !write_size.
  - exists l. unfold terminal_size. rewrite Ha. split; [by apply read_write|done].
Qed.

Lemma take_label_spec s l : Forall (fun b => 0 < b)%Z s -> take_label (s ++ 0%Z :: l) = Some (s, l).
Proof.
  induction 1 as [|b s Hb _ IH]; [done|]. cbn. rewrite (proj2 (Z.eqb_neq _ _)) by lia. by rewrite IH.
Qed.

Definition matches (q : list Z) (e : Edge) : Prop := label e `prefix_of` q.

Instance matches_dec q e : Decision (matches q e).
Proof. unfold matches. apply _. Defined.

Lemma find_edge_spec d ks es rest q :
  Forall2 (edge_rel d) ks es ->
  match list_find (matches q) es with
  | Some (_, e) => exists n, nodes !! child e = Some n /\
      find_edge (length es) (concat (encoded_edge <$> es) ++ rest) q =
        Some (drop (length (label e)) q, Z.of_nat (offset n))
  | None => find_edge (length es) (concat (encoded_edge <$> es) ++ rest) q = None
  end.
Proof.
  induction 1 as [|c e ks es (Hc & cn & Hcn & Hlab) _ IH]; [done|].
  assert (exists n, nodes !! child e = Some n) as [n Hn].
  { apply lookup_lt_is_Some. rewrite Hlen, Hc. by eapply lookup_lt_Some. }
  assert (Forall (fun b => 0 < b)%Z (label e)) as Hpos.
  { rewrite Hlab. apply Forall_drop, Forall_take. unfold nm. destruct (symbols !! _) as [s|] eqn:Hs; [|constructor].
    pose proof (wf_bytes _ Hwf) as Hb. eapply Forall_lookup_1 in Hb; [|exact Hs].
    eapply Forall_impl; [exact Hb|]. cbn. lia. }
  assert (find_edge (length (e :: es)) (concat (encoded_edge <$> e :: es) ++ rest) q =
    if bool_decide (matches q e) then Some (drop (length (label e)) q, Z.of_nat (offset n))
    else find_edge (length es) (concat (encoded_edge <$> es) ++ rest) q) as Hstep.
  { cbn [length find_edge fmap list_fmap concat]. unfold encoded_edge at 1. rewrite Hn.
    rewrite <- !app_assoc. cbn [app]. rewrite take_label_spec by done. cbn [mbind option_bind].
    rewrite read_write by (by eapply offset_small). cbn [mbind option_bind]. done. }
  rewrite Hstep. cbn [list_find]. destruct (decide (matches q e)) as [Hm|Hm].
  - rewrite bool_decide_true by done. by exists n.
  - rewrite bool_decide_false by done. destruct (list_find (matches q) es) as [[j e']|]; cbn; done.
Qed.

(** Two children of a node do not lead to the same name. *)
Lemma kids_disjoint p ks tn j j' c c' cn cn' q :
  kids !! p = Some ks -> T !! p = Some tn -> ks !! j = Some c -> ks !! j' = Some c' ->
  T !! c = Some cn -> T !! c' = Some cn' ->
  drop (depth tn) (pfx symbols (payload cn)) `prefix_of` q ->
  drop (depth tn) (pfx symbols (payload cn')) `prefix_of` q -> j = j'.
Proof.
  intros Hk Hp Hj Hj' Hc Hc' H1 H2.
  assert (forall i d dn, ks !! i = Some d -> T !! d = Some dn -> drop (depth tn) (pfx symbols (payload dn)) `prefix_of` q ->
    exists b, pfx symbols (payload dn) !! depth tn = Some b /\ q !! 0 = Some b) as Hb.
  { intros i d dn Hi Hd Hq. destruct (kid_prefix _ _ _ _ _ Hk (list_elem_of_lookup_2 _ _ _ Hi) Hp Hd) as (Hlt & _ & Hlen').
    destruct (pfx symbols (payload dn) !! depth tn) as [b|] eqn:E; [|apply lookup_ge_None in E; lia].
    exists b. split; [done|]. eapply prefix_lookup_Some; [|exact Hq]. by rewrite lookup_drop, Nat.add_0_r. }
  destruct (Hb _ _ _ Hj Hc H1) as (b & Hb1 & Hq1). destruct (Hb _ _ _ Hj' Hc' H2) as (b' & Hb2 & Hq2).
  assert (b' = b) as -> by congruence.
  destruct (Nat.lt_trichotomy j j') as [Hlt|[?|Hlt]]; [exfalso|done|exfalso].
  - pose proof (t_ascend _ _ _ _ Ht p ks _ j j' c c' _ _ b b Hk (T_payload _ _ Hp) Hj Hj' Hlt (T_payload _ _ Hc)
      (T_payload _ _ Hc') Hb1 Hb2). lia.
  - pose proof (t_ascend _ _ _ _ Ht p ks _ j' j c' c _ _ b b Hk (T_payload _ _ Hp) Hj' Hj Hlt (T_payload _ _ Hc')
      (T_payload _ _ Hc) Hb2 Hb1). lia.
Qed.

Context (trie : list Z).
Hypothesis Htrie : forall p n tn ks, nodes !! p = Some n -> T !! p = Some tn -> kids !! p = Some ks ->
  exists es rest, Forall2 (edge_rel (depth tn)) ks es /\
    drop (offset n) trie = encoded_terminal n ++ Z.of_nat (length es) :: concat (encoded_edge <$> es) ++ rest.

(** What a node of the trie says of the empty name, and of any other. *)
Lemma walk_here p n tn ks fuel :
  nodes !! p = Some n -> T !! p = Some tn -> kids !! p = Some ks ->
  walk fuel trie (offset n) [] =
    match symbol tn with Some k => s ← symbols !! k; Some (flags s, address s) | None => None end.
Proof.
  intros Hn Htn Hks. destruct (Htrie _ _ _ _ Hn Htn Hks) as (es & rest & Hrel & Hdrop).
  destruct (read_terminal p n (Z.of_nat (length es) :: concat (encoded_edge <$> es) ++ rest) Hn) as (body & Hread & _ & Hbody).
  assert (node_content tn n) as Hc
    by (destruct (Hok _ _ Hn) as (tn' & ks' & es' & Htn' & _ & Hc & _); by assert (tn' = tn) as <- by congruence).
  unfold node_content in Hc.
  assert (forall f, walk f trie (offset n) [] = (if (Z.of_nat (terminal_size n) =? 0)%Z then None
    else '(f, body) ← uleb_decode body; '(a, _) ← uleb_decode body; Some (f, a))) as ->.
  { intros f. destruct f; cbn [walk]; rewrite Hdrop, Hread; done. }
  destruct (symbol tn) as [k|].
  - destruct Hc as (s & Hs & Ha & Hf). rewrite Ha in Hbody. destruct Hbody as [Hpos ->].
    destruct (node_numbers _ _ _ Hn Ha) as [H1 H2]. rewrite (proj2 (Z.eqb_neq _ _)) by lia.
    rewrite read_write by done. cbn [mbind option_bind]. rewrite read_write by done. cbn [mbind option_bind].
    rewrite Hs. cbn. by rewrite Hf.
  - rewrite Hc in Hbody. by rewrite Hbody.
Qed.

Lemma walk_on p n tn ks fuel b q :
  nodes !! p = Some n -> T !! p = Some tn -> kids !! p = Some ks ->
  exists es, Forall2 (edge_rel (depth tn)) ks es /\
    match list_find (matches (b :: q)) es with
    | Some (_, e) => exists m, nodes !! child e = Some m /\
        walk (S fuel) trie (offset n) (b :: q) = walk fuel trie (offset m) (drop (length (label e)) (b :: q))
    | None => walk (S fuel) trie (offset n) (b :: q) = None
    end.
Proof.
  intros Hn Htn Hks. destruct (Htrie _ _ _ _ Hn Htn Hks) as (es & rest & Hrel & Hdrop). exists es. split; [done|].
  destruct (read_terminal p n (Z.of_nat (length es) :: concat (encoded_edge <$> es) ++ rest) Hn) as (body & Hread & Hbody & _).
  assert (walk (S fuel) trie (offset n) (b :: q) =
    ('(q, target) ← find_edge (length es) (concat (encoded_edge <$> es) ++ rest) (b :: q);
     walk fuel trie (Z.to_nat target) q)) as ->.
  { cbn [walk]. rewrite Hdrop, Hread. cbn [mbind option_bind]. rewrite Nat2Z.id, Hbody. by rewrite Nat2Z.id. }
  pose proof (find_edge_spec _ _ _ rest (b :: q) Hrel) as Hfind.
  destruct (list_find (matches (b :: q)) es) as [[j e]|].
  - destruct Hfind as (m & Hm & ->). exists m. split; [done|]. cbn [mbind option_bind]. by rewrite Nat2Z.id.
  - by rewrite Hfind.
Qed.

Lemma node_of p tn : T !! p = Some tn -> exists n ks, nodes !! p = Some n /\ kids !! p = Some ks.
Proof.
  intros Hp. destruct (links_kids _ _ _ _ Hl Hp) as [ks Hks]. apply lookup_lt_Some in Hp. rewrite <- Hlen in Hp.
  apply lookup_lt_is_Some in Hp as [n Hn]. by exists n, ks.
Qed.

(** What a walk finds is the symbol of that name. *)
Lemma walk_sound fuel : forall p n tn q f a,
  nodes !! p = Some n -> T !! p = Some tn -> walk fuel trie (offset n) q = Some (f, a) ->
  exists s, s ∈ symbols /\ name s = pfx symbols (payload tn) ++ q /\ flags s = f /\ address s = a.
Proof.
  induction fuel as [|fuel IH]; intros p n tn q f a Hn Htn; destruct (node_of _ _ Htn) as (n' & ks & Hn' & Hks);
    (destruct q as [|b q]; [rewrite (walk_here _ _ _ _ _ Hn Htn Hks)|]).
  1,3: destruct (symbol tn) as [k|] eqn:Hs; [|done]; destruct (symbols !! k) as [s|] eqn:Hk; [|done];
    intros [= <- <-]; exists s; split; [by eapply list_elem_of_lookup_2|];
    destruct (t_symbol _ _ _ _ Ht p _ k (T_payload _ _ Htn) Hs) as [_ <-]; unfold nm; rewrite Hk, app_nil_r; done.
  - cbn [walk]. by destruct (uleb_decode _) as [[? ?]|].
  - destruct (walk_on _ _ _ _ fuel b q Hn Htn Hks) as (es & Hrel & Hfind).
    destruct (list_find (matches (b :: q)) es) as [[j e]|] eqn:Hf; [|by rewrite Hfind].
    destruct Hfind as (m & Hm & ->). apply list_find_Some in Hf as (Hj & [q' Hq'] & _).
    destruct (Forall2_lookup_r _ _ _ _ _ Hrel Hj) as (c & Hc & Hce & cn & Hcn & Hlab). rewrite Hce in Hm.
    intros Hw. destruct (IH _ _ _ _ _ _ Hm Hcn Hw) as (s & Hs & Hname & ? & ?). exists s. split_and!; try done.
    rewrite Hname, Hq', drop_app_length, app_assoc, Hlab. f_equal.
    by destruct (kid_prefix _ _ _ _ _ Hks (list_elem_of_lookup_2 _ _ _ Hc) Htn Hcn) as (_ & <- & _).
Qed.

(** Every symbol below a node is found from it. *)
Lemma walk_complete p c k s : rtc (kid kids) p c ->
  forall n tn cn q fuel, nodes !! p = Some n -> T !! p = Some tn -> T !! c = Some cn ->
  symbol cn = Some k -> symbols !! k = Some s -> name s = pfx symbols (payload tn) ++ q -> length q <= fuel ->
  walk fuel trie (offset n) q = Some (flags s, address s).
Proof.
  induction 1 as [p|p p' c (ks & Hks & Hp') Hr IH]; intros n tn cn q fuel Hn Htn Hcn Hsym Hk Hname Hfuel.
  - assert (cn = tn) as -> by congruence. destruct (node_of _ _ Htn) as (? & ks & _ & Hks).
    destruct (t_symbol _ _ _ _ Ht _ _ _ (T_payload _ _ Htn) Hsym) as [_ Hnm]. unfold nm in Hnm. rewrite Hk in Hnm.
    rewrite Hnm, <- (app_nil_r (pfx _ _)) in Hname at 1. apply app_inv_head in Hname as <-.
    rewrite (walk_here _ _ _ _ _ Hn Htn Hks), Hsym, Hk. done.
  - destruct (links_kid_node _ _ _ _ _ Hl Hks Hp') as [tn' Htn']. destruct (node_of _ _ Htn') as (n' & _ & Hn' & _).
    destruct (kid_prefix _ _ _ _ _ Hks Hp' Htn Htn') as (Hlt & Hsplit & Hlp').
    assert (pfx symbols (payload tn') `prefix_of` name s) as [q' Hq'].
    { clear -Hr Htn' Hcn Hsym Hk Hl Ht. revert tn' Htn'. induction Hr as [c|c d e (kd & Hkd & Hd) _ IH]; intros tn' Htn'.
      - assert (cn = tn') as -> by congruence.
        destruct (t_symbol _ _ _ _ Ht _ _ _ (T_payload _ _ Htn') Hsym) as [_ Hnm]. unfold nm in Hnm. by rewrite Hk in Hnm; rewrite Hnm.
      - destruct (links_kid_node _ _ _ _ _ Hl Hkd Hd) as [dn Hdn]. etrans; [|by apply (IH Hcn _ Hdn)].
        by destruct (t_kid _ _ _ _ Ht _ _ _ _ _ Hkd Hd (T_payload _ _ Htn') (T_payload _ _ Hdn)). }
    set (lab := drop (depth tn) (pfx symbols (payload tn'))) in *.
    assert (q = lab ++ q') as ->.
    { rewrite Hq', Hsplit, <- app_assoc in Hname. by apply app_inv_head in Hname. }
    pose proof (length_pfx _ _ _ _ _ _ Ht (T_payload _ _ Htn)) as Hlp. cbn in Hlp.
    assert (0 < length lab) as Hlab0 by (unfold lab; rewrite length_drop; lia).
    destruct lab as [|b lab'] eqn:Elab; [cbn in Hlab0; lia|]. rewrite <- Elab in *.
    destruct fuel as [|fuel]; [rewrite Elab in Hfuel; cbn in Hfuel; lia|].
    destruct (walk_on p n tn ks fuel b (lab' ++ q') Hn Htn Hks) as (es & Hrel & Hfind).
    replace (b :: lab' ++ q') with (lab ++ q') in Hfind by (by rewrite Elab).
    destruct (list_elem_of_lookup_1 _ _ Hp') as [j Hj].
    destruct (Forall2_lookup_l _ _ _ _ _ Hrel Hj) as (e & Hje & Hce & cn' & Hcn' & Hle).
    assert (cn' = tn') as -> by congruence. fold lab in Hle.
    destruct (list_find (matches (lab ++ q')) es) as [[j' e']|] eqn:Hf.
    + destruct Hfind as (m & Hm & ->). apply list_find_Some in Hf as (Hj' & Hm' & _).
      destruct (Forall2_lookup_r _ _ _ _ _ Hrel Hj') as (d & Hd & Hde & dn & Hdn & Hle').
      unfold matches in Hm'. rewrite Hle' in Hm'.
      assert (j = j') as <-.
      { apply (kids_disjoint p ks tn j j' p' d tn' dn (lab ++ q')); try done. fold lab. by apply prefix_app_r. }
      assert (e' = e) as -> by congruence. assert (m = n') as -> by congruence. rewrite Hle, drop_app_length.
      apply (IH n' tn' cn q' fuel); try done. rewrite length_app in Hfuel. lia.
    + apply list_find_None in Hf. eapply Forall_lookup_1 in Hf; [|exact Hje]. exfalso. apply Hf. unfold matches.
      rewrite Hle. by apply prefix_app_r.
Qed.

End Build.

(** ** What the trie promises *)
Section Promises.
Context `{W : Leb128} {HW : Leb128Laws W}.

(** The layout loop reaches offsets and offset sizes that agree, for any nodes whose
    edge ranges and children exist: the sizes only grow, and never beyond ten bytes. *)
Theorem layout_until_stable_total nodes edges :
  (forall n, n ∈ nodes -> is_Ok (node_edges edges n)) ->
  Forall (fun e => child e < length nodes /\ child_offset_size e = 1) edges ->
  exists nodes' edges', layout_until_stable (10 * length edges + 1) nodes edges = Ok (Some (nodes', edges')) /\
    Forall2 same_node nodes nodes' /\ Forall2 same_edge edges edges' /\ stable nodes' edges'.
Proof.
  intros Hn He. apply layout_loop.
  - split; [done|]. by eapply Forall_impl; [exact He|intros e []].
  - unfold slack. clear -He. induction He as [|e es [_ H1] _ IH]; cbn in *; [lia|]. rewrite H1. lia.
  - intros nodes1 edges1 _ Hu%mapM_Ok_inv. eapply Forall2_impl; [|intros e e' H; exact H].
    clear Hn. induction Hu as [|e e' es es' H _ IH]; constructor.
    + apply Forall_cons in He as [[_ H1] _]. unfold update_edge, get in H.
      destruct (nodes1 !! child e) as [n|]; [|done]. injection H as <-. split; [done|]. rewrite H1. apply size_pos.
    + apply IH. by apply Forall_cons in He as [_ He].
Qed.

Lemma laid_out_spec symbols T kids :
  symbols_wf symbols -> links T kids -> tree symbols (length symbols) (payload <$> T) kids ->
  exists nodes edges, laid_out symbols T = Ok (Some (nodes, edges)) /\ length nodes = length T /\ stable nodes edges /\
    forall p n, nodes !! p = Some n -> node_ok symbols T kids edges p n.
Proof.
  intros Hwf Hl Ht. destruct (build_nodes_spec symbols T kids Hl Ht T 0 []) as (ns & es & Hb & Hlen & Hes & Hok); [done|].
  cbn [app] in *. cbn [Nat.add] in Hok.
  unfold laid_out. rewrite Hb. cbn [mbind res_bind].
  destruct (layout_loop (10 * length es + 1) ns es) as (nodes & edges & Hlay & Hsn & Hse & Hst).
  - split; [|by eapply Forall_impl; [exact Hes|intros e [_ ?]; by rewrite Hlen]].
    intros n [p Hp]%list_elem_of_lookup_1. destruct (Hok _ _ Hp) as (? & ? & l & _ & _ & _ & _ & ? & _). by exists l.
  - unfold slack. clear -Hes. induction Hes as [|e es [H1 _] _ IH]; cbn in *; [lia|]. rewrite H1. lia.
  - intros nodes1 edges1 _ Hu%mapM_Ok_inv. clear -Hu Hes HW. induction Hu as [|e e' es es' H _ IH]; constructor.
    + apply Forall_cons in Hes as [[H1 _] _]. unfold update_edge, get in H.
      destruct (nodes1 !! child e) as [n|]; [|done]. injection H as <-. split; [done|]. rewrite H1. apply size_pos.
    + apply IH. by apply Forall_cons in Hes as [_ Hes].
  - exists nodes, edges. split_and!; [done|by rewrite <- (Forall2_length _ _ _ Hsn)|done|].
    intros p n Hn. destruct (Forall2_lookup_r _ _ _ _ _ Hsn Hn) as (n0 & Hn0 & Hs).
    destruct (Hok _ _ Hn0) as (tn & ks & l & Htn & Hks & Hc & Hnum & Hl' & Hrel).
    destruct (node_edges_rel _ _ _ _ _ _ Hse (same_node_le _ _ Hs) Hl') as (l' & Hl'' & Hll').
    destruct Hs as (Ha & Hf & _ & Hnum'). exists tn, ks, l'. split_and!; try done.
    + unfold node_content in *. by rewrite Ha, Hf.
    + by rewrite Hnum'.
    + eapply Forall2_same_trans; [|exact Hrel|exact Hll']. intros c e e' (? & cn & ? & ?) [Hlab Hch].
      split; [by rewrite Hch|]. exists cn. by rewrite Hlab.
Qed.

(** A trie built with the topology of its names is found right, and has the size that
    [size_with_topology] gives for the same symbols. *)
Lemma build_with_topology_exact symbols :
  symbols_wf symbols ->
  exists topology n, new_topology symbols = Ok topology /\ size_with_topology symbols topology = Ok (Some n) /\
    ((Z.of_nat n < 2 ^ 64)%Z ->
     exists trie, build_with_topology symbols topology = Ok (Some trie) /\ length trie = n /\
       forall q f a, walk (length q) trie 0 q = Some (f, a) <->
         exists s, s ∈ symbols /\ name s = q /\ flags s = f /\ address s = a).
Proof.
  intros Hwf. destruct (new_topology_tree symbols Hwf) as (T & kids & Htop & Hl & Ht). exists T.
  destruct symbols as [|s0 symbols0].
  { exists 0. split_and!; [done..|]. intros _. exists []. split_and!; [done..|]. intros q f a. split.
    - by destruct q.
    - by intros (s & Hs%not_elem_of_nil & _). }
  set (symbols := s0 :: symbols0) in *.
  destruct (laid_out_spec symbols T kids Hwf Hl Ht) as (nodes & edges & Hlay & Hlen & Hst & Hok).
  exists (encoded_size nodes). split; [done|]. unfold size_with_topology, build_with_topology.
  change symbols with (s0 :: symbols0) at 1 3. cbv iota beta. fold symbols. rewrite Hlay. cbn [mbind res_bind].
  split; [done|]. intros Hsmall.
  destruct (encode_spec symbols T kids Hwf Hl Ht nodes edges Hlen Hok Hst Hsmall) as (trie & Henc & Hsize & Hdrop).
  rewrite Henc. cbn [mbind res_bind]. exists trie. split_and!; [done..|].
  destruct (t_root _ _ _ _ Ht) as (sr & rr & Hroot). rewrite list_lookup_fmap in Hroot.
  destruct (T !! 0) as [root|] eqn:HT0; [|done]. injection Hroot as Hsym Hrep Hd.
  destruct (nodes !! 0) as [n0|] eqn:Hn0; [|apply lookup_ge_None in Hn0; apply lookup_lt_Some in HT0; lia].
  assert (offset n0 = 0) as Hoff by (destruct (proj1 Hst _ _ Hn0) as [_ H]; by rewrite H, take_0).
  assert (pfx symbols (payload root) = []) as Hpfx by (unfold pfx; cbn; by rewrite Hd).
  intros q f a. rewrite <- Hoff. split.
  - intros Hw. destruct (walk_sound symbols T kids Hwf Hl Ht nodes edges Hlen Hok Hst Hsmall trie Hdrop _ _ _ _ _ _ _ Hn0 HT0 Hw)
      as (s & Hs & Hname & ? & ?). rewrite Hpfx in Hname. by exists s.
  - intros (s & [k Hk]%list_elem_of_lookup_1 & Hname & <- & <-).
    destruct (t_reach _ _ _ _ Ht k) as (c & x & Hr & Hx & Hxs); [by eapply lookup_lt_Some|].
    destruct (payload_lookup _ _ _ Hx) as (cn & Hcn & <- & _).
    apply (walk_complete symbols T kids Hwf Hl Ht nodes edges Hlen Hok Hst Hsmall trie Hdrop 0 c k s Hr n0 root cn); try done.
    by rewrite Hpfx.
Qed.

(** The names alone decide the topology and the edges. *)
Lemma add_symbols_names symbols : forall previous k state,
  add_symbols previous k (reserved_exports (map name symbols)) state = add_symbols previous k symbols state.
Proof.
  induction symbols as [|s symbols IH]; intros previous k state; [done|]. cbn [reserved_exports map add_symbols].
  change (add_symbol previous k (mkSymbol (name s) (2 ^ 64 - 1) 0) state) with (add_symbol previous k s state).
  destruct (add_symbol previous k s state) as [st| |]; cbn [mbind res_bind]; [|done..]. apply IH.
Qed.

Lemma reserved_lookup symbols i :
  reserved_exports (map name symbols) !! i = (fun s => mkSymbol (name s) (2 ^ 64 - 1) 0) <$> symbols !! i.
Proof. unfold reserved_exports. rewrite map_map. apply list_lookup_fmap. Qed.

Lemma reserved_wf symbols : symbols_wf symbols -> symbols_wf (reserved_exports (map name symbols)).
Proof.
  intros [H1 H2 _]. unfold reserved_exports. rewrite map_map. split.
  - induction H1 as [|s l _ IH Hs]; constructor; [apply IH; by inversion H2|]. by apply Forall_fmap.
  - by apply Forall_fmap.
  - apply Forall_fmap, Forall_true. intros s. unfold in_u. cbn. lia.
Qed.

Lemma mapM_res_ext {A B} (f g : A -> res B) l : (forall x, f x = g x) -> mapM f l = mapM g l.
Proof. intros H. induction l as [|x l IH]; [done|]. cbn. by rewrite H, IH. Qed.

Lemma build_edge_names symbols T source c :
  build_edge (reserved_exports (map name symbols)) T source c = build_edge symbols T source c.
Proof.
  unfold build_edge. destruct (get T c) as [n| |]; cbn [mbind res_bind]; [|done..].
  unfold get. rewrite reserved_lookup. by destruct (symbols !! representative n).
Qed.

Lemma build_nodes_reserved symbols T sources : symbols_wf symbols -> Forall (fun s => (flags s < 128)%Z) symbols ->
  forall edges nodes all, build_nodes symbols T sources edges = Ok (nodes, all) ->
  exists nodes', build_nodes (reserved_exports (map name symbols)) T sources edges = Ok (nodes', all) /\
    Forall2 node_le nodes nodes'.
Proof.
  intros Hwf Hflags. induction sources as [|source sources IH]; intros edges nodes all; cbn [build_nodes].
  { intros [= <- <-]. by exists []. }
  set (content := match symbol source with None => Ok (None, 0%Z) | Some i => _ end).
  set (content' := match symbol source with None => Ok (None, 0%Z) | Some i => _ end).
  assert (forall a f, content = Ok (a, f) -> exists a' f', content' = Ok (a', f') /\
            forall x y z w, node_le (mkNode a f x y z w) (mkNode a' f' x y z w)) as Hc.
  { subst content content'. intros a f. destruct (symbol source) as [i|]; [|intros [= <- <-]; by exists None, 0%Z].
    unfold get. rewrite reserved_lookup. destruct (symbols !! i) as [s|] eqn:Es; cbn; [|done]. intros [= <- <-].
    do 2 eexists. split; [done|]. intros x y z w. split_and!; [done..|]. cbn. unfold regular_export_size.
    apply (Forall_lookup_1 _ _ _ _ Hflags) in Es as Hf. apply (Forall_lookup_1 _ _ _ _ (wf_numbers _ Hwf)) in Es as [Ha Hf'].
    unfold in_u in *. rewrite (size_small (flags s)), (size_small 0) by lia.
    pose proof (size_mono (address s) (2 ^ 64 - 1)%Z) as Hm. specialize (Hm ltac:(lia)). lia. }
  destruct content as [[a f]| |] eqn:Ec; cbn [mbind res_bind]; try done. destruct (Hc a f eq_refl) as (a' & f' & -> & Hle).
  cbn [mbind res_bind]. destruct (siblings _ _ _) as [kids| |]; cbn [mbind res_bind]; try done.
  assert (mapM (build_edge (reserved_exports (map name symbols)) T source) kids = mapM (build_edge symbols T source) kids) as ->
    by (apply mapM_res_ext; intros; apply build_edge_names).
  destruct (mapM _ kids) as [es| |]; cbn [mbind res_bind]; try done.
  destruct (build_nodes symbols T sources _) as [[ns al]| |] eqn:Eb; cbn [mbind res_bind]; try done.
  destruct (IH _ _ _ Eb) as (ns' & -> & Hns). intros [= <- <-]. cbn [mbind res_bind].
  eexists. split; [done|]. constructor; [apply Hle|done].
Qed.

(** What is reserved is at least the size of the trie of the real symbols. *)
Lemma size_reserved symbols T n reserved :
  symbols_wf symbols -> Forall (fun s => (flags s < 128)%Z) symbols -> new_topology symbols = Ok T ->
  size_with_topology symbols T = Ok (Some n) ->
  size_with_topology (reserved_exports (map name symbols)) T = Ok (Some reserved) -> n <= reserved.
Proof.
  intros Hwf Hflags HT. destruct symbols as [|s0 symbols0]; [cbn; by intros [= <-] [= <-]|].
  set (symbols := s0 :: symbols0) in *. unfold size_with_topology. change symbols with (s0 :: symbols0) at 1.
  change (reserved_exports (map name symbols)) with (mkSymbol (name s0) (2 ^ 64 - 1) 0 :: reserved_exports (map name symbols0)) at 1.
  cbv iota. unfold laid_out. destruct (build_nodes symbols T T []) as [[ns es]| |] eqn:Eb; cbn [mbind res_bind]; try done.
  destruct (build_nodes_reserved symbols T T Hwf Hflags _ _ _ Eb) as (ns' & Eb' & Hns). rewrite Eb'. cbn [mbind res_bind].
  destruct (layout_until_stable _ ns es) as [[[r e]|]| |] eqn:El; cbn [mbind res_bind]; try done. intros [= <-].
  destruct (layout_until_stable _ ns' es) as [[[r' e']|]| |] eqn:El'; cbn [mbind res_bind]; try done. intros [= <-].
  destruct (new_topology_tree (reserved_exports (map name symbols)) (reserved_wf _ Hwf)) as (T' & kids & HT' & Hl & Ht).
  unfold new_topology in HT', HT. rewrite add_symbols_names, HT in HT'. injection HT' as <-.
  destruct (build_nodes_spec _ T kids Hl Ht T 0 []) as (ns1 & es1 & Hb1 & Hlen & Hes & Hok); [done|].
  rewrite Eb' in Hb1. injection Hb1 as <- ->. cbn [app Nat.add] in *.
  destruct (layout_until_stable_total ns' es1) as (r1 & e1 & Hlay & Hsn & Hse & Hst).
  - intros m [p Hp]%list_elem_of_lookup_1. destruct (Hok _ _ Hp) as (? & ? & l & _ & _ & _ & _ & ? & _). by exists l.
  - eapply Forall_impl; [exact Hes|]. intros ed [? ?]. by rewrite Hlen.
  - rewrite El' in Hlay. injection Hlay as <- <-. apply encoded_size_below.
    eapply layout_until_stable_below; [| |exact Hst|exact El].
    + eapply Forall2_same_trans; [|exact Hns|exact Hsn]. intros x y z (? & ? & ?) (? & ? & ?)%same_node_le.
      split_and!; [congruence..|lia].
    + clear -Hes Hse Hst HW. destruct Hst as [_ Hst]. induction Hse as [|x y es1 e' Hxy _ IH]; constructor.
      * apply Forall_cons in Hes as [[H1 _] _]. apply Forall_cons in Hst as [(m & _ & Hm) _].
        split; [done|]. rewrite H1, Hm. apply size_pos.
      * apply Forall_cons in Hes as [_ Hes]. apply Forall_cons in Hst as [_ Hst]. by apply IH.
Qed.

(** C38. Looking a name up in the exports trie that is written finds the flags and the address
    of the symbol of that name, and nothing for any other name; and the trie fits into the
    space that was reserved for it before addresses were known, when every address was taken
    to be [u64::MAX] without flags. This is for names that ascend and contain no zero bytes,
    and flags of seven bits, as the writer sets. When some definitions were filtered out
    after sizing, the trie is the one that would be written had only the survivors been
    defined. *)
Theorem trie_exports_exactly symbols :
  symbols_wf symbols -> Forall (fun s => (flags s < 128)%Z) symbols ->
  exists topology reserved, reserve_exports (map name symbols) = Ok (topology, Some reserved) /\
    (forall num_definitions topology', length symbols <> num_definitions ->
       write_exports symbols num_definitions topology' = write_exports symbols (length symbols) topology) /\
    ((Z.of_nat reserved < 2 ^ 64)%Z ->
     exists trie, write_exports symbols (length symbols) topology = Ok (Some trie) /\ length trie <= reserved /\
       forall q f a, walk (length q) trie 0 q = Some (f, a) <->
         exists s, s ∈ symbols /\ name s = q /\ flags s = f /\ address s = a).
Proof.
  intros Hwf Hflags. destruct (build_with_topology_exact symbols Hwf) as (T & n & HT & Hn & Hexact).
  destruct (build_with_topology_exact _ (reserved_wf _ Hwf)) as (T' & reserved & HT' & Hr & _).
  assert (T' = T) as ->.
  { unfold new_topology in HT, HT'. rewrite add_symbols_names, HT in HT'. by injection HT'. }
  pose proof (size_reserved _ _ _ _ Hwf Hflags HT Hn Hr) as Hle. exists T, reserved.
  unfold reserve_exports, write_exports. rewrite HT', Nat.eqb_refl. cbn [mbind res_bind]. rewrite Hr. split; [done|]. split.
  - intros num T'' ->%Nat.eqb_neq. unfold build_sorted. by rewrite HT.
  - intros Hsmall. destruct (Hexact ltac:(lia)) as (trie & Hb & Hlen & Hw). exists trie. split_and!; [done|lia|done].
Qed.

End Promises.

(** ** A concrete LEB128, and a trie *)
Module Example.

Fixpoint uleb (fuel : nat) (v : Z) : list Z :=
  match fuel with
  | O => [v]
  | S fuel => if (v <? 128)%Z then [v] else (v mod 128 + 128)%Z :: uleb fuel (v / 128)
  end.

Definition leb : Leb128 := {| write_uleb128 := uleb 9; uleb128_size v := length (uleb 9 v) |}.

Lemma read_uleb fuel v rest :
  (0 <= v < 128 ^ Z.of_nat (S fuel))%Z -> uleb_decode (uleb fuel v ++ rest) = Some (v, rest).
Proof.
  revert v. induction fuel as [|fuel IH]; intros v Hv.
  - cbn. by rewrite (proj2 (Z.ltb_lt _ _)) by lia.
  - cbn [uleb]. destruct (Z.ltb_spec v 128) as [Hlt|Hge]; cbn [app uleb_decode].
    + by rewrite (proj2 (Z.ltb_lt _ _)) by lia.
    + rewrite (proj2 (Z.ltb_ge _ _)) by (pose proof (Z.mod_pos_bound v 128); lia). rewrite IH.
      * cbn. f_equal. f_equal. pose proof (Z.div_mod v 128). lia.
      * split; [apply Z.div_pos; lia|]. apply Z.div_lt_upper_bound; [lia|].
        rewrite (Nat2Z.inj_succ (S fuel)), Z.pow_succ_r in Hv by lia. lia.
Qed.

Lemma uleb_length fuel v : 1 <= length (uleb fuel v) <= S fuel.
Proof.
  revert v. induction fuel as [|fuel IH]; intros v; cbn [uleb]; [cbn; lia|].
  case_match; cbn; [lia|]. specialize (IH (v / 128)%Z). lia.
Qed.

Lemma uleb_mono fuel v w : (0 <= v <= w)%Z -> length (uleb fuel v) <= length (uleb fuel w).
Proof.
  revert v w. induction fuel as [|fuel IH]; intros v w Hv; cbn [uleb]; [done|].
  destruct (Z.ltb_spec v 128), (Z.ltb_spec w 128); cbn [length]; try lia.
  apply le_n_S, IH. split; [apply Z.div_pos; lia|apply Z.div_le_mono; lia].
Qed.

Lemma leb_laws : Leb128Laws leb.
Proof.
  split.
  - intros v rest Hv. apply read_uleb. unfold in_u in Hv. split; [lia|]. eapply Z.lt_trans; [apply Hv|]. done.
  - done.
  - intros v. apply uleb_length.
  - intros v. apply uleb_length.
  - intros v w. apply uleb_mono.
  - intros v Hv. cbn. by rewrite (proj2 (Z.ltb_lt _ _)) by lia.
Qed.

(** [_a], [_ab], [_ac] and [_b]. *)
Definition symbols : list Symbol :=
  [mkSymbol [95; 97]%Z 4096 0; mkSymbol [95; 97; 98]%Z 4100 4; mkSymbol [95; 97; 99]%Z 300 0;
   mkSymbol [95; 98]%Z 70000 8].

Definition topology : list UncompressedNode :=
  Eval vm_compute in match new_topology symbols with Ok t => t | _ => [] end.

Lemma symbols_ok : symbols_wf symbols.
Proof.
  split; unfold symbols.
  - repeat constructor; cbn; lia.
  - repeat constructor; cbn; lia.
  - repeat constructor; unfold in_u; cbn; lia.
Qed.

Definition sources : list Node * list Edge :=
  Eval vm_compute in match build_nodes symbols topology topology [] with Ok r => r | _ => ([], []) end.

End Example.

Lemma layout_until_stable_total_witness :
  let (nodes, edges) := Example.sources in
  (forall n, n ∈ nodes -> is_Ok (node_edges edges n)) /\
  Forall (fun e => child e < length nodes /\ child_offset_size e = 1) edges /\
  exists nodes' edges',
    @layout_until_stable Example.leb (10 * length edges + 1) nodes edges = Ok (Some (nodes', edges')) /\
    Forall2 same_node nodes nodes' /\ Forall2 same_edge edges edges' /\ @stable Example.leb nodes' edges'.
Proof.
  cbv beta iota delta [Example.sources].
  match goal with |- ?A /\ ?B /\ _ => assert A as HA; [|assert B as HB; [|split; [exact HA|split; [exact HB|]]]] end.
  - intros n Hn. repeat (apply elem_of_cons in Hn as [->|Hn]; [by eexists|]). by apply not_elem_of_nil in Hn.
  - repeat constructor.
  - apply (layout_until_stable_total (HW := Example.leb_laws)); assumption.
Defined.

(** The trie has 40 bytes; 71 are reserved for it. *)
Lemma trie_exports_exactly_witness :
  symbols_wf Example.symbols /\
  @reserve_exports Example.leb (map name Example.symbols) = Ok (Example.topology, Some 71) /\
  exists trie, @write_exports Example.leb Example.symbols 4 Example.topology = Ok (Some trie) /\ length trie <= 71 /\
    forall q f a, walk (length q) trie 0 q = Some (f, a) <->
      exists s, s ∈ Example.symbols /\ name s = q /\ flags s = f /\ address s = a.
Proof.
  split; [exact Example.symbols_ok|].
  destruct (trie_exports_exactly (HW := Example.leb_laws) Example.symbols Example.symbols_ok) as (t & n & Ht & _ & H);
    [repeat constructor|].
  assert (@reserve_exports Example.leb (map name Example.symbols) = Ok (Example.topology, Some 71)) as E
    by (vm_compute; reflexivity).
  rewrite E in Ht. injection Ht as <- <-. split; [exact E|]. apply H. lia.
Defined.
