(* ===== verification/Expressions.v ===== *)
(** Linker-script expressions: the [Expression] type of [libjdxld/src/linker_script.rs], its
    evaluation in [libjdxld/src/expression_eval.rs], and the use the layout and the symbol
    resolutions of [libjdxld/src/layout.rs] make of it.

    An expression is evaluated at a place ([SymbolLoc]).  Inside a section, values are
    offsets from the start of the section and the evaluator notes ([ExpressionValueKind])
    whether the start has to be added at the end.  Symbols are looked up by a callback that
    may itself evaluate the expression of another script symbol ([early_symbol]); the set
    of the symbols being evaluated cuts cycles.

    A failed [ASSERT] is reported with its line, so its message is built in full; all other
    messages are the format strings of the source. *)
From Stdlib Require Import ZArith Lia.
From stdpp Require Import base list list_numbers numbers strings option gmap pretty.
From S2P Require Import Prelude Alignment Symbols PartMap Relaxation Layout.

Local Open Scope Z_scope.

(** ** Expressions *)

(** [parsing::SegmentName]. *)
Inductive SegmentName := Text | Rodata | Data | Bss | OtherSegment.

(** Names are byte strings.  [Assert] holds the fields of [AssertCommand]: the expression,
    the message, and the input that was left when the command was parsed. *)
Inductive Expression :=
| Number (n : Z)
| Symbol (name : list Z)
| LocationCounter
| Add (l r : Expression)
| Subtract (l r : Expression)
| Multiply (l r : Expression)
| Divide (l r : Expression)
| Modulo (l r : Expression)
| LessThan (l r : Expression)
| GreaterThan (l r : Expression)
| LessEqual (l r : Expression)
| GreaterEqual (l r : Expression)
| Equal (l r : Expression)
| NotEqual (l r : Expression)
| Sizeof (name : list Z)
| Alignof (name : list Z)
| Origin (name : list Z)
| Length (name : list Z)
| Addr (name : list Z)
| Loadaddr (name : list Z)
| Align (exponent : Expression)                    (* [Align(exponent, None)] *)
| AlignOf (exponent expr : Expression)             (* [Align(exponent, Some(expr))] *)
| Min (l r : Expression)
| Max (l r : Expression)
| SegmentStart (name : SegmentName) (default_expr : Expression)
| BitwiseAnd (l r : Expression)
| BitwiseOr (l r : Expression)
| BitwiseXor (l r : Expression)
| LeftShift (l r : Expression)
| RightShift (l r : Expression)
| LogicalAnd (l r : Expression)
| LogicalOr (l r : Expression)
| LogicalNot (e : Expression)
| BitwiseNot (e : Expression)
| Negate (e : Expression)
| SizeofHeaders
| Ternary (cond if_true if_false : Expression)
| Defined_ (name : list Z)
| Assert (expression : Expression) (message : list Z) (remainder : list Z).

Definition string_of_bytes (s : list Z) : string :=
  String.string_of_list_byte (map (fun b => default Byte.x00 (Byte.of_N (Z.to_N b))) s).

(** ** The evaluation monad: the kind of value, and the state of the callback *)
Record ExpressionValueKind := mkKind { contains_absolute : bool; contains_section_relative : bool }.

Definition default_kind : ExpressionValueKind := mkKind false false.

Definition needs_section_base (k : ExpressionValueKind) : bool :=
  contains_section_relative k || negb (contains_absolute k).

Section Monad.
Context {S : Type}.

Definition eval (A : Type) : Type := ExpressionValueKind -> S -> res (A * ExpressionValueKind * S).

#[export] Instance eval_ret : MRet eval := fun A a k s => Ok (a, k, s).
#[export] Instance eval_bind : MBind eval := fun A B f m k s => '(a, k, s) ← m k s; f a k s.

Definition lift {A} (m : res A) : eval A := fun k s => a ← m; Ok (a, k, s).

Definition set_absolute : eval unit := fun k s => Ok (tt, mkKind true (contains_section_relative k), s).
Definition set_section_relative : eval unit := fun k s => Ok (tt, mkKind (contains_absolute k) true, s).
End Monad.
Arguments eval : clear implicits.

(** ** What evaluation reads *)

(** [parsing::RedirectKind], [parsing::Redirect] and [parsing::SymbolPlacement]. *)
Inductive RedirectKind := DefSym | Script.

Record Redirect := mkRedirect {
  redirect_kind : RedirectKind;
  redirect_expression : Expression;
  redirect_loc : SymbolLoc
}.

Inductive SymbolPlacement :=
| UndefinedPlacement
| SectionStartPlacement (section_id : Z)
| SectionEndPlacement (section_id : Z)
| SectionGroupEndPlacement (section_id : Z)
| ForceUndefined
| RedirectPlacement (redirect : Redirect)
| LoadBaseAddress
| PlatformSpecific.

Record InternalSymDefInfo := mkSymDef { placement : SymbolPlacement; def_name : list Z }.

(** A symbol of an object as the [object] crate reads it: its section if it has one. *)
Record ObjectSymbol := mkObjectSymbol {
  symbol_section : res (option Z);
  symbol_is_absolute : bool;
  symbol_value : Z
}.

(** The kinds of [resolution::SectionSlot]. *)
Inductive SectionSlot :=
| Discard | Unloaded | MustLoad | Loaded | Sorted | FrameData | MergeStrings
| UnloadedDebugInfo | LoadedDebugInfo | NoteGnuProperty | RiscvVAttributes.

(** [grouping::Group]: files with the first symbol and first section they are numbered from. *)
Record ParsedObject := mkParsedObject {
  object_symbol_start : Z;
  object_section_start : Z;
  object_symbols : list ObjectSymbol
}.

Inductive Group :=
| PreludeGroup (symbol_definitions : list InternalSymDefInfo)
| ObjectsGroup (objects : list ParsedObject)
| LinkerScriptsGroup (scripts : list (Z * list InternalSymDefInfo))
| OtherGroup.

(** [layout::FileLayoutState]. *)
Record ObjectLayoutState := mkObjectState {
  state_object : ParsedObject;
  section_relax_deltas : RelaxDeltaMap;
  sections : list SectionSlot
}.

Inductive FileLayoutState :=
| ObjectState (obj : ObjectLayoutState)
| LinkerScriptState (symbol_id_start : Z)
| PreludeState (symbol_id_start : Z)
| OtherState.

(** The symbol database: names, definitions, files, and the [-T] options of the arguments. *)
Record SymbolDb := mkSymbolDb {
  hash_bytes : list Z -> Z;
  buckets : list SymbolBucket;
  symbol_definitions : list Z;
  symbol_file_ids : list FileId;
  groups : list Group;
  section_part_ids : list Z;
  ttext : option Z;
  tdata : option Z;
  tbss : option Z
}.

(** [Args::segment_start_override] of the ELF arguments. *)
Definition segment_start_override (db : SymbolDb) (name : SegmentName) : option Z :=
  match name with
  | Text => ttext db
  | Data => tdata db
  | Bss => tbss db
  | Rodata | OtherSegment => None
  end.

Definition db_get_unversioned (db : SymbolDb) (name : list Z) : res (option Z) :=
  get_unversioned (hash_bytes db) (buckets db) name.

Definition db_definition (db : SymbolDb) (symbol_id : Z) : res Z :=
  definition (symbol_definitions db) symbol_id.

(** [OutputSections]: the infos the layout reads, and the names.  A primary section is
    identified by its name (the identity of ELF and Wasm sections). *)
Record OutputSections := mkOutputSections {
  section_infos : list (SectionOutputInfo (Expression := Expression));
  section_identity : list (option (list Z));
  custom_by_identity : gmap (list Z) Z
}.

Definition db_primary_output_section (os : OutputSections) (section_id : Z) : res Z :=
  primary_output_section (section_infos os) section_id.

Definition find_identity (name : list Z) (identities : list (option (list Z))) : option Z :=
  Z.of_nat ∘ fst <$> list_find (fun i => i = Some name) identities.

Definition section_id_by_name (os : OutputSections) (name : list Z) : option Z :=
  match custom_by_identity os !! name with
  | Some id => Some id
  | None => find_identity name (section_identity os)
  end.

(** The input file of a script: how it is displayed, and its bytes. *)
Record InputRef := mkInputRef { display : string; input_data : list Z }.

Record EvalEnv := mkEnv {
  input_ref : option InputRef;
  env_section_layouts : list OutputRecordLayout;
  env_output_sections : OutputSections;
  env_memory_regions : list (list Z * MemoryRegion);
  symbol_db : SymbolDb;
  sizeof_headers : Z;
  resolved_location_counters : list ResolvedLocationCounter;
  env_laid_out_mem_offsets : PartMap (option Z)
}.

(** ** Traversal *)

(** [Expression::visit_expressions]: [cb] is called on an expression before its operands
    and says whether to go on to them. *)
Fixpoint visit_expressions {S} (cb : Expression -> S -> bool * S) (e : Expression) (s : S) : S :=
  let '(go_on, s) := cb e s in
  if negb go_on then s
  else
    match e with
    | Number _ | LocationCounter | Sizeof _ | Alignof _ | Origin _ | Length _ | Addr _ | Loadaddr _
    | Symbol _ | SizeofHeaders | Defined_ _ => s
    | Add l r | Subtract l r | Multiply l r | Divide l r | Modulo l r
    | LessThan l r | GreaterThan l r | LessEqual l r | GreaterEqual l r | Equal l r | NotEqual l r
    | Min l r | Max l r | BitwiseAnd l r | BitwiseOr l r | BitwiseXor l r
    | LeftShift l r | RightShift l r | LogicalAnd l r | LogicalOr l r
    | AlignOf l r => visit_expressions cb r (visit_expressions cb l s)
    | Align e | LogicalNot e | BitwiseNot e | Negate e | Assert e _ _ => visit_expressions cb e s
    | SegmentStart _ default_expr => visit_expressions cb default_expr s
    | Ternary expression expression1 expression2 =>
        visit_expressions cb expression2 (visit_expressions cb expression1 (visit_expressions cb expression s))
    end.

(** A visit that checks every subexpression. *)
Definition all_subexpressions (p : Expression -> bool) (e : Expression) : bool :=
  visit_expressions (fun e ok => (true, ok && p e)) e true.

Lemma visit_all p e b : visit_expressions (fun e ok => (true, ok && p e)) e b = b && all_subexpressions p e.
Proof.
  revert b. induction e; intros b; unfold all_subexpressions at 1; cbn; try done;
    repeat match goal with IH : forall b, visit_expressions _ _ b = _ |- _ => rewrite !IH; clear IH end;
    by rewrite ?andb_assoc.
Qed.

(** ** Evaluation *)

(** [u64::next_multiple_of]; the sum wraps in a release build. *)
Definition next_multiple_of (x align : Z) : Z :=
  let r := x mod align in
  if r =? 0 then x else wadd 64 x (align - r).

Definition wrapping_div (l r : Z) : Z := wrap 64 (Z.quot (signed 64 l) (signed 64 r)).
Definition wrapping_rem (l r : Z) : Z := wrap 64 (Z.rem (signed 64 l) (signed 64 r)).

(** [u64::from(bool)]. *)
Definition of_bool (b : bool) : Z := if b then 1 else 0.

Definition line_number (file_bytes remainder : list Z) : Z :=
  let parsed_len := (length file_bytes - length remainder)%nat in
  wrap 32 (Z.of_nat (length (List.filter (Z.eqb 10) (take parsed_len file_bytes))) + 1).

Definition relative_section_id (loc : SymbolLoc) : option Z :=
  match loc with
  | SectionStartRelative id | SectionEndRelative id | Layout.LocationCounter _ (Some id) => Some id
  | _ => None
  end.

Inductive SymbolValue :=
| Absolute (value : Z)
| PartRelative (part_id offset : Z)
| SectionRelative (section_id address : Z).

Section Evaluation.
Context `{P : Platform}.
Context {S : Type}.
Context (env : EvalEnv).

(** The layout record of a section. *)
Definition section_layout (section_id : Z) : res OutputRecordLayout :=
  index (env_section_layouts env) section_id.

Definition primary_of (section_id : Z) : res Z :=
  db_primary_output_section (env_output_sections env) section_id.

Definition section_size (name : list Z) : res Z :=
  match section_id_by_name (env_output_sections env) name with
  | None => Ok 0
  | Some id => l ← section_layout id; Ok (mem_size l)
  end.

Definition section_align (name : list Z) : res Z :=
  match section_id_by_name (env_output_sections env) name with
  | None => Ok 0
  | Some id => l ← section_layout id; Ok (value (rec_alignment l))
  end.

Definition section_address (name : list Z) : res Z :=
  match section_id_by_name (env_output_sections env) name with
  | None => Err "ADDR: section '{}' not found"
  | Some id => l ← section_layout id; Ok (mem_offset l)
  end.

Definition section_load_address (name : list Z) : res Z :=
  match section_id_by_name (env_output_sections env) name with
  | None => Err "LOADADDR: section '{}' not found"
  | Some id => l ← section_layout id; Ok (lma_offset l)
  end.

(** The section the place is relative to. *)
Definition current_section (loc : SymbolLoc) : res (option Z) :=
  match relative_section_id loc with
  | Some id => primary ← primary_of id; Ok (Some primary)
  | None => Ok None
  end.

(** [address.checked_sub(section_base)]. *)
Definition offset_in (address section_base : Z) : res Z :=
  if address <? section_base then Err "address of symbol '{}' is before its output section"
  else Ok (address - section_base).

Definition evaluate_symbol_value (symbol_value : SymbolValue) (loc : SymbolLoc) : eval S Z :=
  current_section ← lift (current_section loc);
  match symbol_value with
  | Absolute value => _ ← set_absolute; mret value
  | SectionRelative section_id address =>
      primary_section ← lift (primary_of section_id);
      match current_section with
      | Some section =>
          if section =? primary_section then
            _ ← set_section_relative;
            l ← lift (section_layout primary_section);
            lift (offset_in address (mem_offset l))
          else
            _ ← set_absolute;
            l ← lift (section_layout section);
            mret (wadd 64 address (mem_offset l))
      | None => _ ← set_absolute; mret address
      end
  | PartRelative part_id offset =>
      match part_get None (env_laid_out_mem_offsets env) part_id with
      | None =>
          lift (Err "cannot resolve address of symbol '{}' because its output section part has not been laid out yet")
      | Some part_address =>
          let address := wadd 64 part_address offset in
          symbol_section ← lift (primary_of (output_section_id NUM_SINGLE_PART_SECTIONS part_id));
          if bool_decide (current_section = Some symbol_section) then
            _ ← set_section_relative;
            l ← lift (section_layout symbol_section);
            lift (offset_in address (mem_offset l))
          else _ ← set_absolute; mret address
      end
  end.

Definition evaluate_location (expr_loc : SymbolLoc) : res Z :=
  match expr_loc with
  | SectionStartRelative _ => Ok 0
  | SectionEndRelative id =>
      primary_id ← primary_of id;
      primary ← section_layout primary_id;
      id_layout ← section_layout id;
      let id_end := wadd 64 (mem_offset id_layout) (mem_size id_layout) in
      Ok (wsub 64 id_end (mem_offset primary))
  | SectionEnd id => l ← section_layout id; Ok (wadd 64 (mem_offset l) (mem_size l))
  | FirstSection | NoLoc => Ok 0
  | Layout.LocationCounter idx section_id =>
      match resolved_location_counters env !! Z.to_nat idx with
      | None => Err "location counter index {idx} out of range (len: {})"
      | Some entry =>
          Ok (match section_id with
              | None => lc_value entry
              | Some _ => default 0 (section_offset entry)
              end)
      end
  end.

(** What [evaluate_expression] adds to a value of kind [k]. *)
Definition section_base (k : ExpressionValueKind) (expr_loc : SymbolLoc) : res Z :=
  if needs_section_base k then
    match relative_section_id expr_loc with
    | Some id =>
        primary_id ← primary_of id;
        l ← section_layout primary_id;
        Ok (mem_offset l)
    | None => Ok 0
    end
  else Ok 0.

(** [evaluate_expression] around the evaluation of the value, also reached from the
    comparisons: the kind starts afresh and the caller's is kept. *)
Definition with_section_base (expr_loc : SymbolLoc) (m : eval S Z) : eval S Z := fun k s =>
  '(value, k', s) ← m default_kind s;
  offset ← section_base k' expr_loc;
  Ok (wadd 64 value offset, k, s).

(** A failed [ASSERT].  The code shows the message with [from_utf8_lossy]; here its bytes are
    shown as they are. *)
Definition assert_failure {A} (message : list Z) (remainder : list Z) : res A :=
  let message := string_of_bytes message in
  match input_ref env with
  | None => Err message
  | Some input =>
      Err (display input +:+ ":" +:+ pretty (line_number (input_data input) remainder) +:+ ": " +:+ message)
  end.

Context (expr_loc : SymbolLoc) (symbol_resolution_callback : list Z -> S -> res (SymbolValue * S)).

Definition resolve_symbol (name : list Z) : eval S SymbolValue := fun k s =>
  '(v, s) ← symbol_resolution_callback name s; Ok (v, k, s).

Definition location_value : eval S Z := lift (evaluate_location expr_loc).

Definition binary (f : Z -> Z -> Z) (l r : eval S Z) : eval S Z :=
  l ← l; r ← r; mret (f l r).

Definition memory_region (name : list Z) (msg : string) : eval S MemoryRegion :=
  lift (match region_get (env_memory_regions env) name with Some r => Ok r | None => Err msg end).

Definition align_value (align value : eval S Z) : eval S Z :=
  align ← align;
  if align =? 0 then lift (Err "ALIGN(0) is invalid")
  else value ← value; mret (next_multiple_of value align).

Definition divide (f : Z -> Z -> Z) (msg : string) (l r : eval S Z) : eval S Z :=
  divisor ← r;
  if divisor =? 0 then lift (Err msg) else l ← l; mret (f l divisor).

Fixpoint evaluate_expression_value (expr : Expression) : eval S Z :=
  let eval := evaluate_expression_value in
  let eval_abs e := with_section_base expr_loc (evaluate_expression_value e) in
  match expr with
  | Number n => mret n
  | LocationCounter =>
      _ ← (match relative_section_id expr_loc with
           | Some _ => set_section_relative
           | None => set_absolute
           end);
      location_value
  | Symbol name => value ← resolve_symbol name; evaluate_symbol_value value expr_loc
  | Add l r => binary (wadd 64) (eval l) (eval r)
  | Subtract l r => binary (wsub 64) (eval l) (eval r)
  | Multiply l r => binary (wmul 64) (eval l) (eval r)
  | Divide l r => divide wrapping_div "Division by zero in linker script expression" (eval l) (eval r)
  | Modulo l r => divide wrapping_rem "Modulo by zero in linker script expression" (eval l) (eval r)
  | LessThan l r => binary (fun l r => of_bool (l <? r)) (eval_abs l) (eval_abs r)
  | GreaterThan l r => binary (fun l r => of_bool (r <? l)) (eval_abs l) (eval_abs r)
  | LessEqual l r => binary (fun l r => of_bool (l <=? r)) (eval_abs l) (eval_abs r)
  | GreaterEqual l r => binary (fun l r => of_bool (r <=? l)) (eval_abs l) (eval_abs r)
  | Equal l r => binary (fun l r => of_bool (l =? r)) (eval_abs l) (eval_abs r)
  | NotEqual l r => binary (fun l r => of_bool (negb (l =? r))) (eval_abs l) (eval_abs r)
  | Sizeof name => lift (section_size name)
  | Alignof name => lift (section_align name)
  | Addr name => _ ← set_absolute; lift (section_address name)
  | Loadaddr name => _ ← set_absolute; lift (section_load_address name)
  | Align exponent => align_value (eval exponent) location_value
  | AlignOf exponent expr => align_value (eval exponent) (eval expr)
  | Min l r => binary Z.min (eval l) (eval r)
  | Max l r => binary Z.max (eval l) (eval r)
  | BitwiseAnd l r => binary Z.land (eval l) (eval r)
  | BitwiseOr l r => binary Z.lor (eval l) (eval r)
  | BitwiseXor l r => binary Z.lxor (eval l) (eval r)
  | LeftShift l r => binary (fun l r => wshl 64 l (wrap 32 r)) (eval l) (eval r)
  | RightShift l r => binary (fun l r => wshr 64 l (wrap 32 r)) (eval l) (eval r)
  | LogicalAnd l r =>
      l ← eval l;
      if l =? 0 then mret 0 else r ← eval r; mret (of_bool (negb (r =? 0)))
  | LogicalOr l r =>
      l ← eval l;
      if l =? 0 then r ← eval r; mret (of_bool (negb (r =? 0))) else mret 1
  | LogicalNot e => v ← eval e; mret (of_bool (v =? 0))
  | BitwiseNot e => v ← eval e; mret (wnot 64 v)
  | Negate e => v ← eval e; mret (wsub 64 0 v)
  | Origin name =>
      _ ← set_absolute;
      region ← memory_region name "ORIGIN: memory region '{}' not found";
      mret (origin region)
  | Length name =>
      region ← memory_region name "LENGTH: memory region '{}' not found";
      mret (region_length region)
  | SegmentStart name default_expr =>
      _ ← set_absolute;
      match segment_start_override (symbol_db env) name with
      | Some val => mret val
      | None => eval default_expr
      end
  | SizeofHeaders => mret (sizeof_headers env)
  | Ternary cond if_true if_false =>
      cond ← eval cond;
      if cond =? 0 then eval if_false else eval if_true
  | Defined_ name =>
      id ← lift (db_get_unversioned (symbol_db env) name);
      mret (match id with Some _ => 1 | None => 0 end)
  | Assert expression message remainder =>
      result ← eval expression;
      if result =? 0 then lift (assert_failure message remainder) else mret result
  end.

Definition evaluate_expression (expr : Expression) (s : S) : res (Z * S) :=
  '(v, _, s) ← with_section_base expr_loc (evaluate_expression_value expr) default_kind s;
  Ok (v, s).

End Evaluation.

Definition expected_constant : string := "Expected constant expression".

Fixpoint evaluate_const (expr : Expression) : res Z :=
  let binary f l r := l ← evaluate_const l; r ← evaluate_const r; Ok (f l r) in
  match expr with
  | Number n => Ok n
  | Add l r => binary (wadd 64) l r
  | Subtract l r => binary (wsub 64) l r
  | Multiply l r => binary (wmul 64) l r
  | Divide l r =>
      divisor ← evaluate_const r;
      if divisor =? 0 then Err "Division by zero in linker script expression"
      else l ← evaluate_const l; Ok (wrapping_div l divisor)
  | Modulo l r =>
      divisor ← evaluate_const r;
      if divisor =? 0 then Err "Modulo by zero in linker script expression"
      else l ← evaluate_const l; Ok (wrapping_rem l divisor)
  | LessThan l r => binary (fun l r => of_bool (l <? r)) l r
  | GreaterThan l r => binary (fun l r => of_bool (r <? l)) l r
  | LessEqual l r => binary (fun l r => of_bool (l <=? r)) l r
  | GreaterEqual l r => binary (fun l r => of_bool (r <=? l)) l r
  | Equal l r => binary (fun l r => of_bool (l =? r)) l r
  | NotEqual l r => binary (fun l r => of_bool (negb (l =? r))) l r
  | Min l r => binary Z.min l r
  | Max l r => binary Z.max l r
  | BitwiseAnd l r => binary Z.land l r
  | BitwiseOr l r => binary Z.lor l r
  | BitwiseXor l r => binary Z.lxor l r
  | LeftShift l r => binary (fun l r => wshl 64 l (wrap 32 r)) l r
  | RightShift l r => binary (fun l r => wshr 64 l (wrap 32 r)) l r
  | LogicalAnd l r =>
      l ← evaluate_const l;
      if l =? 0 then Ok 0 else r ← evaluate_const r; Ok (of_bool (negb (r =? 0)))
  | LogicalOr l r =>
      l ← evaluate_const l;
      if l =? 0 then r ← evaluate_const r; Ok (of_bool (negb (r =? 0))) else Ok 1
  | LogicalNot e => v ← evaluate_const e; Ok (of_bool (v =? 0))
  | BitwiseNot e => v ← evaluate_const e; Ok (wnot 64 v)
  | Negate e => v ← evaluate_const e; Ok (wsub 64 0 v)
  | Ternary cond if_true if_false =>
      cond ← evaluate_const cond;
      if cond =? 0 then evaluate_const if_false else evaluate_const if_true
  | _ => Err expected_constant
  end.

(** ** Evaluation during layout *)

(** [InputSectionPosition]. *)
Record InputSectionPosition := mkPosition { position_part : Z; position_address : Z }.

Record EarlyInputs := mkEarlyInputs {
  group_states : list (list FileLayoutState);
  section_positions : list (list (list (option InputSectionPosition)))
}.

(** [SymbolId::to_input], [SymbolIdRange::id_to_offset]. *)
Definition id_to_offset (start symbol_id : Z) : Z := wsub 32 symbol_id start.

Definition object_symbol (obj : ParsedObject) (local_index : Z) : res ObjectSymbol :=
  match object_symbols obj !! Z.to_nat local_index with
  | Some s => Ok s
  | None => Err "Invalid ELF symbol index"
  end.

(** [v.get(group).and_then(|g| g.get(file))]. *)
Definition get_file {A} (v : list (list A)) (fid : FileId) : option A :=
  files ← v !! Z.to_nat fid.1; files !! Z.to_nat fid.2.

Section Early.
Context `{P : Platform}.
Context (env : EvalEnv) (inputs : EarlyInputs).

Definition file_id_for_symbol (symbol_id : Z) : res FileId :=
  index (symbol_file_ids (symbol_db env)) symbol_id.

Definition resolve_early_object_symbol (canonical_id : Z) (obj : ObjectLayoutState) : res SymbolValue :=
  file_id ← file_id_for_symbol canonical_id;
  symbol ← object_symbol (state_object obj) (id_to_offset (object_symbol_start (state_object obj)) canonical_id);
  section ← symbol_section symbol;
  match section with
  | None =>
      if symbol_is_absolute symbol then Ok (Absolute (symbol_value symbol))
      else Err "cannot resolve address of symbol '{}'"
  | Some section_index =>
      match get_file (section_positions inputs) file_id ≫= (fun file => mjoin (file !! Z.to_nat section_index)) with
      | None =>
          match sections obj !! Z.to_nat section_index with
          | Some Sorted => Err "Early evaluation of sorted section {} is not supported"
          | _ => Err "cannot resolve address of symbol '{}' because its section does not have an early layout"
          end
      | Some section_position =>
          output_offset ← opt_input_to_output (map_get (section_relax_deltas obj) section_index)
                            (symbol_value symbol);
          Ok (PartRelative (position_part section_position)
                (wadd 64 (position_address section_position) output_offset))
      end
  end.

(** [evaluate_early_expression_internal_symbol].  [recur] evaluates an expression at a
    place; [visited] holds the symbols whose evaluation is under way. *)
Definition early_internal_symbol (recur : Expression -> SymbolLoc -> gset Z -> res (Z * gset Z))
    (canonical_id : Z) (def_info : InternalSymDefInfo) (visited : gset Z) : res (SymbolValue * gset Z) :=
  match placement def_info with
  | RedirectPlacement redirect =>
      if bool_decide (canonical_id ∈ visited) then Ok (Absolute 0, visited)
      else
        '(value, visited) ← recur (redirect_expression redirect) (redirect_loc redirect)
                              ({[canonical_id]} ∪ visited);
        let visited := visited ∖ {[canonical_id]} in
        symbol_section ← current_section env (redirect_loc redirect);
        Ok (match symbol_section with
            | Some section_id => SectionRelative section_id value
            | None => Absolute value
            end, visited)
  | SectionStartPlacement section_id => Ok (SectionRelative section_id 0, visited)
  | SectionEndPlacement section_id =>
      l ← section_layout env section_id;
      Ok (SectionRelative section_id (mem_size l), visited)
  | _ => Err "Unsupported symbol type"
  end.

(** The definition of a symbol of a linker script or of the prelude. *)
Definition internal_symbol_def (canonical_id : Z) (file_id : FileId) (state : FileLayoutState) :
    res (option InternalSymDefInfo) :=
  match state with
  | LinkerScriptState start =>
      group ← index (groups (symbol_db env)) file_id.1;
      match group with
      | LinkerScriptsGroup scripts =>
          script ← index scripts file_id.2;
          def_info ← index script.2 (id_to_offset start canonical_id);
          Ok (Some def_info)
      | _ => Ok None
      end
  | PreludeState start =>
      group ← index (groups (symbol_db env)) file_id.1;
      match group with
      | PreludeGroup definitions =>
          def_info ← index definitions (id_to_offset start canonical_id);
          Ok (Some def_info)
      | _ => Ok None
      end
  | ObjectState _ | OtherState => Ok None
  end.

(** The callback of [evaluate_early_expression]. *)
Definition early_symbol (recur : Expression -> SymbolLoc -> gset Z -> res (Z * gset Z))
    (name : list Z) (visited : gset Z) : res (SymbolValue * gset Z) :=
  symbol_id ← db_get_unversioned (symbol_db env) name;
  match symbol_id with
  | None => Err "undefined symbol '{}' in linker script expression"
  | Some symbol_id =>
      canonical_id ← db_definition (symbol_db env) symbol_id;
      file_id ← file_id_for_symbol canonical_id;
      match get_file (group_states inputs) file_id with
      | Some (ObjectState obj) =>
          v ← resolve_early_object_symbol canonical_id obj; Ok (v, visited)
      | Some state =>
          def_info ← internal_symbol_def canonical_id file_id state;
          match def_info with
          | Some def_info => early_internal_symbol recur canonical_id def_info visited
          | None => Err "symbol '{}' is not defined by an input object"
          end
      | None => Err "symbol '{}' is not defined by an input object"
      end
  end.

(** The recursion through symbols, bounded by [fuel]; errors end the evaluation, so the
    set is only read after a success. What is answered when the fuel runs out is a
    parameter, so that running out is nothing the source can answer; no answer depends on
    it ([early_evaluation_terminates]). *)
Fixpoint evaluate_early_fuel (exhausted : Expression -> SymbolLoc -> gset Z -> res (Z * gset Z)) (fuel : nat)
    (expr : Expression) (loc : SymbolLoc) (visited : gset Z) : res (Z * gset Z) :=
  match fuel with
  | O => exhausted expr loc visited
  | S fuel => evaluate_expression env loc (early_symbol (evaluate_early_fuel exhausted fuel)) expr visited
  end.

(** Every recursive call adds a symbol to [visited], so this many calls are enough. *)
Definition early_fuel : nat := S (length (symbol_file_ids (symbol_db env))).

Definition evaluate_early_expression : Expression -> SymbolLoc -> gset Z -> res (Z * gset Z) :=
  evaluate_early_fuel (fun _ _ _ => Err "out of fuel") early_fuel.
End Early.

(** [expression_eval] of [compute_layout_sections], over the state of the layout. *)
Definition layout_env (os : OutputSections) (db : SymbolDb) (sizeof_headers : Z) (s : LayoutState) : EvalEnv :=
  mkEnv None (section_layouts s) os (memory_regions s) db sizeof_headers (resolved_lc s)
    (laid_out_mem_offsets s).

Definition layout_expression_eval `{P : Platform} (os : OutputSections) (db : SymbolDb) (sizeof_headers : Z)
    (inputs : EarlyInputs) (expr : Expression) (loc : SymbolLoc) (s : LayoutState) : res Z :=
  '(v, _) ← evaluate_early_expression (layout_env os db sizeof_headers s) inputs expr loc ∅;
  Ok v.

(** ** Evaluation after layout *)
Section Late.
Context `{P : Platform}.
Context (os : OutputSections) (db : SymbolDb) (sizeof_headers : Z).

Definition missing_target (kind : RedirectKind) : string :=
  match kind with
  | DefSym => "Symbol '{name}' referenced by --defsym does not exist"
  | Script => "Symbol '{name}' referenced by linker script does not exist"
  end.

Definition missing_resolution (kind : RedirectKind) : string :=
  match kind with
  | DefSym => "Symbol '{name}' referenced by --defsym has no resolution."
  | Script => "Symbol '{name}' referenced by linker script has no resolution."
  end.

(** [SymbolDb::output_section_id]; the inner [res] stops at the first [ok()?]. *)
Definition object_output_section_id (obj : ParsedObject) (symbol_id : Z) : option Z :=
  match object_symbol obj (id_to_offset (object_symbol_start obj) symbol_id) with
  | Ok sym =>
      match symbol_section sym with
      | Ok (Some sec_idx) =>
          part_id ← section_part_ids db !! Z.to_nat (object_section_start obj + sec_idx);
          Some (output_section_id NUM_SINGLE_PART_SECTIONS part_id)
      | _ => None
      end
  | _ => None
  end.

Definition symbol_output_section_id (symbol_id : Z) : res (option Z) :=
  file_id ← index (symbol_file_ids db) symbol_id;
  group ← index (groups db) file_id.1;
  match group with
  | ObjectsGroup objects =>
      obj ← index objects file_id.2;
      Ok (object_output_section_id obj symbol_id)
  | LinkerScriptsGroup scripts =>
      script ← index scripts file_id.2;
      Ok (def_info ← script.2 !! Z.to_nat (id_to_offset script.1 symbol_id);
          match placement def_info with
          | RedirectPlacement redirect => relative_section_id (redirect_loc redirect)
          | _ => None
          end)
  | PreludeGroup _ | OtherGroup => Ok None
  end.

(** The [raw_value] of the resolution of each symbol that has one. *)
Definition Resolutions : Type := list (option Z).

Definition late_symbol (redirect : Redirect) (resolutions : Resolutions) (name : list Z) (_ : unit) :
    res (SymbolValue * unit) :=
  target ← db_get_unversioned db name;
  match target with
  | None => Err (missing_target (redirect_kind redirect))
  | Some target_symbol_id =>
      canonical_target_id ← db_definition db target_symbol_id;
      resolution ← index resolutions canonical_target_id;
      match resolution with
      | None => Err (missing_resolution (redirect_kind redirect))
      | Some raw_value =>
          section ← symbol_output_section_id canonical_target_id;
          Ok (match section with
              | Some section_id => SectionRelative section_id raw_value
              | None => Absolute raw_value
              end, tt)
      end
  end.

Definition update_defsym_symbol_resolution (input_ref : option InputRef)
    (section_layouts : list OutputRecordLayout) (memory_regions : list (list Z * MemoryRegion))
    (resolved_location_counters : list ResolvedLocationCounter)
    (def_info : InternalSymDefInfo) (resolutions : Resolutions) : res Resolutions :=
  match placement def_info with
  | RedirectPlacement redirect =>
      let env := mkEnv input_ref section_layouts os memory_regions db sizeof_headers
                   resolved_location_counters (mkPartMap [] None) in
      '(value, _) ← evaluate_expression env (redirect_loc redirect) (late_symbol redirect resolutions)
                      (redirect_expression redirect) tt;
      if bool_decide (def_name def_info = []) then Ok resolutions
      else
        id ← db_get_unversioned db (def_name def_info);
        match id with
        | None => Err (missing_target (redirect_kind redirect))
        | Some id =>
            canonical_symbol_id ← db_definition db id;
            resolution ← index resolutions canonical_symbol_id;
            match resolution with
            | None => Err (missing_resolution (redirect_kind redirect))
            | Some _ => index_update resolutions canonical_symbol_id (fun _ => Some value)
            end
        end
  | _ => Ok resolutions
  end.

(** The sections a symbol of a script is evaluated against. *)
Definition layouts_for {A} (loc : SymbolLoc) (section_layouts merged_section_layouts : A) : A :=
  match loc with
  | SectionStartRelative _ | SectionEndRelative _ | Layout.LocationCounter _ _ => section_layouts
  | SectionEnd _ | FirstSection | NoLoc => merged_section_layouts
  end.

Definition update_script_symbol (input : InputRef) (section_layouts merged_section_layouts : list OutputRecordLayout)
    (memory_regions : list (list Z * MemoryRegion)) (resolved_location_counters : list ResolvedLocationCounter)
    (def_info : InternalSymDefInfo) (resolutions : Resolutions) : res Resolutions :=
  match placement def_info with
  | RedirectPlacement redirect =>
      update_defsym_symbol_resolution (Some input)
        (layouts_for (redirect_loc redirect) section_layouts merged_section_layouts)
        memory_regions resolved_location_counters def_info resolutions
  | _ => Ok resolutions
  end.

(** [inputs] gives the input file of a script. *)
Definition update_redirect_resolutions (inputs : Z -> Z -> InputRef)
    (section_layouts merged_section_layouts : list OutputRecordLayout)
    (memory_regions : list (list Z * MemoryRegion)) (resolved_location_counters : list ResolvedLocationCounter)
    (resolutions : Resolutions) : res Resolutions :=
  for_each (fun '(g, group) resolutions =>
      match group with
      | PreludeGroup definitions =>
          for_each (update_defsym_symbol_resolution None merged_section_layouts memory_regions [])
            definitions resolutions
      | LinkerScriptsGroup scripts =>
          for_each (fun '(f, script) =>
              for_each (update_script_symbol (inputs (Z.of_nat g) (Z.of_nat f)) section_layouts
                          merged_section_layouts memory_regions resolved_location_counters) script.2)
            (imap pair scripts) resolutions
      | ObjectsGroup _ | OtherGroup => Ok resolutions
      end)
    (imap pair (groups db)) resolutions.
End Late.

(** ** Constant expressions *)
Section Constants.
Context `{P : Platform}.
Context {S : Type}.
Context (env : EvalEnv) (expr_loc : SymbolLoc) (cb : list Z -> S -> res (SymbolValue * S)).
Context (Hloc : relative_section_id expr_loc = None).

(** Literals are 64-bit values. *)
Definition literals_ok (e : Expression) : bool :=
  all_subexpressions (fun e => match e with Number n => (0 <=? n) && (n <? 2 ^ 64) | _ => true end) e.

(** A constant computation and its evaluation in the monad give the same answer, unless
    the first stops at something that is not constant. *)
Definition agrees (c : res Z) (m : eval S Z) : Prop :=
  c <> Err expected_constant ->
  forall k s, m k s = match c with Ok v => Ok (v, k, s) | Err e => Err e | Panic => Panic end.

Definition u64_result (c : res Z) : Prop := forall v, c = Ok v -> in_u 64 v.

Lemma agrees_ret v : agrees (Ok v) (mret v).
Proof. done. Qed.

Lemma agrees_err msg : agrees (Err msg) (lift (Err msg)).
Proof. done. Qed.

Lemma agrees_not_constant m : agrees (Err expected_constant) m.
Proof. intros Hc. by destruct Hc. Qed.

Lemma agrees_bind c m f g :
  agrees c m -> (forall v, c = Ok v -> agrees (f v) (g v)) -> agrees (c ≫= f) (m ≫= g).
Proof.
  intros Hm Hf Hc k s. unfold mbind, eval_bind.
  rewrite Hm by (intros ->; done). destruct c as [v|e|]; [|done..]. cbn. by apply Hf.
Qed.

Lemma section_base_none k : section_base env k expr_loc = Ok 0.
Proof. unfold section_base. rewrite Hloc. by destruct (needs_section_base k). Qed.

Lemma agrees_with_section_base c m :
  agrees c m -> u64_result c -> agrees c (with_section_base env expr_loc m).
Proof.
  intros Hm Hr Hc k s. unfold with_section_base. rewrite Hm by done.
  destruct c as [v|e|]; [|done..]. cbn [mbind res_bind]. rewrite section_base_none. cbn [mbind res_bind].
  unfold wadd. by rewrite Z.add_0_r, (wrap_small 64 v) by (by apply Hr).
Qed.

Lemma u64_bind (c : res Z) (f : Z -> res Z) :
  u64_result c -> (forall v, c = Ok v -> in_u 64 v -> u64_result (f v)) -> u64_result (c ≫= f).
Proof. intros Hc Hf v. destruct c as [x|e|]; cbn; [|done..]. apply Hf; [done|]. by apply Hc. Qed.

Lemma in_u64_wrap x : in_u 64 (wrap 64 x).
Proof. by apply wrap_range. Qed.

Lemma in_u64_bool b : in_u 64 (of_bool b).
Proof. destruct b; split; done. Qed.

Lemma in_u_lxor w x y : in_u w x -> in_u w y -> in_u w (Z.lxor x y).
Proof.
  intros Hx Hy. pose proof (in_u_width _ _ Hx).
  assert (Z.lxor x y = wrap w (Z.lxor x y)) as ->; [|apply wrap_range; lia].
  apply Z.bits_inj'; intros i Hi. rewrite testbit_wrap by lia.
  case_decide; [done|]. rewrite Z.lxor_spec, (testbit_small w x), (testbit_small w y) by (done || lia). done.
Qed.

Lemma in_u_wshr w x n : 0 < w -> in_u w x -> in_u w (wshr w x n).
Proof. intros Hw Hx. apply in_u_shiftr; [done|]. apply Z.mod_pos_bound. lia. Qed.

Local Ltac u64 :=
  first [ apply in_u64_wrap | apply in_u64_bool
        | apply in_u_land; assumption | apply in_u_lor; assumption | apply in_u_lxor; assumption
        | apply in_u_wshr; [done|assumption]
        | unfold in_u in *; lia ].

Local Ltac u64_steps :=
  repeat match goal with
  | |- u64_result (_ ≫= _) => apply u64_bind; [by auto|intros ? _ ?]
  | |- u64_result (if ?b then _ else _) => destruct b
  | |- u64_result (Ok _) => intros ? [= <-]; u64
  | |- u64_result (Err _) => done
  | |- u64_result _ => by auto
  end.

Lemma evaluate_const_u64 e : literals_ok e = true -> u64_result (evaluate_const e).
Proof.
  unfold literals_ok. induction e; cbn; rewrite ?visit_all; intros Hl;
    rewrite ?andb_true_iff in Hl; destruct_and?; try done; u64_steps.
Qed.

Lemma evaluate_const_agrees_value e :
  literals_ok e = true -> agrees (evaluate_const e) (evaluate_expression_value env expr_loc cb e).
Proof.
  unfold literals_ok. induction e; cbn; rewrite ?visit_all; intros Hl;
    rewrite ?andb_true_iff in Hl; destruct_and?; try done; unfold binary, divide;
  repeat match goal with
  | |- agrees (Err expected_constant) _ => apply agrees_not_constant
  | |- agrees (_ ≫= _) (_ ≫= _) => apply agrees_bind; [|intros ? _]
  | |- agrees _ (with_section_base _ _ _) => apply agrees_with_section_base; [|by apply evaluate_const_u64]
  | |- agrees (if ?b then _ else _) _ => destruct b
  | |- agrees (Ok _) _ => apply agrees_ret
  | |- agrees (Err _) _ => apply agrees_err
  | |- agrees _ _ => by auto
  end.
Qed.
End Constants.

(** ** Callbacks that agree *)
Section Callbacks.
Context `{P : Platform}.
Context {S : Type}.
Context (env : EvalEnv) (expr_loc : SymbolLoc) (I : S -> Prop).

(** Equal computations on states that satisfy [I], which they keep. *)
Definition same {A} (m m' : eval S A) : Prop :=
  forall k s, I s -> m k s = m' k s /\ forall v k' s', m k s = Ok (v, k', s') -> I s'.

Lemma same_bind {A B} (m m' : eval S A) (f f' : A -> eval S B) :
  same m m' -> (forall v, same (f v) (f' v)) -> same (m ≫= f) (m' ≫= f').
Proof.
  intros Hm Hf k s Hs. unfold mbind, eval_bind. destruct (Hm k s Hs) as [<- Hi].
  destruct (m k s) as [[[v k'] s']|e|] eqn:E; cbn; [|done..]. apply Hf. by eapply Hi.
Qed.

Lemma same_ret {A} (v : A) : same (mret v) (mret v).
Proof. intros k s Hs. split; [done|]. by intros v' k' s' [= <- <- <-]. Qed.

Lemma same_lift {A} (m : res A) : same (lift m) (lift m).
Proof. intros k s Hs. split; [done|]. unfold lift. destruct m; cbn; [|done..]. by intros v' k' s' [= <- <- <-]. Qed.

Lemma same_set_absolute : same set_absolute set_absolute.
Proof. intros k s Hs. split; [done|]. by intros v' k' s' [= <- <- <-]. Qed.

Lemma same_set_section_relative : same set_section_relative set_section_relative.
Proof. intros k s Hs. split; [done|]. by intros v' k' s' [= <- <- <-]. Qed.

Lemma same_with_section_base m m' :
  same m m' -> same (with_section_base env expr_loc m) (with_section_base env expr_loc m').
Proof.
  intros Hm k s Hs. unfold with_section_base. destruct (Hm default_kind s Hs) as [<- Hi].
  split; [done|]. intros v k' s'. destruct (m default_kind s) as [[[x kx] sx]|e|]; cbn; [|done..].
  destruct (section_base _ _ _); cbn; [|done..]. intros [= <- <- <-]. by eapply Hi.
Qed.

Create HintDb same.
#[local] Hint Resolve same_bind same_ret same_lift same_set_absolute same_set_section_relative
  same_with_section_base : same.

Local Ltac same_step :=
  match goal with
  | |- same (_ ≫= _) (_ ≫= _) => apply same_bind; [|intros ?]
  | |- same (match ?x with _ => _ end) _ => destruct x
  | |- same _ _ => solve [eauto with same]
  end.

Lemma same_symbol_value v : same (evaluate_symbol_value env v expr_loc) (evaluate_symbol_value env v expr_loc).
Proof. unfold evaluate_symbol_value. repeat same_step. Qed.
#[local] Hint Resolve same_symbol_value : same.

Context (cb cb' : list Z -> S -> res (SymbolValue * S)).
Context (Hcb : forall name s, I s ->
  cb name s = cb' name s /\ forall v s', cb name s = Ok (v, s') -> I s').

Lemma same_resolve_symbol name : same (resolve_symbol cb name) (resolve_symbol cb' name).
Proof.
  intros k s Hs. unfold resolve_symbol. destruct (Hcb name s Hs) as [<- Hi]. split; [done|].
  destruct (cb name s) as [[x sx]|e|]; cbn; [|done..]. intros v k' s' [= <- <- <-]. by eapply Hi.
Qed.
#[local] Hint Resolve same_resolve_symbol : same.

Lemma same_evaluate_value e :
  same (evaluate_expression_value env expr_loc cb e) (evaluate_expression_value env expr_loc cb' e).
Proof.
  induction e; cbn;
    unfold binary, divide, align_value, location_value, memory_region; repeat same_step.
Qed.

Lemma evaluate_expression_same e s :
  I s ->
  evaluate_expression env expr_loc cb e s = evaluate_expression env expr_loc cb' e s /\
  forall v s', evaluate_expression env expr_loc cb e s = Ok (v, s') -> I s'.
Proof.
  intros Hs. unfold evaluate_expression.
  destruct (same_with_section_base _ _ (same_evaluate_value e) default_kind s Hs) as [<- Hi].
  split; [done|]. intros v s'. destruct (with_section_base _ _ _ _ _) as [[[x kx] sx]|e'|]; cbn; [|done..].
  intros [= <- <-]. by eapply Hi.
Qed.
End Callbacks.

(** ** Early evaluation terminates *)
Section Termination.
Context `{P : Platform}.
Context (env : EvalEnv) (inputs : EarlyInputs).

Local Abbreviation recursion := (Expression -> SymbolLoc -> gset Z -> res (Z * gset Z)).

(** The symbols a recursive call can still enter. *)
Definition all_ids : gset Z := list_to_set (seqZ 0 (Z.of_nat (length (symbol_file_ids (symbol_db env))))).
Definition remaining (visited : gset Z) : nat := base.size (all_ids ∖ visited).

(** The symbols under evaluation are the same before and after a successful call. *)
Definition restores (recur : recursion) (visited : gset Z) : Prop :=
  forall e loc v visited', recur e loc visited = Ok (v, visited') -> visited' = visited.

Lemma file_id_in_ids id fid : file_id_for_symbol env id = Ok fid -> id ∈ all_ids.
Proof.
  intros [Hid Hl]%index_ok. apply elem_of_list_to_set, elem_of_seqZ.
  apply lookup_lt_Some in Hl. lia.
Qed.

Lemma remaining_visit id visited :
  id ∈ all_ids -> id ∉ visited -> (remaining ({[id]} ∪ visited) < remaining visited)%nat.
Proof.
  intros Hid Hv. unfold remaining. apply subset_size. set_solver.
Qed.

Lemma remaining_bound visited : (remaining visited < early_fuel env)%nat.
Proof.
  unfold remaining, early_fuel, all_ids.
  pose proof (subseteq_size (list_to_set (C := gset Z) (seqZ 0 (Z.of_nat (length (symbol_file_ids (symbol_db env))))) ∖ visited)
    (list_to_set (seqZ 0 (Z.of_nat (length (symbol_file_ids (symbol_db env)))))) ltac:(set_solver)) as H.
  rewrite (size_list_to_set (seqZ _ _)) in H by apply NoDup_seqZ. rewrite length_seqZ in H. lia.
Qed.

(** The callback only recurs into larger sets. *)
Lemma early_symbol_same (recur recur' : recursion) name visited :
  (forall visited', (remaining visited' < remaining visited)%nat ->
     restores recur visited' /\ forall e loc, recur e loc visited' = recur' e loc visited') ->
  early_symbol env inputs recur name visited = early_symbol env inputs recur' name visited /\
  forall v visited', early_symbol env inputs recur name visited = Ok (v, visited') -> visited' = visited.
Proof.
  intros Hrec. unfold early_symbol.
  destruct (db_get_unversioned _ name) as [[id|]|e|]; cbn; try done.
  destruct (db_definition _ id) as [c| |]; cbn; [|done..].
  destruct (file_id_for_symbol env c) as [fid| |] eqn:Ef; cbn; [|done..]. apply file_id_in_ids in Ef.
  destruct (get_file _ fid) as [state|]; [|done].
  assert (forall def_info,
    early_internal_symbol env recur c def_info visited = early_internal_symbol env recur' c def_info visited /\
    forall v visited', early_internal_symbol env recur c def_info visited = Ok (v, visited') ->
                       visited' = visited) as Hint.
  { intros def_info. unfold early_internal_symbol. destruct (placement def_info); try done.
    - split; [done|]. by intros v visited' [= <- <-].
    - split; [done|]. destruct (section_layout _ _); cbn; [|done..]. by intros v visited' [= <- <-].
    - case_bool_decide as Hv; [split; [done|]; by intros v visited' [= <- <-]|].
      destruct (Hrec _ (remaining_visit _ _ Ef Hv)) as [Hres <-]. split; [done|].
      destruct (recur _ _ _) as [[x vx]| |] eqn:Ex; cbn; [|done..].
      destruct (current_section _ _); cbn; [|done..]. intros v visited' [= _ <-].
      apply Hres in Ex as ->. set_solver. }
  destruct state as [obj| | |]; cycle 1;
    try (destruct (internal_symbol_def _ _ _ _) as [[def_info|]| |]; cbn; [apply Hint|done..]).
  split; [done|]. destruct (resolve_early_object_symbol _ _ _ _); cbn; [|done..]. by intros v visited' [= _ <-].
Qed.

(** With more fuel than symbols that can be entered, neither the amount nor what is
    answered without fuel matters. *)
Lemma evaluate_early_fuel_enough (ex ex' : recursion) n : forall m visited,
  (remaining visited < n)%nat -> (remaining visited < m)%nat ->
  restores (evaluate_early_fuel env inputs ex n) visited /\
  forall e loc, evaluate_early_fuel env inputs ex n e loc visited = evaluate_early_fuel env inputs ex' m e loc visited.
Proof.
  induction n as [|n IH]; intros m visited Hn Hm; [lia|]. destruct m as [|m]; [lia|]. cbn.
  assert (forall e loc,
    evaluate_expression env loc (early_symbol env inputs (evaluate_early_fuel env inputs ex n)) e visited =
    evaluate_expression env loc (early_symbol env inputs (evaluate_early_fuel env inputs ex' m)) e visited /\
    forall v visited', evaluate_expression env loc (early_symbol env inputs (evaluate_early_fuel env inputs ex n)) e visited
                       = Ok (v, visited') -> visited' = visited) as H.
  { intros e loc. apply (evaluate_expression_same env loc (fun s => s = visited)); [|done].
    intros name s ->. apply early_symbol_same. intros visited' Hr. apply IH; lia. }
  split; [|by apply H]. intros e loc v visited' He. by eapply H.
Qed.
End Termination.

(** ** Moving a section *)
Section Moving.
Context `{P : Platform}.
Context {S : Type}.
Context (env : EvalEnv) (sec d : Z).

Definition merged_into_sec (id : Z) : bool :=
  match primary_of env id with Ok primary => primary =? sec | _ => false end.

Lemma merged_into id : primary_of env id = Ok sec -> merged_into_sec id = true.
Proof. intros H. unfold merged_into_sec. rewrite H. apply Z.eqb_refl. Qed.

Definition move_record (r : OutputRecordLayout) : OutputRecordLayout :=
  mkRecord (file_size r) (mem_size r) (rec_alignment r) (file_offset r)
    (wadd 64 (mem_offset r) d) (lma_offset r).

(** [sec] and the sections merged into it are placed [d] bytes later. *)
Definition move_section : EvalEnv :=
  mkEnv (input_ref env)
    (imap (fun i r => if merged_into_sec (Z.of_nat i) then move_record r else r)
       (env_section_layouts env))
    (env_output_sections env) (env_memory_regions env) (symbol_db env) (sizeof_headers env)
    (resolved_location_counters env) (env_laid_out_mem_offsets env).

(** Nothing in the expression stands for an address, or compares values. *)
Definition section_relative (e : Expression) : bool :=
  all_subexpressions (fun e => match e with
    | LessThan _ _ | GreaterThan _ _ | LessEqual _ _ | GreaterEqual _ _ | Equal _ _ | NotEqual _ _
    | Addr _ | Loadaddr _ | Origin _ | SegmentStart _ _ => false
    | _ => true
    end) e.

Context (expr_loc : SymbolLoc) (loc_section : Z).
Context (Hloc : relative_section_id expr_loc = Some loc_section) (Hsec : primary_of env loc_section = Ok sec).
Context (base : OutputRecordLayout) (Hprimary : primary_of env sec = Ok sec).
Context (Hbase : section_layout env sec = Ok base).
Context (Hmoved : in_u 64 (mem_offset base + d)).

(** The callback finds symbols of the section, [d] bytes later after the move. *)
Context (cb cb' : list Z -> S -> res (SymbolValue * S)).
Definition symbols_move : Prop := forall name s v s', cb name s = Ok (v, s') ->
  exists id address, v = SectionRelative id address /\ primary_of env id = Ok sec /\
    mem_offset base <= address /\ cb' name s = Ok (SectionRelative id (address + d), s').

(** A successful computation of a relative value is unchanged by the move. *)
Definition keeps {A} (m m' : eval S A) : Prop := forall k s v k' s',
  contains_absolute k = false -> m k s = Ok (v, k', s') -> contains_absolute k' = false /\ m' k s = Ok (v, k', s').

Lemma keeps_bind {A B} (m m' : eval S A) (f f' : A -> eval S B) :
  keeps m m' -> (forall v, keeps (f v) (f' v)) -> keeps (m ≫= f) (m' ≫= f').
Proof.
  intros Hm Hf k s v k' s' Hk. unfold mbind, eval_bind.
  destruct (m k s) as [[[x kx] sx]|e|] eqn:E; cbn; [|done..].
  apply Hm in E as [Hkx ->]; [|done]. cbn. by apply Hf.
Qed.

Lemma keeps_ret {A} (v : A) : keeps (mret v) (mret v).
Proof. by intros k s v' k' s' Hk [= <- <- <-]. Qed.

Lemma keeps_lift {A} (m m' : res A) : (forall v, m = Ok v -> m' = Ok v) -> keeps (lift m) (lift m').
Proof.
  intros Hm k s v k' s' Hk. unfold lift. destruct m as [x|e|]; cbn; [|done..].
  intros [= <- <- <-]. by rewrite (Hm x eq_refl).
Qed.

Lemma keeps_set_section_relative : keeps set_section_relative set_section_relative.
Proof. by intros k s v k' s' Hk [= <- <- <-]. Qed.

(** The layouts after the move. *)
Lemma moved_layout id r :
  section_layout env id = Ok r ->
  section_layout move_section id =
    Ok (if merged_into_sec id then move_record r else r).
Proof.
  unfold section_layout. cbn. intros [Hid Hl]%index_ok. unfold index. case_decide; [|lia].
  rewrite list_lookup_imap, Hl. cbn. by rewrite Z2Nat.id.
Qed.

Lemma moved_base : section_layout move_section sec = Ok (move_record base) /\
  mem_offset (move_record base) = mem_offset base + d.
Proof.
  rewrite (moved_layout sec base Hbase), merged_into by done. split; [done|]. cbn.
  by apply wrap_small.
Qed.

Lemma distance_moved x n y : wsub 64 (wadd 64 (wadd 64 x d) n) (wadd 64 y d) = wsub 64 (wadd 64 x n) y.
Proof.
  unfold wsub, wadd, wrap. rewrite !Zminus_mod_idemp_l, Zminus_mod_idemp_r, <- Z.add_sub_assoc, Zplus_mod_idemp_l.
  f_equal. lia.
Qed.

Lemma moved_location v : evaluate_location env expr_loc = Ok v -> evaluate_location move_section expr_loc = Ok v.
Proof.
  destruct expr_loc as [id|id|id| |idx [id|]|]; cbn in Hloc |- *; try done.
  injection Hloc as ->. change (primary_of move_section) with (primary_of env). rewrite Hsec. cbn.
  rewrite Hbase. cbn. destruct moved_base as [-> _]. cbn.
  destruct (section_layout env loc_section) as [r| |] eqn:El; cbn; [|done..].
  rewrite (moved_layout _ _ El), merged_into by done. cbn. intros [= <-]. f_equal.
  apply distance_moved.
Qed.

Lemma moved_size name v : section_size env name = Ok v -> section_size move_section name = Ok v.
Proof.
  unfold section_size. cbn. destruct (section_id_by_name _ _) as [id|]; [|done].
  destruct (section_layout env id) as [r| |] eqn:E; cbn; [|done..]. rewrite (moved_layout _ _ E). cbn.
  by destruct (merged_into_sec id).
Qed.

Lemma moved_align name v : section_align env name = Ok v -> section_align move_section name = Ok v.
Proof.
  unfold section_align. cbn. destruct (section_id_by_name _ _) as [id|]; [|done].
  destruct (section_layout env id) as [r| |] eqn:E; cbn; [|done..]. rewrite (moved_layout _ _ E). cbn.
  by destruct (merged_into_sec id).
Qed.

Lemma moved_symbol name : symbols_move ->
  keeps (value ← resolve_symbol cb name; evaluate_symbol_value env value expr_loc)
        (value ← resolve_symbol cb' name; evaluate_symbol_value move_section value expr_loc).
Proof.
  intros Hcb k s v k' s' Hk. unfold mbind, eval_bind, resolve_symbol.
  destruct (cb name s) as [[x sx]| |] eqn:E; cbn; [|done..].
  apply Hcb in E as (id & address & -> & Hid & Hge & ->). cbn.
  unfold evaluate_symbol_value, current_section, lift, mbind, eval_bind. cbn. rewrite Hloc. cbn.
  change (primary_of move_section) with (primary_of env). rewrite Hsec, Hid. cbn. rewrite Z.eqb_refl. cbn.
  destruct moved_base as [-> Hm]. rewrite Hbase. cbn -[move_record]. rewrite Hm. unfold offset_in.
  destruct (Z.ltb_spec address (mem_offset base)); [lia|].
  destruct (Z.ltb_spec (address + d) (mem_offset base + d)); [lia|]. cbn. intros [= <- <- <-].
  split; [done|]. do 3 f_equal. lia.
Qed.

Local Ltac keeps_steps :=
  repeat match goal with
  | |- keeps (_ ≫= _) (_ ≫= _) => apply keeps_bind; [|intros ?]
  | |- keeps (match ?x with _ => _ end) _ => destruct x
  | |- keeps (mret _) _ => apply keeps_ret
  | |- keeps set_section_relative _ => apply keeps_set_section_relative
  | |- keeps (lift _) (lift _) =>
      apply keeps_lift; first [done | apply moved_location | apply moved_size | apply moved_align]
  | |- keeps _ _ => by auto
  end.

Lemma moved_value e : symbols_move -> section_relative e = true ->
  keeps (evaluate_expression_value env expr_loc cb e) (evaluate_expression_value move_section expr_loc cb' e).
Proof.
  intros Hcb. unfold section_relative.
  induction e; cbn; rewrite ?visit_all; intros He; rewrite ?andb_true_iff in He; destruct_and?; try done;
    unfold binary, divide, align_value, location_value, memory_region; cbn;
    try (rewrite Hloc); try (by apply moved_symbol); keeps_steps.
Qed.
End Moving.

(** ** Theorems *)

(** C19. Evaluating a script symbol during layout always comes to an end, also when symbols are
    defined in terms of each other: the recursion through symbols is at most one level deeper
    than there are symbols, so whatever a recursion cut off at that depth or deeper were to
    answer, the result is the same one. It satisfies the recursive equation of the source,
    and a successful evaluation leaves the set of visited symbols as it found it. *)
Theorem early_evaluation_terminates `{P : Platform} env inputs e loc visited :
  (forall exhausted fuel, (early_fuel env <= fuel)%nat ->
     evaluate_early_fuel env inputs exhausted fuel e loc visited = evaluate_early_expression env inputs e loc visited) /\
  evaluate_early_expression env inputs e loc visited =
    evaluate_expression env loc (early_symbol env inputs (evaluate_early_expression env inputs)) e visited /\
  (forall v visited', evaluate_early_expression env inputs e loc visited = Ok (v, visited') -> visited' = visited).
Proof.
  unfold evaluate_early_expression. pose proof (remaining_bound env) as Hb.
  set (ex := fun _ _ _ => Err "out of fuel"). split_and!.
  - intros ex' fuel Hf. specialize (Hb visited). apply evaluate_early_fuel_enough; lia.
  - set (n := length (symbol_file_ids (symbol_db env))).
    change (evaluate_early_fuel env inputs ex (early_fuel env) e loc visited)
      with (evaluate_expression env loc (early_symbol env inputs (evaluate_early_fuel env inputs ex n)) e visited).
    apply (evaluate_expression_same env loc (fun s => s = visited)); [|done].
    intros name s ->. apply early_symbol_same. intros visited' Hr.
    assert (remaining env visited < S n)%nat by apply Hb.
    apply evaluate_early_fuel_enough; [lia|apply Hb].
  - apply (evaluate_early_fuel_enough env inputs ex ex _ (early_fuel env)); apply Hb.
Qed.

(** Constants mean the same everywhere: where [evaluate_const] is used (regions, fill
    values, program headers) an expression has the value, or fails with the message, that
    its evaluation at any place outside a section has, whatever the layout and the
    symbols; the only other answer is that something in it is not constant. *)
Theorem evaluate_const_agrees `{P : Platform} {S} env loc (cb : list Z -> S -> res (SymbolValue * S)) e s :
  relative_section_id loc = None -> literals_ok e = true -> evaluate_const e <> Err expected_constant ->
  evaluate_expression env loc cb e s =
    match evaluate_const e with Ok v => Ok (v, s) | Err msg => Err msg | Panic => Panic end.
Proof.
  intros Hloc Hl Hc. unfold evaluate_expression.
  rewrite (agrees_with_section_base env loc Hloc (evaluate_const e)).
  - by destruct (evaluate_const e).
  - by apply evaluate_const_agrees_value.
  - by apply evaluate_const_u64.
  - done.
Qed.

(** C18. Values inside a section move with it: when a section, the sections merged into it and
    its symbols are placed [d] bytes later, an expression in the section without absolute
    addresses and comparisons is worth [d] more. *)
Theorem relative_value_moves `{P : Platform} {S} env sec d loc id base
    (cb cb' : list Z -> S -> res (SymbolValue * S)) e s v s' :
  relative_section_id loc = Some id -> primary_of env id = Ok sec -> primary_of env sec = Ok sec ->
  section_layout env sec = Ok base -> in_u 64 (mem_offset base + d) ->
  symbols_move env sec d base cb cb' -> section_relative e = true ->
  evaluate_expression env loc cb e s = Ok (v, s') ->
  evaluate_expression (move_section env sec d) loc cb' e s = Ok (wadd 64 v d, s').
Proof.
  intros Hloc Hsec Hprim Hbase Hmoved Hcb He. unfold evaluate_expression, with_section_base.
  destruct (evaluate_expression_value env loc cb e default_kind s) as [[[x k] sx]| |] eqn:E; cbn; [|done..].
  apply (moved_value env sec d loc id Hloc Hsec base Hprim Hbase Hmoved cb cb' e Hcb He) in E as [Hk ->]; [|done].
  cbn. unfold section_base, needs_section_base. rewrite Hk, orb_true_r, Hloc.
  change (primary_of (move_section env sec d)) with (primary_of env). rewrite Hsec. cbn.
  destruct (moved_base env sec d base Hprim Hbase Hmoved) as [-> _]. rewrite Hbase. cbn. intros [= <- <-].
  do 2 f_equal. unfold wadd, wrap. rewrite Zplus_mod_idemp_r, Zplus_mod_idemp_l. f_equal. lia.
Qed.

(** [--defsym bar=foo]: afterwards [bar] has the address [foo] had, whatever section
    [foo] is in. *)
Lemma defsym_same_address `{P : Platform} os db sizeof_headers input layouts regions lcs kind target loc name
    resolutions t ct v section i c old :
  relative_section_id loc = None -> name <> [] ->
  db_get_unversioned db target = Ok (Some t) -> db_definition db t = Ok ct ->
  index resolutions ct = Ok (Some v) -> in_u 64 v -> symbol_output_section_id db ct = Ok section ->
  (forall id, section = Some id -> is_Ok (db_primary_output_section os id)) ->
  db_get_unversioned db name = Ok (Some i) -> db_definition db i = Ok c -> index resolutions c = Ok (Some old) ->
  update_defsym_symbol_resolution os db sizeof_headers input layouts regions lcs
    (mkSymDef (RedirectPlacement (mkRedirect kind (Symbol target) loc)) name) resolutions =
    Ok (<[Z.to_nat c := Some v]> resolutions).
Proof.
  intros Hloc Hname Ht Hct Hv Hv64 Hsec Hprim Hi Hc Hold.
  unfold update_defsym_symbol_resolution. cbn [placement redirect_loc redirect_expression def_name].
  set (env := mkEnv _ _ _ _ _ _ _ _).
  assert (evaluate_expression env loc (late_symbol db (mkRedirect kind (Symbol target) loc) resolutions)
            (Symbol target) tt = Ok (v, tt)) as ->.
  { unfold evaluate_expression, with_section_base. cbn. unfold mbind at 3. unfold eval_bind at 1, resolve_symbol.
    unfold late_symbol. rewrite Ht. cbn. rewrite Hct. cbn. rewrite Hv. cbn. rewrite Hsec. cbn.
    unfold evaluate_symbol_value, current_section, mbind, eval_bind, lift. cbn. rewrite Hloc. cbn.
    destruct section as [id|]; cbn.
    - destruct (Hprim id eq_refl) as [p Hp]. unfold primary_of. cbn. rewrite Hp. cbn.
      unfold section_base. cbn. unfold wadd. rewrite Z.add_0_r. by rewrite wrap_small.
    - unfold section_base. cbn. unfold wadd. rewrite Z.add_0_r. by rewrite wrap_small. }
  cbn. rewrite bool_decide_false by done. cbn. rewrite Hi. cbn. rewrite Hc. cbn. rewrite Hold. cbn.
  unfold index_update. by rewrite Hold.
Qed.

(** A symbol of another section, named alone in an expression inside section [sec]: found
    through its output section, the start of [sec] is added to its address; found through
    its part, it is not. *)
Lemma other_section_symbol_shifted `{P : Platform} env loc id sec base name section_id other part_id start address :
  relative_section_id loc = Some id -> primary_of env id = Ok sec -> section_layout env sec = Ok base ->
  primary_of env section_id = Ok other -> other <> sec ->
  primary_of env (output_section_id NUM_SINGLE_PART_SECTIONS part_id) = Ok other ->
  part_get None (env_laid_out_mem_offsets env) part_id = Some start -> start <= address < 2 ^ 64 -> 0 <= start ->
  evaluate_expression env loc (fun _ s => Ok (SectionRelative section_id address, s)) (Symbol name) tt =
    Ok (wadd 64 address (mem_offset base), tt) /\
  evaluate_expression env loc (fun _ s => Ok (PartRelative part_id (address - start), s)) (Symbol name) tt =
    Ok (address, tt).
Proof.
  intros Hloc Hsec Hbase Ho Hne Hpart Hstart Ha Hs0.
  assert (forall x, section_base env (mkKind true false) loc = Ok x -> x = 0) as Hz by (cbn; by intros x [= <-]).
  split; unfold evaluate_expression, with_section_base; cbn; unfold mbind at 3; unfold eval_bind at 1; cbn;
    unfold evaluate_symbol_value, current_section, mbind, eval_bind, lift; cbn; rewrite Hloc; cbn;
    rewrite Hsec; cbn.
  - rewrite Ho. cbn. destruct (Z.eqb_spec sec other); [congruence|]. cbn. rewrite Hbase. cbn.
    do 2 f_equal. unfold wadd, wrap. by rewrite Z.add_0_r, Z.mod_mod.
  - rewrite Hstart. cbn. rewrite Hpart. cbn. rewrite bool_decide_false by congruence. cbn.
    do 2 f_equal. unfold wadd. rewrite Z.add_0_r, wrap_wrap by lia.
    rewrite wrap_small by (unfold in_u; lia). lia.
Qed.

(** During layout a section-start symbol is worth zero outside the section, wherever the
    section is. *)
Lemma early_section_start_zero `{P : Platform} env recur canonical_id loc section_id primary name visited :
  relative_section_id loc = None -> primary_of env section_id = Ok primary ->
  evaluate_expression env loc
    (fun _ => early_internal_symbol env recur canonical_id (mkSymDef (SectionStartPlacement section_id) name))
    (Symbol name) visited = Ok (0, visited).
Proof.
  intros Hloc Hp. unfold evaluate_expression, with_section_base. cbn. unfold mbind at 3. unfold eval_bind at 1. cbn.
  unfold evaluate_symbol_value, current_section, mbind, eval_bind, lift. cbn. rewrite Hloc. cbn. by rewrite Hp.
Qed.

(** ** Witnesses *)
Module Example.

Definition bytes (s : string) : list Z :=
  map (fun b => Z.of_N (Byte.to_N b)) (String.list_byte_of_string s).

Definition retype (i : SectionOutputInfo (Expression := Z)) : SectionOutputInfo (Expression := Expression) :=
  mkSectionOutputInfo (merge_target i) (is_alloc i) (is_tls_section i) (is_no_bits i) (min_alignment i) None
    (region_name i).

Definition os : OutputSections :=
  mkOutputSections (map retype Layout.Example.output_sections)
    (replicate 34 None ++ map (Some ∘ bytes) [".text"; ".tdata"; ".tbss"; ".data"; ".bss"; ".comment"]%string) ∅.

(** [first = second; second = first; start = ALIGN(first + 0x400123, 0x1000);] *)
Definition script : list InternalSymDefInfo :=
  let def name e := mkSymDef (RedirectPlacement (mkRedirect Script e NoLoc)) (bytes name) in
  [def "first"%string (Symbol (bytes "second"));
   def "second"%string (Symbol (bytes "first"));
   def "start"%string (AlignOf (Number 0x1000) (Add (Symbol (bytes "first")) (Number 0x400123)))].

Definition db : SymbolDb :=
  mkSymbolDb (fun _ => 0)
    [mkBucket {[bytes "first" := 1; bytes "second" := 2; bytes "start" := 3]} ∅ ∅ ∅]
    [0; 1; 2; 3] [(0, 0); (1, 0); (1, 0); (1, 0)]
    [PreludeGroup [mkSymDef UndefinedPlacement []]; LinkerScriptsGroup [(1, script)]] [] None None None.

Definition inputs : EarlyInputs := mkEarlyInputs [[PreludeState 0]; [LinkerScriptState 1]] [].

(** [. = start; .text; . = ALIGN(0x1000); .data] *)
Definition order : list (OrderEvent (Expression := Expression)) :=
  [Layout.SegmentStart 0; Section_ 0; SetLocation (Symbol (bytes "start")) NoLoc 1; Section_ 34;
   Layout.SegmentEnd 0; SetLocation (Align (Number 0x1000)) (SectionEnd 34) 2; Layout.SegmentStart 1; Section_ 37;
   Layout.SegmentEnd 1].

Definition layout E :=
  compute_layout_sections (P := elf_platform) E Layout.Example.args (section_infos os)
    Layout.Example.program_segments Layout.Example.sizes (Number 0x10000) 3 [] order.

Definition run := layout (layout_expression_eval (P := elf_platform) os db 64 inputs).
Definition records := match run with Ok (records, _, _) => records | _ => mkPartMap [] None end.
Definition layouts := match run with Ok (_, layouts, _) => layouts | _ => [] end.
Definition lcs := match run with Ok (_, _, lcs) => lcs | _ => [] end.

(** The cycle is worth zero; [.text] starts at the aligned address, [.data] on the page
    after the end of [.text]. *)
Example text_placed : mem_offset (part_get default_record records 51) = 0x401000.
Proof. by vm_compute. Qed.
Example data_placed : mem_offset (part_get default_record records 115) = 0x402000.
Proof. by vm_compute. Qed.

Definition env : EvalEnv :=
  mkEnv None (replicate 37 default_record ++ [mkRecord 64 64 MIN 0x1000 0x402000 0x402000]) os [] db 64
    [mkLocationCounter 0x402008 (Some 8)] (mkPartMap [] None).

Definition symbol_at (address : Z) (name : list Z) (s : unit) : res (SymbolValue * unit) :=
  Ok (SectionRelative 37 address, s).

(** [buffer + (ALIGN(16) | 1)] in [.data]. *)
Definition in_data : Expression :=
  Add (Symbol (bytes "buffer")) (BitwiseOr (Align (Number 16)) (Number 1)).

(** [-0x1000 & ~0xfff ? 0x600000 >> 1 : 0 / 0]. *)
Definition constant : Expression :=
  Ternary (BitwiseAnd (Negate (Number 0x1000)) (BitwiseNot (Number 0xfff)))
    (RightShift (Number 0x600000) (Number 1)) (Divide (Number 0) (Number 0)).
End Example.

Lemma evaluate_const_agrees_witness :
  evaluate_expression (P := elf_platform) Example.env NoLoc (Example.symbol_at 0) Example.constant tt = Ok (0x300000, tt).
Proof.
  rewrite (evaluate_const_agrees (P := elf_platform) Example.env NoLoc (Example.symbol_at 0) Example.constant tt);
    [by vm_compute|done|by vm_compute|by vm_compute].
Defined.

Lemma relative_value_moves_witness :
  evaluate_expression (P := elf_platform) (move_section Example.env 37 0x1000) (Layout.LocationCounter 0 (Some 37))
    (Example.symbol_at 0x403020) Example.in_data tt = Ok (wadd 64 0x402031 0x1000, tt).
Proof.
  apply (relative_value_moves (P := elf_platform) Example.env 37 0x1000 (Layout.LocationCounter 0 (Some 37)) 37
    (mkRecord 64 64 MIN 0x1000 0x402000 0x402000) (Example.symbol_at 0x402020)); try (by vm_compute).
  intros name [] v s' [= <- <-]. by exists 37, 0x402020.
Defined.
