(* ===== verification/Resolution.v ===== *)
(** Symbol references and the choice of archive entries: [libjdxld/src/resolution.rs].

    Every file that is linked asks for the definitions of its undefined symbols; a
    definition in an archive entry that is not yet loaded makes the entry load, which asks
    for more.  The requests are processed by a pool of threads.  The work of a thread is
    given here as a list of atomic actions ([process_object]), computed from the names of
    all files, which do not change in this phase; a state holds the actions every spawned
    task has left, and a step runs the next action of any task ([step_task]).  What the
    schedule leaves open is then a matter of which tasks are picked.

    Afterwards [canonicalise_undefined_symbols] gives all references to an undefined name
    one symbol.  Linker plugins and their inputs are a build option and are left out. *)
From Stdlib Require Import ZArith Lia Permutation.
From stdpp Require Import base list list_numbers numbers strings option gmap sorting.
From S2P Require Import Prelude ValueFlags Symbols Expressions RelocValue.

Local Open Scope Z_scope.

(** ** Input files *)

(** [RawSymbolName::parse]: [name@version] or [name@@version]. *)
Fixpoint split_at_sign (name_bytes : list Z) : list Z * option (list Z) :=
  match name_bytes with
  | [] => ([], None)
  | c :: rest =>
      if c =? 64 then ([], Some rest)
      else let '(name, version) := split_at_sign rest in (c :: name, version)
  end.

Definition parse_raw_name (name_bytes : list Z) : RawSymbolName :=
  match split_at_sign name_bytes with
  | (name, None) => mkRawName name true None
  | (name, Some (64 :: version)) => mkRawName name true (Some version)
  | (name, Some version) => mkRawName name false (Some version)
  end.

(** [raw_symbol_name] of ELF, given the version names of the needed symbols by index. *)
Definition raw_symbol_name (name_bytes : list Z) (verneed_table : list (option (list Z)))
    (symbol_index : nat) : RawSymbolName :=
  match verneed_table !! symbol_index with
  | Some (Some version_name) => mkRawName name_bytes false (Some version_name)
  | _ => parse_raw_name name_bytes
  end.

(** [PreHashedSymbolName::from_raw]. *)
Definition from_raw (info : RawSymbolName) : SymbolName :=
  match version_name info with
  | Some version => Versioned (raw_name info, version)
  | None => Unversioned (raw_name info)
  end.

(** What is read from a symbol-table entry. *)
Record InputSymbol := mkInputSymbol {
  symbol_name : res (list Z);
  symbol_is_weak : bool;
  symbol_is_hidden : bool;
  symbol_is_interposable : bool     (* default visibility *)
}.

(** [SequencedInputObject]; the symbols are numbered from [symbol_id_start]. *)
Record InputObject := mkInputObject {
  symbol_id_start : Z;
  input_symbols : list InputSymbol;
  input_verneed_table : res (list (option (list Z)));
  input_dynamic : bool;
  has_archive_semantics : bool;
  whole_archive : bool;
  as_needed : bool
}.

Definition is_optional (obj : InputObject) : bool :=
  (has_archive_semantics obj && negb (whole_archive obj)) || (input_dynamic obj && as_needed obj).

(** [grouping::Group]: stub libraries and synthetic symbols count for their symbols only. *)
Inductive InputGroup :=
| PreludeFile (symbol_definitions : list InternalSymDefInfo)
| ObjectFiles (objects : list InputObject)
| StubFiles (num_symbols : list Z)
| ScriptFiles (scripts : list (list InternalSymDefInfo))
| SyntheticFile (num_symbols : Z).

(** The symbol database as this phase reads it. *)
Record LinkInput := mkLinkInput {
  hash_bytes : list Z -> Z;
  buckets : list SymbolBucket;
  tables : Tables;
  input_groups : list InputGroup;
  entry_symbol_name : option (list Z);
  HAS_NULL_SYMBOL_ENTRY : bool
}.

Definition PRELUDE_FILE_ID : FileId := (0, 0).

(** ** Requests *)
Record LoadObjectSymbolsRequest := mkRequest {
  req_file_id : FileId;
  symbol_start_offset : Z;
  definitions_out : Z;              (* the part of [symbol_definitions] written: its start *)
  definitions_len : Z
}.

Definition MAX_SYMBOLS_PER_WORK_ITEM : Z := 5000.

(** The loop of [work_items_do]; [fuel] bounds the number of chunks after the first. *)
Fixpoint chunk_items (fuel : nat) (file_id : FileId) (chunk_size symbol_start_offset out len : Z) :
    list LoadObjectSymbolsRequest :=
  let n := Z.min chunk_size len in
  mkRequest file_id symbol_start_offset out n ::
  (if len - n =? 0 then []
   else match fuel with
        | O => []
        | S fuel => chunk_items fuel file_id chunk_size (symbol_start_offset + n) (out + n) (len - n)
        end).

(** [work_items_do]: whether the file is pushed to the loaded ones, and the requests. *)
Definition work_items_do (groups : list InputGroup) (file_id : FileId) (slice : Z * Z) :
    res (bool * list LoadObjectSymbolsRequest) :=
  group ← index groups file_id.1;
  let '(out, len) := slice in
  match group with
  | ObjectFiles objects =>
      _ ← index objects file_id.2;
      Ok (true, chunk_items (Z.to_nat len) file_id MAX_SYMBOLS_PER_WORK_ITEM 0 out len)
  | _ => Ok (false, chunk_items (Z.to_nat len) file_id len 0 out len)
  end.

(** ** Actions *)

(** A reference without a definition, or to one that may not be loaded. *)
Record UndefinedSymbol := mkUndefined {
  ignore_if_loaded : option FileId;
  undefined_name : SymbolName;
  undefined_id : Z
}.

(** [DowngradeHidden], [Protect] and [NonIrRef] are the stores to the flags of a symbol. *)
Inductive action :=
| Request (file_id : FileId)
| Define (definition_out symbol_id : Z)
| DowngradeHidden (symbol_id : Z)
| Protect (symbol_id : Z)
| NonIrRef (symbol_id : Z)
| PushUndefined (u : UndefinedSymbol)
| PushError (msg : string).

Section Actions.
Context (link : LinkInput).

Local Abbreviation file_ids := (Symbols.symbol_file_ids (tables link)).

Definition lookup_unversioned (name : list Z) : res (option Z) :=
  get_unversioned (hash_bytes link) (buckets link) name.

(** [resolve_symbol], for a symbol of the object [file_id]. *)
Definition resolve_symbol (local_symbol_id : Z) (name_info : RawSymbolName) (symbol : InputSymbol)
    (definition_out : Z) (is_dynamic : bool) (file_id : FileId) : res (list action) :=
  let prehashed_name := from_raw name_info in
  let default_visibility := symbol_is_interposable symbol in
  found ← get (hash_bytes link) (tables link) (buckets link) prehashed_name default_visibility;
  match found with
  | Some symbol_id =>
      visibility_stores ←
        (if default_visibility then Ok ([] : list action)
         else
           visibility ← input_symbol_visibility (tables link) local_symbol_id;
           Ok (match visibility with
               | Hidden => [DowngradeHidden symbol_id]
               | Protected => [Protect symbol_id]
               | Default => []
               end));
      symbol_file_id ← index file_ids symbol_id;
      request ←
        (if bool_decide (symbol_file_id <> file_id) && negb (symbol_is_weak symbol) then
           file_is_dynamic ← (if is_dynamic then input_is_dynamic (tables link) symbol_file_id else Ok false);
           Ok (if file_is_dynamic : bool then [] else [Request symbol_file_id])
         else
           Ok (if bool_decide (symbol_file_id <> PRELUDE_FILE_ID) then
                 [PushUndefined (mkUndefined (Some symbol_file_id) prehashed_name local_symbol_id)]
               else []));
      Ok (Define definition_out symbol_id :: visibility_stores ++ NonIrRef symbol_id :: request)
  | None => Ok [PushUndefined (mkUndefined None prehashed_name local_symbol_id)]
  end.

Definition failed_to_resolve : string := "Failed to resolve symbols in {obj}".

(** The loop of [resolve_symbols] over a chunk: [i] counts from the start of the chunk,
    [definitions] is the part of the table the chunk writes, as it was before. *)
Fixpoint resolve_chunk (obj : InputObject) (verneed_table : list (option (list Z))) (file_id : FileId)
    (start_symbol_offset : Z) (i : nat) (out : Z) (symbols : list InputSymbol) (definitions : list Z) :
    res (list action) :=
  match symbols, definitions with
  | symbol :: symbols, definition :: definitions =>
      let next := resolve_chunk obj verneed_table file_id start_symbol_offset (S i) out symbols definitions in
      if negb (definition =? Symbols.undefined_id)
         || (HAS_NULL_SYMBOL_ENTRY link && (start_symbol_offset + Z.of_nat i =? 0))
         || (input_dynamic obj && symbol_is_hidden symbol) then next
      else
        match symbol_name symbol with
        | Ok name_bytes =>
            actions ← resolve_symbol (wadd 32 (symbol_id_start obj) (start_symbol_offset + Z.of_nat i))
                        (raw_symbol_name name_bytes verneed_table i) symbol (out + Z.of_nat i)
                        (input_dynamic obj) file_id;
            rest ← next;
            Ok (actions ++ rest)
        | Err _ => Ok [PushError failed_to_resolve]
        | Panic => Panic
        end
  | _, _ => Ok []
  end.

Definition resolve_symbols (definitions : list Z) (obj : InputObject) (item : LoadObjectSymbolsRequest) :
    res (list action) :=
  match input_verneed_table obj with
  | Ok verneed_table =>
      resolve_chunk obj verneed_table (req_file_id item) (symbol_start_offset item) 0 (definitions_out item)
        (drop (Z.to_nat (symbol_start_offset item)) (input_symbols obj))
        (take (Z.to_nat (definitions_len item)) (drop (Z.to_nat (definitions_out item)) definitions))
  | Err _ => Ok [PushError failed_to_resolve]
  | Panic => Panic
  end.

(** [load_symbol_named]: the symbol, and the file it is in. *)
Definition load_symbol_named (name : list Z) : res (option (Z * FileId)) :=
  symbol_id ← lookup_unversioned name;
  match symbol_id with
  | Some symbol_id => file_id ← index file_ids symbol_id; Ok (Some (symbol_id, file_id))
  | None => Ok None
  end.

Definition load_symbols_in_redirect (redirect : Redirect) : res (list action) :=
  visit_expressions (fun e acc =>
    (true,
     acc ← acc;
     match e with
     | Expressions.Symbol target_name =>
         found ← load_symbol_named target_name;
         Ok (acc ++ match found with
                    | Some (symbol_id, file_id) => [Request file_id; NonIrRef symbol_id]
                    | None => []
                    end)
     | _ => Ok acc
     end)) (redirect_expression redirect) (Ok []).

Definition concatM {A B} (f : A -> res (list B)) (l : list A) : res (list B) :=
  parts ← mapM f l; Ok (concat parts).

(** The symbols of the prelude, zipped with the definitions to write. *)
Definition load_prelude (symbol_definitions : list InternalSymDefInfo) (item : LoadObjectSymbolsRequest) :
    res (list action) :=
  entry ← (match entry_symbol_name link with
           | Some name =>
               found ← load_symbol_named name;
               Ok (match found with
                   | Some (symbol_id, file_id) => [Request file_id; NonIrRef symbol_id]
                   | None => []
                   end)
           | None => Ok []
           end);
  rest ← concatM (fun '(i, def_info) =>
      match placement def_info with
      | ForceUndefined =>
          found ← load_symbol_named (def_name def_info);
          Ok (match found with
              | Some (symbol_id, file_id) => [Define (definitions_out item + Z.of_nat i) symbol_id; Request file_id]
              | None => []
              end)
      | RedirectPlacement redirect => load_symbols_in_redirect redirect
      | _ => Ok []
      end) (take (Z.to_nat (definitions_len item)) (imap pair symbol_definitions));
  Ok (entry ++ rest).

Definition load_script (symbol_defs : list InternalSymDefInfo) : res (list action) :=
  concatM (fun sym =>
    match placement sym with
    | RedirectPlacement redirect => load_symbols_in_redirect redirect
    | _ => Ok []
    end) symbol_defs.

(** [process_object]: the actions of a task. *)
Definition process_object (definitions : list Z) (item : LoadObjectSymbolsRequest) : res (list action) :=
  group ← index (input_groups link) (req_file_id item).1;
  match group with
  | PreludeFile symbol_definitions => load_prelude symbol_definitions item
  | ObjectFiles objects =>
      obj ← index objects (req_file_id item).2;
      resolve_symbols definitions obj item
  | ScriptFiles scripts => concatM load_script scripts
  | StubFiles _ | SyntheticFile _ => Ok []
  end.
End Actions.

(** ** Setup *)

(** What later phases need to know of a file: whether it is loaded, and how many symbols
    it has. *)
Inductive ResolvedFile := NotLoaded (num_symbols : Z) | Resolved (num_symbols : Z).

Definition num_symbols (f : ResolvedFile) : Z := match f with NotLoaded n | Resolved n => n end.

Record Resolver := mkResolver {
  undefined_symbols : list UndefinedSymbol;
  resolved_groups : list (list ResolvedFile)
}.

(** What the setup of a group adds: the files as resolved so far, for each file the part of
    the definitions that is still to take ([AtomicTake]), the initial work, and the files
    that are loaded from the start. *)
Record GroupSetup := mkSetup {
  setup_files : list ResolvedFile;
  definitions_per_file : list (option (Z * Z));
  setup_work : list LoadObjectSymbolsRequest;
  setup_loaded : list FileId
}.

Section Setup.
Context (groups : list InputGroup) (total : Z).

(** [symbol_definitions_slice.split_off_mut(..len).unwrap()]. *)
Definition split_off (position len : Z) : res ((Z * Z) * Z) :=
  if (0 <=? len) && (position + len <=? total) then Ok ((position, len), position + len) else Panic.

(** The files of a group of an earlier call. *)
Fixpoint setup_resolved (files : list ResolvedFile) (position : Z) : res (list (option (Z * Z)) * Z) :=
  match files with
  | [] => Ok ([], position)
  | file :: files =>
      '(slice, position) ← split_off position (num_symbols file);
      '(rest, position) ← setup_resolved files position;
      Ok ((match file with NotLoaded _ => Some slice | Resolved _ => None end) :: rest, position)
  end.

Definition add_file (f : ResolvedFile) (take : option (Z * Z)) (work : list LoadObjectSymbolsRequest)
    (loaded : list FileId) (s : GroupSetup) : GroupSetup :=
  mkSetup (f :: setup_files s) (take :: definitions_per_file s) (work ++ setup_work s) (loaded ++ setup_loaded s).

Definition empty_setup : GroupSetup := mkSetup [] [] [] [].

Fixpoint setup_objects (g f : Z) (objects : list InputObject) (position : Z) : res (GroupSetup * Z) :=
  match objects with
  | [] => Ok (empty_setup, position)
  | obj :: objects =>
      let n := Z.of_nat (length (input_symbols obj)) in
      '(slice, position) ← split_off position n;
      if is_optional obj then
        '(rest, position) ← setup_objects g (f + 1) objects position;
        Ok (add_file (NotLoaded n) (Some slice) [] [] rest, position)
      else
        '(_, work) ← work_items_do groups (g, f) slice;
        '(rest, position) ← setup_objects g (f + 1) objects position;
        Ok (add_file (NotLoaded n) None work [(g, f)] rest, position)
  end.

Fixpoint setup_stubs (stubs : list Z) (position : Z) : res (GroupSetup * Z) :=
  match stubs with
  | [] => Ok (empty_setup, position)
  | n :: stubs =>
      '(_, position) ← split_off position n;
      '(rest, position) ← setup_stubs stubs position;
      Ok (add_file (Resolved n) None [] [] rest, position)
  end.

Fixpoint setup_scripts (g f : Z) (scripts : list (list InternalSymDefInfo)) (position : Z) :
    res (GroupSetup * Z) :=
  match scripts with
  | [] => Ok (empty_setup, position)
  | symbol_defs :: scripts =>
      let n := Z.of_nat (length symbol_defs) in
      '(slice, position) ← split_off position n;
      '(rest, position) ← setup_scripts g (f + 1) scripts position;
      Ok (add_file (Resolved n) None [mkRequest (g, f) 0 slice.1 slice.2] [] rest, position)
  end.

Definition resolve_group (g : Z) (group : InputGroup) (position : Z) : res (GroupSetup * Z) :=
  match group with
  | PreludeFile symbol_definitions =>
      let n := Z.of_nat (length symbol_definitions) in
      '(slice, position) ← split_off position n;
      '(_, work) ← work_items_do groups PRELUDE_FILE_ID slice;
      Ok (add_file (Resolved n) None work [] empty_setup, position)
  | ObjectFiles objects => setup_objects g 0 objects position
  | StubFiles stubs => setup_stubs stubs position
  | ScriptFiles scripts => setup_scripts g 0 scripts position
  | SyntheticFile n =>
      '(_, position) ← split_off position n;
      Ok (add_file (Resolved n) None [] [] empty_setup, position)
  end.

(** The groups of earlier calls, then the new ones. *)
Fixpoint setup_groups (g : Z) (existing : list (list ResolvedFile)) (new_groups : list InputGroup)
    (position : Z) : res (list GroupSetup) :=
  match existing with
  | files :: existing =>
      '(takes, position) ← setup_resolved files position;
      rest ← setup_groups (g + 1) existing new_groups position;
      Ok (mkSetup files takes [] [] :: rest)
  | [] =>
      (fix setup_new (g : Z) (new_groups : list InputGroup) (position : Z) : res (list GroupSetup) :=
         match new_groups with
         | [] => Ok []
         | group :: new_groups =>
             '(setup, position) ← resolve_group g group position;
             rest ← setup_new (g + 1) new_groups position;
             Ok (setup :: rest)
         end) g new_groups position
  end.
End Setup.

(** ** Tasks *)
Record TaskState := mkTasks {
  tasks : list (list action);              (* what every spawned task has left to do *)
  taken : list FileId;                     (* the [AtomicTake]s that were emptied, in order *)
  loaded : list FileId;
  definitions : list Z;
  flags : list Z;
  undefined : list UndefinedSymbol;
  error : option string                    (* a queue of capacity one *)
}.

Definition num_regular_objects (groups : list InputGroup) : nat :=
  sum_list_with (fun g => match g with ObjectFiles objects => length objects | _ => 0%nat end) groups.

(** The queue of loaded files, [Outputs::loaded], has room for all objects; [unwrap] panics
    when a push finds it full. *)
Definition loaded_capacity (groups : list InputGroup) : nat := Nat.max (num_regular_objects groups) 1.

Definition push_loaded (capacity : nat) (file_id : FileId) (loaded : list FileId) : res (list FileId) :=
  if (length loaded <? capacity)%nat then Ok (loaded ++ [file_id]) else Panic.

Section Tasks.
Context (link : LinkInput).
(** [definitions_per_group_and_file], and the definitions the tasks start from. *)
Context (slices : list (list (option (Z * Z)))) (initial_definitions : list Z).

Definition spawn (items : list LoadObjectSymbolsRequest) : res (list (list action)) :=
  mapM (process_object link initial_definitions) items.

(** [try_request_file_id].  The load that precedes the swap only saves work, and spawning
    the tasks one by one allows no other orders of their actions.  A file without a slot is
    one of an earlier call. *)
Definition try_request_file_id (file_id : FileId) (s : TaskState) : res TaskState :=
  definitions_group ← index slices file_id.1;
  match index definitions_group file_id.2 with
  | Ok (Some slice) =>
      if bool_decide (file_id ∈ taken s) then Ok s
      else
        '(is_object, items) ← work_items_do (input_groups link) file_id slice;
        loaded ← (if is_object : bool then push_loaded (loaded_capacity (input_groups link)) file_id (loaded s)
                  else Ok (loaded s));
        new_tasks ← spawn items;
        Ok (mkTasks (tasks s ++ new_tasks) (taken s ++ [file_id]) loaded (definitions s) (flags s) (undefined s)
              (error s))
  | _ => Ok s
  end.

Definition set_definition (definition_out symbol_id : Z) (s : TaskState) : res TaskState :=
  d ← index_update (definitions s) definition_out (fun _ => symbol_id);
  Ok (mkTasks (tasks s) (taken s) (loaded s) d (flags s) (undefined s) (error s)).

Definition update_flags (symbol_id : Z) (f : Z -> Z) (s : TaskState) : res TaskState :=
  fl ← index_update (flags s) symbol_id f;
  Ok (mkTasks (tasks s) (taken s) (loaded s) (definitions s) fl (undefined s) (error s)).

Definition perform (a : action) (s : TaskState) : res TaskState :=
  match a with
  | Request file_id => try_request_file_id file_id s
  | Define definition_out symbol_id => set_definition definition_out symbol_id s
  | DowngradeHidden symbol_id =>
      update_flags symbol_id (fun f => Z.lor f (Z.lor NON_INTERPOSABLE DOWNGRADE_TO_LOCAL)) s
  | Protect symbol_id =>
      update_flags symbol_id (fun f => if contains f DYNAMIC then f else Z.lor f NON_INTERPOSABLE) s
  | NonIrRef symbol_id => update_flags symbol_id (fun f => Z.lor f HAS_NON_IR_REF) s
  | PushUndefined u =>
      Ok (mkTasks (tasks s) (taken s) (loaded s) (definitions s) (flags s) (undefined s ++ [u]) (error s))
  | PushError msg =>
      Ok (mkTasks (tasks s) (taken s) (loaded s) (definitions s) (flags s) (undefined s)
            (match error s with Some e => Some e | None => Some msg end))
  end.

(** The next action of task [i], if it has one left. *)
Definition step_task (i : nat) (s : TaskState) : option (action * res TaskState) :=
  match tasks s !! i with
  | Some (a :: rest) =>
      Some (a, perform a (mkTasks (<[i := rest]> (tasks s)) (taken s) (loaded s) (definitions s) (flags s)
                            (undefined s) (error s)))
  | _ => None
  end.

(** A run: any task goes next.  The trace is the actions in the order they took place. *)
Inductive run : TaskState -> list action -> TaskState -> Prop :=
| run_nil s : run s [] s
| run_cons i a s s1 trace s' :
    step_task i s = Some (a, Ok s1) -> run s1 trace s' -> run s (a :: trace) s'.

Definition complete (s : TaskState) : Prop := concat (tasks s) = [].

(** The schedule that picks the given tasks, with its trace. *)
Fixpoint follow (picks : list nat) (s : TaskState) : option (list action * TaskState) :=
  match picks with
  | [] => Some ([], s)
  | i :: picks =>
      match step_task i s with
      | Some (a, Ok s1) => '(trace, s') ← follow picks s1; Some (a :: trace, s')
      | _ => None
      end
  end.

Lemma follow_run picks : forall s trace s', follow picks s = Some (trace, s') -> run s trace s'.
Proof.
  induction picks as [|i picks IH]; intros s trace s'; cbn; [intros [= <- <-]; constructor|].
  destruct (step_task i s) as [[a [s1| |]]|] eqn:E; [|done..].
  destruct (follow picks s1) as [[rest s2]|] eqn:Ef; cbn; [|done]. intros [= <- <-]. econstructor; [exact E|by apply IH].
Qed.
End Tasks.

Definition initial_tasks (link : LinkInput) (setups : list GroupSetup) (symbol_definitions per_symbol_flags : list Z) :
    res TaskState :=
  loaded ← for_each (push_loaded (loaded_capacity (input_groups link))) (concat (map setup_loaded setups)) [];
  tasks ← spawn link symbol_definitions (concat (map setup_work setups));
  Ok (mkTasks tasks [] loaded symbol_definitions per_symbol_flags [] None).

(** After the scope: the first error, or the loaded files and the undefined symbols. *)
Definition mark_loaded (file_id : FileId) (groups : list (list ResolvedFile)) : res (list (list ResolvedFile)) :=
  files ← index groups file_id.1;
  file ← index files file_id.2;
  Ok (<[Z.to_nat file_id.1 := <[Z.to_nat file_id.2 := Resolved (num_symbols file)]> files]> groups).

Definition gather (resolver : Resolver) (setups : list GroupSetup) (s : TaskState) : res Resolver :=
  match error s with
  | Some e => Err e
  | None =>
      groups ← for_each mark_loaded (loaded s) (map setup_files setups);
      Ok (mkResolver (undefined_symbols resolver ++ undefined s) groups)
  end.

(** [resolve_symbols_and_select_archive_entries]: the outcomes over all schedules, with the
    definitions and flags of the symbol database afterwards. *)
Definition link_setup (link : LinkInput) (resolver : Resolver) (symbol_definitions : list Z) : res (list GroupSetup) :=
  if (num_regular_objects (input_groups link) =? 0)%nat then Err "no input files"
  else setup_groups (input_groups link) (Z.of_nat (length symbol_definitions)) 0 (resolved_groups resolver)
         (drop (length (resolved_groups resolver)) (input_groups link)) 0.

Definition take_slices (setups : list GroupSetup) : list (list (option (Z * Z))) := map definitions_per_file setups.

Definition resolves (link : LinkInput) (resolver : Resolver) (symbol_definitions per_symbol_flags : list Z)
    (outcome : res Resolver * list Z * list Z) : Prop :=
  exists setups s0 trace s,
    link_setup link resolver symbol_definitions = Ok setups /\
    initial_tasks link setups symbol_definitions per_symbol_flags = Ok s0 /\
    run link (take_slices setups) symbol_definitions s0 trace s /\ complete s /\
    outcome = (gather resolver setups s, definitions s, flags s).

(** ** Undefined symbols *)

(** [sort_by_key], stable, by descending symbol id. *)
Fixpoint insert_by_id (u : UndefinedSymbol) (l : list UndefinedSymbol) : list UndefinedSymbol :=
  match l with
  | [] => [u]
  | v :: l' => if undefined_id v <=? undefined_id u then u :: l else v :: insert_by_id u l'
  end.

Definition sort_by_id (l : list UndefinedSymbol) : list UndefinedSymbol := foldr insert_by_id [] l.

(** The tables [canonicalise_undefined_symbols] changes. *)
Record CanonState := mkCanon {
  name_to_id : gmap (list Z) Z;
  versioned_name_to_id : gmap (list Z * list Z) Z;
  c_definitions : list Z;
  c_flags : list Z;
  c_buckets : list SymbolBucket;
  c_file_ids : list FileId;
  start_stop_defs : list InternalSymDefInfo
}.

Section Canonicalise.
Context (hash_bytes : list Z -> Z).
(** The tables of the database and the files after loading; the file of synthetic symbols,
    the custom sections by name, and the kind of output. *)
Context (final_tables : Tables) (groups : list (list ResolvedFile)) (syn_file_id : FileId).
Context (custom_by_identity : gmap (list Z) Z) (output_kind : OutputKind).

Definition is_static_executable (k : OutputKind) : bool :=
  match k with StaticExecutable _ => true | _ => false end.

Definition tables_now (s : CanonState) : Tables :=
  mkTables (c_file_ids s) (Symbols.groups final_tables) (resolved final_tables) (allow_multiple_definitions final_tables).

Definition set_c_definitions (d : list Z) (s : CanonState) : CanonState :=
  mkCanon (name_to_id s) (versioned_name_to_id s) d (c_flags s) (c_buckets s) (c_file_ids s) (start_stop_defs s).
Definition set_c_flags (f : list Z) (s : CanonState) : CanonState :=
  mkCanon (name_to_id s) (versioned_name_to_id s) (c_definitions s) f (c_buckets s) (c_file_ids s) (start_stop_defs s).
Definition enter_name (name : list Z) (id : Z) (s : CanonState) : CanonState :=
  mkCanon (<[name := id]> (name_to_id s)) (versioned_name_to_id s) (c_definitions s) (c_flags s) (c_buckets s)
    (c_file_ids s) (start_stop_defs s).
Definition enter_versioned (name : list Z * list Z) (id : Z) (s : CanonState) : CanonState :=
  mkCanon (name_to_id s) (<[name := id]> (versioned_name_to_id s)) (c_definitions s) (c_flags s) (c_buckets s)
    (c_file_ids s) (start_stop_defs s).

Definition replace_definition (symbol_id new_definition : Z) (s : CanonState) : res CanonState :=
  d ← index_update (c_definitions s) symbol_id (fun _ => new_definition);
  Ok (set_c_definitions d s).

Definition set_flag (symbol_id bits : Z) (s : CanonState) : res CanonState :=
  f ← index_update (c_flags s) symbol_id (fun f => Z.lor f bits);
  Ok (set_c_flags f s).

Definition apply_visibility_to_definition (definition_id : Z) (v : Visibility) (s : CanonState) : res CanonState :=
  match v with
  | Hidden => set_flag definition_id (Z.lor NON_INTERPOSABLE DOWNGRADE_TO_LOCAL) s
  | Protected =>
      f ← index (c_flags s) definition_id;
      if contains f DYNAMIC then Ok s else set_flag definition_id NON_INTERPOSABLE s
  | Default => Ok s
  end.

(** A reference with another visibility than the default restricts the definition of its
    name, if there is one. *)
Definition restrict_definition (name : list Z) (v : Visibility) (s : CanonState) : res CanonState :=
  match v with
  | Default => Ok s
  | _ =>
      def_id ← get_unversioned hash_bytes (c_buckets s) name;
      match def_id with
      | Some def_id =>
          def_id ← definition (c_definitions s) def_id;
          apply_visibility_to_definition def_id v s
      | None => Ok s
      end
  end.

Definition add_synthetic_symbol (name : list Z) (s : CanonState) : res (Z * CanonState) :=
  let symbol_id := Z.of_nat (length (c_definitions s)) in
  buckets ← index_update (c_buckets s) (bucket_index (c_buckets s) (hash_bytes name)) (add_symbol (symbol_id, name));
  Ok (symbol_id,
      mkCanon (name_to_id s) (versioned_name_to_id s) (c_definitions s ++ [symbol_id])
        (c_flags s ++ [NON_INTERPOSABLE]) buckets (c_file_ids s ++ [syn_file_id]) (start_stop_defs s)).

Fixpoint strip_prefix (prefix l : list Z) : option (list Z) :=
  match prefix, l with
  | [], _ => Some l
  | p :: prefix, x :: l => if p =? x then strip_prefix prefix l else None
  | _ :: _, [] => None
  end.

(** ["__start_"] and ["__stop_"]. *)
Definition start_prefix : list Z := [95; 95; 115; 116; 97; 114; 116; 95].
Definition stop_prefix : list Z := [95; 95; 115; 116; 111; 112; 95].

Definition start_stop_name (name : list Z) : option (list Z * bool) :=
  match strip_prefix start_prefix name with
  | Some s => Some (s, true)
  | None => (fun s => (s, false)) <$> strip_prefix stop_prefix name
  end.

Definition allocate_start_stop_symbol_id (name : list Z) (s : CanonState) : res (option Z * CanonState) :=
  match start_stop_name name with
  | None => Ok (None, s)
  | Some (section_name, is_start) =>
      match custom_by_identity !! section_name with
      | None => Ok (None, s)
      | Some section_id =>
          let def_info := mkSymDef (if is_start then SectionStartPlacement section_id
                                    else SectionEndPlacement section_id) name in
          '(symbol_id, s) ← add_synthetic_symbol name s;
          Ok (Some symbol_id,
              mkCanon (name_to_id s) (versioned_name_to_id s) (c_definitions s) (c_flags s) (c_buckets s)
                (c_file_ids s) (start_stop_defs s ++ [def_info]))
      end
  end.

(** A symbol that stays undefined is made dynamic, or null for good. *)
Definition flag_undefined (name : list Z) (symbol_id : Z) (s : CanonState) : res CanonState :=
  visibility ← input_symbol_visibility (tables_now s) symbol_id;
  dynamic ←
    (if bool_decide (visibility = Default) then
       if is_shared_object output_kind then Ok true
       else if is_static_executable output_kind then Ok false
       else strength ← symbol_strength (tables_now s) symbol_id;
            Ok (match strength with Weak => true | _ => false end)
     else Ok false);
  s ← set_flag symbol_id (if dynamic : bool then DYNAMIC else NON_INTERPOSABLE) s;
  restrict_definition name visibility s.

Definition canonicalise_unversioned (name : list Z) (symbol_id : Z) (s : CanonState) : res CanonState :=
  match name_to_id s !! name with
  | None =>
      '(synthetic, s) ← allocate_start_stop_symbol_id name s;
      s ← (match synthetic with None => flag_undefined name symbol_id s | Some _ => Ok s end);
      let canonical_id := default symbol_id synthetic in
      replace_definition symbol_id canonical_id (enter_name name canonical_id s)
  | Some entry =>
      definition_id ← definition (c_definitions s) entry;
      s ← replace_definition symbol_id definition_id s;
      visibility ← input_symbol_visibility (tables_now s) symbol_id;
      restrict_definition name visibility s
  end.

Definition canonicalise_versioned (name : list Z * list Z) (symbol_id : Z) (s : CanonState) : res CanonState :=
  match versioned_name_to_id s !! name with
  | None => Ok (enter_versioned name symbol_id s)
  | Some entry => replace_definition symbol_id entry s
  end.

(** The file that defines the symbol was loaded after all. *)
Definition defined_after_all (u : UndefinedSymbol) : res bool :=
  match ignore_if_loaded u with
  | None => Ok false
  | Some file_id =>
      file ← index_file groups file_id;
      Ok (match file with NotLoaded _ => false | Resolved _ => true end)
  end.

Definition canonicalise_one (u : UndefinedSymbol) (s : CanonState) : res CanonState :=
  is_defined ← defined_after_all u;
  if is_defined : bool then Ok s
  else match undefined_name u with
       | Unversioned name => canonicalise_unversioned name (undefined_id u) s
       | Versioned name => canonicalise_versioned name (undefined_id u) s
       end.

Definition canonicalise_undefined_symbols (undefined_symbols : list UndefinedSymbol) (s : CanonState) : res CanonState :=
  for_each canonicalise_one (sort_by_id undefined_symbols) s.
End Canonicalise.

(** ** What a step does *)
Section Runs.
Context (link : LinkInput) (slices : list (list (option (Z * Z)))) (defs0 : list Z).

Definition slice_of (f : FileId) : option (Z * Z) :=
  match index slices f.1 with
  | Ok group => match index group f.2 with Ok slice => slice | _ => None end
  | _ => None
  end.

(** The file can be taken. *)
Definition available (f : FileId) : Prop := is_Some (slice_of f).

Definition file_tasks (f : FileId) : res (bool * list (list action)) :=
  match slice_of f with
  | Some slice =>
      '(is_object, items) ← work_items_do (input_groups link) f slice;
      new_tasks ← spawn link defs0 items;
      Ok (is_object, new_tasks)
  | None => Ok (false, [])
  end.

Definition file_actions (f : FileId) : list action :=
  match file_tasks f with Ok (_, ts) => concat ts | _ => [] end.

Definition pushed (f : FileId) : list FileId :=
  match file_tasks f with Ok (true, _) => [f] | _ => [] end.

(** The effect of an action on the definitions and flags, on what is undefined, and on the
    error. *)
Definition flag_store (a : action) : option (Z * (Z -> Z)) :=
  match a with
  | DowngradeHidden id => Some (id, fun f => Z.lor f (Z.lor NON_INTERPOSABLE DOWNGRADE_TO_LOCAL))
  | Protect id => Some (id, fun f => if contains f DYNAMIC then f else Z.lor f NON_INTERPOSABLE)
  | NonIrRef id => Some (id, fun f => Z.lor f HAS_NON_IR_REF)
  | _ => None
  end.

Definition effect (a : action) (d : list Z * list Z) : list Z * list Z :=
  match a with
  | Define i v => (<[Z.to_nat i := v]> d.1, d.2)
  | _ => match flag_store a with
         | Some (i, f) => (d.1, alter (A := Z) f (Z.to_nat i) d.2)
         | None => d
         end
  end.

Definition pushes (a : action) : list UndefinedSymbol :=
  match a with PushUndefined u => [u] | _ => [] end.

Definition failure (a : action) : option string :=
  match a with PushError e => Some e | _ => None end.

Definition first_error (old : option string) (new : option string) : option string :=
  match old with Some e => Some e | None => new end.

Lemma index_update_alter l i f l' : index_update (A := Z) l i f = Ok l' -> l' = alter (A := Z) f (Z.to_nat i) l.
Proof.
  unfold index_update. destruct (index l i) as [x| |] eqn:E; cbn; [|done..].
  apply index_ok in E as [_ E]. intros [= <-]. apply list_eq. intros j. rewrite list_lookup_alter.
  case_decide as Hj.
  - subst. rewrite E. apply list_lookup_insert_eq. by eapply lookup_lt_Some.
  - by rewrite list_lookup_insert_ne.
Qed.

(** What performing [a] changes; [new] is the file it takes, if any. *)
Record performed (a : action) (s s1 : TaskState) (new : list FileId) : Prop := {
  pf_tasks : concat (tasks s1) = concat (tasks s) ++ concat (map file_actions new);
  pf_taken : taken s1 = taken s ++ new;
  pf_loaded : loaded s1 = loaded s ++ concat (map pushed new);
  pf_data : (definitions s1, flags s1) = effect a (definitions s, flags s);
  pf_undefined : undefined s1 = undefined s ++ pushes a;
  pf_error : error s1 = first_error (error s) (failure a);
  pf_spawned f : f ∈ new -> is_Ok (file_tasks f);
  pf_new : (new = [] /\ forall f, a = Request f -> available f -> f ∈ taken s) \/
           (exists f, a = Request f /\ available f /\ (f ∉ taken s) /\ new = [f])
}.

Lemma push_loaded_ok capacity (f : FileId) l l' :
  push_loaded capacity f l = Ok l' <-> l' = l ++ [f] /\ (length l < capacity)%nat.
Proof.
  unfold push_loaded. destruct (Nat.ltb_spec (length l) capacity); split; try done.
  - by intros [= <-].
  - by intros [-> _].
  - intros [_ ?]. lia.
Qed.

Lemma perform_request f s s1 :
  try_request_file_id link slices defs0 f s = Ok s1 -> exists new, performed (Request f) s s1 new.
Proof.
  unfold try_request_file_id. destruct (index slices f.1) as [group| |] eqn:Eg; cbn; [|done..].
  assert (slice_of f = match index group f.2 with Ok slice => slice | _ => None end) as Hslice
    by (unfold slice_of; by rewrite Eg).
  assert (forall o, slice_of f = o -> o = None -> s1 = s -> exists new, performed (Request f) s s1 new) as Hskip.
  { intros o Ho -> ->. exists []. split; rewrite ?app_nil_r; try done; [by destruct (error s)|by intros g ?%elem_of_nil|].
    left. split; [done|]. intros g [= <-] [x Hx]. congruence. }
  destruct (index group f.2) as [[slice|]| |] eqn:Ef; [|by intros [= <-]; eapply Hskip..].
  case_bool_decide as Ht.
  { intros [= <-]. exists []. split; rewrite ?app_nil_r; try done; [by destruct (error s)|by intros g ?%elem_of_nil|].
    left. split; [done|]. by intros g [= <-] _. }
  destruct (work_items_do _ f slice) as [[is_object items]| |] eqn:Ew; cbn; [|done..].
  match goal with |- context [mbind _ ?m] => destruct m as [l| |] eqn:El end; cbn; [|done..].
  assert (l = loaded s ++ (if is_object then [f] else [])) as ->
    by (destruct is_object; [by apply push_loaded_ok in El as [-> _]|injection El as <-; by rewrite app_nil_r]).
  destruct (spawn link defs0 items) as [ts| |] eqn:Es; cbn; [|done..]. intros [= <-]. exists [f].
  assert (file_tasks f = Ok (is_object, ts)) as Hts
    by (unfold file_tasks; rewrite Hslice, Ew; cbn; by rewrite Es).
  split; cbn; rewrite ?app_nil_r; try done.
  - unfold file_actions. rewrite Hts. by rewrite concat_app.
  - unfold pushed. rewrite Hts. by destruct is_object.
  - by destruct (error s).
  - intros g ->%list_elem_of_singleton. by eexists.
  - right. exists f. split_and!; try done. unfold available. rewrite Hslice. by eexists.
Qed.

Lemma perform_performed a s s1 : perform link slices defs0 a s = Ok s1 -> exists new, performed a s s1 new.
Proof.
  destruct a as [f|i v|i|i|i|u|e]; cbn; [apply perform_request|..];
    try (unfold set_definition, update_flags; destruct (index_update _ _ _) as [l| |] eqn:E; cbn; [|done..];
         apply index_update_alter in E as ->);
    intros [= <-]; exists []; split; cbn; rewrite ?app_nil_r; try done; try (by destruct (error s)); try (by left);
    try (by intros g ?%elem_of_nil).
  f_equal. apply list_eq. intros j. rewrite list_lookup_alter. case_decide.
  - subst. destruct (definitions s !! Z.to_nat i) eqn:El; cbn.
    + symmetry. apply list_lookup_insert_eq. by eapply lookup_lt_Some.
    + symmetry. apply lookup_ge_None. rewrite length_insert. by apply lookup_ge_None.
  - by rewrite list_lookup_insert_ne.
Qed.

Lemma concat_pick {A} (ts : list (list A)) i a rest :
  ts !! i = Some (a :: rest) -> concat ts ≡ₚ a :: concat (<[i := rest]> ts).
Proof.
  revert i. induction ts as [|t ts IH]; intros [|i]; cbn; try done.
  - intros [= ->]. done.
  - intros H. rewrite (IH i H). symmetry. apply Permutation_middle.
Qed.

(** A step: the action leaves the tasks, and the actions of the file it takes join them. *)
Lemma step_performed i a s s1 :
  step_task link slices defs0 i s = Some (a, Ok s1) ->
  exists s_ new, concat (tasks s) ≡ₚ a :: concat (tasks s_) /\ performed a s_ s1 new /\
    taken s_ = taken s /\ loaded s_ = loaded s /\ definitions s_ = definitions s /\ flags s_ = flags s /\
    undefined s_ = undefined s /\ error s_ = error s.
Proof.
  unfold step_task. destruct (tasks s !! i) as [[|b rest]|] eqn:E; [done| |done]. intros [= <- Hp].
  apply perform_performed in Hp as [new Hp]. eexists _, new. split_and!; [|exact Hp|done..]. cbn.
  by apply concat_pick.
Qed.

(** *** Whole runs *)
Record ran (s : TaskState) (trace : list action) (s' : TaskState) (new : list FileId) : Prop := {
  rn_actions : trace ++ concat (tasks s') ≡ₚ concat (tasks s) ++ concat (map file_actions new);
  rn_taken : taken s' = taken s ++ new;
  rn_loaded : loaded s' = loaded s ++ concat (map pushed new);
  rn_data : (definitions s', flags s') = foldl (fun d a => effect a d) (definitions s, flags s) trace;
  rn_undefined : undefined s' = undefined s ++ concat (map pushes trace);
  rn_error : error s' = foldl first_error (error s) (map failure trace);
  rn_requests f : Request f ∈ trace -> available f -> f ∈ taken s';
  rn_available f : f ∈ new -> available f;
  rn_spawned f : f ∈ new -> is_Ok (file_tasks f);
  rn_new : NoDup (taken s) -> NoDup (taken s')
}.

Lemma run_ran s trace s' : run link slices defs0 s trace s' -> exists new, ran s trace s' new.
Proof.
  induction 1 as [s|i a s s1 trace s' Hstep _ [new Hr]].
  { exists []. split; cbn; rewrite ?app_nil_r; try done; by intros f ?%elem_of_nil. }
  apply step_performed in Hstep as (s_ & new1 & Hpick & Hp & Et & El & Ed & Ef & Eu & Ee).
  exists (new1 ++ new). split; rewrite ?map_app, ?concat_app.
  - rewrite Hpick. cbn. apply Permutation_skip. rewrite (rn_actions _ _ _ _ Hr), (pf_tasks _ _ _ _ Hp).
    by rewrite <- app_assoc.
  - rewrite (rn_taken _ _ _ _ Hr), (pf_taken _ _ _ _ Hp), Et. by rewrite app_assoc.
  - rewrite (rn_loaded _ _ _ _ Hr), (pf_loaded _ _ _ _ Hp), El. by rewrite app_assoc.
  - rewrite (rn_data _ _ _ _ Hr), (pf_data _ _ _ _ Hp), Ed, Ef. done.
  - rewrite (rn_undefined _ _ _ _ Hr), (pf_undefined _ _ _ _ Hp), Eu. cbn. by rewrite app_assoc.
  - rewrite (rn_error _ _ _ _ Hr), (pf_error _ _ _ _ Hp), Ee. done.
  - intros f [<-|Hf]%elem_of_cons Ha; [|by apply (rn_requests _ _ _ _ Hr)].
    rewrite (rn_taken _ _ _ _ Hr), (pf_taken _ _ _ _ Hp), Et, !elem_of_app.
    destruct (pf_new _ _ _ _ Hp) as [[_ H]|(g & [= <-] & _ & _ & ->)].
    + left. left. rewrite <- Et. by apply H.
    + left. right. by apply list_elem_of_singleton.
  - intros f [Hf|Hf]%elem_of_app; [|by apply (rn_available _ _ _ _ Hr)].
    destruct (pf_new _ _ _ _ Hp) as [[-> _]|(g & _ & Hg & _ & ->)]; [by apply elem_of_nil in Hf|].
    by apply list_elem_of_singleton in Hf as ->.
  - intros f [Hf|Hf]%elem_of_app; [by apply (pf_spawned _ _ _ _ Hp)|by apply (rn_spawned _ _ _ _ Hr)].
  - intros Hnd. apply (rn_new _ _ _ _ Hr). rewrite (pf_taken _ _ _ _ Hp), Et.
    destruct (pf_new _ _ _ _ Hp) as [[-> _]|(g & _ & _ & Hg & ->)]; [by rewrite app_nil_r|].
    rewrite Et in Hg. apply NoDup_app. split_and!; [done| |apply NoDup_singleton].
    intros f Hf ->%list_elem_of_singleton. done.
Qed.

(** *** The files a link needs *)

(** Requested by the files that are linked anyway, or by a file that is needed. *)
Inductive needed (start : list action) : FileId -> Prop :=
| needed_start f : Request f ∈ start -> available f -> needed start f
| needed_next g f : needed start g -> Request f ∈ file_actions g -> available f -> needed start f.

Definition sound (start : list action) (s : TaskState) : Prop :=
  (forall f, f ∈ taken s -> needed start f) /\
  (forall f, Request f ∈ concat (tasks s) -> available f -> needed start f).

Lemma run_sound start s trace s' : run link slices defs0 s trace s' -> sound start s -> sound start s'.
Proof.
  induction 1 as [s|i a s s1 trace s' Hstep _ IH]; [done|]. intros [Ht Hr]. apply IH.
  apply step_performed in Hstep as (s_ & new & Hpick & Hp & Et & _).
  assert (forall f, f ∈ new -> needed start f) as Hnew.
  { intros f Hf. destruct (pf_new _ _ _ _ Hp) as [[-> _]|(g & -> & Hg & _ & ->)]; [by apply elem_of_nil in Hf|].
    apply list_elem_of_singleton in Hf as ->. apply Hr; [|done]. rewrite Hpick. by left. }
  split.
  - intros f. rewrite (pf_taken _ _ _ _ Hp), Et, elem_of_app. intros [Hf|Hf]; [by apply Ht|by apply Hnew].
  - intros f Hf Ha. rewrite (pf_tasks _ _ _ _ Hp) in Hf. apply elem_of_app in Hf as [Hf|Hf].
    + apply Hr; [|done]. rewrite Hpick. by right.
    + apply elem_of_concat_map in Hf as (g & Hg & Hf). eapply needed_next; [by apply Hnew|done|done].
Qed.

Lemma complete_needed s trace s' :
  run link slices defs0 s trace s' -> taken s = [] -> complete s' ->
  NoDup (taken s') /\ (forall f, f ∈ taken s' <-> needed (concat (tasks s)) f) /\
  trace ≡ₚ concat (tasks s) ++ concat (map file_actions (taken s')).
Proof.
  intros Hrun Ht Hc. pose proof (run_ran _ _ _ Hrun) as [new Hr].
  assert (trace ≡ₚ concat (tasks s) ++ concat (map file_actions (taken s'))) as Htr.
  { rewrite (rn_taken _ _ _ _ Hr), Ht. cbn. rewrite <- (rn_actions _ _ _ _ Hr), Hc. by rewrite app_nil_r. }
  split_and!; [| |done].
  - apply (rn_new _ _ _ _ Hr). rewrite Ht. constructor.
  - intros f. split.
    + apply (run_sound (concat (tasks s)) _ _ _ Hrun). split; [by rewrite Ht; intros ? ?%elem_of_nil|].
      intros g. by constructor.
    + induction 1 as [f Hf Ha|g f _ IH Hf Ha]; apply (rn_requests _ _ _ _ Hr); try done; rewrite Htr, elem_of_app.
      * by left.
      * right. apply elem_of_concat_map. by exists g.
Qed.

(** *** Schedules end *)
Definition all_slots : list FileId :=
  concat (map (fun g => match index slices g with
                        | Ok group => map (pair g) (seqZ 0 (Z.of_nat (length group)))
                        | _ => []
                        end) (seqZ 0 (Z.of_nat (length slices)))).

Lemma index_in_seqZ {A} (l : list A) i x : index l i = Ok x -> i ∈ seqZ 0 (Z.of_nat (length l)).
Proof. intros [Hi Hl%lookup_lt_Some]%index_ok. apply elem_of_seqZ. lia. Qed.

Lemma available_slot f : available f -> f ∈ all_slots.
Proof.
  unfold available, slice_of. destruct f as [g i]. cbn.
  destruct (index slices g) as [group| |] eqn:Eg; [|by intros [? ?]..].
  destruct (index group i) as [slice| |] eqn:Ei; [|by intros [? ?]..]. intros _.
  apply elem_of_concat_map. exists g. split; [by eapply index_in_seqZ|]. rewrite Eg.
  apply list_elem_of_fmap. exists i. split; [done|by eapply index_in_seqZ].
Qed.

Lemma concat_map_perm {A B} (f : A -> list B) l k : l ≡ₚ k -> concat (map f l) ≡ₚ concat (map f k).
Proof.
  induction 1 as [|x l k _ IH|x y l|l k m _ IH1 _ IH2]; cbn; [done| | |by rewrite IH1].
  - by rewrite IH.
  - rewrite !app_assoc. by rewrite (Permutation_app_comm (f y)).
Qed.

(** What a run can do at most: the initial actions, and those of every file once. *)
Definition run_bound (start : list action) : nat :=
  (length start + length (concat (map file_actions all_slots)))%nat.

Lemma run_bounded s trace s' :
  run link slices defs0 s trace s' -> taken s = [] -> (length trace <= run_bound (concat (tasks s)))%nat.
Proof.
  intros Hrun Ht. pose proof (run_ran _ _ _ Hrun) as [new Hr].
  assert (NoDup new) as Hnd.
  { replace new with (taken s') by (rewrite (rn_taken _ _ _ _ Hr), Ht; done).
    apply (rn_new _ _ _ _ Hr). rewrite Ht. constructor. }
  assert (new ⊆+ all_slots) as [rest Hrest]%submseteq_Permutation.
  { apply NoDup_submseteq; [done|]. intros f Hf. apply available_slot. by apply (rn_available _ _ _ _ Hr). }
  apply (concat_map_perm file_actions) in Hrest. rewrite map_app, concat_app in Hrest.
  apply Permutation_length in Hrest. rewrite length_app in Hrest.
  pose proof (Permutation_length (rn_actions _ _ _ _ Hr)) as Hl. rewrite !length_app in Hl.
  unfold run_bound. lia.
Qed.

(** *** No step panics *)

(** An object of the input. *)
Definition is_object (f : FileId) : Prop :=
  exists objects obj, index (input_groups link) f.1 = Ok (ObjectFiles objects) /\ index objects f.2 = Ok obj.

(** The queue holds objects, each once, and none that could still be taken. *)
Definition queue_ok (s : TaskState) : Prop :=
  NoDup (loaded s) /\ Forall is_object (loaded s) /\ forall f, f ∈ loaded s -> available f -> f ∈ taken s.

Definition all_objects : list FileId :=
  concat (map (fun g => match index (input_groups link) g with
                        | Ok (ObjectFiles objects) => map (pair g) (seqZ 0 (Z.of_nat (length objects)))
                        | _ => []
                        end) (seqZ 0 (Z.of_nat (length (input_groups link))))).

Lemma is_object_listed f : is_object f -> f ∈ all_objects.
Proof.
  destruct f as [g i]. intros (objects & obj & Hg & Ho). cbn in Hg, Ho. apply elem_of_concat_map. exists g.
  split; [by eapply index_in_seqZ|]. rewrite Hg. apply list_elem_of_fmap. exists i. split; [done|by eapply index_in_seqZ].
Qed.

Lemma all_objects_counted : length all_objects = num_regular_objects (input_groups link).
Proof.
  set (count := fun m : res InputGroup => match m with Ok (ObjectFiles objects) => length objects | _ => 0%nat end).
  change (length all_objects = sum_list_with (fun g => count (Ok g)) (input_groups link)). unfold all_objects.
  enough (forall (l pre : list InputGroup), sum_list_with (fun g => count (index (pre ++ l) g))
            (seqZ (Z.of_nat (length pre)) (Z.of_nat (length l))) = sum_list_with (fun g => count (Ok g)) l) as H.
  { rewrite <- (H (input_groups link) []). cbn [app length Z.of_nat]. subst count. clear.
    induction (seqZ _ _) as [|g gs IH]; [done|]. cbn [map sum_list_with concat]. rewrite length_app. f_equal; [|exact IH].
    destruct (index _ g) as [[]| |]; try done. by rewrite length_map, length_seqZ, Nat2Z.id. }
  clear. induction l as [|x l IH]; intros pre; [done|]. cbn [length]. rewrite seqZ_cons by lia. cbn [sum_list_with].
  assert (index (pre ++ x :: l) (Z.of_nat (length pre)) = Ok x) as ->.
  { unfold index. rewrite decide_True by lia. by rewrite Nat2Z.id, lookup_app_r, Nat.sub_diag by lia. }
  f_equal. specialize (IH (pre ++ [x])). rewrite <- app_assoc, length_app in IH. cbn [app length] in IH.
  etransitivity; [|exact IH]. do 2 f_equal; lia.
Qed.

Lemma objects_fit l : NoDup l -> Forall is_object l -> (length l <= num_regular_objects (input_groups link))%nat.
Proof.
  intros Hn Hl. rewrite <- all_objects_counted. apply submseteq_length, NoDup_submseteq; [done|].
  intros f Hf. apply is_object_listed. by eapply Forall_forall in Hl.
Qed.

(** So there is room for one more. *)
Lemma queue_room s f : queue_ok s -> is_object f -> available f -> (f ∉ taken s) ->
  NoDup (loaded s ++ [f]) /\ is_Ok (push_loaded (loaded_capacity (input_groups link)) f (loaded s)).
Proof.
  intros (Hn & Ho & Ht) Hf Ha Hnt.
  assert (NoDup (loaded s ++ [f])) as Hn'.
  { apply NoDup_app. split_and!; [done| |apply NoDup_singleton]. intros g Hg ->%list_elem_of_singleton. by apply Hnt, Ht. }
  split; [done|]. apply objects_fit in Hn'; [|apply Forall_app; by repeat constructor]. rewrite length_app in Hn'. cbn in Hn'.
  eexists. apply push_loaded_ok. split; [done|]. unfold loaded_capacity. lia.
Qed.

Lemma taken_object f slice items :
  work_items_do (input_groups link) f slice = Ok (true, items) -> is_object f.
Proof.
  unfold work_items_do. destruct (index _ f.1) as [group| |] eqn:Eg; cbn; [|done..]. destruct slice as [o l].
  destruct group as [|objects| | |]; try done. destruct (index objects f.2) as [obj| |] eqn:Eo; cbn; [|done..].
  intros _. by exists objects, obj.
Qed.

Lemma pushed_spec f g : f ∈ pushed g -> f = g /\ is_object f /\ pushed g = [f].
Proof.
  unfold pushed. destruct (file_tasks g) as [[[|] ts]| |] eqn:E; try (by intros ?%elem_of_nil).
  intros ->%list_elem_of_singleton. split_and!; [done| |done]. unfold file_tasks in E.
  destruct (slice_of g) as [slice|]; [|done]. destruct (work_items_do _ g slice) as [[o items]| |] eqn:Ew; cbn in E; [|done..].
  destruct (spawn _ _ _); cbn in E; [|done..]. injection E as -> _. by eapply taken_object.
Qed.

Lemma performed_queue a s s1 new : performed a s s1 new -> queue_ok s -> queue_ok s1.
Proof.
  intros Hp Hq. pose proof Hq as (Hn & Ho & Ht). unfold queue_ok. rewrite (pf_loaded _ _ _ _ Hp), (pf_taken _ _ _ _ Hp).
  destruct (pf_new _ _ _ _ Hp) as [[-> _]|(f & _ & Ha & Hf & ->)]; cbn; rewrite !app_nil_r; [done|].
  destruct (pushed f) as [|g [|]] eqn:E.
  - rewrite app_nil_r. split_and!; [done..|]. intros g Hg Hg'. apply elem_of_app. left. by apply Ht.
  - destruct (pushed_spec g f) as (-> & Hobj & _); [rewrite E; by left|]. split_and!.
    + by apply (queue_room s f).
    + apply Forall_app. by repeat constructor.
    + intros g Hg Hg'. apply elem_of_app. apply elem_of_app in Hg as [Hg|Hg]; [left; by apply Ht|by right].
  - destruct (pushed_spec g f) as (_ & _ & E'); [rewrite E; by left|]. by rewrite E in E'.
Qed.
Definition safe_action (nd nf : nat) (a : action) : bool :=
  match a with
  | Request f => match index slices f.1 with
                 | Ok _ => match file_tasks f with Ok _ => true | _ => false end
                 | _ => false
                 end
  | Define i _ => (0 <=? i) && (i <? Z.of_nat nd)
  | DowngradeHidden i | Protect i | NonIrRef i => (0 <=? i) && (i <? Z.of_nat nf)
  | PushUndefined _ | PushError _ => true
  end.

Definition safe_actions (nd nf : nat) (l : list action) : Prop := Forall (fun a => safe_action nd nf a = true) l.

Lemma index_update_safe (l : list Z) i (f : Z -> Z) :
  (0 <=? i) && (i <? Z.of_nat (length l)) = true -> is_Ok (index_update l i f).
Proof.
  rewrite andb_true_iff, Z.leb_le, Z.ltb_lt. intros [H0 H1]. unfold index_update, index. case_decide; [|lia].
  destruct (lookup_lt_is_Some_2 l (Z.to_nat i) ltac:(lia)) as [x ->]. cbn. by eexists.
Qed.

Lemma safe_perform a s :
  safe_action (length (definitions s)) (length (flags s)) a = true -> queue_ok s -> is_Ok (perform link slices defs0 a s).
Proof.
  destruct a as [f|i v|i|i|i|u|e]; cbn; intros Hs Hq; try (by eexists);
    try (unfold set_definition, update_flags;
         match goal with |- context [index_update ?l ?i ?g] => destruct (index_update_safe l i g Hs) as [l' ->] end;
         cbn; by eexists).
  unfold try_request_file_id. pose proof (queue_room s f Hq) as Hroom. unfold available in Hroom.
  unfold file_tasks in Hs. unfold slice_of in Hs, Hroom.
  destruct (index slices f.1) as [group| |]; cbn; [|done..].
  destruct (index group f.2) as [[slice|]| |]; [|by eexists..]. case_bool_decide; [by eexists|].
  destruct (work_items_do _ f slice) as [[o items]| |] eqn:Ew; cbn in *; [|done..].
  match goal with |- context [mbind _ ?m] => assert (is_Ok m) as [l ->] end.
  { destruct o; [|by eexists]. apply Hroom; [by eapply taken_object|by eexists|done]. }
  cbn. destruct (spawn link defs0 items) as [ts| |]; cbn in *; [by eexists|done..].
Qed.

Definition progresses (nd nf : nat) (s : TaskState) : Prop :=
  length (definitions s) = nd /\ length (flags s) = nf /\ safe_actions nd nf (concat (tasks s)) /\ queue_ok s.

Lemma effect_lengths a d : length (effect a d).1 = length d.1 /\ length (effect a d).2 = length d.2.
Proof. destruct a; cbn; by rewrite ?length_insert, ?length_alter. Qed.

Lemma step_progresses nd nf i a s s1 :
  Forall (fun f => safe_actions nd nf (file_actions f)) all_slots ->
  step_task link slices defs0 i s = Some (a, Ok s1) -> progresses nd nf s -> progresses nd nf s1.
Proof.
  intros Hfiles (s_ & new & Hpick & Hp & Et & El & Ed & Ef & _)%step_performed (Hd & Hf & Hs & Hq).
  pose proof (pf_data _ _ _ _ Hp) as Hdata. rewrite Ed, Ef in Hdata.
  destruct (effect_lengths a (definitions s, flags s)) as [H1 H2]. rewrite <- Hdata in H1, H2. cbn in H1, H2.
  split_and!; [congruence..| |].
  2:{ apply (performed_queue _ _ _ _ Hp). unfold queue_ok. by rewrite Et, El. }
  unfold safe_actions in *. rewrite Hpick in Hs. apply Forall_cons in Hs as [_ Hs].
  rewrite (pf_tasks _ _ _ _ Hp). apply Forall_app. split; [done|].
  destruct (pf_new _ _ _ _ Hp) as [[-> _]|(f & _ & Ha & _ & ->)]; [constructor|]. cbn. rewrite app_nil_r.
  rewrite Forall_forall in Hfiles. apply Hfiles. by apply available_slot.
Qed.

Lemma run_progresses nd nf s trace s' :
  Forall (fun f => safe_actions nd nf (file_actions f)) all_slots ->
  run link slices defs0 s trace s' -> progresses nd nf s -> progresses nd nf s'.
Proof. intros Hfiles. induction 1 as [|i a s s1 trace s' Hstep _ IH]; [done|]. intros Hp. apply IH. by eapply step_progresses. Qed.

Lemma progress nd nf s :
  progresses nd nf s -> complete s \/ exists i a s1, step_task link slices defs0 i s = Some (a, Ok s1).
Proof.
  intros (Hd & Hf & Hs & Hq). unfold complete. destruct (concat (tasks s)) as [|a0 l0] eqn:Ec; [by left|right].
  assert (exists i a rest, tasks s !! i = Some (a :: rest)) as (i & a & rest & Hi).
  { assert (a0 ∈ concat (tasks s)) as Ha by (rewrite Ec; left).
    rewrite <- (map_id (tasks s)) in Ha. apply elem_of_concat_map in Ha as (t & Ht & Ha).
    apply list_elem_of_lookup in Ht as [i Hi]. destruct t as [|a rest]; [by apply elem_of_nil in Ha|]. by exists i, a, rest. }
  rewrite <- Ec in Hs. unfold safe_actions in Hs. rewrite (concat_pick _ _ _ _ Hi) in Hs. apply Forall_cons in Hs as [Ha _].
  exists i, a. unfold step_task. rewrite Hi.
  match goal with |- context [perform _ _ _ a ?s_] => destruct (safe_perform a s_) as [s1 Hs1] end;
    [cbn; by rewrite Hd, Hf|exact Hq|]. exists s1. by rewrite Hs1.
Qed.

(** *** The order of actions *)
Lemma flag_bits_keep_dynamic f b : Z.land b DYNAMIC = 0 -> contains (Z.lor f b) DYNAMIC = contains f DYNAMIC.
Proof. intros Hb. unfold contains. by rewrite Z.land_lor_distr_l, Hb, Z.lor_0_r. Qed.

Lemma flag_stores_commute a b i j f g :
  flag_store a = Some (i, f) -> flag_store b = Some (j, g) -> forall x, f (g x) = g (f x).
Proof.
  intros Ha Hb x. destruct a; try done; injection Ha as <- <-; destruct b; try done; injection Hb as <- <-;
    rewrite ?flag_bits_keep_dynamic by done; try destruct (contains x DYNAMIC); try done;
    rewrite ?flag_bits_keep_dynamic by done; try destruct (contains x DYNAMIC); try done;
    apply Z.bits_inj'; intros k _; rewrite !Z.lor_spec;
    by destruct (Z.testbit x k), (Z.testbit NON_INTERPOSABLE k), (Z.testbit DOWNGRADE_TO_LOCAL k), (Z.testbit HAS_NON_IR_REF k).
Qed.

Definition cells (a : action) : list Z := match a with Define i _ => [i] | _ => [] end.

Lemma effects_commute a b d :
  (forall i v j w, a = Define i v -> b = Define j w -> Z.to_nat i <> Z.to_nat j) ->
  effect a (effect b d) = effect b (effect a d).
Proof.
  intros Hne. assert (forall a i v, flag_store a <> None -> a <> Define i v) as Hfd by (by intros []).
  assert (forall c, (exists i v, c = Define i v) \/ (exists i f, flag_store c = Some (i, f) /\ effect c = fun d => (d.1, alter (A := Z) f (Z.to_nat i) d.2))
                    \/ effect c = fun d => d) as Hcase.
  { intros []; cbn; eauto 10. }
  destruct d as [df fl].
  destruct (Hcase a) as [(i & v & ->)|[(i & f & Ef & ->)| ->]]; [| |done];
    destruct (Hcase b) as [(j & w & ->)|[(j & g & Eg & ->)| ->]]; try done; cbn.
  - f_equal. apply list_insert_insert_ne. by eapply Hne.
  - f_equal. destruct (decide (Z.to_nat i = Z.to_nat j)) as [->|Hij].
    + rewrite !list_alter_alter_eq. apply list_alter_ext; [|done]. intros x _. cbn. by eapply flag_stores_commute.
    + by apply list_alter_alter_ne.
Qed.
End Runs.

(** ** Every task writes its own part of the definitions *)

(** Distinct numbers in a range. *)
Definition owned (l : list Z) (lo hi : Z) : Prop := NoDup l /\ Forall (fun i => lo <= i < hi) l.

Lemma owned_nil lo hi : owned [] lo hi.
Proof. split; constructor. Qed.

Lemma owned_one i : owned [i] i (i + 1).
Proof. split; [apply NoDup_singleton|]. constructor; [lia|constructor]. Qed.

Lemma owned_weaken l a b c d : owned l b c -> a <= b -> c <= d -> owned l a d.
Proof. intros [Hn Hl] Hab Hcd. split; [done|]. eapply Forall_impl; [exact Hl|]. cbn. lia. Qed.

Lemma owned_app l k a b c : owned l a b -> owned k b c -> a <= b -> b <= c -> owned (l ++ k) a c.
Proof.
  intros [Hn Hl] [Hm Hk] Hab Hbc. split.
  - apply NoDup_app. split_and!; try done. intros i Hi Hj. rewrite Forall_forall in Hl, Hk.
    apply Hl in Hi. apply Hk in Hj. lia.
  - apply Forall_app. split; (eapply Forall_impl; [eassumption|]); cbn; lia.
Qed.

Lemma owned_perm l k lo hi : l ≡ₚ k -> owned l lo hi -> owned k lo hi.
Proof. intros Hp [Hn Hl]. split; by rewrite <- Hp. Qed.

Lemma owned_seqZ lo n : owned (seqZ lo n) lo (lo + n).
Proof. split; [apply NoDup_seqZ|]. apply Forall_forall. intros i. rewrite elem_of_seqZ. lia. Qed.

Lemma owned_submseteq l lo n : owned l lo (lo + n) -> l ⊆+ seqZ lo n.
Proof.
  intros [Hn Hl]. apply NoDup_submseteq; [done|]. intros i Hi. rewrite Forall_forall in Hl.
  apply elem_of_seqZ. apply Hl in Hi. lia.
Qed.

Lemma NoDup_sub {A} (l k : list A) : l ⊆+ k -> NoDup k -> NoDup l.
Proof. intros [r ->]%submseteq_Permutation Hk. by apply NoDup_app in Hk as [? _]. Qed.

(** Lists of numbers, each within its own range. *)
Definition range_ids (rs : list (Z * Z)) : list Z := concat (map (fun r => seqZ r.1 r.2) rs).

Lemma ranges_distinct (rs : list (Z * Z)) (ls : list (list Z)) :
  Forall2 (fun r l => owned l r.1 (r.1 + r.2)) rs ls -> NoDup (range_ids rs) -> NoDup (concat ls).
Proof.
  intros H. apply NoDup_sub. induction H as [|[lo n] l rs ls Hl _ IH]; [done|].
  unfold range_ids. cbn. apply submseteq_app; [by apply owned_submseteq|done].
Qed.

Definition action_cells (l : list action) : list Z := concat (map cells l).
Definition action_undefined (l : list action) : list Z := map undefined_id (concat (map pushes l)).

Lemma action_cells_app l k : action_cells (l ++ k) = action_cells l ++ action_cells k.
Proof. unfold action_cells. by rewrite map_app, concat_app. Qed.

Lemma action_undefined_app l k : action_undefined (l ++ k) = action_undefined l ++ action_undefined k.
Proof. unfold action_undefined. by rewrite map_app, concat_app, map_app. Qed.

Section Ownership.
Context (link : LinkInput).

Lemma resolve_symbol_ids id info symbol out is_dynamic f acts :
  resolve_symbol link id info symbol out is_dynamic f = Ok acts ->
  owned (action_cells acts) out (out + 1) /\ owned (action_undefined acts) id (id + 1).
Proof.
  unfold resolve_symbol. destruct (get _ _ _ _ _) as [[symbol_id|]| |]; cbn; [| |done..].
  - match goal with |- context [mbind _ ?m] => destruct m as [stores| |] eqn:Es end; cbn; [|done..].
    assert (action_cells stores = [] /\ action_undefined stores = []) as [Hs Hs'].
    { destruct (symbol_is_interposable symbol); [by injection Es as <-|].
      destruct (input_symbol_visibility _ _) as [v| |]; cbn in Es; try done. by destruct v; injection Es as <-. }
    destruct (index _ symbol_id) as [sfid| |]; cbn; [|done..].
    match goal with |- context [mbind _ ?m] => destruct m as [request| |] eqn:Er end; cbn; [|done..].
    assert (action_cells request = [] /\ owned (action_undefined request) id (id + 1)) as [Hr Hr'].
    { destruct (bool_decide (sfid <> f) && _).
      - destruct is_dynamic; cbn in Er; [destruct (input_is_dynamic _ _) as [d| |]; cbn in Er; try done|];
          [destruct d|]; injection Er as <-; split; try done; apply owned_nil.
      - destruct (bool_decide (sfid <> PRELUDE_FILE_ID)); injection Er as <-; (split; [done|]); [apply owned_one|apply owned_nil]. }
    intros [= <-]. change (?a :: ?l) with ([a] ++ l). rewrite !action_cells_app, !action_undefined_app.
    change (NonIrRef symbol_id :: request) with ([NonIrRef symbol_id] ++ request).
    rewrite !action_cells_app, !action_undefined_app, Hs, Hs', Hr. cbn. split; [apply owned_one|done].
  - intros [= <-]. split; [apply owned_nil|apply owned_one].
Qed.

Lemma resolve_chunk_owned obj verneed f off out : forall symbols i defs acts,
  resolve_chunk link obj verneed f off i out symbols defs = Ok acts ->
  owned (action_cells acts) (out + Z.of_nat i) (out + Z.of_nat i + Z.of_nat (length defs)) /\
  ((forall k, 0 <= k < Z.of_nat i + Z.of_nat (length defs) -> wadd 32 (symbol_id_start obj) (off + k) = out + k) ->
   owned (action_undefined acts) (out + Z.of_nat i) (out + Z.of_nat i + Z.of_nat (length defs))).
Proof.
  induction symbols as [|symbol symbols IH]; intros i defs acts; cbn;
    [intros [= <-]; split; [|intros _]; apply owned_nil|].
  destruct defs as [|d defs]; [intros [= <-]; split; [|intros _]; apply owned_nil|].
  assert (forall acts, resolve_chunk link obj verneed f off (S i) out symbols defs = Ok acts ->
    owned (action_cells acts) (out + Z.of_nat i + 1) (out + Z.of_nat i + Z.of_nat (length (d :: defs))) /\
    ((forall k, 0 <= k < Z.of_nat i + Z.of_nat (length (d :: defs)) -> wadd 32 (symbol_id_start obj) (off + k) = out + k) ->
     owned (action_undefined acts) (out + Z.of_nat i + 1) (out + Z.of_nat i + Z.of_nat (length (d :: defs))))) as Hnext.
  { intros acts' H. destruct (IH _ _ _ H) as [H1 H2]. cbn [length]. split.
    - eapply owned_weaken; [exact H1|lia..].
    - intros Hk. eapply owned_weaken; [apply H2; intros k Hk'; apply Hk; cbn [length]; lia|lia..]. }
  destruct (_ || _).
  { intros H. destruct (Hnext _ H) as [H1 H2]. split; [|intros Hk; specialize (H2 Hk)];
      (eapply owned_weaken; [eassumption|lia..]). }
  destruct (symbol_name symbol) as [name| |]; [|intros [= <-]; split; [|intros _]; apply owned_nil|done].
  destruct (resolve_symbol _ _ _ _ _ _ _) as [here| |] eqn:Eh; cbn; [|done..].
  destruct (resolve_chunk _ _ _ _ _ _ _ _ _) as [rest| |] eqn:Er; cbn; [|done..]. intros [= <-].
  apply resolve_symbol_ids in Eh as [Hc Hu]. destruct (Hnext _ eq_refl) as [H1 H2].
  rewrite action_cells_app, action_undefined_app. split.
  - eapply owned_app; [exact Hc|exact H1|lia|cbn [length]; lia].
  - intros Hk. rewrite (Hk (Z.of_nat i)) in Hu by (cbn [length]; lia).
    eapply owned_app; [exact Hu|by apply H2|lia|cbn [length]; lia].
Qed.

(** A traversal keeps what its callback keeps. *)
Lemma visit_keeps {S} (I : S -> Prop) (cb : Expression -> S -> bool * S) :
  (forall e s, I s -> I (cb e s).2) -> forall e s, I s -> I (visit_expressions cb e s).
Proof.
  intros Hcb e. induction e; intros s Hs; cbn;
    match goal with |- context [cb ?x s] => pose proof (Hcb x s Hs) as Hc; destruct (cb x s) as [go s1]; cbn in Hc end;
    destruct go; cbn; auto.
Qed.

Definition writes_nothing (m : res (list action)) : Prop :=
  forall l, m = Ok l -> action_cells l = [] /\ action_undefined l = [].

Lemma writes_nothing_app m l k : writes_nothing m -> m = Ok l -> writes_nothing (Ok k) -> writes_nothing (Ok (l ++ k)).
Proof.
  intros Hm Hl Hk x [= <-]. destruct (Hm _ Hl) as [H1 H2]. destruct (Hk _ eq_refl) as [H3 H4].
  by rewrite action_cells_app, action_undefined_app, H1, H2, H3, H4.
Qed.

Lemma redirect_writes_nothing redirect : writes_nothing (load_symbols_in_redirect link redirect).
Proof.
  unfold load_symbols_in_redirect. apply visit_keeps; [|by intros l [= <-]].
  intros e acc Hacc. cbn. destruct acc as [acc| |]; cbn; [|done..]. destruct e; try done.
  destruct (load_symbol_named link name) as [found| |]; cbn; [|done..].
  eapply writes_nothing_app; [exact Hacc|done|]. intros l [= <-]. by destruct found as [[? ?]|].
Qed.

Lemma concatM_writes_nothing {A} (f : A -> res (list action)) l :
  (forall x, writes_nothing (f x)) -> writes_nothing (concatM f l).
Proof.
  intros Hf acts. unfold concatM. destruct (mapM f l) as [parts| |] eqn:E; cbn; [|done..]. intros [= <-].
  apply mapM_Ok_inv in E. induction E as [|x y l k Hxy _ IH]; [done|]. cbn [concat].
  destruct (Hf _ _ Hxy) as [H1 H2], IH as [H3 H4]. by rewrite action_cells_app, action_undefined_app, H1, H2, H3, H4.
Qed.

(** The ids of an object's items follow the definitions they write. *)
Definition numbered_item (item : LoadObjectSymbolsRequest) : Prop :=
  forall objects obj,
    index (input_groups link) (req_file_id item).1 = Ok (ObjectFiles objects) ->
    index objects (req_file_id item).2 = Ok obj ->
    symbol_id_start obj + symbol_start_offset item = definitions_out item /\
    0 <= definitions_out item /\ definitions_out item + definitions_len item <= 2 ^ 32.

Lemma prelude_owned defs item acts :
  load_prelude link defs item = Ok acts -> 0 <= definitions_len item ->
  owned (action_cells acts) (definitions_out item) (definitions_out item + definitions_len item) /\
  action_undefined acts = [].
Proof.
  unfold load_prelude. intros H Hlen.
  match type of H with context [mbind _ ?m] => destruct m as [entry| |] eqn:Ee end; cbn in H; try done.
  assert (action_cells entry = [] /\ action_undefined entry = []) as [He He'].
  { destruct (entry_symbol_name link); [|by injection Ee as <-].
    destruct (load_symbol_named _ _) as [[[? ?]|]| |]; cbn in Ee; try done; by injection Ee as <-. }
  match type of H with context [concatM ?g ?l] => set (F := g) in *; destruct (concatM F l) as [rest| |] eqn:Er end; cbn in H; try done.
  injection H as <-. rewrite action_cells_app, action_undefined_app, He, He'. cbn.
  unfold concatM in Er. destruct (mapM F _) as [parts| |] eqn:Em; cbn in Er; try done. injection Er as <-.
  apply mapM_Ok_inv in Em. clear He He' Ee.
  enough (forall i l parts n, Forall2 (fun x y => F x = Ok y) (take n (imap (fun j => pair (i + j)%nat) l)) parts ->
    owned (action_cells (concat parts)) (definitions_out item + Z.of_nat i) (definitions_out item + Z.of_nat i + Z.of_nat n) /\
    action_undefined (concat parts) = []) as Hgen.
  { destruct (Hgen 0%nat _ _ _ Em) as [H1 H2]. split; [|done]. eapply owned_weaken; [exact H1|lia..]. }
  clear. intros i l. revert i. induction l as [|def l IH]; intros i parts n H.
  { cbn [imap] in H. rewrite take_nil in H. inversion H. subst. split; [apply owned_nil|done]. }
  destruct n as [|n]; [inversion H; subst; split; [apply owned_nil|done]|].
  cbn [imap take] in H. inversion H as [|x y xs ys Hx Hrest]; subst. clear H.
  rewrite Nat.add_0_r in Hx. unfold F in Hx. cbn [fst snd] in Hx.
  assert (imap ((fun j => pair (i + j)%nat) ∘ S) l = imap (fun j => pair (S i + j)%nat) l) as Heq.
  { apply imap_ext. intros j x _. cbn. f_equal. lia. }
  rewrite Heq in Hrest. destruct (IH _ _ _ Hrest) as [H1 H2]. cbn [concat]. rewrite action_cells_app, action_undefined_app, H2.
  assert (owned (action_cells y) (definitions_out item + Z.of_nat i) (definitions_out item + Z.of_nat i + 1) /\
          action_undefined y = []) as [H3 H4].
  { destruct (placement def) as [| | | | |redirect| |]; try (injection Hx as <-; split; [apply owned_nil|done]).
    - destruct (load_symbol_named _ _) as [[[? ?]|]| |]; cbn in Hx; try done; injection Hx as <-; (split; [|done]);
        [apply owned_one|apply owned_nil].
    - destruct (redirect_writes_nothing redirect _ Hx) as [-> ->]. split; [apply owned_nil|done]. }
  rewrite H4. split; [|done]. eapply owned_app; [exact H3| |lia|lia]. eapply owned_weaken; [exact H1|lia..].
Qed.

Lemma process_object_owned defs item acts :
  process_object link defs item = Ok acts -> 0 <= definitions_len item ->
  owned (action_cells acts) (definitions_out item) (definitions_out item + definitions_len item) /\
  (numbered_item item ->
   owned (action_undefined acts) (definitions_out item) (definitions_out item + definitions_len item)).
Proof.
  unfold process_object. intros H Hlen. destruct (index _ _) as [group| |] eqn:Eg; cbn in H; try done.
  destruct group as [pdefs|objects|stubs|scripts|n].
  - apply prelude_owned in H as [H1 H2]; [|done]. rewrite H2. split; [done|]. intros _. apply owned_nil.
  - destruct (index objects _) as [obj| |] eqn:Eo; cbn in H; try done. unfold resolve_symbols in H.
    destruct (input_verneed_table obj) as [verneed| |]; [|injection H as <-; split; [|intros _]; apply owned_nil|done].
    apply resolve_chunk_owned in H as [H1 H2].
    assert (Z.of_nat (length (take (Z.to_nat (definitions_len item)) (drop (Z.to_nat (definitions_out item)) defs))) <= definitions_len item)
      by (rewrite length_take; lia).
    split; [eapply owned_weaken; [exact H1|lia..]|]. intros Hn. destruct (Hn _ _ Eg Eo) as (He & H0 & Hu).
    eapply owned_weaken; [apply H2|lia..]. intros k Hk. unfold wadd. rewrite wrap_small; [lia|]. unfold in_u. lia.
  - injection H as <-. split; [|intros _]; apply owned_nil.
  - assert (writes_nothing (concatM (load_script link) scripts)) as Hw.
    { apply concatM_writes_nothing. intros s. apply concatM_writes_nothing. intros d.
      destruct (placement d); try (by intros l [= <-]). apply redirect_writes_nothing. }
    destruct (Hw _ H) as [-> ->]. split; [|intros _]; apply owned_nil.
  - injection H as <-. split; [|intros _]; apply owned_nil.
Qed.
End Ownership.

(** *** The parts handed out *)
Definition item_range (item : LoadObjectSymbolsRequest) : Z * Z := (definitions_out item, definitions_len item).

Lemma range_ids_app rs rs' : range_ids (rs ++ rs') = range_ids rs ++ range_ids rs'.
Proof. unfold range_ids. by rewrite map_app, concat_app. Qed.

Lemma range_ids_perm rs rs' : rs ≡ₚ rs' -> range_ids rs ≡ₚ range_ids rs'.
Proof. apply concat_map_perm. Qed.

(** The items of a file cover its symbols, each once. *)
Lemma chunk_items_tile f chunk fuel : forall off out len,
  0 <= len -> (0 < chunk \/ chunk = len) -> (Z.to_nat len <= fuel)%nat ->
  range_ids (map item_range (chunk_items fuel f chunk off out len)) = seqZ out len /\
  Forall (fun item => 0 <= definitions_len item /\ req_file_id item = f /\
            definitions_out item - symbol_start_offset item = out - off /\
            out <= definitions_out item /\ definitions_out item + definitions_len item <= out + len)
    (chunk_items fuel f chunk off out len).
Proof.
  induction fuel as [|fuel IH]; intros off out len Hlen Hchunk Hfuel;
    cbn [chunk_items map]; unfold range_ids; cbn [map concat item_range definitions_out definitions_len fst snd].
  - replace len with 0 by lia. replace (Z.min chunk 0) with 0 by lia.
    rewrite Z.sub_0_r. cbn. split; [done|]. repeat constructor; cbn; lia.
  - destruct (Z.eqb_spec (len - Z.min chunk len) 0) as [He|He].
    + replace (Z.min chunk len) with len by lia. cbn. rewrite app_nil_r. split; [done|]. repeat constructor; cbn; lia.
    + destruct Hchunk as [Hc| ->]; [|lia]. assert (chunk < len) by lia. replace (Z.min chunk len) with chunk in * by lia.
      destruct (IH (off + chunk) (out + chunk) (len - chunk)) as [H1 H2]; [lia|by left|lia|].
      unfold range_ids in H1. rewrite H1. split.
      * rewrite <- seqZ_app by lia. f_equal. lia.
      * constructor; [cbn; split_and!; try done; lia|]. eapply Forall_impl; [exact H2|]. cbn. intros item (?&?&?&?&?). split_and!; try done; lia.
Qed.

Lemma work_items_tile groups f o l b items :
  work_items_do groups f (o, l) = Ok (b, items) -> 0 <= l ->
  range_ids (map item_range items) = seqZ o l /\
  Forall (fun item => 0 <= definitions_len item /\ req_file_id item = f /\
            definitions_out item - symbol_start_offset item = o /\
            o <= definitions_out item /\ definitions_out item + definitions_len item <= o + l) items.
Proof.
  unfold work_items_do. intros H Hl. destruct (index groups f.1) as [group| |]; cbn in H; try done.
  assert (forall chunk, 0 < chunk \/ chunk = l -> items = chunk_items (Z.to_nat l) f chunk 0 o l ->
    range_ids (map item_range items) = seqZ o l /\
    Forall (fun item => 0 <= definitions_len item /\ req_file_id item = f /\
            definitions_out item - symbol_start_offset item = o /\
            o <= definitions_out item /\ definitions_out item + definitions_len item <= o + l) items) as Hgen.
  { intros chunk Hc ->. destruct (chunk_items_tile f chunk (Z.to_nat l) 0 o l Hl Hc ltac:(lia)) as [H1 H2].
    split; [done|]. eapply Forall_impl; [exact H2|]. cbn. intros item (?&?&?&?&?). split_and!; try done; lia. }
  destruct group as [|objects| | |]; try (injection H as _ <-; eapply Hgen; [by right|done]).
  destruct (index objects f.2); cbn in H; try done. injection H as _ <-. eapply Hgen; [left|done]. done.
Qed.

(** What the tasks of a setup write from the start, and what is left to take. *)
Definition claims (s : GroupSetup) : list (Z * Z) :=
  map item_range (setup_work s) ++ omap id (definitions_per_file s).

Definition claims_ok (s : GroupSetup) (lo hi : Z) : Prop :=
  owned (range_ids (claims s)) lo hi /\ lo <= hi /\ Forall (fun r => 0 <= r.2) (claims s).

Lemma split_off_ok total position len slice position' :
  split_off total position len = Ok (slice, position') ->
  slice = (position, len) /\ position' = position + len /\ 0 <= len.
Proof.
  unfold split_off. destruct (_ && _) eqn:E; [|done]. apply andb_true_iff in E as [H1 _]. apply Z.leb_le in H1.
  by intros [= <- <-].
Qed.

Lemma empty_claims_ok p : claims_ok empty_setup p p.
Proof. split_and!; [apply owned_nil|lia|constructor]. Qed.

Lemma claim_slot f slice rest p n hi :
  slice = (p, n) -> 0 <= n -> claims_ok rest (p + n) hi -> claims_ok (add_file f (Some slice) [] [] rest) p hi.
Proof.
  intros -> Hn (Ho & Hle & Hnn).
  assert (claims (add_file f (Some (p, n)) [] [] rest) ≡ₚ (p, n) :: claims rest) as Hp
    by (unfold claims; cbn; symmetry; apply Permutation_middle).
  split_and!; [|lia|].
  - eapply owned_perm; [symmetry; by apply range_ids_perm|]. unfold range_ids. cbn.
    eapply owned_app; [apply owned_seqZ|exact Ho|lia|lia].
  - rewrite Hp. by constructor.
Qed.

Lemma claim_work f work loaded rest p n hi :
  owned (range_ids (map item_range work)) p (p + n) -> 0 <= n -> Forall (fun item => 0 <= definitions_len item) work ->
  claims_ok rest (p + n) hi -> claims_ok (add_file f None work loaded rest) p hi.
Proof.
  intros Hw Hn Hlen (Ho & Hle & Hnn). unfold claims_ok.
  assert (claims (add_file f None work loaded rest) = map item_range work ++ claims rest) as ->
    by (unfold claims, add_file; cbn; by rewrite map_app, <- app_assoc).
  rewrite range_ids_app. split_and!; [|lia|].
  - eapply owned_app; [exact Hw|exact Ho|lia|lia].
  - apply Forall_app. split; [|done]. by apply Forall_map.
Qed.

Lemma claim_nothing f rest p n hi :
  0 <= n -> claims_ok rest (p + n) hi -> claims_ok (add_file f None [] [] rest) p hi.
Proof. intros Hn. apply claim_work; [apply owned_nil|done|constructor]. Qed.

Section Claims.
Context (groups : list InputGroup) (total : Z).

Local Ltac split_off_step :=
  match goal with
  | |- context [split_off ?t ?p ?n] =>
      let E := fresh "E" in destruct (split_off t p n) as [[? ?]| |] eqn:E; cbn [mbind res_bind]; [|done..];
      apply split_off_ok in E as (-> & -> & ?)
  end.

Lemma work_items_claims f o l b items :
  work_items_do groups f (o, l) = Ok (b, items) -> 0 <= l ->
  owned (range_ids (map item_range items)) o (o + l) /\ Forall (fun item => 0 <= definitions_len item) items.
Proof.
  intros H Hl. destruct (work_items_tile _ _ _ _ _ _ H Hl) as [-> Hf]. split; [apply owned_seqZ|].
  eapply Forall_impl; [exact Hf|]. by cbn; intros item [? _].
Qed.

Lemma setup_objects_claims g objects : forall f p s p',
  setup_objects groups total g f objects p = Ok (s, p') -> claims_ok s p p'.
Proof.
  induction objects as [|obj objects IH]; intros f p s p'; cbn; [intros [= <- <-]; apply empty_claims_ok|].
  split_off_step. destruct (is_optional obj).
  - destruct (setup_objects _ _ _ _ _ _) as [[rest q]| |] eqn:Er; cbn; [|done..]. intros [= <- <-].
    eapply claim_slot; [done|done|by eapply IH].
  - destruct (work_items_do _ _ _) as [[b work]| |] eqn:Ew; cbn; [|done..].
    destruct (setup_objects _ _ _ _ _ _) as [[rest q]| |] eqn:Er; cbn; [|done..]. intros [= <- <-].
    apply work_items_claims in Ew as [Hw Hlen]; [|done]. eapply claim_work; [exact Hw|done|done|by eapply IH].
Qed.

Lemma setup_stubs_claims stubs : forall p s p', setup_stubs total stubs p = Ok (s, p') -> claims_ok s p p'.
Proof.
  induction stubs as [|n stubs IH]; intros p s p'; cbn; [intros [= <- <-]; apply empty_claims_ok|].
  split_off_step. destruct (setup_stubs _ _ _) as [[rest q]| |] eqn:Er; cbn; [|done..]. intros [= <- <-].
  eapply claim_nothing; [done|by eapply IH].
Qed.

Lemma setup_scripts_claims g scripts : forall f p s p', setup_scripts total g f scripts p = Ok (s, p') -> claims_ok s p p'.
Proof.
  induction scripts as [|defs scripts IH]; intros f p s p'; cbn; [intros [= <- <-]; apply empty_claims_ok|].
  split_off_step. destruct (setup_scripts _ _ _ _ _) as [[rest q]| |] eqn:Er; cbn; [|done..]. intros [= <- <-].
  eapply claim_work; [|done| |by eapply IH].
  - unfold range_ids. cbn. rewrite app_nil_r. apply owned_seqZ.
  - repeat constructor. done.
Qed.

Lemma resolve_group_claims g group p s p' : resolve_group groups total g group p = Ok (s, p') -> claims_ok s p p'.
Proof.
  destruct group as [defs|objects|stubs|scripts|n]; cbn;
    [|apply setup_objects_claims|apply setup_stubs_claims|apply setup_scripts_claims|].
  - split_off_step. destruct (work_items_do _ _ _) as [[b work]| |] eqn:Ew; cbn; [|done..]. intros [= <- <-].
    apply work_items_claims in Ew as [Hw Hlen]; [|done]. eapply claim_work; [exact Hw|done|done|apply empty_claims_ok].
  - split_off_step. intros [= <- <-]. eapply claim_nothing; [done|apply empty_claims_ok].
Qed.

Lemma setup_resolved_claims files files' : forall p takes p',
  setup_resolved total files p = Ok (takes, p') -> claims_ok (mkSetup files' takes [] []) p p'.
Proof.
  induction files as [|file files IH]; intros p takes p'; cbn; [intros [= <- <-]; apply empty_claims_ok|].
  split_off_step. destruct (setup_resolved _ _ _) as [[rest q]| |] eqn:Er; cbn; [|done..]. intros [= <- <-].
  specialize (IH _ _ _ Er). destruct file.
  - by apply (claim_slot (NotLoaded 0) (p, num_symbols0) (mkSetup files' rest [] []) p num_symbols0 q).
  - by apply (claim_nothing (NotLoaded 0) (mkSetup files' rest [] []) p num_symbols0 q).
Qed.

Definition all_claims_ok (setups : list GroupSetup) (lo : Z) : Prop :=
  exists hi, owned (range_ids (concat (map claims setups))) lo hi /\ lo <= hi /\
    Forall (fun r => 0 <= r.2) (concat (map claims setups)).

Lemma all_claims_cons s setups lo mid : claims_ok s lo mid -> all_claims_ok setups mid -> all_claims_ok (s :: setups) lo.
Proof.
  intros (Ho & Hle & Hn) (hi & Ho' & Hle' & Hn'). exists hi. cbn [map concat]. rewrite range_ids_app. split_and!; [|lia|].
  - by eapply owned_app.
  - by apply Forall_app.
Qed.

Lemma all_claims_nil lo : all_claims_ok [] lo.
Proof. exists lo. split_and!; [apply owned_nil|lia|constructor]. Qed.

Lemma setup_groups_claims existing new_groups : forall g p setups,
  setup_groups groups total g existing new_groups p = Ok setups -> all_claims_ok setups p.
Proof.
  induction existing as [|files existing IH]; intros g p setups; cbn.
  - revert g p setups. induction new_groups as [|group new_groups IHn]; intros g p setups; [intros [= <-]; apply all_claims_nil|].
    destruct (resolve_group _ _ _ _ _) as [[s q]| |] eqn:Es; cbn; [|done..].
    match goal with |- context [mbind _ ?m] => destruct m as [rest| |] eqn:Er end; cbn; [|done..]. intros [= <-].
    eapply all_claims_cons; [by eapply resolve_group_claims|by eapply IHn].
  - destruct (setup_resolved _ _ _) as [[takes q]| |] eqn:Es; cbn; [|done..].
    destruct (setup_groups _ _ _ _ _ _) as [rest| |] eqn:Er; cbn; [|done..]. intros [= <-].
    eapply all_claims_cons; [by eapply setup_resolved_claims|by eapply IH].
Qed.
End Claims.

Lemma link_setup_claims link resolver defs setups :
  link_setup link resolver defs = Ok setups -> all_claims_ok setups 0.
Proof. unfold link_setup. case_match; [done|]. apply setup_groups_claims. Qed.

(** The claims of all groups: the initial work, and every slot. *)
Lemma all_claims_split setups :
  concat (map claims setups) ≡ₚ
    map item_range (concat (map setup_work setups)) ++ concat (map (omap id) (take_slices setups)).
Proof.
  induction setups as [|s setups IH]; cbn; [done|]. rewrite IH, map_app. unfold claims.
  solve_Permutation.
Qed.

(** *** All writes of a run are distinct *)
Lemma owned_sub l k lo hi : l ⊆+ k -> owned k lo hi -> owned l lo hi.
Proof.
  intros [r Hr]%submseteq_Permutation Hk. apply (owned_perm _ _ _ _ Hr) in Hk as [Hn Hf].
  apply NoDup_app in Hn as [Hn _]. apply Forall_app in Hf as [Hf _]. by split.
Qed.

Lemma range_ids_sub rs rs' : rs ⊆+ rs' -> range_ids rs ⊆+ range_ids rs'.
Proof.
  intros [r Hr]%submseteq_Permutation. apply range_ids_perm in Hr. rewrite range_ids_app in Hr. rewrite Hr.
  apply submseteq_inserts_r. done.
Qed.

Lemma ranges_owned (rs : list (Z * Z)) (ls : list (list Z)) lo hi :
  Forall2 (fun r l => owned l r.1 (r.1 + r.2)) rs ls -> owned (range_ids rs) lo hi -> owned (concat ls) lo hi.
Proof.
  intros H. apply owned_sub. induction H as [|[o n] l rs ls Hl _ IH]; [done|].
  unfold range_ids. cbn. apply submseteq_app; [by apply owned_submseteq|done].
Qed.

Lemma omap_pointwise {A B} (f g : A -> option B) (l : list A) : (forall x, f x = g x) -> omap f l = omap g l.
Proof. intros H. induction l as [|x l IH]; [done|]. cbn. by rewrite H, IH. Qed.

Lemma omap_index {A B} (h : res A -> option B) (l pre : list A) :
  omap (fun i => h (index (pre ++ l) i)) (seqZ (Z.of_nat (length pre)) (Z.of_nat (length l))) = omap (fun x => h (Ok x)) l.
Proof.
  revert pre. induction l as [|x l IH]; intros pre; [done|]. cbn [length]. rewrite seqZ_cons by lia. cbn.
  assert (index (pre ++ x :: l) (Z.of_nat (length pre)) = Ok x) as ->.
  { unfold index. rewrite decide_True by lia. rewrite Nat2Z.id, lookup_app_r, Nat.sub_diag by lia. done. }
  replace (Z.succ (Z.of_nat (length pre))) with (Z.of_nat (length (pre ++ [x]))) by (rewrite length_app; cbn; lia).
  replace (Z.pred (Z.of_nat (S (length l)))) with (Z.of_nat (length l)) by lia.
  rewrite (omap_pointwise _ (fun i => h (index ((pre ++ [x]) ++ l) i))) by (intros i; by rewrite <- app_assoc).
  rewrite IH. by destruct (h (Ok x)).
Qed.

Lemma concat_map_index {A B} (h : res A -> list B) (l pre : list A) :
  concat (map (fun i => h (index (pre ++ l) i)) (seqZ (Z.of_nat (length pre)) (Z.of_nat (length l)))) =
    concat (map (fun x => h (Ok x)) l).
Proof.
  revert pre. induction l as [|x l IH]; intros pre; [done|]. cbn [length]. rewrite seqZ_cons by lia. cbn [map concat].
  assert (index (pre ++ x :: l) (Z.of_nat (length pre)) = Ok x) as ->.
  { unfold index. rewrite decide_True by lia. rewrite Nat2Z.id, lookup_app_r, Nat.sub_diag by lia. done. }
  replace (Z.succ (Z.of_nat (length pre))) with (Z.of_nat (length (pre ++ [x]))) by (rewrite length_app; cbn; lia).
  replace (Z.pred (Z.of_nat (S (length l)))) with (Z.of_nat (length l)) by lia. f_equal.
  rewrite <- (IH (pre ++ [x])). f_equal. apply map_ext. intros i. by rewrite <- app_assoc.
Qed.

Lemma omap_concat {A B C} (h : B -> option C) (f : A -> list B) (l : list A) :
  omap h (concat (map f l)) = concat (map (fun x => omap h (f x)) l).
Proof. induction l as [|x l IH]; [done|]. cbn. by rewrite omap_app, IH. Qed.

Lemma omap_map {A B C} (h : B -> option C) (f : A -> B) (l : list A) : omap h (map f l) = omap (fun x => h (f x)) l.
Proof. induction l as [|x l IH]; [done|]. cbn. by destruct (h (f x)); rewrite IH. Qed.

Lemma slots_listed slices : omap (slice_of slices) (all_slots slices) = concat (map (omap id) slices).
Proof.
  unfold all_slots. rewrite omap_concat.
  rewrite <- (concat_map_index (fun m => match m with Ok group => omap id group | _ => [] end) slices []). cbn [length app].
  f_equal. apply map_ext. intros g. destruct (index slices g) as [group| |] eqn:Eg; [|done..].
  rewrite omap_map. unfold slice_of. cbn. change (omap id group) with (omap (fun x : option (Z * Z) => x) group).
  rewrite <- (omap_index (fun m => match m with Ok slice => slice | _ => None end) group []). cbn [length app].
  apply omap_pointwise. intros i. by rewrite Eg.
Qed.

(** The initial state, and the room its files take. *)
Lemma push_all_ok capacity (fs l l' : list FileId) :
  for_each (push_loaded capacity) fs l = Ok l' <-> l' = l ++ fs /\ (length fs = 0 \/ length l + length fs <= capacity)%nat.
Proof.
  revert l. induction fs as [|f fs IH]; intros l; cbn [for_each].
  - rewrite app_nil_r. split; [intros [= <-]; split; [done|by left]|by intros [-> _]].
  - destruct (push_loaded capacity f l) as [l1| |] eqn:E; cbn [mbind res_bind].
    + apply push_loaded_ok in E as [-> Hl]. rewrite IH, length_app, <- app_assoc. cbn. split; intros [-> ?]; (split; [done|lia]).
    + unfold push_loaded in E. by destruct (_ <? _)%nat.
    + unfold push_loaded in E. destruct (Nat.ltb_spec (length l) capacity); [done|]. split; [done|]. cbn. intros [_ ?]. lia.
Qed.

Lemma initial_tasks_ok link setups defs0 flags0 s0 :
  initial_tasks link setups defs0 flags0 = Ok s0 <-> exists ts,
    spawn link defs0 (concat (map setup_work setups)) = Ok ts /\
    s0 = mkTasks ts [] (concat (map setup_loaded setups)) defs0 flags0 [] None /\
    (length (concat (map setup_loaded setups)) <= loaded_capacity (input_groups link))%nat.
Proof.
  unfold initial_tasks. split.
  - destruct (for_each _ _ []) as [l| |] eqn:El; cbn [mbind res_bind]; try done. apply push_all_ok in El as [-> Hl].
    destruct (spawn _ _ _) as [ts| |]; cbn [mbind res_bind]; try done. intros [= <-]. exists ts. split_and!; [done..|]. cbn in Hl. lia.
  - intros (ts & -> & -> & Hl).
    assert (for_each (push_loaded (loaded_capacity (input_groups link))) (concat (map setup_loaded setups)) [] =
      Ok (concat (map setup_loaded setups))) as -> by (apply push_all_ok; split; [done|by right]). done.
Qed.

Section Distinct.
Context (link : LinkInput) (setups : list GroupSetup) (defs0 : list Z).
Local Abbreviation slices := (take_slices setups).

(** A kind of numbers the actions of an item take from its own range: the definitions it
    writes, or the ids of the undefined symbols it reports. *)
Context (ids : list action -> list Z) (item_ok : LoadObjectSymbolsRequest -> Prop).
Context (ids_app : forall l k, ids (l ++ k) = ids l ++ ids k) (ids_nil : ids [] = []).
Context (ids_perm : forall l k, l ≡ₚ k -> ids l ≡ₚ ids k).
Context (ids_owned : forall item acts, item_ok item -> process_object link defs0 item = Ok acts ->
  0 <= definitions_len item -> owned (ids acts) (definitions_out item) (definitions_out item + definitions_len item)).

Lemma ids_concat ls : ids (concat ls) = concat (map ids ls).
Proof. induction ls as [|l ls IH]; [done|]. cbn. by rewrite ids_app, IH. Qed.

Lemma spawn_owned items ts :
  spawn link defs0 items = Ok ts -> Forall item_ok items -> Forall (fun item => 0 <= definitions_len item) items ->
  Forall2 (fun r l => owned l r.1 (r.1 + r.2)) (map item_range items) (map ids ts).
Proof.
  intros H%mapM_Ok_inv Hok Hlen. apply Forall2_fmap. induction H as [|item t items ts Ht _ IH]; [constructor|].
  apply Forall_cons in Hok as [Ho Hok]. apply Forall_cons in Hlen as [Hl Hlen]. constructor; [|by apply IH].
  cbn. by apply ids_owned.
Qed.

Context (slot_ok : forall f o l b items, slice_of slices f = Some (o, l) ->
  work_items_do (input_groups link) f (o, l) = Ok (b, items) -> 0 <= l -> Forall item_ok items).

Lemma file_actions_owned f o l :
  slice_of slices f = Some (o, l) -> 0 <= l -> owned (ids (file_actions link slices defs0 f)) o (o + l).
Proof.
  intros Hs Hl. unfold file_actions, file_tasks. rewrite Hs.
  destruct (work_items_do _ f (o, l)) as [[b items]| |] eqn:Ew; cbn; [|rewrite ids_nil; apply owned_nil..].
  destruct (spawn link defs0 items) as [ts| |] eqn:Et; cbn; [|rewrite ids_nil; apply owned_nil..].
  rewrite ids_concat. destruct (work_items_tile _ _ _ _ _ _ Ew Hl) as [Htile Hlen].
  eapply ranges_owned; [apply (spawn_owned _ _ Et)|].
  - by eapply slot_ok.
  - eapply Forall_impl; [exact Hlen|]. by cbn; intros item [? _].
  - rewrite Htile. apply owned_seqZ.
Qed.

Context (start_ok : Forall item_ok (concat (map setup_work setups))).

Lemma run_ids_owned resolver flags0 s0 trace s :
  link_setup link resolver defs0 = Ok setups -> initial_tasks link setups defs0 flags0 = Ok s0 ->
  run link slices defs0 s0 trace s -> complete s -> exists hi, owned (ids trace) 0 hi.
Proof.
  intros Hsetup Hinit Hrun Hc. apply link_setup_claims in Hsetup as (hi & Ho & _ & Hn). exists hi.
  apply initial_tasks_ok in Hinit as (ts & Et & -> & _).
  destruct (complete_needed _ _ _ _ _ _ Hrun eq_refl Hc) as (Hnd & _ & Htr). cbn [tasks] in Htr.
  pose proof (run_ran _ _ _ _ _ _ Hrun) as [new Hr].
  assert (taken s = new) as Hnew by apply (rn_taken _ _ _ _ _ _ _ Hr). rewrite Hnew in *.
  pose proof (range_ids_perm _ _ (all_claims_split setups)) as Hsplit. apply (owned_perm _ _ _ _ Hsplit) in Ho.
  rewrite (all_claims_split setups) in Hn. apply Forall_app in Hn as [Hnw Hns].
  assert (new ⊆+ all_slots slices) as Hsub.
  { apply NoDup_submseteq; [done|]. intros f Hf. apply available_slot. by apply (rn_available _ _ _ _ _ _ _ Hr). }
  assert (omap (slice_of slices) new ⊆+ concat (map (omap id) slices)) as Hslots.
  { rewrite <- slots_listed. destruct (submseteq_Permutation _ _ Hsub) as [rest Hrest].
    rewrite Hrest, omap_app. by apply submseteq_inserts_r. }
  eapply owned_perm; [symmetry; apply ids_perm; exact Htr|]. rewrite ids_app, !ids_concat, <- concat_app.
  apply (ranges_owned (map item_range (concat (map setup_work setups)) ++ omap (slice_of slices) new)).
  - apply Forall2_app; [apply spawn_owned; [done|done|rewrite Forall_map in Hnw; exact Hnw]|].
    assert (forall f, f ∈ new -> available slices f) as Hav by (intros; by eapply (rn_available _ _ _ _ _ _ _ Hr)).
    assert (forall r, r ∈ omap (slice_of slices) new -> 0 <= r.2) as Hnn.
    { intros r Hr'. rewrite Forall_forall in Hns. apply Hns. by apply (elem_of_submseteq _ _ _ Hr' Hslots). }
    clear -Hav Hnn ids_owned slot_ok ids_app ids_nil. induction new as [|f new IH]; [constructor|].
    destruct (Hav f ltac:(left)) as [[o l] Hf]. cbn. rewrite Hf. constructor.
    + cbn. apply file_actions_owned; [done|]. apply (Hnn (o, l)). cbn. rewrite Hf. by left.
    + apply IH; [intros; apply Hav; by right|]. intros r Hr. apply Hnn. cbn. rewrite Hf. by right.
  - eapply owned_sub; [|exact Ho]. apply range_ids_sub. by apply submseteq_app.
Qed.
End Distinct.

(** ** The outcome does not depend on the schedule *)
Lemma action_cells_perm l k : l ≡ₚ k -> action_cells l ≡ₚ action_cells k.
Proof. apply concat_map_perm. Qed.

Lemma action_undefined_perm l k : l ≡ₚ k -> action_undefined l ≡ₚ action_undefined k.
Proof. intros H. unfold action_undefined. by apply Permutation_map, concat_map_perm. Qed.

Lemma effects_perm l k d :
  l ≡ₚ k -> NoDup (action_cells l) -> Forall (fun i => 0 <= i) (action_cells l) ->
  foldl (fun d a => effect a d) d l = foldl (fun d a => effect a d) d k.
Proof.
  intros H. revert d. induction H as [|a l k _ IH|a b l|l k m H1 IH1 _ IH2]; intros d Hn Hf; [done| | |].
  - cbn. apply NoDup_app in Hn as (_ & _ & Hn). apply Forall_app in Hf as [_ Hf]. by apply IH.
  - cbn [foldl]. f_equal. apply effects_commute. intros i v j w -> ->. cbn in Hn, Hf.
    apply NoDup_cons in Hn as [Hij _]. rewrite not_elem_of_cons in Hij.
    apply Forall_cons in Hf as [Hi Hf]. apply Forall_cons in Hf as [Hj _]. intros He. apply Hij. lia.
  - rewrite IH1 by done. pose proof (action_cells_perm _ _ H1) as Hp. rewrite Hp in Hn, Hf. by apply IH2.
Qed.

Lemma pushes_perm l k : l ≡ₚ k -> concat (map pushes l) ≡ₚ concat (map pushes k).
Proof. apply concat_map_perm. Qed.

Lemma first_error_some l old : foldl first_error old l = None <-> old = None /\ Forall (fun e => e = None) l.
Proof.
  revert old. induction l as [|e l IH]; intros old; cbn.
  - split; [intros ->; by split|by intros [-> _]].
  - rewrite IH, Forall_cons. destruct old, e; cbn; intuition congruence.
Qed.

(** *** Gathering the loaded files *)
Definition mark_valid (f : FileId) (groups : list (list ResolvedFile)) : bool :=
  match index groups f.1 with
  | Ok files => match index files f.2 with Ok _ => true | _ => false end
  | _ => false
  end.

Definition mark (f : FileId) (groups : list (list ResolvedFile)) : list (list ResolvedFile) :=
  alter (A := list ResolvedFile)
    (alter (A := ResolvedFile) (fun file => Resolved (num_symbols file)) (Z.to_nat f.2)) (Z.to_nat f.1) groups.

Lemma insert_is_alter {A} (l : list A) (i : nat) (f : A -> A) x : l !! i = Some x -> <[i := f x]> l = alter f i l.
Proof.
  intros H. apply list_eq. intros j. rewrite list_lookup_alter. case_decide as E.
  - subst. rewrite H. apply list_lookup_insert_eq. by eapply lookup_lt_Some.
  - by rewrite list_lookup_insert_ne.
Qed.

Lemma mark_loaded_eq f groups : mark_loaded f groups = if mark_valid f groups then Ok (mark f groups) else Panic.
Proof.
  unfold mark_loaded, mark_valid, mark. destruct (index groups f.1) as [files| |] eqn:Eg; cbn; [| |done].
  - destruct (index files f.2) as [file| |] eqn:Ef; cbn; [| |done].
    + apply index_ok in Eg as [_ Eg]. apply index_ok in Ef as [_ Ef]. f_equal.
      rewrite <- (insert_is_alter _ _ _ files) by done. f_equal.
      by apply (insert_is_alter _ _ (fun file => Resolved (num_symbols file))).
    + unfold index in Ef. case_decide; [|done]. by destruct (files !! _).
  - unfold index in Eg. case_decide; [|done]. by destruct (groups !! _).
Qed.

Lemma index_alter {A} (l : list A) (k : nat) (f : A -> A) i :
  index (alter f k l) i = match index l i with Ok x => Ok (if decide (Z.to_nat i = k) then f x else x) | r => r end.
Proof.
  unfold index. case_decide; [|done]. rewrite list_lookup_alter. case_decide; subst.
  - destruct (l !! Z.to_nat i); cbn; [|done]. by rewrite decide_True.
  - destruct (l !! Z.to_nat i); cbn; [|done]. by rewrite decide_False.
Qed.

Lemma mark_valid_mark f g groups : mark_valid f (mark g groups) = mark_valid f groups.
Proof.
  unfold mark_valid, mark. rewrite index_alter. destruct (index groups f.1) as [files| |]; [|done..].
  case_decide; [|done]. rewrite index_alter. by destruct (index files f.2).
Qed.

Lemma mark_commute f g groups : mark f (mark g groups) = mark g (mark f groups).
Proof.
  unfold mark. destruct (decide (Z.to_nat f.1 = Z.to_nat g.1)) as [->|H]; [|by apply list_alter_alter_ne].
  rewrite !list_alter_alter_eq. apply list_alter_ext; [|done]. intros files _. cbn.
  destruct (decide (Z.to_nat f.2 = Z.to_nat g.2)) as [->|H]; [done|by apply list_alter_alter_ne].
Qed.

Lemma mark_all_perm l k groups : l ≡ₚ k -> for_each mark_loaded l groups = for_each mark_loaded k groups.
Proof.
  intros H. revert groups. induction H as [|f l k _ IH|f g l|l k m _ IH1 _ IH2]; intros groups; cbn; [done| | |by rewrite IH1].
  - destruct (mark_loaded f groups); cbn; [apply IH|done..].
  - rewrite !mark_loaded_eq. destruct (mark_valid f groups) eqn:Ef, (mark_valid g groups) eqn:Eg; cbn;
      rewrite ?mark_loaded_eq, ?mark_valid_mark, ?Ef, ?Eg; cbn; try done. by rewrite mark_commute.
Qed.

(** *** Sorting *)
Lemma insert_by_id_perm u l : insert_by_id u l ≡ₚ u :: l.
Proof.
  induction l as [|v l IH]; cbn; [done|]. case_match; [done|]. rewrite IH. apply Permutation_swap.
Qed.

Lemma sort_by_id_perm l : sort_by_id l ≡ₚ l.
Proof.
  induction l as [|u l IH]; [done|]. change (sort_by_id (u :: l)) with (insert_by_id u (sort_by_id l)).
  by rewrite insert_by_id_perm, IH.
Qed.

Lemma insert_by_id_commute u v l :
  undefined_id u <> undefined_id v -> insert_by_id u (insert_by_id v l) = insert_by_id v (insert_by_id u l).
Proof.
  intros Hne. induction l as [|w l IH]; cbn.
  - destruct (Z.leb_spec (undefined_id v) (undefined_id u)), (Z.leb_spec (undefined_id u) (undefined_id v)); (lia || done).
  - destruct (Z.leb_spec (undefined_id w) (undefined_id v)), (Z.leb_spec (undefined_id w) (undefined_id u)); cbn;
      repeat match goal with |- context [?a <=? ?b] => destruct (Z.leb_spec a b); try lia end; try done.
    by rewrite IH.
Qed.

Lemma sort_by_id_unique l k : l ≡ₚ k -> NoDup (map undefined_id l) -> sort_by_id l = sort_by_id k.
Proof.
  intros H. induction H as [|u l k _ IH|u v l|l k m H1 IH1 _ IH2]; intros Hn; [done| | |].
  - apply NoDup_cons in Hn as [_ Hn]. unfold sort_by_id in *. cbn. by rewrite IH.
  - cbn in *. apply insert_by_id_commute. apply NoDup_cons in Hn as [Hn _]. rewrite not_elem_of_cons in Hn. by destruct Hn.
  - rewrite IH1 by done. apply IH2. by rewrite <- H1.
Qed.

Definition descending (l : list UndefinedSymbol) : Prop :=
  StronglySorted (fun u v => undefined_id v <= undefined_id u) l.

Lemma insert_by_id_sorted u l : descending l -> descending (insert_by_id u l).
Proof.
  induction 1 as [|v l Hl IH Hv]; cbn; [by repeat constructor|]. destruct (Z.leb_spec (undefined_id v) (undefined_id u)).
  - constructor; [by constructor|]. constructor; [done|]. eapply Forall_impl; [exact Hv|]. cbn. lia.
  - constructor; [done|]. rewrite insert_by_id_perm. constructor; [lia|done].
Qed.

Lemma sort_by_id_sorted l : descending (sort_by_id l).
Proof. induction l as [|u l IH]; cbn; [constructor|by apply insert_by_id_sorted]. Qed.

(** ** One symbol for every undefined name *)
Section Agreement.
Context (hash_bytes : list Z -> Z).
Context (final_tables : Tables) (groups : list (list ResolvedFile)) (syn_file_id : FileId).
Context (custom_by_identity : gmap (list Z) Z) (output_kind : OutputKind).

(** Flags apart, nothing changed. *)
Definition only_flags (s s' : CanonState) : Prop :=
  name_to_id s' = name_to_id s /\ c_definitions s' = c_definitions s.

Lemma set_flag_only id bits s s' : set_flag id bits s = Ok s' -> only_flags s s'.
Proof. unfold set_flag. destruct (index_update _ _ _); cbn; [|done..]. by intros [= <-]. Qed.

Lemma apply_visibility_only id v s s' : apply_visibility_to_definition id v s = Ok s' -> only_flags s s'.
Proof.
  destruct v; cbn; [by intros [= <-]| |apply set_flag_only].
  destruct (index _ id) as [f| |]; cbn; [|done..]. destruct (contains f DYNAMIC); [by intros [= <-]|apply set_flag_only].
Qed.

Lemma restrict_definition_only name v s s' : restrict_definition hash_bytes name v s = Ok s' -> only_flags s s'.
Proof.
  unfold restrict_definition. destruct v; [by intros [= <-]|..];
    (destruct (get_unversioned _ _ _) as [[id|]| |]; cbn [mbind res_bind]; [|by intros [= <-]|done..];
     destruct (definition _ id); cbn [mbind res_bind]; [apply apply_visibility_only|done..]).
Qed.

Lemma flag_undefined_only name id s s' :
  flag_undefined hash_bytes final_tables output_kind name id s = Ok s' -> only_flags s s'.
Proof.
  unfold flag_undefined. destruct (input_symbol_visibility _ _) as [v| |]; cbn; [|done..].
  match goal with |- context [mbind _ ?m] => destruct m as [dynamic| |] end; cbn; [|done..].
  destruct (set_flag _ _ _) as [s1| |] eqn:E; cbn; [|done..]. apply set_flag_only in E as [E1 E2].
  intros [H1 H2]%restrict_definition_only. split; congruence.
Qed.

Lemma allocate_cases name s o s' :
  allocate_start_stop_symbol_id hash_bytes syn_file_id custom_by_identity name s = Ok (o, s') ->
  name_to_id s' = name_to_id s /\
  match o with
  | None => c_definitions s' = c_definitions s
  | Some id => id = Z.of_nat (length (c_definitions s)) /\ c_definitions s' = c_definitions s ++ [id]
  end.
Proof.
  unfold allocate_start_stop_symbol_id. destruct (start_stop_name name) as [[section is_start]|]; [|by intros [= <- <-]].
  destruct (custom_by_identity !! section); [|by intros [= <- <-]]. unfold add_synthetic_symbol.
  destruct (index_update _ _ _); cbn; [|done..]. by intros [= <- <-].
Qed.

Definition reference_to (name : list Z) (u : UndefinedSymbol) : Prop :=
  undefined_name u = Unversioned name /\ defined_after_all groups u = Ok false.

Record canon_inv (n : Z) (seen : list UndefinedSymbol) (s : CanonState) : Prop := {
  ci_length : n <= Z.of_nat (length (c_definitions s));
  ci_self name e : name_to_id s !! name = Some e -> index (c_definitions s) e = Ok e;
  ci_seen name u : u ∈ seen -> reference_to name u ->
    exists e, name_to_id s !! name = Some e /\ index (c_definitions s) (undefined_id u) = Ok e;
  ci_entry name e : name_to_id s !! name = Some e ->
    n <= e \/ exists u, u ∈ seen /\ undefined_id u = e /\ reference_to name u;
  ci_last name e u : name_to_id s !! name = Some e -> u ∈ seen -> reference_to name u -> undefined_id u <= e
}.

Lemma replace_at id new s s' : replace_definition id new s = Ok s' ->
  name_to_id s' = name_to_id s /\ length (c_definitions s') = length (c_definitions s) /\
  index (c_definitions s') id = Ok new /\
  forall j, j <> id -> index (c_definitions s') j = index (c_definitions s) j.
Proof.
  unfold replace_definition. destruct (index_update _ _ _) as [d| |] eqn:E; cbn; [|done..]. intros [= <-].
  by destruct (index_update_ok _ _ _ _ E) as (x & Hx & Hlen & Hi & Hj).
Qed.

(** Pointing a new reference to [e]. *)
Lemma canon_point n seen s name e u s' :
  canon_inv n seen s -> 0 <= undefined_id u < n ->
  (forall v, v ∈ seen -> undefined_id u < undefined_id v) ->
  reference_to name u ->
  (name_to_id s !! name = Some e \/ name_to_id s !! name = None /\
     (e = undefined_id u \/ n <= e /\ index (c_definitions s) e = Ok e)) ->
  replace_definition (undefined_id u) e (enter_name name e s) = Ok s' -> canon_inv n (seen ++ [u]) s'.
Proof.
  intros [Hl Hself Hseen Hentry Hlast] Hu Hbelow Href He Hr.
  assert (forall v, v ∈ seen -> undefined_id v <> undefined_id u) as Hnew by (intros v Hv; apply Hbelow in Hv; lia).
  apply replace_at in Hr as (Hn' & Hl' & Hat & Hother).
  cbn in Hn', Hl', Hother.
  assert (forall name' e', name_to_id s !! name' = Some e' -> e' <> undefined_id u) as Hne.
  { intros name' e' H. destruct (Hentry _ _ H) as [?|(v & Hv & <- & _)]; [lia|by apply Hnew]. }
  assert (name_to_id s' = <[name := e]> (name_to_id s)) as Hmap by done.
  assert (index (c_definitions s') e = Ok e) as Hee.
  { destruct (decide (e = undefined_id u)) as [->|Hn]; [done|]. rewrite Hother by done.
    destruct He as [He|[_ [?|[_ He]]]]; [by eapply Hself|done|done]. }
  split.
  - lia.
  - intros name' e'. rewrite Hmap. destruct (decide (name' = name)) as [->|Hnn].
    + rewrite lookup_insert_eq. by intros [= <-].
    + rewrite lookup_insert_ne by done. intros H. rewrite Hother by (by eapply Hne). by eapply Hself.
  - intros name' v [Hv|Hv]%elem_of_app Hrv.
    + destruct (Hseen _ _ Hv Hrv) as (e' & H1 & H2). exists e'. split.
      * rewrite Hmap. destruct (decide (name' = name)) as [->|Hnn]; [|by rewrite lookup_insert_ne].
        rewrite lookup_insert_eq. destruct He as [He|[He _]]; congruence.
      * rewrite Hother; [done|by apply Hnew].
    + apply list_elem_of_singleton in Hv as ->. exists e. split; [|done].
      destruct Href as [Hn1 _], Hrv as [Hn2 _]. rewrite Hn1 in Hn2. injection Hn2 as <-. rewrite Hmap. apply lookup_insert_eq.
  - intros name' e'. rewrite Hmap. destruct (decide (name' = name)) as [->|Hnn].
    + rewrite lookup_insert_eq. intros [= <-]. destruct He as [He|[_ [->|[? _]]]]; [| |by left].
      * destruct (Hentry _ _ He) as [?|(v & Hv & H)]; [by left|right]. exists v. split; [|done]. apply elem_of_app. by left.
      * right. exists u. split; [|done]. apply elem_of_app. right. by apply list_elem_of_singleton.
    + rewrite lookup_insert_ne by done. intros H.
      destruct (Hentry _ _ H) as [?|(v & Hv & Hv')]; [by left|right]. exists v. split; [|done]. apply elem_of_app. by left.
  - intros name' e' v. rewrite Hmap. intros He' [Hv|Hv%list_elem_of_singleton]%elem_of_app Hrv; [|subst v].
    + destruct (Hseen _ _ Hv Hrv) as (e2 & He2 & _). destruct (decide (name' = name)) as [->|Hnn].
      * rewrite lookup_insert_eq in He'. injection He' as <-. destruct He as [He|[He _]]; [by eapply Hlast|congruence].
      * rewrite lookup_insert_ne in He' by done. by eapply Hlast.
    + destruct Href as [Hn1 _], Hrv as [Hn2 _]. rewrite Hn1 in Hn2. injection Hn2 as <-.
      rewrite lookup_insert_eq in He'. injection He' as <-. destruct He as [He|[_ [->|[? _]]]]; [|lia|lia].
      destruct (Hentry _ _ He) as [?|(w & Hw & <- & _)]; [lia|]. apply Hbelow in Hw. lia.
Qed.

(** Something that is no reference to an unversioned name. *)
Lemma canon_skip n seen s u s' :
  canon_inv n seen s -> (forall name, ~ reference_to name u) ->
  name_to_id s' = name_to_id s -> length (c_definitions s') = length (c_definitions s) ->
  (forall j, (exists name, name_to_id s !! name = Some j) \/ j ∈ map undefined_id seen ->
     index (c_definitions s') j = index (c_definitions s) j) ->
  canon_inv n (seen ++ [u]) s'.
Proof.
  intros [Hl Hself Hseen Hentry Hlast] Hno Hn Hlen Hkeep. split; rewrite ?Hlen, ?Hn; [done| | | |].
  - intros name e H. rewrite Hkeep by (left; by exists name). by eapply Hself.
  - intros name v [Hv|Hv]%elem_of_app Hr; [|apply list_elem_of_singleton in Hv as ->; by destruct (Hno name)].
    destruct (Hseen _ _ Hv Hr) as (e & H1 & H2). exists e. split; [done|]. rewrite Hkeep; [done|].
    right. apply list_elem_of_fmap. by exists v.
  - intros name e H. destruct (Hentry _ _ H) as [?|(v & Hv & Hv')]; [by left|right]. exists v. split; [|done].
    apply elem_of_app. by left.
  - intros name e v He [Hv|Hv%list_elem_of_singleton]%elem_of_app Hr; [by eapply Hlast|]. subst v. by destruct (Hno name).
Qed.

Lemma only_flags_inv n seen s s' : only_flags s s' -> canon_inv n seen s -> canon_inv n seen s'.
Proof. intros [Hn Hd] [H1 H2 H3 H4 H5]. split; rewrite ?Hd, ?Hn; try done. Qed.

Lemma canonicalise_one_inv n seen s u s' :
  canonicalise_one hash_bytes final_tables groups syn_file_id custom_by_identity output_kind u s = Ok s' ->
  canon_inv n seen s -> 0 <= undefined_id u < n -> (forall v, v ∈ seen -> undefined_id u < undefined_id v) ->
  canon_inv n (seen ++ [u]) s'.
Proof.
  intros H Hi Hu Hbelow.
  assert (forall v, v ∈ seen -> undefined_id v <> undefined_id u) as Hnew by (intros v Hv; apply Hbelow in Hv; lia).
  unfold canonicalise_one in H.
  destruct (defined_after_all groups u) as [[|]| |] eqn:Ed; cbn in H; [|..|done|done].
  { injection H as <-. eapply canon_skip; [exact Hi| |done..]. intros name [_ Hr]. congruence. }
  destruct (undefined_name u) as [name|name] eqn:En.
  - assert (reference_to name u) as Href by done. unfold canonicalise_unversioned in H.
    destruct (name_to_id s !! name) as [entry|] eqn:Ee.
    + unfold definition in H. rewrite (ci_self _ _ _ Hi _ _ Ee) in H. cbn in H. rewrite (ci_self _ _ _ Hi _ _ Ee) in H. cbn in H.
      destruct (replace_definition _ _ _) as [s1| |] eqn:Er; cbn in H; [|done..].
      destruct (input_symbol_visibility _ _) as [v| |]; cbn in H; [|done..].
      apply restrict_definition_only in H. eapply only_flags_inv; [exact H|].
      eapply (canon_point n seen s name entry); [exact Hi|done|exact Hbelow|done|by left|].
      unfold replace_definition in Er |- *. cbn.
      destruct (index_update _ _ _); cbn in Er |- *; [|done..]. injection Er as <-. f_equal.
      unfold set_c_definitions, enter_name. cbn. by rewrite insert_id.
    + destruct (allocate_start_stop_symbol_id _ _ _ _ _) as [[o s1]| |] eqn:Ea; cbn in H; [|done..].
      apply allocate_cases in Ea as [Hn1 Ho]. destruct o as [id|]; cbn in H.
      * destruct Ho as [-> Hd]. eapply (canon_point n seen s1 name _); [| |exact Hbelow|done|right|exact H]; [|done|].
        -- destruct Hi as [H1 H2 H3 H4 H5]. split; rewrite ?Hd, ?Hn1, ?length_app; [lia| | |done|done].
           ++ intros name' e He. apply H2 in He as Hx. apply index_ok in Hx as [Hx Hx'].
              unfold index. rewrite decide_True by done. by rewrite lookup_app_l, Hx' by (by eapply lookup_lt_Some).
           ++ intros name' v Hv Hr. destruct (H3 _ _ Hv Hr) as (e & He & Hx). exists e. split; [done|].
              apply index_ok in Hx as [Hx Hx']. unfold index. rewrite decide_True by done.
              by rewrite lookup_app_l, Hx' by (by eapply lookup_lt_Some).
        -- split; [congruence|]. right. split; [by apply Hi|]. rewrite Hd. unfold index. rewrite decide_True by lia.
           by rewrite Nat2Z.id, lookup_app_r, Nat.sub_diag by lia.
      * destruct (flag_undefined _ _ _ _ _ _) as [s2| |] eqn:Ef; cbn in H; [|done..].
        apply flag_undefined_only in Ef as [Hn2 Hd2].
        eapply (canon_point n seen s2 name _); [|done|exact Hbelow|done|right|exact H].
        -- eapply (only_flags_inv _ _ s); [split; congruence|done].
        -- split; [congruence|by left].
  - unfold canonicalise_versioned in H. destruct (versioned_name_to_id s !! name) as [entry|].
    + apply replace_at in H as (Hn' & Hl' & _ & Hother). eapply canon_skip; [exact Hi| |done..|].
      { intros name' [Hr _]. congruence. }
      intros j [[name' He]|Hj]; apply Hother.
      * destruct (ci_entry _ _ _ Hi _ _ He) as [?|(v & Hv & <- & _)]; [lia|by apply Hnew].
      * apply list_elem_of_fmap in Hj as (v & -> & Hv). by apply Hnew.
    + injection H as <-. eapply canon_skip; [exact Hi| |done..]. intros name' [Hr _]. congruence.
Qed.

Lemma canonicalise_all_inv n l : forall seen s s',
  for_each (canonicalise_one hash_bytes final_tables groups syn_file_id custom_by_identity output_kind) l s = Ok s' ->
  canon_inv n seen s -> Forall (fun u => 0 <= undefined_id u < n) l ->
  StronglySorted (fun u v => undefined_id v < undefined_id u) l ->
  (forall u v, u ∈ seen -> v ∈ l -> undefined_id v < undefined_id u) ->
  canon_inv n (seen ++ l) s'.
Proof.
  induction l as [|u l IH]; intros seen s s'; cbn; [intros [= <-]; by rewrite app_nil_r|].
  destruct (canonicalise_one _ _ _ _ _ _ u s) as [s1| |] eqn:E; cbn; [|done..].
  intros H Hi [Hu Hl]%Forall_cons [Hs Hf]%StronglySorted_inv Hbelow.
  replace (seen ++ u :: l) with ((seen ++ [u]) ++ l) by (by rewrite <- app_assoc).
  apply (IH _ s1); [done| |done|done|].
  - eapply canonicalise_one_inv; [exact E|done|done|]. intros v Hv. apply Hbelow; [done|by left].
  - rewrite Forall_forall in Hf. intros v w [Hv|Hv%list_elem_of_singleton]%elem_of_app Hw; [|subst v; by apply Hf].
    apply Hbelow; [done|by right].
Qed.
End Agreement.

Lemma descending_strict l : descending l -> NoDup (map undefined_id l) ->
  StronglySorted (fun u v => undefined_id v < undefined_id u) l.
Proof.
  induction 1 as [|u l Hl IH Hu]; [constructor|]. intros [Hn Hd]%NoDup_cons. constructor; [by apply IH|].
  rewrite Forall_forall in Hu |- *. intros v Hv. pose proof (Hu v Hv). cbn in *.
  assert (undefined_id u <> undefined_id v); [|lia]. intros E. apply Hn. rewrite E. apply list_elem_of_fmap. by exists v.
Qed.

(** ** Any two schedules *)
Section Schedules.
Context (link : LinkInput) (resolver : Resolver) (setups : list GroupSetup) (defs0 flags0 : list Z) (s0 : TaskState).
Context (Hsetup : link_setup link resolver defs0 = Ok setups).
Context (Hinit : initial_tasks link setups defs0 flags0 = Ok s0).
Local Abbreviation slices := (take_slices setups).

Lemma initial_state :
  taken s0 = [] /\ loaded s0 = concat (map setup_loaded setups) /\ definitions s0 = defs0 /\ flags s0 = flags0 /\
  undefined s0 = [] /\ error s0 = None.
Proof. clear Hsetup. by apply initial_tasks_ok in Hinit as (ts & _ & -> & _). Qed.

(** The outcome of a complete run, as far as it is the same for all. *)
Record outcome_of (s : TaskState) (trace : list action) : Prop := {
  oc_data : (definitions s, flags s) = foldl (fun d a => effect a d) (defs0, flags0) trace;
  oc_undefined : undefined s = concat (map pushes trace);
  oc_error : error s = None <-> Forall (fun a => failure a = None) trace;
  oc_loaded : loaded s = concat (map setup_loaded setups) ++ concat (map (pushed link slices defs0) (taken s));
  oc_taken f : f ∈ taken s <-> needed link slices defs0 (concat (tasks s0)) f;
  oc_once : NoDup (taken s);
  oc_trace : trace ≡ₚ concat (tasks s0) ++ concat (map (file_actions link slices defs0) (taken s));
  oc_cells : exists hi, owned (action_cells trace) 0 hi
}.

Lemma complete_outcome trace s : run link slices defs0 s0 trace s -> complete s -> outcome_of s trace.
Proof.
  intros Hrun Hc. destruct initial_state as (Ht & Hl & Hd & Hf & Hu & He).
  destruct (complete_needed _ _ _ _ _ _ Hrun Ht Hc) as (Hnd & Hneed & Htr).
  pose proof (run_ran _ _ _ _ _ _ Hrun) as [new Hr].
  pose proof (rn_taken _ _ _ _ _ _ _ Hr) as Htaken. rewrite Ht in Htaken. cbn in Htaken. subst new. split; try done.
  - by rewrite (rn_data _ _ _ _ _ _ _ Hr), Hd, Hf.
  - by rewrite (rn_undefined _ _ _ _ _ _ _ Hr), Hu.
  - rewrite (rn_error _ _ _ _ _ _ _ Hr), first_error_some, He, Forall_map. by intuition.
  - by rewrite (rn_loaded _ _ _ _ _ _ _ Hr), Hl.
  - eapply (run_ids_owned link setups defs0 action_cells (fun _ => True)); try done.
    + apply action_cells_app.
    + apply action_cells_perm.
    + intros item acts _ Hp Hlen. by destruct (process_object_owned _ _ _ _ Hp Hlen).
    + intros. by apply Forall_forall.
    + by apply Forall_forall.
Qed.

Context (trace1 trace2 : list action) (s1 s2 : TaskState).
Context (H1 : outcome_of s1 trace1) (H2 : outcome_of s2 trace2).

Lemma outcomes_taken : taken s1 ≡ₚ taken s2.
Proof.
  apply NoDup_Permutation; [by eapply oc_once..|]. intros f. by rewrite (oc_taken _ _ H1), (oc_taken _ _ H2).
Qed.

Lemma outcomes_trace : trace1 ≡ₚ trace2.
Proof. rewrite (oc_trace _ _ H1), (oc_trace _ _ H2). apply Permutation_app_head, concat_map_perm, outcomes_taken. Qed.

Lemma outcomes_data : definitions s1 = definitions s2 /\ flags s1 = flags s2.
Proof.
  destruct (oc_cells _ _ H1) as [hi [Hn Hf]].
  assert ((definitions s1, flags s1) = (definitions s2, flags s2)) as H; [|by injection H as -> ->].
  rewrite (oc_data _ _ H1), (oc_data _ _ H2). apply effects_perm; [apply outcomes_trace|done|].
  eapply Forall_impl; [exact Hf|]. cbn. lia.
Qed.

Lemma outcomes_undefined : undefined s1 ≡ₚ undefined s2.
Proof. rewrite (oc_undefined _ _ H1), (oc_undefined _ _ H2). apply pushes_perm, outcomes_trace. Qed.

Lemma outcomes_error : error s1 = None <-> error s2 = None.
Proof. by rewrite (oc_error _ _ H1), (oc_error _ _ H2), outcomes_trace. Qed.

Lemma outcomes_loaded : loaded s1 ≡ₚ loaded s2.
Proof.
  rewrite (oc_loaded _ _ H1), (oc_loaded _ _ H2). apply Permutation_app_head, concat_map_perm, outcomes_taken.
Qed.
End Schedules.

(** Equal but for the order of the undefined symbols, or both failed. *)
Definition same_result (r1 r2 : res Resolver) : Prop :=
  match r1, r2 with
  | Ok r1, Ok r2 => resolved_groups r1 = resolved_groups r2 /\ undefined_symbols r1 ≡ₚ undefined_symbols r2
  | Err _, Err _ | Panic, Panic => True
  | _, _ => False
  end.

Lemma gather_same resolver setups s1 s2 :
  loaded s1 ≡ₚ loaded s2 -> undefined s1 ≡ₚ undefined s2 -> (error s1 = None <-> error s2 = None) ->
  same_result (gather resolver setups s1) (gather resolver setups s2).
Proof.
  intros Hl Hu He. unfold gather.
  destruct (error s1), (error s2); [done|discriminate (proj2 He eq_refl)|discriminate (proj1 He eq_refl)|].
  rewrite (mark_all_perm _ _ _ Hl). destruct (for_each _ _ _); cbn; [|done..]. split; [done|]. by rewrite Hu.
Qed.

(** The symbols of every object are numbered by their place in the table of definitions. *)
Definition numbered_slot (link : LinkInput) (f : FileId) (slice : Z * Z) : Prop :=
  forall objects obj, index (input_groups link) f.1 = Ok (ObjectFiles objects) -> index objects f.2 = Ok obj ->
    symbol_id_start obj = slice.1 /\ 0 <= slice.1 /\ slice.1 + slice.2 <= 2 ^ 32.

Definition numbered (link : LinkInput) (setups : list GroupSetup) : Prop :=
  Forall (numbered_item link) (concat (map setup_work setups)) /\
  Forall (fun f => match slice_of (take_slices setups) f with Some slice => numbered_slot link f slice | None => True end)
    (all_slots (take_slices setups)).

Lemma numbered_undefined link resolver setups defs0 flags0 s0 trace s :
  link_setup link resolver defs0 = Ok setups -> initial_tasks link setups defs0 flags0 = Ok s0 ->
  run link (take_slices setups) defs0 s0 trace s -> complete s -> numbered link setups ->
  NoDup (map undefined_id (undefined s)).
Proof.
  intros Hsetup Hinit Hrun Hc [Hw Hs].
  pose proof (complete_outcome _ _ _ _ _ _ Hsetup Hinit _ _ Hrun Hc) as Ho. rewrite (oc_undefined _ _ _ _ _ _ _ Ho).
  eapply (run_ids_owned link setups defs0 action_undefined (numbered_item link)) in Hrun as (hi & Hn & _);
    [exact Hn|..]; try done.
  - apply action_undefined_app.
  - apply action_undefined_perm.
  - intros item acts Hok Hp Hlen. destruct (process_object_owned _ _ _ _ Hp Hlen) as [_ H]. by apply H.
  - intros f o l b items Hf Hi Hl. pose proof (work_items_tile _ _ _ _ _ _ Hi Hl) as [_ Htile].
    eapply Forall_impl; [exact Htile|]. intros item (Hlen & Hfile & Hdiff & Hlo & Hhi) objects obj Hg Hobj.
    rewrite Hfile in Hg, Hobj. rewrite Forall_forall in Hs.
    specialize (Hs f). rewrite Hf in Hs. destruct (Hs ltac:(apply available_slot; by eexists) _ _ Hg Hobj) as (E1 & E2 & E3).
    cbn in E1, E2, E3. split_and!; lia.
Qed.

(** ** The loaded files of a link *)
Lemma index_file_mark f g groups x :
  0 <= g.1 -> 0 <= g.2 -> index_file groups f = Ok x ->
  index_file (mark g groups) f = Ok (if decide (f = g) then Resolved (num_symbols x) else x).
Proof.
  intros H1 H2. unfold index_file, mark. rewrite index_alter. destruct (index groups f.1) as [files| |] eqn:E1; cbn; [|done..].
  intros E2. apply index_ok in E1 as [Hf1 _]. pose proof E2 as [Hf2 _]%index_ok. destruct f as [f1 f2], g as [g1 g2]. cbn in *.
  destruct (decide (Z.to_nat f1 = Z.to_nat g1)) as [Eq1|Hne]; cbn.
  - rewrite index_alter, E2. destruct (decide (Z.to_nat f2 = Z.to_nat g2)) as [Eq2|Hne2].
    + rewrite decide_True; [done|]. f_equal; lia.
    + rewrite decide_False; [done|]. intros [= -> ->]. done.
  - rewrite E2. rewrite decide_False; [done|]. intros [= -> ->]. done.
Qed.

Lemma marked l : forall groups groups' f x,
  for_each mark_loaded l groups = Ok groups' -> index_file groups f = Ok x ->
  index_file groups' f = Ok (if decide (f ∈ l) then Resolved (num_symbols x) else x).
Proof.
  induction l as [|g l IH]; intros groups groups' f x; cbn; [by intros [= <-]|].
  rewrite mark_loaded_eq. destruct (mark_valid g groups) eqn:Ev; cbn; [|done]. intros Hl Hx.
  assert (0 <= g.1 /\ 0 <= g.2) as [Hg1 Hg2].
  { unfold mark_valid in Ev. destruct (index groups g.1) as [files| |] eqn:E1; [|done..].
    destruct (index files g.2) eqn:E2; [|done..]. apply index_ok in E1 as [? _]. apply index_ok in E2 as [? _]. done. }
  rewrite (IH _ _ f _ Hl (index_file_mark f g groups x Hg1 Hg2 Hx)).
  destruct (decide (f ∈ l)) as [Hfl|Hfl].
  - rewrite (decide_True (P := f ∈ g :: l)) by (by right). by case_decide.
  - destruct (decide (f = g)) as [->|Hne]; [by rewrite (decide_True (P := g ∈ g :: l)) by left|].
    rewrite decide_False; [done|]. by intros [?|?]%elem_of_cons.
Qed.

(** A file whose slot is not yet taken is not loaded; [f0] is the number of its first file. *)
Record slots_open (g f0 : Z) (s : GroupSetup) : Prop := {
  so_open i slice : definitions_per_file s !! i = Some (Some slice) -> exists n, setup_files s !! i = Some (NotLoaded n);
  so_loaded f : f ∈ setup_loaded s -> f.1 = g /\ exists i, f.2 = f0 + Z.of_nat i /\ definitions_per_file s !! i = Some None
}.

Lemma slots_open_empty g f0 : slots_open g f0 empty_setup.
Proof. split; [done|]. by intros f ?%elem_of_nil. Qed.

Lemma slots_open_add g f0 file slot work new s :
  slots_open g (f0 + 1) s -> (forall slice, slot = Some slice -> exists n, file = NotLoaded n) ->
  (new = [] \/ new = [(g, f0)] /\ slot = None) -> slots_open g f0 (add_file file slot work new s).
Proof.
  intros [Ho Hl] Hslot Hnew. split.
  - intros [|i] slice; cbn; [|apply Ho]. intros [= ->]. destruct (Hslot _ eq_refl) as [n ->]. by exists n.
  - intros f [Hf|Hf]%elem_of_app.
    + destruct Hnew as [->|[-> ->]]; [by apply elem_of_nil in Hf|]. apply list_elem_of_singleton in Hf as ->.
      split; [done|]. exists 0%nat. split; [cbn; lia|done].
    + apply Hl in Hf as (Hg & i & Hi & Hd). split; [done|]. exists (S i). split; [lia|done].
Qed.

Section SlotsOpen.
Context (groups : list InputGroup) (total : Z).

Lemma setup_objects_open g objects : forall f p s p',
  setup_objects groups total g f objects p = Ok (s, p') -> slots_open g f s.
Proof.
  induction objects as [|obj objects IH]; intros f p s p'; cbn; [intros [= <- <-]; apply slots_open_empty|].
  destruct (split_off _ _ _) as [[slice q]| |]; cbn; [|done..]. destruct (is_optional obj).
  - destruct (setup_objects _ _ _ _ _ _) as [[rest r]| |] eqn:Er; cbn; [|done..]. intros [= <- <-].
    apply slots_open_add; [by eapply IH|by eexists|by left].
  - destruct (work_items_do _ _ _) as [[b work]| |]; cbn; [|done..].
    destruct (setup_objects _ _ _ _ _ _) as [[rest r]| |] eqn:Er; cbn; [|done..]. intros [= <- <-].
    apply slots_open_add; [by eapply IH|done|by right].
Qed.

Lemma setup_stubs_open g stubs : forall f p s p', setup_stubs total stubs p = Ok (s, p') -> slots_open g f s.
Proof.
  induction stubs as [|n stubs IH]; intros f p s p'; cbn; [intros [= <- <-]; apply slots_open_empty|].
  destruct (split_off _ _ _) as [[slice q]| |]; cbn; [|done..].
  destruct (setup_stubs _ _ _) as [[rest r]| |] eqn:Er; cbn; [|done..]. intros [= <- <-].
  apply slots_open_add; [by eapply IH|done|by left].
Qed.

Lemma setup_scripts_open g scripts : forall f p s p', setup_scripts total g f scripts p = Ok (s, p') -> slots_open g f s.
Proof.
  induction scripts as [|defs scripts IH]; intros f p s p'; cbn; [intros [= <- <-]; apply slots_open_empty|].
  destruct (split_off _ _ _) as [[slice q]| |]; cbn; [|done..].
  destruct (setup_scripts _ _ _ _ _) as [[rest r]| |] eqn:Er; cbn; [|done..]. intros [= <- <-].
  apply slots_open_add; [by eapply IH|done|by left].
Qed.

Lemma resolve_group_open g group p s p' : resolve_group groups total g group p = Ok (s, p') -> slots_open g 0 s.
Proof.
  destruct group as [defs|objects|stubs|scripts|n]; cbn;
    [|apply setup_objects_open|apply setup_stubs_open|apply setup_scripts_open|].
  - destruct (split_off _ _ _) as [[slice q]| |]; cbn; [|done..].
    destruct (work_items_do _ _ _) as [[b work]| |]; cbn; [|done..]. intros [= <- <-].
    apply slots_open_add; [apply slots_open_empty|done|by left].
  - destruct (split_off _ _ _) as [[slice q]| |]; cbn; [|done..]. intros [= <- <-].
    apply slots_open_add; [apply slots_open_empty|done|by left].
Qed.

Lemma setup_resolved_open files : forall p takes p',
  setup_resolved total files p = Ok (takes, p') -> forall g f, slots_open g f (mkSetup files takes [] []).
Proof.
  induction files as [|file files IH]; intros p takes p'; cbn; [intros [= <- <-] g f; apply slots_open_empty|].
  destruct (split_off _ _ _) as [[slice q]| |]; cbn; [|done..].
  destruct (setup_resolved _ _ _) as [[rest r]| |] eqn:Er; cbn; [|done..]. intros [= <- <-] g f.
  apply (slots_open_add g f file _ [] [] _ (IH _ _ _ Er g (f + 1))); [|by left].
  intros slice'. destruct file; [by eexists|done].
Qed.

Lemma setup_groups_open existing new_groups : forall g p setups,
  setup_groups groups total g existing new_groups p = Ok setups ->
  forall k s, setups !! k = Some s -> slots_open (g + Z.of_nat k) 0 s.
Proof.
  induction existing as [|files existing IH]; intros g p setups; cbn.
  - revert g p setups. induction new_groups as [|group new_groups IHn]; intros g p setups; [by intros [= <-]|].
    destruct (resolve_group _ _ _ _ _) as [[s q]| |] eqn:Es; cbn; [|done..].
    match goal with |- context [mbind _ ?m] => destruct m as [rest| |] eqn:Er end; cbn; [|done..]. intros [= <-] [|k] s'; cbn.
    + intros [= <-]. rewrite Z.add_0_r. by eapply resolve_group_open.
    + intros Hk. replace (g + Z.of_nat (S k)) with (g + 1 + Z.of_nat k) by lia. by eapply IHn.
  - destruct (setup_resolved _ _ _) as [[takes q]| |] eqn:Et; cbn; [|done..].
    destruct (setup_groups _ _ _ _ _ _) as [rest| |] eqn:Er; cbn; [|done..]. intros [= <-] [|k] s'; cbn.
    + intros [= <-]. by eapply setup_resolved_open.
    + intros Hk. replace (g + Z.of_nat (S k)) with (g + 1 + Z.of_nat k) by lia. by eapply IH.
Qed.
End SlotsOpen.

Lemma slot_not_loaded link resolver defs setups f slice :
  link_setup link resolver defs = Ok setups -> slice_of (take_slices setups) f = Some slice ->
  (exists n, index_file (map setup_files setups) f = Ok (NotLoaded n)) /\ (f ∉ concat (map setup_loaded setups)).
Proof.
  unfold link_setup. case_match; [done|]. intros Hsetup. pose proof (setup_groups_open _ _ _ _ _ _ _ Hsetup) as Hs.
  clear Hsetup. unfold slice_of, index_file, take_slices.
  destruct (index (map _ setups) f.1) as [takes| |] eqn:Eg; [|done..]. apply index_ok in Eg as [Hf1 Eg].
  rewrite list_lookup_fmap in Eg. destruct (setups !! Z.to_nat f.1) as [s|] eqn:Es; [|done]. injection Eg as <-.
  destruct (Hs _ _ Es) as [Ho Hl]. destruct (index _ f.2) as [o| |] eqn:Ef; [|done..]. apply index_ok in Ef as [Hf2 Ef].
  intros ->. split.
  - destruct (Ho _ _ Ef) as [n Hn]. exists n. unfold index. rewrite !decide_True by done.
    rewrite list_lookup_fmap, Es. cbn. by rewrite decide_True, Hn.
  - intros (s' & Hs' & Hf)%elem_of_concat_map. apply list_elem_of_lookup in Hs' as [k Hk].
    destruct (so_loaded _ _ _ (Hs _ _ Hk) _ Hf) as (Hg & i & Hi & Hd). cbn in Hg, Hi.
    assert (k = Z.to_nat f.1) as -> by lia. assert (i = Z.to_nat f.2) as -> by lia. congruence.
Qed.

Lemma pushed_object link slices defs0 f objects :
  is_Ok (file_tasks link slices defs0 f) -> available slices f ->
  index (input_groups link) f.1 = Ok (ObjectFiles objects) -> pushed link slices defs0 f = [f].
Proof.
  intros [[b ts] Hts] [slice Hslice] Hg. unfold pushed. rewrite Hts. unfold file_tasks in Hts. rewrite Hslice in Hts.
  unfold work_items_do in Hts. rewrite Hg in Hts. cbn in Hts. destruct slice as [o l].
  destruct (index objects f.2); cbn in Hts; [|done..]. destruct (spawn _ _ _); cbn in Hts; [|done..]. by injection Hts as <- <-.
Qed.

Lemma elem_of_pushed link slices defs0 f g : f ∈ pushed link slices defs0 g -> f = g.
Proof.
  unfold pushed. destruct (file_tasks _ _ _ g) as [[[|] ts]| |]; try (by intros ?%elem_of_nil).
  by intros ->%list_elem_of_singleton.
Qed.

(** ** Completing a run *)
Lemma run_app link slices defs0 s trace s1 trace' s2 :
  run link slices defs0 s trace s1 -> run link slices defs0 s1 trace' s2 -> run link slices defs0 s (trace ++ trace') s2.
Proof. induction 1; [done|]. intros. econstructor; eauto. Qed.

Section Completion.
Context (link : LinkInput) (slices : list (list (option (Z * Z)))) (defs0 : list Z) (nd nf : nat).
Context (Hfiles : Forall (fun f => safe_actions link slices defs0 nd nf (file_actions link slices defs0 f)) (all_slots slices)).
Context (s0 : TaskState) (Ht : taken s0 = []) (Hp0 : progresses link slices defs0 nd nf s0).

(** Every run can be continued to a complete one, however it started. *)
Lemma run_completes trace s :
  run link slices defs0 s0 trace s -> exists trace' s', run link slices defs0 s trace' s' /\ complete s'.
Proof.
  remember (run_bound link slices defs0 (concat (tasks s0)) - length trace)%nat as fuel eqn:Hfuel.
  revert trace s Hfuel. induction fuel as [|fuel IH]; intros trace s Hfuel Hrun;
    pose proof (run_progresses _ _ _ _ _ _ _ _ Hfiles Hrun Hp0) as Hp;
    destruct (progress _ _ _ _ _ _ Hp) as [Hc|(i & a & s1 & Hstep)]; try (exists [], s; split; [constructor|done]);
    assert (run link slices defs0 s0 (trace ++ [a]) s1) as Hrun1
      by (eapply run_app; [exact Hrun|econstructor; [exact Hstep|constructor]]);
    pose proof (run_bounded _ _ _ _ _ _ Hrun1 Ht) as Hb; rewrite length_app in Hb; cbn in Hb; [lia|].
  destruct (IH (trace ++ [a]) s1) as (trace' & s' & H1 & H2); [rewrite length_app; cbn; lia|done|].
  exists (a :: trace'), s'. split; [by econstructor|done].
Qed.

Lemma step_never_panics trace s i a r :
  run link slices defs0 s0 trace s -> step_task link slices defs0 i s = Some (a, r) -> is_Ok r.
Proof.
  intros Hrun Hstep. destruct (run_progresses _ _ _ _ _ _ _ _ Hfiles Hrun Hp0) as (Hd & Hf & Hs & Hq).
  unfold step_task in Hstep. destruct (tasks s !! i) as [[|b rest]|] eqn:E; [done| |done]. injection Hstep as <- <-.
  unfold safe_actions in Hs. rewrite (concat_pick _ _ _ _ E) in Hs. apply Forall_cons in Hs as [Ha _].
  apply safe_perform; [cbn; by rewrite Hd, Hf|exact Hq].
Qed.
End Completion.

(** ** Well-formed input

    What earlier phases establish: the tables and the ids in them fit together, and symbol
    tables can be read or fail with an error.  From this, no action of any task can panic. *)

(** The file is in the tables of the symbol database. *)
Definition file_exists (db : Tables) (f : FileId) : Prop :=
  match index (Symbols.groups db) f.1 with
  | Ok (Symbols.Objects files) => is_Ok (index files f.2)
  | Ok (Symbols.StubLibraries files) => is_Ok (index files f.2)
  | Ok Symbols.OtherGroup => True
  | _ => False
  end.

Section WellFormed.
Context (link : LinkInput) (resolver : Resolver) (defs0 flags0 : list Z).
Local Abbreviation groups := (input_groups link).
Local Abbreviation file_ids := (Symbols.symbol_file_ids (tables link)).

Definition known (id : Z) : Prop := 0 <= id < Z.of_nat (length file_ids).

Definition bucket_known (b : SymbolBucket) : Prop :=
  map_Forall (fun _ id => known id) (Symbols.name_to_id b) /\
  map_Forall (fun _ id => known id) (Symbols.versioned_name_to_id b) /\
  map_Forall (fun _ ids => Forall known ids) (alternative_definitions b).

Definition object_wf (obj : InputObject) : Prop :=
  0 <= symbol_id_start obj /\ symbol_id_start obj + Z.of_nat (length (input_symbols obj)) <= Z.of_nat (length file_ids) /\
  input_verneed_table obj <> Panic /\ Forall (fun s => symbol_name s <> Panic) (input_symbols obj).

Record link_wf : Prop := {
  wf_buckets : buckets link <> [];
  wf_names : Forall bucket_known (buckets link);
  wf_num_symbols : (length file_ids <= length flags0)%nat /\ Z.of_nat (length file_ids) <= 2 ^ 32;
  wf_files : Forall (fun f => file_exists (tables link) f /\ is_Ok (index groups f.1)) file_ids;
  wf_objects : Forall (fun g => match g with ObjectFiles objects => Forall object_wf objects | _ => True end) groups;
  (* files of earlier calls that are not loaded yet are objects *)
  wf_resolver g i n : mjoin ((fun files => files !! i) <$> resolved_groups resolver !! g) = Some (NotLoaded n) ->
    is_object link (Z.of_nat g, Z.of_nat i)
}.

Context (Hwf : link_wf).

Lemma known_file id : known id ->
  exists f, index file_ids id = Ok f /\ file_exists (tables link) f /\ is_Ok (index groups f.1).
Proof.
  intros Hid. unfold known in Hid. destruct (lookup_lt_is_Some_2 file_ids (Z.to_nat id) ltac:(lia)) as [f Hf].
  exists f. split; [unfold index; rewrite decide_True by lia; by rewrite Hf|]. by apply (Forall_lookup_1 _ _ _ _ (wf_files Hwf)) in Hf.
Qed.

Lemma exists_dynamic f : file_exists (tables link) f -> is_Ok (input_is_dynamic (tables link) f).
Proof.
  unfold file_exists, input_is_dynamic. destruct (index _ f.1) as [[files|files|]| |]; cbn; try done; [| |by eexists].
  - intros [x ->]. by eexists.
  - intros [x ->]. by eexists.
Qed.

Lemma exists_strength f id : file_exists (tables link) f -> is_Ok (input_strength (tables link) f id).
Proof.
  unfold file_exists, input_strength. destruct (index _ f.1) as [[files|files|]| |]; cbn; try done; [| |by eexists].
  - intros [x ->]. by eexists.
  - intros [x ->]. by eexists.
Qed.

Lemma known_visibility id : known id -> is_Ok (input_symbol_visibility (tables link) id).
Proof.
  intros (f & Hf & Hex & _)%known_file. unfold input_symbol_visibility. rewrite Hf. cbn. unfold file_exists in Hex.
  destruct (index _ f.1) as [[files|files|]| |]; cbn; try done; [|by eexists..]. destruct Hex as [x ->]. by eexists.
Qed.

Lemma bucket_of h : exists b, index (buckets link) (bucket_index (buckets link) h) = Ok b /\ bucket_known b.
Proof.
  destruct (index_in_range (buckets link) (bucket_index (buckets link) h)) as [b Hb].
  { unfold bucket_index. apply Z.mod_pos_bound. pose proof (wf_buckets Hwf). destruct (buckets link); [done|cbn; lia]. }
  exists b. split; [done|]. apply index_ok in Hb as [_ Hb]. by apply (Forall_lookup_1 _ _ _ _ (wf_names Hwf)) in Hb.
Qed.

(** What a lookup finds is a symbol. *)
Definition finds (m : res (option Z)) : Prop := exists o, m = Ok o /\ forall id, o = Some id -> known id.

Lemma lookup_finds name : finds (lookup_unversioned link name).
Proof.
  unfold lookup_unversioned, get_unversioned. destruct (bucket_of (hash_bytes link name)) as (b & -> & H1 & _).
  eexists. split; [done|]. intros id Hid. by apply (H1 name).
Qed.

Definition selects_known (s : SymbolPrioritySelector) : Prop := forall id,
  first_strong s = Some id \/ (exists n, max_common s = Some (n, id)) \/ first_weak s = Some id -> known id.

Lemma consider_known s id strength : selects_known s -> known id -> selects_known (consider s id strength).
Proof.
  intros Hs Hid x Hx. destruct strength; cbn in Hx; repeat case_match; cbn in Hx; try (by apply Hs);
    destruct Hx as [Hx|[[m Hx]|Hx]]; try (injection Hx; intros; by subst);
    apply Hs; eauto.
Qed.

Lemma best_known s id : selects_known s -> best s = Some id -> known id.
Proof.
  intros Hs. unfold best. destruct (first_strong s) as [a|] eqn:E1; [intros [= <-]; apply Hs; auto|].
  destruct (max_common s) as [[n a]|] eqn:E2; [intros [= <-]; apply Hs; eauto|]. intros E3. apply Hs; auto.
Qed.

Lemma non_dynamic_finds b id : bucket_known b -> finds (get_non_dynamic (tables link) b id).
Proof.
  intros (_ & _ & Hb). unfold get_non_dynamic. destruct (alternative_definitions b !! id) as [alts|] eqn:E; [|by exists None].
  apply Hb in E. enough (forall s, selects_known s -> exists s', for_each (fun alt selector =>
        file_id ← index file_ids alt;
        dynamic ← input_is_dynamic (tables link) file_id;
        if dynamic : bool then Ok selector
        else strength ← input_strength (tables link) file_id alt; Ok (consider selector alt strength)) alts s = Ok s' /\
        selects_known s') as H.
  { destruct (H new_selector) as (s & -> & Hs); [intros x [Hx|[[n Hx]|Hx]]; done|]. cbn. eexists. split; [done|].
    intros x. by apply best_known. }
  induction E as [|alt alts Ha _ IH]; intros s Hs; cbn [for_each]; [by exists s|].
  destruct (known_file alt Ha) as (f & -> & Hf & _). cbn [mbind res_bind].
  destruct (exists_dynamic f Hf) as [[|] ->]; cbn [mbind res_bind]; [by apply IH|].
  destruct (exists_strength f alt Hf) as [st ->]. cbn [mbind res_bind]. apply IH. by apply consider_known.
Qed.

Lemma get_finds key allow : finds (get (hash_bytes link) (tables link) (buckets link) key allow).
Proof.
  unfold get.
  assert (exists b o, match key with
                      | Unversioned name =>
                          bucket ← index (buckets link) (bucket_index (buckets link) (hash_bytes link name));
                          Ok (bucket, Symbols.name_to_id bucket !! name)
                      | Versioned name =>
                          bucket ← index (buckets link) (bucket_index (buckets link) (versioned_hash (hash_bytes link) name));
                          Ok (bucket, Symbols.versioned_name_to_id bucket !! name)
                      end = Ok (b, o) /\ bucket_known b /\ forall id, o = Some id -> known id) as (b & o & -> & Hb & Ho).
  { destruct key as [name|name].
    - destruct (bucket_of (hash_bytes link name)) as (b & -> & Hb). do 2 eexists. split_and!; [done..|]. intros id. by apply Hb.
    - destruct (bucket_of (versioned_hash (hash_bytes link) name)) as (b & -> & Hb). do 2 eexists. split_and!; [done..|].
      intros id. by apply Hb. }
  cbn [mbind res_bind]. destruct o as [id|]; [|by exists None]. specialize (Ho id eq_refl).
  destruct allow; [exists (Some id); split; [done|by intros ? [= <-]]|].
  destruct (known_file id Ho) as (f & -> & Hf & _). cbn [mbind res_bind].
  destruct (exists_dynamic f Hf) as [[|] ->]; cbn [mbind res_bind]; [by apply non_dynamic_finds|].
  exists (Some id). split; [done|by intros ? [= <-]].
Qed.

(** Actions that cannot panic but for the file they request. *)
Definition good_action (a : action) : Prop :=
  match a with
  | Request f => is_Ok (index groups f.1)
  | Define i _ => 0 <= i < Z.of_nat (length defs0)
  | DowngradeHidden i | Protect i | NonIrRef i => 0 <= i < Z.of_nat (length flags0)
  | PushUndefined _ | PushError _ => True
  end.

Definition gives_good (m : res (list action)) : Prop := exists l, m = Ok l /\ Forall good_action l.

Lemma known_flag id : known id -> 0 <= id < Z.of_nat (length flags0).
Proof. pose proof (wf_num_symbols Hwf). unfold known. lia. Qed.

Local Ltac good_list := repeat first [apply Forall_nil_2 | apply Forall_cons_2]; cbn; done.

Lemma resolve_symbol_good id info symbol out is_dynamic f :
  known id -> 0 <= out < Z.of_nat (length defs0) ->
  gives_good (resolve_symbol link id info symbol out is_dynamic f).
Proof.
  intros Hid Hout. unfold resolve_symbol.
  destruct (get_finds (from_raw info) (symbol_is_interposable symbol)) as (o & -> & Ho). cbn [mbind res_bind].
  destruct o as [sid|]; [|eexists; split; [done|good_list]]. specialize (Ho sid eq_refl).
  pose proof (known_flag sid Ho) as Hflag.
  match goal with |- gives_good (mbind _ ?m) => assert (gives_good m) as (stores & -> & Hs) end.
  { destruct (symbol_is_interposable symbol); [by exists []|]. destruct (known_visibility id Hid) as [v ->]. cbn [mbind res_bind].
    eexists. split; [done|]. destruct v; good_list. }
  cbn [mbind res_bind]. destruct (known_file sid Ho) as (sf & -> & Hsf & Hg). cbn [mbind res_bind].
  match goal with |- gives_good (mbind _ ?m) => assert (gives_good m) as (request & -> & Hr) end.
  { destruct (_ && _); [|eexists; split; [done|]; case_bool_decide; good_list].
    destruct is_dynamic; cbn [mbind res_bind].
    - destruct (exists_dynamic sf Hsf) as [[|] ->]; cbn [mbind res_bind]; eexists; (split; [done|]); good_list.
    - eexists. split; [done|]. good_list. }
  cbn [mbind res_bind]. eexists. split; [done|]. constructor; [done|]. apply Forall_app. split; [done|]. by constructor.
Qed.

Lemma resolve_chunk_good obj verneed f off out :
  0 <= symbol_id_start obj -> 0 <= off -> 0 <= out -> forall symbols i defs,
  Forall (fun s => symbol_name s <> Panic) symbols ->
  symbol_id_start obj + off + Z.of_nat i + Z.of_nat (length symbols) <= Z.of_nat (length file_ids) ->
  out + Z.of_nat i + Z.of_nat (length defs) <= Z.of_nat (length defs0) ->
  gives_good (resolve_chunk link obj verneed f off i out symbols defs).
Proof.
  intros Hstart Hoff Hout. induction symbols as [|symbol symbols IH]; intros i defs Hnames Hs Hd; [by exists []|].
  destruct defs as [|d defs]; [by exists []|]. cbn [resolve_chunk length] in *. apply Forall_cons in Hnames as [Hname Hnames].
  destruct (IH (S i) defs Hnames ltac:(lia) ltac:(lia)) as (rest & Hrest & Hgood).
  destruct (_ || _); [by exists rest|]. destruct (symbol_name symbol) as [name| |]; [|by eexists; split; [done|]; good_list|done].
  match goal with |- context [resolve_symbol link ?id ?info _ ?o ?dyn _] =>
    destruct (resolve_symbol_good id info symbol o dyn f) as (acts & -> & Ha) end.
  - pose proof (wf_num_symbols Hwf). unfold known, wadd. rewrite wrap_small by (unfold in_u; lia). lia.
  - lia.
  - cbn [mbind res_bind]. rewrite Hrest. cbn [mbind res_bind]. eexists. split; [done|]. by apply Forall_app.
Qed.

Lemma load_symbol_good name : exists o, load_symbol_named link name = Ok o /\
  forall id f, o = Some (id, f) -> good_action (Request f) /\ good_action (NonIrRef id).
Proof.
  unfold load_symbol_named. destruct (lookup_finds name) as (o & -> & Ho). cbn [mbind res_bind].
  destruct o as [id|]; [|by exists None]. specialize (Ho id eq_refl).
  destruct (known_file id Ho) as (f & -> & _ & Hf). cbn [mbind res_bind]. eexists. split; [done|]. intros ? ? [= <- <-].
  split; [done|]. by apply known_flag.
Qed.

Lemma redirect_good redirect : gives_good (load_symbols_in_redirect link redirect).
Proof.
  unfold load_symbols_in_redirect. apply visit_keeps; [|by exists []]. intros e acc (l & -> & Hl). cbn.
  destruct e; try (by exists l). destruct (load_symbol_good name) as (o & -> & Ho). cbn [mbind res_bind].
  eexists. split; [done|]. apply Forall_app. split; [done|]. destruct o as [[id f]|]; [|done].
  destruct (Ho id f eq_refl). good_list.
Qed.

Lemma concatM_good {A} (f : A -> res (list action)) l : (forall x, x ∈ l -> gives_good (f x)) -> gives_good (concatM f l).
Proof.
  intros Hf. unfold concatM. destruct (mapM_Ok f l) as (parts & -> & Hp).
  { intros x Hx. destruct (Hf x Hx) as (y & -> & _). by eexists. }
  cbn [mbind res_bind]. eexists. split; [done|]. apply Forall_concat, Forall_forall. intros y [i Hi]%list_elem_of_lookup.
  destruct (Forall2_lookup_r _ _ _ _ _ Hp Hi) as (x & Hx & Hxy). destruct (Hf x) as (y' & Hy & Hg); [by eapply list_elem_of_lookup_2|].
  congruence.
Qed.

(** A work item that fits the tables. *)
Definition item_fits (item : LoadObjectSymbolsRequest) : Prop :=
  0 <= definitions_out item /\ 0 <= definitions_len item /\
  definitions_out item + definitions_len item <= Z.of_nat (length defs0) /\ 0 <= symbol_start_offset item /\
  exists group, index groups (req_file_id item).1 = Ok group /\
    match group with ObjectFiles objects => is_Ok (index objects (req_file_id item).2) | _ => True end.

Lemma prelude_good symbol_definitions item :
  0 <= definitions_out item -> 0 <= definitions_len item ->
  definitions_out item + definitions_len item <= Z.of_nat (length defs0) ->
  gives_good (load_prelude link symbol_definitions item).
Proof.
  intros H0 Hl Hd. unfold load_prelude.
  match goal with |- gives_good (mbind _ ?m) => assert (gives_good m) as (entry & -> & He) end.
  { destruct (entry_symbol_name link) as [name|]; [|by exists []].
    destruct (load_symbol_good name) as (o & -> & Ho). cbn [mbind res_bind]. eexists. split; [done|].
    destruct o as [[id f]|]; [|done]. destruct (Ho id f eq_refl). good_list. }
  cbn [mbind res_bind].
  match goal with |- gives_good (mbind _ ?m) => assert (gives_good m) as (rest & -> & Hr) end.
  { apply concatM_good. intros [i def] Hin. destruct (placement def); try (by exists []); [|apply redirect_good].
    destruct (load_symbol_good (def_name def)) as (o & -> & Ho). cbn [mbind res_bind]. eexists. split; [done|].
    destruct o as [[id f]|]; [|done]. destruct (Ho id f eq_refl) as [Hf _].
    assert (Z.of_nat i < definitions_len item) as Hi.
    { apply list_elem_of_lookup in Hin as [k Hk]. pose proof (lookup_lt_Some _ _ _ Hk) as Hlt. rewrite length_take in Hlt.
      rewrite lookup_take in Hk. case_decide; [|done]. rewrite list_lookup_imap in Hk.
      destruct (symbol_definitions !! k); cbn in Hk; [|done]. injection Hk as <- _. lia. }
    repeat apply Forall_cons_2; [cbn; lia|done|done]. }
  cbn [mbind res_bind]. eexists. split; [done|]. by apply Forall_app.
Qed.

Lemma process_object_good item : item_fits item -> gives_good (process_object link defs0 item).
Proof.
  intros (H0 & Hl & Hd & Hs & group & Hg & Hobj). unfold process_object. rewrite Hg. cbn [mbind res_bind].
  destruct group as [defs|objects|stubs|scripts|n]; try (by exists []).
  - by apply prelude_good.
  - destruct Hobj as [obj Hobj]. rewrite Hobj. cbn [mbind res_bind].
    assert (object_wf obj) as (Hstart & Hlen & Hver & Hnames).
    { apply index_ok in Hg as [_ Hg], Hobj as [_ Hobj]. apply (Forall_lookup_1 _ _ _ _ (wf_objects Hwf)) in Hg.
      by apply (Forall_lookup_1 _ _ _ _ Hg) in Hobj. }
    unfold resolve_symbols. destruct (input_verneed_table obj) as [verneed| |]; [|eexists; split; [done|]; good_list|done].
    destruct (drop (Z.to_nat (symbol_start_offset item)) (input_symbols obj)) as [|s symbols] eqn:Es; [by exists []|].
    pose proof (f_equal length Es) as Hlength. rewrite length_drop in Hlength. cbn [length] in Hlength.
    apply resolve_chunk_good; try done.
    + rewrite <- Es. by apply Forall_drop.
    + cbn [length]. lia.
    + rewrite length_take, length_drop. lia.
  - apply concatM_good. intros script _. apply concatM_good. intros sym _. destruct (placement sym); try (by exists []).
    apply redirect_good.
Qed.

(** *** What the setup hands out *)
Definition slot_fits (f : FileId) (slice : Z * Z) : Prop :=
  0 <= slice.1 /\ 0 <= slice.2 /\ slice.1 + slice.2 <= Z.of_nat (length defs0) /\ is_object link f.

Record setup_fits (g f0 : Z) (s : GroupSetup) : Prop := {
  sf_work : Forall item_fits (setup_work s);
  sf_slots i slice : definitions_per_file s !! i = Some (Some slice) -> slot_fits (g, f0 + Z.of_nat i) slice;
  sf_loaded : Forall (fun f => f.1 = g /\ f0 <= f.2 /\ is_object link f) (setup_loaded s);
  sf_distinct : NoDup (setup_loaded s)
}.

Lemma empty_setup_fits g f0 : setup_fits g f0 empty_setup.
Proof. split; try done; constructor. Qed.

Lemma add_file_fits g f0 file slot work new s :
  setup_fits g (f0 + 1) s -> (forall slice, slot = Some slice -> slot_fits (g, f0) slice) -> Forall item_fits work ->
  (new = [] \/ new = [(g, f0)] /\ is_object link (g, f0)) -> setup_fits g f0 (add_file file slot work new s).
Proof.
  intros [Hw Hs Hl Hn] Hslot Hwork Hnew. split; cbn.
  - by apply Forall_app.
  - intros [|i] slice; cbn; [intros [= ->]; rewrite Z.add_0_r; by apply Hslot|].
    intros Hi. apply Hs in Hi. by replace (f0 + Z.of_nat (S i)) with (f0 + 1 + Z.of_nat i) by lia.
  - apply Forall_app. split; [destruct Hnew as [->|[-> ?]]; [done|by repeat constructor]|].
    eapply Forall_impl; [exact Hl|]. cbn. intros f (? & ? & ?). split_and!; [done|lia|done].
  - destruct Hnew as [->|[-> _]]; [done|]. constructor; [|done]. intros Hin.
    eapply Forall_forall in Hl as (_ & Hle & _); [|exact Hin]. cbn in Hle. lia.
Qed.

Local Abbreviation total := (Z.of_nat (length defs0)).

Lemma split_off_fits p len slice p' : split_off total p len = Ok (slice, p') -> 0 <= p ->
  slice = (p, len) /\ p' = p + len /\ 0 <= len /\ p + len <= total.
Proof.
  intros H Hp. pose proof (split_off_ok _ _ _ _ _ H) as (-> & -> & Hl). split_and!; try done.
  unfold split_off in H. destruct (_ && _) eqn:E; [|done]. apply andb_true_iff in E as [_ E]. by apply Z.leb_le in E.
Qed.

Lemma work_items_fit f o l b items : work_items_do groups f (o, l) = Ok (b, items) ->
  0 <= o -> 0 <= l -> o + l <= total -> Forall item_fits items.
Proof.
  intros H Ho Hl Ht. destruct (work_items_tile _ _ _ _ _ _ H Hl) as [_ Hf]. unfold work_items_do in H.
  destruct (index groups f.1) as [group| |] eqn:Eg; cbn in H; [|done..].
  assert (match group with ObjectFiles objects => is_Ok (index objects f.2) | _ => True end) as Hobj.
  { destruct group as [|objects| | |]; try done. destruct (index objects f.2); cbn in H; [by eexists|done..]. }
  eapply Forall_impl; [exact Hf|]. cbn. intros item (H0 & Hid & Hoff & Hlo & Hhi). unfold item_fits. rewrite Hid.
  split_and!; try lia. by exists group.
Qed.

Lemma setup_objects_fit g all : index groups g = Ok (ObjectFiles all) -> forall objects f p s p',
  drop (Z.to_nat f) all = objects -> 0 <= f -> 0 <= p ->
  setup_objects groups total g f objects p = Ok (s, p') -> setup_fits g f s /\ 0 <= p'.
Proof.
  intros Hg. induction objects as [|obj objects IH]; intros f p s p' Hdrop Hf Hp; cbn;
    [intros [= <- <-]; split; [apply empty_setup_fits|done]|].
  assert (is_object link (g, f)) as Hobj.
  { exists all, obj. split; [done|]. unfold index. cbn. rewrite decide_True by done.
    by rewrite <- (Nat.add_0_r (Z.to_nat f)), <- lookup_drop, Hdrop. }
  assert (drop (Z.to_nat (f + 1)) all = objects) as Hdrop'.
  { rewrite Z2Nat.inj_add, <- drop_drop, Hdrop by lia. done. }
  destruct (split_off _ _ _) as [[slice q]| |] eqn:E; cbn; [|done..]. apply split_off_fits in E as (-> & -> & Hn & Ht); [|done].
  destruct (is_optional obj).
  - destruct (setup_objects _ _ _ _ _ _) as [[rest r]| |] eqn:Er; cbn; [|done..]. intros [= <- <-].
    apply IH in Er as [Hr Hq]; [|done|lia|lia]. split; [|done].
    apply add_file_fits; [done| |constructor|by left]. by intros slice [= <-].
  - destruct (work_items_do _ _ _) as [[b work]| |] eqn:Ew; cbn; [|done..].
    destruct (setup_objects _ _ _ _ _ _) as [[rest r]| |] eqn:Er; cbn; [|done..]. intros [= <- <-].
    apply IH in Er as [Hr Hq]; [|done|lia|lia]. split; [|done].
    apply add_file_fits; [done|done| |by right]. by eapply work_items_fit.
Qed.

Lemma setup_stubs_fit g stubs : forall f p s p', 0 <= p -> setup_stubs total stubs p = Ok (s, p') -> setup_fits g f s /\ 0 <= p'.
Proof.
  induction stubs as [|n stubs IH]; intros f p s p' Hp; cbn; [intros [= <- <-]; split; [apply empty_setup_fits|done]|].
  destruct (split_off _ _ _) as [[slice q]| |] eqn:E; cbn; [|done..]. apply split_off_fits in E as (-> & -> & Hn & Ht); [|done].
  destruct (setup_stubs _ _ _) as [[rest r]| |] eqn:Er; cbn; [|done..]. intros [= <- <-].
  apply (IH (f + 1)) in Er as [Hr Hq]; [|lia]. split; [|done]. apply add_file_fits; [done|done|constructor|by left].
Qed.

Lemma setup_scripts_fit g all scripts : index groups g = Ok (ScriptFiles all) -> forall f p s p',
  0 <= p -> setup_scripts total g f scripts p = Ok (s, p') -> setup_fits g f s /\ 0 <= p'.
Proof.
  intros Hg. induction scripts as [|defs scripts IH]; intros f p s p' Hp; cbn; [intros [= <- <-]; split; [apply empty_setup_fits|done]|].
  destruct (split_off _ _ _) as [[slice q]| |] eqn:E; cbn; [|done..]. apply split_off_fits in E as (-> & -> & Hn & Ht); [|done].
  destruct (setup_scripts _ _ _ _ _) as [[rest r]| |] eqn:Er; cbn; [|done..]. intros [= <- <-].
  apply (IH (f + 1)) in Er as [Hr Hq]; [|lia]. split; [|done]. apply add_file_fits; [done|done| |by left].
  constructor; [|constructor]. unfold item_fits. cbn. split_and!; try lia. by exists (ScriptFiles all).
Qed.

Lemma resolve_group_fits g group p s p' : index groups g = Ok group -> 0 <= p ->
  resolve_group groups total g group p = Ok (s, p') -> setup_fits g 0 s /\ 0 <= p'.
Proof.
  intros Hg Hp. destruct group as [defs|objects|stubs|scripts|n]; cbn.
  - destruct (split_off _ _ _) as [[slice q]| |] eqn:E; cbn; [|done..]. apply split_off_fits in E as (-> & -> & Hn & Ht); [|done].
    destruct (work_items_do _ _ _) as [[b work]| |] eqn:Ew; cbn; [|done..]. intros [= <- <-]. split; [|lia].
    apply add_file_fits; [apply empty_setup_fits|done| |by left]. by eapply work_items_fit.
  - by apply (setup_objects_fit g objects Hg).
  - by apply setup_stubs_fit.
  - by apply (setup_scripts_fit g scripts).
  - destruct (split_off _ _ _) as [[slice q]| |] eqn:E; cbn; [|done..]. apply split_off_fits in E as (-> & -> & Hn & Ht); [|done].
    intros [= <- <-]. split; [|lia]. apply add_file_fits; [apply empty_setup_fits|done|constructor|by left].
Qed.

Lemma setup_resolved_fits g files files' : forall f p takes p', 0 <= p ->
  (forall i n, files !! i = Some (NotLoaded n) -> is_object link (g, f + Z.of_nat i)) ->
  setup_resolved total files p = Ok (takes, p') -> setup_fits g f (mkSetup files' takes [] []) /\ 0 <= p'.
Proof.
  revert files'. induction files as [|file files IH]; intros files' f p takes p' Hp Hobj; cbn;
    [intros [= <- <-]; split; [split; try done; constructor|done]|].
  destruct (split_off _ _ _) as [[slice q]| |] eqn:E; cbn; [|done..]. apply split_off_fits in E as (-> & -> & Hn & Ht); [|done].
  destruct (setup_resolved _ _ _) as [[rest r]| |] eqn:Er; cbn; [|done..]. intros [= <- <-].
  apply (IH files (f + 1)) in Er as [Hr Hq]; [|lia|].
  2:{ intros i n Hi. replace (f + 1 + Z.of_nat i) with (f + Z.of_nat (S i)) by lia. by eapply (Hobj (S i)). }
  split; [|done].
  destruct (add_file_fits g f file (match file with NotLoaded _ => Some (p, num_symbols file) | Resolved _ => None end) [] []
    (mkSetup files rest [] []) Hr) as [H1 H2 H3 H4]; [|constructor|by left|by split].
  intros slice Hs. destruct file as [n|n]; [|done]. injection Hs as <-. cbn in *.
  split_and!; [cbn; lia..|]. specialize (Hobj 0%nat n eq_refl). by rewrite Z.add_0_r in Hobj.
Qed.

Lemma setup_groups_fit existing new_groups : forall g p setups, 0 <= p ->
  (forall k i n, mjoin ((fun files => files !! i) <$> existing !! k) = Some (NotLoaded n) ->
     is_object link (g + Z.of_nat k, Z.of_nat i)) ->
  (forall k group, new_groups !! k = Some group -> index groups (g + Z.of_nat (length existing + k)) = Ok group) ->
  setup_groups groups total g existing new_groups p = Ok setups ->
  length setups = (length existing + length new_groups)%nat /\
  forall k s, setups !! k = Some s -> setup_fits (g + Z.of_nat k) 0 s.
Proof.
  induction existing as [|files existing IH]; intros g p setups Hp Hex Hnew; cbn [setup_groups].
  - clear Hex. revert g p setups Hp Hnew. induction new_groups as [|group new_groups IHn]; intros g p setups Hp Hnew; [by intros [= <-]|].
    destruct (resolve_group _ _ _ _ _) as [[s q]| |] eqn:Es; cbn [mbind res_bind]; [|done..].
    apply resolve_group_fits in Es as [Hs Hq]; [| |done]; [|specialize (Hnew 0%nat group eq_refl); cbn in Hnew; by rewrite Z.add_0_r in Hnew].
    match goal with |- context [mbind _ ?m] => destruct m as [rest| |] eqn:Er end; cbn [mbind res_bind]; [|done..]. intros [= <-].
    apply IHn in Er as [Hl Hr]; [|done|].
    2:{ intros k x Hk. specialize (Hnew (S k) x Hk). cbn in *. by replace (g + 1 + Z.of_nat k) with (g + Z.of_nat (S k)) by lia. }
    split; [cbn in *; lia|]. intros [|k] s' Hk; cbn in Hk.
    + injection Hk as <-. by rewrite Z.add_0_r.
    + replace (g + Z.of_nat (S k)) with (g + 1 + Z.of_nat k) by lia. by apply Hr.
  - destruct (setup_resolved _ _ _) as [[takes q]| |] eqn:Et; cbn [mbind res_bind]; [|done..].
    apply (setup_resolved_fits g files files 0) in Et as [Ht Hq]; [|done|].
    2:{ intros i n Hi. specialize (Hex 0%nat i n). cbn in Hex. rewrite Z.add_0_r in Hex. by apply Hex. }
    destruct (setup_groups _ _ _ _ _ _) as [rest| |] eqn:Er; cbn [mbind res_bind]; [|done..]. intros [= <-].
    apply IH in Er as [Hl Hr]; [|done| |].
    2:{ intros k i n Hk. replace (g + 1 + Z.of_nat k) with (g + Z.of_nat (S k)) by lia. by eapply (Hex (S k)). }
    2:{ intros k x Hk. replace (g + 1 + Z.of_nat (length existing + k)) with (g + Z.of_nat (length (files :: existing) + k)) by (cbn; lia).
        by apply Hnew. }
    split; [cbn; lia|]. intros [|k] s' Hk; cbn in Hk.
    + injection Hk as <-. by rewrite Z.add_0_r.
    + replace (g + Z.of_nat (S k)) with (g + 1 + Z.of_nat k) by lia. by apply Hr.
Qed.

Section Started.
Context (setups : list GroupSetup) (Hsetup : link_setup link resolver defs0 = Ok setups).
Local Abbreviation slices := (take_slices setups).

Lemma link_setup_fits : (length groups <= length setups)%nat /\
  forall k s, setups !! k = Some s -> setup_fits (Z.of_nat k) 0 s.
Proof.
  unfold link_setup in Hsetup. case_match; [done|]. apply setup_groups_fit in Hsetup as [Hl Hs]; [|done| |].
  - split; [rewrite Hl, length_drop; lia|exact Hs].
  - intros k i n Hk. rewrite Z.add_0_l. by eapply (wf_resolver Hwf).
  - intros k group Hk. rewrite lookup_drop in Hk. rewrite Z.add_0_l. unfold index. rewrite decide_True by lia.
    by rewrite Nat2Z.id, Hk.
Qed.

Lemma slices_cover g : is_Ok (index groups g) -> is_Ok (index slices g).
Proof.
  intros [x [Hg Hx%lookup_lt_Some]%index_ok]. destruct link_setup_fits as [Hl _].
  destruct (index_in_range slices g) as [y Hy]; [|by exists y]. unfold take_slices. rewrite length_map. lia.
Qed.

Lemma slice_fits f slice : slice_of slices f = Some slice -> slot_fits f slice.
Proof.
  unfold slice_of. destruct (index slices f.1) as [l| |] eqn:Eg; [|done..]. destruct (index l f.2) as [o| |] eqn:Ef; [|done..].
  intros ->. apply index_ok in Eg as [Hg Eg], Ef as [Hf Ef]. unfold take_slices in Eg. rewrite list_lookup_fmap in Eg.
  destruct (setups !! Z.to_nat f.1) as [s|] eqn:Es; [|done]. injection Eg as <-.
  pose proof (sf_slots _ _ _ (proj2 link_setup_fits _ _ Es) _ _ Ef) as H. rewrite !Z2Nat.id, Z.add_0_l in H by done.
  by destruct f.
Qed.

Lemma spawn_good items : Forall item_fits items ->
  exists ts, spawn link defs0 items = Ok ts /\ Forall (Forall good_action) ts.
Proof.
  intros Hi. unfold spawn. destruct (mapM_Ok (process_object link defs0) items) as (ts & -> & Hts).
  { intros item Hin. eapply Forall_forall in Hi; [|exact Hin]. destruct (process_object_good item Hi) as (l & -> & _). by eexists. }
  exists ts. split; [done|]. apply Forall_forall. intros t [i Ht]%list_elem_of_lookup.
  destruct (Forall2_lookup_r _ _ _ _ _ Hts Ht) as (item & Hin & Hp). apply (Forall_lookup_1 _ _ _ _ Hi) in Hin.
  destruct (process_object_good item Hin) as (l & Hl & Hg). congruence.
Qed.

Lemma file_good f : exists b ts, file_tasks link slices defs0 f = Ok (b, ts) /\ Forall (Forall good_action) ts.
Proof.
  unfold file_tasks. destruct (slice_of slices f) as [[o l]|] eqn:Es; [|by exists false, []].
  destruct (slice_fits _ _ Es) as (Ho & Hl & Ht & objects & obj & Hg & Hobj). cbn in Ho, Hl, Ht.
  destruct (work_items_do groups f (o, l)) as [[b items]| |] eqn:Ew;
    [|unfold work_items_do in Ew; rewrite Hg in Ew; cbn in Ew; rewrite Hobj in Ew; done..].
  pose proof (work_items_fit _ _ _ _ _ Ew Ho Hl Ht) as Hi. cbn [mbind res_bind].
  destruct (spawn_good items Hi) as (ts & -> & Hts). cbn [mbind res_bind]. by exists b, ts.
Qed.

Lemma good_safe a : good_action a -> safe_action link slices defs0 (length defs0) (length flags0) a = true.
Proof.
  destruct a as [f|i v|i|i|i|u|e]; cbn [good_action safe_action]; try done; rewrite ?andb_true_iff, ?Z.leb_le, ?Z.ltb_lt; try done.
  intros [y ->]%slices_cover. by destruct (file_good f) as (b & ts & -> & _).
Qed.

Lemma good_list_safe l : Forall good_action l -> safe_actions link slices defs0 (length defs0) (length flags0) l.
Proof. intros H. eapply Forall_impl; [exact H|]. apply good_safe. Qed.

Lemma files_safe : Forall (fun f => safe_actions link slices defs0 (length defs0) (length flags0)
  (file_actions link slices defs0 f)) (all_slots slices).
Proof.
  apply Forall_forall. intros f _. apply good_list_safe. unfold file_actions.
  destruct (file_good f) as (b & ts & -> & Hts). by apply Forall_concat.
Qed.

Lemma loaded_once : NoDup (concat (map setup_loaded setups)) /\ Forall (is_object link) (concat (map setup_loaded setups)).
Proof.
  pose proof (proj2 link_setup_fits) as Hs. split.
  - enough (forall (l : list GroupSetup) b, (forall k s, l !! k = Some s -> setup_fits (b + Z.of_nat k) 0 s) ->
      NoDup (concat (map setup_loaded l)) /\ Forall (fun f : FileId => b <= f.1) (concat (map setup_loaded l))) as H
      by (by destruct (H setups 0)).
    clear. induction l as [|s l IH]; intros b Hs; [split; constructor|]. cbn.
    destruct (IH (b + 1)) as [Hn Hb].
    { intros k x Hk. replace (b + 1 + Z.of_nat k) with (b + Z.of_nat (S k)) by lia. by apply Hs. }
    pose proof (Hs 0%nat s eq_refl) as [_ _ Hl Hd]. rewrite Z.add_0_r in Hl. split.
    + apply NoDup_app. split_and!; [done| |done]. intros f H1 H2. eapply Forall_forall in Hl as [Hf _]; [|exact H1].
      eapply Forall_forall in Hb; [|exact H2]. cbn in Hb. lia.
    + apply Forall_app. split; (eapply Forall_impl; [eassumption|]); cbn; [intros f [-> _]; lia|lia].
  - apply Forall_concat, Forall_forall. intros l (s & -> & [k Hk]%list_elem_of_lookup)%list_elem_of_fmap.
    eapply Forall_impl; [exact (sf_loaded _ _ _ (Hs k s Hk))|]. cbn. tauto.
Qed.

Lemma work_fits : Forall item_fits (concat (map setup_work setups)).
Proof.
  apply Forall_concat, Forall_forall. intros l (s & -> & [k Hk]%list_elem_of_lookup)%list_elem_of_fmap.
  exact (sf_work _ _ _ (proj2 link_setup_fits k s Hk)).
Qed.

(** The tasks start, and from there no action can panic. *)
Lemma tasks_start : exists s0, initial_tasks link setups defs0 flags0 = Ok s0 /\
  taken s0 = [] /\ progresses link slices defs0 (length defs0) (length flags0) s0.
Proof.
  destruct (spawn_good _ work_fits) as (ts & Hts & Hgood). destruct loaded_once as [Hn Ho].
  exists (mkTasks ts [] (concat (map setup_loaded setups)) defs0 flags0 [] None). split_and!; [|done|].
  - apply initial_tasks_ok. exists ts. split_and!; [done..|]. unfold loaded_capacity.
    pose proof (objects_fit link _ Hn Ho). lia.
  - split_and!; [done..| |].
    + apply good_list_safe. by apply Forall_concat.
    + split_and!; [done..|]. cbn. intros f Hf [slice Hs]. by destruct (slot_not_loaded _ _ _ _ _ _ Hsetup Hs) as [_ []].
Qed.
End Started.
End WellFormed.

(** ** What holds of every link *)

(** C12. Every schedule finishes: when the input is well formed and the setup succeeds, the
    initial tasks can be made, and whatever tasks the threads picked so far, no next action
    panics (in particular, the queue of loaded files is never full when one is pushed), the
    number of actions is bounded, and the run can be continued to one that leaves no work.
    Well formed ([link_wf]) means that the tables fit together: there are buckets, every
    symbol id in them has flags and a file that exists, every object's symbols are numbered
    within these (at most 2^32), names and version tables are read without a panic (they may
    be errors), and what earlier calls left unloaded are objects. *)
Theorem every_schedule_finishes link resolver setups defs0 flags0 :
  link_wf link resolver flags0 -> link_setup link resolver defs0 = Ok setups ->
  let slices := take_slices setups in
  exists s0, initial_tasks link setups defs0 flags0 = Ok s0 /\
    forall trace s, run link slices defs0 s0 trace s ->
      (length trace <= run_bound link slices defs0 (concat (tasks s0)))%nat /\
      (forall i a r, step_task link slices defs0 i s = Some (a, r) -> is_Ok r) /\
      exists trace' s', run link slices defs0 s trace' s' /\ complete s'.
Proof.
  intros Hwf Hsetup slices. destruct (tasks_start link resolver defs0 flags0 Hwf setups Hsetup) as (s0 & Hinit & Ht & Hp).
  pose proof (files_safe link resolver defs0 flags0 Hwf setups Hsetup) as Hfiles.
  exists s0. split; [done|]. intros trace s Hrun. split_and!.
  - by eapply run_bounded.
  - intros i a r. by eapply step_never_panics.
  - by eapply run_completes.
Qed.

(** C10. Once all work is done, an archive entry (or an unneeded shared object) is loaded exactly when
    it is in the least set of files closed under requests, and no file is taken twice. *)
Theorem archive_entries_selected link resolver setups defs0 flags0 s0 trace s resolver' f slice objects :
  link_setup link resolver defs0 = Ok setups -> initial_tasks link setups defs0 flags0 = Ok s0 ->
  run link (take_slices setups) defs0 s0 trace s -> complete s -> gather resolver setups s = Ok resolver' ->
  slice_of (take_slices setups) f = Some slice -> index (input_groups link) f.1 = Ok (ObjectFiles objects) ->
  NoDup (taken s) /\
  ((exists n, index_file (resolved_groups resolver') f = Ok (Resolved n)) <->
   needed link (take_slices setups) defs0 (concat (tasks s0)) f).
Proof.
  intros Hsetup Hinit Hrun Hc Hg Hf Hobj.
  pose proof (complete_outcome _ _ _ _ _ _ Hsetup Hinit _ _ Hrun Hc) as Ho.
  pose proof (run_ran _ _ _ _ _ _ Hrun) as [new Hr].
  assert (taken s = new) as Hnew.
  { rewrite (rn_taken _ _ _ _ _ _ _ Hr). by destruct (initial_state _ _ _ _ _ Hinit) as [-> _]. }
  split; [by eapply oc_once|]. rewrite <- (oc_taken _ _ _ _ _ _ _ Ho).
  unfold gather in Hg. destruct (error s); [done|].
  destruct (for_each _ _ _) as [groups| |] eqn:Eg; cbn in Hg; [|done..]. injection Hg as <-. cbn.
  destruct (slot_not_loaded _ _ _ _ _ _ Hsetup Hf) as [[n Hn] Hnl]. rewrite (marked _ _ _ _ _ Eg Hn).
  rewrite (oc_loaded _ _ _ _ _ _ _ Ho). split.
  - intros [m Hm]. case_decide as Hin; [|done]. apply elem_of_app in Hin as [?|Hin]; [done|].
    apply elem_of_concat_map in Hin as (g & Hgt & Hp). by apply elem_of_pushed in Hp as ->.
  - intros Ht. exists n. rewrite decide_True; [done|]. apply elem_of_app. right. apply elem_of_concat_map.
    exists f. split; [done|]. erewrite pushed_object; [by left| |by eexists|done].
    apply (rn_spawned _ _ _ _ _ _ _ Hr). by rewrite <- Hnew.
Qed.

(** C11. The outcome does not depend on the schedule: all complete runs leave the same definitions,
    flags and loaded files, the same undefined symbols up to order, and canonicalising these gives
    the same tables. *)
Theorem resolution_schedule_irrelevant link resolver defs0 flags0 r1 d1 f1 r2 d2 f2 :
  resolves link resolver defs0 flags0 (r1, d1, f1) -> resolves link resolver defs0 flags0 (r2, d2, f2) ->
  d1 = d2 /\ f1 = f2 /\ same_result r1 r2 /\
  forall q1 q2, r1 = Ok q1 -> r2 = Ok q2 -> undefined_symbols resolver = [] ->
    (forall setups, link_setup link resolver defs0 = Ok setups -> numbered link setups) ->
    forall syn_file_id custom_by_identity output_kind s,
      canonicalise_undefined_symbols (hash_bytes link) (tables link) (resolved_groups q1) syn_file_id custom_by_identity
        output_kind (undefined_symbols q1) s =
      canonicalise_undefined_symbols (hash_bytes link) (tables link) (resolved_groups q2) syn_file_id custom_by_identity
        output_kind (undefined_symbols q2) s.
Proof.
  intros (setups & s0 & t1 & s1 & Hsetup & Hinit & Hr1 & Hc1 & [= -> -> ->])
    (setups' & s0' & t2 & s2 & Hsetup' & Hinit' & Hr2 & Hc2 & [= -> -> ->]).
  rewrite Hsetup in Hsetup'. injection Hsetup' as <-. rewrite Hinit in Hinit'. injection Hinit' as <-.
  pose proof (complete_outcome _ _ _ _ _ _ Hsetup Hinit _ _ Hr1 Hc1) as O1.
  pose proof (complete_outcome _ _ _ _ _ _ Hsetup Hinit _ _ Hr2 Hc2) as O2.
  destruct (outcomes_data _ _ _ _ _ _ _ _ _ O1 O2) as [-> ->].
  pose proof (gather_same resolver setups s1 s2 (outcomes_loaded _ _ _ _ _ _ _ _ _ O1 O2)
    (outcomes_undefined _ _ _ _ _ _ _ _ _ O1 O2) (outcomes_error _ _ _ _ _ _ _ _ _ O1 O2)) as Hsame.
  split_and!; [done..|]. intros q1 q2 E1 E2 Hempty Hnum syn custom kind s. rewrite E1, E2 in Hsame.
  destruct Hsame as [<- Hperm]. unfold canonicalise_undefined_symbols. f_equal.
  apply sort_by_id_unique; [done|].
  assert (undefined_symbols q1 = undefined s1) as ->.
  { unfold gather in E1. destruct (error s1); [done|]. destruct (for_each _ _ _); cbn in E1; [|done..].
    injection E1 as <-. cbn. by rewrite Hempty. }
  eapply numbered_undefined; try done. by apply Hnum.
Qed.

(** C13. After canonicalisation all references to an undefined unversioned name share one definition,
    a reference with an id that none of them exceeds, or a new synthetic symbol, and it is its
    own definition. References are distinct symbols of the table, and no name is canonical at the
    start; a reference to a file that was loaded after all does not count as undefined. *)
Theorem undefined_names_agree hash_bytes final_tables groups syn_file_id custom_by_identity output_kind undefined s s' name u v :
  canonicalise_undefined_symbols hash_bytes final_tables groups syn_file_id custom_by_identity output_kind undefined s = Ok s' ->
  name_to_id s = ∅ -> Forall (fun u => 0 <= undefined_id u < Z.of_nat (length (c_definitions s))) undefined ->
  NoDup (map undefined_id undefined) -> u ∈ undefined -> v ∈ undefined ->
  reference_to groups name u -> reference_to groups name v ->
  exists e, index (c_definitions s') (undefined_id u) = Ok e /\ index (c_definitions s') (undefined_id v) = Ok e /\
    index (c_definitions s') e = Ok e /\ undefined_id u <= e /\
    (Z.of_nat (length (c_definitions s)) <= e \/
     exists w, w ∈ undefined /\ undefined_id w = e /\ reference_to groups name w).
Proof.
  intros H Hempty Hrange Hn Hu Hv Hru Hrv. unfold canonicalise_undefined_symbols in H.
  pose proof (sort_by_id_perm undefined) as Hp.
  apply (canonicalise_all_inv _ _ _ _ _ _ (Z.of_nat (length (c_definitions s))) _ []) in H.
  - destruct H as [_ Hself Hseen Hentry Hlast]. cbn in Hseen, Hentry, Hlast.
    destruct (Hseen name u) as (e & He & Hue); [by rewrite Hp|done|].
    destruct (Hseen name v) as (e' & He' & Hve); [by rewrite Hp|done|]. rewrite He in He'. injection He' as <-.
    exists e. split_and!; [done|done|by eapply Hself|by eapply Hlast; [|rewrite Hp|]|].
    destruct (Hentry _ _ He) as [?|(w & Hw & Hw')]; [by left|right]. exists w. split; [by rewrite <- Hp|done].
  - split; [lia| | | |]; rewrite ?Hempty; [done|by intros ? ? ?%elem_of_nil|done|done].
  - by rewrite Hp.
  - apply descending_strict; [apply sort_by_id_sorted|by rewrite Hp].
  - by intros ? ? ?%elem_of_nil.
Qed.

(** ** An example *)
Module Example.

(** [main] defines [m] and refers to [f] and [w]; three archive entries: [a] defines [f] and
    refers to [g] and [w], [b] defines [g], [c] defines [h].  Nothing defines [w]. *)
Definition sym (name : Z) : InputSymbol := mkInputSymbol (Ok [name]) false false true.
Definition object (start : Z) (names : list Z) (archive : bool) : InputObject :=
  mkInputObject start (map sym names) (Ok []) false archive false false.

Definition objects : list InputObject :=
  [object 1 [109; 102; 119] false; object 4 [102; 103; 119] true; object 7 [103] true; object 8 [104] true].

Definition plain : SymbolAttributes := mkAttributes false false false 0 Default false.
Definition files : list SequencedInputObject :=
  [mkObject 1 [plain; plain; plain] false; mkObject 4 [plain; plain; plain] false; mkObject 7 [plain] false;
   mkObject 8 [plain] false].

Definition db : Tables :=
  mkTables [(0, 0); (1, 0); (1, 0); (1, 0); (1, 1); (1, 1); (1, 1); (1, 2); (1, 3)] [Symbols.OtherGroup; Symbols.Objects files]
    [[OtherFile]; [OtherFile; OtherFile; OtherFile; OtherFile]] false.

Definition bucket : SymbolBucket :=
  mkBucket (list_to_map [([109], 1); ([102], 4); ([103], 7); ([104], 8)]) ∅ ∅ ∅.

Definition link : LinkInput :=
  mkLinkInput (fun _ => 0) [bucket] db [PreludeFile [mkSymDef ForceUndefined [109]]; ObjectFiles objects] None false.

Definition defs : list Z := [0; 1; 0; 0; 4; 0; 0; 7; 8].
Definition table : list Z := replicate 9 0.
Definition resolver : Resolver := mkResolver [] [].

Definition setups : list GroupSetup :=
  [mkSetup [Resolved 1] [None] [mkRequest (0, 0) 0 0 1] [];
   mkSetup [NotLoaded 3; NotLoaded 3; NotLoaded 1; NotLoaded 1]
     [None; Some (4, 3); Some (7, 1); Some (8, 1)] [mkRequest (1, 0) 0 1 3] [(1, 0)]].
Definition slices := take_slices setups.

Lemma setups_made : link_setup link resolver defs = Ok setups.
Proof. vm_compute. reflexivity. Qed.

Definition start : TaskState :=
  Eval vm_compute in match initial_tasks link setups defs table with Ok s => s | _ => mkTasks [] [] [] [] [] [] None end.

Lemma started : initial_tasks link setups defs table = Ok start.
Proof. vm_compute. reflexivity. Qed.

(** The prelude and [main] first, then [a]; and [a] before the last actions of [main]. *)
Definition in_order : list nat := [0; 0; 1; 1; 1; 1; 2; 2; 2; 2]%nat.
Definition interleaved : list nat := [1; 1; 1; 2; 2; 2; 2; 1; 0; 0]%nat.

Definition finish (picks : list nat) : list action * TaskState :=
  Eval cbv [follow] in default ([], start) (follow link slices defs picks start).

Definition undefined_w (id : Z) : UndefinedSymbol := mkUndefined None (Unversioned [119]) id.

Definition final (undef : list UndefinedSymbol) : TaskState :=
  mkTasks (match finish in_order with (_, s) => tasks s end) [(1, 1); (1, 2)] [(1, 0); (1, 1); (1, 2)]
    [1; 1; 4; 0; 4; 7; 0; 7; 8] [0; 0; 0; 0; HAS_NON_IR_REF; 0; 0; HAS_NON_IR_REF; 0] undef None.

Definition groups : list (list ResolvedFile) := [[Resolved 1]; [Resolved 3; Resolved 3; Resolved 1; NotLoaded 1]].

Lemma in_order_follows :
  follow link slices defs in_order start = Some (fst (finish in_order), final [undefined_w 3; undefined_w 6]).
Proof. vm_compute. reflexivity. Qed.

Lemma interleaved_follows :
  follow link slices defs interleaved start = Some (fst (finish interleaved), final [undefined_w 6; undefined_w 3]).
Proof. vm_compute. reflexivity. Qed.

Lemma final_complete undef : complete (final undef).
Proof. vm_compute. reflexivity. Qed.

Lemma gathered undef : gather resolver setups (final undef) = Ok (mkResolver undef groups).
Proof. vm_compute. reflexivity. Qed.

Lemma slots_are : all_slots slices = [(0, 0); (1, 0); (1, 1); (1, 2); (1, 3)].
Proof. vm_compute. reflexivity. Qed.

Lemma input_wf : link_wf link resolver table.
Proof.
  split.
  - done.
  - apply Forall_cons_2; [|constructor]. unfold bucket_known, known. split_and!; apply (bool_decide_unpack _); by vm_compute.
  - cbn. lia.
  - repeat apply Forall_cons_2; try apply Forall_nil_2; (split; [first [exact I|by eexists]|by eexists]).
  - repeat apply Forall_cons_2; try apply Forall_nil_2; try exact I;
      repeat apply Forall_cons_2; try apply Forall_nil_2; (split_and!; [cbn; lia|cbn; lia|done|repeat constructor; done]).
  - done.
Qed.

Lemma links picks undef trace :
  follow link slices defs picks start = Some (trace, final undef) ->
  resolves link resolver defs table (Ok (mkResolver undef groups), definitions (final []), flags (final [])).
Proof.
  intros H%follow_run. exists setups, start, trace, (final undef).
  split_and!; [apply setups_made|apply started|exact H|apply final_complete|by rewrite gathered].
Qed.

Lemma is_numbered setups' : link_setup link resolver defs = Ok setups' -> numbered link setups'.
Proof.
  rewrite setups_made. intros [= <-]. split.
  - cbn. repeat apply Forall_cons_2; [| |apply Forall_nil_2]; intros os obj Hg Ho; vm_compute in Hg; [discriminate|]. injection Hg as <-.
    vm_compute in Ho. injection Ho as <-. cbn. lia.
  - fold slices. rewrite slots_are. repeat apply Forall_cons_2; try exact I; try apply Forall_nil_2; intros os obj Hg Ho; vm_compute in Hg; injection Hg as <-;
      vm_compute in Ho; injection Ho as <-; cbn; lia.
Qed.

Definition canon : CanonState := mkCanon ∅ ∅ (definitions (final [])) (flags (final [])) [bucket] (Symbols.symbol_file_ids db) [].
Definition canonicalise (undef : list UndefinedSymbol) : res CanonState :=
  canonicalise_undefined_symbols (hash_bytes link) (tables link) groups (2, 0) ∅ SharedObject undef canon.
End Example.

Lemma every_schedule_finishes_witness :
  exists trace s, run Example.link Example.slices Example.defs Example.start trace s /\ (0 < length trace)%nat /\
    (length trace <= 10)%nat /\ exists trace' s', run Example.link Example.slices Example.defs s trace' s' /\ complete s'.
Proof.
  destruct (follow Example.link Example.slices Example.defs [1; 1; 1]%nat Example.start) as [[trace s]|] eqn:E;
    [|vm_compute in E; discriminate].
  exists trace, s. pose proof (follow_run _ _ _ _ _ _ _ E) as Hrun.
  destruct (every_schedule_finishes Example.link Example.resolver Example.setups Example.defs Example.table
    Example.input_wf Example.setups_made) as (s0 & Hs0 & H).
  rewrite Example.started in Hs0. injection Hs0 as <-. destruct (H trace s Hrun) as (Hb & _ & Hc).
  split; [exact Hrun|]. vm_compute in E. injection E as <- <-. split; [cbn; lia|]. split; [cbn; lia|exact Hc].
Defined.

Lemma archive_entries_selected_witness :
  needed Example.link Example.slices Example.defs (concat (tasks Example.start)) (1, 2) /\
  ~ needed Example.link Example.slices Example.defs (concat (tasks Example.start)) (1, 3).
Proof.
  pose proof (archive_entries_selected Example.link Example.resolver Example.setups Example.defs Example.table Example.start
    _ _ _ (1, 2) (7, 1) Example.objects Example.setups_made Example.started
    (follow_run _ _ _ _ _ _ _ Example.in_order_follows) (Example.final_complete _) (Example.gathered _)
    eq_refl eq_refl) as [_ [H1 _]].
  pose proof (archive_entries_selected Example.link Example.resolver Example.setups Example.defs Example.table Example.start
    _ _ _ (1, 3) (8, 1) Example.objects Example.setups_made Example.started
    (follow_run _ _ _ _ _ _ _ Example.in_order_follows) (Example.final_complete _) (Example.gathered _)
    eq_refl eq_refl) as [_ [_ H2]].
  split; [apply H1; by exists 1|]. intros [n Hn]%H2. vm_compute in Hn. discriminate.
Defined.

Lemma resolution_schedule_irrelevant_witness :
  Example.canonicalise [Example.undefined_w 3; Example.undefined_w 6] =
  Example.canonicalise [Example.undefined_w 6; Example.undefined_w 3].
Proof.
  destruct (resolution_schedule_irrelevant _ _ _ _ _ _ _ _ _ _
    (Example.links _ _ _ Example.in_order_follows) (Example.links _ _ _ Example.interleaved_follows)) as (_ & _ & _ & H).
  exact (H _ _ eq_refl eq_refl eq_refl Example.is_numbered (2, 0) ∅ SharedObject Example.canon).
Defined.

Lemma undefined_names_agree_witness :
  exists s', Example.canonicalise [Example.undefined_w 3; Example.undefined_w 6] = Ok s' /\
    index (c_definitions s') 3 = Ok 6 /\ index (c_definitions s') 6 = Ok 6.
Proof.
  destruct (Example.canonicalise [Example.undefined_w 3; Example.undefined_w 6]) as [s'| |] eqn:E;
    [|vm_compute in E; discriminate..].
  exists s'. split; [reflexivity|].
  destruct (undefined_names_agree _ _ _ _ _ _ _ _ _ [119] (Example.undefined_w 3) (Example.undefined_w 6) E)
    as (e & H3 & H6 & He & _ & _).
  - reflexivity.
  - repeat constructor; cbn; lia.
  - cbn. apply NoDup_ListNoDup. repeat constructor; cbn; lia.
  - by left.
  - right. by left.
  - done.
  - done.
  - cbn in H3, H6. assert (index (c_definitions s') 6 = Ok 6) as H by (vm_compute in E; injection E as <-; reflexivity).
    rewrite H in H6. injection H6 as <-. by split.
Defined.

(** ** What modelling showed *)

(** The chunks after the first take the versions of the wrong symbols: two chunks of one
    symbol each, where only the second symbol of the file has a version. *)
Definition versioned_object : InputObject :=
  mkInputObject 0 [Example.sym 102; Example.sym 103] (Ok [None; Some [118]]) false false false false.

Lemma chunks_lose_versions :
  resolve_symbols Example.link [0; 0] versioned_object (mkRequest (1, 0) 0 0 2) =
    Ok [Define 0 4; NonIrRef 4; Request (1, 1); PushUndefined (mkUndefined None (Versioned ([103], [118])) 1)] /\
  resolve_symbols Example.link [0; 0] versioned_object (mkRequest (1, 0) 1 1 1) =
    Ok [Define 1 7; NonIrRef 7; Request (1, 2)].
Proof. split; vm_compute; reflexivity. Qed.
