(* ===== verification/StringMerge.v ===== *)
(** Merging of identical strings: [libjdxld/src/string_merging.rs].

    The merge sections that go into one output section are cut into groups of about the
    same size ([split_sections]).  In a first phase the strings of a group are found,
    hashed and put into sixteen buckets ([process_input_section]); in a second phase each
    bucket takes the strings of the groups, in the order of the groups, and gives every new
    string a place ([process_split_output]).  Tasks of both phases run in parallel and hand
    work to each other through a table of slots, and a pool of vectors bounds the number of
    groups that are under way.  This is a step relation here ([exec]), whose steps are the
    atomic operations of the code.

    Offsets into the input and into the output are sums of lengths of slices in memory and
    do not wrap; the offsets within a bucket are 32 bits wide in the code and here.

    The offset map of the [sharded_offset_map] crate is a finite map that has room for some
    of the offsets of a block only: [accepts] tells which.  The hash function is a
    parameter as well.  Where an operation fails, the offsets it has stored so far are left
    out: an error ends the link, and nothing looks at the offsets again.

    This file has the definitions, and shows that the groups of any size together have
    exactly the strings of the sections and what a bucket holds after it has been given a
    list of strings; [MergeTasks] is about the tasks. *)
From Stdlib Require Import ZArith Lia Permutation.
From stdpp Require Import base list list_numbers numbers strings option gmap sorting.
From S2P Require Import Prelude.

Local Open Scope Z_scope.

Definition MERGE_STRING_BUCKET_BITS : Z := 4.
Definition MERGE_STRING_BUCKETS : Z := Z.shiftl 1 MERGE_STRING_BUCKET_BITS.
Definition num_buckets : nat := Z.to_nat MERGE_STRING_BUCKETS.
Definition MAP_BLOCK_SIZE : Z := 256.

(** [u64::next_multiple_of]. *)
Definition next_multiple_of (n block : Z) : Z := (n + (block - 1)) / block * block.

(** [memchr::memchr]: where the byte is first found. *)
Fixpoint memchr (b : Z) (l : list Z) : option nat :=
  match l with
  | [] => None
  | x :: l => if x =? b then Some 0%nat else S <$> memchr b l
  end.

(** ** Input sections *)
Record StringMergeInputSection := mkInput {
  section_data : list Z;
  start_input_offset : Z;
  is_string : bool
}.

Definition data_len (sec : StringMergeInputSection) : Z := Z.of_nat (length (section_data sec)).
Definition padded_len (sec : StringMergeInputSection) : Z := next_multiple_of (data_len sec) MAP_BLOCK_SIZE.

(** [SectionSlot::MergeStrings] with its [start_input_offset], or another slot. *)
Definition SectionSlot : Type := option Z.

Record StringMergeSectionExtra := mkExtra {
  extra_index : Z;
  extra_section_data : list Z;
  extra_is_strings : bool
}.

(** A resolved object: the ids of its sections start at [mo_section_id_start]. *)
Record MergeObject := mkMergeObject {
  mo_sections : list SectionSlot;
  mo_extras : list StringMergeSectionExtra;
  mo_section_id_start : Z
}.

Record GroupedSections := mkGrouped {
  input_sections : gmap Z (list StringMergeInputSection);   (* by output section *)
  starting_offsets : gmap Z Z
}.

Section Grouping.
(** The part ids of all input sections, and the output section of a part. *)
Context (section_part_ids : list Z) (output_section_id : Z -> Z).

Definition group_extra (section_id_start : Z) (extra : StringMergeSectionExtra)
    (state : list SectionSlot * GroupedSections) : res (list SectionSlot * GroupedSections) :=
  let '(sections, g) := state in
  slot ← index sections (extra_index extra);
  match slot with
  | None => Err "Internal error: expected SectionSlot::MergeStrings"
  | Some _ =>
      part_id ← index section_part_ids (section_id_start + extra_index extra);
      let section_id := output_section_id part_id in
      let starting_offset := default 0 (starting_offsets g !! section_id) in
      let sec := mkInput (extra_section_data extra) starting_offset (extra_is_strings extra) in
      Ok (<[Z.to_nat (extra_index extra) := Some starting_offset]> sections,
          mkGrouped (<[section_id := default [] (input_sections g !! section_id) ++ [sec]]> (input_sections g))
            (<[section_id := starting_offset + next_multiple_of (data_len sec) MAP_BLOCK_SIZE]> (starting_offsets g)))
  end.

Definition group_object (obj : MergeObject) (state : list MergeObject * GroupedSections) :
    res (list MergeObject * GroupedSections) :=
  let '(done, g) := state in
  '(sections, g) ← for_each (group_extra (mo_section_id_start obj)) (mo_extras obj) (mo_sections obj, g);
  Ok (done ++ [mkMergeObject sections (mo_extras obj) (mo_section_id_start obj)], g).

Definition group_merge_string_sections_by_output (objects : list MergeObject) :
    res (list MergeObject * GroupedSections) :=
  for_each group_object objects ([], mkGrouped ∅ ∅).
End Grouping.

(** ** Groups *)
Record SectionGroup := mkSectionGroup {
  group_index : nat;
  group_sections : list StringMergeInputSection;
  group_range : Z * Z               (* only strings that start here *)
}.

Section Split.
Context (sections : list StringMergeInputSection) (size : Z).

(** The inner loop; [rest] is [sections[section_index..]].  The result is the last section
    taken from, how far, what remained of the size, and whether the section was used up. *)
Fixpoint fill_group (rest : list StringMergeInputSection) (section_index : nat) (offset_in_section remaining : Z) :
    res (nat * Z * Z * bool) :=
  if remaining <=? 0 then Ok (section_index, offset_in_section, remaining, false)
  else
    match rest with
    | [] => Panic
    | sec :: rest =>
        let available := padded_len sec - offset_in_section in
        if (remaining <? available) && is_string sec then
          Ok (section_index, offset_in_section + remaining, 0, false)
        else
          let remaining := remaining - available in
          if (remaining <=? 0) || (match rest with [] => true | _ => false end) then
            Ok (section_index, offset_in_section + available, remaining, true)
          else fill_group rest (S section_index) 0 remaining
    end.

(** One round of the outer loop: the group, where to go on, and the length of its shard. *)
Definition next_group (index_ : nat) (section_index : nat) (offset_in_section : Z) :
    res (SectionGroup * nat * Z * Z) :=
  '(end_index, end_offset, remaining, end_section) ←
    fill_group (drop section_index sections) section_index offset_in_section size;
  first ← index sections (Z.of_nat section_index);
  last ← index sections (Z.of_nat end_index);
  let group := mkSectionGroup index_ (take (S end_index - section_index) (drop section_index sections))
                 (start_input_offset first + offset_in_section, start_input_offset last + end_offset) in
  Ok (group, if end_section : bool then S end_index else end_index, if end_section then 0 else end_offset,
      size - remaining).

(** The outer loop, if it ends within [fuel] rounds. *)
Fixpoint split_loop (fuel : nat) (section_index : nat) (offset_in_section : Z) (result : list SectionGroup) :
    option (res (list SectionGroup)) :=
  if (section_index <? length sections)%nat then
    match fuel with
    | O => None
    | S fuel =>
        match next_group (length result) section_index offset_in_section with
        | Ok (group, section_index, offset_in_section, _) =>
            split_loop fuel section_index offset_in_section (result ++ [group])
        | Err e => Some (Err e)
        | Panic => Some Panic
        end
    end
  else Some (Ok result).

Definition split_sections (fuel : nat) : option (res (list SectionGroup)) :=
  if size mod MAP_BLOCK_SIZE =? 0 then split_loop fuel 0 0 [] else Some Panic.

Definition total_input_size : Z :=
  match last sections with
  | Some sec => start_input_offset sec + padded_len sec
  | None => 0
  end.
End Split.

(** ** Phase 1: finding the strings *)

(** Where the offset of a string is stored once it is known: in the cell the shard of the
    offset map gave for an input offset, or among the offsets that did not fit. *)
Inductive OffsetOut := InShard (input_offset : Z) | Overflow (input_offset : Z).
#[export] Instance offset_out_eq_dec : EqDecision OffsetOut.
Proof. solve_decision. Defined.

Record StringToMerge := mkToMerge { bytes : list Z; offset_out : OffsetOut }.
#[export] Instance string_to_merge_eq_dec : EqDecision StringToMerge.
Proof. solve_decision. Defined.

Record SplitState := mkSplit {
  buckets : list (list StringToMerge);
  shard : list Z                    (* the offsets inserted into the shard *)
}.

Definition empty_split : SplitState := mkSplit (replicate num_buckets []) [].

Section Phase1.
Context (hash_bytes : list Z -> Z) (accepts : list Z -> Z -> bool).

Definition bucket_of (data : list Z) : nat := Z.to_nat (hash_bytes data mod MERGE_STRING_BUCKETS).

Definition insert_data (data : list Z) (input_offset : Z) (s : SplitState) : SplitState :=
  let fits := accepts (shard s) input_offset in
  mkSplit (alter (fun l => l ++ [mkToMerge data (if fits then InShard input_offset else Overflow input_offset)])
             (bucket_of data) (buckets s))
    (if fits then shard s ++ [input_offset] else shard s).

Definition not_terminated : String.string := "String in merge-string section is not null-terminated".

Definition take_string (source : list Z) : res (list Z * list Z) :=
  match memchr 0 source with
  | Some i => Ok (take (S i) source, drop (S i) source)
  | None => Err not_terminated
  end.

(** The loop over a string section; a string has at least one byte, so the length of
    [remaining] is fuel enough. *)
Fixpoint split_strings (fuel : nat) (remaining : list Z) (input_offset range_end : Z) (s : SplitState) :
    res SplitState :=
  match fuel, remaining with
  | S fuel, _ :: _ =>
      if input_offset <? range_end then
        '(data, remaining) ← take_string remaining;
        split_strings fuel remaining (input_offset + Z.of_nat (length data)) range_end
          (insert_data data input_offset s)
      else Ok s
  | _, _ => Ok s
  end.

(** How much of the section is before the first string that starts in the range. *)
Definition skip_to_range (remaining : list Z) (offset_in_section : Z) : res nat :=
  before ← index remaining (offset_in_section - 1);
  if before =? 0 then Ok (Z.to_nat offset_in_section)
  else Ok (match memchr 0 (drop (Z.to_nat offset_in_section) remaining) with
           | Some null_offset => (Z.to_nat offset_in_section + null_offset + 1)%nat
           | None => length remaining
           end).

Definition process_input_section (range : Z * Z) (input_section : StringMergeInputSection) (s : SplitState) :
    res SplitState :=
  let start := start_input_offset input_section in
  advance ← (if start <? range.1 then skip_to_range (section_data input_section) (range.1 - start) else Ok 0%nat);
  let remaining := drop advance (section_data input_section) in
  let input_offset := start + Z.of_nat advance in
  if is_string input_section then split_strings (length remaining) remaining input_offset range.2 s
  else Ok (insert_data remaining input_offset s).

(** The work of [process_input_section_group] on its own data. *)
Definition split_group (group : SectionGroup) : res SplitState :=
  for_each (process_input_section (group_range group)) (group_sections group) empty_split.
End Phase1.

(** ** Phase 2: placing the strings *)
Record Bucket := mkBucket {
  bucket_index : nat;
  next_input_group_index : nat;
  strings_ : list (list Z);
  next_offset : Z;
  input_string_byte_size : Z;
  input_string_count : Z;
  string_offsets : gmap (list Z) Z
}.

(** [MergeStringsSectionBucket::new]. *)
Definition new_bucket (i : nat) : Bucket := mkBucket i 0 [] 0 0 0 ∅.

(** [BucketOffset::new]: the bucket in the upper bits. *)
Definition bucket_bits_shift : Z := 32 - MERGE_STRING_BUCKET_BITS.
Definition too_large : String.string := "Merge-string bucket too large".

Definition bucket_offset_new (offset : Z) (bucket : nat) : res Z :=
  if Z.shiftl 1 bucket_bits_shift <=? offset then Err too_large
  else Ok (Z.lor (wshl 32 (Z.of_nat bucket) bucket_bits_shift) offset).

Definition bucket_offset_bucket (o : Z) : Z := Z.shiftr o bucket_bits_shift.
Definition offset_in_bucket (o : Z) : Z := Z.land o (Z.shiftl 1 bucket_bits_shift - 1).

Definition add_string (s : list Z) (b : Bucket) : res (Z * Bucket) :=
  let byte_size := input_string_byte_size b + Z.of_nat (length s) in
  let count := input_string_count b + 1 in
  let '(offset, b) :=
    match string_offsets b !! s with
    | Some offset =>
        (offset, mkBucket (bucket_index b) (next_input_group_index b) (strings_ b) (next_offset b) byte_size count
                   (string_offsets b))
    | None =>
        (next_offset b,
         mkBucket (bucket_index b) (next_input_group_index b) (strings_ b ++ [s])
           (wadd 32 (next_offset b) (wrap 32 (Z.of_nat (length s)))) byte_size count
           (<[s := next_offset b]> (string_offsets b)))
    end in
  o ← bucket_offset_new offset (bucket_index b);
  Ok (o, b).

(** What the tasks share: the cells of the offset map and the list of the other offsets. *)
Record OffsetStore := mkStore { cells : gmap Z Z; overflowed : list (Z * Z) }.

Definition store_offset (out : OffsetOut) (o : Z) (st : OffsetStore) : OffsetStore :=
  match out with
  | InShard i => mkStore (<[i := o]> (cells st)) (overflowed st)
  | Overflow i => mkStore (cells st) (overflowed st ++ [(i, o)])
  end.

Definition merge_one (x : StringToMerge) (state : Bucket * OffsetStore) : res (Bucket * OffsetStore) :=
  '(o, b) ← add_string (bytes x) state.1;
  Ok (b, store_offset (offset_out x) o state.2).

Definition process_split_output (strings_to_merge : list StringToMerge) (state : Bucket * OffsetStore) :
    res (Bucket * OffsetStore) :=
  for_each merge_one strings_to_merge state.

Definition advance_group (b : Bucket) : Bucket :=
  mkBucket (bucket_index b) (S (next_input_group_index b)) (strings_ b) (next_offset b) (input_string_byte_size b)
    (input_string_count b) (string_offsets b).

(** ** The tasks *)
Inductive StringsSlot := Empty | WaitingForStrings (b : Bucket) | Strings (l : list StringToMerge).

(** What a task does next.  [TryReserve] and [Exchange] are the load and the
    compare-exchange of [try_reserve] within [try_spawn_input_processing]; what follows the
    call is the rest of the bucket's task, or nothing for the first call.  [Spawned] is the
    closure of an input task before it pops a group, [TakeVecs] takes its vectors from the
    pool, [StoreStrings] swaps the slots of a group from a bucket on. *)
Inductive task :=
| TryReserve (next : option Bucket)
| Exchange (available_ : Z) (next : option Bucket)
| Spawned
| TakeVecs (group : SectionGroup) (reserved : nat) (taken : nat)
| StoreStrings (group : nat) (bucket : nat) (rest : list (list StringToMerge))
| WorkWithBucket (b : Bucket)
| ReturnVec (b : Bucket)
| CountVec (b : Bucket).

Record MergeState := mkMerge {
  tasks : list task;
  unprocessed : list SectionGroup;
  available : Z;                    (* the counter of the pool *)
  string_vecs : Z;                  (* the vectors in its queue *)
  slots : list StringsSlot;         (* [strings_by_bucket_and_group] *)
  finished_shards : gmap nat (list Z);
  finished_buckets : list Bucket;
  offsets : OffsetStore;
  error : option String.string     (* a queue of capacity one *)
}.

Definition string_bucket_offset (input bucket : nat) : nat := (input * num_buckets + bucket)%nat.

Definition set_tasks (t : list task) (s : MergeState) : MergeState :=
  mkMerge t (unprocessed s) (available s) (string_vecs s) (slots s) (finished_shards s) (finished_buckets s)
    (offsets s) (error s).
Definition spawn (t : list task) (s : MergeState) : MergeState := set_tasks (tasks s ++ t) s.
Definition set_unprocessed (u : list SectionGroup) (s : MergeState) : MergeState :=
  mkMerge (tasks s) u (available s) (string_vecs s) (slots s) (finished_shards s) (finished_buckets s) (offsets s)
    (error s).
Definition set_available (n : Z) (s : MergeState) : MergeState :=
  mkMerge (tasks s) (unprocessed s) n (string_vecs s) (slots s) (finished_shards s) (finished_buckets s) (offsets s)
    (error s).
Definition set_string_vecs (n : Z) (s : MergeState) : MergeState :=
  mkMerge (tasks s) (unprocessed s) (available s) n (slots s) (finished_shards s) (finished_buckets s) (offsets s)
    (error s).
Definition set_slots (l : list StringsSlot) (s : MergeState) : MergeState :=
  mkMerge (tasks s) (unprocessed s) (available s) (string_vecs s) l (finished_shards s) (finished_buckets s)
    (offsets s) (error s).
Definition finish_shard (g : nat) (l : list Z) (s : MergeState) : MergeState :=
  mkMerge (tasks s) (unprocessed s) (available s) (string_vecs s) (slots s) (<[g := l]> (finished_shards s))
    (finished_buckets s) (offsets s) (error s).
Definition finish_bucket (b : Bucket) (s : MergeState) : MergeState :=
  mkMerge (tasks s) (unprocessed s) (available s) (string_vecs s) (slots s) (finished_shards s)
    (finished_buckets s ++ [b]) (offsets s) (error s).
Definition set_offsets (st : OffsetStore) (s : MergeState) : MergeState :=
  mkMerge (tasks s) (unprocessed s) (available s) (string_vecs s) (slots s) (finished_shards s) (finished_buckets s)
    st (error s).
Definition push_error (e : String.string) (s : MergeState) : MergeState :=
  mkMerge (tasks s) (unprocessed s) (available s) (string_vecs s) (slots s) (finished_shards s) (finished_buckets s)
    (offsets s) (match error s with Some old => Some old | None => Some e end).

Section Tasks.
Context (hash_bytes : list Z -> Z) (accepts : list Z -> Z -> bool).
(** The number of groups, and the capacity of the pool. *)
Context (num_input_groups : nat) (capacity : Z).

Definition swap_strings_slot (input bucket : nat) (slot : StringsSlot) (s : MergeState) :
    res (StringsSlot * MergeState) :=
  old ← index (slots s) (Z.of_nat (string_bucket_offset input bucket));
  Ok (old, set_slots (<[string_bucket_offset input bucket := slot]> (slots s)) s).

Definition continue (next : option Bucket) : list task :=
  match next with Some b => [WorkWithBucket (advance_group b)] | None => [] end.

(** The offsets a shard took are inserted with value 0. *)
Definition insert_shard (l : list Z) (st : OffsetStore) : OffsetStore :=
  mkStore (foldl (fun m i => <[i := 0]> m) (cells st) l) (overflowed st).

(** [ReusePool::try_reserve], within the loop of [try_spawn_input_processing]: the load, and the
    compare-exchange, after which an input task is spawned. *)
Definition try_reserve_load (next : option Bucket) (s : MergeState) : res MergeState :=
  if available s <? MERGE_STRING_BUCKETS then Ok (spawn (continue next) s)
  else Ok (spawn [Exchange (available s) next] s).

Definition try_reserve_exchange (available_ : Z) (next : option Bucket) (s : MergeState) : res MergeState :=
  if available s =? available_ then
    Ok (spawn [Spawned; TryReserve next] (set_available (available_ - MERGE_STRING_BUCKETS) s))
  else Ok (spawn (continue next) s).

(** [ReusePool::unreserve]. *)
Definition unreserve (remaining : Z) (s : MergeState) : MergeState := set_available (available s + remaining) s.

(** The start of an input task. *)
Definition pop_group (s : MergeState) : res MergeState :=
  match unprocessed s with
  | [] => Ok (unreserve MERGE_STRING_BUCKETS s)
  | group :: rest => Ok (spawn [TakeVecs group num_buckets 0] (set_unprocessed rest s))
  end.

Definition take_string_merge_vec (group : SectionGroup) (reserved taken : nat) (s : MergeState) : res MergeState :=
  match reserved with
  | O => Panic
  | S reserved => Ok (spawn [TakeVecs group reserved (S taken)] (set_string_vecs (Z.max 0 (string_vecs s - 1)) s))
  end.

(** The rest of [process_input_section_group] up to the swaps of the slots. *)
Definition split_and_finish (group : SectionGroup) (reserved : nat) (s : MergeState) : res MergeState :=
  match split_group hash_bytes accepts group with
  | Ok out =>
      Ok (spawn [StoreStrings (group_index group) 0 (buckets out)]
            (finish_shard (group_index group) (shard out)
               (set_offsets (insert_shard (shard out) (offsets s)) s)))
  | Err e => Ok (unreserve (Z.of_nat reserved) (push_error e s))
  | Panic => Panic
  end.

Definition store_strings (group bucket : nat) (strings : list StringToMerge) (rest : list (list StringToMerge))
    (s : MergeState) : res MergeState :=
  '(prev_slot, s) ← swap_strings_slot group bucket (Strings strings) s;
  Ok (spawn (StoreStrings group (S bucket) rest ::
             match prev_slot with WaitingForStrings b => [WorkWithBucket b] | _ => [] end) s).

(** A round of the loop of [work_with_bucket] up to the return of the vector. *)
Definition work_with_bucket (b : Bucket) (s : MergeState) : res MergeState :=
  if (next_input_group_index b <? num_input_groups)%nat then
    '(slot, s) ← swap_strings_slot (next_input_group_index b) (bucket_index b) Empty s;
    match slot with
    | Strings strings =>
        match process_split_output strings (b, offsets s) with
        | Ok (b, st) => Ok (spawn [ReturnVec b] (set_offsets st s))
        | Err e => Ok (push_error e s)
        | Panic => Panic
        end
    | _ =>
        '(_, s) ← swap_strings_slot (next_input_group_index b) (bucket_index b) (WaitingForStrings b) s;
        Ok s
    end
  else Ok (finish_bucket b s).

(** [ReusePool::return_strings_to_merge]: the push, and the addition. *)
Definition return_vec (b : Bucket) (s : MergeState) : res MergeState :=
  if string_vecs s <? capacity then Ok (spawn [CountVec b] (set_string_vecs (string_vecs s + 1) s)) else Panic.

Definition count_vec (b : Bucket) (s : MergeState) : res MergeState :=
  Ok (spawn [TryReserve (Some b)] (set_available (available s + 1) s)).

(** A step of a task, which has been taken from [tasks]. *)
Definition exec (t : task) (s : MergeState) : res MergeState :=
  match t with
  | TryReserve next => try_reserve_load next s
  | Exchange available_ next => try_reserve_exchange available_ next s
  | Spawned => pop_group s
  | TakeVecs group reserved taken =>
      if (taken <? num_buckets)%nat then take_string_merge_vec group reserved taken s else split_and_finish group reserved s
  | StoreStrings group bucket [] => Ok s
  | StoreStrings group bucket (strings :: rest) => store_strings group bucket strings rest s
  | WorkWithBucket b => work_with_bucket b s
  | ReturnVec b => return_vec b s
  | CountVec b => count_vec b s
  end.

Definition step_task (i : nat) (s : MergeState) : option (res MergeState) :=
  match tasks s !! i with
  | Some t => Some (exec t (set_tasks (delete i (tasks s)) s))
  | None => None
  end.

(** Any task goes next. *)
Inductive run : MergeState -> MergeState -> Prop :=
| run_nil s : run s s
| run_cons i s s1 s' : step_task i s = Some (Ok s1) -> run s1 s' -> run s s'.

(** The schedule that picks the given tasks. *)
Fixpoint follow (picks : list nat) (s : MergeState) : option MergeState :=
  match picks with
  | [] => Some s
  | i :: picks => match step_task i s with Some (Ok s1) => follow picks s1 | _ => None end
  end.

(** [create_split_resources] and the first call: every bucket waits for the first group. *)
Definition initial_slots : list StringsSlot :=
  imap (fun i slot => if (i <? num_buckets)%nat then WaitingForStrings (new_bucket i) else slot)
    (replicate (num_input_groups * num_buckets) Empty).

Definition initial_state (groups : list SectionGroup) : MergeState :=
  mkMerge [TryReserve None] groups capacity 0 initial_slots ∅ [] (mkStore ∅ []) None.
End Tasks.

(** ** The merged section *)
Record MergedStringsSection := mkMerged {
  merged_buckets : list Bucket;
  bucket_offsets : list Z;
  merged_string_offsets : gmap Z Z;
  overflowed_string_offsets : gmap Z Z
}.

(** [HashMap::insert] for the offsets that did not fit, in any order. *)
Definition overflow_map (l : list (Z * Z)) : gmap Z Z := foldl (fun m '(i, o) => <[i := o]> m) ∅ l.

Definition compute_bucket_offsets (sorted : list Bucket) : res (list Z) :=
  for_each (fun i offs =>
      prev ← index offs (i - 1);
      b ← index sorted (i - 1);
      index_update offs i (fun _ => prev + next_offset b))
    (seqZ 1 (MERGE_STRING_BUCKETS - 1)) (replicate num_buckets 0).

Definition by_index (a b : Bucket) : Prop := (bucket_index a <= bucket_index b)%nat.
#[export] Instance by_index_dec : RelDecision by_index.
Proof. intros a b. unfold by_index. apply _. Defined.

(** The end of [add_input_sections]. *)
Definition finalise (s : MergeState) : res MergedStringsSection :=
  match error s with
  | Some e => Err e
  | None =>
      let sorted := merge_sort by_index (finished_buckets s) in
      offs ← compute_bucket_offsets sorted;
      Ok (mkMerged sorted offs (cells (offsets s)) (overflow_map (overflowed (offsets s))))
  end.

(** [MergedStringsSection::len]. *)
Definition merged_len (sec : MergedStringsSection) : res Z :=
  match last (merged_buckets sec) with
  | Some b => base ← index (bucket_offsets sec) (Z.of_nat (bucket_index b)); Ok (next_offset b + base)
  | None => Ok 0
  end.

(** [write_merged_strings_to_buffer]: every bucket gets [len] bytes of the buffer and
    writes its strings to them one after the other. *)
Definition write_bucket (b : Bucket) (buffer : list Z) : res (list Z * list Z) :=
  if next_offset b <=? Z.of_nat (length buffer) then
    let own := take (Z.to_nat (next_offset b)) buffer in
    let text := concat (strings_ b) in
    if (length text <=? length own)%nat then
      Ok (text ++ drop (length text) own, drop (Z.to_nat (next_offset b)) buffer)
    else Panic
  else Panic.

Fixpoint write_merged_strings_to_buffer (bs : list Bucket) (buffer : list Z) : res (list Z) :=
  match bs with
  | [] => Ok buffer
  | b :: bs =>
      '(text, rest) ← write_bucket b buffer;
      tail ← write_merged_strings_to_buffer bs rest;
      Ok (text ++ tail)
  end.

Definition lookup_offset (sec : MergedStringsSection) (i : Z) : option Z :=
  match merged_string_offsets sec !! i with
  | Some o => Some o
  | None => overflowed_string_offsets sec !! i
  end.

(** The search backwards for the string an offset points into; [i] bytes before. *)
Fixpoint search_back (sec : MergedStringsSection) (start : Z) (input_offset : Z) (i : Z) (steps : nat) : option Z :=
  match steps with
  | O => None
  | S steps =>
      match lookup_offset sec (start + (input_offset - i)) with
      | Some o => Some (wadd 32 o (wrap 32 i))
      | None => search_back sec start input_offset (i + 1) steps
      end
  end.

Definition find_string (merge_slot : Z) (input_offset : Z) (sec : MergedStringsSection) : res Z :=
  match lookup_offset sec (merge_slot + input_offset) with
  | Some o => Ok o
  | None =>
      match search_back sec merge_slot input_offset 1 (Z.to_nat input_offset) with
      | Some o => Ok o
      | None => Err "Failed to find merge-string at offset {}"
      end
  end.

(** A symbol as the [object] crate reads it. *)
Record MergeSymbol := mkMergeSymbol { symbol_section : res (option Z); symbol_value : Z; has_name : bool }.

Section Addresses.
Context (section_part_ids : list Z) (output_section_id : Z -> Z).
Context (merged_strings : Z -> MergedStringsSection) (start_addresses : Z -> list Z).

Definition get_merged_string_output_address (symbol : res MergeSymbol) (addend : Z) (sections : list SectionSlot)
    (section_id_start : Z) (zero_unnamed : bool) : res (option Z) :=
  symbol ← symbol;
  section ← symbol_section symbol;
  match section with
  | None => Ok None
  | Some section_index =>
      slot ← index sections section_index;
      match slot with
      | None => Ok None
      | Some merge_slot =>
          if negb (has_name symbol) && zero_unnamed then Ok (Some 0)
          else
            let input_offset := if has_name symbol then symbol_value symbol
                                else wadd 64 (symbol_value symbol) (wrap 64 addend) in
            part_id ← index section_part_ids (section_id_start + section_index);
            let section_id := output_section_id part_id in
            string_offset ← find_string merge_slot input_offset (merged_strings section_id);
            bucket_base ← index (start_addresses section_id) (bucket_offset_bucket string_offset);
            let address := bucket_base + offset_in_bucket string_offset in
            Ok (Some (if has_name symbol then wadd 64 address (wrap 64 addend) else address))
      end
  end.
End Addresses.

(** [MergedStringStartAddresses::compute], for a regular section at [base]. *)
Definition compute_start_addresses (base : Z) (sec : MergedStringsSection) : list Z :=
  map (fun offset => offset + base) (bucket_offsets sec).

(** ** The strings of a section *)

(** A string by its input offset; the rest of a section that is not terminated is an error. *)
Definition piece : Type := Z * res (list Z).

Fixpoint string_pieces (fuel : nat) (l : list Z) (o : Z) : list piece :=
  match fuel, l with
  | S fuel, _ :: _ =>
      match memchr 0 l with
      | Some i => (o, Ok (take (S i) l)) :: string_pieces fuel (drop (S i) l) (o + Z.of_nat (S i))
      | None => [(o, Err not_terminated)]
      end
  | _, _ => []
  end.

Definition pieces (sec : StringMergeInputSection) : list piece :=
  if is_string sec then string_pieces (length (section_data sec)) (section_data sec) (start_input_offset sec)
  else [(start_input_offset sec, Ok (section_data sec))].

Definition all_pieces (sections : list StringMergeInputSection) : list piece := concat (map pieces sections).

(** One section after the other, each rounded up to a block. *)
Fixpoint contiguous (o : Z) (sections : list StringMergeInputSection) : Prop :=
  match sections with
  | [] => True
  | sec :: sections => start_input_offset sec = o /\ contiguous (o + padded_len sec) sections
  end.

Definition not_empty (sec : StringMergeInputSection) : Prop := section_data sec <> [].

Definition in_range (range : Z * Z) (p : piece) : Prop := range.1 <= p.1 < range.2.
#[export] Instance in_range_dec range p : Decision (in_range range p).
Proof. unfold in_range. apply _. Defined.

Definition before (x : Z) (p : piece) : Prop := p.1 < x.
#[export] Instance before_dec x p : Decision (before x p).
Proof. unfold before. apply _. Defined.

Definition from (x : Z) (p : piece) : Prop := x <= p.1.
#[export] Instance from_dec x p : Decision (from x p).
Proof. unfold from. apply _. Defined.

Lemma memchr_some b l i :
  memchr b l = Some i -> l !! i = Some b /\ (i < length l)%nat /\ forall j, (j < i)%nat -> l !! j <> Some b.
Proof.
  revert i. induction l as [|x l IH]; intros i; cbn; [done|]. destruct (x =? b) eqn:E.
  - apply Z.eqb_eq in E as ->. intros [= <-]. split_and!; [done|lia|lia].
  - apply Z.eqb_neq in E. destruct (memchr b l) as [k|]; cbn; [|done]. intros [= <-].
    destruct (IH k eq_refl) as (H1 & H2 & H3). split_and!; [done|lia|]. intros [|j] Hj; cbn; [congruence|apply H3; lia].
Qed.

Lemma memchr_none b l : memchr b l = None -> forall j, l !! j <> Some b.
Proof.
  induction l as [|x l IH]; cbn; [by intros _ []|]. destruct (x =? b) eqn:E; [done|]. apply Z.eqb_neq in E.
  destruct (memchr b l); [done|]. intros _ [|j]; cbn; [congruence|by apply IH].
Qed.

Lemma memchr_found b l i :
  l !! i = Some b -> (forall j, (j < i)%nat -> l !! j <> Some b) -> memchr b l = Some i.
Proof.
  intros Hi Hj. destruct (memchr b l) as [k|] eqn:E.
  - apply memchr_some in E as (Hk & _ & Hk'). f_equal. destruct (Nat.lt_trichotomy k i) as [H|[H|H]]; [|done|].
    + by apply Hj in H.
    + by apply Hk' in H.
  - by destruct (memchr_none _ _ E i).
Qed.

Lemma string_pieces_cases fuel l o : (length l <= fuel)%nat -> l <> [] ->
  (exists i, memchr 0 l = Some i /\ (i < length l)%nat /\
     string_pieces fuel l o =
       (o, Ok (take (S i) l)) :: string_pieces (pred fuel) (drop (S i) l) (o + Z.of_nat (S i))) \/
  memchr 0 l = None /\ string_pieces fuel l o = [(o, Err not_terminated)].
Proof.
  intros Hf Hl. destruct l as [|x l]; [done|]. destruct fuel as [|fuel]; [cbn in Hf; lia|]. cbn [string_pieces pred].
  destruct (memchr 0 (x :: l)) as [i|] eqn:E; [left|by right]. exists i.
  split_and!; [done|by apply (memchr_some _ _ _ E)|done].
Qed.

Lemma string_pieces_fuel fuel fuel' : forall l o, (length l <= fuel)%nat -> (length l <= fuel')%nat ->
  string_pieces fuel l o = string_pieces fuel' l o.
Proof.
  revert fuel'. induction fuel as [|fuel IH]; intros fuel' l o H1 H2.
  - destruct l; [|cbn in H1; lia]. by destruct fuel'.
  - destruct l as [|x l]; [by destruct fuel'|]. destruct fuel' as [|fuel']; [cbn in H2; lia|]. cbn [string_pieces].
    destruct (memchr 0 (x :: l)) as [i|] eqn:E; [|done]. f_equal. apply memchr_some in E as (_ & Hi & _).
    apply IH; rewrite length_drop; cbn in *; lia.
Qed.

Lemma string_pieces_bounds fuel : forall l o p, (length l <= fuel)%nat -> p ∈ string_pieces fuel l o ->
  o <= p.1 < o + Z.of_nat (length l).
Proof.
  induction fuel as [|fuel IH]; intros l o p Hf Hp; [by destruct l; apply elem_of_nil in Hp|].
  destruct l as [|x l]; [by apply elem_of_nil in Hp|].
  destruct (string_pieces_cases (S fuel) (x :: l) o Hf ltac:(done)) as [(i & _ & Hi & E)|[_ E]]; rewrite E in Hp.
  - apply elem_of_cons in Hp as [->|Hp]; [cbn [fst length]; lia|]. cbn [pred] in Hp.
    apply IH in Hp; rewrite length_drop in *; cbn [length] in *; lia.
  - apply list_elem_of_singleton in Hp as ->. cbn [fst length]. lia.
Qed.

Definition ascending (l : list piece) : Prop := StronglySorted (fun p q => p.1 < q.1) l.

Lemma ascending_cons p l : (forall q, q ∈ l -> p.1 < q.1) -> ascending l -> ascending (p :: l).
Proof. intros H Hl. constructor; [done|]. by apply Forall_forall. Qed.

Lemma string_pieces_ascending fuel : forall l o, (length l <= fuel)%nat -> ascending (string_pieces fuel l o).
Proof.
  induction fuel as [|fuel IH]; intros l o Hf; [destruct l; constructor|]. destruct l as [|x l]; [constructor|].
  destruct (string_pieces_cases (S fuel) (x :: l) o Hf ltac:(done)) as [(i & _ & Hi & ->)|[_ ->]].
  - cbn [pred]. apply ascending_cons; [|apply IH; rewrite length_drop; cbn in *; lia].
    intros q Hq. apply string_pieces_bounds in Hq; [cbn [fst]; lia|]. rewrite length_drop. cbn in *; lia.
  - apply ascending_cons; [by intros q ?%elem_of_nil|constructor].
Qed.

Lemma padded_bounds sec : not_empty sec -> 0 < data_len sec /\ data_len sec <= padded_len sec < data_len sec + 256.
Proof.
  intros Hn. unfold padded_len, next_multiple_of, data_len, MAP_BLOCK_SIZE. change (256 - 1) with 255.
  assert (0 < Z.of_nat (length (section_data sec))) by (unfold not_empty in Hn; destruct (section_data sec); [done|cbn; lia]).
  pose proof (Z.div_mod (Z.of_nat (length (section_data sec)) + 255) 256 ltac:(lia)).
  pose proof (Z.mod_pos_bound (Z.of_nat (length (section_data sec)) + 255) 256 ltac:(lia)). lia.
Qed.

Lemma padded_multiple sec : padded_len sec mod 256 = 0.
Proof. unfold padded_len, next_multiple_of, MAP_BLOCK_SIZE. by apply Z.mod_mul. Qed.

Lemma pieces_bounds sec p : not_empty sec -> p ∈ pieces sec ->
  start_input_offset sec <= p.1 < start_input_offset sec + data_len sec.
Proof.
  intros Hn. unfold pieces. destruct (is_string sec).
  - apply string_pieces_bounds. done.
  - intros ->%list_elem_of_singleton. destruct (padded_bounds _ Hn). cbn. lia.
Qed.

Lemma pieces_ascending sec : ascending (pieces sec).
Proof.
  unfold pieces. destruct (is_string sec); [by apply string_pieces_ascending|].
  apply ascending_cons; [by intros q ?%elem_of_nil|constructor].
Qed.

Lemma ascending_app l k : ascending l -> ascending k -> (forall p q, p ∈ l -> q ∈ k -> p.1 < q.1) -> ascending (l ++ k).
Proof.
  intros Hl Hk. induction Hl as [|p l Hl IH Hp]; intros H; [done|]. cbn. apply ascending_cons.
  - intros q [Hq|Hq]%elem_of_app; [by rewrite Forall_forall in Hp; apply Hp|apply H; [by left|done]].
  - apply IH. intros p' q Hp' Hq. apply H; [by right|done].
Qed.

Lemma all_pieces_bounds sections : forall o p, contiguous o sections -> Forall not_empty sections ->
  p ∈ all_pieces sections -> o <= p.1.
Proof.
  induction sections as [|sec sections IH]; intros o p; [by intros _ _ ?%elem_of_nil|]. unfold all_pieces. cbn.
  intros [Hs Hc] [Hn Hns]%Forall_cons [Hp|Hp]%elem_of_app.
  - apply pieces_bounds in Hp; [lia|done].
  - apply (IH _ _ Hc Hns) in Hp. pose proof (padded_bounds _ Hn). lia.
Qed.

Lemma all_pieces_ascending sections : forall o, contiguous o sections -> Forall not_empty sections ->
  ascending (all_pieces sections).
Proof.
  induction sections as [|sec sections IH]; intros o; [constructor|]. unfold all_pieces. cbn.
  intros [Hs Hc] [Hn Hns]%Forall_cons. apply ascending_app; [apply pieces_ascending|by eapply IH|].
  intros p q Hp Hq. apply pieces_bounds in Hp; [|done]. apply (all_pieces_bounds _ _ _ Hc Hns) in Hq.
  pose proof (padded_bounds _ Hn). lia.
Qed.

(** *** Cutting at an offset *)
Lemma filter_included {A} (P : A -> Prop) `{!forall p, Decision (P p)} (l : list A) : (forall p, p ∈ l -> P p) -> filter P l = l.
Proof.
  induction l as [|p l IH]; intros Hp; [done|]. rewrite filter_cons_True by (apply Hp; by left). f_equal. apply IH.
  intros q Hq. apply Hp. by right.
Qed.

Lemma filter_excluded {A} (P : A -> Prop) `{!forall p, Decision (P p)} (l : list A) : (forall p, p ∈ l -> ~ P p) -> filter P l = [].
Proof.
  induction l as [|p l IH]; intros Hp; [done|]. rewrite filter_cons_False by (apply Hp; by left). apply IH.
  intros q Hq. apply Hp. by right.
Qed.

Lemma filter_agree {A} (P Q : A -> Prop) `{!forall p, Decision (P p), !forall p, Decision (Q p)} (l : list A) :
  (forall p, p ∈ l -> P p <-> Q p) -> filter P l = filter Q l.
Proof.
  induction l as [|p l IH]; intros Hp; [done|]. rewrite !filter_cons. rewrite IH by (intros q Hq; apply Hp; by right).
  pose proof (Hp p ltac:(left)). by repeat case_decide; try tauto.
Qed.

Lemma cut_range (l : list piece) lo hi : ascending l -> lo <= hi ->
  filter (before hi) l = filter (before lo) l ++ filter (in_range (lo, hi)) l.
Proof.
  intros Hl Hlo. induction Hl as [|p l Hl IH Hp]; [done|]. rewrite Forall_forall in Hp.
  destruct (decide (p.1 < lo)) as [H1|H1]; [|destruct (decide (p.1 < hi)) as [H2|H2]].
  - rewrite (filter_cons_True (before hi)), (filter_cons_True (before lo)), (filter_cons_False (in_range _))
      by (unfold before, in_range; cbn; lia). cbn. by rewrite IH.
  - rewrite (filter_cons_True (before hi)), (filter_cons_False (before lo)), (filter_cons_True (in_range _))
      by (unfold before, in_range; cbn; lia). rewrite IH.
    rewrite (filter_excluded (before lo)); [done|]. intros q Hq. apply Hp in Hq. unfold before. lia.
  - rewrite (filter_cons_False (before hi)), (filter_cons_False (before lo)), (filter_cons_False (in_range _))
      by (unfold before, in_range; cbn; lia). done.
Qed.

(** ** Groups cover the sections *)
Definition group_pieces (g : SectionGroup) : list piece :=
  concat (map (fun sec => filter (in_range (group_range g)) (pieces sec)) (group_sections g)).

(** What phase 1 relies on: a range starts within a section, and only strings are cut. *)
Definition takes_from (range : Z * Z) (sec : StringMergeInputSection) : Prop :=
  not_empty sec /\
  if is_string sec then range.1 - start_input_offset sec <= data_len sec
  else in_range range (start_input_offset sec, Panic).

Lemma fill_group_spec rest : forall k o remaining,
  rest <> [] -> Forall not_empty rest -> 0 < remaining -> remaining mod 256 = 0 -> o mod 256 = 0 -> 0 <= o ->
  (forall sec, head rest = Some sec -> o < padded_len sec /\ (is_string sec = false -> o = 0)) ->
  exists j e rem stop last,
    fill_group rest k o remaining = Ok (j, e, rem, stop) /\ (k <= j)%nat /\ rest !! (j - k)%nat = Some last /\
    e mod 256 = 0 /\ 0 < e /\ (j = k -> o < e) /\
    (if stop then e = padded_len last else e < padded_len last /\ is_string last = true).
Proof.
  induction rest as [|sec rest IH]; intros k o remaining Hne Hall Hr Hrm Hom Ho Hhead; [done|].
  destruct (Hhead sec eq_refl) as [Hsec Hns]. apply Forall_cons in Hall as [Hn Hall].
  destruct (padded_bounds _ Hn) as [Hd Hp]. pose proof (padded_multiple sec) as Hpm.
  cbn [fill_group]. rewrite (proj2 (Z.leb_gt _ _)) by lia.
  destruct ((remaining <? padded_len sec - o) && is_string sec) eqn:E.
  { apply andb_true_iff in E as [E Es]. apply Z.ltb_lt in E.
    exists k, (o + remaining), 0, false, sec. rewrite Nat.sub_diag. split_and!; try done; try lia.
    rewrite Z.add_mod, Hom, Hrm by lia. done. }
  destruct ((remaining - (padded_len sec - o) <=? 0) || match rest with [] => true | _ => false end) eqn:E2.
  { exists k, (o + (padded_len sec - o)), (remaining - (padded_len sec - o)), true, sec. rewrite Nat.sub_diag.
    replace (o + (padded_len sec - o)) with (padded_len sec) by lia. split_and!; try done; lia. }
  apply orb_false_iff in E2 as [E2 E3]. apply Z.leb_gt in E2.
  destruct (IH (S k) 0 (remaining - (padded_len sec - o))) as (j & e & rem & stop & last & H1 & H2 & H3 & H4 & H5 & H6 & H7);
    [by destruct rest|done|lia| |done|lia| |].
  - rewrite Zminus_mod, Hrm, (Zminus_mod (padded_len sec)), Hpm, Hom by lia. done.
  - intros sec' Hs'. destruct rest as [|x rest]; [done|]. injection Hs' as <-. apply Forall_cons in Hall as [Hx _].
    destruct (padded_bounds _ Hx). lia.
  - exists j, e, rem, stop, last. split_and!; try done; [lia| |lia].
    replace (j - k)%nat with (S (j - S k)) by lia. done.
Qed.

Lemma contiguous_lookup sections : forall o k sec, contiguous o sections -> sections !! k = Some sec ->
  start_input_offset sec = o + foldr (fun s acc => padded_len s + acc) 0 (take k sections).
Proof.
  induction sections as [|s sections IH]; intros o [|k] sec; cbn; [done..| |].
  - intros [Hs _] [= <-]. lia.
  - intros [_ Hc] H. rewrite (IH _ _ _ Hc H). cbn. lia.
Qed.

(** Where the sections before [k] end. *)
Definition position (sections : list StringMergeInputSection) (k : nat) : Z :=
  foldr (fun s acc => padded_len s + acc) 0 (take k sections).

Lemma position_S sections k sec : sections !! k = Some sec -> position sections (S k) = position sections k + padded_len sec.
Proof.
  intros H. unfold position. rewrite (take_S_r _ _ _ H), foldr_app. cbn.
  generalize (padded_len sec). intros z. induction (take k sections) as [|s l IH]; cbn; lia.
Qed.

Lemma position_mono sections j k : Forall not_empty sections -> (j <= k)%nat -> position sections j <= position sections k.
Proof.
  intros Hn. induction 1 as [|k _ IH]; [done|]. destruct (sections !! k) as [sec|] eqn:E.
  - rewrite (position_S _ _ _ E). pose proof (Forall_lookup_1 _ _ _ _ Hn E) as Hx. destruct (padded_bounds _ Hx). lia.
  - unfold position in *. apply lookup_ge_None in E. rewrite (take_ge sections (S k)) by lia. by rewrite (take_ge sections k) in IH by lia.
Qed.

Lemma position_step sections j k sec : Forall not_empty sections -> sections !! j = Some sec -> (j < k)%nat ->
  position sections j + padded_len sec <= position sections k.
Proof. intros Hn Hj Hk. rewrite <- (position_S _ _ _ Hj). by apply position_mono. Qed.

Section Cover.
Context (sections : list StringMergeInputSection) (size : Z).
Context (Hcontig : contiguous 0 sections) (Hnonempty : Forall not_empty sections).
Context (Hsize : 0 < size) (Hblock : size mod 256 = 0).

Lemma start_position k sec : sections !! k = Some sec -> start_input_offset sec = position sections k.
Proof. intros H. rewrite (contiguous_lookup _ _ _ _ Hcontig H). unfold position. lia. Qed.

Lemma section_not_empty k sec : sections !! k = Some sec -> not_empty sec.
Proof. intros H. by apply (Forall_lookup_1 _ _ _ _ Hnonempty H). Qed.

(** Where the loop is: at the end, or within a section that may be cut there. *)
Definition good_place (k : nat) (o : Z) : Prop :=
  o mod 256 = 0 /\ 0 <= o /\
  match sections !! k with
  | Some sec => o < padded_len sec /\ (is_string sec = false -> o = 0)
  | None => o = 0 /\ k = length sections
  end.

Lemma slice_elem (i n : nat) sec : sec ∈ take n (drop i sections) ->
  exists m, sections !! m = Some sec /\ (i <= m < i + n)%nat.
Proof.
  intros H. apply list_elem_of_lookup in H as [j Hj]. apply lookup_take_Some in Hj as [Hj Hn].
  rewrite lookup_drop in Hj. exists (i + j)%nat. split; [done|lia].
Qed.

(** Only sections of the slice have strings that start in the range. *)
Lemma slice_pieces i n lo hi : ascending (all_pieces sections) ->
  (forall m sec, sections !! m = Some sec -> ~ (i <= m < i + n)%nat -> forall p, p ∈ pieces sec -> ~ in_range (lo, hi) p) ->
  concat (map (fun sec => filter (in_range (lo, hi)) (pieces sec)) (take n (drop i sections))) =
  filter (in_range (lo, hi)) (all_pieces sections).
Proof.
  intros _ Hout. unfold all_pieces. rewrite <- (take_drop i sections) at 2. rewrite <- (take_drop n (drop i sections)) at 2.
  assert (forall l, filter (in_range (lo, hi)) (concat (map pieces l)) = concat (map (fun sec => filter (in_range (lo, hi)) (pieces sec)) l)) as Hf.
  { induction l as [|x l IH]; [done|]. cbn. by rewrite filter_app, IH. }
  rewrite !map_app, !concat_app, !filter_app, !Hf.
  assert (forall l, (forall sec, sec ∈ l -> filter (in_range (lo, hi)) (pieces sec) = []) ->
    concat (map (fun sec => filter (in_range (lo, hi)) (pieces sec)) l) = []) as Hempty.
  { induction l as [|x l IH]; intros H; [done|]. cbn. rewrite H by left. apply IH. intros y Hy. apply H. by right. }
  rewrite (Hempty (take i sections)), (Hempty (drop n (drop i sections))), app_nil_r; [done| |].
  - intros sec Hs. apply list_elem_of_lookup in Hs as [j Hj]. rewrite !lookup_drop in Hj. apply filter_excluded.
    eapply (Hout _ _ Hj). lia.
  - intros sec Hs. apply list_elem_of_lookup in Hs as [j Hj]. apply lookup_take_Some in Hj as [Hj Hi]. apply filter_excluded.
    eapply (Hout _ _ Hj). lia.
Qed.

Lemma piece_position k sec p : sections !! k = Some sec -> p ∈ pieces sec ->
  position sections k <= p.1 < position sections k + padded_len sec.
Proof.
  intros Hk Hp. pose proof (section_not_empty _ _ Hk) as Hn. apply pieces_bounds in Hp; [|done].
  rewrite (start_position _ _ Hk) in Hp. destruct (padded_bounds _ Hn). lia.
Qed.

Lemma next_group_spec idx k o : good_place k o -> (k < length sections)%nat ->
  exists g k' o' len, next_group sections size idx k o = Ok (g, k', o', len) /\ good_place k' o' /\
    group_index g = idx /\ position sections k + o < position sections k' + o' /\
    group_range g = (position sections k + o, position sections k' + o') /\
    Forall (takes_from (group_range g)) (group_sections g) /\
    group_pieces g = filter (in_range (group_range g)) (all_pieces sections).
Proof.
  intros (Ho & Ho0 & Hk) Hlt. destruct (lookup_lt_is_Some_2 _ _ Hlt) as [first Hfirst]. rewrite Hfirst in Hk.
  destruct (fill_group_spec (drop k sections) k o size) as (j & e & rem & stop & last & Hfill & Hkj & Hlast & Hem & He0 & Hoe & Hstop);
    try done.
  { intros E. apply (f_equal length) in E. rewrite length_drop in E. cbn in E. lia. }
  { by apply Forall_drop. }
  { intros sec Hsec. assert (sections !! k = Some sec) as Hsec'.
    { rewrite <- (Nat.add_0_r k), <- lookup_drop. by destruct (drop k sections). }
    rewrite Hfirst in Hsec'. by injection Hsec' as <-. }
  rewrite lookup_drop in Hlast. replace (k + (j - k))%nat with j in Hlast by lia.
  pose proof (section_not_empty _ _ Hlast) as Hnl. destruct (padded_bounds _ Hnl) as [Hdl Hpl].
  unfold next_group. rewrite Hfill. cbn [mbind res_bind].
  assert (forall n sec, sections !! n = Some sec -> index sections (Z.of_nat n) = Ok sec) as Hindex.
  { intros n sec Hn. unfold index. rewrite decide_True by lia. by rewrite Nat2Z.id, Hn. }
  rewrite (Hindex _ _ Hfirst), (Hindex _ _ Hlast). cbn [mbind res_bind].
  rewrite (start_position _ _ Hfirst), (start_position _ _ Hlast).
  assert (e <= padded_len last) as Hele by (destruct stop; lia).
  eexists _, _, _, _. split; [done|]. cbn [group_index group_range group_sections group_pieces].
  assert (position sections (if stop then S j else j) + (if stop then 0 else e) = position sections j + e) as Hend.
  { destruct stop; [|done]. rewrite (position_S _ _ _ Hlast). lia. }
  rewrite Hend. split_and!; try done.
  - unfold good_place. split; [by destruct stop|]. split; [destruct stop; lia|].
    destruct stop; [|by rewrite Hlast; destruct Hstop as [? ->]]. destruct (sections !! S j) as [sec|] eqn:E.
    + pose proof (section_not_empty _ _ E) as Hx. destruct (padded_bounds _ Hx). lia.
    + apply lookup_ge_None in E. apply lookup_lt_Some in Hlast. lia.
  - destruct (decide (j = k)) as [->|Hne]; [pose proof (Hoe eq_refl); lia|].
    pose proof (position_step _ _ j _ Hnonempty Hfirst ltac:(lia)). lia.
  - apply Forall_forall. intros sec (m & Hm & Hmr)%slice_elem. pose proof (section_not_empty _ _ Hm) as Hn.
    destruct (padded_bounds _ Hn) as [Hd Hp]. pose proof (start_position _ _ Hm) as Hst. unfold takes_from. cbn. split; [done|].
    destruct (decide (m = k)) as [->|Hmk].
    + rewrite Hfirst in Hm. injection Hm as <-. destruct (is_string first) eqn:Es.
      * pose proof (padded_multiple first) as Hpm. rewrite Hst.
        assert (o + 256 <= padded_len first); [|lia]. destruct Hk as [Hk _].
        apply Z.mod_divide in Ho as [a ->]; [|done]. apply Z.mod_divide in Hpm as [b Hb]; [|done]. rewrite Hb in *. nia.
      * unfold in_range. cbn. destruct Hk as [_ Hk]. rewrite (Hk eq_refl) in *. rewrite Hst.
        destruct (decide (j = k)) as [->|Hne]; [lia|]. pose proof (position_step _ _ j _ Hnonempty Hfirst ltac:(lia)). lia.
    + pose proof (position_step _ _ m _ Hnonempty Hfirst ltac:(lia)). destruct (is_string sec) eqn:Es; [lia|].
      unfold in_range. cbn. rewrite Hst. destruct (decide (m = j)) as [->|Hmj]; [lia|].
      pose proof (position_step _ _ j _ Hnonempty Hm ltac:(lia)). lia.
  - unfold group_pieces. cbn [group_range group_sections]. apply slice_pieces; [by eapply all_pieces_ascending|].
    intros m sec Hm Hout p Hp. pose proof (piece_position _ _ _ Hm Hp) as Hpp. unfold in_range. cbn.
    destruct (decide (m < k)%nat) as [Hmk|Hmk].
    + pose proof (position_step _ _ k _ Hnonempty Hm Hmk). lia.
    + pose proof (position_step _ _ m _ Hnonempty Hlast ltac:(lia)). lia.
Qed.

Record grouped (result : list SectionGroup) (upto : Z) : Prop := {
  gr_index i g : result !! i = Some g -> group_index g = i;
  gr_takes g : g ∈ result -> Forall (takes_from (group_range g)) (group_sections g);
  gr_pieces : concat (map group_pieces result) = filter (before upto) (all_pieces sections)
}.

Lemma good_place_bound k o : good_place k o -> (k <= length sections)%nat /\
  position sections k + o <= position sections (length sections) /\
  ((k < length sections)%nat -> position sections k + o < position sections (length sections)).
Proof.
  intros (_ & Ho & H). destruct (sections !! k) as [sec|] eqn:E.
  - pose proof (lookup_lt_Some _ _ _ E). pose proof (position_step _ _ (length sections) _ Hnonempty E ltac:(done)). lia.
  - destruct H as [-> ->]. lia.
Qed.

Lemma split_loop_spec fuel : forall k o result,
  good_place k o -> grouped result (position sections k + o) ->
  (Z.to_nat (position sections (length sections) - (position sections k + o)) <= fuel)%nat ->
  exists groups, split_loop sections size fuel k o result = Some (Ok groups) /\
    grouped groups (position sections (length sections)).
Proof.
  induction fuel as [|fuel IH]; intros k o result Hplace Hres Hfuel; pose proof (good_place_bound _ _ Hplace) as (Hk & Hb & Hlt);
    cbn [split_loop]; destruct (Nat.ltb_spec k (length sections)) as [H|H]; [specialize (Hlt H); lia| | |].
  1, 3: exists result; split; [done|]; destruct Hplace as (_ & _ & Hp); rewrite lookup_ge_None_2 in Hp by done;
    destruct Hp as [-> ->]; by rewrite Z.add_0_r in Hres.
  destruct (next_group_spec (length result) _ _ Hplace H) as (g & k' & o' & len & -> & Hplace' & Hi & Hpos & Hr & Ht & Hp).
  apply IH; [done| |lia]. split.
  - intros i g' [Hg|[-> ->]]%snoc_lookup; [by eapply gr_index|done].
  - intros g' [Hg|Hg%list_elem_of_singleton]%elem_of_app; [by eapply gr_takes|by subst].
  - rewrite map_app, concat_app, (gr_pieces _ _ Hres). cbn [map concat]. rewrite app_nil_r, Hp, Hr.
    symmetry. apply cut_range; [|lia]. by eapply all_pieces_ascending.
Qed.

Lemma split_sections_spec fuel : (Z.to_nat (position sections (length sections)) <= fuel)%nat ->
  exists groups, split_sections sections size fuel = Some (Ok groups) /\
    (forall i g, groups !! i = Some g -> group_index g = i) /\
    (forall g, g ∈ groups -> Forall (takes_from (group_range g)) (group_sections g)) /\
    concat (map group_pieces groups) = all_pieces sections.
Proof.
  intros Hfuel. unfold split_sections, MAP_BLOCK_SIZE. rewrite Hblock. cbn [Z.eqb].
  assert (good_place 0 0) as Hplace.
  { unfold good_place. split; [done|]. split; [done|]. destruct (sections !! 0%nat) as [sec|] eqn:E.
    - split; [|done]. pose proof (section_not_empty _ _ E) as Hn. destruct (padded_bounds _ Hn). lia.
    - split; [done|]. apply lookup_ge_None in E. lia. }
  assert (position sections 0 = 0) as Hpos0 by done.
  destruct (split_loop_spec fuel 0 0 [] Hplace) as (groups & Hg & [H1 H2 H3]).
  - split; [done|by intros g ?%elem_of_nil|]. symmetry. apply filter_excluded. intros p Hp.
    apply (all_pieces_bounds _ _ _ Hcontig Hnonempty) in Hp. unfold before. rewrite Hpos0. lia.
  - rewrite Hpos0. lia.
  - exists groups. split_and!; [done|done|done|]. rewrite H3. apply filter_included. intros p Hp. unfold before.
    apply elem_of_concat_map in Hp as (sec & Hs & Hp). apply list_elem_of_lookup in Hs as [m Hm].
    pose proof (piece_position _ _ _ Hm Hp). pose proof (lookup_lt_Some _ _ _ Hm).
    pose proof (position_step _ _ (length sections) _ Hnonempty Hm ltac:(lia)). lia.
Qed.
End Cover.

(** *** Phase 1 finds the pieces *)
Section Pieces.
Context (hash_bytes : list Z -> Z) (accepts : list Z -> Z -> bool).
Local Abbreviation insert_data := (insert_data hash_bytes accepts).

Definition insert_piece (p : piece) (s : SplitState) : res SplitState :=
  data ← p.2; Ok (insert_data data p.1 s).

Lemma split_strings_pieces fuel : forall l o hi s, (length l <= fuel)%nat ->
  split_strings hash_bytes accepts fuel l o hi s = for_each insert_piece (filter (before hi) (string_pieces fuel l o)) s.
Proof.
  induction fuel as [|fuel IH]; intros l o hi s Hf; [by destruct l|]. destruct l as [|x l]; [done|].
  destruct (Z.ltb_spec o hi) as [Ho|Ho].
  - cbn [split_strings]. rewrite (proj2 (Z.ltb_lt _ _) Ho). unfold take_string.
    destruct (string_pieces_cases (S fuel) (x :: l) o Hf ltac:(done)) as [(i & Em & Hi & ->)|[Em ->]]; rewrite Em;
      cbn [mbind res_bind]; rewrite filter_cons_True by done.
    + cbn [for_each insert_piece fst snd mbind res_bind pred]. rewrite length_take_le by lia.
      apply IH. rewrite length_drop. cbn in *. lia.
    + done.
  - cbn [split_strings]. rewrite (proj2 (Z.ltb_ge _ _) Ho). rewrite filter_excluded; [done|].
    intros p Hp%string_pieces_bounds; [|done]. unfold before. lia.
Qed.

Lemma filter_range_string fuel l o lo hi : (length l <= fuel)%nat -> lo <= o ->
  filter (in_range (lo, hi)) (string_pieces fuel l o) = filter (before hi) (string_pieces fuel l o).
Proof.
  intros Hf Hlo. apply filter_agree. intros p Hp%string_pieces_bounds; [|done]. unfold in_range, before. cbn. lia.
Qed.

(** Skipping to an offset within the section drops exactly the strings that start before. *)
Lemma skip_pieces fuel : forall l o k, (length l <= fuel)%nat -> (0 < k <= length l)%nat ->
  exists adv, skip_to_range l (Z.of_nat k) = Ok adv /\ (k <= adv <= length l)%nat /\
    string_pieces (length (drop adv l)) (drop adv l) (o + Z.of_nat adv) =
      filter (from (o + Z.of_nat k)) (string_pieces fuel l o).
Proof.
  induction fuel as [|fuel IH]; intros l o k Hf Hk; [lia|].
  assert (l <> []) as Hl by (intros ->; cbn in Hk; lia).
  destruct (lookup_lt_is_Some_2 l (k - 1)) as [b Hb]; [lia|].
  assert (skip_to_range l (Z.of_nat k) =
    if b =? 0 then Ok k
    else Ok (match memchr 0 (drop k l) with Some n => (k + n + 1)%nat | None => length l end)) as ->.
  { unfold skip_to_range, index. rewrite decide_True by lia. replace (Z.to_nat (Z.of_nat k - 1)) with (k - 1)%nat by lia.
    rewrite Hb. cbn [mbind res_bind]. by rewrite Nat2Z.id. }
  destruct (string_pieces_cases (S fuel) l o Hf Hl) as [(i & Em & Hi & ->)|[Em ->]]; cbn [pred].
  - pose proof (memchr_some _ _ _ Em) as (Hz & _ & Hnz). rewrite filter_cons.
    destruct (Nat.le_gt_cases k i) as [Hki|Hki]; [|destruct (decide (k = S i)) as [->|Hne]].
    + (* within the first string *)
      rewrite decide_False by (unfold from; cbn; lia).
      destruct (Z.eqb_spec b 0) as [->|_]; [destruct (Hnz (k - 1)%nat); [lia|done]|].
      assert (memchr 0 (drop k l) = Some (i - k)%nat) as ->.
      { apply memchr_found; [rewrite lookup_drop; by replace (k + (i - k))%nat with i by lia|].
        intros j Hj. rewrite lookup_drop. apply Hnz. lia. }
      exists (k + (i - k) + 1)%nat. split; [done|]. replace (k + (i - k) + 1)%nat with (S i) by lia. split; [lia|].
      rewrite (filter_included (from _)); [|intros p Hp%string_pieces_bounds; [unfold from; lia|rewrite length_drop; lia]].
      apply string_pieces_fuel; [done|rewrite length_drop; lia].
    + (* right after it *)
      rewrite decide_False by (unfold from; cbn; lia). replace (S i - 1)%nat with i in Hb by lia.
      rewrite Hz in Hb. injection Hb as <-. rewrite Z.eqb_refl. exists (S i). split; [done|]. split; [lia|].
      rewrite (filter_included (from _)); [|intros p Hp%string_pieces_bounds; [unfold from; lia|rewrite length_drop; lia]].
      apply string_pieces_fuel; [done|rewrite length_drop; lia].
    + (* later *)
      rewrite decide_False by (unfold from; cbn; lia).
      destruct (IH (drop (S i) l) (o + Z.of_nat (S i)) (k - S i)%nat) as (adv & Ha & Hadv & Hp);
        [rewrite length_drop; lia..|]. rewrite length_drop in Hadv.
      exists (S i + adv)%nat. split_and!; [|lia|lia|].
      * unfold skip_to_range, index in Ha. rewrite decide_True in Ha by lia.
        rewrite lookup_drop in Ha. replace (S i + Z.to_nat (Z.of_nat (k - S i) - 1))%nat with (k - 1)%nat in Ha by lia.
        rewrite Hb in Ha. cbn [mbind res_bind] in Ha. rewrite Nat2Z.id, drop_drop, length_drop in Ha.
        replace (S i + (k - S i))%nat with k in Ha by lia. destruct (b =? 0); [injection Ha as <-; f_equal; lia|].
        injection Ha as <-. f_equal. destruct (memchr 0 (drop k l)); lia.
      * rewrite drop_drop in Hp. replace (o + Z.of_nat (S i) + Z.of_nat adv) with (o + Z.of_nat (S i + adv)) in Hp by lia.
        rewrite Hp. apply filter_agree. intros p _. unfold from. lia.
  - pose proof (memchr_none _ _ Em) as Hnz. rewrite filter_cons_False by (unfold from; cbn; lia).
    destruct (Z.eqb_spec b 0) as [->|_]; [by destruct (Hnz (k - 1)%nat)|].
    assert (memchr 0 (drop k l) = None) as ->.
    { destruct (memchr 0 (drop k l)) as [n|] eqn:En; [|done]. apply memchr_some in En as (En & _ & _).
      rewrite lookup_drop in En. by apply Hnz in En. }
    exists (length l). split_and!; [done|lia|lia|]. by rewrite drop_all.
Qed.

Lemma process_input_section_pieces range sec s : takes_from range sec ->
  process_input_section hash_bytes accepts range sec s = for_each insert_piece (filter (in_range range) (pieces sec)) s.
Proof.
  destruct range as [lo hi]. unfold takes_from, process_input_section, pieces. cbn [fst snd]. intros [Hn Htake].
  destruct (padded_bounds _ Hn) as [Hd _]. destruct (Z.ltb_spec (start_input_offset sec) lo) as [Hlo|Hlo].
  - destruct (is_string sec); [|unfold in_range in Htake; cbn in Htake; lia]. unfold data_len in *.
    destruct (skip_pieces (length (section_data sec)) (section_data sec) (start_input_offset sec)
      (Z.to_nat (lo - start_input_offset sec))) as (adv & Ha & Hadv & Hp); [lia..|].
    rewrite Z2Nat.id in Ha by lia. rewrite Ha. cbn [mbind res_bind]. rewrite split_strings_pieces by done.
    rewrite Hp, list_filter_filter. f_equal. apply filter_agree. intros p _. unfold in_range, before, from. cbn. lia.
  - cbn [mbind res_bind]. rewrite drop_0, Z.add_0_r. destruct (is_string sec).
    + rewrite split_strings_pieces by done. by rewrite filter_range_string.
    + rewrite filter_cons_True by (unfold in_range in *; cbn in *; lia). done.
Qed.

Lemma for_each_concat {A B S} (f : B -> S -> res S) (g : A -> list B) l : forall s,
  for_each (fun x => for_each f (g x)) l s = for_each f (concat (map g l)) s.
Proof.
  induction l as [|x l IH]; intros s; [done|]. cbn [map concat for_each]. rewrite for_each_app.
  destruct (for_each f (g x) s); cbn [mbind res_bind]; [apply IH|done..].
Qed.

Lemma for_each_agree {A S} (f g : A -> S -> res S) l : (forall x, x ∈ l -> forall s, f x s = g x s) ->
  forall s, for_each f l s = for_each g l s.
Proof.
  induction l as [|x l IH]; intros H s; [done|]. cbn [for_each]. rewrite H by left.
  destruct (g x s); cbn [mbind res_bind]; [|done..]. apply IH. intros y Hy. apply H. by right.
Qed.

Lemma split_group_pieces g : Forall (takes_from (group_range g)) (group_sections g) ->
  split_group hash_bytes accepts g = for_each insert_piece (group_pieces g) empty_split.
Proof.
  intros Ht. unfold split_group, group_pieces. rewrite <- for_each_concat. apply for_each_agree.
  intros sec Hsec s. rewrite Forall_forall in Ht. apply process_input_section_pieces; auto.
Qed.
End Pieces.

(** ** The contents of a bucket *)

(** Every string once, in the order of the first occurrences. *)
Definition add_new (acc : list (list Z)) (s : list Z) : list (list Z) := if decide (s ∈ acc) then acc else acc ++ [s].
Definition first_occurrences (l : list (list Z)) : list (list Z) := foldl add_new [] l.

(** Every string starts within the 28 bits of an offset. *)
Definition fits (l : list (list Z)) : Prop := Z.of_nat (length (concat (removelast l))) < 2 ^ 28.
#[export] Instance fits_dec l : Decision (fits l).
Proof. unfold fits. apply _. Defined.

(** A string that is so long that the 32-bit offset of the next one wraps. *)
Definition short (s : list Z) : Prop := Z.of_nat (length s) < 2 ^ 32 - 2 ^ 28.

Definition offset_of (l : list (list Z)) (s : list Z) (off : Z) : Prop :=
  exists i, l !! i = Some s /\ off = Z.of_nat (length (concat (take i l))).

(** The bucket after it has been given the strings [l]. *)
Record holds (b : nat) (l : list (list Z)) (B : Bucket) : Prop := {
  hd_index : bucket_index B = b;
  hd_strings : strings_ B = first_occurrences l;
  hd_next : next_offset B = Z.of_nat (length (concat (first_occurrences l)));
  hd_offsets s off : string_offsets B !! s = Some off -> offset_of (first_occurrences l) s off;
  hd_all s : s ∈ first_occurrences l -> is_Some (string_offsets B !! s)
}.

Lemma first_occurrences_snoc l s : first_occurrences (l ++ [s]) = add_new (first_occurrences l) s.
Proof. unfold first_occurrences. by rewrite foldl_app. Qed.

Lemma add_new_old acc s : s ∈ acc -> add_new acc s = acc.
Proof. intros H. unfold add_new. by rewrite decide_True. Qed.

Lemma add_new_new acc s : s ∉ acc -> add_new acc s = acc ++ [s].
Proof. intros H. unfold add_new. by rewrite decide_False. Qed.

Lemma add_new_prefix acc s : acc `prefix_of` add_new acc s.
Proof. unfold add_new. case_decide; [done|by apply prefix_app_r]. Qed.

Lemma first_occurrences_prefix l k : first_occurrences l `prefix_of` first_occurrences (l ++ k).
Proof.
  induction k as [|s k IH] using rev_ind; [by rewrite app_nil_r|]. rewrite app_assoc, first_occurrences_snoc.
  etrans; [exact IH|apply add_new_prefix].
Qed.

Lemma elem_of_first_occurrences l s : s ∈ first_occurrences l <-> s ∈ l.
Proof.
  induction l as [|x l IH] using rev_ind; [done|]. rewrite first_occurrences_snoc, elem_of_app, list_elem_of_singleton, <- IH.
  unfold add_new. case_decide; rewrite ?elem_of_app, ?list_elem_of_singleton; [|done]. split; [by left|]. by intros [?| ->].
Qed.

Lemma prefix_removelast {A} (l k : list A) : l `prefix_of` k -> removelast l `prefix_of` removelast k.
Proof.
  intros [m ->]. destruct m as [|x m]; [by rewrite app_nil_r|]. rewrite removelast_app by done.
  apply prefix_app_r. clear. induction l as [|y l IH]; [done|]. destruct l as [|z l]; [cbn; apply prefix_nil|]. cbn [removelast] in *.
  by apply prefix_cons.
Qed.

Lemma prefix_concat_length {A} (l k : list (list A)) : l `prefix_of` k -> (length (concat l) <= length (concat k))%nat.
Proof. intros [m ->]. rewrite concat_app, length_app. lia. Qed.

Lemma fits_prefix l k : l `prefix_of` k -> fits k -> fits l.
Proof. unfold fits. intros H%prefix_removelast%prefix_concat_length. lia. Qed.

Lemma offset_of_bound l s off : fits l -> offset_of l s off -> 0 <= off < 2 ^ 28.
Proof.
  unfold fits. intros Hf (i & Hi & ->). split; [lia|].
  assert (take i l `prefix_of` removelast l) as H%prefix_concat_length; [|lia].
  apply lookup_lt_Some in Hi. destruct l as [|x l] using rev_ind; [cbn in Hi; lia|]. rewrite removelast_last.
  rewrite length_app in Hi. cbn in Hi. rewrite take_app_le by lia. apply prefix_take.
Qed.

Lemma offset_of_prefix l k s off : l `prefix_of` k -> offset_of l s off -> offset_of k s off.
Proof.
  intros [m ->] (i & Hi & ->). exists i. split; [by apply lookup_app_l_Some|].
  rewrite take_app_le; [done|]. apply lookup_lt_Some in Hi. lia.
Qed.

Lemma bucket_offset_fits off b : 0 <= off ->
  if decide (off < 2 ^ 28) then is_Ok (bucket_offset_new off b) else bucket_offset_new off b = Err too_large.
Proof.
  intros Hoff. unfold bucket_offset_new, bucket_bits_shift, MERGE_STRING_BUCKET_BITS. change (Z.shiftl 1 (32 - 4)) with (2 ^ 28).
  case_decide as H; [|by rewrite (proj2 (Z.leb_le _ _)) by lia]. rewrite (proj2 (Z.leb_gt _ _)) by lia. by eexists.
Qed.

Lemma add_string_holds b l B s : holds b l B -> fits (first_occurrences l) -> short s ->
  if decide (fits (first_occurrences (l ++ [s]))) then exists o B', add_string s B = Ok (o, B') /\ holds b (l ++ [s]) B'
  else exists e, add_string s B = Err e.
Proof.
  intros [Hi Hs Hn Ho Ha] Hfit Hshort. rewrite first_occurrences_snoc. unfold add_string.
  destruct (string_offsets B !! s) as [off|] eqn:E.
  - pose proof (Ho _ _ E) as Hoff. assert (s ∈ first_occurrences l) as Hin by (destruct Hoff as (i & Hl & _); by eapply list_elem_of_lookup_2).
    rewrite (add_new_old _ _ Hin), decide_True by done. pose proof (offset_of_bound _ _ _ Hfit Hoff) as Hb. cbn [bucket_index].
    pose proof (bucket_offset_fits off (bucket_index B) ltac:(lia)) as Hok. rewrite decide_True in Hok by lia. destruct Hok as [o Hok].
    rewrite Hok. eexists _, _. split; [done|]. split; cbn; rewrite ?first_occurrences_snoc, ?(add_new_old _ _ Hin); done.
  - assert (s ∉ first_occurrences l) as Hnot by (intros Hin; destruct (Ha _ Hin); congruence).
    rewrite (add_new_new _ _ Hnot). cbn [bucket_index].
    assert (fits (first_occurrences l ++ [s]) <-> next_offset B < 2 ^ 28) as Hiff by (unfold fits; by rewrite removelast_last, Hn).
    pose proof (bucket_offset_fits (next_offset B) (bucket_index B) ltac:(lia)) as Hok.
    destruct (decide (fits _)) as [Hlt%Hiff|Hge]; [rewrite decide_True in Hok by done|rewrite decide_False in Hok by (by rewrite <- Hiff)];
      [|rewrite Hok; cbn; by eexists].
    destruct Hok as [o Hok]. rewrite Hok. eexists _, _. split; [done|].
    split; cbn [bucket_index strings_ next_offset string_offsets]; rewrite ?first_occurrences_snoc, ?(add_new_new _ _ Hnot).
    + done.
    + by rewrite Hs.
    + rewrite concat_app, length_app. cbn [concat]. rewrite app_nil_r. unfold wadd, wrap, short in *.
      rewrite (Z.mod_small (Z.of_nat (length s))) by lia. rewrite Z.mod_small; lia.
    + intros s' off. destruct (decide (s' = s)) as [->|Hne].
      * rewrite lookup_insert_eq. intros [= <-]. exists (length (first_occurrences l)). split; [by apply list_lookup_middle|].
        rewrite take_app_length. exact Hn.
      * rewrite lookup_insert_ne by done. intros H%Ho. eapply offset_of_prefix; [|done]. by apply prefix_app_r.
    + intros s' [Hin|Hin%list_elem_of_singleton]%elem_of_app.
      * destruct (decide (s' = s)) as [->|Hne]; [by rewrite lookup_insert_eq|]. rewrite lookup_insert_ne by done. by apply Ha.
      * subst. by rewrite lookup_insert_eq.
Qed.

(** The text of a string is in the text of the bucket. *)
Lemma offset_of_text l s off : offset_of l s off ->
  take (length s) (drop (Z.to_nat off) (concat l)) = s /\ off + Z.of_nat (length s) <= Z.of_nat (length (concat l)).
Proof.
  intros (i & Hi & ->). rewrite Nat2Z.id. rewrite <- (take_drop i l) at 2 4. rewrite concat_app, drop_app_length, length_app.
  rewrite (drop_S _ _ _ Hi). cbn [concat]. rewrite take_app_length, length_app. split; [done|lia].
Qed.

(** ** What phase 1 leaves in the buckets *)
Definition out_offset (o : OffsetOut) : Z := match o with InShard i | Overflow i => i end.

Section Split_contents.
Context (hash_bytes : list Z -> Z) (accepts : list Z -> Z -> bool).
Local Abbreviation bucket_of := (bucket_of hash_bytes).
Local Abbreviation insert_data := (insert_data hash_bytes accepts).
Local Abbreviation insert_piece := (insert_piece hash_bytes accepts).

(** The strings of bucket [b] among the pieces. *)
Definition bucket_strings (b : nat) (ps : list piece) : list (list Z) :=
  omap (fun p => match p.2 with Ok s => if (bucket_of s =? b)%nat then Some s else None | _ => None end) ps.

Definition bucket_list (s : SplitState) (b : nat) : list StringToMerge := default [] (buckets s !! b).

Record split_holds (ps : list piece) (s : SplitState) : Prop := {
  sh_length : length (buckets s) = num_buckets;
  sh_strings b : map bytes (bucket_list s b) = bucket_strings b ps;
  sh_from b x : x ∈ bucket_list s b -> (out_offset (offset_out x), Ok (bytes x)) ∈ ps /\ bucket_of (bytes x) = b;
  sh_in b x o : x ∈ bucket_list s b -> offset_out x = InShard o -> o ∈ shard s;
  sh_over b x o : x ∈ bucket_list s b -> offset_out x = Overflow o -> o ∉ shard s;
  sh_shard o : o ∈ shard s -> exists p, p ∈ ps /\ p.1 = o;
  sh_all o data : (o, Ok data) ∈ ps -> exists x, x ∈ bucket_list s (bucket_of data) /\ bytes x = data /\ out_offset (offset_out x) = o
}.

Lemma bucket_of_lt data : (bucket_of data < num_buckets)%nat.
Proof.
  unfold bucket_of. change num_buckets with 16%nat. change MERGE_STRING_BUCKETS with 16.
  pose proof (Z.mod_pos_bound (hash_bytes data) 16). lia.
Qed.

Lemma bucket_strings_snoc b ps p : bucket_strings b (ps ++ [p]) = bucket_strings b ps ++ bucket_strings b [p].
Proof. unfold bucket_strings. by rewrite omap_app. Qed.

Lemma bucket_list_insert data o s b : length (buckets s) = num_buckets ->
  bucket_list (insert_data data o s) b =
  bucket_list s b ++ (if (bucket_of data =? b)%nat then [mkToMerge data (if accepts (shard s) o then InShard o else Overflow o)] else []).
Proof.
  intros Hlen. unfold bucket_list. cbn. destruct (Nat.eqb_spec (bucket_of data) b) as [<-|Hne].
  - rewrite list_lookup_alter_eq. destruct (lookup_lt_is_Some_2 (buckets s) (bucket_of data)) as [l Hl]; [rewrite Hlen; apply bucket_of_lt|].
    by rewrite Hl.
  - rewrite list_lookup_alter_ne by done. by rewrite app_nil_r.
Qed.

Lemma insert_data_holds ps s o data : split_holds ps s -> (forall p, p ∈ ps -> p.1 < o) ->
  split_holds (ps ++ [(o, Ok data)]) (insert_data data o s).
Proof.
  intros [Hl Hs Hf Hi Ho Hsh Ha] Hnew.
  assert (o ∉ shard s) as Hfresh by (intros (p & Hp & <-)%Hsh; apply Hnew in Hp; lia).
  assert (forall b x, x ∈ bucket_list (insert_data data o s) b -> x ∈ bucket_list s b \/
    bucket_of data = b /\ x = mkToMerge data (if accepts (shard s) o then InShard o else Overflow o)) as Hcases.
  { intros b x. rewrite bucket_list_insert by done. intros [Hx|Hx]%elem_of_app; [by left|right].
    destruct (Nat.eqb_spec (bucket_of data) b); [|by apply elem_of_nil in Hx]. by apply list_elem_of_singleton in Hx. }
  split.
  - cbn. by rewrite length_alter.
  - intros b. rewrite bucket_list_insert, bucket_strings_snoc, map_app, Hs by done. f_equal. unfold bucket_strings. cbn.
    by destruct (bucket_of data =? b)%nat.
  - intros b x [Hx|[<- ->]]%Hcases.
    + destruct (Hf _ _ Hx) as [H1 H2]. split; [|done]. apply elem_of_app. by left.
    + cbn. split; [|done]. apply elem_of_app. right. destruct (accepts (shard s) o); by left.
  - intros b x o' [Hx|[<- ->]]%Hcases Ho'; cbn in *.
    + destruct (accepts (shard s) o); [|by eapply Hi]. apply elem_of_app. left. by eapply Hi.
    + destruct (accepts (shard s) o); [|done]. injection Ho' as <-. apply elem_of_app. right. by left.
  - intros b x o' [Hx|[<- ->]]%Hcases Ho'; cbn in *.
    + pose proof (Ho _ _ _ Hx Ho') as Hn. destruct (accepts (shard s) o); [|done].
      rewrite elem_of_app, list_elem_of_singleton. intros [?| ->]; [done|]. destruct (Hf _ _ Hx) as [Hin _].
      apply Hnew in Hin. rewrite Ho' in Hin. cbn in Hin. lia.
    + destruct (accepts (shard s) o); [done|]. by injection Ho' as <-.
  - intros o'. cbn. destruct (accepts (shard s) o).
    + intros [H|H%list_elem_of_singleton]%elem_of_app.
      * destruct (Hsh _ H) as (p & Hp & <-). exists p. split; [|done]. apply elem_of_app. by left.
      * subst. exists (o, Ok data). split; [|done]. apply elem_of_app. right. by left.
    + intros H. destruct (Hsh _ H) as (p & Hp & <-). exists p. split; [|done]. apply elem_of_app. by left.
  - intros o' data' [Hp|Hp%list_elem_of_singleton]%elem_of_app.
    + destruct (Ha _ _ Hp) as (x & Hx & ? & ?). exists x. split; [|done]. rewrite bucket_list_insert by done. apply elem_of_app. by left.
    + injection Hp as -> ->. eexists. rewrite bucket_list_insert, Nat.eqb_refl by done. split; [apply elem_of_app; right; by left|].
      cbn. split; [done|]. by destruct (accepts (shard s) o).
Qed.

Lemma empty_split_holds : split_holds [] empty_split.
Proof.
  assert (forall b, bucket_list empty_split b = []) as H.
  { intros b. unfold bucket_list, empty_split. cbn [buckets]. destruct (replicate num_buckets [] !! b) eqn:E; [|done].
    apply lookup_replicate in E as [-> _]. done. }
  split.
  - done.
  - intros b. by rewrite H.
  - intros b x. rewrite H. by intros ?%elem_of_nil.
  - intros b x o. rewrite H. by intros ?%elem_of_nil.
  - intros b x o. rewrite H. by intros ?%elem_of_nil.
  - by intros o ?%elem_of_nil.
  - by intros o data ?%elem_of_nil.
Qed.

Definition readable (p : piece) : Prop := match p.2 with Ok _ => True | _ => False end.
#[export] Instance readable_dec p : Decision (readable p).
Proof. unfold readable. destruct p.2; apply _. Defined.

(** Splitting succeeds if every piece is terminated. *)
Lemma insert_pieces_holds qs : forall ps s, split_holds ps s -> ascending (ps ++ qs) -> (forall p, p ∈ qs -> p.2 <> Panic) ->
  match for_each insert_piece qs s with
  | Ok s' => Forall readable qs /\ split_holds (ps ++ qs) s'
  | Err _ => ~ Forall readable qs
  | Panic => False
  end.
Proof.
  induction qs as [|[o r] qs IH]; intros ps s Hs Hasc Hnp; cbn [for_each].
  - rewrite app_nil_r. split; [constructor|done].
  - assert (insert_piece (o, r) s = (data ← r; Ok (insert_data data o s))) as -> by done. destruct r as [data|e|] eqn:Er; cbn [mbind res_bind].
    + rewrite cons_middle, app_assoc in Hasc. rewrite cons_middle, app_assoc. specialize (IH (ps ++ [(o, Ok data)]) (insert_data data o s)).
      assert (split_holds (ps ++ [(o, Ok data)]) (insert_data data o s)) as Hs'.
      { apply insert_data_holds; [done|]. intros p Hp. apply StronglySorted_app in Hasc as (_ & Hasc & _).
        apply StronglySorted_app in Hasc as (H & _ & _). apply (H p (o, Ok data)); [done|by left]. }
      specialize (IH Hs' Hasc ltac:(intros p Hp; apply Hnp; by right)).
      destruct (for_each _ qs _) as [s'| |]; [|by intros [_ ?]%Forall_cons|done]. destruct IH as [H1 H2].
      split; [|done]. by constructor.
    + by intros [H _]%Forall_cons.
    + destruct (Hnp (o, Panic)); [by left|done].
Qed.
End Split_contents.

(** ** Sections of one output section are numbered one after the other *)
Lemma contiguous_snoc l : forall o sec, contiguous o l -> start_input_offset sec = o + position l (length l) -> contiguous o (l ++ [sec]).
Proof.
  induction l as [|s l IH]; intros o sec; cbn.
  - intros _ H. split; [|done]. unfold position in H. cbn in H. lia.
  - intros [Hs Hc] H. split; [done|]. apply IH; [done|]. rewrite H. unfold position. cbn. lia.
Qed.

Lemma position_snoc l sec : position (l ++ [sec]) (length (l ++ [sec])) = position l (length l) + padded_len sec.
Proof.
  unfold position. rewrite !take_ge by done. rewrite foldr_app. cbn. generalize (padded_len sec). intros z.
  induction l as [|s l IH]; cbn; lia.
Qed.

(** The state of the grouping: the sections so far are contiguous, and the next starts at the end of the last. *)
Definition numbered (g : GroupedSections) : Prop :=
  forall id, let l := default [] (input_sections g !! id) in
    contiguous 0 l /\ default 0 (starting_offsets g !! id) = position l (length l).

Definition all_nonempty (g : GroupedSections) : Prop := forall id, Forall not_empty (default [] (input_sections g !! id)).

Section Grouped.
Context (section_part_ids : list Z) (output_section_id : Z -> Z).
Local Abbreviation extra_step := (group_extra section_part_ids output_section_id).
Local Abbreviation object_step := (group_object section_part_ids output_section_id).

Lemma group_extra_numbered start e slots g slots' g' : extra_section_data e <> [] ->
  extra_step start e (slots, g) = Ok (slots', g') -> numbered g -> all_nonempty g ->
  numbered g' /\ all_nonempty g' /\ length slots' = length slots /\
  exists id sec l, input_sections g' !! id = Some (l ++ [sec]) /\ section_data sec = extra_section_data e /\
    slots' !! Z.to_nat (extra_index e) = Some (Some (start_input_offset sec)).
Proof.
  intros Hne. unfold group_extra. destruct (index slots (extra_index e)) as [[slot|]| |] eqn:Ei; cbn [mbind res_bind]; try done.
  destruct (index section_part_ids (start + extra_index e)) as [part| |]; cbn [mbind res_bind]; try done.
  intros [= <- <-] Hn Ha. set (sid := output_section_id part). destruct (Hn sid) as [Hc Ho]. split_and!.
  - intros id'. cbn [input_sections starting_offsets]. destruct (decide (id' = sid)) as [->|Hd].
    + rewrite !lookup_insert_eq. cbn [from_option]. unfold id. cbv zeta. rewrite position_snoc. split; [|by f_equal].
      apply contiguous_snoc; [done|]. cbn [start_input_offset]. rewrite Z.add_0_l. exact Ho.
    + rewrite !lookup_insert_ne by done. apply Hn.
  - intros id'. cbn. destruct (decide (id' = sid)) as [->|Hd]; [|rewrite lookup_insert_ne by done; apply Ha].
    rewrite lookup_insert_eq. cbn. apply Forall_app. split; [apply Ha|]. by repeat constructor.
  - by rewrite length_insert.
  - exists sid. do 2 eexists. cbn. rewrite lookup_insert_eq. split; [done|]. split; [done|]. cbn.
    apply list_lookup_insert_eq. unfold index in Ei. case_decide; [|done].
    destruct (slots !! Z.to_nat (extra_index e)) eqn:E; [|done]. by eapply lookup_lt_Some.
Qed.

Lemma group_extras_numbered start es : forall slots g slots' g', Forall (fun e => extra_section_data e <> []) es ->
  for_each (extra_step start) es (slots, g) = Ok (slots', g') -> numbered g -> all_nonempty g ->
  numbered g' /\ all_nonempty g'.
Proof.
  induction es as [|e es IH]; intros slots g slots' g' He; cbn [for_each]; [by intros [= <- <-]|].
  apply Forall_cons in He as [He Hes]. destruct (extra_step start e (slots, g)) as [[sl1 g1]| |] eqn:E; cbn [mbind res_bind]; [|done..].
  intros H Hn Ha. destruct (group_extra_numbered _ _ _ _ _ _ He E Hn Ha) as (Hn1 & Ha1 & _). by eapply IH.
Qed.

(** The sections that go into one output section get offsets one after the other, each rounded up to a block. *)
Theorem grouped_sections_contiguous objects objects' g :
  Forall (fun obj => Forall (fun e => extra_section_data e <> []) (mo_extras obj)) objects ->
  group_merge_string_sections_by_output section_part_ids output_section_id objects = Ok (objects', g) ->
  forall id sections, input_sections g !! id = Some sections -> contiguous 0 sections /\ Forall not_empty sections.
Proof.
  intros Hobj. unfold group_merge_string_sections_by_output.
  assert (forall l done g0 done' g', Forall (fun obj => Forall (fun e => extra_section_data e <> []) (mo_extras obj)) l ->
    for_each object_step l (done, g0) = Ok (done', g') -> numbered g0 -> all_nonempty g0 -> numbered g' /\ all_nonempty g') as H.
  { induction l as [|obj l IH]; intros done0 g0 done' g' Hl; cbn [for_each]; [by intros [= <- <-]|].
    apply Forall_cons in Hl as [Ho Hl].
    assert (object_step obj (done0, g0) = ('(sections, g1) ← for_each (extra_step (mo_section_id_start obj)) (mo_extras obj) (mo_sections obj, g0);
      Ok (done0 ++ [mkMergeObject sections (mo_extras obj) (mo_section_id_start obj)], g1))) as -> by done.
    destruct (for_each _ (mo_extras obj) _) as [[sl1 g1]| |] eqn:E; cbn [mbind res_bind]; [|done..].
    intros H Hn Ha. destruct (group_extras_numbered _ _ _ _ _ _ Ho E Hn Ha). by eapply IH. }
  intros Hr id sections Hid. destruct (H _ _ _ _ _ Hobj Hr) as [Hn Ha].
  - intros id'. cbn. rewrite !lookup_empty. done.
  - intros id'. cbn. rewrite lookup_empty. constructor.
  - specialize (Hn id). specialize (Ha id). rewrite Hid in Hn, Ha. by destruct Hn.
Qed.
End Grouped.

Lemma total_size_position sections : contiguous 0 sections -> total_input_size sections = position sections (length sections).
Proof.
  intros Hcontig. unfold total_input_size. destruct (last sections) as [sec|] eqn:E.
  - rewrite last_lookup in E. pose proof (lookup_lt_Some _ _ _ E). rewrite (start_position _ Hcontig _ _ E), <- (position_S _ _ _ E).
    f_equal. lia.
  - apply last_None in E as ->. done.
Qed.

(** C17. Cutting the sections into groups ends, and for every group size that is positive and a multiple of the block size (256),
    phase 1 over the groups finds every string of the sections once, in the order of the input, with its offset: no string at the
    border of two groups is lost or taken twice. The sections are not empty and follow each other in the input space, as
    [group_merge_string_sections_by_output] places them. A size of 0, which the experiment that sets it allows, never ends
    ([split_zero_never_ends]); a positive size that is not a multiple is refused by an assertion. *)
Theorem split_covers hash_bytes accepts sections size :
  contiguous 0 sections -> Forall not_empty sections -> 0 < size -> size mod MAP_BLOCK_SIZE = 0 ->
  exists groups, split_sections sections size (Z.to_nat (total_input_size sections)) = Some (Ok groups) /\
    (forall i g, groups !! i = Some g -> group_index g = i) /\
    concat (map group_pieces groups) = all_pieces sections /\
    forall g, g ∈ groups -> split_group hash_bytes accepts g = for_each (insert_piece hash_bytes accepts) (group_pieces g) empty_split.
Proof.
  intros Hc Hn Hs Hb. rewrite (total_size_position _ Hc).
  destruct (split_sections_spec sections size Hc Hn Hs Hb _ (le_n _)) as (groups & Hg & Hi & Ht & Hp). exists groups. split_and!; [done..|].
  intros g Hin. apply split_group_pieces. by apply Ht.
Qed.

(** A group size of 0, as the experiment that sets it allows, makes no progress. *)
Lemma split_zero_never_ends sections fuel : sections <> [] -> Forall not_empty sections -> split_sections sections 0 fuel = None.
Proof.
  intros Hs Hn. unfold split_sections. cbn [Z.modulo]. destruct sections as [|sec secs]; [done|].
  change (0 mod MAP_BLOCK_SIZE =? 0) with true. cbn [andb]. generalize (@nil SectionGroup). induction fuel as [|fuel IH]; intros res; [done|].
  cbn [split_loop length Nat.ltb Nat.leb]. assert (exists g, next_group (sec :: secs) 0 (length res) 0 0 = Ok (g, 0%nat, 0, 0)) as [g ->] by (by eexists).
  apply IH.
Qed.

(** The search backwards adds to the packed offset: in a string that goes on beyond 2^28, the sum is in the next bucket. *)
Lemma find_string_leaves_bucket :
  let start := 2 ^ 28 - 2 in
  bucket_offset_new start 0 = Ok start /\
  find_string 0 2 (mkMerged [] [] {[ 0 := start ]} ∅) = Ok (2 ^ 28) /\
  bucket_offset_bucket (2 ^ 28) = 1 /\ offset_in_bucket (2 ^ 28) = 0.
Proof. by vm_compute. Qed.

(** ** An example *)
Module Example.
Definition ex_hash (l : list Z) : Z := default 0 (head l).
(** Offsets of 3 and above do not fit into a block. *)
Definition ex_accepts (_ : list Z) (o : Z) : bool := o <? 3.

(** The strings "ab" and "c", and in another section "c" and "ab". *)
Definition ex_sections : list StringMergeInputSection :=
  [mkInput [97; 98; 0; 99; 0] 0 true; mkInput [99; 0; 97; 98; 0] 256 true].

Lemma ex_contiguous : contiguous 0 ex_sections.
Proof. by vm_compute. Qed.

Lemma ex_nonempty : Forall not_empty ex_sections.
Proof. by repeat constructor. Qed.

Definition ex_objects : list MergeObject :=
  [mkMergeObject [None; Some 0; Some 0] [mkExtra 1 [97; 98; 0; 99; 0] true; mkExtra 2 [99; 0; 97; 98; 0] true] 0].

End Example.

Import Example.

Lemma split_covers_witness :
  contiguous 0 ex_sections /\ exists groups, split_sections ex_sections 256 (Z.to_nat (total_input_size ex_sections)) = Some (Ok groups) /\
    (forall i g, groups !! i = Some g -> group_index g = i) /\
    concat (map group_pieces groups) = all_pieces ex_sections /\
    forall g, g ∈ groups -> split_group ex_hash ex_accepts g = for_each (insert_piece ex_hash ex_accepts) (group_pieces g) empty_split.
Proof.
  split; [exact ex_contiguous|]. apply (split_covers ex_hash ex_accepts ex_sections 256 ex_contiguous ex_nonempty); [lia|reflexivity].
Defined.

Lemma grouped_sections_contiguous_witness :
  match group_merge_string_sections_by_output [0; 5; 5] (fun part => part) ex_objects with
  | Ok (_, g) => input_sections g !! 5 = Some ex_sections /\ contiguous 0 ex_sections /\ Forall not_empty ex_sections
  | _ => False
  end.
Proof.
  destruct (group_merge_string_sections_by_output [0; 5; 5] (fun part => part) ex_objects) as [[objects g]| |] eqn:E;
    [|vm_compute in E; discriminate..].
  assert (input_sections g !! 5 = Some ex_sections) as Hg by (vm_compute in E; injection E as _ <-; reflexivity).
  split; [exact Hg|]. refine (grouped_sections_contiguous [0; 5; 5] (fun part => part) ex_objects objects g _ E 5 ex_sections Hg).
  repeat constructor; discriminate.
Defined.
