(* ===== verification/MergeTasks.v ===== *)
(** The tasks that merge strings: [libjdxld/src/string_merging.rs], with the definitions of
    [StringMerge].

    A ghost state gives every group and every bucket a phase; [inv] relates it to the state
    of the tasks, the slots and the pool, and every step keeps it ([step_inv]).  [stores]
    says what has been written to the cells of the offset map.  From these: when no task is
    left, all groups have been split and all buckets hold the strings of all groups, in
    the order of the groups, whatever the order of the steps ([merging_deterministic]);
    no step panics and there is always a way to the end ([merging_progress], by a measure
    that some step makes smaller); and the strings can be found in the section that is
    written ([merged_strings_read_back]). *)
From Stdlib Require Import ZArith Lia Permutation.
From stdpp Require Import base list list_numbers numbers strings option gmap sorting.
From S2P Require Import Prelude StringMerge.

Local Open Scope Z_scope.

Ltac step_exec :=
  cbn [exec]; unfold try_reserve_load, try_reserve_exchange, pop_group, take_string_merge_vec, split_and_finish, store_strings,
    work_with_bucket, return_vec, count_vec, unreserve.

(** ** The protocol of the tasks *)

(** Where a group and a bucket are.  A bucket at [j] has taken the strings of the groups
    before [j]; from [Returning j] on it has those of group [j] as well. *)
Inductive gphase := Unpopped | Taking (reserved : nat) | Storing (bucket : nat) | Stored | Failed.
Inductive bphase :=
| Working (j : nat) | Returning (j : nat) | Counting (j : nat) | Trying (j : nat) (seen : option Z)
| Waiting (j : nat) | Finished | Lost (j : nat).

Record ghost := mkGhost {
  popped : nat;
  group_phase : nat -> gphase;
  bucket_phase : nat -> bphase;
  spawned : nat;
  first_call : option (option Z)    (* the first call to [try_spawn_input_processing] *)
}.

Definition upd {A} (f : nat -> A) (i : nat) (x : A) : nat -> A := fun j => if (j =? i)%nat then x else f j.

Lemma upd_eq {A} (f : nat -> A) i x : upd f i x i = x.
Proof. unfold upd. by rewrite Nat.eqb_refl. Qed.

Lemma upd_ne {A} (f : nat -> A) i x j : j <> i -> upd f i x j = f j.
Proof. intros H. unfold upd. by rewrite (proj2 (Nat.eqb_neq _ _) H). Qed.

Lemma upd_upd {A} (f : nat -> A) i x y j : upd (upd f i x) i y j = upd f i y j.
Proof. unfold upd. by case_match. Qed.

Definition zsum (f : nat -> Z) (n : nat) : Z := foldr (fun i acc => f i + acc) 0 (seq 0 n).

Lemma foldr_sum_ext (f g : nat -> Z) l : (forall i, i ∈ l -> f i = g i) ->
  foldr (fun i acc => f i + acc) 0 l = foldr (fun i acc => g i + acc) 0 l.
Proof. induction l as [|i l IH]; intros H; cbn; [done|]. rewrite H by left. rewrite IH; [done|]. intros j Hj. apply H. by right. Qed.

Lemma zsum_ext f g n : (forall i, (i < n)%nat -> f i = g i) -> zsum f n = zsum g n.
Proof. intros H. apply foldr_sum_ext. intros i Hi%elem_of_seq. apply H. lia. Qed.

Lemma zsum_S f n : zsum f (S n) = zsum f n + f n.
Proof.
  unfold zsum. rewrite seq_S, foldr_app. cbn. rewrite Z.add_0_r. generalize (f n). intros z.
  induction (seq 0 n) as [|i l IH]; cbn; lia.
Qed.

Lemma zsum_upd {A} (f : A -> Z) (g : nat -> A) i x n : (i < n)%nat ->
  zsum (fun j => f (upd g i x j)) n = zsum (fun j => f (g j)) n - f (g i) + f x.
Proof.
  induction n as [|n IH]; intros Hi; [lia|]. rewrite !zsum_S. destruct (decide (i = n)) as [->|Hne].
  - rewrite upd_eq. rewrite (zsum_ext _ (fun j => f (g j)) n); [lia|]. intros j Hj. rewrite upd_ne by lia. done.
  - rewrite upd_ne, IH by lia. lia.
Qed.

Lemma zsum_le f g n : (forall i, (i < n)%nat -> f i <= g i) -> zsum f n <= zsum g n.
Proof.
  induction n as [|n IH]; intros H; [done|]. rewrite !zsum_S. specialize (H n ltac:(lia)) as Hn.
  assert (zsum f n <= zsum g n) by (apply IH; intros; apply H; lia). lia.
Qed.

Lemma zsum_const c n : zsum (fun _ => c) n = c * Z.of_nat n.
Proof. induction n as [|n IH]; [cbn; lia|]. rewrite zsum_S, IH. lia. Qed.

Lemma zsum_add f g n : zsum (fun i => f i + g i) n = zsum f n + zsum g n.
Proof. induction n as [|n IH]; [done|]. rewrite !zsum_S, IH. lia. Qed.

Lemma zsum_swap (f : nat -> nat -> Z) n m : zsum (fun i => zsum (f i) m) n = zsum (fun j => zsum (fun i => f i j) n) m.
Proof.
  induction n as [|n IH].
  - cbn. by rewrite (zsum_const 0).
  - rewrite zsum_S, IH, <- zsum_add. apply zsum_ext. intros j _. by rewrite zsum_S.
Qed.

(** The entry of a list of lists that changes. *)
Lemma concat_upd {A B} (f : nat -> A -> list B) (g : nat -> A) n i x : (i < n)%nat ->
  exists rest, concat (map (fun j => f j (g j)) (seq 0 n)) ≡ₚ f i (g i) ++ rest /\
    concat (map (fun j => f j (upd g i x j)) (seq 0 n)) ≡ₚ f i x ++ rest.
Proof.
  induction n as [|n IH]; intros Hi; [lia|]. rewrite seq_S, !map_app, !concat_app. cbn [map concat Nat.add]. rewrite !app_nil_r.
  destruct (decide (i = n)) as [->|Hne].
  - rewrite upd_eq. exists (concat (map (fun j => f j (g j)) (seq 0 n))).
    split; [apply Permutation_app_comm|]. rewrite Permutation_app_comm. f_equiv.
    assert (forall l, n ∉ l -> map (fun j => f j (upd g n x j)) l = map (fun j => f j (g j)) l) as H.
    { induction l as [|j l IHl]; [done|]. intros [Hj Hl]%not_elem_of_cons. cbn. by rewrite upd_ne, IHl. }
    rewrite H; [done|]. intros Hn%elem_of_seq. lia.
  - rewrite upd_ne by lia. destruct (IH ltac:(lia)) as (rest & H1 & H2). exists (rest ++ f n (g n)).
    rewrite H1, H2. by rewrite !app_assoc.
Qed.

Section Protocol.
Context (hash_bytes : list Z -> Z) (accepts : list Z -> Z -> bool).
Context (groups : list SectionGroup) (capacity : Z).
Context (Hindex : forall i g, groups !! i = Some g -> group_index g = i).
Context (Hcapacity : MERGE_STRING_BUCKETS <= capacity).
Local Abbreviation n := (length groups).
Local Abbreviation exec := (exec hash_bytes accepts n capacity).
Local Abbreviation step_task := (step_task hash_bytes accepts n capacity).
Local Abbreviation run := (run hash_bytes accepts n capacity).

Definition split_of (i : nat) : res SplitState :=
  match groups !! i with Some g => split_group hash_bytes accepts g | None => Panic end.

Context (Hno_panic : forall i, (i < n)%nat -> split_of i <> Panic).

(** The strings group [i] has for bucket [b]. *)
Definition outs (i b : nat) : list StringToMerge :=
  match split_of i with Ok out => default [] (buckets out !! b) | _ => [] end.

(** Bucket [b] with the strings of the groups before [j], without storing any offsets. *)
Definition add_text (x : StringToMerge) (b : Bucket) : res Bucket := r ← add_string (bytes x) b; Ok r.2.

Fixpoint merged (b j : nat) : res Bucket :=
  match j with
  | O => Ok (new_bucket b)
  | S j => bucket ← merged b j; bucket ← for_each add_text (outs j b) bucket; Ok (advance_group bucket)
  end.

Definition merging (b j : nat) : res Bucket := bucket ← merged b j; for_each add_text (outs j b) bucket.

Definition bucket_at (b j : nat) : Bucket := match merged b j with Ok x => x | _ => new_bucket b end.
Definition bucket_after (b j : nat) : Bucket := match merging b j with Ok x => x | _ => new_bucket b end.

Definition group_tasks (i : nat) (p : gphase) : list task :=
  match p with
  | Taking reserved =>
      match groups !! i with Some g => [TakeVecs g reserved (num_buckets - reserved)] | None => [] end
  | Storing c => match split_of i with Ok out => [StoreStrings i c (drop c (buckets out))] | _ => [] end
  | _ => []
  end.

Definition bucket_tasks (b : nat) (p : bphase) : list task :=
  match p with
  | Working j => [WorkWithBucket (bucket_at b j)]
  | Returning j => [ReturnVec (bucket_after b j)]
  | Counting j => [CountVec (bucket_after b j)]
  | Trying j None => [TryReserve (Some (bucket_after b j))]
  | Trying j (Some a) => [Exchange a (Some (bucket_after b j))]
  | _ => []
  end.

Definition call_tasks (c : option (option Z)) : list task :=
  match c with None => [] | Some None => [TryReserve None] | Some (Some a) => [Exchange a None] end.

Definition tasks_of (gh : ghost) : list task :=
  concat (map (fun i => group_tasks i (group_phase gh i)) (seq 0 n)) ++
  concat (map (fun b => bucket_tasks b (bucket_phase gh b)) (seq 0 num_buckets)) ++
  replicate (spawned gh) Spawned ++ call_tasks (first_call gh).

(** How many groups a bucket has taken strings of, pushed the vector of, and counted it. *)
Definition consumed (p : bphase) : nat :=
  match p with
  | Working j | Waiting j => j
  | Returning j | Counting j | Trying j _ | Lost j => S j
  | Finished => n
  end.
Definition pushed (p : bphase) : nat :=
  match p with
  | Working j | Waiting j | Returning j | Lost j => j
  | Counting j | Trying j _ => S j
  | Finished => n
  end.
Definition counted (p : bphase) : nat :=
  match p with
  | Working j | Waiting j | Returning j | Counting j | Lost j => j
  | Trying j _ => S j
  | Finished => n
  end.
Definition reserved_of (p : gphase) : Z := match p with Taking r => Z.of_nat r | _ => 0 end.

Definition stored (p : gphase) (b : nat) : bool :=
  match p with Storing c => (b <? c)%nat | Stored => true | _ => false end.

Definition slot_of (gh : ghost) (i b : nat) : StringsSlot :=
  if stored (group_phase gh i) b then
    if (consumed (bucket_phase gh b) <=? i)%nat then Strings (outs i b) else Empty
  else match bucket_phase gh b with
       | Waiting j => if (j =? i)%nat then WaitingForStrings (bucket_at b j) else Empty
       | _ => Empty
       end.

Definition gphase_ok (gh : ghost) (i : nat) : Prop :=
  match group_phase gh i with
  | Unpopped => (popped gh <= i)%nat
  | Taking r => (i < popped gh)%nat /\ (r <= num_buckets)%nat
  | Storing c => (i < popped gh)%nat /\ (c <= num_buckets)%nat /\ is_Ok (split_of i)
  | Stored => (i < popped gh)%nat /\ is_Ok (split_of i)
  | Failed => (i < popped gh)%nat /\ ~ is_Ok (split_of i)
  end.

(** A compare-exchange is only tried with enough vectors. *)
Definition enough (seen : option Z) : Prop := match seen with Some a => MERGE_STRING_BUCKETS <= a | None => True end.

Definition bphase_ok (gh : ghost) (b : nat) : Prop :=
  match bucket_phase gh b with
  | Working j => (j <= n)%nat /\ is_Ok (merged b j)
  | Waiting j => (j < n)%nat /\ is_Ok (merged b j) /\ stored (group_phase gh j) b = false
  | Returning j | Counting j => (j < n)%nat /\ is_Ok (merging b j)
  | Trying j seen => (j < n)%nat /\ is_Ok (merging b j) /\ enough seen
  | Finished => is_Ok (merged b n)
  | Lost j => (j < n)%nat /\ is_Ok (merged b j) /\ ~ is_Ok (merging b j)
  end.

Definition has_failed (gh : ghost) : Prop :=
  (exists i, (i < n)%nat /\ group_phase gh i = Failed) \/
  (exists b j, (b < num_buckets)%nat /\ bucket_phase gh b = Lost j).

(** Someone will try to reserve vectors as long as there are enough. *)
Definition will_try (gh : ghost) (available_ : Z) : Prop :=
  first_call gh = Some None \/ first_call gh = Some (Some available_) \/
  (exists b j, (b < num_buckets)%nat /\
     (bucket_phase gh b = Trying j None \/ bucket_phase gh b = Trying j (Some available_))).

(** *** What is stored *)
(** The offset of [x] in [b] as it is stored. *)
Definition value_in (b : Bucket) (x : StringToMerge) (v : Z) : Prop :=
  exists off, string_offsets b !! bytes x = Some off /\ bucket_offset_new off (bucket_index b) = Ok v.

(** The bucket as far as its strings have been stored. *)
Definition current (b : nat) (p : bphase) : option Bucket :=
  match p with
  | Working j | Waiting j => Some (bucket_at b j)
  | Returning j | Counting j | Trying j _ => Some (bucket_after b j)
  | Finished => Some (bucket_at b n)
  | Lost _ => None
  end.

Definition processed (gh : ghost) (b : nat) (x : StringToMerge) : Prop :=
  exists i, (i < consumed (bucket_phase gh b))%nat /\ x ∈ outs i b.

Record inv (gh : ghost) (s : MergeState) : Prop := {
  iv_popped : (popped gh <= n)%nat /\ unprocessed s = drop (popped gh) groups;
  iv_tasks : tasks s ≡ₚ tasks_of gh;
  iv_groups i : (i < n)%nat -> gphase_ok gh i;
  iv_buckets b : (b < num_buckets)%nat -> bphase_ok gh b;
  iv_consumed b i : (b < num_buckets)%nat -> (i < consumed (bucket_phase gh b))%nat -> (i < n)%nat ->
    stored (group_phase gh i) b = true;
  iv_slots_len : length (slots s) = (n * num_buckets)%nat;
  iv_slots i b : (i < n)%nat -> (b < num_buckets)%nat -> slots s !! string_bucket_offset i b = Some (slot_of gh i b);
  iv_pool : available s + 16 * Z.of_nat (spawned gh) + 16 * Z.of_nat (popped gh) -
              zsum (fun b => Z.of_nat (counted (bucket_phase gh b))) num_buckets = capacity;
  iv_available : 0 <= available s;
  iv_call : match first_call gh with Some seen => enough seen | None => True end;
  iv_vecs : 0 <= string_vecs s <= capacity - 16 * Z.of_nat (popped gh) +
              zsum (fun i => reserved_of (group_phase gh i)) n +
              zsum (fun b => Z.of_nat (pushed (bucket_phase gh b))) num_buckets;
  iv_error : error s <> None <-> has_failed gh;
  iv_finished : finished_buckets s ≡ₚ
    concat (map (fun b => match bucket_phase gh b with Finished => [bucket_at b n] | _ => [] end) (seq 0 num_buckets));
  iv_try : 16 <= available s -> popped gh = n \/ will_try gh (available s);
  iv_shards i : (i < n)%nat -> finished_shards s !! i =
    match group_phase gh i, split_of i with Storing _, Ok out | Stored, Ok out => Some (shard out) | _, _ => None end
}.

(** What the stores hold. *)
Record stores (gh : ghost) (st : OffsetStore) : Prop := {
  st_cells_from o : is_Some (cells st !! o) -> exists i out, split_of i = Ok out /\ o ∈ shard out;
  st_cells b x o B : (b < num_buckets)%nat -> current b (bucket_phase gh b) = Some B -> processed gh b x ->
    offset_out x = InShard o -> exists v, cells st !! o = Some v /\ value_in B x v;
  st_overflow_from o v : (o, v) ∈ overflowed st -> exists b x, (b < num_buckets)%nat /\ processed gh b x /\
    offset_out x = Overflow o /\ forall B, current b (bucket_phase gh b) = Some B -> value_in B x v;
  st_overflow b x o B : (b < num_buckets)%nat -> current b (bucket_phase gh b) = Some B -> processed gh b x ->
    offset_out x = Overflow o -> exists v, (o, v) ∈ overflowed st /\ value_in B x v
}.

Definition set_group (gh : ghost) (i : nat) (p : gphase) : ghost :=
  mkGhost (popped gh) (upd (group_phase gh) i p) (bucket_phase gh) (spawned gh) (first_call gh).
Definition set_bucket (gh : ghost) (b : nat) (p : bphase) : ghost :=
  mkGhost (popped gh) (group_phase gh) (upd (bucket_phase gh) b p) (spawned gh) (first_call gh).
Definition set_spawned (gh : ghost) (k : nat) : ghost :=
  mkGhost (popped gh) (group_phase gh) (bucket_phase gh) k (first_call gh).
Definition set_call (gh : ghost) (c : option (option Z)) : ghost :=
  mkGhost (popped gh) (group_phase gh) (bucket_phase gh) (spawned gh) c.
Definition pop_next (gh : ghost) : ghost :=
  mkGhost (S (popped gh)) (upd (group_phase gh) (popped gh) (Taking num_buckets)) (bucket_phase gh) (spawned gh)
    (first_call gh).

(** *** The tasks of a ghost *)
Lemma tasks_of_group gh i p : (i < n)%nat ->
  exists rest, tasks_of gh ≡ₚ group_tasks i (group_phase gh i) ++ rest /\ tasks_of (set_group gh i p) ≡ₚ group_tasks i p ++ rest.
Proof.
  intros Hi. destruct (concat_upd group_tasks (group_phase gh) n i p Hi) as (rest & H1 & H2).
  eexists (rest ++ _). unfold tasks_of. cbn. rewrite H1, H2, <- !app_assoc. by split.
Qed.

Lemma tasks_of_bucket gh b p : (b < num_buckets)%nat ->
  exists rest, tasks_of gh ≡ₚ bucket_tasks b (bucket_phase gh b) ++ rest /\
    tasks_of (set_bucket gh b p) ≡ₚ bucket_tasks b p ++ rest.
Proof.
  intros Hb. destruct (concat_upd bucket_tasks (bucket_phase gh) num_buckets b p Hb) as (rest & H1 & H2).
  exists (rest ++ concat (map (fun i => group_tasks i (group_phase gh i)) (seq 0 n)) ++
          replicate (spawned gh) Spawned ++ call_tasks (first_call gh)).
  unfold tasks_of. cbn. rewrite H1, H2. split; solve_Permutation.
Qed.

Lemma tasks_of_call gh c : exists rest, tasks_of gh ≡ₚ call_tasks (first_call gh) ++ rest /\
  tasks_of (set_call gh c) ≡ₚ call_tasks c ++ rest.
Proof.
  exists (concat (map (fun i => group_tasks i (group_phase gh i)) (seq 0 n)) ++
          concat (map (fun b => bucket_tasks b (bucket_phase gh b)) (seq 0 num_buckets)) ++ replicate (spawned gh) Spawned).
  unfold tasks_of. cbn. split; solve_Permutation.
Qed.

Lemma tasks_of_spawned gh k : tasks_of (set_spawned gh (S k)) ≡ₚ Spawned :: tasks_of (set_spawned gh k).
Proof. unfold tasks_of. cbn. solve_Permutation. Qed.

Lemma set_spawned_id gh : set_spawned gh (spawned gh) = gh.
Proof. by destruct gh. Qed.

Lemma group_tasks_one i p t : t ∈ group_tasks i p -> group_tasks i p = [t].
Proof. unfold group_tasks. destruct p; try by intros ?%elem_of_nil. all: case_match; first [by intros ->%list_elem_of_singleton | by intros ?%elem_of_nil]. Qed.

Lemma bucket_tasks_one b p t : t ∈ bucket_tasks b p -> bucket_tasks b p = [t].
Proof.
  destruct p as [j|j|j|j [a|]|j| |j]; cbn; try by intros ?%elem_of_nil. all: by intros ->%list_elem_of_singleton.
Qed.

Lemma call_tasks_one c t : t ∈ call_tasks c -> call_tasks c = [t].
Proof. destruct c as [[a|]|]; cbn; try by intros ?%elem_of_nil. all: by intros ->%list_elem_of_singleton. Qed.

Lemma elem_of_tasks_of gh t : t ∈ tasks_of gh ->
  (exists i, (i < n)%nat /\ group_tasks i (group_phase gh i) = [t]) \/
  (exists b, (b < num_buckets)%nat /\ bucket_tasks b (bucket_phase gh b) = [t]) \/
  (t = Spawned /\ (0 < spawned gh)%nat) \/ call_tasks (first_call gh) = [t].
Proof.
  unfold tasks_of. rewrite !elem_of_app, !elem_of_concat_map. intros [(i & Hi & Ht)|[(b & Hb & Ht)|[Ht|Ht]]].
  - left. apply elem_of_seq in Hi. exists i. split; [lia|by apply group_tasks_one].
  - right. left. apply elem_of_seq in Hb. exists b. split; [lia|by apply bucket_tasks_one].
  - right. right. left. apply elem_of_replicate in Ht as [-> H]. split; [done|lia].
  - right. right. right. by apply call_tasks_one.
Qed.

(** The state a step starts from: [t] has been taken from the tasks. *)
Definition taken (t : task) (s : MergeState) : MergeState := set_tasks (t :: tasks s) s.

Lemma taken_group gh t s i p : (i < n)%nat -> inv gh (taken t s) -> group_tasks i (group_phase gh i) = [t] ->
  tasks_of (set_group gh i p) ≡ₚ group_tasks i p ++ tasks s.
Proof.
  intros Hi Hinv Ht. destruct (tasks_of_group gh i p Hi) as (rest & H1 & H2). rewrite H2. f_equiv.
  pose proof (iv_tasks _ _ Hinv) as H. cbn in H. rewrite H1, Ht in H. cbn in H. by apply Permutation_cons_inv in H.
Qed.

Lemma taken_bucket gh t s b p : (b < num_buckets)%nat -> inv gh (taken t s) -> bucket_tasks b (bucket_phase gh b) = [t] ->
  tasks_of (set_bucket gh b p) ≡ₚ bucket_tasks b p ++ tasks s.
Proof.
  intros Hb Hinv Ht. destruct (tasks_of_bucket gh b p Hb) as (rest & H1 & H2). rewrite H2. f_equiv.
  pose proof (iv_tasks _ _ Hinv) as H. cbn in H. rewrite H1, Ht in H. cbn in H. by apply Permutation_cons_inv in H.
Qed.

Lemma taken_call gh t s c : inv gh (taken t s) -> call_tasks (first_call gh) = [t] ->
  tasks_of (set_call gh c) ≡ₚ call_tasks c ++ tasks s.
Proof.
  intros Hinv Ht. destruct (tasks_of_call gh c) as (rest & H1 & H2). rewrite H2. f_equiv.
  pose proof (iv_tasks _ _ Hinv) as H. cbn in H. rewrite H1, Ht in H. cbn in H. by apply Permutation_cons_inv in H.
Qed.

Lemma taken_spawned gh s : inv gh (taken Spawned s) -> (0 < spawned gh)%nat ->
  tasks_of (set_spawned gh (pred (spawned gh))) ≡ₚ tasks s.
Proof.
  intros Hinv Hpos. pose proof (iv_tasks _ _ Hinv) as H. cbn in H. rewrite <- (set_spawned_id gh) in H.
  replace (spawned gh) with (S (pred (spawned gh))) in H at 1 by lia. rewrite tasks_of_spawned in H.
  by apply Permutation_cons_inv in H.
Qed.

(** *** Steps of a bucket that take no strings *)
Definition on_its_way (p : bphase) : Prop :=
  match p with Working _ | Returning _ | Counting _ | Trying _ _ => True | _ => False end.

Lemma has_task_on_its_way b p t : bucket_tasks b p = [t] -> on_its_way p.
Proof. by destruct p. Qed.

Lemma failed_set_bucket gh b p : (forall j, p <> Lost j) -> on_its_way (bucket_phase gh b) ->
  has_failed (set_bucket gh b p) <-> has_failed gh.
Proof.
  intros Hp Hw. unfold has_failed. cbn. split; (intros [H|(b' & j & Hb & H)]; [by left|right]).
  - destruct (decide (b' = b)) as [->|Hne]; [rewrite upd_eq in H; by apply Hp in H|]. rewrite upd_ne in H by done. eauto.
  - exists b', j. split; [done|]. rewrite upd_ne; [done|]. intros ->. by rewrite H in Hw.
Qed.

Lemma phase_set_bucket gh b p b' : bphase_ok gh b' -> b' <> b -> bphase_ok (set_bucket gh b p) b'.
Proof. unfold bphase_ok. cbn. intros H Hne. by rewrite upd_ne by done. Qed.

Lemma slot_set_bucket gh b p i b' :
  (b' = b -> consumed p = consumed (bucket_phase gh b) /\ (forall j, p <> Waiting j) /\
     (forall j, bucket_phase gh b <> Waiting j)) ->
  slot_of (set_bucket gh b p) i b' = slot_of gh i b'.
Proof.
  intros H. unfold slot_of. cbn. destruct (decide (b' = b)) as [->|Hne]; [|by rewrite upd_ne by done].
  destruct (H eq_refl) as (Hc & Hp & Hq). rewrite upd_eq, Hc. destruct (stored _ _); [done|].
  destruct p as [j|j|j|j ?|j| |j]; try (by destruct (Hp j)); destruct (bucket_phase gh b) as [j'|j'|j'|j' ?|j'| |j'];
    try done; by destruct (Hq j').
Qed.

Lemma finished_upd (f g : nat -> bphase) :
  (forall b, (b < num_buckets)%nat -> f b = Finished <-> g b = Finished) ->
  concat (map (fun b => match f b with Finished => [bucket_at b n] | _ => [] end) (seq 0 num_buckets)) =
  concat (map (fun b => match g b with Finished => [bucket_at b n] | _ => [] end) (seq 0 num_buckets)).
Proof.
  intros H. assert (forall l, (forall b, b ∈ l -> f b = Finished <-> g b = Finished) ->
    map (fun b => match f b with Finished => [bucket_at b n] | _ => [] end) l =
    map (fun b => match g b with Finished => [bucket_at b n] | _ => [] end) l) as Hm.
  { induction l as [|b l IH]; intros Hl; [done|]. cbn. rewrite IH by (intros; apply Hl; by right). f_equal.
    pose proof (Hl b ltac:(left)) as Hb. destruct (f b), (g b); try done; intuition discriminate. }
  rewrite Hm; [done|]. intros b Hb%elem_of_seq. apply H. lia.
Qed.

Definition same_rest (s s' : MergeState) : Prop :=
  unprocessed s' = unprocessed s /\ slots s' = slots s /\ finished_shards s' = finished_shards s /\
  finished_buckets s' = finished_buckets s /\ error s' = error s.

Lemma tasks_of_more gh d : tasks_of (set_spawned gh (spawned gh + d)) ≡ₚ replicate d Spawned ++ tasks_of gh.
Proof. unfold tasks_of. cbn. rewrite replicate_add. solve_Permutation. Qed.

Lemma inv_bucket_step gh t s s' b p d :
  (b < num_buckets)%nat -> inv gh (taken t s) -> bucket_tasks b (bucket_phase gh b) = [t] ->
  tasks s' ≡ₚ bucket_tasks b p ++ replicate d Spawned ++ tasks s -> same_rest s s' ->
  consumed p = consumed (bucket_phase gh b) -> on_its_way p -> bphase_ok (set_bucket gh b p) b ->
  available s' + 16 * Z.of_nat d - Z.of_nat (counted p) = available s - Z.of_nat (counted (bucket_phase gh b)) -> 0 <= available s' ->
  0 <= string_vecs s' ->
  string_vecs s' - Z.of_nat (pushed p) <= string_vecs s - Z.of_nat (pushed (bucket_phase gh b)) ->
  (16 <= available s' -> popped gh = n \/ will_try (set_bucket gh b p) (available s')) ->
  inv (set_spawned (set_bucket gh b p) (spawned gh + d)) s'.
Proof.
  intros Hb Hinv Ht Htasks (Hu & Hsl & Hsh & Hfb & He) Hc Hp Hok Hav Ha0 Hv0 Hv Htry.
  pose proof (has_task_on_its_way _ _ _ Ht) as Hq. pose proof Hinv as [Hpop Ht' Hg Hbk Hcon Hlen Hslots Hpool _ Hcall Hvecs Herr Hfin _ Hshards].
  cbn in Hpop, Hlen, Hslots, Hpool, Hvecs, Herr, Hfin, Hshards.
  split; cbn [popped group_phase spawned set_bucket set_spawned].
  - by rewrite Hu.
  - pose proof (tasks_of_more (set_bucket gh b p) d) as Hm. cbn [spawned set_bucket] in Hm.
    rewrite Htasks, Hm, (taken_bucket _ _ _ _ _ Hb Hinv Ht). solve_Permutation.
  - intros i Hi. by apply Hg.
  - intros b' Hb'. change (bphase_ok (set_bucket gh b p) b'). destruct (decide (b' = b)) as [->|Hne]; [done|]. apply phase_set_bucket; [by apply Hbk|done].
  - intros b' i Hb'. cbn. destruct (decide (b' = b)) as [->|Hne]; [rewrite upd_eq, Hc|rewrite upd_ne by done]; by apply Hcon.
  - by rewrite Hsl.
  - intros i b' Hi Hb'. rewrite Hsl, Hslots by done. f_equal. symmetry. apply (slot_set_bucket gh b p).  intros ->.
    split; [done|]. split; intros j E; [by rewrite E in Hp|by rewrite E in Hq].
  - cbn. rewrite (zsum_upd (fun q => Z.of_nat (counted q))) by done. lia.
  - done.
  - done.
  - cbn. rewrite (zsum_upd (fun q => Z.of_nat (pushed q))) by done. lia.
  - rewrite He, Herr. symmetry. apply (failed_set_bucket gh b p); [|done]. intros j E. by rewrite E in Hp.
  - rewrite Hfb, Hfin. erewrite finished_upd; [done|]. intros b' _. cbn. destruct (decide (b' = b)) as [->|Hne].
    + rewrite upd_eq. split; intros E; [by rewrite E in Hq|by rewrite E in Hp].
    + by rewrite upd_ne by done.
  - done.
  - intros i Hi. rewrite Hsh. by apply Hshards.
Qed.

Lemma will_try_set_bucket gh b p a :
  (forall j, bucket_phase gh b <> Trying j None /\ bucket_phase gh b <> Trying j (Some a)) ->
  will_try gh a -> will_try (set_bucket gh b p) a.
Proof.
  intros H [?|[?|(b' & j & Hb & Hj)]]; [by left|right; by left|]. right. right. exists b', j. split; [done|]. cbn.
  rewrite upd_ne; [done|]. intros ->. destruct (H j), Hj; done.
Qed.

Lemma merging_Ok b j : is_Ok (merging b j) -> merging b j = Ok (bucket_after b j).
Proof. intros [x Hx]. unfold bucket_after. by rewrite Hx. Qed.

Lemma merged_Ok b j : is_Ok (merged b j) -> merged b j = Ok (bucket_at b j).
Proof. intros [x Hx]. unfold bucket_at. by rewrite Hx. Qed.

Lemma merged_S b j : merged b (S j) = (bucket ← merging b j; Ok (advance_group bucket)).
Proof. unfold merging. cbn [merged]. by destruct (merged b j). Qed.

Lemma merged_next b j : is_Ok (merging b j) -> is_Ok (merged b (S j)) /\ bucket_at b (S j) = advance_group (bucket_after b j).
Proof.
  intros H. pose proof (merged_S b j) as Hs. rewrite (merging_Ok _ _ H) in Hs. cbn [mbind res_bind] in Hs.
  split; [by eexists|]. unfold bucket_at. by rewrite Hs.
Qed.

Lemma num_buckets_eq : num_buckets = 16%nat.
Proof. done. Qed.

Lemma zsum_below c k m : (k <= m)%nat -> zsum (fun i => if (i <? k)%nat then c else 0) m = c * Z.of_nat k.
Proof.
  intros H. induction H as [|m H IH].
  - rewrite (zsum_ext _ (fun _ => c)); [apply zsum_const|]. intros i Hi. by rewrite (proj2 (Nat.ltb_lt _ _) Hi).
  - rewrite zsum_S, IH, (proj2 (Nat.ltb_ge _ _)); lia.
Qed.

(** Every vector a bucket took strings from was taken from the pool. *)
Lemma vectors_out gh s : inv gh s ->
  zsum (fun b => Z.of_nat (consumed (bucket_phase gh b))) num_buckets <=
    16 * Z.of_nat (popped gh) - zsum (fun i => reserved_of (group_phase gh i)) n.
Proof.
  intros Hinv. pose proof (iv_popped _ _ Hinv) as [Hpop _].
  assert (forall b, (b < num_buckets)%nat -> (consumed (bucket_phase gh b) <= n)%nat) as Hcn.
  { intros b Hb. pose proof (iv_buckets _ _ Hinv _ Hb) as H. unfold bphase_ok in H. destruct (bucket_phase gh b); cbn; lia. }
  assert (zsum (fun b => Z.of_nat (consumed (bucket_phase gh b))) num_buckets =
          zsum (fun i => zsum (fun b => if (i <? consumed (bucket_phase gh b))%nat then 1 else 0) num_buckets) n) as ->.
  { rewrite zsum_swap. apply zsum_ext. intros b Hb. rewrite zsum_below by (by apply Hcn). lia. }
  assert (zsum (fun i => zsum (fun b => if (i <? consumed (bucket_phase gh b))%nat then 1 else 0) num_buckets) n <=
          zsum (fun i => (if (i <? popped gh)%nat then 16 else 0) + -1 * reserved_of (group_phase gh i)) n) as Hle.
  { apply zsum_le. intros i Hi. pose proof (iv_groups _ _ Hinv _ Hi) as Hg.
    assert ((forall b, stored (group_phase gh i) b = false) ->
      zsum (fun b => if (i <? consumed (bucket_phase gh b))%nat then 1 else 0) num_buckets = 0) as Hnone.
    { intros Hs. rewrite (zsum_ext _ (fun _ => 0)); [by rewrite zsum_const|]. intros b Hb.
      destruct (Nat.ltb_spec i (consumed (bucket_phase gh b))) as [H|]; [|done].
      pose proof (iv_consumed _ _ Hinv _ _ Hb H Hi) as Hc. rewrite Hs in Hc. done. }
    assert (zsum (fun b => if (i <? consumed (bucket_phase gh b))%nat then 1 else 0) num_buckets <= 16) as Hall.
    { etrans; [apply (zsum_le _ (fun _ => 1)); intros b _; by case_match|]. by rewrite zsum_const. }
    unfold gphase_ok in Hg. rewrite num_buckets_eq in Hg. destruct (group_phase gh i) as [|r|c| |] eqn:E; cbn [reserved_of].
    - rewrite Hnone by (by intros). case_match; lia.
    - rewrite Hnone by (by intros). rewrite (proj2 (Nat.ltb_lt _ _)) by lia. lia.
    - rewrite (proj2 (Nat.ltb_lt _ _)) by lia. lia.
    - rewrite (proj2 (Nat.ltb_lt _ _)) by lia. lia.
    - rewrite (proj2 (Nat.ltb_lt _ _)) by lia. lia. }
  etrans; [exact Hle|]. rewrite zsum_add, zsum_below by done.
  assert (forall f m, zsum (fun i => -1 * f i) m = - zsum f m) as Hneg.
  { intros f m. induction m as [|m IH]; [done|]. rewrite !zsum_S, IH. lia. }
  rewrite Hneg. lia.
Qed.

Lemma pushed_consumed gh b : Z.of_nat (pushed (bucket_phase gh b)) <= Z.of_nat (consumed (bucket_phase gh b)).
Proof. destruct (bucket_phase gh b); cbn; lia. Qed.

Lemma counted_pushed gh b : Z.of_nat (counted (bucket_phase gh b)) <= Z.of_nat (pushed (bucket_phase gh b)).
Proof. destruct (bucket_phase gh b); cbn; lia. Qed.

Lemma vector_room gh s b j : inv gh s -> (b < num_buckets)%nat -> bucket_phase gh b = Returning j -> string_vecs s < capacity.
Proof.
  intros Hinv Hb Hj. pose proof (vectors_out _ _ Hinv) as Hout. pose proof (iv_vecs _ _ Hinv) as [_ Hv].
  assert (zsum (fun b => Z.of_nat (pushed (bucket_phase gh b))) num_buckets <
          zsum (fun b => Z.of_nat (consumed (bucket_phase gh b))) num_buckets); [|lia].
  pose proof (zsum_upd (fun q => Z.of_nat (pushed q)) (bucket_phase gh) b (Working (S j)) num_buckets Hb) as Hu.
  rewrite Hj in Hu. cbn [pushed] in Hu.
  assert (zsum (fun k => Z.of_nat (pushed (upd (bucket_phase gh) b (Working (S j)) k))) num_buckets <=
          zsum (fun b => Z.of_nat (consumed (bucket_phase gh b))) num_buckets); [|lia].
  apply zsum_le. intros b' _. destruct (decide (b' = b)) as [->|Hne]; [by rewrite upd_eq, Hj|].
  rewrite upd_ne by done. apply pushed_consumed.
Qed.

Local Ltac same_content :=
  split; [done|]; split; [done|]; split; [done|]; cbn; intros ? [= <-]; eexists; split; [done|]; split;
  match goal with H : bucket_at _ _ = _ |- _ => by rewrite H | _ => done end.

(** *** The steps of [TryReserve], [Exchange], [ReturnVec] and [CountVec] for a bucket *)
Lemma exec_bucket_wait gh t s b : (b < num_buckets)%nat -> inv gh (taken t s) ->
  bucket_tasks b (bucket_phase gh b) = [t] -> (forall j, bucket_phase gh b <> Working j) ->
  exists s' p d, exec t s = Ok s' /\ inv (set_spawned (set_bucket gh b p) (spawned gh + d)) s' /\ offsets s' = offsets s /\
    consumed p = consumed (bucket_phase gh b) /\ on_its_way p /\
    (forall B, current b p = Some B -> exists B', current b (bucket_phase gh b) = Some B' /\
       string_offsets B = string_offsets B' /\ bucket_index B = bucket_index B').
Proof.
  intros Hb Hinv Ht Hnw. pose proof (iv_buckets _ _ Hinv _ Hb) as Hok. unfold bphase_ok in Hok.
  pose proof (iv_vecs _ _ Hinv) as Hv. pose proof (iv_available _ _ Hinv) as Ha. cbn in Hv, Ha.
  pose proof (iv_try _ _ Hinv) as Htry. cbn in Htry.
  destruct (bucket_phase gh b) as [j|j|j|j [a|]|j| |j] eqn:Ej; cbn in Ht; try done; [by destruct (Hnw j)|..];
    injection Ht as <-; step_exec.
  - (* ReturnVec *)
    pose proof (vector_room _ _ _ _ Hinv Hb Ej) as Hroom. cbn in Hroom. rewrite (proj2 (Z.ltb_lt _ _) Hroom).
    eexists _, (Counting j), 0%nat. split; [done|]. split; [|same_content].
    eapply inv_bucket_step; rewrite ?Ej; cbn; change MERGE_STRING_BUCKETS with 16; try done; try lia.
    + apply Permutation_app_comm.
    + unfold bphase_ok. cbn. by rewrite upd_eq.
    + intros H. destruct (Htry H) as [?|Hw]; [by left|right]. apply will_try_set_bucket; [|done]. by rewrite Ej.
  - (* CountVec *)
    eexists _, (Trying j None), 0%nat. split; [done|]. split; [|same_content].
    eapply inv_bucket_step; rewrite ?Ej; cbn; change MERGE_STRING_BUCKETS with 16; try done; try lia.
    + apply Permutation_app_comm.
    + unfold bphase_ok. cbn. rewrite upd_eq. destruct Hok. done.
    + intros _. right. right. right. exists b, j. cbn. rewrite upd_eq. by auto.
  - (* Exchange *)
    destruct (Z.eqb_spec (available s) a) as [Heq|Hne].
    + eexists _, (Trying j None), 1%nat. split; [done|]. split; [|same_content].
      destruct Hok as (Hj & Hm & Hen). cbn in Hen. change MERGE_STRING_BUCKETS with 16 in Hen.
      eapply inv_bucket_step; rewrite ?Ej; cbn; change MERGE_STRING_BUCKETS with 16; try done; try lia.
      * solve_Permutation.
      * unfold bphase_ok. cbn. by rewrite upd_eq.
      * intros _. right. right. right. exists b, j. cbn. rewrite upd_eq. by auto.
    + eexists _, (Working (S j)), 0%nat. split; [done|].
      destruct Hok as (Hj & Hm & Hen). destruct (merged_next _ _ Hm) as [Hm' Hat].
      split; [|same_content].
      eapply inv_bucket_step; rewrite ?Ej; cbn; change MERGE_STRING_BUCKETS with 16; try done; try lia.
      * rewrite Hat. apply Permutation_app_comm.
      * unfold bphase_ok. cbn. rewrite upd_eq. split; [lia|done].
      * intros H. destruct (Htry H) as [?|Hw]; [by left|right]. apply will_try_set_bucket; [|done]. rewrite Ej.
        intros j'. split; [done|]. congruence.
  - (* TryReserve *)
    destruct Hok as (Hj & Hm & Hen). destruct (merged_next _ _ Hm) as [Hm' Hat].
    destruct (Z.ltb_spec (available s) MERGE_STRING_BUCKETS) as [Hlt|Hge].
    + eexists _, (Working (S j)), 0%nat. split; [done|].
      split; [|same_content].
      eapply inv_bucket_step; rewrite ?Ej; cbn; change MERGE_STRING_BUCKETS with 16; try done; try lia.
      * rewrite Hat. apply Permutation_app_comm.
      * unfold bphase_ok. cbn. rewrite upd_eq. split; [lia|done].
      * change MERGE_STRING_BUCKETS with 16 in Hlt. lia.
    + eexists _, (Trying j (Some (available s))), 0%nat. split; [done|]. split; [|same_content].
      eapply inv_bucket_step; rewrite ?Ej; cbn; change MERGE_STRING_BUCKETS with 16; try done; try lia.
      * apply Permutation_app_comm.
      * unfold bphase_ok. cbn. by rewrite upd_eq.
      * intros _. right. right. right. exists b, j. cbn. rewrite upd_eq. by auto.
Qed.

(** *** The first call *)
Lemma exec_call gh t s : inv gh (taken t s) -> call_tasks (first_call gh) = [t] ->
  exists s' c d, exec t s = Ok s' /\ inv (set_spawned (set_call gh c) (spawned gh + d)) s' /\ offsets s' = offsets s.
Proof.
  intros Hinv Ht. pose proof Hinv as [Hpop _ Hg Hbk Hcon Hlen Hslots Hpool Hav Hcall Hvecs Herr Hfin Htry Hshards].
  assert (forall s' c d, tasks s' ≡ₚ call_tasks c ++ replicate d Spawned ++ tasks s -> same_rest s s' ->
    string_vecs s' = string_vecs s -> available s' + 16 * Z.of_nat d = available s -> 0 <= available s' ->
    match c with Some seen => enough seen | None => True end ->
    (16 <= available s' -> popped gh = n \/ will_try (set_call gh c) (available s')) ->
    inv (set_spawned (set_call gh c) (spawned gh + d)) s') as Hstep.
  { intros s' c d Htasks (Hu & Hsl & Hsh & Hfb & He) Hv Ha Ha0 Hc Htry'. cbn in *.
    split; cbn; rewrite ?Hu, ?Hsl, ?Hsh, ?Hfb, ?He, ?Hv; try done; [|lia].
    pose proof (tasks_of_more (set_call gh c) d) as Hm. cbn [spawned set_call] in Hm.
    rewrite Htasks, Hm, (taken_call _ _ _ _ Hinv Ht). solve_Permutation. }
  cbn in Hav, Htry. destruct (first_call gh) as [[a|]|] eqn:Ec; cbn in Ht; try done; injection Ht as <-; step_exec.
  - cbn in Hcall. change MERGE_STRING_BUCKETS with 16 in Hcall. destruct (Z.eqb_spec (available s) a) as [Heq|Hne].
    + eexists _, (Some None), 1%nat. split; [done|]. split; [|done]. change MERGE_STRING_BUCKETS with 16.
      apply Hstep; cbn; try done; try lia; [solve_Permutation|]. intros _. right. by left.
    + eexists _, None, 0%nat. split; [done|]. split; [|done]. apply Hstep; cbn; try done; try lia; [by rewrite app_nil_r|].
      intros H. destruct (Htry H) as [?|[?|[?|?]]]; [by left|congruence|congruence|]. right. right. by right.
  - destruct (Z.ltb_spec (available s) MERGE_STRING_BUCKETS) as [Hlt|Hge].
    + eexists _, None, 0%nat. split; [done|]. split; [|done]. apply Hstep; cbn; try done; try lia; [by rewrite app_nil_r|].
      change MERGE_STRING_BUCKETS with 16 in Hlt. lia.
    + eexists _, (Some (Some (available s))), 0%nat. split; [done|]. split; [|done].
      apply Hstep; cbn; try done; try lia; [apply Permutation_app_comm|]. intros _. right. right. by left.
Qed.

(** *** Steps of a group that store nothing *)
Lemma reserved_nonneg p : 0 <= reserved_of p.
Proof. destruct p; cbn; lia. Qed.

Lemma inv_group_step gh s0 s' i p k m :
  let gh' := mkGhost k (upd (group_phase gh) i p) (bucket_phase gh) m (first_call gh) in
  inv gh s0 -> (i < n)%nat -> (forall b, (b < num_buckets)%nat -> stored p b = stored (group_phase gh i) b) ->
  tasks s' ≡ₚ tasks_of gh' -> (k <= n)%nat -> unprocessed s' = drop k groups -> (popped gh <= k)%nat ->
  (forall i', i' <> i -> group_phase gh i' = Unpopped -> (i' < n)%nat -> (k <= i')%nat) -> gphase_ok gh' i ->
  slots s' = slots s0 ->
  available s' + 16 * Z.of_nat m + 16 * Z.of_nat k =
    available s0 + 16 * Z.of_nat (spawned gh) + 16 * Z.of_nat (popped gh) -> 0 <= available s' ->
  0 <= string_vecs s' ->
  string_vecs s' + 16 * Z.of_nat k - reserved_of p <=
    Z.max (string_vecs s0 + 16 * Z.of_nat (popped gh) - reserved_of (group_phase gh i)) (16 * Z.of_nat k - reserved_of p) ->
  (error s' <> None <-> error s0 <> None \/ p = Failed) -> group_phase gh i <> Failed ->
  finished_buckets s' = finished_buckets s0 -> (16 <= available s' -> k = n \/ will_try gh (available s')) ->
  (forall i', (i' < n)%nat -> finished_shards s' !! i' =
     match group_phase gh' i', split_of i' with Storing _, Ok out | Stored, Ok out => Some (shard out) | _, _ => None end) ->
  inv gh' s'.
Proof.
  intros gh' Hinv Hi Hst Htasks Hk Hu Hpk Hun Hok Hsl Hav Ha0 Hv0 Hv Herr Hnf Hfb Htry Hsh.
  pose proof Hinv as [Hpop _ Hg Hbk Hcon Hlen Hslots Hpool _ Hcall Hvecs Herr' Hfin _ _].
  assert (forall i' b, (b < num_buckets)%nat -> stored (group_phase gh' i') b = stored (group_phase gh i') b) as Hstored.
  { intros i' b Hb. cbn. destruct (decide (i' = i)) as [->|Hne]; [rewrite upd_eq; by apply Hst|by rewrite upd_ne by done]. }
  split; try done.
  - intros i' Hi'. destruct (decide (i' = i)) as [->|Hne]; [done|]. specialize (Hg i' Hi'). unfold gphase_ok in *. cbn in *.
    rewrite upd_ne by done. destruct (group_phase gh i') eqn:E; try (by apply Hun); destruct_and?; split_and?; try done; lia.
  - intros b Hb. specialize (Hbk b Hb). unfold bphase_ok in *. cbn [bucket_phase gh'].
    destruct (bucket_phase gh b) as [j|j|j|j seen|j| |j]; try done. by rewrite Hstored.
  - intros b i' Hb. rewrite Hstored by done. by apply Hcon.
  - by rewrite Hsl.
  - intros i' b Hi' Hb. rewrite Hsl, Hslots by done. unfold slot_of. by rewrite Hstored by done.
  - cbn. lia.
  - split; [done|]. cbn [popped group_phase bucket_phase gh'].
    rewrite (zsum_upd reserved_of) by done.
    assert (zsum (fun b => Z.of_nat (counted (bucket_phase gh b))) num_buckets <=
            zsum (fun b => Z.of_nat (pushed (bucket_phase gh b))) num_buckets) by (apply zsum_le; intros; apply counted_pushed).
    pose proof (zsum_upd reserved_of (group_phase gh) i p n Hi) as Hu'.
    assert (0 <= zsum (fun j => reserved_of (upd (group_phase gh) i p j)) n).
    { etrans; [|apply (zsum_le (fun _ => 0))]; [by rewrite zsum_const|]. intros j _. apply reserved_nonneg. }
    lia.
  - rewrite Herr, Herr'. unfold has_failed. cbn. split.
    + intros [[(i' & Hi' & Hf)|?]| ->]; [|by right|].
      * left. exists i'. split; [done|]. rewrite upd_ne; [done|]. intros ->. done.
      * left. exists i. by rewrite upd_eq.
    + intros [(i' & Hi' & Hf)|?]; [|left; by right]. destruct (decide (i' = i)) as [->|Hne]; [right; by rewrite upd_eq in Hf|].
      left. left. exists i'. by rewrite upd_ne in Hf.
  - by rewrite Hfb.
Qed.

Lemma buckets_length_insert data o s : length (buckets (insert_data hash_bytes accepts data o s)) = length (buckets s).
Proof. cbn. apply length_alter. Qed.

Lemma split_strings_length fuel : forall l o hi s s', split_strings hash_bytes accepts fuel l o hi s = Ok s' ->
  length (buckets s') = length (buckets s).
Proof.
  induction fuel as [|fuel IH]; intros l o hi s s'; cbn; [by intros [= <-]|]. destruct l as [|x l]; [by intros [= <-]|].
  destruct (o <? hi); [|by intros [= <-]]. destruct (take_string (x :: l)) as [[data rest]| |]; cbn; [|done..].
  intros H%IH. rewrite H. apply buckets_length_insert.
Qed.

Lemma split_group_length g s : split_group hash_bytes accepts g = Ok s -> length (buckets s) = num_buckets.
Proof.
  unfold split_group. assert (forall l s0, length (buckets s0) = num_buckets ->
    for_each (process_input_section hash_bytes accepts (group_range g)) l s0 = Ok s -> length (buckets s) = num_buckets) as H.
  { induction l as [|sec l IH]; intros s0 H0; cbn [for_each]; [by intros [= <-]|].
    destruct (process_input_section _ _ _ sec s0) as [s1| |] eqn:E; cbn; [|done..]. apply IH. rewrite <- H0.
    unfold process_input_section in E. destruct (if _ : bool then _ else _) as [adv| |]; cbn in E; [|done..].
    destruct (is_string sec); [by apply split_strings_length in E|]. injection E as <-. apply buckets_length_insert. }
  by apply H.
Qed.

Lemma split_of_length i out : split_of i = Ok out -> length (buckets out) = num_buckets.
Proof. unfold split_of. destruct (groups !! i); [apply split_group_length|done]. Qed.

Lemma group_lookup i : (i < n)%nat -> exists g, groups !! i = Some g.
Proof. apply lookup_lt_is_Some_2. Qed.

(** *** A spawned input task pops a group, or finds none *)
Lemma exec_spawned gh s : inv gh (taken Spawned s) -> (0 < spawned gh)%nat ->
  exists s' gh', exec Spawned s = Ok s' /\ inv gh' s' /\ offsets s' = offsets s /\ bucket_phase gh' = bucket_phase gh.
Proof.
  intros Hinv Hsp. pose proof (taken_spawned _ _ Hinv Hsp) as Hts.
  pose proof Hinv as [[Hpop Hu] _ Hg Hbk Hcon Hlen Hslots Hpool Hav Hcall Hvecs Herr Hfin Htry Hshards]. cbn in Hu, Hpool, Hav.
  step_exec. rewrite Hu. destruct (drop (popped gh) groups) as [|g rest] eqn:Ed.
  - assert (popped gh = n) as Hpn by (apply (f_equal length) in Ed; rewrite length_drop in Ed; cbn in Ed; lia).
    eexists _, (set_spawned gh (pred (spawned gh))). split; [done|]. split; [|done]. cbn in *.
    split; cbn; change MERGE_STRING_BUCKETS with 16; try done; try lia; first [by rewrite Hu|by rewrite Hts].
  - assert (groups !! popped gh = Some g) as Hgp.
    { rewrite <- (Nat.add_0_r (popped gh)), <- lookup_drop, Ed. done. }
    pose proof (lookup_lt_Some _ _ _ Hgp) as Hlt. specialize (Hg _ Hlt) as Hok.
    assert (group_phase gh (popped gh) = Unpopped) as Hph.
    { unfold gphase_ok in Hok. destruct (group_phase gh (popped gh)); try done; lia. }
    eexists _, _. split; [done|]. split; [|split; [done|]];
      [eapply (inv_group_step gh _ _ (popped gh) (Taking num_buckets) (S (popped gh)) (pred (spawned gh)) Hinv Hlt)|]; cbn;
      rewrite ?Hph; try done; try lia.
    + pose proof (tasks_of_group (set_spawned gh (pred (spawned gh))) _ (Taking num_buckets) Hlt) as (r & Hr1 & Hr2).
      cbn in Hr1. rewrite Hph in Hr1. cbn in Hr1. unfold set_group in Hr2. cbn in Hr2. rewrite Hr2, <- Hr1, Hts, Hgp.
      apply Permutation_app_comm.
    + rewrite (drop_S _ _ _ Hgp) in Ed. by injection Ed as <-.
    + intros i' Hne Hi' Hi. specialize (Hg i' Hi). unfold gphase_ok in Hg. rewrite Hi' in Hg. lia.
    + unfold gphase_ok. cbn. rewrite upd_eq. split; lia.
    + cbn in Hvecs. lia.
    + rewrite num_buckets_eq. cbn [reserved_of]. lia.
    + split; [by left|]. by intros [?|?].
    + intros H. right. cbn in Htry. destruct (Htry H) as [?|?]; [lia|done].
    + intros i' Hi'. cbn in Hshards. rewrite Hshards by done. destruct (decide (i' = popped gh)) as [->|Hne].
      * by rewrite upd_eq, Hph.
      * by rewrite upd_ne by done.
Qed.

(** *** An input task takes its vectors, then splits its group *)
Lemma exec_take gh t s i r : inv gh (taken t s) -> (i < n)%nat -> group_phase gh i = Taking r ->
  group_tasks i (Taking r) = [t] ->
  exists s' gh', exec t s = Ok s' /\ inv gh' s' /\ bucket_phase gh' = bucket_phase gh /\
    (offsets s' = offsets s \/ exists out, split_of i = Ok out /\ group_phase gh i = Taking r /\
       offsets s' = insert_shard (shard out) (offsets s)).
Proof.
  intros Hinv Hi Hph Ht. destruct (group_lookup _ Hi) as [g Hgi]. pose proof (Hindex _ _ Hgi) as Hgx.
  pose proof Hinv as [[Hpop Hu] _ Hg Hbk Hcon Hlen Hslots Hpool Hav Hcall Hvecs Herr Hfin Htry Hshards].
  cbn in Hu, Hpool, Hav, Hvecs, Htry, Hshards. specialize (Hg _ Hi) as Hok. unfold gphase_ok in Hok. rewrite Hph in Hok.
  rewrite num_buckets_eq in Hok. cbn in Ht. rewrite Hgi in Ht. injection Ht as <-.
  assert (Hstep : forall s' p, tasks s' ≡ₚ group_tasks i p ++ tasks s -> (forall b, stored p b = false) ->
    gphase_ok (set_group gh i p) i -> unprocessed s' = unprocessed s -> slots s' = slots s -> available s' = available s ->
    0 <= string_vecs s' -> string_vecs s' - reserved_of p <= Z.max (string_vecs s - Z.of_nat r) (- reserved_of p) ->
    (error s' <> None <-> error s <> None \/ p = Failed) -> finished_buckets s' = finished_buckets s ->
    (forall i', (i' < n)%nat -> finished_shards s' !! i' =
       match upd (group_phase gh) i p i', split_of i' with
       | Storing _, Ok out | Stored, Ok out => Some (shard out) | _, _ => None end) ->
    inv (set_group gh i p) s').
  { intros s' p Htasks Hst Hok' Hu' Hsl' Ha' Hv0 Hv Herr' Hfb' Hsh'.
    eapply (inv_group_step gh _ _ i p (popped gh) (spawned gh) Hinv Hi); cbn;
      rewrite ?Hph, ?Hu', ?Hsl', ?Ha', ?Hfb'; cbn [stored reserved_of]; try done; try lia.
    - rewrite Htasks. symmetry. apply (taken_group gh _ s i p Hi Hinv). rewrite Hph. cbn. by rewrite Hgi.
    - intros i' _ Hun Hi'. specialize (Hg _ Hi'). unfold gphase_ok in Hg. by rewrite Hun in Hg. }
  step_exec. destruct r as [|r].
  - cbn [Nat.sub Nat.ltb Nat.leb]. rewrite num_buckets_eq. cbn [Nat.sub Nat.ltb Nat.leb].
    assert (split_of i = split_group hash_bytes accepts g) as Hsplit by (unfold split_of; by rewrite Hgi).
    destruct (split_group hash_bytes accepts g) as [out|e|] eqn:Es.
    + eexists _, (set_group gh i (Storing 0)). split; [done|]. split; [|split; [done|]; right; by exists out].
      apply Hstep; cbn; try done; try lia.
      * rewrite Hsplit, Hgx, drop_0. apply Permutation_app_comm.
      * unfold gphase_ok. cbn. rewrite upd_eq. split_and!; [lia|lia|by eexists].
      * by intuition.
      * intros i' Hi'. rewrite Hgx. destruct (decide (i' = i)) as [->|Hne].
        -- by rewrite lookup_insert_eq, upd_eq, Hsplit.
        -- rewrite lookup_insert_ne, upd_ne by done. by apply Hshards.
    + eexists _, (set_group gh i Failed). split; [done|]. split; [|split; [done|]; by left].
      apply Hstep; cbn; try done; try lia.
      * unfold gphase_ok. cbn. rewrite upd_eq. split; [lia|]. rewrite Hsplit. by intros [? ?].
      * destruct (error s); intuition congruence.
      * intros i' Hi'. rewrite Hshards by done. destruct (decide (i' = i)) as [->|Hne]; [by rewrite upd_eq, Hph|by rewrite upd_ne].
    + by destruct (Hno_panic _ Hi).
  - assert ((num_buckets - S r <? num_buckets)%nat = true) as -> by (apply Nat.ltb_lt; rewrite num_buckets_eq; lia).
    eexists _, (set_group gh i (Taking r)). split; [done|]. split; [|split; [done|]; by left].
    apply Hstep; cbn [tasks spawn set_tasks set_string_vecs unprocessed slots available string_vecs error finished_buckets finished_shards reserved_of]; try done; try lia.
    + cbn. rewrite Hgi. replace (S (num_buckets - S r)) with (num_buckets - r)%nat by (rewrite num_buckets_eq in *; lia).
      apply Permutation_app_comm.
    + unfold gphase_ok. cbn. rewrite upd_eq, num_buckets_eq. split; lia.
    + by intuition.
    + intros i' Hi'. rewrite Hshards by done. destruct (decide (i' = i)) as [->|Hne]; [by rewrite upd_eq, Hph|by rewrite upd_ne].
Qed.

(** *** Slots *)
Lemma slot_index_inj i b i' b' : (b < num_buckets)%nat -> (b' < num_buckets)%nat ->
  string_bucket_offset i b = string_bucket_offset i' b' -> i = i' /\ b = b'.
Proof. unfold string_bucket_offset. rewrite num_buckets_eq. lia. Qed.

Lemma slot_index_lt i b : (i < n)%nat -> (b < num_buckets)%nat -> (string_bucket_offset i b < n * num_buckets)%nat.
Proof. unfold string_bucket_offset. rewrite num_buckets_eq. lia. Qed.

Lemma swap_slot s i b slot x : slots s !! string_bucket_offset i b = Some x ->
  swap_strings_slot i b slot s = Ok (x, set_slots (<[string_bucket_offset i b := slot]> (slots s)) s).
Proof. intros Hx. unfold swap_strings_slot, index. rewrite decide_True by lia. by rewrite Nat2Z.id, Hx. Qed.

Lemma slots_insert gh s i b slot i' b' : inv gh s -> (i < n)%nat -> (b < num_buckets)%nat -> (i' < n)%nat -> (b' < num_buckets)%nat ->
  <[string_bucket_offset i b := slot]> (slots s) !! string_bucket_offset i' b' =
    Some (if decide (i' = i /\ b' = b) then slot else slot_of gh i' b').
Proof.
  intros Hinv Hi Hb Hi' Hb'. case_decide as Hd.
  - destruct Hd as [-> ->]. apply list_lookup_insert_eq. rewrite (iv_slots_len _ _ Hinv). by apply slot_index_lt.
  - rewrite list_lookup_insert_ne; [by apply (iv_slots _ _ Hinv)|]. intros He. apply slot_index_inj in He as [-> ->]; [|done..].
    by apply Hd.
Qed.

(** *** Storing the strings of a group for one bucket *)
Lemma inv_store gh s s' i c bp out :
  let gh' := mkGhost (popped gh) (upd (group_phase gh) i (Storing (S c))) bp (spawned gh) (first_call gh) in
  inv gh s -> (i < n)%nat -> (c < num_buckets)%nat -> group_phase gh i = Storing c -> split_of i = Ok out ->
  (forall b, bp b = bucket_phase gh b /\ (b = c -> bucket_phase gh b <> Waiting i) \/
             b = c /\ bucket_phase gh b = Waiting i /\ bp b = Working i) ->
  tasks s' ≡ₚ tasks_of gh' -> unprocessed s' = unprocessed s -> available s' = available s -> string_vecs s' = string_vecs s ->
  slots s' = <[string_bucket_offset i c := Strings (outs i c)]> (slots s) -> finished_shards s' = finished_shards s ->
  finished_buckets s' = finished_buckets s -> error s' = error s -> inv gh' s'.
Proof.
  intros gh' Hinv Hi Hc Hph Hout Hbp Htasks Hu Hav Hv Hsl Hsh Hfb He.
  pose proof Hinv as [[Hpop Hu'] _ Hg Hbk Hcon Hlen Hslots Hpool Ha0 Hcall Hvecs Herr Hfin Htry Hshards].
  assert (forall b, consumed (bp b) = consumed (bucket_phase gh b) /\ pushed (bp b) = pushed (bucket_phase gh b) /\
    counted (bp b) = counted (bucket_phase gh b) /\ (bp b = Finished <-> bucket_phase gh b = Finished) /\
    (forall j, bp b = Lost j <-> bucket_phase gh b = Lost j)) as Hsame.
  { intros b. destruct (Hbp b) as [[-> _]|(-> & -> & ->)]; [done|]. cbn. split_and!; try done. }
  assert (forall i' b, (b < num_buckets)%nat -> stored (group_phase gh' i') b =
    stored (group_phase gh i') b || bool_decide (i' = i /\ b = c)) as Hstored.
  { intros i' b Hb. cbn. destruct (decide (i' = i)) as [->|Hne].
    - rewrite upd_eq, Hph. cbn [stored]. case_bool_decide as Hd; [|].
      + rewrite orb_true_r. apply Nat.ltb_lt. destruct Hd. lia.
      + rewrite orb_false_r. assert (b <> c) by (intros ->; by apply Hd). destruct (Nat.ltb_spec b (S c)), (Nat.ltb_spec b c); (done || lia).
    - rewrite upd_ne by done. rewrite bool_decide_false by (by intros [? _]). by rewrite orb_false_r. }
  assert (stored (group_phase gh i) c = false) as Hnot by (rewrite Hph; cbn; apply Nat.ltb_irrefl).
  split; rewrite ?Hu, ?Hav, ?Hv, ?Hsl, ?Hsh, ?Hfb, ?He; try done.
  - intros i' Hi'. specialize (Hg _ Hi'). unfold gphase_ok in *. cbn. destruct (decide (i' = i)) as [->|Hne].
    + rewrite upd_eq. rewrite Hph in Hg. destruct Hg as (? & ? & ?). split_and!; [done|lia|done].
    + by rewrite upd_ne by done.
  - intros b Hb. specialize (Hbk _ Hb). unfold bphase_ok in *. cbn [bucket_phase gh'].
    destruct (Hbp b) as [[-> Hw]|(-> & Hw & ->)].
    + destruct (bucket_phase gh b) as [j|j|j|j seen|j| |j] eqn:E; try done. destruct Hbk as (? & ? & Hs). split_and!; try done.
      rewrite Hstored, Hs by done. cbn. apply bool_decide_false. intros [-> ->]. by destruct (Hw eq_refl).
    + rewrite Hw in Hbk. destruct Hbk as (? & ? & _). split; [lia|done].
  - intros b i' Hb. cbn [bucket_phase gh']. destruct (Hsame b) as (-> & _). intros H1 H2. rewrite Hstored by done.
    by rewrite Hcon.
  - by rewrite length_insert.
  - intros i' b Hi' Hb. rewrite (slots_insert gh) by done. f_equal. unfold slot_of at 2. rewrite Hstored by done.
    cbn [bucket_phase gh']. destruct (Hsame b) as (-> & _). case_decide as Hd.
    + destruct Hd as [-> ->]. rewrite bool_decide_true, orb_true_r by done.
      destruct (Nat.leb_spec (consumed (bucket_phase gh c)) i) as [|Hlt]; [done|].
      specialize (Hcon _ _ Hb Hlt Hi). congruence.
    + rewrite (bool_decide_false _ Hd), orb_false_r. unfold slot_of. destruct (stored _ b) eqn:Es; [done|].
      destruct (Hbp b) as [[-> _]|(-> & -> & ->)]; [done|].
      rewrite (proj2 (Nat.eqb_neq _ _)); [done|]. intros <-. by apply Hd.
  - cbn [popped spawned bucket_phase gh']. rewrite (zsum_ext _ (fun b => Z.of_nat (counted (bucket_phase gh b)))); [done|].
    intros b _. by destruct (Hsame b) as (_ & _ & -> & _).
  - cbn [popped group_phase bucket_phase gh']. rewrite (zsum_upd reserved_of) by done. rewrite Hph. cbn [reserved_of].
    rewrite (zsum_ext (fun b => Z.of_nat (pushed (bp b))) (fun b => Z.of_nat (pushed (bucket_phase gh b)))); [lia|].
    intros b _. by destruct (Hsame b) as (_ & -> & _).
  - rewrite Herr. unfold has_failed. cbn. split; (intros [(i' & Hi' & Hf)|(b & j & Hb & Hf)]; [left|right]).
    + exists i'. destruct (decide (i' = i)) as [->|Hne]; [congruence|]. by rewrite upd_ne.
    + exists b, j. split; [done|]. destruct (Hsame b) as (_ & _ & _ & _ & H). by apply H.
    + exists i'. destruct (decide (i' = i)) as [->|Hne]; [by rewrite upd_eq in Hf|]. by rewrite upd_ne in Hf.
    + exists b, j. split; [done|]. destruct (Hsame b) as (_ & _ & _ & _ & H). by apply H.
  - rewrite Hfin. erewrite finished_upd; [done|]. intros b _. destruct (Hsame b) as (_ & _ & _ & H & _). cbn. by rewrite H.
  - intros H. destruct (Htry H) as [?|Hw]; [by left|right]. destruct Hw as [?|[?|(b & j & Hb & Hj)]]; [by left|right; by left|].
    right. right. exists b, j. split; [done|]. cbn. destruct (Hbp b) as [[-> _]|(-> & Hw & _)]; [done|]. rewrite Hw in Hj. by destruct Hj.
  - intros i' Hi'. rewrite Hshards by done. cbn. destruct (decide (i' = i)) as [->|Hne]; [by rewrite upd_eq, Hph|by rewrite upd_ne].
Qed.

Lemma outs_eq i out b l : split_of i = Ok out -> buckets out !! b = Some l -> outs i b = l.
Proof. intros Ho Hl. unfold outs. by rewrite Ho, Hl. Qed.

Lemma inv_tasks gh s l : inv gh s -> l ≡ₚ tasks s -> inv gh (set_tasks l s).
Proof. intros Hinv Hl. destruct Hinv as [H1 H2 H3 H4 H5 H6 H7 H8 H9 H10 H11 H12 H13 H14 H15]. split; try done. cbn. by rewrite Hl. Qed.

Lemma exec_store gh t s i c : inv gh (taken t s) -> (i < n)%nat -> group_phase gh i = Storing c ->
  group_tasks i (Storing c) = [t] ->
  exists s' gh', exec t s = Ok s' /\ inv gh' s' /\ offsets s' = offsets s /\
    (forall b, bucket_phase gh' b = bucket_phase gh b \/ exists j, bucket_phase gh b = Waiting j /\ bucket_phase gh' b = Working j).
Proof.
  intros Hinv Hi Hph Ht. pose proof (iv_groups _ _ Hinv _ Hi) as Hok. unfold gphase_ok in Hok. rewrite Hph in Hok.
  destruct Hok as (Hpop & Hc & [out Hout]). cbn in Ht. rewrite Hout in Ht. injection Ht as <-.
  pose proof (split_of_length _ _ Hout) as Hlen.
  destruct (decide (c = num_buckets)) as [->|Hne].
  - rewrite drop_ge by lia. step_exec. eexists _, (set_group gh i Stored). split; [done|]. split; [|split; [done|by left]].
    destruct (iv_popped _ _ Hinv) as [Hpn Hu].
    eapply (inv_group_step gh _ _ i Stored (popped gh) (spawned gh) Hinv Hi); rewrite ?Hph; cbn [reserved_of taken set_tasks];
      try done; try lia.
    + intros b Hb. cbn [stored]. symmetry. by apply Nat.ltb_lt.
    + symmetry. apply (taken_group gh _ s i Stored Hi Hinv). rewrite Hph. cbn. rewrite Hout. by rewrite drop_ge by lia.
    + intros i' _ Hun Hi'. pose proof (iv_groups _ _ Hinv _ Hi') as H. unfold gphase_ok in H. by rewrite Hun in H.
    + unfold gphase_ok. cbn. rewrite upd_eq. split; [done|by eexists].
    + by apply (iv_available _ _ Hinv).
    + by apply (iv_vecs _ _ Hinv).
    + cbn. lia.
    + split; [by left|]. by intros [?|?].
    + intros H. by apply (iv_try _ _ Hinv).
    + intros i' Hi'. pose proof (iv_shards _ _ Hinv _ Hi') as Hs. cbn in Hs |- *. rewrite Hs.
      destruct (decide (i' = i)) as [->|Hne]; [by rewrite upd_eq, Hph|by rewrite upd_ne].
  - assert (c < num_buckets)%nat as Hcl by lia.
    destruct (lookup_lt_is_Some_2 (buckets out) c ltac:(lia)) as [l Hl]. rewrite (drop_S _ _ _ Hl). step_exec.
    rewrite (swap_slot s i c (Strings l) _ (iv_slots _ _ Hinv _ _ Hi Hcl)).
    cbn [mbind res_bind]. pose proof (outs_eq _ _ _ _ Hout Hl) as Hol.
    assert (slot_of gh i c = match bucket_phase gh c with Waiting j => if (j =? i)%nat then WaitingForStrings (bucket_at c j) else Empty | _ => Empty end) as Hslot.
    { unfold slot_of. rewrite Hph. cbn [stored]. by rewrite Nat.ltb_irrefl. }
    pose proof (fun p => taken_group gh _ s i p Hi Hinv ltac:(rewrite Hph; cbn; rewrite Hout; by rewrite (drop_S _ _ _ Hl))) as Htasks.
    assert (slot_of gh i c = Empty -> bucket_phase gh c <> Waiting i) as Hnw.
    { intros Hb Hw. by rewrite Hslot, Hw, Nat.eqb_refl in Hb. }
    destruct (slot_of gh i c) as [|b|l'] eqn:Es.
    + eexists _, (set_group gh i (Storing (S c))). split; [done|]. split; [|split; [done|intros b; by left]].
      eapply (inv_store gh _ _ i c (bucket_phase gh) out Hinv Hi Hcl Hph Hout); cbn; rewrite ?Hol; try done.
      * intros b. left. split; [done|]. intros ->. by apply Hnw.
      * rewrite (Htasks (Storing (S c))). cbn. rewrite Hout. apply Permutation_app_comm.
    + clear Es. rename Hslot into Es. destruct (bucket_phase gh c) as [j|j|j|j seen|j| |j] eqn:Ew; try done.
      destruct (Nat.eqb_spec j i) as [->|]; [|done]. injection Es as ->.
      eexists _, (mkGhost (popped gh) (upd (group_phase gh) i (Storing (S c))) (upd (bucket_phase gh) c (Working i)) (spawned gh) (first_call gh)).
      split; [done|]. split; [|split; [done|]].
      * eapply (inv_store gh _ _ i c (upd (bucket_phase gh) c (Working i)) out Hinv Hi Hcl Hph Hout); cbn; rewrite ?Hol; try done.
        -- intros b. destruct (decide (b = c)) as [->|Hb]; [right; by rewrite upd_eq|left; by rewrite upd_ne].
        -- pose proof (tasks_of_bucket (set_group gh i (Storing (S c))) c (Working i) Hcl) as (r & Hr1 & Hr2).
           cbn in Hr1, Hr2. rewrite Ew in Hr1. cbn in Hr1. unfold set_bucket in Hr2. cbn in Hr2. rewrite Hr2, <- Hr1.
           rewrite (Htasks (Storing (S c))). cbn. rewrite Hout. solve_Permutation.
      * intros b. cbn. destruct (decide (b = c)) as [->|Hb]; [right; exists i; by rewrite upd_eq|left; by rewrite upd_ne].
    + destruct (bucket_phase gh c); try done. by case_match.
Qed.

(** *** Merging *)
Lemma add_string_index s b r : add_string s b = Ok r ->
  bucket_index r.2 = bucket_index b /\ next_input_group_index r.2 = next_input_group_index b.
Proof.
  unfold add_string. destruct (string_offsets b !! s); cbn; (destruct (bucket_offset_new _ _); cbn; [|done..]); by intros [= <-].
Qed.

Lemma add_text_index x b b' : add_text x b = Ok b' ->
  bucket_index b' = bucket_index b /\ next_input_group_index b' = next_input_group_index b.
Proof.
  unfold add_text. destruct (add_string (bytes x) b) as [r| |] eqn:E; cbn; [|done..]. intros [= <-].
  by eapply add_string_index.
Qed.

Lemma add_texts_index l : forall b b', for_each add_text l b = Ok b' ->
  bucket_index b' = bucket_index b /\ next_input_group_index b' = next_input_group_index b.
Proof.
  induction l as [|x l IH]; intros b b'; cbn [for_each]; [by intros [= <-]|].
  destruct (add_text x b) as [b1| |] eqn:E; cbn [mbind res_bind]; [|done..].
  apply add_text_index in E as [E1 E2]. intros H%IH. by rewrite E1, E2 in H.
Qed.

Lemma merged_index b j x : merged b j = Ok x -> bucket_index x = b /\ next_input_group_index x = j.
Proof.
  revert x. induction j as [|j IH]; intros x; [by intros [= <-]|]. cbn [merged].
  destruct (merged b j) as [y| |]; cbn [mbind res_bind]; [|done..]. destruct (IH y eq_refl) as [H1 H2].
  destruct (for_each add_text (outs j b) y) as [z| |] eqn:E; cbn [mbind res_bind]; [|done..].
  intros [= <-]. apply add_texts_index in E as [E1 E2]. cbn. by rewrite E1, E2, H1, H2.
Qed.

Lemma bucket_at_index b j : is_Ok (merged b j) -> bucket_index (bucket_at b j) = b /\ next_input_group_index (bucket_at b j) = j.
Proof. intros H. apply merged_index. by apply merged_Ok. Qed.

Lemma add_text_no_panic x b : add_text x b <> Panic.
Proof.
  unfold add_text, add_string. destruct (string_offsets b !! bytes x); cbn; unfold bucket_offset_new; by case_match.
Qed.

Lemma merge_one_text x b st : merge_one x (b, st) =
  (b' ← add_text x b; o ← (r ← add_string (bytes x) b; Ok r.1); Ok (b', store_offset (offset_out x) o st)).
Proof. unfold merge_one, add_text. cbn [fst snd]. by destruct (add_string (bytes x) b) as [[o b1]| |]. Qed.

Lemma add_text_offset x b b' : add_text x b = Ok b' -> exists o, add_string (bytes x) b = Ok (o, b').
Proof. unfold add_text. destruct (add_string (bytes x) b) as [[o b1]| |]; cbn; [|done..]. intros [= <-]. by exists o. Qed.

Lemma merge_all l : forall b st,
  match for_each add_text l b with
  | Ok b1 => exists st', process_split_output l (b, st) = Ok (b1, st')
  | Err e => process_split_output l (b, st) = Err e
  | Panic => False
  end.
Proof.
  unfold process_split_output. induction l as [|x l IH]; intros b st; cbn [for_each]; [by exists st|].
  rewrite merge_one_text. pose proof (add_text_no_panic x b) as Hnp.
  destruct (add_text x b) as [b1| |] eqn:E; cbn [mbind res_bind] in *; [|done|done].
  apply add_text_offset in E as [o ->]. cbn [mbind res_bind fst]. apply IH.
Qed.

(** *** A bucket works on the strings of its next group *)
Lemma slot_of_phase gh b p i b' : b' <> b -> slot_of (set_bucket gh b p) i b' = slot_of gh i b'.
Proof. intros Hne. unfold slot_of. cbn. by rewrite upd_ne. Qed.

#[local] Instance bphase_eq_dec : EqDecision bphase.
Proof. solve_decision. Defined.

(** How a bucket that works on group [j] goes on. *)
Definition after_work (j : nat) (p : bphase) : Prop := p = Finished /\ j = n \/ p = Returning j \/ p = Waiting j \/ p = Lost j.

Lemma after_work_counts j p : after_work j p -> pushed p = j /\ counted p = j.
Proof. by intros [[-> ->]|[->|[->| ->]]]. Qed.

Lemma inv_work_step gh t s s' b j p :
  (b < num_buckets)%nat -> inv gh (taken t s) -> bucket_phase gh b = Working j -> bucket_tasks b (Working j) = [t] ->
  after_work j p -> tasks s' ≡ₚ bucket_tasks b p ++ tasks s -> bphase_ok (set_bucket gh b p) b ->
  unprocessed s' = unprocessed s -> available s' = available s -> string_vecs s' = string_vecs s ->
  finished_shards s' = finished_shards s ->
  (p <> Finished -> finished_buckets s' = finished_buckets s) ->
  (p = Finished -> finished_buckets s' = finished_buckets s ++ [bucket_at b n]) ->
  (error s' <> None <-> error s <> None \/ p = Lost j) ->
  (forall i, (i < consumed p)%nat -> (i < n)%nat -> stored (group_phase gh i) b = true) ->
  length (slots s') = length (slots s) ->
  (forall i b', (i < n)%nat -> (b' < num_buckets)%nat ->
     slots s' !! string_bucket_offset i b' = Some (slot_of (set_bucket gh b p) i b')) ->
  inv (set_bucket gh b p) s'.
Proof.
  intros Hb Hinv Hph Ht Hp Htasks Hok Hu Hav Hv Hsh Hfb1 Hfb2 He Hcon' Hlen' Hslots'.
  pose proof (after_work_counts _ _ Hp) as [Hpu Hco].
  pose proof Hinv as [Hpop Ht' Hg Hbk Hcon Hlen _ Hpool Ha0 Hcall Hvecs Herr Hfin Htry Hshards].
  split; rewrite ?Hu, ?Hav, ?Hv, ?Hsh; try done.
  - rewrite Htasks. symmetry. apply (taken_bucket gh t s); [done..|]. by rewrite Hph.
  - intros b' Hb'. destruct (decide (b' = b)) as [->|Hne]; [done|]. apply phase_set_bucket; [by apply Hbk|done].
  - intros b' i Hb' Hi. cbn in Hi |- *. destruct (decide (b' = b)) as [->|Hne]; [rewrite upd_eq in Hi; by apply Hcon'|].
    rewrite upd_ne in Hi by done. by apply Hcon.
  - by rewrite Hlen'.
  - cbn. rewrite (zsum_upd (fun q => Z.of_nat (counted q))), Hph, Hco by done. cbn [counted]. cbn in Hpool. lia.
  - cbn. rewrite (zsum_upd (fun q => Z.of_nat (pushed q))), Hph, Hpu by done. cbn [pushed]. cbn in Hvecs. lia.
  - cbn in Herr. rewrite He, Herr. unfold has_failed. cbn. split.
    + intros [[?|(b' & j' & Hb' & Hj')]| ->]; [by left|right|right; exists b, j; by rewrite upd_eq].
      exists b', j'. split; [done|]. rewrite upd_ne; [done|]. intros ->. congruence.
    + intros [?|(b' & j' & Hb' & Hj')]; [by do 2 left|]. destruct (decide (b' = b)) as [->|Hne].
      * rewrite upd_eq in Hj'. right. destruct Hp as [[-> _]|[->|[->| ->]]]; done.
      * rewrite upd_ne in Hj' by done. left. right. by exists b', j'.
  - destruct (decide (p = Finished)) as [->|Hnf].
    + rewrite (Hfb2 eq_refl). cbn in Hfin |- *. rewrite Hfin.
      pose proof (concat_upd (fun b p => match p with Finished => [bucket_at b n] | _ => [] end) (bucket_phase gh) num_buckets b
        Finished Hb) as (r & H1 & H2). rewrite H1, H2, Hph. cbn. apply Permutation_app_comm.
    + rewrite (Hfb1 Hnf). cbn in Hfin. rewrite Hfin. erewrite finished_upd; [done|]. intros b' _. cbn.
      destruct (decide (b' = b)) as [->|Hne]; [by rewrite upd_eq, Hph|by rewrite upd_ne].
  - intros H. destruct (Htry H) as [?|Hw]; [by left|right]. apply will_try_set_bucket; [|done]. by rewrite Hph.
Qed.

Lemma working_slot gh t s b j : inv gh (taken t s) -> (b < num_buckets)%nat -> bucket_phase gh b = Working j -> (j < n)%nat ->
  slot_of gh j b = if stored (group_phase gh j) b then Strings (outs j b) else Empty.
Proof. intros Hinv Hb Hph Hj. unfold slot_of. rewrite Hph. cbn [consumed]. by rewrite Nat.leb_refl. Qed.

Lemma slots_work gh t s b j p slot : inv gh (taken t s) -> (b < num_buckets)%nat -> bucket_phase gh b = Working j -> (j < n)%nat ->
  (p = Waiting j /\ stored (group_phase gh j) b = false /\ slot = WaitingForStrings (bucket_at b j) \/
   (p = Returning j \/ p = Lost j) /\ stored (group_phase gh j) b = true /\ slot = Empty) ->
  forall i b', (i < n)%nat -> (b' < num_buckets)%nat ->
    <[string_bucket_offset j b := slot]> (slots s) !! string_bucket_offset i b' = Some (slot_of (set_bucket gh b p) i b').
Proof.
  intros Hinv Hb Hph Hj Hp i b' Hi Hb'. pose proof (slots_insert gh _ j b slot i b' Hinv Hj Hb Hi Hb') as Hsi. cbn in Hsi.
  rewrite Hsi. f_equal. case_decide as Hd.
  - destruct Hd as [-> ->]. unfold slot_of. cbn [set_bucket group_phase bucket_phase]. rewrite upd_eq. destruct Hp as [(-> & -> & ->)|([->| ->] & -> & ->)]; cbn [consumed].
    + by rewrite Nat.eqb_refl.
    + by rewrite (proj2 (Nat.leb_gt (S j) j)) by lia.
    + by rewrite (proj2 (Nat.leb_gt (S j) j)) by lia.
  - destruct (decide (b' = b)) as [->|Hne]; [|by rewrite slot_of_phase].
    assert (i <> j) as Hij by (intros ->; by apply Hd). unfold slot_of. cbn. rewrite upd_eq, Hph.
    assert ((S j <=? i)%nat = (j <=? i)%nat) as HS by (destruct (Nat.leb_spec (S j) i), (Nat.leb_spec j i); (done || lia)).
    destruct Hp as [(-> & _ & _)|([->| ->] & _ & _)]; cbn [consumed]; rewrite ?HS; try done.
    by rewrite (proj2 (Nat.eqb_neq j i)) by lia.
Qed.

Lemma exec_work gh t s b j : inv gh (taken t s) -> (b < num_buckets)%nat -> bucket_phase gh b = Working j ->
  bucket_tasks b (Working j) = [t] ->
  exists s' p, exec t s = Ok s' /\ inv (set_bucket gh b p) s' /\
    (offsets s' = offsets s /\ (p = Finished /\ j = n \/ p = Waiting j \/ p = Lost j) \/
     p = Returning j /\ (j < n)%nat /\ is_Ok (merging b j) /\
       process_split_output (outs j b) (bucket_at b j, offsets s) = Ok (bucket_after b j, offsets s')).
Proof.
  intros Hinv Hb Hph Ht. pose proof (iv_buckets _ _ Hinv _ Hb) as Hok. unfold bphase_ok in Hok. rewrite Hph in Hok.
  destruct Hok as [Hj Hm]. destruct (bucket_at_index _ _ Hm) as [Hbi Hbn]. cbn in Ht. injection Ht as <-. step_exec.
  rewrite Hbi, Hbn. destruct (Nat.ltb_spec j n) as [Hjn|Hjn].
  - rewrite (swap_slot s j b Empty _ (iv_slots _ _ Hinv _ _ Hjn Hb)).
    pose proof (working_slot _ _ _ _ _ Hinv Hb Hph Hjn) as Hslot. cbn [mbind res_bind]. rewrite Hslot.
    pose proof (fun p slot => slots_work gh _ s b j p slot Hinv Hb Hph Hjn) as Hsl.
    destruct (stored (group_phase gh j) b) eqn:Es.
    + pose proof (merge_all (outs j b) (bucket_at b j) (offsets s)) as Hall. cbn [offsets set_slots].
      assert (merging b j = for_each add_text (outs j b) (bucket_at b j)) as Hmg by (unfold merging; by rewrite (merged_Ok _ _ Hm)).
      rewrite <- Hmg in Hall. destruct (merging b j) as [B|e|] eqn:Eb; [|rewrite Hall|done].
      * destruct Hall as [st Hst]. rewrite Hst. pose proof (merging_Ok b j ltac:(by eexists)) as HB. rewrite Eb in HB. injection HB as ->.
        eexists _, (Returning j). split; [done|]. split; [|right; split_and!; [done|done|by eexists|done]].
        eapply (inv_work_step gh _ s _ b j); try done; cbn; try done.
        -- right. by left.
        -- apply Permutation_app_comm.
        -- unfold bphase_ok. cbn. rewrite upd_eq. split; [done|by eexists].
        -- split; [by left|]. by intros [?|?].
        -- intros i Hi Hin. destruct (decide (i = j)) as [->|Hne]; [done|]. apply (iv_consumed _ _ Hinv _ _ Hb); [|done].
           rewrite Hph. cbn. lia.
        -- apply length_insert.
        -- apply Hsl; try done. right. by auto.
      * eexists _, (Lost j). split; [done|]. split; [|by left; auto].
        eapply (inv_work_step gh _ s _ b j); try done; cbn; try done.
        -- by do 3 right.
        -- unfold bphase_ok. cbn. rewrite upd_eq. split; [done|]. split; [done|]. rewrite Eb. by intros [? ?].
        -- destruct (error s); [by split; [left|]|]. split; [by right|done].
        -- intros i Hi Hin. destruct (decide (i = j)) as [->|Hne]; [done|]. apply (iv_consumed _ _ Hinv _ _ Hb); [|done].
           rewrite Hph. cbn. lia.
        -- apply length_insert.
        -- apply Hsl; try done. right. by auto.
    + erewrite swap_slot by (cbn; apply list_lookup_insert_eq; pose proof (iv_slots_len _ _ Hinv) as Hl; cbn in Hl; rewrite Hl; by apply slot_index_lt).
      cbn [mbind res_bind]. eexists _, (Waiting j). split; [done|]. split; [|by left; auto].
      eapply (inv_work_step gh _ s _ b j); try done; cbn; try done.
      * right. right. by left.
      * unfold bphase_ok. cbn. rewrite upd_eq. done.
      * split; [by left|]. by intros [?|?].
      * intros i Hi Hin. apply (iv_consumed _ _ Hinv _ _ Hb); [|done]. by rewrite Hph.
      * by rewrite !length_insert.
      * intros i b' Hi Hb'. rewrite list_insert_insert_eq. apply Hsl; try done. left. by auto.
  - assert (j = n) as -> by lia. eexists _, Finished. split; [done|]. split; [|by left; auto].
    eapply (inv_work_step gh _ s _ b n); try done; cbn; try done.
    + by left.
    + unfold bphase_ok. cbn. by rewrite upd_eq.
    + split; [by left|]. by intros [?|?].
    + intros i _ Hi. apply (iv_consumed _ _ Hinv _ _ Hb); [|done]. by rewrite Hph.
    + intros i b' Hi Hb'. pose proof (iv_slots _ _ Hinv _ _ Hi Hb') as Hs. cbn in Hs. rewrite Hs. f_equal. cbn.
      destruct (decide (b' = b)) as [->|Hne]; [|by rewrite slot_of_phase]. unfold slot_of. cbn. by rewrite upd_eq, Hph.
Qed.

(** *** Every step *)

(** A bucket that takes no strings; one that is lost is not looked at any more. *)
Definition quiet (b : nat) (p p' : bphase) : Prop :=
  (consumed p <= consumed p')%nat /\
  forall B, current b p' = Some B -> consumed p' = consumed p /\
    exists B', current b p = Some B' /\ string_offsets B = string_offsets B' /\ bucket_index B = bucket_index B'.

Lemma quiet_refl b p : quiet b p p.
Proof. split; [done|]. intros B HB. split; [done|]. by exists B. Qed.

(** What a step does to the stores and to the phases of the buckets. *)
Inductive change (gh gh' : ghost) (st st' : OffsetStore) : Prop :=
| change_quiet : st' = st -> (forall b, quiet b (bucket_phase gh b) (bucket_phase gh' b)) -> change gh gh' st st'
| change_shard i r out : (i < n)%nat -> group_phase gh i = Taking r -> split_of i = Ok out ->
    bucket_phase gh' = bucket_phase gh -> st' = insert_shard (shard out) st -> change gh gh' st st'
| change_work b j : (b < num_buckets)%nat -> (j < n)%nat -> bucket_phase gh b = Working j -> is_Ok (merging b j) ->
    bucket_phase gh' = upd (bucket_phase gh) b (Returning j) ->
    process_split_output (outs j b) (bucket_at b j, st) = Ok (bucket_after b j, st') -> change gh gh' st st'.

Lemma quiet_upd gh b p : quiet b (bucket_phase gh b) p ->
  forall b', quiet b' (bucket_phase gh b') (upd (bucket_phase gh) b p b').
Proof. intros H b'. destruct (decide (b' = b)) as [->|Hne]; [by rewrite upd_eq|rewrite upd_ne by done; apply quiet_refl]. Qed.

Lemma exec_inv gh t s : inv gh (taken t s) ->
  exists s' gh', exec t s = Ok s' /\ inv gh' s' /\ change gh gh' (offsets s) (offsets s').
Proof.
  intros Hinv. assert (t ∈ tasks_of gh) as Ht.
  { rewrite <- (iv_tasks _ _ Hinv). by left. }
  apply elem_of_tasks_of in Ht as [(i & Hi & Ht)|[(b & Hb & Ht)|[[-> Hsp]|Ht]]].
  - destruct (group_phase gh i) as [|r|c| |] eqn:Hph; try done.
    + destruct (exec_take _ _ _ _ _ Hinv Hi Hph Ht) as (s' & gh' & He & Hinv' & Hbp & Hst). exists s', gh'. split_and!; [done..|].
      destruct Hst as [Hst|(out & Ho & _ & Hst)]; [|by eapply change_shard].
      apply change_quiet; [done|]. intros b. rewrite Hbp. apply quiet_refl.
    + destruct (exec_store _ _ _ _ _ Hinv Hi Hph Ht) as (s' & gh' & He & Hinv' & Hst & Hbp). exists s', gh'. split_and!; [done..|].
      apply change_quiet; [done|]. intros b. destruct (Hbp b) as [->|(j & -> & ->)]; [apply quiet_refl|].
      apply (quiet_refl b (Waiting j)).
  - destruct (bucket_phase gh b) as [j|j|j|j seen|j| |j] eqn:Hph; try done;
      [|edestruct (exec_bucket_wait gh t s b) as (s' & p & d & He & Hinv' & Hst & Hc & _ & Hcur); try done;
        [by rewrite Hph|by rewrite Hph|]; exists s'; eexists; split_and!; [done..|];
        apply change_quiet; [done|]; apply quiet_upd; split; [by rewrite Hc|]; intros B HB; split; [done|by apply Hcur]..].
    destruct (exec_work _ _ _ _ _ Hinv Hb Hph Ht) as (s' & p & He & Hinv' & Hst). eexists s', _. split_and!; [done..|].
    destruct Hst as [[Hst Hp]|(-> & Hj & Hm & Hst)]; [|by eapply change_work].
    apply change_quiet; [done|]. apply quiet_upd. rewrite Hph. destruct Hp as [[-> ->]|[->| ->]].
    + by apply (quiet_refl b (Working n)).
    + apply (quiet_refl b (Working j)).
    + split; [cbn; lia|done].
  - destruct (exec_spawned _ _ Hinv Hsp) as (s' & gh' & He & Hinv' & Hst & Hbp). exists s', gh'. split_and!; [done..|].
    apply change_quiet; [done|]. intros b. rewrite Hbp. apply quiet_refl.
  - destruct (exec_call _ _ _ Hinv Ht) as (s' & c & d & He & Hinv' & Hst). eexists s', _. split_and!; [done..|].
    apply change_quiet; [done|]. intros b. apply quiet_refl.
Qed.

Lemma step_inv gh s i r : inv gh s -> step_task i s = Some r ->
  exists s' gh', r = Ok s' /\ inv gh' s' /\ change gh gh' (offsets s) (offsets s').
Proof.
  intros Hinv. unfold step_task. destruct (tasks s !! i) as [t|] eqn:Ht; [|done]. intros [= <-].
  apply (exec_inv gh t (set_tasks (delete i (tasks s)) s)). unfold taken. cbn.
  apply (inv_tasks gh s (t :: delete i (tasks s)) Hinv). symmetry. by apply delete_Permutation.
Qed.

(** *** The initial state *)
Definition initial_ghost : ghost :=
  mkGhost 0 (fun _ => Unpopped) (fun b => if (0 <? n)%nat then Waiting 0 else Finished) 0 (Some None).

Lemma initial_slots_lookup i b : (i < n)%nat -> (b < num_buckets)%nat ->
  initial_slots n !! string_bucket_offset i b = Some (if (i =? 0)%nat then WaitingForStrings (new_bucket b) else Empty).
Proof.
  intros Hi Hb. unfold initial_slots. rewrite list_lookup_imap. rewrite lookup_replicate_2 by by apply slot_index_lt.
  cbn [fmap option_fmap option_map]. unfold string_bucket_offset. rewrite num_buckets_eq in *. destruct (Nat.eqb_spec i 0) as [->|Hne].
  - by rewrite (proj2 (Nat.ltb_lt _ _)) by lia.
  - by rewrite (proj2 (Nat.ltb_ge _ _)) by lia.
Qed.

Lemma initial_tasks : (0 < n)%nat -> tasks_of initial_ghost = [TryReserve None].
Proof.
  intros Hn. unfold tasks_of, initial_ghost. cbn [group_phase bucket_phase spawned first_call call_tasks replicate].
  rewrite (proj2 (Nat.ltb_lt _ _) Hn). assert (forall A (l : list nat), concat (map (fun _ => @nil A) l) = []) as H by (induction l; done).
  cbn [group_tasks bucket_tasks]. by rewrite !H.
Qed.

Lemma zsum_zero f m : (forall i, (i < m)%nat -> f i = 0) -> zsum f m = 0.
Proof. intros H. rewrite (zsum_ext _ (fun _ => 0)); [by rewrite zsum_const|done]. Qed.

Lemma initial_inv : (0 < n)%nat -> inv initial_ghost (initial_state n capacity groups).
Proof.
  intros Hn. pose proof (proj2 (Nat.ltb_lt _ _) Hn) as Hb. pose proof Hcapacity as Hc. change MERGE_STRING_BUCKETS with 16 in Hc.
  split; cbn [initial_state tasks unprocessed available string_vecs slots finished_shards finished_buckets error initial_ghost popped
    group_phase bucket_phase spawned first_call].
  - split; [lia|done].
  - by rewrite initial_tasks.
  - intros i Hi. unfold gphase_ok. cbn. lia.
  - intros b _. unfold bphase_ok. cbn [bucket_phase initial_ghost]. rewrite Hb. split; [done|]. split; [by eexists|done].
  - intros b i _. rewrite Hb. cbn. lia.
  - unfold initial_slots. by rewrite length_imap, length_replicate.
  - intros i b Hi Hbb. rewrite initial_slots_lookup by done. unfold slot_of. cbn [initial_ghost group_phase bucket_phase stored]. rewrite Hb. by destruct i.
  - rewrite Hb. cbn [counted]. rewrite zsum_zero by done. lia.
  - lia.
  - done.
  - rewrite Hb. cbn [pushed reserved_of]. rewrite !zsum_zero by done. lia.
  - split; [done|]. unfold has_failed. cbn [initial_ghost group_phase bucket_phase]. rewrite Hb. intros [(i & _ & ?)|(b & j & _ & ?)]; done.
  - rewrite Hb. assert (forall (l : list nat), concat (map (fun _ => @nil Bucket) l) = []) as H by (induction l; done). by rewrite H.
  - intros _. right. by left.
  - intros i _. by rewrite lookup_empty.
Qed.

(** *** When no task is left *)
Lemma concat_nil {A B} (f : A -> list B) l : concat (map f l) = [] -> forall x, x ∈ l -> f x = [].
Proof.
  induction l as [|y l IH]; intros H x; [by intros ?%elem_of_nil|]. cbn in H. apply app_eq_nil in H as [H1 H2].
  intros [->|Hx]%elem_of_cons; [done|by apply IH].
Qed.

(** All groups have been split and all buckets have all their strings. *)
Definition all_done (gh : ghost) : Prop :=
  popped gh = n /\ (forall i, (i < n)%nat -> group_phase gh i = Stored) /\
  (forall b, (b < num_buckets)%nat -> bucket_phase gh b = Finished).

Lemma tasks_nil gh s : inv gh s -> tasks s = [] -> spawned gh = 0%nat /\ first_call gh = None /\
  (forall i, (i < n)%nat -> group_phase gh i = Unpopped \/ group_phase gh i = Stored \/ group_phase gh i = Failed) /\
  (forall b, (b < num_buckets)%nat -> bucket_phase gh b = Finished \/ (exists j, bucket_phase gh b = Waiting j) \/
     exists j, bucket_phase gh b = Lost j).
Proof.
  intros Hinv Ht. pose proof (iv_tasks _ _ Hinv) as H. rewrite Ht in H. apply Permutation_nil in H. unfold tasks_of in H.
  apply app_eq_nil in H as [H1 H]. apply app_eq_nil in H as [H2 H]. apply app_eq_nil in H as [H3 H4]. split_and!.
  - by destruct (spawned gh).
  - by destruct (first_call gh) as [[?|]|].
  - intros i Hi. apply concat_nil with (x := i) in H1; [|apply elem_of_seq; lia].
    pose proof (iv_groups _ _ Hinv _ Hi) as Hok. unfold gphase_ok in Hok.
    destruct (group_phase gh i) as [|r|c| |]; auto; cbn in H1.
    + destruct (group_lookup _ Hi) as [g Hg]. by rewrite Hg in H1.
    + destruct Hok as (_ & _ & [out Ho]). by rewrite Ho in H1.
  - intros b Hb. apply concat_nil with (x := b) in H2; [|apply elem_of_seq; lia].
    destruct (bucket_phase gh b) as [j|j|j|j [?|]|j| |j]; try done; eauto.
Qed.

Lemma complete_done gh s : inv gh s -> tasks s = [] -> error s = None -> all_done gh.
Proof.
  intros Hinv Ht He. destruct (tasks_nil _ _ Hinv Ht) as (Hsp & Hcall & Hgr & Hbk).
  pose proof (iv_popped _ _ Hinv) as [Hpn _].
  assert (~ has_failed gh) as Hnf by (rewrite <- (iv_error _ _ Hinv), He; auto).
  assert (forall i, (i < n)%nat -> group_phase gh i = if (i <? popped gh)%nat then Stored else Unpopped) as Hgr'.
  { intros i Hi. pose proof (iv_groups _ _ Hinv _ Hi) as Hok. unfold gphase_ok in Hok.
    destruct (Hgr i Hi) as [E|[E|E]]; rewrite E in Hok.
    - by rewrite E, (proj2 (Nat.ltb_ge _ _)).
    - by rewrite E, (proj2 (Nat.ltb_lt _ _)) by tauto.
    - destruct Hnf. left. by exists i. }
  assert (forall b, (b < num_buckets)%nat -> bucket_phase gh b = if (popped gh =? n)%nat then Finished else Waiting (popped gh)) as Hbk'.
  { intros b Hb. pose proof (iv_buckets _ _ Hinv _ Hb) as Hok. unfold bphase_ok in Hok.
    pose proof (iv_consumed _ _ Hinv b) as Hcon. destruct (Hbk b Hb) as [E|[[j E]|[j E]]]; rewrite E in *; cbn [consumed] in Hcon.
    - destruct (Nat.eqb_spec (popped gh) n) as [|Hne]; [done|]. specialize (Hcon (popped gh) Hb ltac:(lia) ltac:(lia)).
      rewrite Hgr', Nat.ltb_irrefl in Hcon by lia. done.
    - destruct Hok as (Hj & _ & Hs). rewrite Hgr' in Hs by done.
      destruct (Nat.ltb_spec j (popped gh)) as [|Hge]; [done|]. rewrite (proj2 (Nat.eqb_neq _ _)) by lia. f_equal.
      destruct (decide (j = popped gh)) as [->|Hne]; [done|]. specialize (Hcon (popped gh) Hb ltac:(lia) ltac:(lia)).
      rewrite Hgr', Nat.ltb_irrefl in Hcon by lia. done.
    - destruct Hnf. right. by exists b, j. }
  assert (popped gh = n) as Hp.
  { destruct (decide (popped gh = n)) as [|Hne]; [done|]. rewrite (proj2 (Nat.eqb_neq _ _) Hne) in Hbk'.
    pose proof (iv_pool _ _ Hinv) as Hpool. pose proof Hcapacity as Hc. change MERGE_STRING_BUCKETS with 16 in Hc.
    rewrite (zsum_ext _ (fun _ => Z.of_nat (popped gh))) in Hpool by (intros b Hb; by rewrite Hbk').
    rewrite zsum_const, Hsp, num_buckets_eq in Hpool.
    destruct (iv_try _ _ Hinv ltac:(lia)) as [|[Hw|[Hw|(b & j & Hb & Hw)]]]; [done|congruence..|].
    rewrite Hbk' in Hw by done. destruct Hw; done. }
  split; [done|]. split.
  - intros i Hi. rewrite Hgr' by done. by rewrite (proj2 (Nat.ltb_lt _ _)) by lia.
  - intros b Hb. rewrite Hbk' by done. by rewrite Hp, Nat.eqb_refl.
Qed.

(** The result of the groups one after the other. *)
Definition reference_ok : Prop :=
  (forall i, (i < n)%nat -> is_Ok (split_of i)) /\ (forall b, (b < num_buckets)%nat -> is_Ok (merged b n)).

Lemma merged_prefix b j k : (j <= k)%nat -> is_Ok (merged b k) -> is_Ok (merged b j).
Proof.
  induction 1 as [|k H IH]; [done|]. intros [x Hx]. apply IH. cbn [merged] in Hx. destruct (merged b k) as [y| |]; [by eexists|done..].
Qed.

Lemma error_reference gh s : inv gh s -> reference_ok -> error s = None.
Proof.
  intros Hinv [Hg Hb]. destruct (error s) eqn:E; [|done]. exfalso. assert (has_failed gh) as [(i & Hi & Hf)|(b & j & Hbb & Hl)].
  { apply (iv_error _ _ Hinv). by rewrite E. }
  - pose proof (iv_groups _ _ Hinv _ Hi) as H. unfold gphase_ok in H. rewrite Hf in H. by destruct H as [_ []]; auto.
  - pose proof (iv_buckets _ _ Hinv _ Hbb) as H. unfold bphase_ok in H. rewrite Hl in H. destruct H as (Hj & _ & Hn).
    apply Hn. destruct (merged_prefix b (S j) n ltac:(lia) (Hb _ Hbb)) as [x Hx]. rewrite merged_S in Hx.
    destruct (merging b j); [by eexists|done..].
Qed.

Lemma done_reference gh s : inv gh s -> all_done gh -> reference_ok.
Proof.
  intros Hinv (_ & Hg & Hb). split.
  - intros i Hi. pose proof (iv_groups _ _ Hinv _ Hi) as H. unfold gphase_ok in H. rewrite Hg in H by done. by destruct H.
  - intros b Hbb. pose proof (iv_buckets _ _ Hinv _ Hbb) as H. unfold bphase_ok in H. by rewrite Hb in H.
Qed.

Lemma run_inv s s' : run s s' -> forall gh, inv gh s -> exists gh', inv gh' s'.
Proof.
  induction 1 as [s|k s s1 s' Hs Hr IH]; intros gh Hinv; [by exists gh|].
  destruct (step_inv _ _ _ _ Hinv Hs) as (s2 & gh' & [= <-] & Hinv' & _). by apply (IH gh').
Qed.

(** *** How much is left to do *)

(** The rest of a bucket's work once it has the strings of its next group. *)
Definition bucket_left (b : Bucket) : nat := 6 * (n - next_input_group_index b - 1).
Definition next_left (next : option Bucket) : nat := match next with Some b => bucket_left b + 3 | None => 0 end.
Definition working_left (b : Bucket) : nat := 6 * (n - next_input_group_index b) + 2.

Definition task_left (t : task) : nat :=
  match t with
  | TryReserve next | Exchange _ next => next_left next
  | Spawned => 0
  | TakeVecs _ _ k => 2 * (num_buckets - k) + 36
  | StoreStrings _ _ rest => 2 * S (length rest)
  | WorkWithBucket b => working_left b
  | ReturnVec b => bucket_left b + 5
  | CountVec b => bucket_left b + 4
  end.
Definition slot_left (slot : StringsSlot) : nat := match slot with WaitingForStrings b => pred (working_left b) | _ => 0 end.

Fixpoint total {A} (f : A -> nat) (l : list A) : nat :=
  match l with [] => 0%nat | x :: l => (f x + total f l)%nat end.

Definition left_over (s : MergeState) : nat :=
  total task_left (tasks s) + total slot_left (slots s) + 70 * length (unprocessed s).

(** A task that reserves vectors goes on as long as there are enough. *)
Definition try_left (a : Z) (t : task) : nat :=
  match t with
  | TryReserve _ => 2 * Z.to_nat (a / 16) + 2
  | Exchange _ _ => 2 * Z.to_nat (a / 16) + 1
  | _ => 0
  end.
Definition tries (s : MergeState) : nat := total (try_left (available s)) (tasks s).

Definition spawned_left (t : task) : nat := match t with Spawned => 1 | _ => 0 end.
Definition spawned_count (s : MergeState) : nat := total spawned_left (tasks s).

(** The measure, most important part first. *)
Definition smaller (s' s : MergeState) : Prop :=
  (left_over s' < left_over s)%nat \/
  (left_over s' <= left_over s)%nat /\ ((tries s' < tries s)%nat \/ (tries s' <= tries s)%nat /\ (spawned_count s' < spawned_count s)%nat).

Lemma total_app {A} (f : A -> nat) l k : total f (l ++ k) = (total f l + total f k)%nat.
Proof. induction l as [|x l IH]; cbn; [done|].  rewrite IH. lia. Qed.

Lemma total_perm {A} (f : A -> nat) l k : l ≡ₚ k -> total f l = total f k.
Proof. induction 1; cbn; lia. Qed.

Lemma total_insert {A} (f : A -> nat) (l : list A) i x y : l !! i = Some x -> (total f (<[i := y]> l) + f x = total f l + f y)%nat.
Proof.
  revert i. induction l as [|z l IH]; intros [|i] H; [done..| |].
  - injection H as ->. cbn. lia.
  - change (<[S i := y]> (z :: l)) with (z :: <[i := y]> l). cbn [total]. specialize (IH i H). lia.
Qed.

Lemma total_mono {A} (f g : A -> nat) l : (forall x, f x <= g x)%nat -> (total f l <= total g l)%nat.
Proof. intros H. induction l as [|x l IH]; cbn; [done|]. specialize (H x).  lia. Qed.

Lemma try_left_mono a a' t : a' <= a -> (try_left a' t <= try_left a t)%nat.
Proof.
  intros H. pose proof (Z.div_le_mono a' a 16 ltac:(lia) H). assert (Z.to_nat (a' / 16) <= Z.to_nat (a / 16))%nat by lia.
  destruct t; cbn [try_left]; lia.
Qed.

Lemma quotient_step a : 16 <= a -> Z.to_nat (a / 16) = S (Z.to_nat ((a - 16) / 16)).
Proof. intros H. replace a with (a - 16 + 1 * 16) at 1 by lia. rewrite Z.div_add by lia. pose proof (Z.div_pos (a - 16) 16). lia. Qed.

Definition is_try (t : task) : bool := match t with TryReserve _ | Exchange _ _ => true | _ => false end.

(** A reserving step makes the measure smaller. *)
Lemma try_smaller t s s' : is_try t = true -> (forall a next, t = Exchange a next -> 16 <= a) -> exec t s = Ok s' -> smaller s' (taken t s).
Proof.
  intros Ht Hen. unfold smaller, left_over, tries. destruct t as [next|a next| | | | | |]; try done; step_exec.
  - destruct (Z.ltb_spec (available s) MERGE_STRING_BUCKETS) as [Hlt|Hge]; intros [= <-]; cbn; rewrite ?total_app; cbn.
    + destruct next as [b|]; cbn; [left; unfold working_left, bucket_left; cbn; lia|right; split; [lia|left; lia]].
    + right. split; [lia|]. left. lia.
  - specialize (Hen a next eq_refl). destruct (Z.eqb_spec (available s) a) as [Ha|Hne]; intros [= <-]; cbn; rewrite ?total_app; cbn.
    + rewrite Ha. right. split; [lia|]. left. change MERGE_STRING_BUCKETS with 16. rewrite (quotient_step a Hen).
      pose proof (total_mono (try_left (a - 16)) (try_left a) (tasks s) ltac:(intros; apply try_left_mono; lia)). lia.
    + destruct next as [b|]; cbn; [left; unfold working_left, bucket_left; cbn; lia|right; split; [lia|left; lia]].
Qed.

Lemma process_next l : forall b st b' st', process_split_output l (b, st) = Ok (b', st') ->
  next_input_group_index b' = next_input_group_index b.
Proof.
  intros b st b' st' H. pose proof (merge_all l b st) as Hall.
  destruct (for_each add_text l b) as [b1| |] eqn:E; [|congruence|done]. destruct Hall as [st1 Hst]. rewrite H in Hst.
  injection Hst as -> ->. by eapply add_texts_index.
Qed.

Lemma swap_inv s i b slot old s1 : swap_strings_slot i b slot s = Ok (old, s1) ->
  slots s !! string_bucket_offset i b = Some old /\ s1 = set_slots (<[string_bucket_offset i b := slot]> (slots s)) s.
Proof.
  unfold swap_strings_slot, index. rewrite decide_True by lia. rewrite Nat2Z.id.
  destruct (slots s !! string_bucket_offset i b) as [x|]; cbn; [|done]. by intros [= -> <-].
Qed.

Lemma tries_none l a : (forall t, t ∈ l -> is_try t = false) -> total (try_left a) l = 0%nat.
Proof.
  intros H. induction l as [|t l IH]; [done|]. cbn.  rewrite IH by (intros; apply H; by right).
  pose proof (H t ltac:(left)). by destruct t.
Qed.

(** Any other step does so when no task is reserving. *)
Lemma other_smaller t s s' : is_try t = false -> (forall t', t' ∈ tasks s -> is_try t' = false) ->
  exec t s = Ok s' -> smaller s' (taken t s).
Proof.
  intros Ht Hno. unfold smaller, left_over, tries, spawned_count.
  destruct t as [| | |g r k|g c [|l rest]|b|b|b]; try done; step_exec.
  - destruct (unprocessed s) as [|g rest] eqn:Eu; intros [= <-]; cbn; rewrite ?total_app; cbn; rewrite ?Eu; cbn.
    + right. split; [lia|]. right. rewrite !tries_none by done. lia.
    + left. rewrite num_buckets_eq. lia.
  - destruct (Nat.ltb_spec k num_buckets) as [Hlt|Hge].
    + destruct r as [|r]; [done|]. intros [= <-]. left. cbn [taken spawn tasks set_tasks slots unprocessed set_string_vecs total].
      rewrite total_app. cbn. rewrite num_buckets_eq in *. lia.
    + destruct (split_group hash_bytes accepts g) as [out| |] eqn:Es; [|intros [= <-]; left; cbn; lia|done].
      intros [= <-]. left. cbn. rewrite total_app. cbn. rewrite (split_group_length _ _ Es), num_buckets_eq. lia.
  - intros [= <-]. left. cbn. lia.
  - destruct (swap_strings_slot g c (Strings l) s) as [[old s1]| |] eqn:Esw; cbn [mbind res_bind]; [|done..].
    intros [= <-]. left. apply swap_inv in Esw as [Hold ->]. pose proof (total_insert slot_left _ _ _ (Strings l) Hold) as Hti.
    cbn. rewrite total_app. cbn in *. destruct old as [|b|]; cbn in *; lia.
  - destruct (Nat.ltb_spec (next_input_group_index b) n) as [Hlt|Hge]; [|intros [= <-]; left; cbn; unfold working_left; lia].
    destruct (swap_strings_slot _ _ Empty s) as [[old s1]| |] eqn:Esw; cbn [mbind res_bind]; [|done..].
    apply swap_inv in Esw as [Hold ->]. pose proof (total_insert slot_left _ _ _ Empty Hold) as Hti.
    assert (forall s2, ('(_, s1) ← swap_strings_slot (next_input_group_index b) (bucket_index b) (WaitingForStrings b)
        (set_slots (<[string_bucket_offset (next_input_group_index b) (bucket_index b):=Empty]> (slots s)) s); Ok s1) = Ok s2 ->
        (left_over s2 < left_over (taken (WorkWithBucket b) s))%nat) as Hwait.
    { intros s2. destruct (swap_strings_slot _ _ (WaitingForStrings b) _) as [[old2 s3]| |] eqn:Esw2; cbn [mbind res_bind]; [|done..].
      intros [= <-]. apply swap_inv in Esw2 as [Hold2 ->]. cbn in Hold2. pose proof (total_insert slot_left _ _ _ (WaitingForStrings b) Hold2) as Hti2.
      unfold left_over. cbn in *. unfold working_left in *. lia. }
    destruct old as [|b'|l]; [intros H; left; by apply Hwait|intros H; left; by apply Hwait|].
    destruct (process_split_output l _) as [[b' st]| |] eqn:Ep; [|intros [= <-]; left; cbn in *; unfold working_left; lia|done].
    intros [= <-]. left. apply process_next in Ep. cbn. rewrite total_app. cbn in *. unfold working_left, bucket_left. rewrite Ep. lia.
  - destruct (string_vecs s <? capacity); [|done]. intros [= <-]. left. cbn. rewrite total_app. cbn. lia.
  - intros [= <-]. left. cbn. rewrite total_app. cbn. lia.
Qed.

Lemma smaller_acc a : forall t c s, (left_over s <= a)%nat -> (tries s <= t)%nat -> (spawned_count s <= c)%nat -> Acc smaller s.
Proof.
  induction a as [a IHa] using lt_wf_ind. intros t. induction t as [t IHt] using lt_wf_ind. intros c.
  induction c as [c IHc] using lt_wf_ind. intros s Ha Ht Hc. constructor. intros s' [H|[H1 [H2|[H2 H3]]]].
  - apply (IHa (left_over s') ltac:(lia) (tries s') (spawned_count s')); lia.
  - apply (IHt (tries s') ltac:(lia) (spawned_count s')); lia.
  - apply (IHc (spawned_count s')); lia.
Qed.

Lemma smaller_perm s1 s t i : tasks s !! i = Some t ->
  smaller s1 (taken t (set_tasks (delete i (tasks s)) s)) -> smaller s1 s.
Proof.
  intros Hi. assert (forall f : task -> nat, total f (t :: delete i (tasks s)) = total f (tasks s)) as Hp.
  { intros f. apply total_perm. symmetry. by apply delete_Permutation. }
  unfold smaller, left_over, tries, spawned_count. cbn [taken tasks set_tasks available slots unprocessed]. by rewrite !Hp.
Qed.

Lemma exchange_enough gh s a next : inv gh s -> Exchange a next ∈ tasks s -> 16 <= a.
Proof.
  intros Hinv Ht. rewrite (iv_tasks _ _ Hinv) in Ht. apply elem_of_tasks_of in Ht as [(i & Hi & Ht)|[(b & Hb & Ht)|[[Ht _]|Ht]]]; [|..|done|].
  - unfold group_tasks in Ht. destruct (group_phase gh i); repeat case_match; done.
  - pose proof (iv_buckets _ _ Hinv _ Hb) as H. unfold bphase_ok in H.
    destruct (bucket_phase gh b) as [j|j|j|j [?|]|j| |j]; try done. cbn in Ht. injection Ht as <- _. by destruct H as (_ & _ & H).
  - pose proof (iv_call _ _ Hinv) as H. destruct (first_call gh) as [[?|]|]; try done. cbn in Ht. by injection Ht as <- _.
Qed.

(** The tasks can always be run to their end. *)
Lemma can_finish s : Acc smaller s -> forall gh, inv gh s -> exists s', run s s' /\ tasks s' = [].
Proof.
  induction 1 as [s _ IH]. intros gh Hinv.
  assert (tasks s = [] \/ exists i t, tasks s !! i = Some t /\
    (is_try t = true \/ is_try t = false /\ forall t', t' ∈ delete i (tasks s) -> is_try t' = false)) as [Hd|(i & t & Hi & Ht)].
  { destruct (decide (Exists (fun t => is_try t = true) (tasks s))) as [He|He].
    - apply Exists_exists in He as (t & Ht & Htry). apply list_elem_of_lookup in Ht as [i Hi]. right. exists i, t. auto.
    - destruct (tasks s) as [|t l] eqn:El; [by left|]. right. exists 0%nat, t. split; [done|]. right.
      assert (forall t', t' ∈ t :: l -> is_try t' = false) as Hno.
      { intros t' Ht'. destruct (is_try t') eqn:E; [|done]. destruct He. apply Exists_exists. by exists t'. }
      split; [apply Hno; by left|]. intros t' Ht'. apply Hno. by right. }
  - exists s. split; [constructor|done].
  - assert (step_task i s = Some (exec t (set_tasks (delete i (tasks s)) s))) as Hstep by (unfold step_task; by rewrite Hi).
    destruct (step_inv _ _ _ _ Hinv Hstep) as (s1 & gh1 & He & Hinv1 & _).
    assert (smaller s1 s) as Hs.
    { apply (smaller_perm _ _ t i Hi). destruct Ht as [Ht|[Ht Hno]]; [|by apply (other_smaller t _ s1)].
      apply (try_smaller t _ s1); [done| |done]. intros a next ->. apply (exchange_enough _ _ _ next Hinv).
      by eapply list_elem_of_lookup_2. }
    destruct (IH _ Hs _ Hinv1) as (s' & Hrun & Hd). exists s'. split; [|done]. eapply run_cons; [|done]. by rewrite Hstep, He.
Qed.

(** *** What is stored *)
Context (Hsame : forall i i' b b' x y, x ∈ outs i b -> y ∈ outs i' b' -> out_offset (offset_out x) = out_offset (offset_out y) ->
  x = y /\ b = b').
Context (Hshard : forall i b x o, x ∈ outs i b -> offset_out x = InShard o -> exists out, split_of i = Ok out /\ o ∈ shard out).
Context (Hshards_disjoint : forall i i' out out' o, split_of i = Ok out -> split_of i' = Ok out' -> o ∈ shard out -> o ∈ shard out' -> i = i').

Lemma insert_shard_cells l : forall st o, cells (insert_shard l st) !! o = if decide (o ∈ l) then Some 0 else cells st !! o.
Proof.
  unfold insert_shard. cbn. induction l as [|i l IH] using rev_ind; intros st o; [done|].
  rewrite foldl_app. cbn. destruct (decide (o = i)) as [->|Hne].
  - rewrite lookup_insert_eq. rewrite decide_True; [done|]. rewrite elem_of_app. right. by left.
  - rewrite lookup_insert_ne by done. rewrite IH. apply decide_ext. rewrite elem_of_app, list_elem_of_singleton. intuition.
Qed.

Lemma value_in_same B B' x v : string_offsets B = string_offsets B' -> bucket_index B = bucket_index B' ->
  value_in B x v <-> value_in B' x v.
Proof. intros H1 H2. unfold value_in. by rewrite H1, H2. Qed.

Lemma stores_quiet gh gh' st : (forall b, quiet b (bucket_phase gh b) (bucket_phase gh' b)) -> stores gh st -> stores gh' st.
Proof.
  intros Hq [H1 H2 H3 H4]. split; [done|..].
  - intros b x o B Hb HB (i & Hi & Hx) Ho. destruct (Hq b) as [_ Hqb]. destruct (Hqb B HB) as (Hc & B' & HB' & Hs & Hbi).
    rewrite Hc in Hi. destruct (H2 b x o B' Hb HB' ltac:(by exists i) Ho) as (v & Hv & Hval). exists v. split; [done|]. by apply (value_in_same B B').
  - intros o v Ho. destruct (H3 o v Ho) as (b & x & Hb & (i & Hi & Hx) & Hox & Hval). exists b, x. destruct (Hq b) as [Hle Hqb].
    split_and!; [done|exists i; split; [lia|done]|done|]. intros B HB. destruct (Hqb B HB) as (Hc & B' & HB' & Hs & Hbi).
    apply (value_in_same B B'); [done..|]. by apply Hval.
  - intros b x o B Hb HB (i & Hi & Hx) Ho. destruct (Hq b) as [_ Hqb]. destruct (Hqb B HB) as (Hc & B' & HB' & Hs & Hbi).
    rewrite Hc in Hi. destruct (H4 b x o B' Hb HB' ltac:(by exists i) Ho) as (v & Hv & Hval). exists v. split; [done|]. by apply (value_in_same B B').
Qed.

Lemma outs_index i b x : x ∈ outs i b -> (i < n)%nat.
Proof.
  unfold outs, split_of. destruct (groups !! i) eqn:E; [|by intros ?%elem_of_nil]. intros _. by eapply lookup_lt_Some.
Qed.

Lemma stores_shard gh gh' s i r out : inv gh s -> group_phase gh i = Taking r -> split_of i = Ok out ->
  bucket_phase gh' = bucket_phase gh -> stores gh (offsets s) -> stores gh' (insert_shard (shard out) (offsets s)).
Proof.
  intros Hinv Hph Hout Hbp [H1 H2 H3 H4].
  assert (forall b x o, (b < num_buckets)%nat -> processed gh b x -> offset_out x = InShard o -> o ∉ shard out) as Hnew.
  { intros b x o Hb (i' & Hi' & Hx) Ho Hin. destruct (Hshard _ _ _ _ Hx Ho) as (out' & Hout' & Hin').
    rewrite <- (Hshards_disjoint _ _ _ _ _ Hout Hout' Hin Hin') in Hi'.
    assert (split_of i <> Panic) by by rewrite Hout.
    assert (i < n)%nat as Hi by (unfold split_of in Hout; destruct (groups !! i) eqn:E; [by eapply lookup_lt_Some|done]).
    pose proof (iv_consumed _ _ Hinv _ _ Hb Hi' Hi) as Hs. by rewrite Hph in Hs. }
  split; rewrite ?Hbp; cbn [overflowed insert_shard].
  - intros o Ho. rewrite insert_shard_cells in Ho. case_decide as Hd; [by exists i, out|by apply H1].
  - intros b x o B Hb HB Hp Ho. unfold processed in Hp. rewrite Hbp in Hp. rewrite insert_shard_cells.
    rewrite decide_False by by eapply Hnew. by eapply H2.
  - intros o v Ho. destruct (H3 o v Ho) as (b & x & Hb & Hp & Hox & Hv). exists b, x. unfold processed. by rewrite Hbp.
  - intros b x o B Hb HB Hp Ho. unfold processed in Hp. rewrite Hbp in Hp. by eapply H4.
Qed.

Definition grows (B B' : Bucket) : Prop :=
  (forall s off, string_offsets B !! s = Some off -> string_offsets B' !! s = Some off) /\ bucket_index B' = bucket_index B.

Lemma value_in_grows B B' x v : grows B B' -> value_in B x v -> value_in B' x v.
Proof. intros [H1 H2] (off & Hs & Ho). exists off. split; [by apply H1|]. by rewrite H2. Qed.

Lemma merge_one_stores x B st B' st' : merge_one x (B, st) = Ok (B', st') ->
  grows B B' /\ exists v, st' = store_offset (offset_out x) v st /\ value_in B' x v.
Proof.
  unfold merge_one, add_string. cbn [fst snd]. destruct (string_offsets B !! bytes x) as [off|] eqn:E.
  - cbn [bucket_index]. destruct (bucket_offset_new off (bucket_index B)) as [o| |] eqn:Eo; cbn; [|done..].
    intros [= <- <-]. split; [done|]. exists o. split; [done|]. by exists off.
  - cbn [bucket_index]. destruct (bucket_offset_new (next_offset B) (bucket_index B)) as [o| |] eqn:Eo; cbn; [|done..].
    intros [= <- <-]. split.
    + split; [|done]. intros s off Hs. cbn. rewrite lookup_insert_ne; [done|]. intros <-; congruence.
    + exists o. split; [done|]. exists (next_offset B). cbn. by rewrite lookup_insert_eq.
Qed.

Record merged_stores (l : list StringToMerge) (B : Bucket) (st : OffsetStore) (B' : Bucket) (st' : OffsetStore) : Prop := {
  ms_grows : grows B B';
  ms_other o : (forall x, x ∈ l -> offset_out x <> InShard o) -> cells st' !! o = cells st !! o;
  ms_cells x o : x ∈ l -> offset_out x = InShard o -> exists v, cells st' !! o = Some v /\ value_in B' x v;
  ms_overflow_from o v : (o, v) ∈ overflowed st' ->
    (o, v) ∈ overflowed st \/ exists x, x ∈ l /\ offset_out x = Overflow o /\ value_in B' x v;
  ms_overflow_old e : e ∈ overflowed st -> e ∈ overflowed st';
  ms_overflow x o : x ∈ l -> offset_out x = Overflow o -> exists v, (o, v) ∈ overflowed st' /\ value_in B' x v
}.

Lemma process_stores l : forall B st B' st', process_split_output l (B, st) = Ok (B', st') ->
  (forall x y, x ∈ l -> y ∈ l -> out_offset (offset_out x) = out_offset (offset_out y) -> x = y) ->
  merged_stores l B st B' st'.
Proof.
  unfold process_split_output. induction l as [|x l IH]; intros B st B' st'; cbn [for_each].
  - intros [= <- <-] _. split; try done; try by intros ? ? ?%elem_of_nil. by left.
  - destruct (merge_one x (B, st)) as [[B1 st1]| |] eqn:E; cbn [mbind res_bind]; [|done..]. intros H Hd.
    apply merge_one_stores in E as [Hg (v & -> & Hv)].
    destruct (IH _ _ _ _ H ltac:(intros y z ? ?; apply Hd; by right)) as [Hg' Ho Hc Hf Hold Hov].
    split.
    + destruct Hg as [Hg1 Hg2], Hg' as [Hg1' Hg2']. split; [auto|congruence].
    + intros o Hno. rewrite Ho by (intros y Hy; apply Hno; by right). pose proof (Hno x ltac:(left)) as Hx.
      destruct (offset_out x) as [i|i]; cbn; [|done]. rewrite lookup_insert_ne; [done|congruence].
    + intros y o Hy Hoy. destruct (decide (Exists (fun z => offset_out z = InShard o) l)) as [Hex|Hex].
      * apply Exists_exists in Hex as (z & Hz & Hoz). rewrite (Hd y z Hy ltac:(by right) ltac:(by rewrite Hoy, Hoz)). by apply Hc.
      * assert (y = x) as ->.
        { apply elem_of_cons in Hy as [->|Hy]; [done|]. destruct Hex. apply Exists_exists. by exists y. }
        exists v. split; [|by eapply value_in_grows]. rewrite Ho.
        -- rewrite Hoy. cbn. apply lookup_insert_eq.
        -- intros z Hz Hoz. destruct Hex. apply Exists_exists. by exists z.
    + intros o w How. destruct (Hf o w How) as [Hin|(y & Hy & Hoy & Hwy)]; [|right; exists y; split_and!; [by right|done..]].
      destruct (offset_out x) as [i|i] eqn:Ex; cbn in Hin; [by left|].
      apply elem_of_app in Hin as [Hin|[= -> ->]%list_elem_of_singleton]; [by left|right]. exists x.
      split_and!; [by left|done|by eapply value_in_grows].
    + intros e He. apply Hold. destruct (offset_out x); cbn; [done|]. apply elem_of_app. by left.
    + intros y o [->|Hy]%elem_of_cons Hoy; [|by apply Hov]. exists v. split; [|by eapply value_in_grows]. apply Hold. rewrite Hoy. cbn.
      apply elem_of_app. right. by left.
Qed.

Lemma stores_work gh gh' st st' b j : (b < num_buckets)%nat -> bucket_phase gh b = Working j -> is_Ok (merging b j) ->
  bucket_phase gh' = upd (bucket_phase gh) b (Returning j) ->
  process_split_output (outs j b) (bucket_at b j, st) = Ok (bucket_after b j, st') -> stores gh st -> stores gh' st'.
Proof.
  intros Hb Hph Hm Hbp Hst [H1 H2 H3 H4].
  destruct (process_stores _ _ _ _ _ Hst ltac:(intros x y Hx Hy He; by destruct (Hsame _ _ _ _ _ _ Hx Hy He))) as [Hg Ho Hc Hf Hold Hov].
  assert (forall b' x, processed gh' b' x -> processed gh b' x \/ b' = b /\ x ∈ outs j b) as Hproc.
  { intros b' x (i & Hi & Hx). rewrite Hbp in Hi. destruct (decide (b' = b)) as [->|Hne].
    - rewrite upd_eq in Hi. cbn in Hi. destruct (decide (i = j)) as [->|Hij]; [by right|left]. exists i. rewrite Hph. split; [cbn; lia|done].
    - rewrite upd_ne in Hi by done. left. by exists i. }
  assert (forall b' x, processed gh b' x -> processed gh' b' x) as Hmono.
  { intros b' x (i & Hi & Hx). exists i. split; [|done]. rewrite Hbp. destruct (decide (b' = b)) as [->|Hne].
    - rewrite upd_eq. rewrite Hph in Hi. cbn in *. lia.
    - by rewrite upd_ne by done. }
  assert (forall b' B, current b' (bucket_phase gh' b') = Some B -> b' = b /\ B = bucket_after b j \/
    b' <> b /\ current b' (bucket_phase gh b') = Some B) as Hcur.
  { intros b' B. rewrite Hbp. destruct (decide (b' = b)) as [->|Hne]; [rewrite upd_eq; intros [= <-]; by left|rewrite upd_ne by done; by right]. }
  assert (current b (bucket_phase gh b) = Some (bucket_at b j)) as Hcb by by rewrite Hph.
  assert (forall b' x o, (b' < num_buckets)%nat -> offset_out x = InShard o -> processed gh b' x -> (exists y, y ∈ outs j b /\ offset_out y = InShard o) ->
    b' = b /\ x ∈ outs j b) as Hagain.
  { intros b' x o Hb' Hox (i & _ & Hx) (y & Hy & Hoy). destruct (Hsame _ _ _ _ _ _ Hx Hy ltac:(by rewrite Hox, Hoy)) as [-> ->]. done. }
  split.
  - intros o Hs. destruct (decide (Exists (fun z => offset_out z = InShard o) (outs j b))) as [Hex|Hex].
    + apply Exists_exists in Hex as (z & Hz & Hoz). destruct (Hshard _ _ _ _ Hz Hoz) as (out & ? & ?). by exists j, out.
    + apply H1. rewrite <- Ho; [done|]. intros x Hx Hox. destruct Hex. apply Exists_exists. by exists x.
  - intros b' x o B Hb' HB Hp Hox. destruct (decide (b' = b /\ x ∈ outs j b)) as [[-> Hin]|Hnot].
    + destruct (Hcur _ _ HB) as [[_ ->]|[? _]]; [|done]. by apply Hc.
    + destruct (Hproc _ _ Hp) as [Hpo|?]; [|done]. rewrite Ho by (intros y Hy Hoy; apply Hnot; by apply (Hagain b' x o); eauto).
      destruct (Hcur _ _ HB) as [[-> ->]|[_ HB']]; [|by eapply H2].
      destruct (H2 _ _ _ _ Hb Hcb Hpo Hox) as (v & Hv & Hval). exists v. split; [done|]. by eapply value_in_grows.
  - intros o v Hin. destruct (Hf o v Hin) as [Hin'|(x & Hx & Hox & Hv)].
    + destruct (H3 o v Hin') as (b' & x & Hb' & Hp & Hox & Hval). exists b', x. split_and!; [done|by apply Hmono|done|].
      intros B HB. destruct (Hcur _ _ HB) as [[-> ->]|[_ HB']]; [|by apply Hval]. by eapply value_in_grows, Hval.
    + exists b, x. split_and!; [done| |done|].
      * exists j. rewrite Hbp, upd_eq. split; [cbn; lia|done].
      * intros B HB. destruct (Hcur _ _ HB) as [[_ ->]|[? _]]; done.
  - intros b' x o B Hb' HB Hp Hox. destruct (Hproc _ _ Hp) as [Hpo|[-> Hin]].
    + destruct (Hcur _ _ HB) as [[-> ->]|[_ HB']].
      * destruct (H4 _ _ _ _ Hb Hcb Hpo Hox) as (v & Hv & Hval). exists v. split; [by apply Hold|by eapply value_in_grows].
      * destruct (H4 _ _ _ _ Hb' HB' Hpo Hox) as (v & Hv & Hval). exists v. split; [by apply Hold|done].
    + destruct (Hcur _ _ HB) as [[_ ->]|[? _]]; [|done]. by apply Hov.
Qed.

Lemma stores_step gh s i s' gh' : inv gh s -> step_task i s = Some (Ok s') -> change gh gh' (offsets s) (offsets s') ->
  stores gh (offsets s) -> stores gh' (offsets s').
Proof.
  intros Hinv _ [Hst Hq|k r out Hk Hph Hout Hbp Hst|b j Hb Hj Hph Hm Hbp Hst] Hs.
  - rewrite Hst. by eapply stores_quiet.
  - rewrite Hst. by eapply stores_shard.
  - by eapply stores_work.
Qed.

Lemma run_stores s s' : run s s' -> forall gh, inv gh s -> stores gh (offsets s) -> exists gh', inv gh' s' /\ stores gh' (offsets s').
Proof.
  induction 1 as [s|k s s1 s' Hs Hr IH]; intros gh Hinv Hst; [by exists gh|].
  destruct (step_inv _ _ _ _ Hinv Hs) as (s2 & gh' & [= <-] & Hinv' & Hc). apply (IH gh' Hinv'). exact (stores_step gh s k s1 gh' Hinv Hs Hc Hst).
Qed.

Lemma initial_processed b x : ~ processed initial_ghost b x.
Proof.
  intros (i & Hi & Hx). pose proof (outs_index _ _ _ Hx) as Hn. unfold initial_ghost in Hi. cbn [bucket_phase] in Hi.
  rewrite (proj2 (Nat.ltb_lt _ _)) in Hi by lia. cbn in Hi. lia.
Qed.

Lemma initial_stores : stores initial_ghost (offsets (initial_state n capacity groups)).
Proof.
  split; cbn.
  - intros o. rewrite lookup_empty. by intros [? ?].
  - intros b x o B _ _ Hp. by apply initial_processed in Hp.
  - by intros o v ?%elem_of_nil.
  - intros b x o B _ _ Hp. by apply initial_processed in Hp.
Qed.

(** *** The merged section *)
Lemma done_buckets gh s : inv gh s -> all_done gh -> finished_buckets s ≡ₚ map (fun b => bucket_at b n) (seq 0 num_buckets).
Proof.
  intros Hinv (_ & _ & Hb). rewrite (iv_finished _ _ Hinv).
  assert (forall l, (forall b, b ∈ l -> (b < num_buckets)%nat) ->
    concat (map (fun b => match bucket_phase gh b with Finished => [bucket_at b n] | _ => [] end) l) = map (fun b => bucket_at b n) l) as H.
  { induction l as [|b l IH]; intros Hl; [done|]. cbn. rewrite (Hb b) by (apply Hl; by left). cbn. f_equal. apply IH.
    intros b' Hb'. apply Hl. by right. }
  rewrite H; [done|]. intros b Hbb%elem_of_seq. lia.
Qed.

Context (Hover : forall i i' b x o out, x ∈ outs i b -> offset_out x = Overflow o -> split_of i' = Ok out -> o ∉ shard out).

Lemma overflow_map_some l : forall o v, overflow_map l !! o = Some v -> (o, v) ∈ l.
Proof.
  unfold overflow_map. induction l as [|[i w] l IH] using rev_ind; intros o v; [cbn; by rewrite lookup_empty|].
  rewrite foldl_app. cbn. rewrite elem_of_app, list_elem_of_singleton. destruct (decide (o = i)) as [->|Hne].
  - rewrite lookup_insert_eq. intros [= <-]. by right.
  - rewrite lookup_insert_ne by done. intros H%IH. by left.
Qed.

Lemma overflow_map_none l : forall o v, (o, v) ∈ l -> is_Some (overflow_map l !! o).
Proof.
  unfold overflow_map. induction l as [|[i w] l IH] using rev_ind; intros o v; [by intros ?%elem_of_nil|].
  rewrite foldl_app. cbn. rewrite elem_of_app, list_elem_of_singleton. destruct (decide (o = i)) as [->|Hne].
  - intros _. rewrite lookup_insert_eq. by eexists.
  - rewrite lookup_insert_ne by done. intros [H|[= ? ?]]; [by eapply IH|done].
Qed.

(** The value stored for an input offset. *)
Definition stored_value (st : OffsetStore) (o : Z) : option Z :=
  match cells st !! o with Some v => Some v | None => overflow_map (overflowed st) !! o end.

Lemma done_stored gh st i b x : stores gh st -> all_done gh -> (b < num_buckets)%nat -> x ∈ outs i b ->
  exists v, stored_value st (out_offset (offset_out x)) = Some v /\ value_in (bucket_at b n) x v.
Proof.
  intros [H1 H2 H3 H4] (_ & _ & Hb) Hbb Hx. pose proof (outs_index _ _ _ Hx) as Hi.
  assert (processed gh b x) as Hp by (exists i; rewrite (Hb _ Hbb); done).
  assert (current b (bucket_phase gh b) = Some (bucket_at b n)) as Hc by by rewrite Hb.
  unfold stored_value. destruct (offset_out x) as [o|o] eqn:Eo; cbn [out_offset].
  - destruct (H2 _ _ _ _ Hbb Hc Hp Eo) as (v & Hv & Hval). exists v. by rewrite Hv.
  - assert (cells st !! o = None) as ->.
    { destruct (cells st !! o) eqn:Ec; [|done]. destruct (H1 o) as (i' & out & Hout & Hin); [by rewrite Ec|].
      by destruct (Hover _ _ _ _ _ _ Hx Eo Hout). }
    destruct (H4 _ _ _ _ Hbb Hc Hp Eo) as (v & Hv & _). destruct (overflow_map_none _ _ _ Hv) as [w Hw]. exists w.
    split; [done|]. apply overflow_map_some in Hw. destruct (H3 _ _ Hw) as (b' & y & Hb' & (i' & _ & Hy) & Hoy & Hval).
    destruct (Hsame _ _ _ _ _ _ Hx Hy ltac:(by rewrite Eo, Hoy)) as [<- <-]. by apply Hval.
Qed.

(** What a run that has ended leaves. *)
Lemma protocol_result s : (0 < n)%nat -> run (initial_state n capacity groups) s -> tasks s = [] ->
  match error s with
  | None => reference_ok /\ finished_buckets s ≡ₚ map (fun b => bucket_at b n) (seq 0 num_buckets) /\ available s = capacity /\
      forall i b x, (b < num_buckets)%nat -> x ∈ outs i b ->
        exists v, stored_value (offsets s) (out_offset (offset_out x)) = Some v /\ value_in (bucket_at b n) x v
  | Some _ => ~ reference_ok
  end.
Proof.
  intros Hn Hrun Ht. destruct (run_stores _ _ Hrun _ (initial_inv Hn) initial_stores) as (gh & Hinv & Hst).
  destruct (error s) eqn:E.
  - intros Hok. by rewrite (error_reference _ _ Hinv Hok) in E.
  - pose proof (complete_done _ _ Hinv Ht E) as Hd. split; [by eapply done_reference|]. split; [by eapply done_buckets|].
    split; [|intros i b x; by apply done_stored with (gh := gh)].
    pose proof (iv_pool _ _ Hinv) as Hpool. destruct (tasks_nil _ _ Hinv Ht) as (Hsp & _). destruct Hd as (Hp & _ & Hb).
    rewrite (zsum_ext _ (fun _ => Z.of_nat n)), zsum_const, Hsp, Hp, num_buckets_eq in Hpool; [lia|]. intros b Hbb. by rewrite Hb.
Qed.

(** No task panics, and the run can always be brought to its end. *)
Lemma protocol_progress s : (0 < n)%nat -> run (initial_state n capacity groups) s ->
  (forall i, step_task i s <> Some Panic) /\ exists s', run s s' /\ tasks s' = [].
Proof.
  intros Hn Hrun. destruct (run_inv _ _ Hrun _ (initial_inv Hn)) as [gh Hinv]. split.
  - intros i Hi. by destruct (step_inv _ _ _ _ Hinv Hi) as (s' & gh' & ? & _).
  - eapply can_finish; [|done]. by eapply smaller_acc.
Qed.
End Protocol.

(** ** Sections to merged sections *)
Section Merging.
Context (hash_bytes : list Z -> Z) (accepts : list Z -> Z -> bool).
Context (sections : list StringMergeInputSection) (size capacity : Z) (groups : list SectionGroup).
Context (Hcontig : contiguous 0 sections) (Hnonempty : Forall not_empty sections).
Context (Hsize : 0 < size) (Hblock : size mod 256 = 0).
Context (Hgroups : split_sections sections size (Z.to_nat (total_input_size sections)) = Some (Ok groups)).
Context (Hcapacity : MERGE_STRING_BUCKETS <= capacity).
Local Abbreviation n := (length groups).
Local Abbreviation bucket_of := (bucket_of hash_bytes).
Local Abbreviation split_of := (split_of hash_bytes accepts groups).
Local Abbreviation outs := (outs hash_bytes accepts groups).
Local Abbreviation merged := (merged hash_bytes accepts groups).
Local Abbreviation bucket_at := (bucket_at hash_bytes accepts groups).
Local Abbreviation bucket_strings := (bucket_strings hash_bytes).

Lemma groups_spec : (forall i g, groups !! i = Some g -> group_index g = i) /\
  (forall g, g ∈ groups -> Forall (takes_from (group_range g)) (group_sections g)) /\
  concat (map group_pieces groups) = all_pieces sections.
Proof.
  destruct (split_sections_spec sections size Hcontig Hnonempty Hsize Hblock (Z.to_nat (total_input_size sections))) as (gs & Hs & H).
  - by rewrite (total_size_position _ Hcontig).
  - rewrite Hgroups in Hs. by injection Hs as <-.
Qed.

Lemma ascending_concat (l : list (list piece)) i j P Q : ascending (concat l) -> l !! i = Some P -> l !! j = Some Q -> (i < j)%nat ->
  forall p q, p ∈ P -> q ∈ Q -> p.1 < q.1.
Proof.
  revert i j. induction l as [|X l IH]; intros [|i] [|j] Ha Hi Hj Hij p q Hp Hq; try done; try lia.
  - injection Hi as ->. apply StronglySorted_app in Ha as (H & _ & _). apply H; [done|].
    rewrite <- (map_id l). apply elem_of_concat_map. exists Q. split; [|done]. by eapply list_elem_of_lookup_2.
  - apply StronglySorted_app in Ha as (_ & _ & Ha). apply (IH i j Ha Hi Hj ltac:(lia) p q Hp Hq).
Qed.

Lemma ascending_inj l p q : ascending l -> p ∈ l -> q ∈ l -> p.1 = q.1 -> p = q.
Proof.
  induction 1 as [|x l Hl IH Hx]; [by intros ?%elem_of_nil|]. rewrite Forall_forall in Hx.
  intros [->|Hp]%elem_of_cons [->|Hq]%elem_of_cons He; [done|..]; [apply Hx in Hq; lia|apply Hx in Hp; lia|by apply IH].
Qed.

Definition pieces_of (i : nat) : list piece := match groups !! i with Some g => group_pieces g | None => [] end.

Lemma pieces_ascending_all : ascending (concat (map group_pieces groups)).
Proof. destruct groups_spec as (_ & _ & ->). by eapply all_pieces_ascending. Qed.

Lemma pieces_of_in i p : p ∈ pieces_of i -> p ∈ all_pieces sections.
Proof.
  unfold pieces_of. destruct (groups !! i) eqn:E; [|by intros ?%elem_of_nil]. intros Hp.
  destruct groups_spec as (_ & _ & <-). apply elem_of_concat_map. eexists. split; [|done]. by eapply list_elem_of_lookup_2.
Qed.

Lemma pieces_of_distinct i j p q : p ∈ pieces_of i -> q ∈ pieces_of j -> p.1 = q.1 -> i = j /\ p = q.
Proof.
  intros Hp Hq He. split; [|eapply ascending_inj; [eapply all_pieces_ascending; done|by eapply pieces_of_in..|done]].
  unfold pieces_of in *. destruct (groups !! i) as [g|] eqn:Ei; [|by apply elem_of_nil in Hp].
  destruct (groups !! j) as [g'|] eqn:Ej; [|by apply elem_of_nil in Hq].
  assert (forall k h, groups !! k = Some h -> map group_pieces groups !! k = Some (group_pieces h)) as Hmap.
  { intros k h Hk. by rewrite list_lookup_fmap, Hk. }
  destruct (Nat.lt_trichotomy i j) as [H|[H|H]]; [|done|].
  - pose proof (ascending_concat _ _ _ _ _ pieces_ascending_all (Hmap _ _ Ei) (Hmap _ _ Ej) H _ _ Hp Hq). lia.
  - pose proof (ascending_concat _ _ _ _ _ pieces_ascending_all (Hmap _ _ Ej) (Hmap _ _ Ei) H _ _ Hq Hp). lia.
Qed.

Lemma string_pieces_no_panic fuel : forall l o p, p ∈ string_pieces fuel l o -> p.2 <> Panic.
Proof.
  induction fuel as [|fuel IH]; intros l o p; [by intros ?%elem_of_nil|]. destruct l as [|x l]; [by intros ?%elem_of_nil|]. cbn [string_pieces].
  destruct (memchr 0 (x :: l)) as [i|]; [intros [->|Hp]%elem_of_cons; [done|by eapply IH]|by intros ->%list_elem_of_singleton].
Qed.

Lemma all_pieces_no_panic p : p ∈ all_pieces sections -> p.2 <> Panic.
Proof.
  unfold all_pieces. rewrite elem_of_concat_map. intros (sec & _ & Hp). unfold pieces in Hp. destruct (is_string sec).
  - by eapply string_pieces_no_panic.
  - by apply list_elem_of_singleton in Hp as ->.
Qed.

Lemma split_of_spec i : (i < n)%nat ->
  match split_of i with
  | Ok out => Forall readable (pieces_of i) /\ split_holds hash_bytes (pieces_of i) out
  | Err _ => ~ Forall readable (pieces_of i)
  | Panic => False
  end.
Proof.
  intros Hi. destruct (lookup_lt_is_Some_2 _ _ Hi) as [g Hg]. destruct groups_spec as (_ & Ht & _).
  assert (ascending (pieces_of i)) as Hasc.
  { unfold pieces_of. rewrite Hg. pose proof pieces_ascending_all as H. rewrite <- (take_drop_middle _ _ _ Hg), map_app, concat_app in H.
    apply StronglySorted_app in H as (_ & _ & H). cbn in H. by apply StronglySorted_app in H as (_ & H & _). }
  pose proof (insert_pieces_holds hash_bytes accepts (pieces_of i) [] empty_split (empty_split_holds hash_bytes) Hasc) as H.
  cbn [app] in H. unfold pieces_of in H |- *. change (split_of i) with (match groups !! i with Some g => split_group hash_bytes accepts g | None => Panic end).
  rewrite Hg in *. rewrite (split_group_pieces _ _ g).
  - apply H. intros p Hp. apply all_pieces_no_panic. apply (pieces_of_in i). unfold pieces_of. by rewrite Hg.
  - apply Ht. by eapply list_elem_of_lookup_2.
Qed.

Lemma outs_from i b (x : StringToMerge) : x ∈ outs i b -> exists out, split_of i = Ok out /\ x ∈ bucket_list out b /\ split_holds hash_bytes (pieces_of i) out.
Proof.
  intros Hx. assert (i < n)%nat as Hi by (by eapply outs_index). pose proof (split_of_spec i Hi) as H. 
  change (outs i b) with (match split_of i with Ok out => default [] (buckets out !! b) | _ => [] end) in Hx.
  destruct (split_of i) as [out| |]; [|by apply elem_of_nil in Hx..]. exists out. destruct H. done.
Qed.

Lemma split_of_Ok i out : split_of i = Ok out -> split_holds hash_bytes (pieces_of i) out.
Proof.
  intros H. assert (i < n)%nat as Hi.
  { apply lookup_lt_is_Some_1. change (split_of i) with (match groups !! i with Some g => split_group hash_bytes accepts g | None => Panic end) in H.
    destruct (groups !! i); [by eexists|done]. }
  pose proof (split_of_spec i Hi) as Hs. rewrite H in Hs. by destruct Hs.
Qed.

Lemma outs_piece i b (x : StringToMerge) : x ∈ outs i b ->
  (out_offset (offset_out x), Ok (bytes x)) ∈ pieces_of i /\ bucket_of (bytes x) = b.
Proof. intros (out & _ & Hx & Hs)%outs_from. by apply (sh_from _ _ _ Hs). Qed.

Lemma outs_shard i b x o : x ∈ outs i b -> offset_out x = InShard o -> exists out, split_of i = Ok out /\ o ∈ shard out.
Proof. intros (out & Ho & Hx & Hs)%outs_from Hox. exists out. split; [done|]. by eapply (sh_in _ _ _ Hs). Qed.

Lemma outs_over i i' b x o out : x ∈ outs i b -> offset_out x = Overflow o -> split_of i' = Ok out -> o ∉ shard out.
Proof.
  intros Hx Hox Hout Hin. pose proof (split_of_Ok _ _ Hout) as Hs. destruct (sh_shard _ _ _ Hs _ Hin) as (p & Hp & <-).
  pose proof (outs_piece _ _ _ Hx) as [Hpx _]. rewrite Hox in Hpx. destruct (pieces_of_distinct _ _ _ _ Hpx Hp eq_refl) as [-> _].
  destruct (outs_from _ _ _ Hx) as (out' & Hout' & Hx' & _). rewrite Hout in Hout'. injection Hout' as <-.
  by apply (sh_over _ _ _ Hs _ _ _ Hx' Hox).
Qed.

Lemma outs_same i i' b b' x y : x ∈ outs i b -> y ∈ outs i' b' -> out_offset (offset_out x) = out_offset (offset_out y) -> x = y /\ b = b'.
Proof.
  intros Hx Hy He. pose proof (outs_piece _ _ _ Hx) as [Hpx Hbx]. pose proof (outs_piece _ _ _ Hy) as [Hpy Hby].
  destruct (pieces_of_distinct _ _ _ _ Hpx Hpy He) as [_ Heq]. injection Heq as _ Hb. split; [|congruence].
  destruct x as [bx [ox|ox]], y as [dy [oy|oy]]; cbn in *; subst; try done; exfalso.
  - destruct (outs_shard _ _ _ _ Hx eq_refl) as (out & Ho & Hin). by apply (outs_over _ _ _ _ _ _ Hy eq_refl Ho).
  - destruct (outs_shard _ _ _ _ Hy eq_refl) as (out & Ho & Hin). by apply (outs_over _ _ _ _ _ _ Hx eq_refl Ho).
Qed.

Lemma shards_disjoint i i' out out' o : split_of i = Ok out -> split_of i' = Ok out' -> o ∈ shard out -> o ∈ shard out' -> i = i'.
Proof.
  intros Ho%split_of_Ok Ho'%split_of_Ok Hin Hin'. destruct (sh_shard _ _ _ Ho _ Hin) as (p & Hp & Ep).
  destruct (sh_shard _ _ _ Ho' _ Hin') as (q & Hq & Eq). apply (pieces_of_distinct _ _ _ _ Hp Hq). congruence.
Qed.

Lemma split_no_panic i : (i < n)%nat -> split_of i <> Panic.
Proof. intros Hi H. pose proof (split_of_spec i Hi) as Hs. by rewrite H in Hs. Qed.

(** *** The reference *)
Context (Hshort : forall o data, (o, Ok data) ∈ all_pieces sections -> short data).

Definition pieces_before (j : nat) : list piece := concat (map group_pieces (take j groups)).

Lemma pieces_before_S j : (j < n)%nat -> pieces_before (S j) = pieces_before j ++ pieces_of j.
Proof.
  intros Hj. destruct (lookup_lt_is_Some_2 _ _ Hj) as [g Hg]. unfold pieces_before, pieces_of. rewrite Hg, (take_S_r _ _ _ Hg), map_app, concat_app.
  cbn. by rewrite app_nil_r.
Qed.

Lemma pieces_before_all : pieces_before n = all_pieces sections.
Proof. unfold pieces_before. rewrite take_ge by done. apply groups_spec. Qed.

Lemma add_texts_holds b (l : list StringToMerge) : forall k B, holds b k B -> fits (first_occurrences k) -> Forall (fun x => short (bytes x)) l ->
  if decide (fits (first_occurrences (k ++ map bytes l))) then exists B', for_each add_text l B = Ok B' /\ holds b (k ++ map bytes l) B'
  else ~ is_Ok (for_each add_text l B).
Proof.
  induction l as [|x l IH]; intros k B Hh Hf Hs.
  - cbn. rewrite app_nil_r. rewrite decide_True by done. by exists B.
  - apply Forall_cons in Hs as [Hx Hs]. pose proof (add_string_holds b k B (bytes x) Hh Hf Hx) as Hadd. cbn [map for_each].
    assert (add_text x B = (r ← add_string (bytes x) B; Ok r.2)) as -> by done.
    assert (k ++ bytes x :: map bytes l = (k ++ [bytes x]) ++ map bytes l) as -> by by rewrite <- app_assoc.
    destruct (decide (fits (first_occurrences (k ++ [bytes x])))) as [Hfx|Hnf].
    + destruct Hadd as (o & B' & -> & Hh'). cbn [mbind res_bind snd]. by apply IH.
    + destruct Hadd as [e ->]. cbn [mbind res_bind]. rewrite decide_False; [by intros [? ?]|]. intros H. apply Hnf.
      eapply fits_prefix; [|exact H]. apply first_occurrences_prefix.
Qed.

Lemma bucket_strings_app b ps qs : bucket_strings b (ps ++ qs) = bucket_strings b ps ++ bucket_strings b qs.
Proof. apply omap_app. Qed.

Lemma outs_short i b : Forall (fun x => short (bytes x)) (outs i b).
Proof.
  apply Forall_forall. intros x Hx. destruct (outs_piece _ _ _ Hx) as [Hp _]. apply (Hshort (out_offset (offset_out x))).
  by eapply pieces_of_in.
Qed.

Lemma outs_strings i b : (i < n)%nat -> Forall readable (pieces_of i) -> map bytes (outs i b) = bucket_strings b (pieces_of i).
Proof.
  intros Hi Hr. pose proof (split_of_spec i Hi) as H.
  change (outs i b) with (match split_of i with Ok out => default [] (buckets out !! b) | _ => [] end).
  destruct (split_of i) as [out| |]; [|done|done]. destruct H as [_ H]. apply (sh_strings _ _ _ H).
Qed.

Lemma holds_advance b l B : holds b l B -> holds b l (advance_group B).
Proof. by intros []. Qed.

Lemma merged_spec b j : (j <= n)%nat -> Forall readable (all_pieces sections) ->
  if decide (fits (first_occurrences (bucket_strings b (pieces_before j))))
  then exists B, merged b j = Ok B /\ holds b (bucket_strings b (pieces_before j)) B else ~ is_Ok (merged b j).
Proof.
  intros Hj Hr. induction j as [|j IH].
  - cbn. rewrite decide_True by done. exists (new_bucket b). split; [done|]. split; cbn; try done. by intros s ?%elem_of_nil.
  - specialize (IH ltac:(lia)). rewrite pieces_before_S, bucket_strings_app by lia.
    assert (Forall readable (pieces_of j)) as Hrj.
    { apply Forall_forall. intros p Hp%pieces_of_in. rewrite Forall_forall in Hr. by apply Hr. }
    rewrite <- (outs_strings j b ltac:(lia) Hrj).
    assert (merged b (S j) = (bucket ← merged b j; bucket ← for_each add_text (outs j b) bucket; Ok (advance_group bucket))) as -> by done.
    destruct (decide (fits (first_occurrences (bucket_strings b (pieces_before j))))) as [Hf|Hnf].
    + destruct IH as (B & -> & Hh). cbn [mbind res_bind]. pose proof (add_texts_holds b (outs j b) _ _ Hh Hf (outs_short j b)) as Hadd.
      destruct (decide _) as [Hf'|Hnf'].
      * destruct Hadd as (B' & -> & Hh'). cbn [mbind res_bind]. eexists. split; [done|]. by apply holds_advance.
      * destruct (for_each add_text (outs j b) B); [destruct Hadd; by eexists|by intros [? ?]..].
    + rewrite decide_False; [|intros H; apply Hnf; eapply fits_prefix; [apply first_occurrences_prefix|exact H]].
      intros [B HB]. destruct (merged b j) as [B0| |]; [|done..]. destruct IH. by eexists.
Qed.

(** The strings that end up in bucket [b]. *)
Definition bucket_contents (b : nat) : list (list Z) := first_occurrences (bucket_strings b (all_pieces sections)).

(** Every string is terminated and no bucket grows too large. *)
Definition mergeable : Prop := Forall readable (all_pieces sections) /\ forall b, (b < num_buckets)%nat -> fits (bucket_contents b).

Lemma reference_mergeable : reference_ok hash_bytes accepts groups <-> mergeable.
Proof.
  unfold mergeable. assert (Forall readable (all_pieces sections) <-> forall i, (i < n)%nat -> is_Ok (split_of i)) as Hr.
  { destruct groups_spec as (_ & _ & <-). split.
    - intros Hr i Hi. pose proof (split_of_spec i Hi) as H. destruct (split_of i) as [out| |]; [by eexists| |done].
      exfalso. apply H. apply Forall_forall. intros p Hp. rewrite Forall_forall in Hr. apply Hr. unfold pieces_of in Hp.
      destruct (groups !! i) eqn:E; [|by apply elem_of_nil in Hp]. apply elem_of_concat_map. eexists. split; [by eapply list_elem_of_lookup_2|done].
    - intros H. apply Forall_forall. intros p (g & Hg & Hp)%elem_of_concat_map. apply list_elem_of_lookup in Hg as [i Hi].
      pose proof (lookup_lt_Some _ _ _ Hi) as Hlt. pose proof (split_of_spec i Hlt) as Hs. destruct (H i Hlt) as [out Ho]. rewrite Ho in Hs.
      destruct Hs as [Hs _]. rewrite Forall_forall in Hs. apply Hs. unfold pieces_of. by rewrite Hi. }
  unfold reference_ok. rewrite <- Hr. split; intros [H1 H2]; (split; [done|]); intros b Hb; specialize (H2 b Hb);
    pose proof (merged_spec b n (le_n _) H1) as Hm; rewrite pieces_before_all in Hm.
  - case_decide as Hd; [done|]. by destruct Hm.
  - rewrite decide_True in Hm by done. destruct Hm as (B & HB & _). by eexists.
Qed.

(** *** Where the buckets and their strings are *)

(** Where each bucket starts if the first starts at [o]. *)
Fixpoint starts (o : Z) (bs : list Bucket) : list Z :=
  match bs with [] => [] | b :: bs => o :: starts (o + next_offset b) bs end.

Lemma compute_bucket_offsets_starts bs : length bs = num_buckets -> compute_bucket_offsets bs = Ok (starts 0 bs).
Proof. intros Hl. change num_buckets with 16%nat in Hl. do 16 (destruct bs as [|? bs]; [done|]). by destruct bs. Qed.

Lemma starts_lookup bs : forall o b B, bs !! b = Some B ->
  starts o bs !! b = Some (o + foldr (fun B acc => next_offset B + acc) 0 (take b bs)).
Proof.
  induction bs as [|B' bs IH]; intros o [|b] B H; try done; cbn; [f_equal; lia|]. rewrite (IH _ _ _ H). f_equal. cbn. lia.
Qed.

(** A bucket whose size is the size of its text. *)
Definition sized (B : Bucket) : Prop := next_offset B = Z.of_nat (length (concat (strings_ B))).

Definition texts (bs : list Bucket) : list Z := concat (map (fun B => concat (strings_ B)) bs).

Lemma texts_length bs : Forall sized bs -> Z.of_nat (length (texts bs)) = foldr (fun B acc => next_offset B + acc) 0 bs.
Proof.
  unfold texts. induction 1 as [|B bs HB _ IH]; [done|]. cbn [map concat foldr]. rewrite length_app, Nat2Z.inj_add, IH. unfold sized in HB. lia.
Qed.

Lemma write_texts bs : forall buffer, Forall sized bs -> length buffer = length (texts bs) ->
  write_merged_strings_to_buffer bs buffer = Ok (texts bs).
Proof.
  induction bs as [|B bs IH]; intros buffer Hs Hl; cbn [write_merged_strings_to_buffer].
  - cbn in Hl. by destruct buffer.
  - apply Forall_cons in Hs as [HB Hs]. unfold texts in Hl. cbn [map concat] in Hl. rewrite length_app in Hl. unfold sized in HB.
    unfold write_bucket. rewrite (proj2 (Z.leb_le _ _)) by lia. rewrite HB, Nat2Z.id, length_take.
    rewrite (proj2 (Nat.leb_le _ _)) by lia. cbn [mbind res_bind]. rewrite IH; [|done|rewrite length_drop; unfold texts; lia].
    cbn [mbind res_bind]. unfold texts at 2. cbn [map concat]. rewrite drop_ge by (rewrite length_take; lia). by rewrite app_nil_r.
Qed.

Lemma texts_split bs b B : bs !! b = Some B -> texts bs = texts (take b bs) ++ concat (strings_ B) ++ texts (drop (S b) bs).
Proof. intros H. unfold texts. rewrite <- (take_drop_middle _ _ _ H) at 1. by rewrite map_app, concat_app. Qed.

Lemma bucket_offset_decode off b v : (b < num_buckets)%nat -> 0 <= off < 2 ^ 28 -> bucket_offset_new off b = Ok v ->
  bucket_offset_bucket v = Z.of_nat b /\ offset_in_bucket v = off.
Proof.
  intros Hb Hoff. change num_buckets with 16%nat in Hb. unfold bucket_offset_new, bucket_offset_bucket, offset_in_bucket, bucket_bits_shift, MERGE_STRING_BUCKET_BITS.
  change (32 - 4) with 28. change (Z.shiftl 1 28) with (2 ^ 28). rewrite (proj2 (Z.leb_gt _ _)) by lia. intros [= <-].
  rewrite wshl_small by (unfold in_u; lia). rewrite Z.lor_comm, lor_shiftl_add by (unfold in_u; lia). split.
  - rewrite Z.shiftr_div_pow2 by lia. rewrite Z.div_add by lia. rewrite Z.div_small by lia. lia.
  - change (2 ^ 28 - 1) with (Z.ones 28). rewrite Z.land_ones by lia. rewrite Z.mod_add by lia. by apply Z.mod_small.
Qed.

Definition final_buckets : list Bucket := map (fun b => bucket_at b n) (seq 0 num_buckets).

Lemma final_lookup b : (b < num_buckets)%nat -> final_buckets !! b = Some (bucket_at b n).
Proof. intros Hb. unfold final_buckets. rewrite list_lookup_fmap, lookup_seq_lt by done. done. Qed.

Lemma final_holds b : mergeable -> (b < num_buckets)%nat -> holds b (bucket_strings b (all_pieces sections)) (bucket_at b n).
Proof.
  intros [Hr Hf] Hb. pose proof (merged_spec b n (le_n _) Hr) as Hm. rewrite pieces_before_all, decide_True in Hm by by apply Hf.
  destruct Hm as (B & HB & Hh). assert (bucket_at b n = B) as ->; [|done].
  change (bucket_at b n) with (match merged b n with Ok x => x | _ => new_bucket b end). by rewrite HB.
Qed.

Lemma final_sized : mergeable -> Forall sized final_buckets.
Proof.
  intros Hm. apply Forall_forall. intros B HB. apply list_elem_of_fmap in HB as (b & -> & Hb%elem_of_seq).
  destruct (final_holds b Hm ltac:(lia)) as [_ Hs Hn _ _]. unfold sized. by rewrite Hs.
Qed.

Lemma by_index_transitive : Transitive by_index.
Proof. intros a b c. unfold by_index. lia. Qed.

Lemma by_index_total : Total by_index.
Proof. intros a b. unfold by_index. lia. Qed.

Lemma final_sorted : mergeable -> StronglySorted by_index final_buckets.
Proof.
  intros Hm. unfold final_buckets. assert (forall k m, (k + m <= num_buckets)%nat -> StronglySorted by_index (map (fun b => bucket_at b n) (seq k m))) as H;
    [|by apply (H 0%nat)].
  intros k m. revert k. induction m as [|m IH]; intros k Hk; [constructor|]. cbn [seq map]. constructor; [apply IH; lia|].
  apply Forall_forall. intros B HB. apply list_elem_of_fmap in HB as (b & -> & Hb%elem_of_seq). unfold by_index.
  rewrite (hd_index _ _ _ (final_holds k Hm ltac:(lia))), (hd_index _ _ _ (final_holds b Hm ltac:(lia))). lia.
Qed.

Lemma sort_finished l : mergeable -> l ≡ₚ final_buckets -> merge_sort by_index l = final_buckets.
Proof.
  intros Hm Hl. pose proof by_index_transitive. pose proof by_index_total.
  apply (StronglySorted_unique_strong by_index); [|by apply StronglySorted_merge_sort|by apply final_sorted|by rewrite merge_sort_Permutation].
  intros B1 B2 H1 H2 H12 H21. rewrite merge_sort_Permutation, Hl in H1.
  apply list_elem_of_fmap in H1 as (b1 & -> & Hb1%elem_of_seq). apply list_elem_of_fmap in H2 as (b2 & -> & Hb2%elem_of_seq).
  pose proof (hd_index _ _ _ (final_holds b1 Hm ltac:(lia))) as E1. pose proof (hd_index _ _ _ (final_holds b2 Hm ltac:(lia))) as E2.
  unfold by_index in *. by replace b2 with b1 by lia.
Qed.

(** ** What merging promises *)
Definition initial : MergeState := initial_state n capacity groups.
Local Abbreviation run := (run hash_bytes accepts n capacity).
Local Abbreviation step_task := (step_task hash_bytes accepts n capacity).
Context (Hsections : sections <> []).

Lemma groups_nonempty : (0 < n)%nat.
Proof.
  clear Hshort. destruct groups_spec as (_ & _ & Hp). destruct groups as [|g gs]; [|cbn; lia]. exfalso. cbn in Hp.
  destruct sections as [|sec secs]; [done|]. apply Forall_cons in Hnonempty as [Hn _]. unfold all_pieces in Hp. cbn in Hp.
  symmetry in Hp. apply app_eq_nil in Hp as [Hp _]. unfold pieces, not_empty in *. destruct (is_string sec); [|done].
  destruct (section_data sec); [done|]. cbn [string_pieces length] in Hp. by case_match.
Qed.

Lemma merging_result s : run initial s -> tasks s = [] ->
  match error s with
  | None => mergeable /\ finished_buckets s ≡ₚ final_buckets /\ available s = capacity /\
      forall i b x, (b < num_buckets)%nat -> x ∈ outs i b ->
        exists v, stored_value (offsets s) (out_offset (offset_out x)) = Some v /\ value_in (bucket_at b n) x v
  | Some _ => ~ mergeable
  end.
Proof.
  intros Hrun Ht. destruct groups_spec as (Hi & _ & _).
  pose proof (protocol_result hash_bytes accepts groups capacity Hi Hcapacity split_no_panic outs_same outs_shard shards_disjoint outs_over
    s groups_nonempty Hrun Ht) as H.
  destruct (error s); [by rewrite <- reference_mergeable|]. destruct H as (H1 & H2). split; [by apply reference_mergeable|exact H2].
Qed.

Lemma finalise_result s : run initial s -> tasks s = [] ->
  match error s with
  | None => finalise s = Ok (mkMerged final_buckets (starts 0 final_buckets) (cells (offsets s)) (overflow_map (overflowed (offsets s))))
  | Some e => finalise s = Err e
  end.
Proof.
  intros Hrun Ht. pose proof (merging_result s Hrun Ht) as H. unfold finalise. destruct (error s); [done|].
  destruct H as (Hm & Hp & _). rewrite (sort_finished _ Hm Hp), compute_bucket_offsets_starts; [done|].
  unfold final_buckets. by rewrite length_map, length_seq.
Qed.

(** C14. Whatever the order in which the tasks of merging run and however the sections are cut into groups, merging ends with an error
    exactly if some string is not terminated or some bucket grows beyond 28 bits, and otherwise with the same buckets: each holds the
    strings with its hash once, in the order in which they first occur in the input; the pool of vectors is full again. *)
Theorem merging_deterministic s : run initial s -> tasks s = [] ->
  match finalise s with
  | Ok sec => mergeable /\ map strings_ (merged_buckets sec) = map bucket_contents (seq 0 num_buckets) /\ available s = capacity
  | Err _ => ~ mergeable
  | Panic => False
  end.
Proof.
  intros Hrun Ht. pose proof (merging_result s Hrun Ht) as H. pose proof (finalise_result s Hrun Ht) as Hf.
  destruct (error s) as [e|]; rewrite Hf; [done|]. destruct H as (Hm & _ & Ha & _). split_and!; [done| |done]. cbn [merged_buckets].
  unfold final_buckets. rewrite map_map. apply map_ext_in. intros b Hb%list_elem_of_In%elem_of_seq.
  by rewrite (hd_strings _ _ _ (final_holds b Hm ltac:(lia))).
Qed.

(** C15. No task of merging panics in any order of execution, and from every state that can be reached the tasks can be run to
    their end: no bucket waits for strings that will not come. *)
Theorem merging_progress s : run initial s -> (forall i, step_task i s <> Some Panic) /\ exists s', run s s' /\ tasks s' = [].
Proof.
  intros Hrun. destruct groups_spec as (Hi & _ & _).
  exact (protocol_progress hash_bytes accepts groups capacity Hi Hcapacity split_no_panic s groups_nonempty Hrun).
Qed.

Lemma piece_in_outs o data : mergeable -> (o, Ok data) ∈ all_pieces sections ->
  exists i x, x ∈ outs i (bucket_of data) /\ bytes x = data /\ out_offset (offset_out x) = o.
Proof.
  intros [Hr _] Hp. destruct groups_spec as (_ & _ & Hall). pose proof Hp as Hp'. rewrite <- Hall in Hp'.
  apply elem_of_concat_map in Hp' as (g & Hg & Hpg). apply list_elem_of_lookup in Hg as [i Hi].
  pose proof (lookup_lt_Some _ _ _ Hi) as Hlt. exists i.
  assert (pieces_of i = group_pieces g) as Hpi by (unfold pieces_of; by rewrite Hi).
  pose proof (split_of_spec i Hlt) as Hs. change (outs i) with (fun b => match split_of i with Ok out => default [] (buckets out !! b) | _ => [] end).
  destruct (split_of i) as [out| |]; [|destruct Hs|done].
  - destruct Hs as [_ Hs]. rewrite <- Hpi in Hpg. apply (sh_all _ _ _ Hs _ _ Hpg).
  - apply Forall_forall. intros p Hpp%pieces_of_in. rewrite Forall_forall in Hr. by apply Hr.
Qed.

(** Where a string is in the text of the merged section. *)
Lemma string_in_text b B off data : mergeable -> (b < num_buckets)%nat -> bucket_at b n = B -> string_offsets B !! data = Some off ->
  exists base, starts 0 final_buckets !! b = Some base /\ 0 <= base /\ 0 <= off < 2 ^ 28 /\
    slice (texts final_buckets) (base + off) (base + off + Z.of_nat (length data)) = Ok data.
Proof.
  intros Hm Hb <- Hoff. pose proof (final_lookup b Hb) as Hl. pose proof (final_holds b Hm Hb) as [_ Hs _ Ho _]. specialize (Ho _ _ Hoff).
  pose proof (offset_of_bound _ _ _ (proj2 Hm b Hb) Ho) as Hbound. rewrite (starts_lookup _ 0 _ _ Hl). eexists. split; [done|].
  pose proof (final_sized Hm) as Hsz. rewrite <- texts_length by by apply Forall_take.
  split; [lia|]. split; [done|]. rewrite (texts_split _ _ _ Hl). rewrite <- Hs in Ho. destruct (offset_of_text _ _ _ Ho) as [Ht Hlen].
  unfold slice. rewrite !length_app. rewrite decide_True by lia. f_equal.
  replace (Z.to_nat (0 + Z.of_nat (length (texts (take b final_buckets))) + off)) with (length (texts (take b final_buckets)) + Z.to_nat off)%nat by lia.
  rewrite drop_app_add' by done. rewrite drop_app_le by lia.
  replace (Z.to_nat (_ - _)) with (length data) by lia. rewrite take_app_le by (rewrite length_drop; lia). done.
Qed.
Lemma starts_index b base : starts 0 final_buckets !! b = Some base -> index (starts 0 final_buckets) (Z.of_nat b) = Ok base.
Proof. intros H. unfold index. rewrite decide_True by lia. by rewrite Nat2Z.id, H. Qed.

Lemma final_len cs ovf : mergeable -> merged_len (mkMerged final_buckets (starts 0 final_buckets) cs ovf) = Ok (Z.of_nat (length (texts final_buckets))).
Proof.
  intros Hm. assert (last final_buckets = Some (bucket_at 15 n)) as Hlast by done. unfold merged_len. cbn [merged_buckets bucket_offsets].
  rewrite Hlast. rewrite (hd_index _ _ _ (final_holds 15 Hm ltac:(rewrite num_buckets_eq; lia))).
  pose proof (final_lookup 15 ltac:(rewrite num_buckets_eq; lia)) as Hl. rewrite (starts_index _ _ (starts_lookup _ 0 _ _ Hl)).
  cbn [mbind res_bind]. f_equal. pose proof (final_sized Hm) as Hsz. rewrite (texts_length _ Hsz), Z.add_0_l.
  rewrite <- (take_drop_middle _ _ _ Hl) at 2. rewrite foldr_app. cbn [foldr].
  assert (drop 16 final_buckets = []) as -> by done. cbn [foldr].
  assert (forall l a, foldr (fun B acc => next_offset B + acc) a l = foldr (fun B acc => next_offset B + acc) 0 l + a) as Hf.
  { clear. induction l as [|B l IH]; intros a; cbn; [lia|]. rewrite IH. lia. }
  rewrite (Hf _ (next_offset _ + 0)). lia.
Qed.

(** C16. After a successful merge, the section that is written has, for every string of the input, the bytes of the string at the place
    that [find_string] gives for its input offset, and a symbol with that value in an input section gets the address of these bytes. *)
Theorem merged_strings_read_back s sec : run initial s -> tasks s = [] -> finalise s = Ok sec ->
  exists text, merged_len sec = Ok (Z.of_nat (length text)) /\
    (forall buffer, length buffer = length text -> write_merged_strings_to_buffer (merged_buckets sec) buffer = Ok text) /\
    forall o data, (o, Ok data) ∈ all_pieces sections ->
      exists pos, slice text pos (pos + Z.of_nat (length data)) = Ok data /\
        forall section_part_ids output_section_id base symbol addend (slots : list SectionSlot) id_start zero k slot part,
          symbol_section symbol = Ok (Some k) -> has_name symbol = true -> symbol_value symbol = o - slot ->
          index slots k = Ok (Some slot) -> index section_part_ids (id_start + k) = Ok part ->
          get_merged_string_output_address section_part_ids output_section_id (fun _ => sec) (fun _ => compute_start_addresses base sec)
            (Ok symbol) addend slots id_start zero = Ok (Some (wadd 64 (pos + base) (wrap 64 addend))).
Proof.
  intros Hrun Ht Hf. pose proof (merging_result s Hrun Ht) as H. pose proof (finalise_result s Hrun Ht) as Hfin.
  destruct (error s) as [e|]; [congruence|]. assert (sec = mkMerged final_buckets (starts 0 final_buckets) (cells (offsets s)) (overflow_map (overflowed (offsets s)))) as -> by congruence.
  clear Hfin Hf. destruct H as (Hm & _ & _ & Hst).
  exists (texts final_buckets). split; [by apply final_len|]. cbn [merged_buckets]. split.
  { intros buffer Hl. by apply write_texts; [apply final_sized|]. }
  intros o data Hp. destruct (piece_in_outs o data Hm Hp) as (i & x & Hx & Hxd & Hxo). pose proof (bucket_of_lt hash_bytes data) as Hb.
  destruct (Hst _ _ _ Hb Hx) as (v & Hv & off & Hoff & Hval). rewrite Hxd in Hoff. rewrite Hxo in Hv.
  destruct (string_in_text _ _ _ _ Hm Hb eq_refl Hoff) as (b0 & Hb0 & Hb0' & Hoffb & Hslice).
  rewrite (hd_index _ _ _ (final_holds _ Hm Hb)) in Hval. destruct (bucket_offset_decode _ _ _ Hb Hoffb Hval) as [Hvb Hvo].
  exists (b0 + off). split; [done|]. intros part_ids output base symbol addend slots id_start zero k slot part Hsec Hname Hsv Hslot Hpart.
  unfold get_merged_string_output_address. cbn [mbind res_bind]. rewrite Hsec. cbn [mbind res_bind]. rewrite Hslot. cbn [mbind res_bind].
  rewrite Hname. cbn [negb andb]. rewrite Hpart, Hsv. cbn [mbind res_bind]. cbv zeta. cbn [mbind res_bind].
  assert (find_string slot (o - slot) (mkMerged final_buckets (starts 0 final_buckets) (cells (offsets s)) (overflow_map (overflowed (offsets s)))) = Ok v) as ->.
  { unfold find_string, lookup_offset. cbn [merged_string_offsets overflowed_string_offsets]. replace (slot + (o - slot)) with o by lia.
    unfold stored_value in Hv. by rewrite Hv. }
  cbn [mbind res_bind]. rewrite Hvb, Hvo.
  assert (index (compute_start_addresses base (mkMerged final_buckets (starts 0 final_buckets) (cells (offsets s)) (overflow_map (overflowed (offsets s))))) (Z.of_nat (bucket_of data)) = Ok (b0 + base)) as ->.
  { unfold index, compute_start_addresses. cbn [bucket_offsets]. rewrite decide_True by lia. rewrite Nat2Z.id, list_lookup_fmap.
    by rewrite Hb0. }
  cbn [mbind res_bind]. by replace (b0 + off + base) with (b0 + base + off) by lia.
Qed.
End Merging.

(** ** An example *)
Module Example_run.
Definition ex_groups : list SectionGroup :=
  [mkSectionGroup 0 [mkInput [97; 98; 0; 99; 0] 0 true] (0, 256); mkSectionGroup 1 [mkInput [99; 0; 97; 98; 0] 256 true] (256, 512)].

Lemma ex_split : split_sections Example.ex_sections 256 (Z.to_nat (total_input_size Example.ex_sections)) = Some (Ok ex_groups).
Proof. by vm_compute. Qed.

(** The schedule that always runs the newest task. *)
Fixpoint drain (fuel : nat) (s : MergeState) : MergeState :=
  match fuel with
  | O => s
  | S fuel => match step_task Example.ex_hash Example.ex_accepts 2 16 (pred (length (tasks s))) s with Some (Ok s1) => drain fuel s1 | _ => s end
  end.

Lemma drain_run fuel s : run Example.ex_hash Example.ex_accepts 2 16 s (drain fuel s).
Proof.
  revert s. induction fuel as [|fuel IH]; intros s; cbn; [constructor|].
  destruct (step_task _ _ _ _ _ s) as [[s1| |]|] eqn:E; try constructor. by eapply run_cons.
Qed.

Definition ex_initial : MergeState := initial_state 2 16 ex_groups.
Definition ex_final : MergeState := drain 1000 ex_initial.

Lemma ex_short o data : (o, Ok data) ∈ all_pieces Example.ex_sections -> short data.
Proof.
  assert (all_pieces Example.ex_sections = [(0, Ok [97; 98; 0]); (3, Ok [99; 0]); (256, Ok [99; 0]); (258, Ok [97; 98; 0])]) as -> by by vm_compute.
  intros H. repeat (apply elem_of_cons in H as [H|H]; [injection H as _ ->; by vm_compute|]). by apply elem_of_nil in H.
Qed.

Lemma ex_done : tasks ex_final = [].
Proof. by vm_compute. Qed.

Definition ex_result : MergedStringsSection :=
  match finalise ex_final with Ok sec => sec | _ => mkMerged [] [] ∅ ∅ end.

Lemma ex_finalise : finalise ex_final = Ok ex_result.
Proof. by vm_compute. Qed.

(** The schedule that always runs the oldest task: once no group is left, a bucket spawns input tasks that find nothing to do and
    give their vectors back before the bucket looks again, and the loop of [try_spawn_input_processing] never leaves. *)
Definition oldest : MergeState -> option (res MergeState) := step_task Example.ex_hash Example.ex_accepts 2 16 0.
Fixpoint steps (k : nat) (s : MergeState) : option MergeState :=
  match k with
  | O => Some s
  | S k => match oldest s with Some (Ok s1) => steps k s1 | _ => None end
  end.

Lemma respawning_may_cycle : exists s, steps 1000 ex_initial = Some s /\ tasks s <> [] /\ steps 3 s = Some s.
Proof. eexists. split; [vm_compute; reflexivity|]. split; [done|]. vm_compute. reflexivity. Qed.

End Example_run.

Import Example_run.

Lemma merging_deterministic_witness :
  tasks ex_final = [] /\ mergeable Example.ex_hash Example.ex_sections /\
  map strings_ (merged_buckets ex_result) = map (bucket_contents Example.ex_hash Example.ex_sections) (seq 0 num_buckets) /\
  available ex_final = 16.
Proof.
  split; [exact ex_done|].
  pose proof (merging_deterministic Example.ex_hash Example.ex_accepts Example.ex_sections 256 16 ex_groups Example.ex_contiguous
    Example.ex_nonempty eq_refl eq_refl ex_split ltac:(by vm_compute) ex_short ltac:(done) ex_final (drain_run 1000 ex_initial) ex_done) as H.
  rewrite ex_finalise in H. exact H.
Defined.

Lemma merging_progress_witness :
  (forall i, step_task Example.ex_hash Example.ex_accepts 2 16 i ex_initial <> Some Panic) /\
  exists s', run Example.ex_hash Example.ex_accepts 2 16 ex_initial s' /\ tasks s' = [].
Proof.
  exact (merging_progress Example.ex_hash Example.ex_accepts Example.ex_sections 256 16 ex_groups Example.ex_contiguous
    Example.ex_nonempty eq_refl eq_refl ex_split ltac:(by vm_compute) ltac:(done) ex_initial (run_nil _ _ _ _ _)).
Defined.

Lemma merged_strings_read_back_witness :
  exists text, merged_len ex_result = Ok (Z.of_nat (length text)) /\
    (forall buffer, length buffer = length text -> write_merged_strings_to_buffer (merged_buckets ex_result) buffer = Ok text) /\
    exists pos, slice text pos (pos + 3) = Ok [97; 98; 0] /\
      get_merged_string_output_address [0; 5; 5] (fun part => part) (fun _ => ex_result) (fun _ => compute_start_addresses 4096 ex_result)
        (Ok (mkMergeSymbol (Ok (Some 2)) 2 true)) 1 [None; Some 0; Some 256] 0 true = Ok (Some (wadd 64 (pos + 4096) (wrap 64 1))).
Proof.
  destruct (merged_strings_read_back Example.ex_hash Example.ex_accepts Example.ex_sections 256 16 ex_groups Example.ex_contiguous
    Example.ex_nonempty eq_refl eq_refl ex_split ltac:(by vm_compute) ex_short ltac:(done) ex_final ex_result (drain_run 1000 ex_initial)
    ex_done ex_finalise) as (text & Hlen & Hwrite & Hread).
  exists text. split; [exact Hlen|]. split; [exact Hwrite|].
  destruct (Hread 258 [97; 98; 0]) as (pos & Hpos & Haddr).
  { assert (all_pieces Example.ex_sections = [(0, Ok [97; 98; 0]); (3, Ok [99; 0]); (256, Ok [99; 0]); (258, Ok [97; 98; 0])]) as -> by by vm_compute.
    do 3 right. left. }
  exists pos. split; [exact Hpos|].
  apply (Haddr [0; 5; 5] (fun part => part) 4096 (mkMergeSymbol (Ok (Some 2)) 2 true) 1 [None; Some 0; Some 256] 0 true 2 256 5); reflexivity.
Defined.
