(* ===== verification/Parsers.v ===== *)
(** Parsers of text: what the parsers of linker scripts share with one another.

    The input is a list of bytes.  A parser returns a value and the input it leaves; one that
    recurses or loops has fuel and may say [OutOfFuel].  The [winnow] crate is the class
    [Winnow] of the parsers and combinators the code calls.  What its documentation says of
    them is the class [WinnowLaws]; [reference] is an implementation that meets the laws.

    [parses P s n p q] is the property every parser of the development is shown to have: on
    inputs of length below [n] the parsers [p] and [q] (usually one parser with different
    fuel) agree, end, do not panic, leave a suffix of their input (a strict one if [s]), and
    a value that is returned has the property [P].  The lemmas [parses_*] are its rules, and
    the tactic [parsing] applies them.

    The text of an error is the message of the code's own error type, or [mismatch] for an
    error of the crate. *)
From Stdlib Require Import ZArith Lia.
From stdpp Require Import base list list_numbers numbers strings option.
From S2P Require Import Prelude.

Local Open Scope Z_scope.

(** The bytes of a string literal. *)
Definition txt (s : String.string) : list Z := map (fun b => Z.of_N (Byte.to_N b)) (String.list_byte_of_string s).

(** ** Outcomes and parsers *)
Inductive outcome (A : Type) : Type :=
| Done (r : res A)
| OutOfFuel.
Arguments Done {A} r.
Arguments OutOfFuel {A}.

Definition parser (A : Type) : Type := list Z -> outcome (A * list Z).

#[export] Instance parser_ret : MRet parser := fun A a l => Done (Ok (a, l)).
#[export] Instance parser_bind : MBind parser := fun A B f p l =>
  match p l with
  | Done (Ok (a, l)) => f a l
  | Done (Err e) => Done (Err e)
  | Done Panic => Done Panic
  | OutOfFuel => OutOfFuel
  end.

Definition no_fuel {A} : parser A := fun _ => OutOfFuel.

Definition fail {A} (msg : String.string) : parser A := fun _ => Done (Err msg).

Definition mismatch : String.string := "".

(** [input], and an assignment to it. *)
Definition get_input : parser (list Z) := fun l => Done (Ok (l, l)).
Definition set_input (l : list Z) : parser unit := fun _ => Done (Ok (tt, l)).

(** [map_err] with an error of the code. *)
Definition map_err {A} (msg : String.string) (p : parser A) : parser A := fun l =>
  match p l with Done (Err _) => Done (Err msg) | r => r end.

Definition expect {A} (o : option (A * list Z)) : outcome (A * list Z) :=
  match o with Some r => Done (Ok r) | None => Done (Err mismatch) end.

(** ** Slices of the input *)
Fixpoint strip_prefix (s l : list Z) : option (list Z) :=
  match s, l with
  | [], l => Some l
  | a :: s, b :: l => if a =? b then strip_prefix s l else None
  | _, [] => None
  end.

Definition starts_with (s l : list Z) : bool := bool_decide (is_Some (strip_prefix s l)).

Fixpoint run_of (p : Z -> bool) (l : list Z) : list Z * list Z :=
  match l with
  | b :: l => if p b then let '(tok, rest) := run_of p l in (b :: tok, rest) else ([], b :: l)
  | [] => ([], [])
  end.

(** The input up to the first occurrence of a slice. *)
Fixpoint find_slice (s l : list Z) : option (list Z * list Z) :=
  if starts_with s l then Some ([], l)
  else match l with
       | b :: l => '(tok, rest) ← find_slice s l; Some (b :: tok, rest)
       | [] => None
       end.

Definition at_least (m : nat) (r : list Z * list Z) : option (list Z * list Z) := if (m <=? length r.1)%nat then Some r else None.

Definition is_digit (b : Z) : bool := (48 <=? b) && (b <=? 57).
Definition is_multispace (b : Z) : bool := bool_decide (b ∈ [32; 9; 13; 10]).
Definition is_hex_digit (b : Z) : bool := is_digit b || ((97 <=? b) && (b <=? 102)) || ((65 <=? b) && (b <=? 70)).
Definition hex_value (b : Z) : Z := if is_digit b then b - 48 else if 97 <=? b then b - 87 else b - 55.

Definition number_of (base : Z) (value : Z -> Z) (ds : list Z) : Z := foldl (fun n d => base * n + value d) 0 ds.

Definition uint (base : Z) (value : Z -> Z) (r : list Z * list Z) : option (Z * list Z) :=
  let n := number_of base value r.1 in
  if (1 <=? length r.1)%nat && bool_decide (in_u 64 n) then Some (n, r.2) else None.

(** A decimal number has no superfluous zeros. *)
Definition decimal_number (l : list Z) : option (Z * list Z) :=
  match l with
  | b :: rest => if b =? 48 then Some (0, rest) else uint 10 (fun d => d - 48) (run_of is_digit l)
  | [] => None
  end.

(** ** The crate *)
Class Winnow := {
  literal : list Z -> parser (list Z);
  multispace0 : parser unit;
  take_until : nat -> list Z -> parser (list Z);
  take_while : nat -> (Z -> bool) -> parser (list Z);
  one_of : (Z -> bool) -> parser Z;
  eof : parser unit;
  dec_uint : parser Z;
  hex_uint : parser Z;
  verify : forall {A}, (A -> bool) -> parser A -> parser A;
  opt : forall {A}, parser A -> parser (option A);
  not_ : forall {A}, parser A -> parser unit;
  alt : forall {A}, list (parser A) -> parser A;
  repeat_till0 : forall {A B}, parser A -> parser B -> parser (list A * B)
}.

(** [repeat_till] tries the end before each element; an element that leaves the input as it
    is an error. *)
Class WinnowLaws (W : Winnow) := {
  literal_law s l : literal s l = expect (rest ← strip_prefix s l; Some (s, rest));
  multispace0_law l : multispace0 l = Done (Ok (tt, (run_of is_multispace l).2));
  take_until_law m s l : take_until m s l = expect (find_slice s l ≫= at_least m);
  take_while_law m p l : take_while m p l = expect (at_least m (run_of p l));
  one_of_law p l : one_of p l = match l with b :: rest => if p b then Done (Ok (b, rest)) else Done (Err mismatch) | [] => Done (Err mismatch) end;
  eof_law l : eof l = match l with [] => Done (Ok (tt, [])) | _ => Done (Err mismatch) end;
  dec_uint_law l : dec_uint l = expect (decimal_number l);
  hex_uint_law l n rest : hex_uint l = Done (Ok (n, rest)) -> uint 16 hex_value (run_of is_hex_digit l) = Some (n, rest);
  hex_uint_ends l : match hex_uint l with Done Panic | OutOfFuel => False | _ => True end;
  verify_law A (f : A -> bool) p l : verify f p l =
    match p l with Done (Ok (a, rest)) => if f a then Done (Ok (a, rest)) else Done (Err mismatch) | r => r end;
  opt_law A (p : parser A) l : opt p l =
    match p l with
    | Done (Ok (a, rest)) => Done (Ok (Some a, rest))
    | Done (Err _) => Done (Ok (None, l))
    | Done Panic => Done Panic
    | OutOfFuel => OutOfFuel
    end;
  not_law A (p : parser A) l : not_ p l =
    match p l with
    | Done (Ok _) => Done (Err mismatch)
    | Done (Err _) => Done (Ok (tt, l))
    | Done Panic => Done Panic
    | OutOfFuel => OutOfFuel
    end;
  alt_law A (p : parser A) ps l : alt (p :: ps) l =
    match p l, ps with Done (Err _), _ :: _ => alt ps l | r, _ => r end;
  repeat_till0_law A B (f : parser A) (g : parser B) l : repeat_till0 f g l =
    match g l with
    | Done (Ok (b, rest)) => Done (Ok (([], b), rest))
    | Done (Err _) =>
        match f l with
        | Done (Ok (a, rest)) =>
            if (length rest <? length l)%nat then ('(r, b) ← repeat_till0 f g; mret (a :: r, b)) rest else Done (Err mismatch)
        | Done (Err e) => Done (Err e)
        | Done Panic => Done Panic
        | OutOfFuel => OutOfFuel
        end
    | Done Panic => Done Panic
    | OutOfFuel => OutOfFuel
    end
}.


(** [p.value(a)] and [p.map(|_| a)]; [opt(p).parse_next(input)?.is_some()]. *)
Definition value {W : Winnow} {A B} (a : B) (p : parser A) : parser B := p;; mret a.
Definition opt_is_some {W : Winnow} {A} (p : parser A) : parser bool := o ← opt p; mret (bool_decide (is_Some o)).

(** ** An implementation *)
Fixpoint reference_repeat {A B} (f : parser A) (g : parser B) (n : nat) : parser (list A * B) := fun l =>
  match n with
  | O => Done (Err mismatch)
  | S n =>
      match g l with
      | Done (Ok (b, rest)) => Done (Ok (([], b), rest))
      | Done (Err _) =>
          match f l with
          | Done (Ok (a, rest)) =>
              if (length rest <? length l)%nat then ('(r, b) ← reference_repeat f g n; mret (a :: r, b)) rest else Done (Err mismatch)
          | Done (Err e) => Done (Err e)
          | Done Panic => Done Panic
          | OutOfFuel => OutOfFuel
          end
      | Done Panic => Done Panic
      | OutOfFuel => OutOfFuel
      end
  end.

Lemma reference_repeat_fuel {A B} (f : parser A) (g : parser B) n : forall m l,
  (length l < n)%nat -> (length l < m)%nat -> reference_repeat f g n l = reference_repeat f g m l.
Proof.
  induction n as [|n IH]; intros [|m] l Hn Hm; try lia. cbn [reference_repeat].
  destruct (g l) as [[[b rest]| |]|]; try done. destruct (f l) as [[[a rest]| |]|]; try done.
  destruct (Nat.ltb_spec (length rest) (length l)); [|done]. unfold mbind, parser_bind. by rewrite (IH m rest) by lia.
Qed.

Fixpoint reference_alt {A} (ps : list (parser A)) : parser A := fun l =>
  match ps with
  | [] => Done (Err mismatch)
  | p :: ps => match p l, ps with Done (Err _), _ :: _ => reference_alt ps l | r, _ => r end
  end.

#[export] Instance reference : Winnow := {|
  literal s l := expect (rest ← strip_prefix s l; Some (s, rest));
  multispace0 l := Done (Ok (tt, (run_of is_multispace l).2));
  take_until m s l := expect (find_slice s l ≫= at_least m);
  take_while m p l := expect (at_least m (run_of p l));
  one_of p l := match l with b :: rest => if p b then Done (Ok (b, rest)) else Done (Err mismatch) | [] => Done (Err mismatch) end;
  eof l := match l with [] => Done (Ok (tt, [])) | _ => Done (Err mismatch) end;
  dec_uint l := expect (decimal_number l);
  hex_uint l := expect (uint 16 hex_value (run_of is_hex_digit l));
  verify A f p l := match p l with Done (Ok (a, rest)) => if f a then Done (Ok (a, rest)) else Done (Err mismatch) | r => r end;
  opt A p l :=
    match p l with
    | Done (Ok (a, rest)) => Done (Ok (Some a, rest))
    | Done (Err _) => Done (Ok (None, l))
    | Done Panic => Done Panic
    | OutOfFuel => OutOfFuel
    end;
  not_ A p l :=
    match p l with
    | Done (Ok _) => Done (Err mismatch)
    | Done (Err _) => Done (Ok (tt, l))
    | Done Panic => Done Panic
    | OutOfFuel => OutOfFuel
    end;
  alt A := reference_alt;
  repeat_till0 A B f g l := reference_repeat f g (S (length l)) l
|}.

#[export] Instance reference_laws : WinnowLaws reference.
Proof.
  split; try done.
  - intros l n rest. cbn. by destruct (uint _ _ _) as [[m r]|]; [intros [= <- <-]|].
  - intros l. cbn. by destruct (uint _ _ _).
  - intros A B f g l. cbn [repeat_till0 reference reference_repeat]. destruct (g l) as [[[b rest]| |]|]; try done.
    destruct (f l) as [[[a rest]| |]|]; try done. destruct (Nat.ltb_spec (length rest) (length l)); [|done].
    unfold mbind, parser_bind. cbn [repeat_till0 reference]. by rewrite (reference_repeat_fuel f g (length l) (S (length rest)) rest) by lia.
Qed.

(** ** Slices *)
Lemma forallb_iff {A} (f : A -> bool) l : forallb f l = true <-> Forall (fun a => f a = true) l.
Proof. by rewrite List.forallb_forall, List.Forall_forall. Qed.

Lemma strip_prefix_spec s l rest : strip_prefix s l = Some rest <-> l = s ++ rest.
Proof.
  revert l. induction s as [|a s IH]; intros l; cbn; [split; congruence|].
  destruct l as [|b l]; [split; congruence|]. destruct (Z.eqb_spec a b) as [->|Hne].
  - rewrite IH. cbn. split; congruence.
  - split; [done|]. cbn. congruence.
Qed.

Lemma strip_prefix_app s rest : strip_prefix s (s ++ rest) = Some rest.
Proof. by apply strip_prefix_spec. Qed.

Lemma starts_with_spec s l : starts_with s l = true <-> exists rest, l = s ++ rest.
Proof.
  unfold starts_with. rewrite bool_decide_eq_true. unfold is_Some. by setoid_rewrite strip_prefix_spec.
Qed.

Lemma run_of_spec p l : let '(tok, rest) := run_of p l in
  l = tok ++ rest /\ Forall (fun b => p b = true) tok /\ match rest with b :: _ => p b = false | [] => True end.
Proof.
  induction l as [|b l IH]; cbn; [done|]. destruct (p b) eqn:E; [|by split].
  destruct (run_of p l) as [tok rest]. destruct IH as (-> & Hf & Hr). split_and!; [done| |done]. by constructor.
Qed.

Lemma run_of_app p tok rest : Forall (fun b => p b = true) tok -> match rest with b :: _ => p b = false | [] => True end ->
  run_of p (tok ++ rest) = (tok, rest).
Proof.
  intros Hf Hr. induction Hf as [|b tok Hb _ IH]; cbn.
  - destruct rest as [|b rest]; [done|]. cbn. by rewrite Hr.
  - by rewrite Hb, IH.
Qed.

Lemma find_slice_spec s l tok rest : find_slice s l = Some (tok, rest) <->
  l = tok ++ rest /\ starts_with s rest = true /\ forall k, (k < length tok)%nat -> starts_with s (drop k l) = false.
Proof.
  revert tok. induction l as [|b l IH]; intros tok; cbn [find_slice].
  all: match goal with |- context [if ?c then _ else _] => destruct c eqn:Hp end.
  - split.
    + intros [= <- <-]. split_and!; [done|done|cbn; lia].
    + intros (Hl & _ & _). symmetry in Hl. by apply app_eq_nil in Hl as [-> ->].
  - split; [done|]. intros (Hl & Hr & _). symmetry in Hl. apply app_eq_nil in Hl as [-> ->]. congruence.
  - split.
    + intros [= <- <-]. split_and!; [done|done|cbn; lia].
    + intros (Hl & _ & Hk). destruct tok as [|c tok]; [by cbn in Hl; subst|]. specialize (Hk 0%nat ltac:(cbn; lia)). cbn in Hk. congruence.
  - transitivity (exists tok', tok = b :: tok' /\ find_slice s l = Some (tok', rest)).
    { destruct (find_slice s l) as [[tok' rest']|]; cbn; split; [intros [= <- <-]; eauto|by intros (? & -> & [= <- <-])|done|by intros (? & _ & ?)]. }
    split.
    + intros (tok' & -> & (-> & Hr & Hk)%IH). split_and!; [done|done|].
      intros [|k] H; [done|]. cbn. apply Hk. cbn in H. lia.
    + intros (Hl & Hr & Hk). destruct tok as [|c tok]; [cbn in Hl; subst; congruence|]. injection Hl as <- ->.
      exists tok. split; [done|]. apply IH. split_and!; [done|done|]. intros k H. apply (Hk (S k)). cbn. lia.
Qed.

Lemma find_slice_byte b tok r : find_slice [b] (tok ++ b :: r) = Some (tok, b :: r) <-> forallb (fun c => negb (c =? b)) tok = true.
Proof.
  induction tok as [|c tok IH]; cbn [app find_slice forallb].
  - by rewrite (proj2 (starts_with_spec [b] (b :: r))) by by exists r.
  - destruct (Z.eqb_spec c b) as [->|Hne]; cbn [negb andb].
    + rewrite (proj2 (starts_with_spec [b] (b :: tok ++ b :: r))) by eauto. split; [by intros [= ? ?]|done].
    + rewrite <- IH. assert (starts_with [b] (c :: tok ++ b :: r) = false) as ->.
      { apply not_true_iff_false. rewrite starts_with_spec. intros [? [= ? ?]]. done. }
      destruct (find_slice [b] (tok ++ b :: r)) as [[t1 r1]|]; cbn; split; congruence.
Qed.

Lemma find_slice_cons b l tok r : find_slice [b] l = Some (tok, r) -> exists r', r = b :: r'.
Proof. intros (_ & [r' ->]%starts_with_spec & _)%find_slice_spec. by exists r'. Qed.

(** ** Numbers *)
Fixpoint digits (fuel : nat) (n : Z) : list Z :=
  match fuel with
  | O => []
  | S fuel => if n <? 10 then [48 + n] else digits fuel (n / 10) ++ [48 + n mod 10]
  end.

(** The decimal digits of a number below [10^20]. *)
Definition decimal (n : Z) : list Z := digits 20 n.

Lemma is_digit_add n : 0 <= n < 10 -> is_digit (48 + n) = true.
Proof. intros. unfold is_digit. apply andb_true_iff. split; apply Z.leb_le; lia. Qed.

Lemma digits_spec fuel : forall n, 0 <= n < 10 ^ Z.of_nat fuel -> (0 < fuel)%nat -> exists d ds, digits fuel n = d :: ds /\
  number_of 10 (fun d => d - 48) (d :: ds) = n /\ Forall (fun b => is_digit b = true) (d :: ds) /\ (d = 48 -> ds = []).
Proof.
  induction fuel as [|fuel IH]; intros n Hn Hf; [lia|]. cbn [digits]. destruct (Z.ltb_spec n 10) as [Hlt|Hge].
  - exists (48 + n), []. split_and!; [done|cbn; lia| |done]. constructor; [|constructor]. apply is_digit_add. lia.
  - assert (0 < fuel)%nat as Hf'. { destruct fuel; [cbn in Hn; lia|lia]. }
    pose proof (Z.div_mod n 10 ltac:(lia)) as Hd. pose proof (Z.mod_pos_bound n 10 ltac:(lia)) as Hm.
    destruct (IH (n / 10)) as (d & ds & -> & Hv & Hds & Hz); [|done|].
    { split; [apply Z.div_pos; lia|]. apply Z.div_lt_upper_bound; [lia|]. rewrite Nat2Z.inj_succ, Z.pow_succ_r in Hn; lia. }
    exists d, (ds ++ [48 + n mod 10]). rewrite app_comm_cons. split_and!; [done| | |].
    + unfold number_of in *. rewrite foldl_app, Hv. cbn. lia.
    + apply Forall_app. split; [done|]. constructor; [|constructor]. by apply is_digit_add.
    + intros ->. rewrite (Hz eq_refl) in Hv. cbn in Hv. lia.
Qed.

Lemma decimal_number_decimal n rest : in_u 64 n -> match rest with b :: _ => is_digit b = false | [] => True end ->
  decimal_number (decimal n ++ rest) = Some (n, rest).
Proof.
  intros Hn Hr. unfold decimal. destruct (digits_spec 20 n) as (d & ds & -> & Hv & Hds & Hz); [unfold in_u in Hn; lia|lia|].
  cbn [app decimal_number]. destruct (Z.eqb_spec d 48) as [->|Hne].
  - rewrite (Hz eq_refl) in *. cbn in Hv. by subst n.
  - rewrite app_comm_cons, run_of_app by done. unfold uint. cbn [fst snd]. rewrite Hv. by rewrite bool_decide_true.
Qed.

Lemma decimal_first n : in_u 64 n -> exists d ds, decimal n = d :: ds /\ is_digit d = true.
Proof.
  intros Hn. destruct (digits_spec 20 n) as (d & ds & Hd & _ & Hf & _); [unfold in_u in Hn; lia|lia|].
  exists d, ds. split; [done|]. by inversion Hf.
Qed.

Lemma uint_consumes base value p l n rest : uint base value (run_of p l) = Some (n, rest) ->
  in_u 64 n /\ exists d ds, l = d :: ds ++ rest /\ p d = true.
Proof.
  unfold uint. pose proof (run_of_spec p l) as H. destruct (run_of p l) as [tok r]. cbn [fst snd].
  destruct (_ && _) eqn:E; [|done]. intros [= <- <-]. apply andb_true_iff in E as [E1 E2].
  apply Nat.leb_le in E1. apply bool_decide_eq_true in E2. split; [done|]. destruct H as (-> & Hf & _).
  destruct tok as [|d ds]; [cbn in E1; lia|]. exists d, ds. split; [done|]. by inversion Hf.
Qed.

(** ** Parsers that end, do not panic and do not depend on fuel *)
Definition consumes (strict : bool) (l r : list Z) : Prop := exists tok, l = tok ++ r /\ (strict = true -> tok <> []).

Definition parses {A} (P : A -> Prop) (strict : bool) (n : nat) (p q : parser A) : Prop :=
  forall l, (length l < n)%nat -> p l = q l /\
    match p l with Done (Ok (a, r)) => P a /\ consumes strict l r | Done (Err _) => True | _ => False end.

Lemma consumes_refl l : consumes false l l.
Proof. by exists []. Qed.

Lemma consumes_trans s1 s2 s l m r : consumes s1 l m -> consumes s2 m r -> (s = true -> s1 || s2 = true) -> consumes s l r.
Proof.
  intros (t1 & -> & H1) (t2 & -> & H2) Hs. exists (t1 ++ t2). split; [by rewrite app_assoc|].
  intros [[H|H]%orb_true_iff _]%Hs%(fun x => conj x I) [E1 E2]%app_eq_nil; [by apply H1|by apply H2].
Qed.

Lemma consumes_length s l r : consumes s l r -> (length r <= length l)%nat /\ (s = true -> (length r < length l)%nat).
Proof.
  intros (t & -> & H). rewrite length_app. split; [lia|]. intros Hs. destruct t; [by destruct (H Hs)|cbn; lia].
Qed.

Section Rules.
Context {W : Winnow} {L : WinnowLaws W}.

Lemma parses_weaken {A} (P Q : A -> Prop) s s' n m p q : parses P s n p q ->
  (forall a, P a -> Q a) -> (s' = true -> s = true) -> (m <= n)%nat -> parses Q s' m p q.
Proof.
  intros H HPQ Hs Hm l Hl. destruct (H l ltac:(lia)) as [Heq Hp]. split; [done|].
  destruct (p l) as [[[a r]| |]|]; try done. destruct Hp as (Ha & tok & Hr & Htok). split; [auto|]. exists tok. auto.
Qed.

Lemma parses_bind {A B} (P : A -> Prop) (Q : B -> Prop) s1 s2 s n (p q : parser A) (f g : A -> parser B) :
  parses P s1 n p q -> (forall a, P a -> parses Q s2 (if s1 then pred n else n) (f a) (g a)) ->
  (s = true -> s1 || s2 = true) -> parses Q s n (p ≫= f) (q ≫= g).
Proof.
  intros Hp Hf Hs l Hl. destruct (Hp l Hl) as [Heq Hr]. unfold mbind, parser_bind. rewrite <- Heq.
  destruct (p l) as [[[a r]| |]|]; try done. destruct Hr as [Ha Hc]. pose proof (consumes_length _ _ _ Hc) as [H1 H2].
  destruct (Hf a Ha r) as [Heq' Hr']; [destruct s1; [specialize (H2 eq_refl)|]; lia|]. split; [done|].
  destruct (f a r) as [[[b r']| |]|]; try done. destruct Hr' as [Hb Hc']. split; [done|]. by apply (consumes_trans s1 s2 s l r r').
Qed.

(** The first parser consumes input; or only the rest might. *)
Lemma parses_seq_strict {A B} (P : A -> Prop) (Q : B -> Prop) s n (p q : parser A) (f g : A -> parser B) :
  parses P true n p q -> (forall a, P a -> parses Q false (pred n) (f a) (g a)) -> parses Q s n (p ≫= f) (q ≫= g).
Proof. intros Hp Hf. by apply (parses_bind P Q true false). Qed.

Lemma parses_seq {A B} (P : A -> Prop) (Q : B -> Prop) s n (p q : parser A) (f g : A -> parser B) :
  parses P false n p q -> (forall a, P a -> parses Q s n (f a) (g a)) -> parses Q s n (p ≫= f) (q ≫= g).
Proof. intros Hp Hf. by apply (parses_bind P Q false s). Qed.

Lemma parses_ret {A} (P : A -> Prop) n a : P a -> parses P false n (mret a) (mret a).
Proof. intros Ha l _. split; [done|]. cbn. split; [done|apply consumes_refl]. Qed.

Lemma parses_fail {A} (P : A -> Prop) s n e : parses P s n (fail e) (fail e).
Proof. done. Qed.

Lemma parses_input n : parses (fun _ => True) false n get_input get_input.
Proof. intros l _. split; [done|]. split; [done|apply consumes_refl]. Qed.

Lemma parses_map_err {A} (P : A -> Prop) s n e p q : parses P s n p q -> parses P s n (map_err e p) (map_err e q).
Proof.
  intros H l Hl. destruct (H l Hl) as [Heq Hp]. unfold map_err. rewrite <- Heq. split; [done|]. by destruct (p l) as [[[a r]| |]|].
Qed.

Lemma parses_of {A} (P : A -> Prop) s n (p : parser A) :
  (forall l, match p l with Done (Ok (a, r)) => P a /\ consumes s l r | Done (Err _) => True | _ => False end) -> parses P s n p p.
Proof. intros H l _. split; [done|apply H]. Qed.

Lemma parses_literal s n : parses (fun r => r = s) (bool_decide (s <> [])) n (literal s) (literal s).
Proof.
  apply parses_of. intros l. rewrite literal_law. destruct (strip_prefix s l) as [r|] eqn:E; cbn; [|done].
  apply strip_prefix_spec in E as ->. split; [done|]. exists s. split; [done|apply bool_decide_eq_true].
Qed.

Lemma parses_multispace0 n : parses (fun _ => True) false n multispace0 multispace0.
Proof.
  apply parses_of. intros l. rewrite multispace0_law. pose proof (run_of_spec is_multispace l) as H.
  destruct (run_of is_multispace l) as [tok r]. destruct H as [-> _]. split; [done|]. by exists tok.
Qed.

Lemma parses_slice (P : list Z -> Prop) m n (p : parser (list Z)) (f : list Z -> option (list Z * list Z)) :
  (forall l, p l = expect (f l ≫= at_least m)) ->
  (forall l tok r, f l = Some (tok, r) -> l = tok ++ r /\ ((m <= length tok)%nat -> P tok)) -> parses P (bool_decide (0 < m)%nat) n p p.
Proof.
  intros Hp Hf. apply parses_of. intros l. rewrite Hp. destruct (f l) as [[tok r]|] eqn:E; [|done].
  unfold at_least; cbn. destruct (Nat.leb_spec m (length tok)); cbn; [|done]. destruct (Hf _ _ _ E) as [-> Ht]. split; [auto|].
  exists tok. split; [done|]. intros Hm%bool_decide_eq_true -> . cbn in *. lia.
Qed.

Lemma parses_take_while m p n : parses (fun tok => (m <= length tok)%nat /\ Forall (fun b => p b = true) tok) (bool_decide (0 < m)%nat) n
  (take_while m p) (take_while m p).
Proof.
  apply parses_slice with (f := fun l => Some (run_of p l)); [intros l; apply take_while_law|].
  intros l tok r [= H]. pose proof (run_of_spec p l) as Hr. rewrite H in Hr. destruct Hr as (? & ? & _). done.
Qed.

Lemma parses_take_until m s n : parses (fun tok => (m <= length tok)%nat /\ exists r, find_slice s (tok ++ r) = Some (tok, r))
  (bool_decide (0 < m)%nat) n (take_until m s) (take_until m s).
Proof.
  apply parses_slice with (f := find_slice s); [intros l; apply take_until_law|]. intros l tok r H.
  pose proof (proj1 (find_slice_spec _ _ _ _) H) as [-> _]. eauto.
Qed.

Lemma parses_one_of p n : parses (fun b => p b = true) true n (one_of p) (one_of p).
Proof.
  apply parses_of. intros [|b l]; rewrite one_of_law; [done|]. destruct (p b) eqn:E; [|done]. split; [done|]. by exists [b].
Qed.

Lemma parses_eof n : parses (fun _ => True) false n eof eof.
Proof. apply parses_of. intros [|b l]; rewrite eof_law; [|done]. split; [done|apply consumes_refl]. Qed.

Lemma parses_dec_uint n : parses (in_u 64) true n dec_uint dec_uint.
Proof.
  apply parses_of. intros l. rewrite dec_uint_law. destruct (decimal_number l) as [[k r]|] eqn:E; [|done]. cbn.
  destruct l as [|b l]; [done|]. cbn [decimal_number] in E. destruct (Z.eqb_spec b 48) as [->|_].
  - injection E as <- <-. split; [done|]. by exists [48].
  - apply uint_consumes in E as (Hk & d & ds & -> & _). split; [done|]. by exists (d :: ds).
Qed.

Lemma parses_hex_uint n : parses (in_u 64) true n hex_uint hex_uint.
Proof.
  apply parses_of. intros l. pose proof (hex_uint_ends l) as He. destruct (hex_uint l) as [[[k r]| |]|] eqn:E; try done.
  apply hex_uint_law, uint_consumes in E as (Hk & d & ds & -> & _). split; [done|]. by exists (d :: ds).
Qed.

Lemma parses_verify {A} (P : A -> Prop) f s n p q : parses P s n p q -> parses (fun a => P a /\ f a = true) s n (verify f p) (verify f q).
Proof.
  intros H l Hl. destruct (H l Hl) as [Heq Hp]. rewrite !verify_law, <- Heq. split; [done|].
  destruct (p l) as [[[a r]| |]|]; try done. destruct (f a) eqn:E; [|done]. by destruct Hp.
Qed.

Lemma parses_opt {A} (P : A -> Prop) s n p q : parses P s n p q -> parses (fun o => forall a, o = Some a -> P a) false n (opt p) (opt q).
Proof.
  intros H l Hl. destruct (H l Hl) as [Heq Hp]. rewrite !opt_law, <- Heq. split; [done|].
  destruct (p l) as [[[a r]| |]|]; try done.
  - destruct Hp as (Ha & tok & -> & _). split; [by intros ? [= <-]|]. by exists tok.
  - split; [done|apply consumes_refl].
Qed.

Lemma parses_not {A} (P : A -> Prop) s n p q : parses P s n p q -> parses (fun _ => True) false n (not_ p) (not_ q).
Proof.
  intros H l Hl. destruct (H l Hl) as [Heq Hp]. rewrite !not_law, <- Heq. split; [done|].
  destruct (p l) as [[[a r]| |]|]; try done. split; [done|apply consumes_refl].
Qed.

Lemma parses_alt1 {A} (P : A -> Prop) s n p q : parses P s n p q -> parses P s n (alt [p]) (alt [q]).
Proof.
  intros H l Hl. destruct (H l Hl) as [Heq Hp]. rewrite !alt_law, <- Heq. by destruct (p l) as [[[a r]| |]|].
Qed.

Lemma parses_alt {A} (P : A -> Prop) s n ps qs : Forall2 (parses P s n) ps qs -> (ps <> []) -> parses P s n (alt ps) (alt qs).
Proof.
  intros H. induction H as [|p q ps qs Hpq H IH]; [done|]. intros _ l Hl. destruct (Hpq l Hl) as [Heq Hp].
  rewrite !alt_law, <- Heq. destruct (p l) as [[[a r]| |]|]; try done. destruct H; [done|]. by apply IH.
Qed.

Lemma parses_repeat_till0 {A B} (P : A -> Prop) (Q : B -> Prop) s s' n f f' g g' :
  parses P s n f f' -> parses Q s' n g g' -> parses (fun '(r, b) => Forall P r /\ Q b) s' n (repeat_till0 f g) (repeat_till0 f' g').
Proof.
  intros Hf Hg l. remember (length l) as k eqn:Hk. revert l Hk. induction (lt_wf k) as [k _ IH]. intros l -> Hl.
  destruct (Hf l Hl) as [Hf1 Hf2]. destruct (Hg l Hl) as [Hg1 Hg2]. rewrite !repeat_till0_law, <- Hf1, <- Hg1.
  destruct (g l) as [[[b r]| |]|]; try done; [by destruct Hg2; split_and!|].
  destruct (f l) as [[[a r]| |]|]; try done. destruct (Nat.ltb_spec (length r) (length l)) as [Hr|]; [|done].
  unfold mbind, parser_bind. destruct (IH (length r) ltac:(lia) r eq_refl ltac:(lia)) as [H1 H2]. rewrite <- H1. split; [done|].
  destruct (repeat_till0 f g r) as [[[[rs b] r']| |]|]; try done. destruct H2 as [[HP HQ] Hc]. destruct Hf2 as [Ha Hc'].
  split; [by split; [constructor|]|]. by apply (consumes_trans s s' s' l r r'); [..|intros ->; rewrite orb_comm].
Qed.

(** After an option that was there, input has been consumed. *)
Lemma parses_opt_bind {A B} (P : A -> Prop) (Q : B -> Prop) s n p q (f g : option A -> parser B) : parses P true n p q ->
  (forall a, P a -> parses Q false (pred n) (f (Some a)) (g (Some a))) -> parses Q s n (f None) (g None) ->
  parses Q s n (opt p ≫= f) (opt q ≫= g).
Proof.
  intros Hp Hs Hn l Hl. unfold mbind, parser_bind. destruct (Hp l Hl) as [Heq Hr]. rewrite !opt_law, <- Heq.
  destruct (p l) as [[[a r]| |]|]; try done; [|by apply Hn]. destruct Hr as [Ha Hc]. pose proof (consumes_length _ _ _ Hc) as [_ H2].
  destruct (Hs a Ha r ltac:(specialize (H2 eq_refl); lia)) as [Heq' Hr']. split; [done|].
  destruct (f (Some a) r) as [[[b r']| |]|]; try done. destruct Hr' as [Hb Hc']. split; [done|]. by apply (consumes_trans true false s l r r').
Qed.

Lemma parses_opt_is_some_bind {A B} (P : A -> Prop) (Q : B -> Prop) s n p q (f g : bool -> parser B) : parses P true n p q ->
  parses Q false (pred n) (f true) (g true) -> parses Q s n (f false) (g false) -> parses Q s n (opt_is_some p ≫= f) (opt_is_some q ≫= g).
Proof.
  intros Hp Hs Hn. assert (forall h (r : parser A) l, (opt_is_some r ≫= h) l = (opt r ≫= fun o => h (bool_decide (is_Some o)) : parser B) l) as Heq.
  { intros h r l. unfold opt_is_some, mbind, parser_bind. by destruct (opt r l) as [[[o r']| |]|]. }
  intros l. rewrite !Heq. by apply (parses_opt_bind P Q s n p q (fun o => f (bool_decide (is_Some o))) (fun o => g (bool_decide (is_Some o)))).
Qed.

Lemma parses_value {A B} (P : A -> Prop) (b : B) s n p q : parses P s n p q -> parses (fun _ => True) s n (value b p) (value b q).
Proof. intros H. apply (parses_bind P _ s false); [done| |by rewrite orb_false_r]. intros a _. by apply parses_ret. Qed.

Lemma parses_bind_bind {A B C} (Q : C -> Prop) s n (p q : parser A) (f f' : A -> parser B) (g g' : B -> parser C) :
  parses Q s n (p ≫= fun a => f a ≫= g) (q ≫= fun a => f' a ≫= g') -> parses Q s n ((p ≫= f) ≫= g) ((q ≫= f') ≫= g').
Proof.
  assert (forall (r : parser A) (h : A -> parser B) (h' : B -> parser C) l, ((r ≫= h) ≫= h') l = (r ≫= fun a => h a ≫= h') l) as Heq.
  { intros r h h' l. unfold mbind, parser_bind. by destruct (r l) as [[[a r']| |]|]. }
  intros H l Hl. rewrite !Heq. by apply H.
Qed.

Lemma parses_ret_bind {A B} (Q : B -> Prop) s n (a b : A) (f g : A -> parser B) :
  parses Q s n (f a) (g b) -> parses Q s n (mret a ≫= f) (mret b ≫= g).
Proof. done. Qed.

Lemma parses_fail_bind {A B} (Q : B -> Prop) s n e (f g : A -> parser B) : parses Q s n (fail e ≫= f) (fail e ≫= g).
Proof. done. Qed.

(** A parser that reads its input before it starts. *)
Lemma parses_peek {B} (Q : B -> Prop) s n (f g : list Z -> parser B) :
  (forall l, parses Q s n (f l) (g l)) -> parses Q s n (get_input ≫= f) (get_input ≫= g).
Proof. intros H. eapply parses_seq; [apply parses_input|]. auto. Qed.
End Rules.

Global Arguments literal : simpl never.
Create HintDb parses discriminated.

(** [known] finds the property of a parser that is called, from the rules of the crate, the
    hint database and the hypotheses; [parsing] follows the code of a parser. *)
Lemma parses_literal_cons {W : Winnow} {L : WinnowLaws W} b s n : parses (fun _ => True) true n (literal (b :: s)) (literal (b :: s)).
Proof. by eapply parses_weaken; [apply (parses_literal (b :: s))|..]. Qed.

Lemma parses_literal_not {W : Winnow} {L : WinnowLaws W} b s c t n :
  parses (fun _ => True) true n (literal (b :: s);; not_ (literal (c :: t))) (literal (b :: s);; not_ (literal (c :: t))).
Proof.
  eapply parses_seq_strict; [apply parses_literal_cons|]. intros ? _. eapply parses_not, parses_literal_cons.
Qed.

#[export] Hint Extern 1 (parses _ _ _ (literal _ ≫= fun _ => not_ (literal _)) _) => apply parses_literal_not : parses.
#[export] Hint Resolve parses_input parses_multispace0 parses_one_of parses_eof parses_dec_uint parses_hex_uint : parses.
#[export] Hint Extern 1 (_ <= _)%nat => lia : parses.
#[export] Hint Extern 1 (parses _ _ _ (literal _) _) => apply parses_literal_cons : parses.
#[export] Hint Extern 1 (parses _ _ _ (take_while 1 _) _) => apply (parses_take_while 1) : parses.
#[export] Hint Extern 1 (parses _ _ _ (take_until 1 _) _) => apply (parses_take_until 1) : parses.
#[export] Hint Extern 1 (parses _ _ _ (take_until 0 _) _) => apply (parses_take_until 0) : parses.
#[export] Hint Extern 1 (parses _ _ _ (verify _ _) _) => eapply parses_verify : parses.
#[export] Hint Extern 1 (parses _ _ _ (opt _) _) => eapply (parses_opt _ true) : parses.
#[export] Hint Extern 1 (parses _ _ _ (not_ _) _) => eapply (parses_not _ true) : parses.
#[export] Hint Extern 1 (parses _ _ _ (map_err _ _) _) => eapply parses_map_err : parses.
#[export] Hint Extern 1 (parses _ _ _ (value _ _) _) => eapply parses_value : parses.
#[export] Hint Extern 1 (parses _ _ _ (repeat_till0 _ _) _) => eapply (parses_repeat_till0 _ _ true) : parses.
#[export] Hint Extern 1 (parses _ _ _ (alt _) _) => eapply parses_alt; [repeat first [apply Forall2_nil_2|apply Forall2_cons_2]|done] : parses.
#[export] Hint Extern 2 (parses _ _ _ ?p _) =>
  match goal with H : parses _ _ _ p _ |- _ => eapply parses_weaken; [exact H|exact (fun _ x => x)|done|lia] end : parses.

Ltac known := solve [eauto 40 with parses nocore].

Ltac parsing_step :=
  lazymatch goal with
  | |- parses _ _ _ (mret _) _ => apply parses_ret
  | |- parses _ _ _ (fail _) _ => apply parses_fail
  | |- parses _ _ _ (mret _ ≫= _) _ => apply parses_ret_bind
  | |- parses _ _ _ (fail _ ≫= _) _ => apply parses_fail_bind
  | |- parses _ _ _ ((_ ≫= _) ≫= _) _ => apply parses_bind_bind
  | |- parses _ _ _ ((if ?c then _ else _) ≫= _) _ => destruct c eqn:?
  | |- parses _ _ _ ((match ?o with _ => _ end) ≫= _) _ => destruct o eqn:?
  | |- parses _ _ _ (opt _ ≫= _) _ => eapply parses_opt_bind; [known|intros ? ?|]
  | |- parses _ _ _ (opt_is_some _ ≫= _) _ => eapply parses_opt_is_some_bind; [known| |]
  | |- parses _ _ _ (_ ≫= _) _ =>
      first [eapply parses_seq_strict; [known|intros ? ?] | eapply parses_seq; [known|intros ? ?]]
  | |- parses _ _ _ (if ?c then _ else _) _ => destruct c eqn:?
  | |- parses _ _ _ (match ?o with _ => _ end) _ => destruct o eqn:?
  end.
Ltac parsing :=
  repeat (parsing_step; cbn beta in *); try (lazymatch goal with |- parses _ _ _ _ _ => known | _ => done end).
