(* ===== verification/ScriptExpressions.v ===== *)
(** The expressions of linker scripts, as text: [parse_expression] of
    [libjdxld/src/linker_script.rs] and what it calls.

    The parser is a recursive descent with one function per level of precedence.  The
    recursion through parentheses, the branches of [?:] and the arguments of functions has
    fuel, and so have the loops; one more than the length of the input is enough
    ([parse_expression_total]).  [print] writes an expression with the parentheses that the
    levels ask for, and [parse_print] reads it back. *)
From Stdlib Require Import ZArith Lia.
From stdpp Require Import base list list_numbers numbers strings option.
From S2P Require Import Prelude Parsers Expressions.

Local Open Scope Z_scope.

Definition is_ascii_alphabetic (b : Z) : bool := ((65 <=? b) && (b <=? 90)) || ((97 <=? b) && (b <=? 122)).
Definition is_ascii_alphanumeric (b : Z) : bool := is_ascii_alphabetic b || is_digit b.

(** The bytes of an identifier, and those it may start with: [_] and [.] are in both. *)
Definition ident_byte (b : Z) : bool := is_ascii_alphanumeric b || (b =? 95) || (b =? 46).
Definition ident_start (b : Z) : bool := is_ascii_alphabetic b || (b =? 95) || (b =? 46).

Definition first_byte (p : Z -> bool) (s : list Z) : bool := match s with b :: _ => p b | [] => false end.

(** The bytes that end a token: space, [(){};,], newline and tab. *)
Definition token_byte (b : Z) : bool := bool_decide (b ∉ [32; 40; 41; 123; 125; 59; 44; 10; 9]).

Inductive CompOp := CompLessThan | CompGreaterThan | CompLessEqual | CompGreaterEqual | CompEqual | CompNotEqual.
Inductive ShiftOp := ShiftLeft | ShiftRight.
Inductive AddOp := AddOpAdd | AddOpSubtract.
Inductive MulOp := MulOpMultiply | MulOpDivide | MulOpModulo.

Definition segment_name_from_bytes (name : list Z) : SegmentName :=
  if bool_decide (name = txt "text") then Text
  else if bool_decide (name = txt "rodata") then Rodata
  else if bool_decide (name = txt "data") then Data
  else if bool_decide (name = txt "bss") then Bss
  else OtherSegment.

Section Parser.
Context {W : Winnow}.

(** ** Tokens and comments *)
Definition parse_token : parser (list Z) :=
  input ← get_input;
  if starts_with [34] input then
    literal [34];;
    content ← take_until 0 [34];
    literal [34];;
    mret content
  else take_while 1 token_byte.

Fixpoint skip_comments_and_whitespace (n : nat) : parser unit :=
  match n with
  | O => no_fuel
  | S n =>
      multispace0;;
      input ← get_input;
      if starts_with (txt "#") input then
        take_until 1 [10];;
        skip_comments_and_whitespace n
      else if starts_with (txt "/*") input then
        map_err "Unclosed comment" (take_until 1 (txt "*/"));;
        literal (txt "*/");;
        skip_comments_and_whitespace n
      else mret tt
  end.

(** ** Expressions *)
(** The loop of the left-associative levels:
    [while let Some(op) = opt(op).parse_next(input)? { .. }]. *)
Fixpoint binary_operators {Op} (n : nat) (op : parser Op) (apply : Op -> Expression -> Expression -> Expression)
    (operand : parser Expression) (left : Expression) : parser Expression :=
  match n with
  | O => no_fuel
  | S n =>
      o ← opt op;
      match o with
      | Some o =>
          multispace0;;
          right ← operand;
          multispace0;;
          binary_operators n op apply operand (apply o left right)
      | None => mret left
      end
  end.

Definition binary_level {Op} (n : nat) (op : parser Op) (apply : Op -> Expression -> Expression -> Expression)
    (operand : parser Expression) : parser Expression :=
  left ← operand;
  multispace0;;
  binary_operators n op apply operand left.

Definition parse_function_arg : parser (list Z) :=
  literal (txt "(");;
  multispace0;;
  arg ← verify (first_byte ident_start) (take_while 1 ident_byte);
  multispace0;;
  literal (txt ")");;
  mret arg.

Definition parse_number_with_suffix : parser Expression :=
  base_number ← alt [alt [literal (txt "0x"); literal (txt "0X")];; hex_uint; dec_uint];
  suffix ← opt (one_of (fun b => bool_decide (b ∈ txt "KkMm")));
  mret (Number
    match suffix with
    | Some b => if bool_decide (b ∈ txt "Kk") then wmul 64 base_number 1024 else wmul 64 base_number (1024 * 1024)
    | None => base_number
    end).

(** The functions below call [parse_expression] and loop at most [n] times. *)
Section Levels.
Context (n : nat) (parse_expression : parser Expression).

Definition parse_assert : parser (Expression * list Z * list Z) :=
  remainder ← get_input;
  literal (txt "(");;
  skip_comments_and_whitespace n;;
  expression ← parse_expression;
  skip_comments_and_whitespace n;;
  literal (txt ",");;
  skip_comments_and_whitespace n;;
  message ← parse_token;
  skip_comments_and_whitespace n;;
  literal (txt ")");;
  skip_comments_and_whitespace n;;
  mret (expression, message, remainder).

(** [ALIGN(e)] and [ALIGN(e, exponent)]. *)
Definition parse_align : parser Expression :=
  literal (txt "(");;
  arg_0 ← parse_expression;
  multispace0;;
  comma ← opt_is_some (literal (txt ","));
  arg_1 ← (if comma : bool then
      multispace0;;
      arg_1 ← parse_expression;
      multispace0;;
      mret (Some arg_1)
    else mret None);
  literal (txt ")");;
  mret match arg_1 with Some arg_1 => AlignOf arg_1 arg_0 | None => Align arg_0 end.

(** The two arguments of [MIN] and [MAX]. *)
Definition parse_two : parser (Expression * Expression) :=
  literal (txt "(");;
  first ← parse_expression;
  multispace0;;
  literal (txt ",");;
  multispace0;;
  second ← parse_expression;
  multispace0;;
  literal (txt ")");;
  mret (first, second).

Definition parse_segment_start : parser Expression :=
  literal (txt "(");;
  multispace0;;
  literal [34];;
  name ← verify (fun s => negb (bool_decide (s = []))) (take_while 1 (fun b => negb (b =? 34)));
  literal [34];;
  multispace0;;
  literal (txt ",");;
  multispace0;;
  default_expr ← parse_expression;
  multispace0;;
  literal (txt ")");;
  mret (SegmentStart (segment_name_from_bytes name) default_expr).

(** The arms of [match ident]. *)
Definition parse_function (ident : list Z) : parser Expression :=
  if bool_decide (ident = txt "SIZEOF") then arg ← parse_function_arg; mret (Sizeof arg)
  else if bool_decide (ident = txt "ALIGNOF") then arg ← parse_function_arg; mret (Alignof arg)
  else if bool_decide (ident = txt "ADDR") then arg ← parse_function_arg; mret (Addr arg)
  else if bool_decide (ident = txt "ORIGIN") then arg ← parse_function_arg; mret (Origin arg)
  else if bool_decide (ident = txt "LENGTH") then arg ← parse_function_arg; mret (Length arg)
  else if bool_decide (ident = txt "LOADADDR") then arg ← parse_function_arg; mret (Loadaddr arg)
  else if bool_decide (ident = txt "ALIGN") then parse_align
  else if bool_decide (ident = txt "MIN") then '(first, second) ← parse_two; mret (Min first second)
  else if bool_decide (ident = txt "MAX") then '(first, second) ← parse_two; mret (Max first second)
  else if bool_decide (ident = txt "SEGMENT_START") then parse_segment_start
  else if bool_decide (ident = txt "DEFINED") then symbol ← parse_function_arg; mret (Defined_ symbol)
  else if bool_decide (ident = txt "ASSERT") then '(e, message, remainder) ← parse_assert; mret (Assert e message remainder)
  else fail mismatch.

Definition parse_identifier_or_function : parser Expression :=
  ident ← verify (first_byte ident_start) (take_while 1 ident_byte);
  if bool_decide (ident = txt ".") then mret LocationCounter else
  multispace0;;
  input ← get_input;
  if starts_with (txt "(") input then
    multispace0;;
    parse_function ident
  else if bool_decide (ident = txt "SIZEOF_HEADERS") then mret SizeofHeaders
  else mret (Symbol ident).

Definition parse_primary : parser Expression :=
  multispace0;;
  alt [literal (txt "(");; e ← parse_expression; literal (txt ")");; mret e;
       parse_number_with_suffix;
       parse_identifier_or_function].

Fixpoint parse_unary (n : nat) : parser Expression :=
  match n with
  | O => no_fuel
  | S n =>
      multispace0;;
      not ← opt_is_some (literal (txt "!");; not_ (literal (txt "=")));
      if not : bool then operand ← parse_unary n; mret (LogicalNot operand) else
      complement ← opt_is_some (literal (txt "~"));
      if complement : bool then operand ← parse_unary n; mret (BitwiseNot operand) else
      minus ← opt_is_some (literal (txt "-"));
      if minus : bool then operand ← parse_unary n; mret (Negate operand) else
      parse_primary
  end.

Definition parse_multiplicative : parser Expression :=
  binary_level n (alt [value MulOpMultiply (literal (txt "*")); value MulOpDivide (literal (txt "/")); value MulOpModulo (literal (txt "%"))])
    (fun op => match op with MulOpMultiply => Multiply | MulOpDivide => Divide | MulOpModulo => Modulo end) (parse_unary n).

Definition parse_additive : parser Expression :=
  binary_level n (alt [value AddOpAdd (literal (txt "+")); value AddOpSubtract (literal (txt "-"))])
    (fun op => match op with AddOpAdd => Add | AddOpSubtract => Subtract end) parse_multiplicative.

Definition parse_shift : parser Expression :=
  binary_level n (alt [value ShiftLeft (literal (txt "<<")); value ShiftRight (literal (txt ">>"))])
    (fun op => match op with ShiftLeft => LeftShift | ShiftRight => RightShift end) parse_additive.

Definition parse_bitwise_and : parser Expression :=
  binary_level n (literal (txt "&");; not_ (literal (txt "&"))) (fun _ => BitwiseAnd) parse_shift.

Definition parse_bitwise_xor : parser Expression :=
  binary_level n (literal (txt "^")) (fun _ => BitwiseXor) parse_bitwise_and.

Definition parse_bitwise_or : parser Expression :=
  binary_level n (literal (txt "|");; not_ (literal (txt "|"))) (fun _ => BitwiseOr) parse_bitwise_xor.

(** Comparisons do not chain. *)
Definition parse_comparison : parser Expression :=
  left ← parse_bitwise_or;
  multispace0;;
  op ← opt (alt [value CompLessEqual (literal (txt "<=")); value CompGreaterEqual (literal (txt ">="));
                 value CompEqual (literal (txt "==")); value CompNotEqual (literal (txt "!="));
                 value CompLessThan (literal (txt "<")); value CompGreaterThan (literal (txt ">"))]);
  match op with
  | Some op =>
      multispace0;;
      right ← parse_bitwise_or;
      multispace0;;
      mret match op with
        | CompLessThan => LessThan left right
        | CompGreaterThan => GreaterThan left right
        | CompLessEqual => LessEqual left right
        | CompGreaterEqual => GreaterEqual left right
        | CompEqual => Equal left right
        | CompNotEqual => NotEqual left right
        end
  | None => mret left
  end.

Definition parse_logical_and : parser Expression :=
  binary_level n (literal (txt "&&")) (fun _ => LogicalAnd) parse_comparison.

Definition parse_logical_or : parser Expression :=
  binary_level n (literal (txt "||")) (fun _ => LogicalOr) parse_logical_and.

(** [parse_expression] is [parse_ternary]. *)
Definition parse_ternary : parser Expression :=
  left ← parse_logical_or;
  multispace0;;
  question ← opt_is_some (literal (txt "?"));
  if question : bool then
    multispace0;;
    true_expr ← parse_expression;
    multispace0;;
    literal (txt ":");;
    multispace0;;
    false_expr ← parse_expression;
    multispace0;;
    mret (Ternary left true_expr false_expr)
  else mret left.
End Levels.

Fixpoint parse_expression (fuel : nat) : parser Expression :=
  match fuel with
  | O => no_fuel
  | S n => parse_ternary (S n) (parse_expression n)
  end.

(** The parser of a level: 0 is [?:], 10 the unary operators. *)
Definition parse_level (k n : nat) (p : parser Expression) : parser Expression :=
  match k with
  | 0 => parse_ternary n p
  | 1 => parse_logical_or n p
  | 2 => parse_logical_and n p
  | 3 => parse_comparison n p
  | 4 => parse_bitwise_or n p
  | 5 => parse_bitwise_xor n p
  | 6 => parse_bitwise_and n p
  | 7 => parse_shift n p
  | 8 => parse_additive n p
  | 9 => parse_multiplicative n p
  | _ => parse_unary n p n
  end%nat.
End Parser.


(** ** What the parser returns *)
Definition identifier (s : list Z) : bool := first_byte ident_start s && forallb ident_byte s.

(** Text that [parse_token] can return, and the message of an [ASSERT]. *)
Definition is_token (s : list Z) : bool :=
  forallb (fun b => negb (b =? 34)) s || (first_byte (fun b => negb (b =? 34)) s && forallb token_byte s).

Fixpoint well_formed_with (message_ok : list Z -> bool) (e : Expression) : bool :=
  let well_formed := well_formed_with message_ok in
  match e with
  | Number n => bool_decide (in_u 64 n)
  | Symbol s => identifier s && negb (bool_decide (s = txt ".")) && negb (bool_decide (s = txt "SIZEOF_HEADERS"))
  | Sizeof s | Alignof s | Origin s | Length s | Addr s | Loadaddr s | Defined_ s => identifier s
  | LocationCounter | SizeofHeaders => true
  | Add l r | Subtract l r | Multiply l r | Divide l r | Modulo l r
  | LessThan l r | GreaterThan l r | LessEqual l r | GreaterEqual l r | Equal l r | NotEqual l r
  | BitwiseAnd l r | BitwiseOr l r | BitwiseXor l r | LeftShift l r | RightShift l r
  | LogicalAnd l r | LogicalOr l r | Min l r | Max l r | AlignOf l r => well_formed l && well_formed r
  | Align e | LogicalNot e | BitwiseNot e | Negate e | SegmentStart _ e => well_formed e
  | Ternary a b c => well_formed a && well_formed b && well_formed c
  | Assert e message _ => well_formed e && message_ok message
  end.

Definition well_formed : Expression -> bool := well_formed_with is_token.

Section Total.
Context {W : Winnow} {L : WinnowLaws W}.

Lemma parses_zero {A} (P : A -> Prop) s p q : parses P s 0 p q.
Proof. intros l H. lia. Qed.

Lemma parses_skip n : forall k m, (k <= n)%nat -> (k <= m)%nat ->
  parses (fun _ => True) false k (skip_comments_and_whitespace n) (skip_comments_and_whitespace m).
Proof.
  induction n as [|n IH]; intros k m Hn Hm; [replace k with 0%nat by lia; apply parses_zero|].
  destruct m as [|m]; [replace k with 0%nat by lia; apply parses_zero|]. cbn [skip_comments_and_whitespace].
  parsing; apply IH; lia.
Qed.

Lemma identifier_intro s : Forall (fun b => ident_byte b = true) s -> first_byte ident_start s = true -> identifier s = true.
Proof. intros H1 H2. unfold identifier. by rewrite H2, (proj2 (forallb_iff _ _) H1). Qed.

Lemma parses_quoted n : parses (fun m => forallb (fun b => negb (b =? 34)) m = true) true n
  (literal [34];; content ← take_until 0 [34]; literal [34];; mret content) (literal [34];; content ← take_until 0 [34]; literal [34];; mret content).
Proof. parsing. destruct H0 as (_ & r & Hr). pose proof Hr as [r' ->]%find_slice_cons. by apply (find_slice_byte _ _ r'). Qed.

Lemma parses_token n : parses (fun m => is_token m = true) true n parse_token parse_token.
Proof.
  intros l Hl. split; [done|]. change (parse_token l) with ((if starts_with [34] l then literal [34];; content ← take_until 0 [34]; literal [34];; mret content else take_while 1 token_byte) l).
  unfold is_token. destruct (starts_with [34] l) eqn:E.
  - destruct (parses_quoted n l Hl) as [_ H]. match goal with |- match ?x with _ => _ end => destruct x as [[[m r]| |]|]; try done end.
    destruct H as [-> H]. done.
  - rewrite take_while_law. pose proof (run_of_spec token_byte l) as Hr. destruct (run_of token_byte l) as [tok r].
    destruct Hr as (-> & Hf & _). destruct tok as [|b tok]; [done|]. cbn [at_least length Nat.leb fst expect]. split; [|by exists (b :: tok)].
    rewrite (proj2 (forallb_iff _ _) Hf), andb_true_r. apply orb_true_iff. right. apply negb_true_iff, Z.eqb_neq. intros ->.
    apply not_true_iff_false in E. apply E, starts_with_spec. by exists (tok ++ r).
Qed.

Lemma parses_function_arg n : parses (fun s => identifier s = true) true n parse_function_arg parse_function_arg.
Proof. unfold parse_function_arg. parsing. apply identifier_intro; tauto. Qed.

Definition wf (e : Expression) : Prop := well_formed e = true.

Lemma parses_hex n : parses (in_u 64) true n (alt [literal (txt "0x"); literal (txt "0X")];; hex_uint) (alt [literal (txt "0x"); literal (txt "0X")];; hex_uint).
Proof. eapply (parses_seq_strict (fun _ => True)); [known|]. intros ? _. eapply parses_weaken; [known|..]; auto; lia. Qed.
#[local] Hint Resolve parses_skip parses_token parses_function_arg parses_hex : parses.

Lemma parses_number n : parses wf true n parse_number_with_suffix parse_number_with_suffix.
Proof.
  unfold parse_number_with_suffix. eapply (parses_seq_strict (in_u 64)); [known|]. intros k Hk.
  parsing; apply bool_decide_eq_true; repeat case_match; try done; apply wrap_range; lia.
Qed.

Section Binary.
Context {Op : Type} (op : parser Op) (apply : Op -> Expression -> Expression -> Expression) (P : Expression -> Prop).
Hypothesis op_parses : forall k, parses (fun _ => True) true k op op.
Hypothesis apply_wf : forall o l r, P l -> P r -> P (apply o l r).

Lemma parses_binary_operators p q n : forall m k left, (k <= n)%nat -> (k <= m)%nat -> parses P true k p q -> P left ->
  parses P false k (binary_operators n op apply p left) (binary_operators m op apply q left).
Proof.
  induction n as [|n IH]; intros m k left Hn Hm Hp Hl; [replace k with 0%nat by lia; apply parses_zero|].
  destruct m as [|m]; [replace k with 0%nat by lia; apply parses_zero|]. cbn [binary_operators].
  eapply parses_opt_bind; [apply op_parses|intros o _|by apply parses_ret]. parsing.
Qed.

Lemma parses_binary_level p q n m k : (k <= n)%nat -> (k <= m)%nat -> parses P true k p q ->
  parses P true k (binary_level n op apply p) (binary_level m op apply q).
Proof.
  intros Hn Hm Hp. unfold binary_level. parsing. apply parses_binary_operators; [lia|lia| |done].
  eapply parses_weaken; [exact Hp|..]; auto; lia.
Qed.
End Binary.

(** ** Every level *)
Section Levels.
Context (n m k : nat) (p q : parser Expression).
Hypothesis Hn : (S k <= n)%nat.
Hypothesis Hm : (S k <= m)%nat.
Hypothesis Hp : parses wf true k p q.

Lemma parses_assert s j : (j <= S k)%nat ->
  parses (fun '(e, message, _) => wf e /\ is_token message = true) s j (parse_assert n p) (parse_assert m q).
Proof. intros Hj. unfold parse_assert. by parsing. Qed.

Lemma parses_align s j : (j <= S k)%nat -> parses wf s j (parse_align p) (parse_align q).
Proof. intros Hj. unfold parse_align. parsing; apply andb_true_iff; auto. Qed.

Lemma parses_two s j : (j <= S k)%nat -> parses (fun '(e, f) => wf e /\ wf f) s j (parse_two p) (parse_two q).
Proof. intros Hj. unfold parse_two. by parsing. Qed.

Lemma parses_segment_start s j : (j <= S k)%nat -> parses wf s j (parse_segment_start p) (parse_segment_start q).
Proof. intros Hj. unfold parse_segment_start. by parsing. Qed.
#[local] Hint Resolve parses_number parses_assert parses_align parses_two parses_segment_start : parses.

Lemma parses_function ident s j : (j <= S k)%nat -> parses wf s j (parse_function n p ident) (parse_function m q ident).
Proof. intros Hj. unfold parse_function. parsing. all: by apply andb_true_iff. Qed.
#[local] Hint Resolve parses_function : parses.

Lemma parses_identifier_or_function : parses wf true (S k) (parse_identifier_or_function n p) (parse_identifier_or_function m q).
Proof.
  unfold parse_identifier_or_function. parsing.
  unfold wf, well_formed; cbn [well_formed_with]. rewrite identifier_intro by tauto. by rewrite Heqb, Heqb1.
Qed.

Lemma parses_primary : parses wf true (S k) (parse_primary n p) (parse_primary m q).
Proof.
  unfold parse_primary. eapply parses_seq; [known|]. intros ? _. eapply parses_alt; [|done].
  repeat apply Forall2_cons_2; [by parsing|known| |constructor]. apply parses_identifier_or_function.
Qed.

Lemma parses_unary u : forall v j, (j <= S k)%nat -> (j <= u)%nat -> (j <= v)%nat ->
  parses wf true j (parse_unary n p u) (parse_unary m q v).
Proof.
  pose proof parses_primary as Hprim.
  induction u as [|u IH]; intros v j Hj Hu Hv; [replace j with 0%nat by lia; apply parses_zero|].
  destruct v as [|v]; [replace j with 0%nat by lia; apply parses_zero|]. cbn [parse_unary].
  parsing.
Qed.

#[local] Hint Extern 1 (parses _ _ _ (binary_level _ _ _ _) _) =>
  eapply parses_binary_level; [intros ?; known|by intros; repeat case_match; apply andb_true_iff|lia|lia|] : parses.
Lemma parses_multiplicative : parses wf true (S k) (parse_multiplicative n p) (parse_multiplicative m q).
Proof. unfold parse_multiplicative. pose proof (parses_unary n m (S k)). known. Qed.
#[local] Hint Resolve parses_multiplicative : parses.

Lemma parses_bitwise_or : parses wf true (S k) (parse_bitwise_or n p) (parse_bitwise_or m q).
Proof. unfold parse_bitwise_or, parse_bitwise_xor, parse_bitwise_and, parse_shift, parse_additive. known. Qed.

Lemma parses_comparison : parses wf true (S k) (parse_comparison n p) (parse_comparison m q).
Proof.
  pose proof parses_bitwise_or. unfold parse_comparison. parsing.
  all: unfold wf in *; case_match; by apply andb_true_iff.
Qed.
#[local] Hint Resolve parses_comparison : parses.

Lemma parses_logical_or : parses wf true (S k) (parse_logical_or n p) (parse_logical_or m q).
Proof. unfold parse_logical_or, parse_logical_and. known. Qed.
#[local] Hint Resolve parses_logical_or : parses.

Lemma parses_ternary : parses wf true (S k) (parse_ternary n p) (parse_ternary m q).
Proof. unfold parse_ternary. parsing. unfold wf, well_formed in *; cbn. by repeat (apply andb_true_iff; split). Qed.

Lemma parses_level l : parses wf true (S k) (parse_level l n p) (parse_level l m q).
Proof.
  pose proof (parses_unary n m (S k)) as Hu. pose proof parses_ternary. pose proof parses_bitwise_or.
  destruct l as [|[|[|[|[|[|[|[|[|[|l]]]]]]]]]]; cbn [parse_level]; auto using parses_logical_or, parses_comparison, parses_multiplicative.
  all: unfold parse_logical_and, parse_bitwise_or, parse_bitwise_xor, parse_bitwise_and, parse_shift, parse_additive; known.
Qed.
End Levels.

Lemma parses_expression n : forall m k, (k <= n)%nat -> (k <= m)%nat -> parses wf true k (parse_expression n) (parse_expression m).
Proof.
  induction n as [|n IH]; intros m k Hn Hm; [replace k with 0%nat by lia; apply parses_zero|].
  destruct m as [|m]; [replace k with 0%nat by lia; apply parses_zero|]. destruct k as [|k]; [apply parses_zero|].
  apply parses_ternary; [lia|lia|]. apply IH; lia.
Qed.

(** C20. With more fuel than the input is long, [parse_expression] ends without a panic and its
    result does not depend on the fuel.  An expression it returns is well formed, and the
    input that is left is a proper suffix. *)
Theorem parse_expression_total l n m : (length l < n)%nat -> (length l < m)%nat ->
  parse_expression n l = parse_expression m l /\
  match parse_expression n l with
  | Done (Ok (e, rest)) => well_formed e = true /\ exists tok, l = tok ++ rest /\ tok <> []
  | Done (Err _) => True
  | _ => False
  end.
Proof.
  intros Hn Hm. destruct (parses_expression n m (S (length l)) ltac:(lia) ltac:(lia) l ltac:(lia)) as [Heq H]. split; [done|].
  destruct (parse_expression n l) as [[[e r]| |]|]; try done. destruct H as [He (tok & -> & Ht)]. split; [done|]. exists tok. auto.
Qed.
End Total.

#[export] Hint Resolve parses_skip parses_token parses_expression : parses.

Module Example.
Definition run (s : String.string) : outcome (Expression * list Z) := parse_expression (S (length (txt s))) (txt s).

(** The precedence of the operators, as the tests of the code have it. *)
Example bitwise_binds_tighter : run "0xFF & 0x0F == 0x0F" =
  Done (Ok (Equal (BitwiseAnd (Number 255) (Number 15)) (Number 15), [])).
Proof. by vm_compute. Qed.

Example comparisons_do_not_chain : run "a < b < c" = Done (Ok (LessThan (Symbol (txt "a")) (Symbol (txt "b")), txt "< c")).
Proof. by vm_compute. Qed.

Example suffix : run "4M)" = Done (Ok (Number 4194304, txt ")")).
Proof. by vm_compute. Qed.

Example unclosed_call : run "MIN(1, 2" = Done (Err mismatch).
Proof. by vm_compute. Qed.

Definition text : list Z := txt "a + MIN(1, 2) ? b : -c ;".
End Example.

Lemma parse_expression_total_witness : (length Example.text < 25)%nat /\ (length Example.text < 100)%nat /\
  parse_expression 25 Example.text = parse_expression 100 Example.text.
Proof.
  split; [apply Nat.ltb_lt; vm_compute; reflexivity|]. split; [apply Nat.ltb_lt; vm_compute; reflexivity|].
  exact (proj1 (parse_expression_total (W := reference) Example.text 25 100
    (proj1 (Nat.ltb_lt (length Example.text) 25) eq_refl) (proj1 (Nat.ltb_lt (length Example.text) 100) eq_refl))).
Defined.
