(* ===== verification/ScriptPrint.v ===== *)
(** Printing of linker-script expressions, and the round trip through [parse_expression].

    [print k e] is the text of [e] as an operand of level [k]: it has parentheses when the
    operator of [e] binds less than level [k].  [parse_print] shows that the parser reads the
    text back, which fixes the precedence and the associativity of every operator. *)
From Stdlib Require Import ZArith Lia.
From stdpp Require Import base list list_numbers numbers strings option.
From S2P Require Import Prelude Parsers Expressions ScriptExpressions.

Local Open Scope Z_scope.

(** ** Printing *)
Inductive binary :=
| BLogicalOr | BLogicalAnd
| BLessThan | BGreaterThan | BLessEqual | BGreaterEqual | BEqual | BNotEqual
| BBitwiseOr | BBitwiseXor | BBitwiseAnd | BLeftShift | BRightShift
| BAdd | BSubtract | BMultiply | BDivide | BModulo.

(** The levels are numbered from 0, [?:], to 10, the unary operators; comparisons have level 3. *)
Definition level (b : binary) : nat :=
  match b with
  | BLogicalOr => 1
  | BLogicalAnd => 2
  | BLessThan | BGreaterThan | BLessEqual | BGreaterEqual | BEqual | BNotEqual => 3
  | BBitwiseOr => 4
  | BBitwiseXor => 5
  | BBitwiseAnd => 6
  | BLeftShift | BRightShift => 7
  | BAdd | BSubtract => 8
  | BMultiply | BDivide | BModulo => 9
  end.

Definition symbol (b : binary) : list Z :=
  txt match b with
  | BLogicalOr => "||" | BLogicalAnd => "&&"
  | BLessThan => "<" | BGreaterThan => ">" | BLessEqual => "<=" | BGreaterEqual => ">=" | BEqual => "==" | BNotEqual => "!="
  | BBitwiseOr => "|" | BBitwiseXor => "^" | BBitwiseAnd => "&" | BLeftShift => "<<" | BRightShift => ">>"
  | BAdd => "+" | BSubtract => "-" | BMultiply => "*" | BDivide => "/" | BModulo => "%"
  end.

Definition build (b : binary) : Expression -> Expression -> Expression :=
  match b with
  | BLogicalOr => LogicalOr | BLogicalAnd => LogicalAnd
  | BLessThan => LessThan | BGreaterThan => GreaterThan | BLessEqual => LessEqual | BGreaterEqual => GreaterEqual
  | BEqual => Equal | BNotEqual => NotEqual
  | BBitwiseOr => BitwiseOr | BBitwiseXor => BitwiseXor | BBitwiseAnd => BitwiseAnd | BLeftShift => LeftShift | BRightShift => RightShift
  | BAdd => Add | BSubtract => Subtract | BMultiply => Multiply | BDivide => Divide | BModulo => Modulo
  end.

Definition parens (k l : nat) (s : list Z) : list Z := if (l <? k)%nat then txt "(" ++ s ++ txt ")" else s.

(** Binary operators associate to the left, comparisons not at all. *)
Definition print_binary (print : nat -> Expression -> list Z) (k : nat) (b : binary) (l r : Expression) : list Z :=
  parens k (level b) (print (if (level b =? 3)%nat then 4%nat else level b) l ++ symbol b ++ print (S (level b)) r).

Definition call (name : String.string) (args : list Z) : list Z := txt name ++ txt "(" ++ args ++ txt ")".

Definition segment_text (name : SegmentName) : list Z :=
  txt match name with Text => "text" | Rodata => "rodata" | Data => "data" | Bss => "bss" | OtherSegment => "other" end.

Definition print_token (s : list Z) : list Z := [34] ++ s ++ [34].

Fixpoint print (k : nat) (e : Expression) : list Z :=
  match e with
  | Number n => decimal n
  | Symbol s => s
  | LocationCounter => txt "."
  | LogicalOr l r => print_binary print k BLogicalOr l r
  | LogicalAnd l r => print_binary print k BLogicalAnd l r
  | LessThan l r => print_binary print k BLessThan l r
  | GreaterThan l r => print_binary print k BGreaterThan l r
  | LessEqual l r => print_binary print k BLessEqual l r
  | GreaterEqual l r => print_binary print k BGreaterEqual l r
  | Equal l r => print_binary print k BEqual l r
  | NotEqual l r => print_binary print k BNotEqual l r
  | BitwiseOr l r => print_binary print k BBitwiseOr l r
  | BitwiseXor l r => print_binary print k BBitwiseXor l r
  | BitwiseAnd l r => print_binary print k BBitwiseAnd l r
  | LeftShift l r => print_binary print k BLeftShift l r
  | RightShift l r => print_binary print k BRightShift l r
  | Add l r => print_binary print k BAdd l r
  | Subtract l r => print_binary print k BSubtract l r
  | Multiply l r => print_binary print k BMultiply l r
  | Divide l r => print_binary print k BDivide l r
  | Modulo l r => print_binary print k BModulo l r
  | LogicalNot e => txt "!" ++ print 10 e
  | BitwiseNot e => txt "~" ++ print 10 e
  | Negate e => txt "-" ++ print 10 e
  | Ternary a b c => parens k 0 (print 1 a ++ txt "?" ++ print 0 b ++ txt ":" ++ print 0 c)
  | Sizeof s => call "SIZEOF" s
  | Alignof s => call "ALIGNOF" s
  | Origin s => call "ORIGIN" s
  | Length s => call "LENGTH" s
  | Addr s => call "ADDR" s
  | Loadaddr s => call "LOADADDR" s
  | Defined_ s => call "DEFINED" s
  | SizeofHeaders => txt "SIZEOF_HEADERS"
  | Align e => call "ALIGN" (print 0 e)
  | AlignOf exponent e => call "ALIGN" (print 0 e ++ txt "," ++ print 0 exponent)
  | Min l r => call "MIN" (print 0 l ++ txt "," ++ print 0 r)
  | Max l r => call "MAX" (print 0 l ++ txt "," ++ print 0 r)
  | SegmentStart name e => call "SEGMENT_START" ([34] ++ segment_text name ++ [34] ++ txt "," ++ print 0 e)
  | Assert e message _ => call "ASSERT" (print 0 e ++ txt "," ++ print_token message)
  end.

(** Equality of the code: the input noted in an [AssertCommand] does not count. *)
Fixpoint erase (e : Expression) : Expression :=
  match e with
  | Number n => Number n
  | Symbol s => Symbol s
  | LocationCounter => LocationCounter
  | LogicalOr l r => LogicalOr (erase l) (erase r)
  | LogicalAnd l r => LogicalAnd (erase l) (erase r)
  | LessThan l r => LessThan (erase l) (erase r)
  | GreaterThan l r => GreaterThan (erase l) (erase r)
  | LessEqual l r => LessEqual (erase l) (erase r)
  | GreaterEqual l r => GreaterEqual (erase l) (erase r)
  | Equal l r => Equal (erase l) (erase r)
  | NotEqual l r => NotEqual (erase l) (erase r)
  | BitwiseOr l r => BitwiseOr (erase l) (erase r)
  | BitwiseXor l r => BitwiseXor (erase l) (erase r)
  | BitwiseAnd l r => BitwiseAnd (erase l) (erase r)
  | LeftShift l r => LeftShift (erase l) (erase r)
  | RightShift l r => RightShift (erase l) (erase r)
  | Add l r => Add (erase l) (erase r)
  | Subtract l r => Subtract (erase l) (erase r)
  | Multiply l r => Multiply (erase l) (erase r)
  | Divide l r => Divide (erase l) (erase r)
  | Modulo l r => Modulo (erase l) (erase r)
  | LogicalNot e => LogicalNot (erase e)
  | BitwiseNot e => BitwiseNot (erase e)
  | Negate e => Negate (erase e)
  | Ternary a b c => Ternary (erase a) (erase b) (erase c)
  | Sizeof s => Sizeof s
  | Alignof s => Alignof s
  | Origin s => Origin s
  | Length s => Length s
  | Addr s => Addr s
  | Loadaddr s => Loadaddr s
  | Defined_ s => Defined_ s
  | SizeofHeaders => SizeofHeaders
  | Align e => Align (erase e)
  | AlignOf exponent e => AlignOf (erase exponent) (erase e)
  | Min l r => Min (erase l) (erase r)
  | Max l r => Max (erase l) (erase r)
  | SegmentStart name e => SegmentStart name (erase e)
  | Assert e message _ => Assert (erase e) message []
  end.

(** Messages are printed in quotes. *)
Definition no_quote (s : list Z) : bool := forallb (fun b => negb (b =? 34)) s.
Definition printable : Expression -> bool := well_formed_with no_quote.

Ltac unfold_printable H := unfold printable in H; cbn [well_formed_with] in H; change (well_formed_with no_quote) with printable in H.

(** The operator of an expression. *)
Definition level_of (e : Expression) : nat :=
  match e with
  | Ternary _ _ _ => 0
  | LogicalOr _ _ => 1
  | LogicalAnd _ _ => 2
  | LessThan _ _ | GreaterThan _ _ | LessEqual _ _ | GreaterEqual _ _ | Equal _ _ | NotEqual _ _ => 3
  | BitwiseOr _ _ => 4
  | BitwiseXor _ _ => 5
  | BitwiseAnd _ _ => 6
  | LeftShift _ _ | RightShift _ _ => 7
  | Add _ _ | Subtract _ _ => 8
  | Multiply _ _ | Divide _ _ | Modulo _ _ => 9
  | _ => 10
  end.

Lemma level_of_build b l r : level_of (build b l r) = level b.
Proof. by destruct b. Qed.
Lemma print_build k b l r : print k (build b l r) = print_binary print k b l r.
Proof. by destruct b. Qed.
Lemma erase_build b l r : erase (build b l r) = build b (erase l) (erase r).
Proof. by destruct b. Qed.
Lemma printable_build b l r : printable (build b l r) = printable l && printable r.
Proof. by destruct b. Qed.

(** The operands of what is not a binary operator or [?:]. *)
Definition operands (e : Expression) : list Expression :=
  match e with
  | LogicalNot a | BitwiseNot a | Negate a | Align a | SegmentStart _ a | Assert a _ _ => [a]
  | AlignOf a b | Min a b | Max a b => [a; b]
  | _ => []
  end.

(** Induction that treats the binary operators alike. *)
Lemma expression_induction (P : Expression -> Prop) :
  (forall b l r, P l -> P r -> P (build b l r)) -> (forall a b c, P a -> P b -> P c -> P (Ternary a b c)) ->
  (forall e, level_of e = 10%nat -> Forall P (operands e) -> P e) -> forall e, P e.
Proof.
  intros Hb Ht Hp e.
  induction e; try (by apply Ht); try (by apply Hp; [done|cbn; repeat constructor]).
  all: match goal with
    | |- _ (LogicalOr _ _) => apply (Hb BLogicalOr) | |- _ (LogicalAnd _ _) => apply (Hb BLogicalAnd)
    | |- _ (LessThan _ _) => apply (Hb BLessThan) | |- _ (GreaterThan _ _) => apply (Hb BGreaterThan)
    | |- _ (LessEqual _ _) => apply (Hb BLessEqual) | |- _ (GreaterEqual _ _) => apply (Hb BGreaterEqual)
    | |- _ (Equal _ _) => apply (Hb BEqual) | |- _ (NotEqual _ _) => apply (Hb BNotEqual)
    | |- _ (BitwiseOr _ _) => apply (Hb BBitwiseOr) | |- _ (BitwiseXor _ _) => apply (Hb BBitwiseXor)
    | |- _ (BitwiseAnd _ _) => apply (Hb BBitwiseAnd) | |- _ (LeftShift _ _) => apply (Hb BLeftShift)
    | |- _ (RightShift _ _) => apply (Hb BRightShift) | |- _ (Add _ _) => apply (Hb BAdd) | |- _ (Subtract _ _) => apply (Hb BSubtract)
    | |- _ (Multiply _ _) => apply (Hb BMultiply) | |- _ (Divide _ _) => apply (Hb BDivide) | |- _ (Modulo _ _) => apply (Hb BModulo)
    end; done.
Qed.

Lemma print_parens k e : (k <= 10)%nat -> print k e = parens k (level_of e) (print 0 e).
Proof.
  intros Hk. assert (forall s, parens k 10 s = s) as H10. { intros s. unfold parens. by rewrite (proj2 (Nat.ltb_ge _ _)). }
  destruct e; cbn [level_of]; rewrite ?H10; done.
Qed.

(** ** First bytes *)
Definition operand_start (c : Z) : bool := ident_start c || is_digit c || bool_decide (c ∈ txt "(!~-").

Lemma print_start e : printable e = true -> forall k, exists c r, print k e = c :: r /\ operand_start c = true.
Proof.
  intros Hw k. revert Hw k. induction e as [b l r IHl IHr|x y z IH _ _|e He IH] using expression_induction; intros Hw k.
  - rewrite printable_build in Hw. apply andb_true_iff in Hw as [Hl _]. rewrite print_build. unfold print_binary, parens.
    destruct (level b <? k)%nat; [by eexists _, _|]. destruct (IHl Hl (if (level b =? 3)%nat then 4%nat else level b)) as (c & t & -> & Hc).
    by eexists _, _.
  - unfold_printable Hw. apply andb_true_iff in Hw as [[Hl _]%andb_true_iff _]. cbn. unfold parens. destruct (0 <? k)%nat; [by eexists _, _|].
    destruct (IH Hl 1%nat) as (c & t & -> & Hc). by eexists _, _.
  - destruct e; try done; try (by eexists _, _); cbn [print]; unfold_printable Hw.
    + apply bool_decide_eq_true in Hw. destruct (decimal_first n Hw) as (d & ds & -> & Hd). exists d, ds. split; [done|].
      unfold operand_start. by rewrite Hd, orb_true_r.
    + unfold identifier in Hw. rewrite !andb_true_iff in Hw. destruct Hw as [[[Hs _] _] _]. destruct name as [|c t]; [done|].
      exists c, t. split; [done|]. unfold operand_start. cbn in Hs. by rewrite Hs.
Qed.

(** ** What follows an operand of a level *)
Inductive follows : nat -> list Z -> Prop :=
| follows_end k : follows k []
| follows_stop k c r : c ∈ txt "),;:}" -> follows k (c :: r)
| follows_question k r : (1 <= k)%nat -> follows k (63 :: r)
| follows_binary k b c r : (level b < k)%nat -> operand_start c = true -> follows k (symbol b ++ c :: r).

Lemma follows_le k j l : follows k l -> (k <= j)%nat -> follows j l.
Proof. intros [] ?; [constructor|by constructor|constructor; lia|constructor; [lia|done]]. Qed.

Local Arguments Z.eqb !_ !_.

Lemma operand_start_facts c : operand_start c = true -> is_multispace c = false /\
  ((60 =? c) = false /\ (62 =? c) = false /\ (61 =? c) = false /\ (38 =? c) = false /\ (124 =? c) = false /\ (42 =? c) = false /\
   (63 =? c) = false /\ (35 =? c) = false).
Proof.
  intros H. assert (forall b, operand_start b = false -> (b =? c) = false) as Hne.
  { intros b Hb. apply Z.eqb_neq. intros ->. congruence. }
  split.
  - apply bool_decide_eq_false. intros Hin. repeat (apply elem_of_cons in Hin as [->|Hin]; [done|]). by apply elem_of_nil in Hin.
  - split_and!; by apply Hne.
Qed.

Lemma follows_first k l : follows k l ->
  match l with [] => True | c :: r => is_multispace c = false /\ ident_byte c = false /\ c <> 40 /\ c <> 35 end.
Proof.
  intros [|k' c r Hin| |k' b c r Hl Hc]; [done| |done|by destruct b].
  repeat (apply elem_of_cons in Hin as [->|Hin]; [done|]). by apply elem_of_nil in Hin.
Qed.

Lemma follows_no_comment k l : follows k l -> match l with
  | c :: r => (35 =? c) = false /\ ((47 =? c) = false \/ match r with d :: _ => (42 =? d) = false | [] => True end)
  | [] => True end.
Proof.
  intros [|k' c r Hin| |k' b c r Hl [_ Hc]%operand_start_facts]; [done| |by split; [|left]|].
  - repeat (apply elem_of_cons in Hin as [->|Hin]; [by split; [done|left]|]). by apply elem_of_nil in Hin.
  - destruct_and! Hc. destruct b; cbn; (split; [done|]); first [by left|by right].
Qed.

(** Evaluation of the parser of an operator on a text that starts with known bytes. *)
Ltac operators := repeat (rewrite ?alt_law, ?not_law, ?literal_law; unfold value, mbind, parser_bind; cbn;
  repeat match goal with H : (_ =? _) = false |- _ => rewrite H end); cbn.

Section RoundTrip.
Context {W : Winnow} {L : WinnowLaws W}.

Lemma bind_ok {A B} (p : parser A) (f : A -> parser B) l a r : p l = Done (Ok (a, r)) -> (p ≫= f) l = f a r.
Proof. intros H. unfold mbind, parser_bind. by rewrite H. Qed.

Lemma bind_err {A B} (p : parser A) (f : A -> parser B) l e : p l = Done (Err e) -> (p ≫= f) l = Done (Err e).
Proof. intros H. unfold mbind, parser_bind. by rewrite H. Qed.

Lemma literal_ok s r : literal s (s ++ r) = Done (Ok (s, r)).
Proof. by rewrite literal_law, strip_prefix_app. Qed.

Lemma literal_no b s c r : (b =? c) = false -> literal (b :: s) (c :: r) = Done (Err mismatch).
Proof. intros H. rewrite literal_law. cbn. by rewrite H. Qed.

Definition no_space (l : list Z) : Prop := match l with c :: _ => is_multispace c = false | [] => True end.

Lemma spaces_none l : no_space l -> multispace0 l = Done (Ok (tt, l)).
Proof. intros H. rewrite multispace0_law. destruct l as [|c l]; [done|]. cbn in *. by rewrite H. Qed.

Lemma spaces_bind {B} (f : unit -> parser B) l : no_space l -> (multispace0 ≫= f) l = f tt l.
Proof. intros H. by apply bind_ok, spaces_none. Qed.

Lemma follows_no_space k l : follows k l -> no_space l.
Proof. intros H%follows_first. destruct l; [done|]. by destruct H. Qed.

Lemma opt_some {A B} (p : parser A) (f : option A -> parser B) l a r : p l = Done (Ok (a, r)) -> (opt p ≫= f) l = f (Some a) r.
Proof. intros H. apply bind_ok. by rewrite opt_law, H. Qed.

Lemma opt_none {A B} (p : parser A) (f : option A -> parser B) l e : p l = Done (Err e) -> (opt p ≫= f) l = f None l.
Proof. intros H. apply bind_ok. by rewrite opt_law, H. Qed.

Lemma opt_is_some_true {A B} (p : parser A) (f : bool -> parser B) l a r : p l = Done (Ok (a, r)) -> (opt_is_some p ≫= f) l = f true r.
Proof. intros H. apply bind_ok. unfold opt_is_some. by rewrite (opt_some _ _ _ _ _ H). Qed.

Lemma opt_is_some_false {A B} (p : parser A) (f : bool -> parser B) l e : p l = Done (Err e) -> (opt_is_some p ≫= f) l = f false l.
Proof. intros H. apply bind_ok. unfold opt_is_some. by rewrite (opt_none _ _ _ _ H). Qed.

(** The loop of the levels that have one. *)
Definition loop (k n : nat) (p : parser Expression) (fuel : nat) (left : Expression) : parser Expression :=
  let operand := parse_level (S k) n p in
  match k with
  | 1 => binary_operators fuel (literal (txt "||")) (fun _ => LogicalOr) operand left
  | 2 => binary_operators fuel (literal (txt "&&")) (fun _ => LogicalAnd) operand left
  | 4 => binary_operators fuel (literal (txt "|");; not_ (literal (txt "|"))) (fun _ => BitwiseOr) operand left
  | 5 => binary_operators fuel (literal (txt "^")) (fun _ => BitwiseXor) operand left
  | 6 => binary_operators fuel (literal (txt "&");; not_ (literal (txt "&"))) (fun _ => BitwiseAnd) operand left
  | 7 => binary_operators fuel (alt [value ShiftLeft (literal (txt "<<")); value ShiftRight (literal (txt ">>"))])
           (fun op => match op with ShiftLeft => LeftShift | ShiftRight => RightShift end) operand left
  | 8 => binary_operators fuel (alt [value AddOpAdd (literal (txt "+")); value AddOpSubtract (literal (txt "-"))])
           (fun op => match op with AddOpAdd => Add | AddOpSubtract => Subtract end) operand left
  | 9 => binary_operators fuel (alt [value MulOpMultiply (literal (txt "*")); value MulOpDivide (literal (txt "/")); value MulOpModulo (literal (txt "%"))])
           (fun op => match op with MulOpMultiply => Multiply | MulOpDivide => Divide | MulOpModulo => Modulo end) operand left
  | _ => no_fuel
  end%nat.

Definition has_loop (k : nat) : Prop := (1 <= k <= 9 /\ k <> 3)%nat.

Lemma parse_level_loop k n p l : has_loop k ->
  parse_level k n p l = (left ← parse_level (S k) n p; multispace0;; loop k n p n left) l.
Proof. intros [Hk H3]. do 10 (destruct k as [|k]; [try done; lia|]). lia. Qed.

Lemma loop_next b n p fuel left c r : level b <> 3%nat -> operand_start c = true ->
  loop (level b) n p (S fuel) left (symbol b ++ c :: r) =
  (right ← parse_level (S (level b)) n p; multispace0;; loop (level b) n p fuel (build b left right)) (c :: r).
Proof.
  intros H3 [Hs Hc]%operand_start_facts. destruct_and! Hc. destruct b; try done; cbn [loop level symbol build binary_operators].
  all: erewrite opt_some by (operators; reflexivity); cbn; by rewrite spaces_bind.
Qed.

Lemma elem_of_stops c : c ∈ txt "),;:}" -> c = 41 \/ c = 44 \/ c = 59 \/ c = 58 \/ c = 125.
Proof. intros H. repeat (apply elem_of_cons in H as [->|H]; [tauto|]). by apply elem_of_nil in H. Qed.

Lemma loop_stop k n p fuel left l : has_loop k -> follows k l -> loop k n p (S fuel) left l = Done (Ok (left, l)).
Proof.
  intros [Hk H3] Hf. destruct k as [|[|[|[|[|[|[|[|[|[|k]]]]]]]]]]; try (exfalso; lia).
  all: inversion Hf as [j|j c r [->|[->|[->|[->| ->]]]]%elem_of_stops|j r Hk'|j b c r Hl [Hs Hc]%operand_start_facts]; subst;
    try (destruct_and! Hc; destruct b; cbn [level] in Hl; try (exfalso; lia)).
  all: cbn [loop binary_operators symbol app].
  all: by erewrite opt_none by (operators; reflexivity).
Qed.

Lemma comparison_next b n p l c r left : level b = 3%nat -> operand_start c = true ->
  parse_bitwise_or n p l = Done (Ok (left, symbol b ++ c :: r)) ->
  parse_comparison n p l = (right ← parse_bitwise_or n p; multispace0;; mret (build b left right)) (c :: r).
Proof.
  intros H3 [Hs Hc]%operand_start_facts Hl. destruct_and! Hc. unfold parse_comparison. rewrite (bind_ok _ _ _ _ _ Hl).
  rewrite spaces_bind by by destruct b. destruct b; try done; erewrite opt_some by (operators; reflexivity); by rewrite spaces_bind.
Qed.

Lemma comparison_stop n p l r left : parse_bitwise_or n p l = Done (Ok (left, r)) -> follows 3 r ->
  parse_comparison n p l = Done (Ok (left, r)).
Proof.
  intros Hl Hf. unfold parse_comparison. rewrite (bind_ok _ _ _ _ _ Hl), spaces_bind by by eapply follows_no_space.
  inversion Hf as [k|k c t [->|[->|[->|[->| ->]]]]%elem_of_stops|k t Hk'|k b c t Hlt [Hs Hc]%operand_start_facts]; subst.
  8: destruct_and! Hc; destruct b; cbn [level] in Hlt; try (exfalso; lia).
  all: by erewrite opt_none by (operators; reflexivity).
Qed.

Lemma ternary_next n p l r cond : parse_logical_or n p l = Done (Ok (cond, 63 :: r)) -> no_space r ->
  parse_ternary n p l = (true_expr ← p; multispace0;; literal (txt ":");; multispace0;; false_expr ← p; multispace0;;
    mret (Ternary cond true_expr false_expr)) r.
Proof.
  intros Hl Hr. unfold parse_ternary. rewrite (bind_ok _ _ _ _ _ Hl), spaces_bind by done.
  erewrite opt_is_some_true by apply (literal_ok (txt "?") r). by rewrite spaces_bind.
Qed.

Lemma ternary_stop n p l r left : parse_logical_or n p l = Done (Ok (left, r)) -> follows 0 r ->
  parse_ternary n p l = Done (Ok (left, r)).
Proof.
  intros Hl Hf. unfold parse_ternary. rewrite (bind_ok _ _ _ _ _ Hl), spaces_bind by by eapply follows_no_space.
  inversion Hf as [k|k c t [->|[->|[->|[->| ->]]]]%elem_of_stops|k t Hk'|k b c t Hlt _]; subst; [..|lia|destruct b; cbn in Hlt; lia].
  all: by erewrite opt_is_some_false by (operators; reflexivity).
Qed.

(** ** Operands *)
Lemma unary_not n p u c r : operand_start c = true ->
  parse_unary n p (S u) (33 :: c :: r) = (operand ← parse_unary n p u; mret (LogicalNot operand)) (c :: r).
Proof.
  intros [Hs Hc]%operand_start_facts. destruct_and! Hc. cbn [parse_unary]. rewrite spaces_bind by done.
  by erewrite opt_is_some_true by (operators; reflexivity).
Qed.

Lemma unary_complement n p u r :
  parse_unary n p (S u) (126 :: r) = (operand ← parse_unary n p u; mret (BitwiseNot operand)) r.
Proof.
  cbn [parse_unary]. rewrite spaces_bind by done. erewrite opt_is_some_false by (operators; reflexivity).
  by erewrite opt_is_some_true by (operators; reflexivity).
Qed.

Lemma unary_minus n p u r :
  parse_unary n p (S u) (45 :: r) = (operand ← parse_unary n p u; mret (Negate operand)) r.
Proof.
  cbn [parse_unary]. rewrite spaces_bind by done. do 2 erewrite opt_is_some_false by (operators; reflexivity).
  by erewrite opt_is_some_true by (operators; reflexivity).
Qed.

Lemma unary_primary n p u c r : operand_start c = true -> (33 =? c) = false -> (126 =? c) = false -> (45 =? c) = false ->
  parse_unary n p (S u) (c :: r) = parse_primary n p (c :: r).
Proof.
  intros [Hs _]%operand_start_facts H1 H2 H3. cbn [parse_unary]. rewrite spaces_bind by done.
  by do 3 erewrite opt_is_some_false by (operators; reflexivity).
Qed.

Lemma primary_paren n p s rest e : no_space (s ++ 41 :: rest) -> p (s ++ 41 :: rest) = Done (Ok (e, 41 :: rest)) ->
  parse_primary n p (40 :: s ++ 41 :: rest) = Done (Ok (e, rest)).
Proof.
  intros Hs Hp. unfold parse_primary. rewrite spaces_bind by done. rewrite alt_law.
  erewrite bind_ok by apply (literal_ok (txt "(") (s ++ 41 :: rest)). rewrite (bind_ok _ _ _ _ _ Hp).
  by erewrite bind_ok by apply (literal_ok (txt ")") rest).
Qed.

Lemma hex_prefix_no c r : (48 =? c) = false \/ match r with d :: _ => ident_byte d = false | [] => True end ->
  alt [literal (txt "0x"); literal (txt "0X")] (c :: r) = Done (Err mismatch).
Proof.
  intros H. operators. destruct (48 =? c) eqn:E; [|by operators]. destruct H as [?|H]; [congruence|]. destruct r as [|d r]; cbn.
  - by operators.
  - destruct (120 =? d) eqn:E1; [apply Z.eqb_eq in E1 as <-; done|]. destruct (88 =? d) eqn:E2; [apply Z.eqb_eq in E2 as <-; done|]. by operators.
Qed.

Definition no_ident (l : list Z) : Prop := match l with c :: _ => ident_byte c = false | [] => True end.

Lemma number_text k rest : in_u 64 k -> no_ident rest -> parse_number_with_suffix (decimal k ++ rest) = Done (Ok (Number k, rest)).
Proof.
  intros Hk Hr. unfold parse_number_with_suffix.
  assert (alt [alt [literal (txt "0x"); literal (txt "0X")];; hex_uint; dec_uint] (decimal k ++ rest) = Done (Ok (k, rest))) as Hn.
  { rewrite alt_law. assert ((alt [literal (txt "0x"); literal (txt "0X")];; hex_uint) (decimal k ++ rest) = Done (Err mismatch)) as ->.
    - unfold mbind, parser_bind. destruct (digits_spec 20 k) as (d & ds & Hd & _ & _ & Hz); [unfold in_u in Hk; lia|lia|].
      unfold decimal. rewrite Hd. cbn [app]. rewrite hex_prefix_no; [done|].
      destruct (decide (d = 48)) as [->|Hne]; [right; by rewrite (Hz eq_refl)|left; by apply Z.eqb_neq].
    - rewrite alt_law, dec_uint_law, decimal_number_decimal; [done|done|]. destruct rest as [|c r]; [done|]. cbn in Hr.
      unfold ident_byte, is_ascii_alphanumeric in Hr. by destruct (is_digit c); [rewrite orb_true_r in Hr|]. }
  rewrite (bind_ok _ _ _ _ _ Hn). erewrite opt_none; [done|]. rewrite one_of_law. destruct rest as [|c r]; [done|]. rewrite bool_decide_false; [done|].
  intros H. cbn in Hr. repeat (apply elem_of_cons in H as [->|H]; [done|]). by apply elem_of_nil in H.
Qed.

Lemma number_no c r : is_digit c = false -> exists e, parse_number_with_suffix (c :: r) = Done (Err e).
Proof.
  intros Hc. assert ((48 =? c) = false) as H48. { apply Z.eqb_neq. by intros <-. }
  exists mismatch. apply bind_err. rewrite alt_law, (bind_err _ _ _ mismatch) by by apply hex_prefix_no; left.
  rewrite alt_law, dec_uint_law. cbn. by rewrite Z.eqb_sym, H48, Hc.
Qed.

Lemma ident_text s rest : identifier s = true -> no_ident rest ->
  verify (first_byte ident_start) (take_while 1 ident_byte) (s ++ rest) = Done (Ok (s, rest)).
Proof.
  intros [Hs Hf]%andb_true_iff Hr. rewrite verify_law, take_while_law, run_of_app; [|by apply forallb_iff|by destruct rest].
  destruct s as [|c s]; [done|]. cbn [at_least length Nat.leb fst expect]. by rewrite Hs.
Qed.

Lemma ident_start_facts c : ident_start c = true -> is_digit c = false /\ operand_start c = true /\
  (40 =? c) = false /\ (33 =? c) = false /\ (126 =? c) = false /\ (45 =? c) = false.
Proof.
  intros H. assert (forall b, ident_start b = false -> (b =? c) = false) as Hne. { intros b Hb. apply Z.eqb_neq. intros ->. congruence. }
  split_and!; [|by unfold operand_start; rewrite H|by apply Hne..].
  apply not_true_iff_false. intros Hd. apply andb_true_iff in Hd as [H1 H2]. apply Z.leb_le in H1, H2.
  unfold ident_start, is_ascii_alphabetic in H. rewrite !orb_true_iff, !andb_true_iff, !Z.leb_le, !Z.eqb_eq in H. lia.
Qed.

Lemma unary_ident n p u s rest : identifier s = true ->
  parse_unary n p (S u) (s ++ rest) = parse_identifier_or_function n p (s ++ rest).
Proof.
  intros [Hs _]%andb_true_iff. destruct s as [|c s]; [done|]. cbn in Hs. apply ident_start_facts in Hs as (Hd & Ho & H1 & H2 & H3 & H4).
  cbn [app]. rewrite unary_primary by done.
  unfold parse_primary. rewrite spaces_bind by by apply operand_start_facts in Ho as [? _].
  rewrite !alt_law, (bind_err _ _ _ mismatch) by by apply literal_no.
  destruct (number_no c (s ++ rest) Hd) as [e ->]. by destruct (parse_identifier_or_function n p (c :: s ++ rest)) as [[[? ?]| |]|].
Qed.

Lemma function_text n p name l : identifier name = true -> name <> txt "." ->
  parse_identifier_or_function n p (name ++ 40 :: l) = parse_function n p name (40 :: l).
Proof.
  intros Hi Hn. unfold parse_identifier_or_function. erewrite bind_ok by by apply ident_text.
  rewrite bool_decide_false by done. rewrite spaces_bind by done. unfold mbind at 1, parser_bind at 1, get_input.
  rewrite (proj2 (starts_with_spec (txt "(") (40 :: l))) by by exists l. by rewrite spaces_bind.
Qed.

Lemma function_arg_text s rest : identifier s = true -> parse_function_arg (40 :: s ++ 41 :: rest) = Done (Ok (s, rest)).
Proof.
  intros Hi. unfold parse_function_arg. erewrite bind_ok by apply (literal_ok (txt "(") (s ++ 41 :: rest)).
  rewrite spaces_bind. 2: { destruct s as [|c s]; [done|]. apply andb_true_iff in Hi as [Hs _]. by apply ident_start_facts in Hs as (_ & [? _]%operand_start_facts & _). }
  erewrite bind_ok by by apply ident_text. rewrite spaces_bind by done. by erewrite bind_ok by apply (literal_ok (txt ")") rest).
Qed.

Lemma skip_none n l : no_space l -> match l with c :: r => (35 =? c) = false /\ ((47 =? c) = false \/ match r with d :: _ => (42 =? d) = false | [] => True end) | [] => True end ->
  skip_comments_and_whitespace (S n) l = Done (Ok (tt, l)).
Proof.
  intros Hs Hl. cbn [skip_comments_and_whitespace]. rewrite spaces_bind by done. unfold mbind at 1, parser_bind at 1, get_input.
  unfold starts_with. destruct l as [|c r]; [done|]. destruct Hl as [H1 H2]. cbn. rewrite H1. rewrite bool_decide_false by by intros [? ?].
  rewrite bool_decide_false; [done|]. destruct (47 =? c); [|by intros [? ?]]. destruct H2 as [?|H2]; [done|]. destruct r as [|d r]; [by intros [? ?]|].
  rewrite H2. by intros [? ?].
Qed.

Lemma literal_bind {B} s (f : list Z -> parser B) r : (literal s ≫= f) (s ++ r) = f s r.
Proof. apply bind_ok, literal_ok. Qed.

Lemma token_text m r : no_quote m = true -> parse_token (print_token m ++ r) = Done (Ok (m, r)).
Proof.
  intros Hm. unfold parse_token, mbind at 1, parser_bind at 1, get_input, print_token. rewrite <- !app_assoc.
  rewrite (proj2 (starts_with_spec [34] _)) by by eexists. rewrite literal_bind.
  assert (take_until 0 [34] (m ++ [34] ++ r) = Done (Ok (m, [34] ++ r))) as Ht.
  { rewrite take_until_law. cbn [app]. by rewrite (proj2 (find_slice_byte 34 m r)). }
  by rewrite (bind_ok _ _ _ _ _ Ht), literal_bind.
Qed.

(** ** Reading an operand of a level back *)
Definition fits (s : list Z) (n m : nat) : Prop := (length s < n /\ length s <= m)%nat.

Definition claim (e : Expression) (k : nat) : Prop := forall n m rest, fits (print k e ++ rest) n m -> follows k rest ->
  exists e', erase e' = erase e /\ parse_level k n (parse_expression m) (print k e ++ rest) = Done (Ok (e', rest)).

(** The operand is read, and the loop goes on. *)
Definition claim_loop (e : Expression) (k : nat) : Prop := forall n m rest fuel, fits (print k e ++ rest) n m ->
  follows (S k) rest -> (length rest < fuel)%nat ->
  exists e', erase e' = erase e /\ parse_level k n (parse_expression m) (print k e ++ rest) = loop k n (parse_expression m) fuel e' rest.

Lemma loop_fuel k n m f1 f2 left l : has_loop k -> fits l n m -> (length l < f1)%nat -> (length l < f2)%nat ->
  loop k n (parse_expression m) f1 left l = loop k n (parse_expression m) f2 left l.
Proof.
  intros [Hk H3] [Hn Hm] H1 H2.
  assert (parses (fun _ => True) true (S (length l)) (parse_level (S k) n (parse_expression m)) (parse_level (S k) n (parse_expression m))) as Hp.
  { eapply parses_weaken; [apply (parses_level n n (length l)); [lia|lia|apply parses_expression; lia]|done|done|lia]. }
  destruct k as [|[|[|[|[|[|[|[|[|[|k]]]]]]]]]]; try (exfalso; lia).
  all: eapply parses_binary_operators with (P := fun _ => True); [intros; known|done|..|exact Hp|done|]; lia.
Qed.

Lemma claim_of_loop e k : has_loop k -> claim_loop e k -> claim e k.
Proof.
  intros Hk H n m rest Hf Hr. destruct (H n m rest (S (length rest)) Hf) as (e' & He & Hp); [eapply follows_le; [done|lia]|lia|].
  exists e'. split; [done|]. rewrite Hp. by apply loop_stop.
Qed.

Definition reads (e : Expression) (k : nat) : Prop := claim e k /\ (has_loop k -> claim_loop e k).

Lemma fits_app s t n m : fits (s ++ t) n m -> fits t n m.
Proof. unfold fits. rewrite length_app. lia. Qed.

Lemma print_next e k : (k <= 9)%nat -> level_of e <> k -> print k e = print (S k) e.
Proof.
  intros Hk He. rewrite (print_parens k), (print_parens (S k)) by lia. unfold parens.
  destruct (Nat.ltb_spec (level_of e) k), (Nat.ltb_spec (level_of e) (S k)); done || lia.
Qed.

Lemma descend e k : (k <= 9)%nat -> level_of e <> k -> claim e (S k) -> reads e k.
Proof.
  intros Hk He H. pose proof (print_next e k Hk He) as Hpr.
  assert (has_loop k -> claim_loop e k) as Hl.
  { intros Hh n m rest fuel Hf Hr Hfuel. rewrite Hpr in *. destruct (H n m rest Hf Hr) as (e' & He' & Hp). exists e'. split; [done|].
    rewrite parse_level_loop by done. rewrite (bind_ok _ _ _ _ _ Hp), spaces_bind by by eapply follows_no_space.
    apply fits_app in Hf. apply loop_fuel; [done|done|apply Hf|done]. }
  split; [|done]. destruct (decide (has_loop k)) as [Hh|Hh]; [by apply claim_of_loop, Hl|].
  intros n m rest Hf Hr. rewrite Hpr in *. destruct (H n m rest Hf) as (e' & He' & Hp); [eapply follows_le; [done|lia]|].
  exists e'. split; [done|]. assert (k = 0 \/ k = 3)%nat as [-> | ->]; [unfold has_loop in Hh; lia| |].
  - by apply ternary_stop.
  - by apply comparison_stop.
Qed.

Lemma claim_expression e m rest : claim e 0 -> (length (print 0 e ++ rest) < m)%nat -> follows 0 rest ->
  exists e', erase e' = erase e /\ parse_expression m (print 0 e ++ rest) = Done (Ok (e', rest)).
Proof.
  intros H Hm Hr. destruct m as [|m]; [lia|]. destruct (H (S m) m rest) as (e' & He & Hp); [unfold fits; lia|done|]. by exists e'.
Qed.

Lemma claim_unary e n m u rest : claim e 10 -> fits (print 10 e ++ rest) n m -> (length (print 10 e ++ rest) < u)%nat -> follows 10 rest ->
  exists e', erase e' = erase e /\ parse_unary n (parse_expression m) u (print 10 e ++ rest) = Done (Ok (e', rest)).
Proof.
  intros H [Hn Hm] Hu Hr. destruct (H n m rest) as (e' & He & Hp); [done|done|]. exists e'. split; [done|]. rewrite <- Hp. cbn [parse_level].
  set (l := print 10 e ++ rest) in *.
  apply (parses_unary n n (length l) (parse_expression m) (parse_expression m)) with (j := S (length l)); try lia. apply parses_expression; lia.
Qed.

Lemma start_no_space e k rest : printable e = true -> no_space (print k e ++ rest).
Proof. intros Hw. destruct (print_start e Hw k) as (c & r & -> & [Hc _]%operand_start_facts). done. Qed.

Lemma paren e : printable e = true -> (level_of e < 10)%nat -> claim e 0 -> claim e 10.
Proof.
  intros Hw He H n m rest [Hn Hm] Hr. rewrite (print_parens 10) in * by lia. unfold parens in *. rewrite (proj2 (Nat.ltb_lt _ _) He) in *.
  rewrite <- !app_assoc in *. rewrite !length_app in Hn, Hm. cbn in Hn, Hm.
  destruct (claim_expression e m (41 :: rest) H) as (e' & He' & Hp); [rewrite length_app; cbn; lia|by constructor; left|].
  exists e'. split; [done|]. destruct n as [|n]; [lia|]. cbn [parse_level app]. change (txt "(" ++ ?x) with (40 :: x).
  rewrite unary_primary by done. apply (primary_paren (S n) _ (print 0 e)); [by apply start_no_space|done].
Qed.

Lemma own_binary b l r : printable r = true -> level b <> 3%nat -> claim_loop l (level b) -> claim r (S (level b)) ->
  claim_loop (build b l r) (level b).
Proof.
  intros Hw H3 Hl Hr n m rest fuel Hf Hrest Hfuel. rewrite print_build in *. unfold print_binary, parens in *.
  rewrite Nat.ltb_irrefl, (proj2 (Nat.eqb_neq _ _) H3) in *. rewrite <- !app_assoc in *.
  destruct (print_start r Hw (S (level b))) as (c & t & Hc & Hs).
  assert (follows (S (level b)) (symbol b ++ print (S (level b)) r ++ rest)) as Hfl. { rewrite Hc. constructor; [lia|done]. }
  assert (exists F, (length (symbol b ++ print (S (level b)) r ++ rest) < S F /\ length rest < F)%nat) as (F & HF & HF').
  { exists (S (length (symbol b ++ print (S (level b)) r ++ rest))). rewrite !length_app. lia. }
  destruct (Hl n m _ (S F) Hf Hfl HF) as (l' & El & ->).
  rewrite Hc. cbn [app]. rewrite loop_next by done. change (c :: t ++ rest) with ((c :: t) ++ rest). rewrite <- Hc.
  apply fits_app, fits_app in Hf. destruct (Hr n m rest Hf Hrest) as (r' & Er & Hp).
  exists (build b l' r'). split; [by rewrite !erase_build, El, Er|]. rewrite (bind_ok _ _ _ _ _ Hp), spaces_bind by by eapply follows_no_space.
  apply loop_fuel; [|by eapply fits_app|done|done]. destruct b; unfold has_loop; cbn in *; lia.
Qed.

Lemma own_comparison b l r : printable r = true -> level b = 3%nat -> claim l 4 -> claim r 4 -> claim (build b l r) 3.
Proof.
  intros Hw H3 Hl Hr n m rest Hf Hrest. rewrite print_build in *. unfold print_binary, parens in *. rewrite H3 in *. cbn [Nat.eqb Nat.ltb Nat.leb] in *.
  rewrite <- !app_assoc in *. destruct (print_start r Hw 4) as (c & t & Hc & Hs).
  assert (follows 4 (symbol b ++ print 4 r ++ rest)) as Hfl. { rewrite Hc. constructor; [lia|done]. }
  destruct (Hl n m _ Hf Hfl) as (l' & El & Hp). rewrite Hc in Hp at 2.
  cbn [parse_level] in *. rewrite (comparison_next b n _ _ c (t ++ rest) l' H3 Hs Hp). change (c :: t ++ rest) with ((c :: t) ++ rest). rewrite <- Hc.
  apply fits_app, fits_app in Hf. destruct (Hr n m rest Hf) as (r' & Er & Hp'); [eapply follows_le; [done|lia]|].
  exists (build b l' r'). split; [by rewrite !erase_build, El, Er|]. cbn [parse_level] in Hp'.
  rewrite (bind_ok _ _ _ _ _ Hp'), spaces_bind by by eapply follows_no_space. done.
Qed.

Lemma own_ternary a b c : printable b = true -> printable c = true -> claim a 1 -> claim b 0 -> claim c 0 -> claim (Ternary a b c) 0.
Proof.
  intros Hb Hc Ha Hb' Hc' n m rest [Hn Hm] Hrest. cbn [print] in *. unfold parens in *. cbn [Nat.ltb Nat.leb] in *.
  rewrite <- !app_assoc in *. rewrite !length_app in Hn, Hm. cbn in Hn, Hm.
  destruct (Ha n m (txt "?" ++ print 0 b ++ txt ":" ++ print 0 c ++ rest)) as (a' & Ea & Hp).
  { unfold fits. rewrite !length_app. cbn. lia. } { by constructor. }
  destruct (claim_expression b m (txt ":" ++ print 0 c ++ rest) Hb') as (b' & Eb & Hpb); [rewrite !length_app; cbn; lia|by constructor; do 3 right; left|].
  destruct (claim_expression c m rest Hc') as (c' & Ec & Hpc); [rewrite !length_app; cbn; lia|done|].
  exists (Ternary a' b' c'). split; [cbn; congruence|]. cbn [parse_level].
  rewrite (ternary_next n _ _ _ a' Hp) by by apply start_no_space. rewrite (bind_ok _ _ _ _ _ Hpb), spaces_bind by done.
  rewrite literal_bind, spaces_bind by by apply start_no_space. rewrite (bind_ok _ _ _ _ _ Hpc), spaces_bind by by eapply follows_no_space. done.
Qed.

Lemma call_text n p u name args rest : identifier (txt name) = true -> txt name <> txt "." ->
  parse_unary n p (S u) (call name args ++ rest) = parse_function n p (txt name) (40 :: args ++ 41 :: rest).
Proof.
  intros Hi Hn. unfold call. rewrite <- !app_assoc. rewrite unary_ident by done. by apply function_text.
Qed.

(** The arguments of a function that has expressions for arguments. *)
Section Calls.
Context (n m : nat) (rest : list Z).
Hypothesis Hn : (0 < n)%nat.
Let p := parse_expression m.

Lemma align_text e : printable e = true -> claim e 0 -> (length (print 0 e ++ 41%Z :: rest) < m)%nat ->
  exists e', erase e' = erase e /\ parse_align p (40 :: print 0 e ++ 41 :: rest) = Done (Ok (Align e', rest)).
Proof.
  intros Hw He Hm. destruct (claim_expression e m (41 :: rest) He Hm) as (e' & Ee & Hp); [by constructor; left|]. exists e'. split; [done|].
  unfold parse_align. change (40 :: ?x) with (txt "(" ++ x). rewrite literal_bind. rewrite (bind_ok _ _ _ _ _ Hp), spaces_bind by done.
  erewrite opt_is_some_false by (operators; reflexivity). rewrite (bind_ok _ _ _ None (41 :: rest)) by done.
  by change (41 :: rest) with (txt ")" ++ rest); rewrite literal_bind.
Qed.

Lemma align_of_text x e : printable x = true -> claim e 0 -> claim x 0 -> (length (print 0 e ++ 44%Z :: print 0 x ++ 41%Z :: rest) < m)%nat ->
  exists x' e', erase x' = erase x /\ erase e' = erase e /\
    parse_align p (40 :: print 0 e ++ 44 :: print 0 x ++ 41 :: rest) = Done (Ok (AlignOf x' e', rest)).
Proof.
  intros Hw He Hx Hm. destruct (claim_expression e m (44 :: print 0 x ++ 41 :: rest) He Hm) as (e' & Ee & Hp); [by constructor; right; left|].
  destruct (claim_expression x m (41 :: rest) Hx) as (x' & Ex & Hp'); [rewrite !length_app in *; cbn in Hm; cbn; rewrite length_app in Hm; cbn in Hm; lia|by constructor; left|].
  exists x', e'. split_and!; [done|done|].
  unfold parse_align. change (40 :: ?x) with (txt "(" ++ x). rewrite literal_bind. rewrite (bind_ok _ _ _ _ _ Hp), spaces_bind by done.
  erewrite opt_is_some_true by apply (literal_ok (txt ",") (print 0 x ++ 41 :: rest)).
  rewrite (bind_ok _ _ _ (Some x') (41 :: rest)); [by change (41 :: rest) with (txt ")" ++ rest); rewrite literal_bind|].
  rewrite spaces_bind by by apply start_no_space. by rewrite (bind_ok _ _ _ _ _ Hp'), spaces_bind.
Qed.

Lemma two_text l r : printable r = true -> claim l 0 -> claim r 0 -> (length (print 0 l ++ 44%Z :: print 0 r ++ 41%Z :: rest) < m)%nat ->
  exists l' r', erase l' = erase l /\ erase r' = erase r /\
    parse_two p (40 :: print 0 l ++ 44 :: print 0 r ++ 41 :: rest) = Done (Ok ((l', r'), rest)).
Proof.
  intros Hw Hl Hr Hm. destruct (claim_expression l m (44 :: print 0 r ++ 41 :: rest) Hl Hm) as (l' & El & Hp); [by constructor; right; left|].
  destruct (claim_expression r m (41 :: rest) Hr) as (r' & Er & Hp'); [rewrite !length_app in *; cbn in Hm; cbn; rewrite length_app in Hm; cbn in Hm; lia|by constructor; left|].
  exists l', r'. split_and!; [done|done|].
  unfold parse_two. change (40 :: ?x) with (txt "(" ++ x). rewrite literal_bind. rewrite (bind_ok _ _ _ _ _ Hp), spaces_bind by done.
  change (44 :: ?x) with (txt "," ++ x). rewrite literal_bind, spaces_bind by by apply start_no_space.
  rewrite (bind_ok _ _ _ _ _ Hp'), spaces_bind by done. by change (41 :: rest) with (txt ")" ++ rest); rewrite literal_bind.
Qed.

Lemma segment_start_text name e : printable e = true -> claim e 0 -> (length (print 0 e ++ 41%Z :: rest) < m)%nat ->
  exists e', erase e' = erase e /\
    parse_segment_start p (40 :: ([34] ++ segment_text name ++ [34] ++ txt "," ++ print 0 e) ++ 41 :: rest) = Done (Ok (SegmentStart name e', rest)).
Proof.
  intros Hw He Hm. destruct (claim_expression e m (41 :: rest) He Hm) as (e' & Ee & Hp); [by constructor; left|]. exists e'. split; [done|].
  unfold parse_segment_start. change (40 :: ?x) with (txt "(" ++ x). rewrite literal_bind, spaces_bind by done.
  rewrite <- !app_assoc, literal_bind.
  erewrite bind_ok. 2: { rewrite verify_law, take_while_law, run_of_app; [|by destruct name; repeat constructor|done]. by destruct name. }
  rewrite literal_bind, spaces_bind, literal_bind, spaces_bind by (done || by apply start_no_space).
  rewrite (bind_ok _ _ _ _ _ Hp), spaces_bind by done. change (41 :: rest) with (txt ")" ++ rest). rewrite literal_bind. by destruct name.
Qed.

Lemma skip_operand n' e k rest' : printable e = true -> (0 < n')%nat -> skip_comments_and_whitespace n' (print k e ++ rest') = Done (Ok (tt, print k e ++ rest')).
Proof.
  intros Hw Hn'. destruct n' as [|n']; [lia|]. apply skip_none; [by apply start_no_space|].
  destruct (print_start e Hw k) as (c & r & -> & Hc). pose proof (operand_start_facts c Hc) as [_ H]. destruct_and! H. split; [done|]. left.
  apply Z.eqb_neq. intros <-. done.
Qed.

Lemma assert_text e message : printable e = true -> no_quote message = true -> claim e 0 -> follows 10 rest ->
  (length (print 0 e ++ 44%Z :: print_token message ++ 41%Z :: rest) < m)%nat ->
  exists e' r, erase e' = erase e /\
    parse_assert n p (40 :: (print 0 e ++ txt "," ++ print_token message) ++ 41 :: rest) = Done (Ok ((e', message, r), rest)).
Proof.
  intros Hw Ht He Hr Hm. destruct (claim_expression e m (44 :: print_token message ++ 41 :: rest) He Hm) as (e' & Ee & Hp); [by constructor; right; left|].
  unfold parse_assert, mbind at 1, parser_bind at 1, get_input. eexists e', _. split; [done|]. rewrite <- !app_assoc.
  change (40 :: ?x) with (txt "(" ++ x). rewrite literal_bind. rewrite (bind_ok _ _ _ _ _ (skip_operand n e 0 _ Hw Hn)).
  rewrite (bind_ok _ _ _ _ _ Hp). destruct n as [|n']; [lia|].
  rewrite (bind_ok _ _ _ _ _ (skip_none n' (44 :: print_token message ++ 41 :: rest) eq_refl ltac:(by split; [|left]))).
  change (44 :: ?x) with (txt "," ++ x). rewrite literal_bind.
  rewrite (bind_ok _ _ _ _ _ (skip_none n' (print_token message ++ 41 :: rest) eq_refl ltac:(by split; [|left]))).
  rewrite (bind_ok _ _ _ _ _ (token_text message (41 :: rest) Ht)).
  rewrite (bind_ok _ _ _ _ _ (skip_none n' (41 :: rest) eq_refl ltac:(by split; [|left]))).
  change (41 :: ?x) with (txt ")" ++ x). rewrite literal_bind.
  erewrite bind_ok; [done|]. apply skip_none; [by eapply follows_no_space|]. by eapply follows_no_comment.
Qed.
End Calls.

(** What the cases below know of a text that is read by [parse_unary]. *)
Lemma unary_fits e n m rest : fits (print 10 e ++ rest) n m -> printable e = true -> exists u, n = S u.
Proof.
  intros [Hn _] Hw. destruct (print_start e Hw 10) as (c & r & Hc & _). rewrite Hc in Hn. cbn in Hn. destruct n as [|u]; [lia|]. by exists u.
Qed.

Lemma own_prefix sym (mk : Expression -> Expression) e : printable e = true -> claim e 10 ->
  (forall n p u c r, operand_start c = true -> parse_unary n p (S u) (sym :: c :: r) = (operand ← parse_unary n p u; mret (mk operand)) (c :: r)) ->
  (forall f, erase (mk f) = mk (erase f)) -> (forall k, print k (mk e) = sym :: print 10 e) -> claim (mk e) 10.
Proof.
  intros Hw He Hsym Her Hpr n m rest [Hn Hm] Hr. rewrite Hpr in *. cbn in Hn, Hm. destruct n as [|u]; [lia|].
  destruct (claim_unary e (S u) m u rest He) as (e' & Ee & Hp); [unfold fits; lia|lia|done|].
  exists (mk e'). split; [by rewrite !Her, Ee|]. cbn [parse_level app]. destruct (print_start e Hw 10) as (c & r & Hc & Hs). rewrite Hc in *.
  cbn [app] in *. rewrite Hsym by done. by rewrite (bind_ok _ _ _ _ _ Hp).
Qed.

Lemma own_atom e n m rest a : parse_unary n (parse_expression m) n (print 10 e ++ rest) = Done (Ok (a, rest)) -> erase a = erase e ->
  exists e', erase e' = erase e /\ parse_level 10 n (parse_expression m) (print 10 e ++ rest) = Done (Ok (e', rest)).
Proof. intros H He. by exists a. Qed.

Lemma symbol_text n p u s rest : identifier s = true -> s <> txt "." -> follows 10 rest ->
  parse_unary n p (S u) (s ++ rest) = Done (Ok (if bool_decide (s = txt "SIZEOF_HEADERS") then SizeofHeaders else Symbol s, rest)).
Proof.
  intros Hs Hd Hr. pose proof (follows_first _ _ Hr) as Hf. rewrite unary_ident by done. unfold parse_identifier_or_function.
  erewrite bind_ok by (apply ident_text; [done|]; destruct rest; [done|]; by destruct_and! Hf). rewrite bool_decide_false by done.
  rewrite spaces_bind by by eapply follows_no_space. unfold mbind at 1, parser_bind at 1, get_input.
  assert (starts_with (txt "(") rest = false) as ->; [|by case_bool_decide].
  apply not_true_iff_false. intros [t ->]%starts_with_spec. by destruct Hf as (_ & _ & ? & _).
Qed.

Lemma number_unary n p u k rest : in_u 64 k -> follows 10 rest -> parse_unary n p (S u) (decimal k ++ rest) = Done (Ok (Number k, rest)).
Proof.
  intros Hk Hr. pose proof (number_text k rest Hk) as Hn. destruct (decimal_first k Hk) as (d & ds & Hd & Hdig). rewrite Hd in *. cbn [app] in *.
  assert (forall b, is_digit b = false -> (b =? d) = false) as Hne. { intros b Hb. apply Z.eqb_neq. by intros ->; rewrite Hdig in Hb. }
  rewrite unary_primary by (by apply Hne || by unfold operand_start; rewrite Hdig, orb_true_r).
  unfold parse_primary. rewrite spaces_bind. 2: { apply operand_start_facts. by unfold operand_start; rewrite Hdig, orb_true_r. }
  rewrite alt_law, (bind_err _ _ _ mismatch) by by apply literal_no, Hne. rewrite alt_law, Hn; [done|].
  pose proof (follows_first _ _ Hr). destruct rest; [done|]. by destruct_and! H.
Qed.

Lemma argument_text n p u name mk s rest : identifier (txt name) = true -> txt name <> txt "." ->
  parse_function n p (txt name) = (arg ← parse_function_arg; mret (mk arg)) -> identifier s = true ->
  parse_unary n p (S u) (call name s ++ rest) = Done (Ok (mk s, rest)).
Proof. intros Hi Hn Hf Hs. rewrite call_text, Hf by done. by erewrite bind_ok by by apply function_arg_text. Qed.

Lemma call_length name args rest : length (call name args ++ rest) = S (length (txt name) + length (args ++ 41%Z :: rest)).
Proof. unfold call. rewrite !length_app. cbn. lia. Qed.

Lemma own_argument name (mk : list Z -> Expression) s : identifier (txt name) = true -> txt name <> txt "." ->
  (forall n p, parse_function n p (txt name) = (arg ← parse_function_arg; mret (mk arg))) -> identifier s = true ->
  print 10 (mk s) = call name s -> claim (mk s) 10.
Proof.
  intros Hi Hd Hf Hs Hp n m rest [Hn _] _. rewrite Hp in *. destruct n as [|u]; [lia|]. exists (mk s). split; [done|].
  cbn [parse_level]. by apply argument_text.
Qed.

Lemma own_call e name args : identifier (txt name) = true -> txt name <> txt "." -> print 10 e = call name args ->
  (forall n m rest, (0 < n)%nat -> (length (args ++ 41%Z :: rest) < m)%nat -> follows 10 rest -> exists e', erase e' = erase e /\
    parse_function n (parse_expression m) (txt name) (40 :: args ++ 41 :: rest) = Done (Ok (e', rest))) -> claim e 10.
Proof.
  intros Hi Hd Hp H n m rest [Hn Hm] Hr. rewrite Hp in *. rewrite call_length in Hn, Hm. destruct n as [|u]; [lia|].
  destruct (H (S u) m rest) as (e' & He & Hf); [lia|lia|done|]. exists e'. split; [done|]. cbn [parse_level]. by rewrite call_text.
Qed.

Lemma own_operand e : level_of e = 10%nat -> printable e = true -> Forall (fun f => claim f 0 /\ claim f 10) (operands e) -> claim e 10.
Proof.
  intros Hl Hw Hops.
  destruct e; try done; cbn [operands] in Hops; unfold_printable Hw; repeat match goal with H : Forall _ (_ :: _) |- _ => apply Forall_cons_iff in H; destruct H as [[? ?] ?] end.
  all: lazymatch goal with
    | |- claim (Sizeof _) _ => by apply (own_argument "SIZEOF")
    | |- claim (Alignof _) _ => by apply (own_argument "ALIGNOF")
    | |- claim (Origin _) _ => by apply (own_argument "ORIGIN")
    | |- claim (Length _) _ => by apply (own_argument "LENGTH")
    | |- claim (Addr _) _ => by apply (own_argument "ADDR")
    | |- claim (Loadaddr _) _ => by apply (own_argument "LOADADDR")
    | |- claim (Defined_ _) _ => by apply (own_argument "DEFINED")
    | |- claim (LogicalNot _) _ => apply (own_prefix 33 LogicalNot); auto using unary_not
    | |- claim (BitwiseNot _) _ => apply (own_prefix 126 BitwiseNot); auto using unary_complement
    | |- claim (Negate _) _ => apply (own_prefix 45 Negate); auto using unary_minus
    | |- _ => idtac
    end.
  - intros n' m rest [Hn Hm] Hr. destruct n' as [|u]; [lia|]. eapply own_atom; [|done]. by apply number_unary; [apply bool_decide_eq_true in Hw|].
  - apply andb_true_iff in Hw as [[Hs Hd]%andb_true_iff Hh]. apply negb_true_iff, bool_decide_eq_false in Hd. apply negb_true_iff in Hh.
    intros n' m rest [Hn Hm] Hr. destruct n' as [|u]; [lia|]. eapply own_atom; [|done]. cbn [print]. rewrite symbol_text by done. by rewrite Hh.
  - intros n' m rest [Hn Hm] Hr. destruct n' as [|u]; [lia|]. eapply own_atom; [|done]. cbn [print]. rewrite unary_ident by done.
    unfold parse_identifier_or_function. erewrite bind_ok by (apply ident_text; [done|]; pose proof (follows_first _ _ Hr) as H; destruct rest; [done|]; by destruct_and! H).
    done.
  - apply (own_call _ "ALIGN" (print 0 e)); [done..|]. intros n m rest Hn Hm Hr. destruct (align_text m rest e) as (e' & Ee & Ha); [done..|].
    exists (Align e'). split; [by cbn; rewrite Ee|exact Ha].
  - apply andb_true_iff in Hw as [Hw1 Hw2]. apply (own_call _ "ALIGN" (print 0 e2 ++ txt "," ++ print 0 e1)); [done..|]. intros n m rest Hn Hm Hr.
    rewrite <- !app_assoc in *. destruct (align_of_text n m rest Hn e1 e2) as (x & e' & Ex & Ee & Ha); [done..|].
    exists (AlignOf x e'). split; [by cbn; rewrite Ee, Ex|exact Ha].
  - apply andb_true_iff in Hw as [Hw1 Hw2]. apply (own_call _ "MIN" (print 0 e1 ++ txt "," ++ print 0 e2)); [done..|]. intros n m rest Hn Hm Hr.
    rewrite <- !app_assoc in *. destruct (two_text n m rest Hn e1 e2) as (x & e' & Ex & Ee & Ha); [done..|].
    exists (Min x e'). split; [by cbn; rewrite Ee, Ex|]. change (parse_function ?a ?b ?c) with ('(f, g) ← parse_two b; mret (Min f g)). by rewrite (bind_ok _ _ _ _ _ Ha).
  - apply andb_true_iff in Hw as [Hw1 Hw2]. apply (own_call _ "MAX" (print 0 e1 ++ txt "," ++ print 0 e2)); [done..|]. intros n m rest Hn Hm Hr.
    rewrite <- !app_assoc in *. destruct (two_text n m rest Hn e1 e2) as (x & e' & Ex & Ee & Ha); [done..|].
    exists (Max x e'). split; [by cbn; rewrite Ee, Ex|]. change (parse_function ?a ?b ?c) with ('(f, g) ← parse_two b; mret (Max f g)). by rewrite (bind_ok _ _ _ _ _ Ha).
  - apply (own_call _ "SEGMENT_START" ([34] ++ segment_text name ++ [34] ++ txt "," ++ print 0 e)); [done..|]. intros n m rest Hn Hm Hr.
    destruct (segment_start_text m rest name e) as (e' & Ee & Ha); [done|done|rewrite !length_app in *; lia|].
    exists (SegmentStart name e'). split; [by cbn; rewrite Ee|exact Ha].
  - intros n' m rest [Hn Hm] Hr. destruct n' as [|u]; [lia|]. eapply own_atom; [|done]. cbn [print]. by rewrite symbol_text.
  - apply andb_true_iff in Hw as [Hw1 Hw2]. apply (own_call _ "ASSERT" (print 0 e ++ txt "," ++ print_token message)); [done..|]. intros n m rest Hn Hm Hr.
    destruct (assert_text n m rest Hn e message) as (e' & r & Ee & Ha); [done|done|done|done|rewrite <- !app_assoc in Hm; exact Hm|].
    exists (Assert e' message r). split; [by cbn; rewrite Ee|].
    change (parse_function ?a ?b ?c) with ('(f, g, h) ← parse_assert a b; mret (Assert f g h)). by rewrite (bind_ok _ _ _ _ _ Ha).
Qed.

Lemma own_reads e : claim e (level_of e) -> (has_loop (level_of e) -> claim_loop e (level_of e)) -> printable e = true ->
  forall k, (k <= 10)%nat -> reads e k.
Proof.
  intros Ho Hl Hw.
  assert (forall j, (j <= level_of e)%nat -> reads e (level_of e - j)) as Hdown.
  { induction j as [|j IH]; intros Hj; [by rewrite Nat.sub_0_r|]. assert (level_of e <= 10)%nat by (destruct e; cbn; lia).
    apply descend; [lia|lia|]. replace (S (level_of e - S j)) with (level_of e - j)%nat by lia. apply IH. lia. }
  assert (claim e 10) as H10.
  { destruct (decide (level_of e = 10%nat)) as [E|Hne]; [by rewrite E in Ho|].
    apply paren; [done|destruct e; cbn in *; lia|]. destruct (Hdown (level_of e) ltac:(lia)) as [H _]. by rewrite Nat.sub_diag in H. }
  assert (forall j, (j <= 10)%nat -> (level_of e <= 10 - j)%nat -> reads e (10 - j)) as Hup.
  { induction j as [|j IH]; intros Hj Hle; [split; [done|unfold has_loop; lia]|].
    destruct (decide (level_of e = (10 - S j)%nat)) as [E|Hne]; [by rewrite <- E; split|].
    apply descend; [lia|done|]. replace (S (10 - S j)) with (10 - j)%nat by lia. apply IH; lia. }
  intros k Hk. destruct (decide (k <= level_of e)%nat).
  - replace k with (level_of e - (level_of e - k))%nat by lia. apply Hdown. lia.
  - replace k with (10 - (10 - k))%nat by lia. apply Hup; lia.
Qed.

Lemma reads_all e : printable e = true -> forall k, (k <= 10)%nat -> reads e k.
Proof.
  induction e as [b l r IHl IHr|a b c IHa IHb IHc|e He IH] using expression_induction; intros Hw.
  - pose proof Hw as Hw'. rewrite printable_build in Hw'. apply andb_true_iff in Hw' as [Hl Hr].
    pose proof (fun k Hk => proj1 (IHl Hl k Hk)) as Cl. pose proof (fun k Hk => proj1 (IHr Hr k Hk)) as Cr.
    assert (level b <= 9)%nat by (destruct b; cbn; lia).
    apply own_reads; rewrite ?level_of_build; [| |done].
    + destruct (decide (level b = 3%nat)) as [E|Hne]; [rewrite E; apply own_comparison; auto with lia|].
      apply claim_of_loop; [destruct b; unfold has_loop; cbn in *; lia|]. apply own_binary; [done|done| |apply Cr; lia].
      apply IHl; [done|lia|destruct b; unfold has_loop; cbn in *; lia].
    + intros Hh. apply own_binary; [done|apply Hh|apply IHl; [done|lia|done]|apply Cr; lia].
  - pose proof Hw as Hw'. unfold_printable Hw'. apply andb_true_iff in Hw' as [[Ha Hb]%andb_true_iff Hc].
    apply own_reads; [|unfold has_loop; cbn; lia|done]. apply own_ternary; [done|done|apply IHa|apply IHb|apply IHc]; done || lia.
  - apply own_reads; rewrite ?He; [|unfold has_loop; lia|done]. apply own_operand; [done|done|].
    destruct e; try done; cbn [operands] in *; unfold_printable Hw; repeat match goal with H : Forall _ (_ :: _) |- _ => apply Forall_cons_iff in H; destruct H as [? ?] end.
    all: try (apply andb_true_iff in Hw as [? ?]); repeat (constructor; [split; apply H || apply H0|]); done || lia.
Qed.
End RoundTrip.

(** C21. Precedence and associativity: [parse_expression] reads back every expression from its text with
    the fewest parentheses ([print]), and leaves what follows, if that is nothing or starts with
    one of [),;:}].  What is read is equal to the expression as the code compares them. *)
Theorem parse_print {W : Winnow} {L : WinnowLaws W} e rest fuel : printable e = true ->
  match rest with [] => True | c :: _ => c ∈ txt "),;:}" end -> (length (print 0 e ++ rest) < fuel)%nat ->
  exists e', erase e' = erase e /\ parse_expression fuel (print 0 e ++ rest) = Done (Ok (e', rest)).
Proof.
  intros Hw Hr Hf. apply claim_expression; [|done|destruct rest; by constructor].
  apply (reads_all e Hw 0). lia.
Qed.

Module Example.
Definition a : Expression := Symbol (txt "a").
Definition b : Expression := Symbol (txt "b").

(** [(a-b)-(a-b)*2 < 3 || !(a<b ? a : b)] *)
Definition e : Expression :=
  LogicalOr (LessThan (Subtract (Subtract a b) (Multiply (Subtract a b) (Number 2))) (Number 3)) (LogicalNot (Ternary (LessThan a b) a b)).

Example printed : print 0 e = txt "a-b-(a-b)*2<3||!(a<b?a:b)".
Proof. by vm_compute. Qed.
End Example.

Lemma parse_print_witness : printable Example.e = true /\ (length (print 0 Example.e ++ txt ";") < 27)%nat /\
  exists e', erase e' = erase Example.e /\ parse_expression 27 (print 0 Example.e ++ txt ";") = Done (Ok (e', txt ";")).
Proof.
  split_and!; [by vm_compute|cbn; lia|]. apply (parse_print (W := reference) Example.e (txt ";") 27); [by vm_compute| |cbn; lia].
  cbn. rewrite !elem_of_cons. auto.
Defined.
