(* ===== verification/ScriptParser.v ===== *)
(** The commands of linker scripts: the parser of [libjdxld/src/linker_script.rs], and the
    inputs a script asks for ([foreach_input]).

    The parsers share the fuel [n] for their loops and for [parse_expression];
    [parse_command] calls itself through [GROUP], [INPUT], [AS_NEEDED] and [OUTPUT_ARCH].
    [LinkerScript_parse] starts with one more than the length of the script, which is
    enough ([parse_script_total]). *)
From Stdlib Require Import ZArith Lia.
From stdpp Require Import base list list_numbers numbers strings option.
From S2P Require Import Prelude Alignment Expressions Parsers ScriptExpressions.

Local Open Scope Z_scope.

(** ** Data *)
Inductive SectionAttributes := Noload | Readonly | Dsect | Copy | Info | Overlay.

Record AssertCommand := mkAssert { assert_expression : Expression; assert_message : list Z; assert_remainder : list Z }.

Record ProvideSymbolDefinition := mkProvide { provide_name : list Z; provide_value : Expression; provide_hidden : bool }.

Record SectionPattern := mkSectionPattern { pattern_name : list Z; pattern_sorted : bool }.

(** The file pattern is [None] for all files. *)
Record Matcher := mkMatcher {
  must_keep : bool;
  input_file_pattern : option (list Z);
  input_section_name_patterns : list SectionPattern
}.

Inductive ContentsCommand :=
| ContentsMatcher (m : Matcher)
| ContentsSymbolAssignment (name : list Z) (expr : Expression)
| ContentsProvide (p : ProvideSymbolDefinition)
| ContentsSetLocation (address : Expression)
| Constructors
| ContentsAssert (a : AssertCommand).

Record OutputSection := mkOutputSection {
  output_section_name : list Z;
  section_commands : list ContentsCommand;
  section_alignment : option Alignment;
  start_address_expression : option Expression;
  section_phdrs : list (list Z);
  at_address : option Expression;
  section_region : option (list Z);
  section_fill : option Expression;
  section_attributes : option SectionAttributes
}.

Inductive SectionCommand :=
| SectionCommandSection (s : OutputSection)
| SectionSetLocation (address : Expression)
| SectionAssert (a : AssertCommand)
| SectionProvide (p : ProvideSymbolDefinition)
| SectionSymbolAssignment (name : list Z) (expr : Expression).

Record MemoryRegion := mkMemoryRegion { region_name : list Z; region_origin : Expression; region_length : Expression }.

Record Phdr := mkPhdr {
  phdr_name : list Z;
  phdr_ptype : Expression;
  phdr_flags : option Expression;
  has_filehdr : bool;
  has_phdrs : bool
}.

Record OutputFormat := mkOutputFormat { format_default : list Z; format_big : option (list Z); format_little : option (list Z) }.

Inductive Command :=
| CommandArg (arg : list Z)
| CommandGroup (subs : list Command)
| CommandAsNeeded (subs : list Command)
| CommandIgnored
| CommandSections (commands : list SectionCommand)
| CommandEntry (name : list Z)
| CommandVersion (content : list Z)
| CommandSymbolDefinition (name : list Z) (value : Expression)
| CommandSetLocation (address : Expression)
| CommandProvide (p : ProvideSymbolDefinition)
| CommandAssert (a : AssertCommand)
| CommandMemory (regions : list MemoryRegion)
| CommandPhdrs (phdrs : list Phdr)
| CommandOutputFormat (f : OutputFormat).

Inductive AssignmentOp :=
| AssignOp | AssignAdd | AssignSubtract | AssignMultiply | AssignDivide | AssignLeftShift | AssignRightShift
| AssignAnd | AssignOr | AssignXor.

Definition expand (op : AssignmentOp) (name : list Z) (rhs : Expression) : Expression :=
  let lhs := if bool_decide (name = txt ".") then LocationCounter else Symbol name in
  match op with
  | AssignOp => rhs
  | AssignAdd => Add lhs rhs
  | AssignSubtract => Subtract lhs rhs
  | AssignMultiply => Multiply lhs rhs
  | AssignDivide => Divide lhs rhs
  | AssignLeftShift => LeftShift lhs rhs
  | AssignRightShift => RightShift lhs rhs
  | AssignAnd => BitwiseAnd lhs rhs
  | AssignOr => BitwiseOr lhs rhs
  | AssignXor => BitwiseXor lhs rhs
  end.

Section Parser.
Context {W : Winnow}.

Definition parse_assignment_op : parser AssignmentOp :=
  alt [alt [Parsers.value AssignAdd (literal (txt "+=")); Parsers.value AssignSubtract (literal (txt "-="));
            Parsers.value AssignMultiply (literal (txt "*=")); Parsers.value AssignDivide (literal (txt "/="));
            Parsers.value AssignLeftShift (literal (txt "<<="))];
       alt [Parsers.value AssignRightShift (literal (txt ">>=")); Parsers.value AssignAnd (literal (txt "&="));
            Parsers.value AssignOr (literal (txt "|=")); Parsers.value AssignXor (literal (txt "^="));
            Parsers.value AssignOp (literal (txt "=");; not_ (literal (txt "=")))]].

Section Fuel.
Context (n : nat).
Local Abbreviation skip := (skip_comments_and_whitespace n).
Local Abbreviation expression := (parse_expression n).

Definition parse_assert_command : parser AssertCommand :=
  '(e, message, remainder) ← parse_assert n expression; mret (mkAssert e message remainder).

Definition parse_provide (hidden : bool) : parser ProvideSymbolDefinition :=
  literal (txt "(");;
  skip;;
  name ← parse_token;
  skip;;
  literal (txt "=");;
  skip;;
  value ← expression;
  skip;;
  literal (txt ")");;
  skip;;
  opt (literal (txt ";"));;
  skip;;
  mret (mkProvide name value hidden).

Definition parse_memory_region : parser MemoryRegion :=
  name ← parse_token;
  skip;;
  literal (txt ":");;
  skip;;
  alt [literal (txt "ORIGIN"); literal (txt "org"); literal (txt "o")];;
  skip;;
  literal (txt "=");;
  skip;;
  origin ← expression;
  skip;;
  literal (txt ",");;
  skip;;
  alt [literal (txt "LENGTH"); literal (txt "len"); literal (txt "l")];;
  skip;;
  literal (txt "=");;
  skip;;
  length ← expression;
  mret (mkMemoryRegion name origin length).

Definition parse_memory : parser (list MemoryRegion) :=
  literal (txt "{");;
  skip;;
  '(regions, _) ← repeat_till0 parse_memory_region (literal (txt "}"));
  skip;;
  mret regions.

(** The [PT_] constants, of the ELF specification and of GNU. *)
Definition phdr_type (s : list Z) : option Z :=
  if bool_decide (s = txt "PT_NULL") then Some 0
  else if bool_decide (s = txt "PT_LOAD") then Some 1
  else if bool_decide (s = txt "PT_DYNAMIC") then Some 2
  else if bool_decide (s = txt "PT_INTERP") then Some 3
  else if bool_decide (s = txt "PT_NOTE") then Some 4
  else if bool_decide (s = txt "PT_SHLIB") then Some 5
  else if bool_decide (s = txt "PT_PHDR") then Some 6
  else if bool_decide (s = txt "PT_TLS") then Some 7
  else if bool_decide (s = txt "PT_GNU_EH_FRAME") then Some 1685382480
  else if bool_decide (s = txt "PT_GNU_STACK") then Some 1685382481
  else if bool_decide (s = txt "PT_GNU_RELRO") then Some 1685382482
  else if bool_decide (s = txt "PT_GNU_PROPERTY") then Some 1685382483
  else if bool_decide (s = txt "PT_GNU_SFRAME") then Some 1685382484
  else None.

Inductive PhdrKeyword := KeywordFlags | KeywordFilehdr | KeywordPhdrs.

(** The loop over the keywords that follow the type. *)
Fixpoint parse_phdr_keywords (n : nat) (flags : option Expression) (has_filehdr has_phdrs : bool) : parser (option Expression * bool * bool) :=
  match n with
  | O => no_fuel
  | S n =>
      prefix ← opt (alt [Parsers.value KeywordFlags (literal (txt "FLAGS")); Parsers.value KeywordFilehdr (literal (txt "FILEHDR"));
                         Parsers.value KeywordPhdrs (literal (txt "PHDRS"))]);
      match prefix with
      | Some KeywordFlags =>
          skip;;
          literal (txt "(");;
          flags ← expression;
          literal (txt ")");;
          skip;;
          parse_phdr_keywords n (Some flags) has_filehdr has_phdrs
      | Some KeywordFilehdr =>
          skip;;
          skip;;
          parse_phdr_keywords n flags true has_phdrs
      | Some KeywordPhdrs =>
          skip;;
          skip;;
          parse_phdr_keywords n flags has_filehdr true
      | None => mret (flags, has_filehdr, has_phdrs)
      end
  end.

Definition parse_phdr : parser Phdr :=
  name ← parse_token;
  skip;;
  input ← get_input;
  ptype ← (if starts_with (txt "PT_") input then
      ptype_str ← parse_token;
      match phdr_type ptype_str with Some t => mret (Number t) | None => fail mismatch end
    else expression);
  skip;;
  '(flags, has_filehdr, has_phdrs) ← parse_phdr_keywords n None false false;
  opt (literal (txt ";"));;
  skip;;
  mret (mkPhdr name ptype flags has_filehdr has_phdrs).

Definition parse_phdrs : parser (list Phdr) :=
  literal (txt "{");;
  skip;;
  '(phdrs, _) ← repeat_till0 parse_phdr (literal (txt "}"));
  skip;;
  mret phdrs.

Definition parse_output_format : parser OutputFormat :=
  literal (txt "(");;
  skip;;
  default ← parse_token;
  skip;;
  comma ← opt_is_some (literal (txt ","));
  '(big, little) ← (if comma : bool then
      skip;;
      big ← parse_token;
      skip;;
      literal (txt ",");;
      skip;;
      little ← parse_token;
      skip;;
      mret (Some big, Some little)
    else mret (None, None));
  literal (txt ")");;
  mret (mkOutputFormat default big little).

Definition parse_entry : parser (list Z) :=
  skip;;
  literal (txt "(");;
  skip;;
  symbol_name ← parse_token;
  skip;;
  literal (txt ")");;
  mret symbol_name.

(** The loop over the bytes: how many braces are open, and the bytes read.  The count is an
    [i32]. *)
Fixpoint count_braces (brace_count : Z) (pos : nat) (input : list Z) : Z * nat :=
  match input with
  | b :: input =>
      if 0 <? brace_count then
        count_braces (if b =? 123 then signed 32 (brace_count + 1) else if b =? 125 then signed 32 (brace_count - 1) else brace_count) (S pos) input
      else (brace_count, pos)
  | [] => (brace_count, pos)
  end.

(** The text up to the brace that closes the first one; it and the brace are consumed. *)
Definition version_content : parser (list Z) :=
  input ← get_input;
  let '(brace_count, pos) := count_braces 1 0 input in
  if negb (brace_count =? 0) then fail mismatch
  else
    set_input (drop pos input);;
    mret (take (pos - 1) input).

Definition parse_version : parser (list Z) :=
  skip;;
  literal (txt "{");;
  skip;;
  version_content ← version_content;
  skip;;
  opt (literal (txt ";"));;
  mret version_content.

(** ** The contents of sections *)
Definition parse_contents_provide : parser ContentsCommand :=
  hidden ← alt [Parsers.value true (literal (txt "PROVIDE_HIDDEN")); Parsers.value false (literal (txt "PROVIDE"))];
  skip;;
  provide ← parse_provide hidden;
  mret (ContentsProvide provide).

Definition parse_contents_assert : parser ContentsCommand :=
  literal (txt "ASSERT");;
  skip;;
  assert ← parse_assert_command;
  opt (literal (txt ";"));;
  skip;;
  mret (ContentsAssert assert).

Definition parse_sort : parser bool :=
  alt [Parsers.value true (literal (txt "SORT_BY_NAME")); Parsers.value false (literal (txt "SORT_BY_ALIGNMENT"));
       Parsers.value true (literal (txt "SORT"))].

Definition is_ascii_whitespace (b : Z) : bool := bool_decide (b ∈ [32; 9; 10; 12; 13]).

Definition parse_pattern : parser SectionPattern :=
  sort_kw ← opt parse_sort;
  (if bool_decide (is_Some sort_kw) then
     skip;;
     literal (txt "(");;
     map_err "Nested sorting commands in linker scripts is not supported" (not_ parse_sort)
   else mret tt);;
  skip;;
  name ← take_while 1 (fun b => negb (b =? 41) && negb (is_ascii_whitespace b));
  skip;;
  (if bool_decide (is_Some sort_kw) then
     literal (txt ")");;
     skip
   else mret tt);;
  mret (mkSectionPattern name (default false sort_kw)).

Definition parse_matcher_pattern : parser Matcher :=
  file_pattern ← parse_token;
  skip;;
  literal (txt "(");;
  skip;;
  '(patterns, _) ← repeat_till0 parse_pattern (literal (txt ")"));
  skip;;
  mret (mkMatcher false (if bool_decide (file_pattern = txt "*") then None else Some file_pattern) patterns).

Definition parse_keep : parser Matcher :=
  literal (txt "KEEP");;
  skip;;
  literal (txt "(");;
  matcher ← parse_matcher_pattern;
  literal (txt ")");;
  skip;;
  mret (mkMatcher true (input_file_pattern matcher) (input_section_name_patterns matcher)).

Definition parse_matcher : parser ContentsCommand :=
  matcher ← alt [parse_keep; parse_matcher_pattern];
  opt (literal (txt ";"));;
  skip;;
  mret (ContentsMatcher matcher).

Definition parse_assignment : parser ContentsCommand :=
  name ← parse_token;
  skip;;
  op ← parse_assignment_op;
  skip;;
  expr ← expression;
  let expanded := expand op name expr in
  let cmd := if bool_decide (name = txt ".") then ContentsSetLocation expanded else ContentsSymbolAssignment name expanded in
  opt (literal (txt ";"));;
  skip;;
  mret cmd.

Definition parse_constructors : parser ContentsCommand :=
  literal (txt "CONSTRUCTORS");;
  skip;;
  mret Constructors.

Definition parse_contents_command : parser ContentsCommand :=
  alt [parse_contents_provide; parse_contents_assert; parse_matcher; parse_assignment; parse_constructors].

(** ** Output sections *)
Definition section_attribute (s : list Z) : option SectionAttributes :=
  if bool_decide (s = txt "NOLOAD") then Some Noload
  else if bool_decide (s = txt "READONLY") then Some Readonly
  else if bool_decide (s = txt "DSECT") then Some Dsect
  else if bool_decide (s = txt "COPY") then Some Copy
  else if bool_decide (s = txt "INFO") then Some Info
  else if bool_decide (s = txt "OVERLAY") then Some Overlay
  else None.

Definition parse_section_attribute : parser SectionAttributes :=
  literal (txt "(");;
  skip;;
  section_type ← parse_token;
  skip;;
  match section_attribute section_type with
  | Some section_type => literal (txt ")");; mret section_type
  | None => fail mismatch
  end.

Definition parse_alignment : parser Alignment :=
  literal (txt "ALIGN");;
  skip;;
  literal (txt "(");;
  skip;;
  raw_alignment ← dec_uint;
  alignment ← match new raw_alignment with Ok alignment => mret alignment | _ => fail "Invalid alignment" end;
  skip;;
  literal (txt ")");;
  skip;;
  mret alignment.

Definition parse_at_address : parser Expression :=
  skip;;
  literal (txt "(");;
  skip;;
  address ← expression;
  skip;;
  literal (txt ")");;
  skip;;
  mret address.

(** [while !input.starts_with(b":")]: the type and the start address. *)
Fixpoint parse_section_start (n : nat) (start : option Expression) (section_type : option SectionAttributes) :
    parser (option Expression * option SectionAttributes) :=
  match n with
  | O => no_fuel
  | S n =>
      input ← get_input;
      if starts_with (txt ":") input then mret (start, section_type)
      else
        stype ← opt parse_section_attribute;
        match stype with
        | Some stype => skip;; parse_section_start n start (Some stype)
        | None => e ← expression; skip;; parse_section_start n (Some e) section_type
        end
  end.

(** [while !input.starts_with(b"{")]: the alignment and the load address. *)
Fixpoint parse_section_place (n : nat) (alignment : option Alignment) (at_address : option Expression) :
    parser (option Alignment * option Expression) :=
  match n with
  | O => no_fuel
  | S n =>
      input ← get_input;
      if starts_with (txt "{") input then mret (alignment, at_address)
      else
        at_ ← opt_is_some (literal (txt "AT"));
        if at_ : bool then address ← parse_at_address; parse_section_place n alignment (Some address)
        else a ← parse_alignment; parse_section_place n (Some a) at_address
  end.

Inductive SectionSuffix := SuffixPhdr | SuffixRegion | SuffixFill.

(** The loop after the contents. *)
Fixpoint parse_section_suffixes (n : nat) (phdrs : list (list Z)) (region : option (list Z)) (fill : option Expression) :
    parser (list (list Z) * option (list Z) * option Expression) :=
  match n with
  | O => no_fuel
  | S n =>
      prefix ← opt (alt [Parsers.value SuffixPhdr (literal (txt ":")); Parsers.value SuffixRegion (literal (txt ">"));
                         Parsers.value SuffixFill (literal (txt "="))]);
      match prefix with
      | Some SuffixPhdr => skip;; t ← parse_token; skip;; parse_section_suffixes n (phdrs ++ [t]) region fill
      | Some SuffixRegion => skip;; t ← parse_token; skip;; parse_section_suffixes n phdrs (Some t) fill
      | Some SuffixFill => skip;; e ← expression; skip;; parse_section_suffixes n phdrs region (Some e)
      | None => mret (phdrs, region, fill)
      end
  end.

(** An output section, after its name. *)
Definition parse_output_section (name : list Z) : parser SectionCommand :=
  '(start_address_expression, section_type) ← parse_section_start n None None;
  literal (txt ":");;
  skip;;
  '(alignment, at_address) ← parse_section_place n None None;
  literal (txt "{");;
  skip;;
  '(commands, _) ← repeat_till0 parse_contents_command (literal (txt "}"));
  skip;;
  '(phdrs, region, fill) ← parse_section_suffixes n [] None None;
  opt (literal (txt ","));;
  skip;;
  mret (SectionCommandSection (mkOutputSection name commands alignment start_address_expression phdrs at_address region fill section_type)).

Definition parse_section_command : parser SectionCommand :=
  name ← parse_token;
  skip;;
  if bool_decide (name = txt "ASSERT") then a ← parse_assert_command; mret (SectionAssert a)
  else if bool_decide (name = txt "PROVIDE") then p ← parse_provide false; mret (SectionProvide p)
  else if bool_decide (name = txt "PROVIDE_HIDDEN") then p ← parse_provide true; mret (SectionProvide p)
  else
    op ← opt parse_assignment_op;
    match op with
    | Some op =>
        skip;;
        expr ← expression;
        skip;;
        literal (txt ";");;
        skip;;
        let expanded := expand op name expr in
        mret (if bool_decide (name = txt ".") then SectionSetLocation expanded else SectionSymbolAssignment name expanded)
    | None => parse_output_section name
    end.

Definition parse_sections : parser (list SectionCommand) :=
  literal (txt "{");;
  skip;;
  '(commands, _) ← repeat_till0 parse_section_command (literal (txt "}"));
  skip;;
  mret commands.

(** ** Commands: the functions below call [parse_command] *)
Section Commands.
Context (parse_command : parser Command).

Definition parse_paren_group : parser (list Command) :=
  literal (txt "(");;
  skip;;
  '(group_contents, _) ← repeat_till0 parse_command (literal (txt ")"));
  mret group_contents.

(** The arms of [match command_str]. *)
Definition parse_command_body (command_str : list Z) : parser Command :=
  if bool_decide (command_str ∈ [txt "GROUP"; txt "INPUT"]) then subs ← parse_paren_group; mret (CommandGroup subs)
  else if bool_decide (command_str = txt "OUTPUT_FORMAT") then f ← parse_output_format; mret (CommandOutputFormat f)
  else if bool_decide (command_str = txt "OUTPUT_ARCH") then parse_paren_group;; mret CommandIgnored
  else if bool_decide (command_str = txt "AS_NEEDED") then subs ← parse_paren_group; mret (CommandAsNeeded subs)
  else if bool_decide (command_str = txt "SECTIONS") then s ← parse_sections; mret (CommandSections s)
  else if bool_decide (command_str = txt "ENTRY") then e ← parse_entry; mret (CommandEntry e)
  else if bool_decide (command_str = txt "VERSION") then v ← parse_version; mret (CommandVersion v)
  else if bool_decide (command_str = txt "PROVIDE") then p ← parse_provide false; mret (CommandProvide p)
  else if bool_decide (command_str = txt "PROVIDE_HIDDEN") then p ← parse_provide true; mret (CommandProvide p)
  else if bool_decide (command_str = txt "ASSERT") then
    a ← parse_assert_command;
    opt (literal (txt ";"));;
    skip;;
    mret (CommandAssert a)
  else if bool_decide (command_str = txt "MEMORY") then m ← parse_memory; mret (CommandMemory m)
  else if bool_decide (command_str = txt "PHDRS") then p ← parse_phdrs; mret (CommandPhdrs p)
  else
    op ← opt parse_assignment_op;
    match op with
    | Some op =>
        skip;;
        value ← expression;
        skip;;
        opt (literal (txt ";"));;
        let expanded := expand op command_str value in
        mret (if bool_decide (command_str = txt ".") then CommandSetLocation expanded else CommandSymbolDefinition command_str expanded)
    | None => mret (CommandArg command_str)
    end.

Definition parse_command_step : parser Command :=
  command_str ← parse_token;
  skip;;
  command ← parse_command_body command_str;
  skip;;
  mret command.
End Commands.
End Fuel.

Fixpoint parse_command (fuel : nat) : parser Command :=
  match fuel with
  | O => no_fuel
  | S n => parse_command_step (S n) (parse_command n)
  end.

Definition parse_commands (fuel : nat) : parser (list Command) :=
  skip_comments_and_whitespace fuel;;
  '(commands, _) ← repeat_till0 (parse_command fuel) eof;
  mret commands.

(** [Parser::parse] also asks for the end of the input. *)
Definition LinkerScript_parse (bytes : list Z) : outcome (list Command) :=
  match (commands ← parse_commands (S (length bytes)); eof;; mret commands) bytes with
  | Done (Ok (commands, _)) => Done (Ok commands)
  | Done (Err e) => Done (Err e)
  | Done Panic => Done Panic
  | OutOfFuel => OutOfFuel
  end.
End Parser.

(** ** What the parser returns *)

(** The value of an assignment: an expression of the script, or [name op expression]. *)
Definition well_formed_assignment (e : Expression) : bool :=
  well_formed e ||
  match e with
  | Add l r | Subtract l r | Multiply l r | Divide l r | LeftShift l r | RightShift l r | BitwiseAnd l r | BitwiseOr l r | BitwiseXor l r =>
      match l with LocationCounter | Symbol _ => well_formed r | _ => false end
  | _ => false
  end.

Definition well_formed_assert (a : AssertCommand) : bool := well_formed (assert_expression a) && is_token (assert_message a).

Definition well_formed_provide (p : ProvideSymbolDefinition) : bool := is_token (provide_name p) && well_formed (provide_value p).

Definition well_formed_matcher (m : Matcher) : bool :=
  match input_file_pattern m with Some p => is_token p && negb (bool_decide (p = txt "*")) | None => true end &&
  forallb (fun p => negb (bool_decide (pattern_name p = []))) (input_section_name_patterns m).

Definition well_formed_contents (c : ContentsCommand) : bool :=
  match c with
  | ContentsMatcher m => well_formed_matcher m
  | ContentsSymbolAssignment name e => is_token name && negb (bool_decide (name = txt ".")) && well_formed_assignment e
  | ContentsProvide p => well_formed_provide p
  | ContentsSetLocation e => well_formed_assignment e
  | Constructors => true
  | ContentsAssert a => well_formed_assert a
  end.

Definition opt_all {A} (f : A -> bool) (o : option A) : bool := match o with Some a => f a | None => true end.

Definition well_formed_section (s : OutputSection) : bool :=
  is_token (output_section_name s) && forallb well_formed_contents (section_commands s) &&
  opt_all (fun a => bool_decide (valid a)) (section_alignment s) && opt_all well_formed (start_address_expression s) &&
  forallb is_token (section_phdrs s) && opt_all well_formed (at_address s) && opt_all is_token (section_region s) &&
  opt_all well_formed (section_fill s).

Definition well_formed_section_command (c : SectionCommand) : bool :=
  match c with
  | SectionCommandSection s => well_formed_section s
  | SectionSetLocation e => well_formed_assignment e
  | SectionAssert a => well_formed_assert a
  | SectionProvide p => well_formed_provide p
  | SectionSymbolAssignment name e => is_token name && negb (bool_decide (name = txt ".")) && well_formed_assignment e
  end.

Definition well_formed_region (r : MemoryRegion) : bool :=
  is_token (region_name r) && well_formed (region_origin r) && well_formed (region_length r).

Definition well_formed_phdr (p : Phdr) : bool :=
  is_token (phdr_name p) && well_formed (phdr_ptype p) && opt_all well_formed (phdr_flags p).

(** Braces are balanced, and none closes that was not opened. *)
Fixpoint balanced (open : Z) (s : list Z) : bool :=
  match s with
  | [] => open =? 0
  | b :: s => if b =? 123 then balanced (open + 1) s else if b =? 125 then (0 <? open) && balanced (open - 1) s else balanced open s
  end.

Fixpoint well_formed_command (c : Command) : bool :=
  match c with
  | CommandArg s | CommandEntry s => is_token s
  | CommandVersion s => balanced 0 s
  | CommandGroup subs | CommandAsNeeded subs => forallb well_formed_command subs
  | CommandIgnored => true
  | CommandSections l => forallb well_formed_section_command l
  | CommandSymbolDefinition name e => is_token name && negb (bool_decide (name = txt ".")) && well_formed_assignment e
  | CommandSetLocation e => well_formed_assignment e
  | CommandProvide p => well_formed_provide p
  | CommandAssert a => well_formed_assert a
  | CommandMemory l => forallb well_formed_region l
  | CommandPhdrs l => forallb well_formed_phdr l
  | CommandOutputFormat f => is_token (format_default f) && opt_all is_token (format_big f) && opt_all is_token (format_little f)
  end.

Section Total.
Context {W : Winnow} {L : WinnowLaws W}.

Lemma parses_assignment_op n : parses (fun _ => True) true n parse_assignment_op parse_assignment_op.
Proof. unfold parse_assignment_op. known. Qed.
#[local] Hint Resolve parses_assignment_op : parses.

Lemma expand_wf op name e : well_formed e = true -> well_formed_assignment (expand op name e) = true.
Proof. intros He. unfold well_formed_assignment. destruct op; cbn [expand]; rewrite ?He; try done; case_bool_decide; cbn; by rewrite orb_true_r. Qed.

Lemma count_braces_spec l : forall c pos pos', 0 < c < 2 ^ 31 -> count_braces c pos l = (0, pos') ->
  exists s r, l = s ++ 125 :: r /\ pos' = (pos + S (length s))%nat /\ balanced (c - 1) s = true.
Proof.
  change (2 ^ 31) with 2147483648.
  induction l as [|b l IH]; intros c pos pos' Hc; cbn [count_braces]; [intros [= ? ?]; lia|].
  rewrite (proj2 (Z.ltb_lt 0 c)) by lia. intros H.
  destruct (Z.eqb_spec b 123) as [->|Ho]; [|destruct (Z.eqb_spec b 125) as [->|Hc']].
  - destruct (decide (c + 1 < 2147483648)) as [Hlt|Hge].
    + rewrite signed_of_signed in H by (unfold in_i; lia). destruct (IH (c + 1) _ _ ltac:(lia) H) as (s & r & -> & -> & Hb).
      exists (123 :: s), r. split_and!; [done|cbn; lia|]. cbn. by replace (c - 1 + 1) with (c + 1 - 1) by lia.
    + assert (signed 32 (c + 1) = - 2147483648) as E by (assert (c + 1 = 2147483648) as -> by lia; done). rewrite E in H. by destruct l.
  - rewrite signed_of_signed in H by (unfold in_i; lia). destruct (decide (c = 1)) as [->|Hne].
    + exists [], l. assert (pos' = S pos) as -> by (by destruct l; injection H). split_and!; [done|cbn; lia|done].
    + destruct (IH (c - 1) _ _ ltac:(lia) H) as (s & r & -> & -> & Hb). exists (125 :: s), r. split_and!; [done|cbn; lia|].
      cbn [balanced]. rewrite (proj2 (Z.ltb_lt _ _)) by lia. done.
  - destruct (IH c _ _ ltac:(lia) H) as (s & r & -> & -> & Hb). exists (b :: s), r. split_and!; [done|cbn; lia|].
    cbn [balanced]. by rewrite (proj2 (Z.eqb_neq _ _) Ho), (proj2 (Z.eqb_neq _ _) Hc').
Qed.

Lemma version_content_spec l s r : version_content l = Done (Ok (s, r)) -> l = s ++ 125 :: r /\ balanced 0 s = true.
Proof.
  unfold version_content, mbind, parser_bind, get_input, set_input. destruct (count_braces 1 0 l) as [c pos] eqn:E.
  destruct (Z.eqb_spec c 0) as [->|]; [|done]. destruct (count_braces_spec l 1 0 pos ltac:(lia) E) as (s' & r' & -> & -> & Hb).
  cbn [negb mret parser_ret]. intros [= <- <-]. change (0 + S (length s'))%nat with (S (length s')). cbn [Nat.sub]. rewrite Nat.sub_0_r.
  rewrite take_app_length. rewrite (cons_middle 125), app_assoc.
  assert (S (length s') = length (s' ++ [125])) as -> by (rewrite length_app; cbn; lia). rewrite drop_app_length. by rewrite <- app_assoc.
Qed.

Lemma parses_version_content n : parses (fun s => balanced 0 s = true) true n version_content version_content.
Proof.
  apply parses_of. intros l. destruct (version_content l) as [[[s r]| |]|] eqn:E; try done.
  - apply version_content_spec in E as [-> Hb]. split; [done|]. exists (s ++ [125]). rewrite <- app_assoc. split; [done|]. by destruct s.
  - unfold version_content, mbind, parser_bind, get_input in E. destruct (count_braces 1 0 l) as [c pos]. by destruct (c =? 0).
  - unfold version_content, mbind, parser_bind, get_input in E. destruct (count_braces 1 0 l) as [c pos]. by destruct (c =? 0).
Qed.
#[local] Hint Resolve parses_version_content : parses.

Local Arguments well_formed : simpl never.
Local Arguments is_token : simpl never.
Ltac all_true := unfold wf in *; cbn; repeat match goal with H : _ = true |- _ => rewrite H end; done.

Lemma dot_or_name (name : list Z) e : is_token name = true -> well_formed_assignment e = true -> bool_decide (name = txt ".") = false ->
  is_token name && negb (bool_decide (name = txt ".")) && well_formed_assignment e = true.
Proof. by intros -> -> ->. Qed.

Ltac assigned := match goal with |- context [if bool_decide ?P then _ else _] => destruct (bool_decide P) eqn:? end;
  [by apply expand_wf|by apply dot_or_name; [|apply expand_wf|]].

Section Fuel.
Context (n m : nat).

Lemma parses_assert_command s k : (k <= n)%nat -> (k <= m)%nat ->
  parses (fun a => well_formed_assert a = true) s k (parse_assert_command n) (parse_assert_command m).
Proof.
  intros Hn Hm. destruct k as [|k]; [apply parses_zero|]. unfold parse_assert_command.
  eapply parses_seq_strict; [apply (parses_assert n m k); [lia|lia|apply parses_expression; lia|lia]|].
  intros [[e message] r] [He Ht]. apply parses_ret. by apply andb_true_iff.
Qed.

Lemma parses_provide hidden s k : (k <= n)%nat -> (k <= m)%nat ->
  parses (fun p => well_formed_provide p = true) s k (parse_provide n hidden) (parse_provide m hidden).
Proof. intros Hn Hm. unfold parse_provide. parsing; by apply andb_true_iff. Qed.
#[local] Hint Resolve parses_assert_command parses_provide : parses.

Lemma parses_memory_region s k : (k <= n)%nat -> (k <= m)%nat ->
  parses (fun r => well_formed_region r = true) s k (parse_memory_region n) (parse_memory_region m).
Proof. intros Hn Hm. unfold parse_memory_region. parsing; unfold well_formed_region; all_true. Qed.
#[local] Hint Resolve parses_memory_region : parses.

Lemma parses_memory s k : (k <= n)%nat -> (k <= m)%nat ->
  parses (fun l => forallb well_formed_region l = true) s k (parse_memory n) (parse_memory m).
Proof. intros Hn Hm. unfold parse_memory. parsing. apply forallb_iff. tauto. Qed.

Lemma parses_phdr_keywords u : forall v k flags f p, (k <= n)%nat -> (k <= m)%nat -> (k <= u)%nat -> (k <= v)%nat ->
  opt_all well_formed flags = true ->
  parses (fun '(flags, _, _) => opt_all well_formed flags = true) false k (parse_phdr_keywords n u flags f p) (parse_phdr_keywords m v flags f p).
Proof.
  induction u as [|u IH]; intros v k flags f p Hn Hm Hu Hv Hfl; [replace k with 0%nat by lia; apply parses_zero|].
  destruct v as [|v]; [replace k with 0%nat by lia; apply parses_zero|]. cbn [parse_phdr_keywords].
  parsing.
Qed.

#[local] Hint Resolve parses_phdr_keywords : parses.
#[local] Hint Extern 1 (_ = true) => reflexivity : parses.

Lemma phdr_type_wf t k : phdr_type t = Some k -> well_formed (Number k) = true.
Proof. unfold phdr_type. intros H. repeat (case_bool_decide; [by injection H as <-|]). done. Qed.

Lemma parses_phdr s k : (k <= n)%nat -> (k <= m)%nat ->
  parses (fun r => well_formed_phdr r = true) s k (parse_phdr n) (parse_phdr m).
Proof.
  intros Hn Hm. unfold parse_phdr. parsing; unfold well_formed_phdr.
  all: repeat match goal with H : phdr_type _ = Some _ |- _ => apply phdr_type_wf in H end; all_true.
Qed.
#[local] Hint Resolve parses_phdr : parses.

Lemma parses_phdrs s k : (k <= n)%nat -> (k <= m)%nat ->
  parses (fun l => forallb well_formed_phdr l = true) s k (parse_phdrs n) (parse_phdrs m).
Proof. intros Hn Hm. unfold parse_phdrs. parsing. apply forallb_iff. tauto. Qed.

Lemma parses_output_format s k : (k <= n)%nat -> (k <= m)%nat ->
  parses (fun f => is_token (format_default f) && opt_all is_token (format_big f) && opt_all is_token (format_little f) = true) s k
    (parse_output_format n) (parse_output_format m).
Proof. intros Hn Hm. unfold parse_output_format. parsing; all_true. Qed.

Lemma parses_entry s k : (k <= n)%nat -> (k <= m)%nat -> parses (fun e => is_token e = true) s k (parse_entry n) (parse_entry m).
Proof. intros Hn Hm. unfold parse_entry. parsing. Qed.

Lemma parses_version s k : (k <= n)%nat -> (k <= m)%nat -> parses (fun v => balanced 0 v = true) s k (parse_version n) (parse_version m).
Proof. intros Hn Hm. unfold parse_version. parsing. Qed.

(** ** Contents and sections *)
Lemma parses_contents_provide k : (k <= n)%nat -> (k <= m)%nat ->
  parses (fun c => well_formed_contents c = true) true k (parse_contents_provide n) (parse_contents_provide m).
Proof. intros Hn Hm. unfold parse_contents_provide. parsing. Qed.

Lemma parses_contents_assert k : (k <= n)%nat -> (k <= m)%nat ->
  parses (fun c => well_formed_contents c = true) true k (parse_contents_assert n) (parse_contents_assert m).
Proof. intros Hn Hm. unfold parse_contents_assert. parsing. Qed.

Lemma parses_sort k : parses (fun _ => True) true k parse_sort parse_sort.
Proof. unfold parse_sort. known. Qed.
#[local] Hint Resolve parses_sort : parses.

Lemma parses_pattern k : (k <= n)%nat -> (k <= m)%nat ->
  parses (fun p => negb (bool_decide (pattern_name p = [])) = true) true k (parse_pattern n) (parse_pattern m).
Proof.
  intros Hn Hm. unfold parse_pattern. parsing; apply negb_true_iff, bool_decide_eq_false; cbn.
  - by destruct a4 as [|]; [cbn in H4; lia|].
  - by destruct a0 as [|]; [cbn in H0; lia|].
Qed.
#[local] Hint Resolve parses_pattern : parses.

Lemma parses_matcher_pattern k : (k <= n)%nat -> (k <= m)%nat ->
  parses (fun c => well_formed_matcher c = true) true k (parse_matcher_pattern n) (parse_matcher_pattern m).
Proof.
  intros Hn Hm. unfold parse_matcher_pattern. parsing. apply andb_true_iff. cbn. split; [|apply forallb_iff; tauto].
  case_bool_decide as E; [done|]. cbn. by rewrite H, bool_decide_false.
Qed.
#[local] Hint Resolve parses_matcher_pattern : parses.

Lemma parses_keep k : (k <= n)%nat -> (k <= m)%nat -> parses (fun c => well_formed_matcher c = true) true k (parse_keep n) (parse_keep m).
Proof. intros Hn Hm. unfold parse_keep. parsing. Qed.
#[local] Hint Resolve parses_keep : parses.

Lemma parses_matcher k : (k <= n)%nat -> (k <= m)%nat ->
  parses (fun c => well_formed_contents c = true) true k (parse_matcher n) (parse_matcher m).
Proof. intros Hn Hm. unfold parse_matcher. parsing. Qed.

Lemma parses_assignment k : (k <= n)%nat -> (k <= m)%nat ->
  parses (fun c => well_formed_contents c = true) true k (parse_assignment n) (parse_assignment m).
Proof.
  intros Hn Hm. unfold parse_assignment. parsing; assigned.
Qed.

Lemma parses_constructors k : (k <= n)%nat -> (k <= m)%nat ->
  parses (fun c => well_formed_contents c = true) true k (parse_constructors n) (parse_constructors m).
Proof. intros Hn Hm. unfold parse_constructors. parsing. Qed.

#[local] Hint Resolve parses_contents_provide parses_contents_assert parses_matcher parses_assignment parses_constructors : parses.
Lemma parses_contents_command k : (k <= n)%nat -> (k <= m)%nat ->
  parses (fun c => well_formed_contents c = true) true k (parse_contents_command n) (parse_contents_command m).
Proof.
  intros Hn Hm. unfold parse_contents_command. known.
Qed.
#[local] Hint Resolve parses_contents_command : parses.

Lemma parses_section_attribute k : (k <= n)%nat -> (k <= m)%nat ->
  parses (fun _ => True) true k (parse_section_attribute n) (parse_section_attribute m).
Proof. intros Hn Hm. unfold parse_section_attribute. parsing. Qed.
#[local] Hint Resolve parses_section_attribute : parses.

Lemma new_spec raw a : new raw = Ok a -> valid a.
Proof.
  unfold new, trailing_zeros. destruct (is_power_of_two raw) eqn:E; [|done]. cbn. destruct (Z.ltb_spec MAX_ALIGNMENT_EXPONENT (Z.log2 raw)); [done|].
  intros [= <-]. split; [apply Z.log2_nonneg|done].
Qed.

Lemma parses_alignment k : (k <= n)%nat -> (k <= m)%nat ->
  parses (fun a => bool_decide (valid a) = true) true k (parse_alignment n) (parse_alignment m).
Proof. intros Hn Hm. unfold parse_alignment. parsing. eapply bool_decide_eq_true, new_spec. done. Qed.

Lemma parses_at_address k : (k <= n)%nat -> (k <= m)%nat -> parses wf true k (parse_at_address n) (parse_at_address m).
Proof. intros Hn Hm. unfold parse_at_address. parsing. Qed.
#[local] Hint Resolve parses_alignment parses_at_address : parses.

Lemma parses_section_start u : forall v k start t, (k <= n)%nat -> (k <= m)%nat -> (k <= u)%nat -> (k <= v)%nat ->
  opt_all well_formed start = true ->
  parses (fun '(start, _) => opt_all well_formed start = true) false k (parse_section_start n u start t) (parse_section_start m v start t).
Proof.
  induction u as [|u IH]; intros v k start t Hn Hm Hu Hv Hs; [replace k with 0%nat by lia; apply parses_zero|].
  destruct v as [|v]; [replace k with 0%nat by lia; apply parses_zero|]. cbn [parse_section_start].
  parsing.
Qed.

Lemma parses_section_place u : forall v k a e, (k <= n)%nat -> (k <= m)%nat -> (k <= u)%nat -> (k <= v)%nat ->
  opt_all (fun a => bool_decide (valid a)) a = true -> opt_all well_formed e = true ->
  parses (fun '(a, e) => opt_all (fun a => bool_decide (valid a)) a = true /\ opt_all well_formed e = true) false k
    (parse_section_place n u a e) (parse_section_place m v a e).
Proof.
  induction u as [|u IH]; intros v k a e Hn Hm Hu Hv Ha He; [replace k with 0%nat by lia; apply parses_zero|].
  destruct v as [|v]; [replace k with 0%nat by lia; apply parses_zero|]. cbn [parse_section_place].
  parsing.
Qed.

Lemma parses_section_suffixes u : forall v k phdrs region fill, (k <= n)%nat -> (k <= m)%nat -> (k <= u)%nat -> (k <= v)%nat ->
  forallb is_token phdrs = true -> opt_all is_token region = true -> opt_all well_formed fill = true ->
  parses (fun '(phdrs, region, fill) => forallb is_token phdrs = true /\ opt_all is_token region = true /\ opt_all well_formed fill = true) false k
    (parse_section_suffixes n u phdrs region fill) (parse_section_suffixes m v phdrs region fill).
Proof.
  induction u as [|u IH]; intros v k phdrs region fill Hn Hm Hu Hv Hp Hr Hf; [replace k with 0%nat by lia; apply parses_zero|].
  destruct v as [|v]; [replace k with 0%nat by lia; apply parses_zero|]. cbn [parse_section_suffixes].
  parsing. apply IH; try lia; try done. rewrite forallb_app, Hp. cbn. by rewrite H1.
Qed.
#[local] Hint Resolve parses_section_start parses_section_place parses_section_suffixes : parses.

Lemma parses_output_section name k : (k <= n)%nat -> (k <= m)%nat -> is_token name = true ->
  parses (fun c => well_formed_section_command c = true) false k (parse_output_section n name) (parse_output_section m name).
Proof.
  intros Hn Hm Hname. unfold parse_output_section. parsing.
  all: repeat match goal with H : _ /\ _ |- _ => destruct H end.
  all: unfold well_formed_section_command, well_formed_section; cbn.
  all: match goal with H : Forall _ ?l |- context [forallb well_formed_contents ?l] => apply forallb_iff in H end.
  all: all_true.
Qed.
#[local] Hint Resolve parses_output_section : parses.

Lemma parses_section_command k : (k <= n)%nat -> (k <= m)%nat ->
  parses (fun c => well_formed_section_command c = true) true k (parse_section_command n) (parse_section_command m).
Proof.
  intros Hn Hm. unfold parse_section_command. parsing; assigned.
Qed.
#[local] Hint Resolve parses_section_command : parses.

Lemma parses_sections s k : (k <= n)%nat -> (k <= m)%nat ->
  parses (fun l => forallb well_formed_section_command l = true) s k (parse_sections n) (parse_sections m).
Proof. intros Hn Hm. unfold parse_sections. parsing. apply forallb_iff. tauto. Qed.
#[local] Hint Resolve parses_sections parses_memory parses_phdrs parses_output_format parses_entry parses_version : parses.

(** ** Commands *)
Section Commands.
Context (p q : parser Command) (j : nat).
Hypothesis Hp : parses (fun c => well_formed_command c = true) true j p q.

Lemma parses_paren_group s k : (k <= n)%nat -> (k <= m)%nat -> (k <= S j)%nat ->
  parses (fun l => forallb well_formed_command l = true) s k (parse_paren_group n p) (parse_paren_group m q).
Proof. intros Hn Hm Hj. unfold parse_paren_group. parsing. apply forallb_iff. tauto. Qed.
#[local] Hint Resolve parses_paren_group : parses.

Lemma parses_command_body t k : (k <= n)%nat -> (k <= m)%nat -> (k <= S j)%nat -> is_token t = true ->
  parses (fun c => well_formed_command c = true) false k (parse_command_body n p t) (parse_command_body m q t).
Proof.
  intros Hn Hm Hj Ht. unfold parse_command_body. parsing; assigned.
Qed.
#[local] Hint Resolve parses_command_body : parses.

Lemma parses_command_step k : (k <= n)%nat -> (k <= m)%nat -> (k <= S j)%nat ->
  parses (fun c => well_formed_command c = true) true k (parse_command_step n p) (parse_command_step m q).
Proof. intros Hn Hm Hj. unfold parse_command_step. parsing. Qed.
End Commands.
End Fuel.

Lemma parses_command n : forall m k, (k <= n)%nat -> (k <= m)%nat ->
  parses (fun c => well_formed_command c = true) true k (parse_command n) (parse_command m).
Proof.
  induction n as [|n IH]; intros m k Hn Hm; [replace k with 0%nat by lia; apply parses_zero|].
  destruct m as [|m]; [replace k with 0%nat by lia; apply parses_zero|]. destruct k as [|k]; [apply parses_zero|].
  apply (parses_command_step (S n) (S m) (parse_command n) (parse_command m) k); [apply IH; lia|lia..].
Qed.
#[local] Hint Resolve parses_command : parses.

Lemma parses_commands n m k : (k <= n)%nat -> (k <= m)%nat ->
  parses (fun l => Forall (fun c => well_formed_command c = true) l) false k (parse_commands n) (parse_commands m).
Proof. intros Hn Hm. unfold parse_commands. parsing. tauto. Qed.

(** C22. The parser of linker scripts ends on every input and does not panic, with the fuel it is
    given; more fuel does not change what it returns.  The commands are well formed: names are
    tokens, expressions are well formed, alignments are valid, the text of a [VERSION] command
    has balanced braces. *)
Theorem parse_script_total bytes :
  (forall fuel, (length bytes < fuel)%nat -> parse_commands fuel bytes = parse_commands (S (length bytes)) bytes) /\
  match LinkerScript_parse bytes with
  | Done (Ok commands) => Forall (fun c => well_formed_command c = true) commands
  | Done (Err _) => True
  | _ => False
  end.
Proof.
  split. { intros fuel Hf. by apply (parses_commands fuel (S (length bytes)) (S (length bytes)) ltac:(lia) ltac:(lia)); lia. }
  unfold LinkerScript_parse.
  assert (parses (fun l => Forall (fun c => well_formed_command c = true) l) false (S (length bytes))
    (commands ← parse_commands (S (length bytes)); eof;; mret commands) (commands ← parse_commands (S (length bytes)); eof;; mret commands)) as H.
  { pose proof (parses_commands (S (length bytes)) (S (length bytes)) (S (length bytes))). parsing. }
  destruct (H bytes ltac:(lia)) as [_ Hp]. match type of Hp with match ?x with _ => _ end => destruct x as [[[l r]| |]|] end; try done.
  apply Hp.
Qed.
End Total.

Lemma parse_script_total_witness : exists commands, LinkerScript_parse (txt "SECTIONS { .a : ALIGN(8) { *(.b) x = .; } > r } y += 2; VERSION { V { *; }; }") = Done (Ok commands) /\
  Forall (fun c => well_formed_command c = true) commands.
Proof.
  eexists. split; [vm_compute; reflexivity|].
  exact (proj2 (parse_script_total (W := reference) (txt "SECTIONS { .a : ALIGN(8) { *(.b) x = .; } > r } y += 2; VERSION { V { *; }; }"))).
Defined.
