(* ===== verification/ScriptInputs.v ===== *)
(** The inputs that a linker script asks for: [foreach_input] and [get_version_script_content]
    of [libjdxld/src/linker_script.rs].

    [foreach_input_args] flattens the walk over the commands; [parse_print_inputs] reads back
    the text of scripts of [INPUT], [GROUP] and [AS_NEEDED] commands, so that the two together
    say which inputs, in which order and with which modifiers, the linker loads. *)
From Stdlib Require Import ZArith Lia.
From stdpp Require Import base list list_numbers numbers strings option.
From S2P Require Import Prelude Parsers Expressions ScriptExpressions ScriptPrint ScriptParser.

Local Open Scope Z_scope.

Definition is_Done_Ok {A} (o : outcome A) : bool := match o with Done (Ok _) => true | _ => false end.

(** ** The inputs of a script *)

(** Bytes that [str::from_utf8] accepts: the well-formed sequences of UTF-8. *)
Definition in_range (lo hi b : Z) : bool := (lo <=? b) && (b <=? hi).
Definition continuation (b : Z) : bool := in_range 128 191 b.

Fixpoint is_utf8 (s : list Z) : bool :=
  match s with
  | [] => true
  | b :: s =>
      if in_range 0 127 b then is_utf8 s
      else match s with
      | [] => false
      | c :: s =>
          if in_range 194 223 b then continuation c && is_utf8 s
          else match s with
          | [] => false
          | d :: s =>
              if b =? 224 then in_range 160 191 c && continuation d && is_utf8 s
              else if in_range 225 236 b || in_range 238 239 b then continuation c && continuation d && is_utf8 s
              else if b =? 237 then in_range 128 159 c && continuation d && is_utf8 s
              else match s with
              | [] => false
              | e :: s =>
                  if b =? 240 then in_range 144 191 c && continuation d && continuation e && is_utf8 s
                  else if in_range 241 243 b then continuation c && continuation d && continuation e && is_utf8 s
                  else if b =? 244 then in_range 128 143 c && continuation d && continuation e && is_utf8 s
                  else false
              end
          end
      end
  end.

Definition to_str (bytes : list Z) : res (list Z) := if is_utf8 bytes then Ok bytes else Err "Expected UTF-8, found `{}`".

(** [args::Modifiers], [args::InputSpec] and [args::Input]; [search_first] is [None] here. *)
Record Modifiers := mkModifiers {
  as_needed : bool;
  allow_shared : bool;
  whole_archive : bool;
  archive_semantics : bool;
  temporary : bool
}.

Definition set_as_needed (m : Modifiers) : Modifiers :=
  mkModifiers true (allow_shared m) (whole_archive m) (archive_semantics m) (temporary m).

Inductive InputSpec := InputFile (path : list Z) | InputLib (name : list Z) | InputSearch (name : list Z).

Record Input := mkInput { input_spec : InputSpec; search_first : option (list Z); input_modifiers : Modifiers }.

(** The input of an [Arg] command. *)
Definition arg_input (modifiers : Modifiers) (arg : list Z) : res Input :=
  spec ← match strip_prefix (txt "-l") arg with
    | Some lib_name => InputLib <$> to_str lib_name
    | None => InputFile <$> to_str arg
    end;
  Ok (mkInput spec None modifiers).

Local Arguments arg_input : simpl never.

Section Inputs.
Context {S : Type} (cb : Input -> S -> res S).

Fixpoint foreach_command (modifiers : Modifiers) (command : Command) (s : S) : res S :=
  let foreach_input := fix foreach_input modifiers commands s :=
    match commands with
    | [] => Ok s
    | command :: commands => s ← foreach_command modifiers command s; foreach_input modifiers commands s
    end in
  match command with
  | CommandArg arg => input ← arg_input modifiers arg; cb input s
  | CommandGroup subs => foreach_input modifiers subs s
  | CommandAsNeeded subs => foreach_input (set_as_needed modifiers) subs s
  | _ => Ok s
  end.

Fixpoint foreach_input (modifiers : Modifiers) (commands : list Command) (s : S) : res S :=
  match commands with
  | [] => Ok s
  | command :: commands => s ← foreach_command modifiers command s; foreach_input modifiers commands s
  end.

Lemma foreach_command_group modifiers subs s : foreach_command modifiers (CommandGroup subs) s = foreach_input modifiers subs s.
Proof. reflexivity. Qed.

Lemma foreach_command_as_needed modifiers subs s :
  foreach_command modifiers (CommandAsNeeded subs) s = foreach_input (set_as_needed modifiers) subs s.
Proof. reflexivity. Qed.
End Inputs.

(** [LinkerScript::get_version_script_content]. *)
Fixpoint get_version_script_content (commands : list Command) : option (list Z) :=
  match commands with
  | CommandVersion content :: _ => Some content
  | _ :: commands => get_version_script_content commands
  | [] => None
  end.

(** The arguments of a script in order, with the modifiers that apply to them. *)
Fixpoint command_args (modifiers : Modifiers) (command : Command) : list (list Z * Modifiers) :=
  match command with
  | CommandArg arg => [(arg, modifiers)]
  | CommandGroup subs => concat (map (command_args modifiers) subs)
  | CommandAsNeeded subs => concat (map (command_args (set_as_needed modifiers)) subs)
  | _ => []
  end.

(** Induction on commands. *)
Lemma command_induction (P : Command -> Prop) :
  (forall subs, Forall P subs -> P (CommandGroup subs)) -> (forall subs, Forall P subs -> P (CommandAsNeeded subs)) ->
  (forall c, match c with CommandGroup _ | CommandAsNeeded _ => False | _ => True end -> P c) -> forall c, P c.
Proof.
  intros Hg Ha Hr. fix IH 1. intros c. pose proof (Hr c) as H. destruct c; try exact (H I).
  - clear H. apply Hg. induction subs as [|d subs IHs]; constructor; [exact (IH d)|exact IHs].
  - clear H. apply Ha. induction subs as [|d subs IHs]; constructor; [exact (IH d)|exact IHs].
Qed.

(** The callback on every argument in turn, until an error. *)
Fixpoint visit_args {S} (cb : Input -> S -> res S) (args : list (list Z * Modifiers)) (s : S) : res S :=
  match args with
  | [] => Ok s
  | (arg, modifiers) :: args => input ← arg_input modifiers arg; s ← cb input s; visit_args cb args s
  end.

Lemma visit_args_app {S} (cb : Input -> S -> res S) a b s : visit_args cb (a ++ b) s = (s ← visit_args cb a s; visit_args cb b s).
Proof.
  revert s. induction a as [|[arg m] a IH]; intros s; cbn; [done|]. destruct (arg_input m arg) as [input|e|]; cbn; [|done..]. destruct (cb input s); cbn; [|done..].
  apply IH.
Qed.

Lemma foreach_command_args {S} (cb : Input -> S -> res S) c : forall m s, foreach_command cb m c s = visit_args cb (command_args m c) s.
Proof.
  assert (forall subs, Forall (fun c => forall m s, foreach_command cb m c s = visit_args cb (command_args m c) s) subs ->
    forall m s, foreach_input cb m subs s = visit_args cb (concat (map (command_args m) subs)) s) as Hl.
  { intros subs H m. induction H as [|d subs Hd _ IH]; intros s; cbn; [done|]. rewrite visit_args_app, Hd. destruct (visit_args cb (command_args m d) s); cbn; [apply IH|done..]. }
  induction c as [subs IH|subs IH|c Hc] using command_induction; [intros m s..|].
  - rewrite foreach_command_group. by apply Hl.
  - rewrite foreach_command_as_needed. by apply Hl.
  - destruct c; try done. intros m s. cbn. destruct (arg_input m arg) as [input|e|]; cbn; [|done..]. by destruct (cb input s).
Qed.

(** The callback runs once for every argument of the script, in the order of the text, with
    [as_needed] set inside [AS_NEEDED] and the other modifiers as given; the first error ends
    the walk. *)
Theorem foreach_input_args {S} (cb : Input -> S -> res S) modifiers commands s :
  foreach_input cb modifiers commands s = visit_args cb (concat (map (command_args modifiers) commands)) s.
Proof.
  revert s. induction commands as [|c commands IH]; intros s; cbn; [done|]. rewrite visit_args_app, foreach_command_args.
  destruct (visit_args cb (command_args modifiers c) s); cbn; [apply IH|done..].
Qed.

(** ** The round trip of input scripts *)
Definition keywords : list (list Z) :=
  [txt "GROUP"; txt "INPUT"; txt "OUTPUT_FORMAT"; txt "OUTPUT_ARCH"; txt "AS_NEEDED"; txt "SECTIONS"; txt "ENTRY"; txt "VERSION";
   txt "PROVIDE"; txt "PROVIDE_HIDDEN"; txt "ASSERT"; txt "MEMORY"; txt "PHDRS"].

(** A keyword is one even in quotes. *)
Fixpoint input_command (c : Command) : bool :=
  match c with
  | CommandArg arg => no_quote arg && bool_decide (arg ∉ keywords)
  | CommandGroup subs | CommandAsNeeded subs => forallb input_command subs
  | _ => false
  end.

Fixpoint print_command (c : Command) : list Z :=
  match c with
  | CommandArg arg => print_token arg
  | CommandGroup subs => txt "INPUT" ++ txt "(" ++ concat (map print_command subs) ++ txt ")"
  | CommandAsNeeded subs => txt "AS_NEEDED" ++ txt "(" ++ concat (map print_command subs) ++ txt ")"
  | _ => []
  end.

Definition print_commands (commands : list Command) : list Z := concat (map print_command commands).

(** What follows a command: the end, a command or a closing parenthesis. *)
Definition next_ok (l : list Z) : Prop := match l with [] => True | c :: _ => c ∈ txt "IA)" ++ [34] end.

Section RoundTrip.
Context {W : Winnow} {L : WinnowLaws W}.

Lemma next_ok_cases c : c ∈ txt "IA)" ++ [34] <-> c = 73 \/ c = 65 \/ c = 41 \/ c = 34.
Proof. change (txt "IA)" ++ [34]) with [73; 65; 41; 34]. rewrite !elem_of_cons, elem_of_nil. tauto. Qed.

Lemma print_command_start c : input_command c = true -> exists b r, print_command c = b :: r /\ (b = 73 \/ b = 65 \/ b = 34).
Proof. destruct c; try done; intros _; eexists _, _; (split; [reflexivity|tauto]). Qed.

Lemma print_commands_next l rest : forallb input_command l = true -> next_ok rest -> next_ok (print_commands l ++ rest).
Proof.
  intros Hl Hr. destruct l as [|c l]; [done|]. cbn in Hl. apply andb_true_iff in Hl as [Hc _]. unfold print_commands. cbn.
  destruct (print_command_start c Hc) as (b & r & -> & [->|[->| ->]]); unfold next_ok; cbn [app]; apply next_ok_cases; tauto.
Qed.

Lemma skip_next n l : (0 < n)%nat -> next_ok l -> skip_comments_and_whitespace n l = Done (Ok (tt, l)).
Proof.
  intros Hn Hl. destruct n as [|n]; [lia|]. destruct l as [|c l]; [by apply skip_none|].
  apply next_ok_cases in Hl as [->|[->|[->| ->]]]; apply skip_none; by repeat split; left.
Qed.

Lemma assignment_op_none l : next_ok l -> exists e, parse_assignment_op l = Done (Err e).
Proof.
  intros Hl. unfold parse_assignment_op. eexists. destruct l as [|c l]; [by operators|].
  apply next_ok_cases in Hl as [->|[->|[->| ->]]]; by operators.
Qed.

Lemma word_text s rest : Forall (fun b => token_byte b = true) s -> s <> [] -> first_byte (fun b => negb (b =? 34)) s = true ->
  parse_token (s ++ 40 :: rest) = Done (Ok (s, 40 :: rest)).
Proof.
  intros Hf Hs H0. unfold parse_token, mbind at 1, parser_bind at 1, get_input.
  assert (starts_with [34] (s ++ 40 :: rest) = false) as ->.
  { apply not_true_iff_false. intros [t Ht]%starts_with_spec. destruct s as [|c s]; [done|]. injection Ht as -> _. done. }
  rewrite take_while_law, run_of_app by done. by destruct s.
Qed.

Lemma bind_cong {A B} (p : parser A) (f : A -> parser B) l : (p ≫= f) l = match p l with
  | Done (Ok (a, r)) => f a r | Done (Err e) => Done (Err e) | Done Panic => Done Panic | OutOfFuel => OutOfFuel end.
Proof. done. Qed.

Lemma repeat_commands {B} (p : parser Command) (stop : parser B) b l rest rest' :
  stop rest = Done (Ok (b, rest')) -> (forall c r, (c = 73 \/ c = 65 \/ c = 34) -> exists e, stop (c :: r) = Done (Err e)) ->
  Forall (fun c => input_command c = true) l ->
  (forall pre c post, l = pre ++ c :: post -> p (print_command c ++ print_commands post ++ rest) = Done (Ok (c, print_commands post ++ rest))) ->
  repeat_till0 p stop (print_commands l ++ rest) = Done (Ok ((l, b), rest')).
Proof.
  intros Hstop Hno Hi. induction Hi as [|c l Hc _ IH]; intros Hp; rewrite repeat_till0_law.
  - cbn. by rewrite Hstop.
  - unfold print_commands. cbn [map concat]. rewrite <- app_assoc. pose proof (Hp [] c l eq_refl) as Hpc. fold (print_commands l).
    destruct (print_command_start c Hc) as (x & r & Hx & Hcase). destruct (Hno x (r ++ print_commands l ++ rest) Hcase) as [e He].
    rewrite Hx in *. cbn [app] in *. rewrite He, Hpc. rewrite (proj2 (Nat.ltb_lt _ _)) by (cbn; rewrite !length_app; lia).
    rewrite bind_cong, IH; [done|]. intros pre d post ->. by apply (Hp (c :: pre)).
Qed.

Lemma paren_group_text n p subs rest : (0 < n)%nat -> forallb input_command subs = true ->
  (forall pre c post, subs = pre ++ c :: post ->
    p (print_command c ++ print_commands post ++ 41 :: rest) = Done (Ok (c, print_commands post ++ 41 :: rest))) ->
  parse_paren_group n p (40 :: print_commands subs ++ 41 :: rest) = Done (Ok (subs, rest)).
Proof.
  intros Hn Hs Hp. unfold parse_paren_group. change (40 :: ?x) with (txt "(" ++ x). rewrite literal_bind.
  erewrite bind_ok; [|apply skip_next; [done|apply print_commands_next; [done|apply next_ok_cases; tauto]]].
  rewrite (bind_ok _ _ _ (subs, txt ")") rest); [done|]. apply (repeat_commands p (literal (txt ")")) (txt ")") subs (41 :: rest) rest).
  - apply (literal_ok (txt ")")).
  - intros c r [->|[->| ->]]; eexists; by apply literal_no.
  - by apply forallb_iff.
  - done.
Qed.

(** A word, and what its parentheses hold. *)
Lemma word_command n p s subs rest mk : (0 < n)%nat -> Forall (fun b => token_byte b = true) s -> first_byte (fun b => negb (b =? 34)) s = true ->
  parse_command_body n p s = (subs ← parse_paren_group n p; mret (mk subs)) -> forallb input_command subs = true -> next_ok rest ->
  (forall pre c post, subs = pre ++ c :: post ->
    p (print_command c ++ print_commands post ++ 41 :: rest) = Done (Ok (c, print_commands post ++ 41 :: rest))) ->
  parse_command_step n p (s ++ 40 :: print_commands subs ++ 41 :: rest) = Done (Ok (mk subs, rest)).
Proof.
  intros Hn Hf H0 Hb Hs Hr Hp. unfold parse_command_step. erewrite bind_ok by (apply word_text; [done|by destruct s|done]).
  destruct n as [|n]; [lia|].
  rewrite (bind_ok _ _ _ _ _ (skip_none n (40 :: print_commands subs ++ 41 :: rest) eq_refl ltac:(by split; [|left]))).
  rewrite Hb. rewrite (bind_ok _ _ _ (mk subs) rest); [|by rewrite (bind_ok _ _ _ _ _ (paren_group_text (S n) p subs rest Hn Hs Hp))].
  by rewrite (bind_ok _ _ _ _ _ (skip_next (S n) rest Hn Hr)).
Qed.

Lemma arg_command n p s rest : (0 < n)%nat -> no_quote s = true -> s ∉ keywords -> next_ok rest ->
  parse_command_step n p (print_token s ++ rest) = Done (Ok (CommandArg s, rest)).
Proof.
  intros Hn Hq Hk Hr. unfold parse_command_step. rewrite (bind_ok _ _ _ _ _ (token_text s rest Hq)).
  rewrite (bind_ok _ _ _ _ _ (skip_next n rest Hn Hr)). rewrite (bind_ok _ _ _ (CommandArg s) rest).
  { by rewrite (bind_ok _ _ _ _ _ (skip_next n rest Hn Hr)). }
  unfold keywords in Hk. rewrite !not_elem_of_cons in Hk. destruct_and! Hk. unfold parse_command_body.
  rewrite (bool_decide_false (s ∈ _)) by (rewrite !not_elem_of_cons; by repeat split; try apply not_elem_of_nil).
  rewrite !bool_decide_false by done. destruct (assignment_op_none rest Hr) as [e He]. by rewrite (opt_none _ _ _ _ He).
Qed.

Lemma command_text n : forall c rest, input_command c = true -> next_ok rest -> (length (print_command c ++ rest) < n)%nat ->
  parse_command n (print_command c ++ rest) = Done (Ok (c, rest)).
Proof.
  induction n as [|n IH]; intros c rest Hc Hr Hn; [lia|].
  assert (forall subs, forallb input_command subs = true -> (length (print_commands subs ++ 41%Z :: rest) < n)%nat ->
    forall pre d post, subs = pre ++ d :: post ->
    parse_command n (print_command d ++ print_commands post ++ 41 :: rest) = Done (Ok (d, print_commands post ++ 41 :: rest))) as Hsubs.
  { intros subs Hs Hl pre d post ->. rewrite forallb_app in Hs. cbn in Hs. apply andb_true_iff in Hs as [_ [Hd Hp]%andb_true_iff].
    apply IH; [done|apply print_commands_next; [done|apply next_ok_cases; tauto]|].
    unfold print_commands in *. rewrite map_app, concat_app in Hl. cbn in Hl. rewrite !length_app in *. cbn in *. rewrite ?length_app in *. lia. }
  change (parse_command (S n)) with (parse_command_step (S n) (parse_command n)).
  destruct c as [s|subs|subs| | | | | | | | | | | ]; try done; cbn [input_command print_command] in *.
  - apply andb_true_iff in Hc as [Hq Hk]. apply bool_decide_eq_true in Hk. apply arg_command; [lia|done..].
  - rewrite <- !app_assoc in *. apply (word_command (S n) _ (txt "INPUT") subs rest CommandGroup); [lia|by repeat constructor|done|done|done|done|].
    apply Hsubs; [done|]. unfold print_commands. rewrite !length_app in *. cbn in *. rewrite ?length_app in *. cbn in *. lia.
  - rewrite <- !app_assoc in *. apply (word_command (S n) _ (txt "AS_NEEDED") subs rest CommandAsNeeded); [lia|by repeat constructor|done|done|done|done|].
    apply Hsubs; [done|]. unfold print_commands. rewrite !length_app in *. cbn in *. rewrite ?length_app in *. cbn in *. lia.
Qed.
End RoundTrip.

(** C23. The text of a script of [INPUT] and [AS_NEEDED] commands, however nested, is parsed to these
    commands. *)
Theorem parse_print_inputs {W : Winnow} {L : WinnowLaws W} commands : forallb input_command commands = true ->
  LinkerScript_parse (print_commands commands) = Done (Ok commands).
Proof.
  intros Hi. unfold LinkerScript_parse. set (n := S (length (print_commands commands))).
  assert (parse_commands n (print_commands commands) = Done (Ok (commands, []))) as Hp.
  { unfold parse_commands. rewrite <- (app_nil_r (print_commands commands)) at 1.
    rewrite (bind_ok _ _ _ _ _ (skip_next n _ ltac:(lia) (print_commands_next commands [] Hi I))).
    rewrite (bind_ok _ _ _ (commands, tt) []); [done|]. apply (repeat_commands (parse_command n) eof tt commands [] []).
    - by rewrite eof_law.
    - intros c r _. rewrite eof_law. by eexists.
    - by apply forallb_iff.
    - intros pre c post ->. rewrite forallb_app in Hi. cbn in Hi. apply andb_true_iff in Hi as [_ [Hd Hp]%andb_true_iff].
      apply command_text; [done|by apply print_commands_next|]. unfold n, print_commands. rewrite map_app, concat_app. cbn.
      rewrite !length_app. cbn. lia. }
  rewrite (bind_ok _ _ _ _ _ Hp). unfold mbind, parser_bind. by rewrite eof_law.
Qed.

(** ** What the parsers do at some corners *)

(** [take_until(1.., "*/")] looks for the end from the second byte of [/*] on. *)
Lemma slash_star_slash_is_a_comment : LinkerScript_parse (txt "/*/ a") = Done (Ok [CommandArg (txt "a")]).
Proof. by vm_compute. Qed.

(** A [#] comment has to end with a newline. *)
Lemma hash_comment_needs_newline : LinkerScript_parse (txt "a # b") = Done (Err mismatch) /\
  LinkerScript_parse (txt "a # b" ++ [10]) = Done (Ok [CommandArg (txt "a")]).
Proof. by vm_compute. Qed.

(** [parse_keep] does not skip white space after its parenthesis, [parse_matcher_pattern] does. *)
Lemma keep_rejects_space :
  is_Done_Ok (LinkerScript_parse (txt "SECTIONS { .a : { KEEP( *(.b)) } }")) = false /\
  is_Done_Ok (LinkerScript_parse (txt "SECTIONS { .a : { KEEP(*(.b)) } }")) = true /\
  is_Done_Ok (LinkerScript_parse (txt "SECTIONS { .a : { *( .b ) } }")) = true.
Proof. by vm_compute. Qed.

(** A keyword in quotes is still one. *)
Lemma quoted_keyword : LinkerScript_parse (print_token (txt "INPUT") ++ txt "(a)") = Done (Ok [CommandGroup [CommandArg (txt "a")]]).
Proof. by vm_compute. Qed.

Module Example.
Definition script : list Command :=
  [CommandGroup [CommandArg (txt "libc.so"); CommandAsNeeded [CommandArg (txt "-lm"); CommandGroup []]]; CommandArg (txt "a b.o")].

Definition names (input : Input) (s : list InputSpec) : res (list InputSpec) := Ok (s ++ [input_spec input]).

Example names_of_script :
  foreach_input names (mkModifiers false true false false false) script [] = Ok [InputFile (txt "libc.so"); InputLib (txt "m"); InputFile (txt "a b.o")].
Proof. by vm_compute. Qed.

Example not_utf8 : to_str [255] = Err "Expected UTF-8, found `{}`" /\ to_str [226; 130; 172] = Ok [226; 130; 172].
Proof. by vm_compute. Qed.
End Example.

Lemma parse_print_inputs_witness : forallb input_command Example.script = true /\
  LinkerScript_parse (print_commands Example.script) = Done (Ok Example.script).
Proof. split; [done|]. by apply (parse_print_inputs (W := reference)). Defined.
