(* ===== verification/VersionScript.v ===== *)
(** Version scripts and export lists as rules: [libjdxld/src/version_script.rs],
    [glob_match.rs] and [export_list.rs] without their parsers, which are in [VersionParser].

    A script is a list of versions; a version has rules for global and for local symbols, and
    each kind of rule has exact names, names with escapes, patterns and a match-all flag, once
    for names as they are and once for demangled C++ names.  [find_match] asks them in the
    order the linker documents.  Patterns (the [glob] crate) and the demangler are the class
    [Names].  A script of [rustc] is kept as the list of its global names; [rust_is_local]
    shows that this changes no symbol's visibility.

    Sets of names are [gset]s: only membership is asked.  [SymbolLookupNameWrapper] caches the
    name as a string and demangled; both are functions of the name, so the model computes them
    where they are asked, with the panic for names that are not UTF-8. *)
From Stdlib Require Import ZArith Lia.
From stdpp Require Import base list list_numbers numbers strings option gmap sets.
From S2P Require Import Prelude Parsers ScriptInputs.

Local Open Scope Z_scope.

(** ** The crates *)
Class Names := {
  Pattern : Type;
  Pattern_new : list Z -> option Pattern;
  matches : Pattern -> list Z -> bool;
  demangle : list Z -> option (list Z)
}.

(** ** [glob_match.rs] *)
Inductive GlobPatternType := GlobExact | GlobEscapedExact | GlobStar | GlobNonStar.

Fixpoint analyze_loop (pattern_type : GlobPatternType) (it : list Z) : GlobPatternType :=
  match it with
  | [] => pattern_type
  | c :: it =>
      if c =? 92 then
        let pattern_type := match pattern_type with GlobExact => GlobEscapedExact | t => t end in
        match it with [] => pattern_type | _ :: it => analyze_loop pattern_type it end
      else if c =? 42 then GlobStar
      else if bool_decide (c ∈ txt "[]?") then analyze_loop GlobNonStar it
      else analyze_loop pattern_type it
  end.

Definition analyze_glob_pattern (pattern : list Z) : GlobPatternType :=
  if negb (existsb (fun b => bool_decide (b ∈ txt "*?\")) pattern) && negb (existsb (fun b => bool_decide (b ∈ txt "[]")) pattern)
  then GlobExact
  else analyze_loop GlobExact pattern.

Fixpoint unescape_pattern (pattern : list Z) : list Z :=
  match pattern with
  | [] => []
  | c :: it =>
      if c =? 92 then match it with next_c :: it => next_c :: unescape_pattern it | [] => [c] end
      else c :: unescape_pattern it
  end.

(** [pattern.replace("[^", "[!")]. *)
Fixpoint replace_negation (pattern : list Z) : list Z :=
  match pattern with
  | 91 :: (94 :: rest) => 91 :: 33 :: replace_negation rest
  | c :: rest => c :: replace_negation rest
  | [] => []
  end.

Section VersionScripts.
Context {N : Names}.

Definition compile_glob_pattern (token : list Z) : res Pattern :=
  if negb (is_utf8 token) then Err "Invalid UTF-8 string"
  else match Pattern_new (replace_negation token) with Some p => Ok p | None => Err "Invalid Glob Pattern" end.

(** ** Rules *)
Inductive SymbolMatcher :=
| Exact (name : list Z)
| EscapedExact (name : list Z)
| StarGlob (glob : Pattern)
| NonstarGlob (glob : Pattern)
| MatchesAll.

Record BasicMatchRules := mkBasicRules {
  exact : gset (list Z);
  escaped_exact : gset (list Z);
  star_globs : list Pattern;
  nonstar_globs : list Pattern;
  matches_all : bool
}.

Definition no_rules : BasicMatchRules := mkBasicRules ∅ ∅ [] [] false.

Definition basic_push (pattern : SymbolMatcher) (self : BasicMatchRules) : BasicMatchRules :=
  let '(mkBasicRules e esc star nonstar all) := self in
  match pattern with
  | MatchesAll => mkBasicRules e esc star nonstar true
  | StarGlob glob => mkBasicRules e esc (star ++ [glob]) nonstar all
  | NonstarGlob glob => mkBasicRules e esc star (nonstar ++ [glob]) all
  | Exact name => mkBasicRules ({[name]} ∪ e) esc star nonstar all
  | EscapedExact escaped => mkBasicRules e ({[unescape_pattern escaped]} ∪ esc) star nonstar all
  end.

Record MatchRules := mkRules { general : BasicMatchRules; cxx : BasicMatchRules }.

Definition no_match_rules : MatchRules := mkRules no_rules no_rules.

Inductive ParsedSymbolMatcher :=
| Single (m : SymbolMatcher)
| Multiple (ms : list SymbolMatcher)
| CxxMatchers (ms : list SymbolMatcher).

Definition push_all (ms : list SymbolMatcher) (self : BasicMatchRules) : BasicMatchRules := foldl (fun self m => basic_push m self) self ms.

Definition rules_push (self : MatchRules) (pattern : ParsedSymbolMatcher) : MatchRules :=
  match pattern with
  | Single single => mkRules (basic_push single (general self)) (cxx self)
  | Multiple matchers => mkRules (push_all matchers (general self)) (cxx self)
  | CxxMatchers matchers => mkRules (general self) (push_all matchers (cxx self))
  end.

(** ** Lookup *)
Definition get_name_string (name : list Z) : res (list Z) := if is_utf8 name then Ok name else Panic.

Definition get_demangled_name (name : list Z) : res (list Z) :=
  name_string ← get_name_string name;
  Ok (default name_string (demangle name_string)).

(** [lookup.get_demangled_name()] or the name itself. *)
Definition name_bytes (name : list Z) (mangled : bool) : res (list Z) := if mangled then get_demangled_name name else Ok name.

Definition matches_exact (self : BasicMatchRules) (name : list Z) (mangled : bool) : res bool :=
  found ← (if bool_decide (exact self = ∅) then Ok false
           else bytes ← name_bytes name mangled; Ok (bool_decide (bytes ∈ exact self)));
  if found : bool then Ok true
  else if bool_decide (escaped_exact self = ∅) then Ok false
  else bytes ← name_bytes name mangled; Ok (bool_decide (bytes ∈ escaped_exact self)).

Definition matches_glob (self : BasicMatchRules) (name : list Z) (non_star mangled : bool) : res bool :=
  let globs := if non_star then nonstar_globs self else star_globs self in
  match globs with
  | [] => Ok false
  | _ =>
      name ← (if mangled then get_demangled_name name else get_name_string name);
      Ok (existsb (fun pattern => matches pattern name) globs)
  end.

(** [a || b]: the second is computed if the first is false. *)
Definition or_else (a b : res bool) : res bool := x ← a; if x : bool then Ok true else b.

Record VersionBody := mkBody { globals : MatchRules; locals : MatchRules }.

Definition no_body : VersionBody := mkBody no_match_rules no_match_rules.

Record Version := mkVersion { name : list Z; parent_index : option Z; version_body : VersionBody }.

Definition default_version : Version := mkVersion [] None no_body.

Record RegularVersionScript := mkRegular { versions : list Version; version_name_mapping : gmap (list Z) nat }.

Definition default_regular : RegularVersionScript := mkRegular [] ∅.

Inductive VersionScript := Regular (script : RegularVersionScript) | Rust (global : list (list Z)).

Inductive VersionRuleSection := Global | Local_.

#[global] Instance section_eq_dec : EqDecision VersionRuleSection.
Proof. solve_decision. Defined.

(** What one version says of a name by its exact rules; by its patterns; by its match-all rules. *)
Definition exact_section (body : VersionBody) (symbol : list Z) : res (option VersionRuleSection) :=
  g ← matches_exact (general (globals body)) symbol false;
  if g : bool then Ok (Some Global) else
  l ← matches_exact (general (locals body)) symbol false;
  if l : bool then Ok (Some Local_) else
  g ← matches_exact (cxx (globals body)) symbol true;
  if g : bool then Ok (Some Global) else
  l ← matches_exact (cxx (locals body)) symbol true;
  if l : bool then Ok (Some Local_) else Ok None.

Definition glob_section (non_star : bool) (body : VersionBody) (symbol : list Z) : res (option VersionRuleSection) :=
  g ← or_else (matches_glob (general (globals body)) symbol non_star false) (matches_glob (cxx (globals body)) symbol non_star true);
  if g : bool then Ok (Some Global) else
  l ← or_else (matches_glob (general (locals body)) symbol non_star false) (matches_glob (cxx (locals body)) symbol non_star true);
  if l : bool then Ok (Some Local_) else Ok None.

Definition all_section (body : VersionBody) : option VersionRuleSection :=
  if matches_all (general (globals body)) || matches_all (cxx (globals body)) then Some Global
  else if matches_all (general (locals body)) || matches_all (cxx (locals body)) then Some Local_
  else None.

(** The first of numbered versions for which there is an answer. *)
Fixpoint first_section (f : VersionBody -> res (option VersionRuleSection)) (vs : list (nat * Version)) :
    res (option (nat * VersionRuleSection)) :=
  match vs with
  | [] => Ok None
  | (i, version) :: vs =>
      s ← f (version_body version);
      match s with Some s => Ok (Some (i, s)) | None => first_section f vs end
  end.

Definition enumerate {A} (l : list A) : list (nat * A) := imap (fun i a => (i, a)) l.

Definition find_match (self : RegularVersionScript) (symbol : list Z) : res (option (nat * VersionRuleSection)) :=
  let forwards := enumerate (versions self) in
  let backwards := rev forwards in
  m ← first_section (fun body => exact_section body symbol) forwards;
  match m with Some m => Ok (Some m) | None =>
  m ← first_section (fun body => glob_section true body symbol) backwards;
  match m with Some m => Ok (Some m) | None =>
  m ← first_section (fun body => glob_section false body symbol) backwards;
  match m with Some m => Ok (Some m) | None =>
  first_section (fun body => Ok (all_section body)) backwards
  end end end.

Definition is_local (self : RegularVersionScript) (symbol : list Z) : res bool :=
  m ← find_match self symbol;
  Ok match m with Some (_, Local_) => true | _ => false end.

(** ** Versions *)
Definition VER_NDX_GLOBAL : Z := 1.

Definition regular_version_count (self : RegularVersionScript) : Z :=
  if (length (versions self) =? 1)%nat then 0 else wrap 16 (Z.of_nat (length (versions self))).

Definition has_parent (v : Version) : bool := bool_decide (is_Some (parent_index v)).

Definition regular_parent_count (self : RegularVersionScript) : Z :=
  wrap 16 (Z.of_nat (length (List.filter has_parent (versions self)))).

Definition version_index (number : nat) : Z := wadd 16 VER_NDX_GLOBAL (wrap 16 (Z.of_nat number)).

Definition regular_version_for_symbol (self : RegularVersionScript) (symbol : list Z) (version_name : option (list Z)) : res (option Z) :=
  match version_name with
  | Some version_name =>
      if bool_decide (version_name = []) then Ok (Some VER_NDX_GLOBAL)
      else match version_name_mapping self !! version_name with
        | Some number => Ok (Some (version_index number))
        | None => Err "Symbol {} has undefined version {}"
        end
  | None =>
      m ← find_match self symbol;
      Ok match m with
        | Some (number, _) => if (number =? 0)%nat then None else Some (version_index number)
        | None => None
        end
  end.

Definition version_count (self : VersionScript) : Z := match self with Regular script => regular_version_count script | Rust _ => 0 end.
Definition parent_count (self : VersionScript) : Z := match self with Regular script => regular_parent_count script | Rust _ => 0 end.

Definition version_for_symbol (self : VersionScript) (symbol : list Z) (version_name : option (list Z)) : res (option Z) :=
  match self with
  | Regular script => regular_version_for_symbol script symbol version_name
  | Rust _ => Ok None
  end.

(** ** From what the parser reads *)
Record RawVersionBody := mkRaw { raw_globals : list ParsedSymbolMatcher; raw_locals : list ParsedSymbolMatcher }.

Definition rust_like (self : RawVersionBody) : bool :=
  existsb (fun m => match m with Single MatchesAll => true | _ => false end) (raw_locals self) &&
  forallb (fun m => match m with Single (Exact _) => true | _ => false end) (raw_globals self).

Fixpoint exact_names (ms : list ParsedSymbolMatcher) : res (list (list Z)) :=
  match ms with
  | [] => Ok []
  | Single (Exact name) :: ms => names ← exact_names ms; Ok (name :: names)
  | _ => Panic
  end.

Definition body_of (body : RawVersionBody) : VersionBody :=
  mkBody (foldl rules_push no_match_rules (raw_globals body)) (foldl rules_push no_match_rules (raw_locals body)).

Definition regular_of (body : RawVersionBody) : RegularVersionScript := mkRegular [mkVersion [] None (body_of body)] ∅.

Definition script_of (body : RawVersionBody) : res VersionScript :=
  if rust_like body then Rust <$> exact_names (raw_globals body) else Ok (Regular (regular_of body)).

(** ** Export lists: [ExportList::contains] of [export_list.rs] *)
Definition export_contains (self : MatchRules) (symbol : list Z) : res bool :=
  or_else (or_else (matches_exact (general self) symbol false) (matches_exact (cxx self) symbol true))
  (or_else (or_else (matches_glob (general self) symbol true false) (matches_glob (cxx self) symbol true true))
  (or_else (or_else (matches_glob (general self) symbol false false) (matches_glob (cxx self) symbol false true))
  (Ok (matches_all (general self) || matches_all (cxx self))))).

(** ** What a lookup finds *)
Definition demangled (symbol : list Z) : list Z := default symbol (demangle symbol).

(** The kinds of rules in the order they are asked: exact names, patterns without a star,
    patterns with a star, the match-all rule. *)
Definition rule_hit (k : nat) (r : BasicMatchRules) (symbol : list Z) : bool :=
  match k with
  | 0 => bool_decide (symbol ∈ exact r) || bool_decide (symbol ∈ escaped_exact r)
  | 1 => existsb (fun p => matches p symbol) (nonstar_globs r)
  | 2 => existsb (fun p => matches p symbol) (star_globs r)
  | _ => matches_all r
  end%nat.

Definition hit (k : nat) (r : MatchRules) (symbol : list Z) : bool := rule_hit k (general r) symbol || rule_hit k (cxx r) (demangled symbol).

(** Exact names are asked before demangled ones, otherwise global rules before local ones. *)
Definition section_of (k : nat) (body : VersionBody) (symbol : list Z) : option VersionRuleSection :=
  if (k =? 0)%nat && rule_hit 0 (general (globals body)) symbol then Some Global
  else if (k =? 0)%nat && rule_hit 0 (general (locals body)) symbol then Some Local_
  else if hit k (globals body) symbol then Some Global
  else if hit k (locals body) symbol then Some Local_
  else None.

Lemma matches_exact_hit r symbol mangled : is_utf8 symbol = true ->
  matches_exact r symbol mangled = Ok (rule_hit 0 r (if mangled then demangled symbol else symbol)).
Proof.
  intros Hu. unfold matches_exact, name_bytes, get_demangled_name, get_name_string, rule_hit, demangled. rewrite Hu.
  assert (forall (X : gset (list Z)) (s : list Z), X = ∅ -> bool_decide (s ∈ X) = false) as He.
  { intros X s ->. apply bool_decide_eq_false. set_solver. }
  destruct (bool_decide_reflect (exact r = ∅)) as [E|_]; [rewrite (He _ _ E)|];
    (destruct (bool_decide_reflect (escaped_exact r = ∅)) as [E'|_]; [rewrite (He _ _ E')|]); destruct mangled; cbn; try done.
  all: by destruct (bool_decide _).
Qed.

Lemma matches_glob_hit r symbol non_star mangled : is_utf8 symbol = true ->
  matches_glob r symbol non_star mangled = Ok (rule_hit (if non_star then 1 else 2)%nat r (if mangled then demangled symbol else symbol)).
Proof.
  intros Hu. unfold matches_glob, get_demangled_name, get_name_string, demangled. rewrite Hu.
  destruct non_star; cbn; [destruct (nonstar_globs r)|destruct (star_globs r)]; destruct mangled; done.
Qed.

Lemma or_else_ok a b : or_else (Ok a) (Ok b) = Ok (a || b).
Proof. by destruct a. Qed.

Lemma sections_of body symbol : is_utf8 symbol = true ->
  exact_section body symbol = Ok (section_of 0 body symbol) /\ glob_section true body symbol = Ok (section_of 1 body symbol) /\
  glob_section false body symbol = Ok (section_of 2 body symbol) /\ all_section body = section_of 3 body symbol.
Proof.
  intros Hu. unfold exact_section, glob_section, section_of, all_section, hit.
  rewrite !matches_exact_hit, !matches_glob_hit by done. rewrite !or_else_ok. cbn [Nat.eqb andb mbind res_bind]. split_and!.
  - destruct (rule_hit 0 (general (globals body)) symbol); [done|]. cbn [orb].
    destruct (rule_hit 0 (general (locals body)) symbol); [done|]. cbn [orb]. by destruct (rule_hit 0 (cxx (globals body)) (demangled symbol)), (rule_hit 0 (cxx (locals body)) (demangled symbol)).
  - destruct (_ || _); [done|]. by destruct (_ || _).
  - destruct (_ || _); [done|]. by destruct (_ || _).
  - done.
Qed.

(** The first answer in a list, by positions. *)
Lemma first_section_spec f g vs : (forall b, f b = Ok (g b)) ->
  exists m, first_section f vs = Ok m /\
  match m with
  | Some (i, s) => exists pre v post, vs = pre ++ (i, v) :: post /\ g (version_body v) = Some s /\ Forall (fun p => g (version_body p.2) = None) pre
  | None => Forall (fun p => g (version_body p.2) = None) vs
  end.
Proof.
  intros Hf. induction vs as [|[i v] vs IH]; cbn; [by exists None|]. rewrite Hf. cbn. destruct (g (version_body v)) as [s|] eqn:E.
  - exists (Some (i, s)). split; [done|]. by exists [], v, vs.
  - destruct IH as (m & -> & Hm). exists m. split; [done|]. destruct m as [[j s]|]; [|by constructor].
    destruct Hm as (pre & w & post & -> & Hg & Hp). exists ((i, v) :: pre), w, post. split_and!; [done|done|by constructor].
Qed.

Lemma lookup_enumerate {A} (l : list A) j x : enumerate l !! j = Some x <-> exists a, x = (j, a) /\ l !! j = Some a.
Proof.
  unfold enumerate. rewrite list_lookup_imap. destruct (l !! j) as [a|]; cbn; split; [intros [= <-]; eauto|by intros (? & -> & [= ->])|done|by intros (? & _ & ?)].
Qed.

Lemma length_enumerate {A} (l : list A) : length (enumerate l) = length l.
Proof. apply length_imap. Qed.

Lemma elem_of_rev {A} (l : list A) x : x ∈ rev l <-> x ∈ l.
Proof. by rewrite !list_elem_of_In, <- List.in_rev. Qed.

(** A split of the enumerated list. *)
Lemma enumerate_split {A} (l : list A) pre i a post : enumerate l = pre ++ (i, a) :: post ->
  length pre = i /\ l !! i = Some a /\ (forall j b, l !! j = Some b -> (j < i)%nat -> (j, b) ∈ pre) /\ (forall j b, l !! j = Some b -> (i < j)%nat -> (j, b) ∈ post).
Proof.
  intros E. assert (length pre = i /\ l !! i = Some a) as [<- Ha].
  { assert (enumerate l !! length pre = Some (i, a)) as H. { rewrite E. by apply list_lookup_middle. }
    apply lookup_enumerate in H as (? & [= <- <-] & ?). done. }
  split_and!; [done|done|..]; intros j b Hb Hj.
  all: assert (enumerate l !! j = Some (j, b)) as H by (apply lookup_enumerate; eauto); rewrite E in H.
  - rewrite lookup_app_l in H by done. by eapply list_elem_of_lookup_2.
  - rewrite lookup_app_r in H by lia. destruct (j - length pre)%nat as [|d] eqn:Ed; [lia|]. cbn in H. by eapply list_elem_of_lookup_2.
Qed.

(** The version [i] answers in stage [k]; the one that counts is the first for exact names and
    the last otherwise. *)
Definition silent (k : nat) (vs : list Version) (symbol : list Z) : Prop := Forall (fun v => section_of k (version_body v) symbol = None) vs.

Definition deciding (k : nat) (vs : list Version) (symbol : list Z) (i : nat) (s : VersionRuleSection) : Prop :=
  (exists v, vs !! i = Some v /\ section_of k (version_body v) symbol = Some s) /\
  forall j v, vs !! j = Some v -> (if k =? 0 then j < i else i < j)%nat -> section_of k (version_body v) symbol = None.

Lemma silent_enumerate k vs symbol l : (forall x, x ∈ l <-> x ∈ enumerate vs) ->
  Forall (fun p => section_of k (version_body p.2) symbol = None) l -> silent k vs symbol.
Proof.
  intros Hl H. unfold silent. apply Forall_forall. intros v [j Hj]%list_elem_of_lookup. rewrite Forall_forall in H.
  apply (H (j, v)), Hl, list_elem_of_lookup. exists j. apply lookup_enumerate. eauto.
Qed.

Lemma forwards_spec f vs symbol : (forall b, f b = Ok (section_of 0 b symbol)) ->
  exists m, first_section f (enumerate vs) = Ok m /\ match m with Some (i, s) => deciding 0 vs symbol i s | None => silent 0 vs symbol end.
Proof.
  intros Hf. destruct (first_section_spec f (fun b => section_of 0 b symbol) (enumerate vs) Hf) as (m & -> & Hm). exists m. split; [done|].
  destruct m as [[i s]|]; [|by eapply silent_enumerate].
  destruct Hm as (pre & v & post & (Hi & Hv & Hpre & _)%enumerate_split & Hg & Hp). split; [by exists v|].
  intros j w Hw Hj. rewrite Forall_forall in Hp. cbn in Hj. by apply (Hp (j, w)), Hpre.
Qed.

Lemma backwards_spec f k vs symbol : k <> 0%nat -> (forall b, f b = Ok (section_of k b symbol)) ->
  exists m, first_section f (rev (enumerate vs)) = Ok m /\ match m with Some (i, s) => deciding k vs symbol i s | None => silent k vs symbol end.
Proof.
  intros Hk Hf. destruct (first_section_spec f (fun b => section_of k b symbol) (rev (enumerate vs)) Hf) as (m & -> & Hm). exists m. split; [done|].
  destruct m as [[i s]|].
  - destruct Hm as (pre & v & post & E & Hg & Hp). apply (f_equal (@rev _)) in E. rewrite rev_involutive, rev_app_distr in E. cbn in E. rewrite <- app_assoc in E.
    apply enumerate_split in E as (Hi & Hv & _ & Hpost). split; [by exists v|]. intros j w Hw Hj. destruct k; [done|]. cbn in Hj.
    rewrite Forall_forall in Hp. apply (Hp (j, w)). by apply elem_of_rev, Hpost.
  - eapply silent_enumerate; [|exact Hm]. apply elem_of_rev.
Qed.

Lemma find_match_spec script symbol : is_utf8 symbol = true ->
  exists m, find_match script symbol = Ok m /\
  match m with
  | Some (i, s) => exists k, (k <= 3)%nat /\ deciding k (versions script) symbol i s /\ forall k', (k' < k)%nat -> silent k' (versions script) symbol
  | None => forall k, (k <= 3)%nat -> silent k (versions script) symbol
  end.
Proof.
  intros Hu. unfold find_match. set (vs := versions script).
  assert (forall b, exact_section b symbol = Ok (section_of 0 b symbol)) as H0 by (intros; by apply sections_of).
  assert (forall b, glob_section true b symbol = Ok (section_of 1 b symbol)) as H1 by (intros; by apply sections_of).
  assert (forall b, glob_section false b symbol = Ok (section_of 2 b symbol)) as H2 by (intros; by apply sections_of).
  assert (forall b, Ok (all_section b) = Ok (section_of 3 b symbol)) as H3 by (intros; f_equal; by apply sections_of).
  destruct (forwards_spec (fun b => exact_section b symbol) vs symbol H0) as ([[i s]|] & -> & S0); cbn [mbind res_bind].
  { exists (Some (i, s)). split; [done|]. exists 0%nat. split_and!; [lia|done|lia]. }
  destruct (backwards_spec (fun b => glob_section true b symbol) 1 vs symbol ltac:(done) H1) as ([[i s]|] & -> & S1); cbn [mbind res_bind].
  { exists (Some (i, s)). split; [done|]. exists 1%nat. split_and!; [lia|done|]. intros k' Hk. by assert (k' = 0)%nat as -> by lia. }
  destruct (backwards_spec (fun b => glob_section false b symbol) 2 vs symbol ltac:(done) H2) as ([[i s]|] & -> & S2); cbn [mbind res_bind].
  { exists (Some (i, s)). split; [done|]. exists 2%nat. split_and!; [lia|done|]. intros [|[|k']] Hk; [done|done|lia]. }
  destruct (backwards_spec (fun b => Ok (all_section b)) 3 vs symbol ltac:(done) H3) as ([[i s]|] & -> & S3).
  { exists (Some (i, s)). split; [done|]. exists 3%nat. split_and!; [lia|done|]. intros [|[|[|k']]] Hk; [done|done|done|lia]. }
  exists None. split; [done|]. intros [|[|[|[|k]]]] Hk; [done|done|done|done|lia].
Qed.

(** C26. The rule that decides about a symbol: exact names before patterns without a star, those
    before patterns with a star, and match-all rules last; among versions that answer in the
    same stage the first decides for exact names and the last otherwise; within a version
    global rules come before local ones, except that the exact names of both kinds are asked
    before the demangled ones. *)
Theorem find_match_precedence script symbol : is_utf8 symbol = true ->
  exists m, find_match script symbol = Ok m /\
  match m with
  | Some (i, s) => exists k, (k <= 3)%nat /\ deciding k (versions script) symbol i s /\ forall k', (k' < k)%nat -> silent k' (versions script) symbol
  | None => forall k, (k <= 3)%nat -> silent k (versions script) symbol
  end.
Proof. apply find_match_spec. Qed.

(** ** Scripts of [rustc] *)
Lemma exact_names_spec ms : forallb (fun m => match m with Single (Exact _) => true | _ => false end) ms = true ->
  exists names, exact_names ms = Ok names /\ ms = map (fun n => Single (Exact n)) names.
Proof.
  induction ms as [|m ms IH]; cbn; [by exists []|]. destruct m as [[n| | | |]| |]; cbn; try done. intros H. destruct (IH H) as (names & -> & ->).
  by exists (n :: names).
Qed.

Lemma push_exact_names names : forall r, let r' := foldl rules_push r (map (fun n => Single (Exact n)) names) in
  cxx r' = cxx r /\ escaped_exact (general r') = escaped_exact (general r) /\ star_globs (general r') = star_globs (general r) /\
  nonstar_globs (general r') = nonstar_globs (general r) /\ matches_all (general r') = matches_all (general r) /\
  forall s, s ∈ exact (general r') <-> s ∈ names \/ s ∈ exact (general r).
Proof.
  induction names as [|n names IH]; intros [[e esc star nonstar all] c]; cbn in *.
  - split_and!; try done. intros s. rewrite elem_of_nil. tauto.
  - specialize (IH (mkRules (mkBasicRules ({[n]} ∪ e) esc star nonstar all) c)) as (-> & -> & -> & -> & -> & He). split_and!; try done.
    intros s. rewrite He. cbn. rewrite elem_of_cons. set_solver.
Qed.

Lemma push_all_keeps_all ms : forall r, matches_all r = true -> matches_all (push_all ms r) = true.
Proof. induction ms as [|m ms IH]; intros r Hr; cbn; [done|]. apply IH. destruct r as [e esc star nonstar all], m; cbn in *; done. Qed.

Lemma rules_push_keeps_all ms : forall r, matches_all (general r) = true -> matches_all (general (foldl rules_push r ms)) = true.
Proof.
  induction ms as [|m ms IH]; intros r Hr; cbn; [done|]. apply IH. destruct r as [g c], m as [m|l|l]; cbn in *; [|by apply push_all_keeps_all|done].
  by apply (push_all_keeps_all [m]).
Qed.

Lemma push_matches_all ms : forall r, existsb (fun m => match m with Single MatchesAll => true | _ => false end) ms = true ->
  matches_all (general (foldl rules_push r ms)) = true.
Proof.
  induction ms as [|m ms IH]; intros r H; cbn in *; [done|]. apply orb_true_iff in H as [H|H]; [|by apply IH].
  destruct m as [[]| |]; try done. apply rules_push_keeps_all. by destruct r as [[e esc star nonstar all] c].
Qed.

(** What a body of this kind says: the listed names are global and all others local. *)
Lemma rust_sections body names symbol : rust_like body = true -> exact_names (raw_globals body) = Ok names ->
  let b := body_of body in
  section_of 0 b symbol = (if bool_decide (symbol ∈ names) then Some Global else section_of 0 b symbol) /\
  (symbol ∉ names -> forall k, section_of k b symbol <> Some Global) /\ (symbol ∉ names -> section_of 3 b symbol = Some Local_).
Proof.
  intros [Hl Hg]%andb_true_iff Hn b. destruct (exact_names_spec _ Hg) as (ns & Hns & Hr). rewrite Hns in Hn. injection Hn as ->.
  pose proof (push_exact_names names no_match_rules) as H. rewrite <- Hr in H. cbn in H. destruct H as (Hc & He & Hs & Hns' & Ha & Hex).
  assert (forall d, rule_hit 0 (general (globals b)) d = bool_decide (d ∈ names)) as H0.
  { intros d. cbn. rewrite He, (bool_decide_ext (d ∈ exact _) (d ∈ names)) by (rewrite Hex; set_solver). by rewrite (bool_decide_eq_false_2 (d ∈ ∅)) by set_solver; rewrite orb_false_r. }
  assert (forall k, (0 < k)%nat -> rule_hit k (general (globals b)) symbol = false) as H1.
  { intros [|[|[|k]]] Hk; [lia|..]; cbn; by rewrite ?Hs, ?Hns', ?Ha. }
  assert (forall k d, rule_hit k (cxx (globals b)) d = false) as H2.
  { intros k d. unfold b, body_of. cbn [globals]. rewrite Hc. destruct k as [|[|[|k]]]; [|done..]. cbn. rewrite !bool_decide_eq_false_2 by set_solver. done. }
  split_and!.
  - case_bool_decide as E; [|done]. unfold section_of. by rewrite H0, (bool_decide_eq_true_2 _ E).
  - intros Hs' k. unfold section_of, hit. rewrite H2, orb_false_r. destruct k as [|k]; cbn [Nat.eqb andb].
    + rewrite H0, (bool_decide_eq_false_2 _ Hs'). by repeat match goal with |- context [if ?c then _ else _] => destruct c end.
    + rewrite H1 by lia. by repeat match goal with |- context [if ?c then _ else _] => destruct c end.
  - intros Hs'. unfold section_of, hit. cbn [Nat.eqb andb]. rewrite H2, H1 by lia. cbn [orb rule_hit].
    unfold b, body_of. cbn [locals]. by rewrite (push_matches_all _ _ Hl).
Qed.

(** A script that is kept as the list of its global names, because its local rules match all
    and its global rules are exact names, makes the same symbols local as the script it stands
    for: those that are not in the list. *)
Lemma rust_is_local body names symbol : rust_like body = true -> script_of body = Ok (Rust names) -> is_utf8 symbol = true ->
  is_local (regular_of body) symbol = Ok (negb (bool_decide (symbol ∈ names))).
Proof.
  intros Hr Hs Hu. unfold script_of in Hs. rewrite Hr in Hs. destruct (exact_names (raw_globals body)) as [ns| |] eqn:Hn; try done. injection Hs as ->.
  destruct (rust_sections body names symbol Hr Hn) as (H0 & Hk & H3). unfold is_local, find_match, regular_of.
  cbn [versions enumerate imap rev app first_section version_body].
  destruct (sections_of (body_of body) symbol Hu) as (-> & -> & -> & ->). cbn [mbind res_bind]. case_bool_decide as E.
  - by rewrite H0.
  - rewrite (H3 E). pose proof (Hk E 0%nat) as G0. pose proof (Hk E 1%nat) as G1. pose proof (Hk E 2%nat) as G2.
    destruct (section_of 0 (body_of body) symbol) as [[]|]; [done|done|]; cbn [mbind res_bind].
    destruct (section_of 1 (body_of body) symbol) as [[]|]; [done|done|]; cbn [mbind res_bind].
    by destruct (section_of 2 (body_of body) symbol) as [[]|].
Qed.

(** A symbol is in an export list if a rule of any kind hits it. *)
Lemma export_contains_hit self symbol : is_utf8 symbol = true ->
  export_contains self symbol = Ok (existsb (fun k => hit k self symbol) [0; 1; 2; 3]%nat).
Proof.
  intros Hu. unfold export_contains. rewrite !matches_exact_hit, !matches_glob_hit by done. rewrite !or_else_ok. cbn [existsb]. unfold hit.
  by rewrite orb_false_r.
Qed.
End VersionScripts.

(** ** Examples *)
Module Example.
(** Patterns of stars and question marks, and names that are not mangled. *)
Fixpoint glob (fuel : nat) (p s : list Z) : bool :=
  match fuel with
  | O => false
  | S fuel =>
      match p, s with
      | [], [] => true
      | 42 :: p', [] => glob fuel p' []
      | 42 :: p', _ :: s' => glob fuel p' s || glob fuel p s'
      | a :: p', b :: s' => ((a =? 63) || (a =? b)) && glob fuel p' s'
      | _, _ => false
      end
  end.

#[export] Instance names : Names := {|
  Pattern := list Z;
  Pattern_new p := Some p;
  matches p s := glob (S (length p + length s)) p s;
  demangle s := if starts_with (txt "_Z") s then Some (drop 2 s) else None
|}.


(** [V1 { global: foo; ba?; extern "C++" { ns*; }; local: *; }; V2 { b*; } V1;] *)
Definition script : RegularVersionScript :=
  let v1 := mkRaw [Single (Exact (txt "foo")); Single (NonstarGlob (txt "ba?")); CxxMatchers [StarGlob (txt "ns*")]] [Single MatchesAll] in
  let v2 := mkRaw [Single (StarGlob (txt "b*"))] [] in
  mkRegular [mkVersion [] None no_body; mkVersion (txt "V1") None (body_of v1); mkVersion (txt "V2") (Some 1) (body_of v2)]
    {[txt "V1" := 1%nat; txt "V2" := 2%nat]}.

Definition rust_body : RawVersionBody := mkRaw [Single (Exact (txt "foo")); Single (Exact (txt "bar"))] [Single MatchesAll].
End Example.
#[local] Existing Instance Example.names.

(** [ba?] of the first version is asked before [b*] of the second. *)
Lemma find_match_precedence_witness : is_utf8 (txt "bar") = true /\ exists m, find_match Example.script (txt "bar") = Ok m /\ m = Some (1%nat, Global).
Proof.
  split; [done|]. destruct (find_match_precedence Example.script (txt "bar") eq_refl) as (m & Hm & _).
  exists m. split; [exact Hm|]. assert (find_match Example.script (txt "bar") = Ok (Some (1%nat, Global))) as E by by vm_compute. rewrite E in Hm. by injection Hm.
Defined.

