(* ===== verification/VersionParser.v ===== *)
(** The parsers of version scripts and export lists: [libjdxld/src/version_script.rs] and
    [export_list.rs], on the parsers of [Parsers].

    Every loop has fuel.  An [extern] block without a closing brace makes the code take the same
    symbol for ever ([unclosed_extern_never_ends]); on texts whose blocks are closed
    ([closed_blocks]) one more than the length of the text is enough fuel, the parser does not
    panic, and the versions of the result are well formed ([parse_version_script_total]). *)
From Stdlib Require Import ZArith Lia.
From stdpp Require Import base list list_numbers numbers strings option gmap sets.
From S2P Require Import Prelude Parsers ScriptExpressions ScriptInputs VersionScript.

Local Open Scope Z_scope.

Section VersionParsers.
Context {W : Winnow} {N : Names}.

(** ** The parser *)
(** A result of the code in a parser. *)
Definition of_res {A} (r : res A) : parser A := fun l => Done (a ← r; Ok (a, l)).

Definition try_take (s : list Z) : parser bool := opt_is_some (literal s).

(** The messages of [VersionScriptError], without their quotes. *)
Definition unexpected_extern (matcher : ParsedSymbolMatcher) : String.string :=
  match matcher with CxxMatchers _ => "Unexpected extern C++ in parsing" | _ => "Unexpected extern C in parsing" end.

Definition is_ascii_whitespace (b : Z) : bool := bool_decide (b ∈ [32; 9; 10; 12; 13]).

Definition trim_ascii_end (s : list Z) : list Z := rev (run_of is_ascii_whitespace (rev s)).2.

(** The text between quotes. *)
Definition unquoted (token : list Z) : option (list Z) :=
  t ← strip_prefix [34] token;
  t ← strip_prefix [34] (rev t);
  Some (rev t).

Definition create_pattern (token : list Z) : parser Pattern :=
  match compile_glob_pattern token with
  | Ok p => mret p
  | Err e => fail (if bool_decide (e = "Invalid UTF-8 string"%string) then "Invalid utf-8 string" else "Invalid glob pattern")
  | Panic => of_res Panic
  end.

Definition symbol_matcher (token : list Z) : parser SymbolMatcher :=
  match unquoted token with
  | Some unquoted => mret (Exact unquoted)
  | None =>
      if bool_decide (token = txt "*") then mret MatchesAll
      else match analyze_glob_pattern token with
        | GlobExact => mret (Exact token)
        | GlobEscapedExact => mret (EscapedExact token)
        | GlobStar => p ← create_pattern token; mret (StarGlob p)
        | GlobNonStar => p ← create_pattern token; mret (NonstarGlob p)
        end
  end.

(** The name or pattern of a matcher and what follows it.  With [without_semicolon] and no
    brace ahead the token is the rest of the input, which is not consumed. *)
Definition parse_single (n : nat) (without_semicolon : bool) : parser SymbolMatcher :=
  input ← get_input;
  token ← (if without_semicolon then
             if bool_decide (125 ∈ input) then take_until 1 [125] else mret input
           else take_until 1 [59]);
  skip_comments_and_whitespace n;;
  try_take (txt ";");;
  symbol_matcher (trim_ascii_end token).

(** The symbol at the end of an [extern] block may omit its semicolon. *)
Definition expect_semicolon (without_semicolon : bool) (remaining : list Z) : bool :=
  match find_slice (txt "};") remaining with
  | Some (before, _) => bool_decide (59 ∈ before)
  | None => without_semicolon
  end.

Section Matcher.
Context (n : nat) (parse_matcher : bool -> parser ParsedSymbolMatcher).

(** The loop over the symbols of an [extern] block, at most [k] turns. *)
Fixpoint extern_matchers (k : nat) (without_semicolon : bool) (matchers : list SymbolMatcher) : parser (list SymbolMatcher) :=
  match k with
  | O => no_fuel
  | S k =>
      skip_comments_and_whitespace n;;
      closed ← try_take (txt "};");
      if closed : bool then skip_comments_and_whitespace n;; mret matchers
      else
        remaining ← get_input;
        matcher ← parse_matcher (negb (expect_semicolon without_semicolon remaining));
        match matcher with
        | Single matcher => extern_matchers k without_semicolon (matchers ++ [matcher])
        | _ => fail (unexpected_extern matcher)
        end
  end.

Definition extern_language : parser bool :=
  is_cxx ← try_take (34 :: txt "C++" ++ [34]);
  if is_cxx : bool then mret true else
  is_c ← try_take (34 :: txt "C" ++ [34]);
  if is_c : bool then mret false else
  literal (txt "{");;
  fail "Unsupported extern {".

Definition parse_extern (without_semicolon : bool) : parser ParsedSymbolMatcher :=
  cxx ← extern_language;
  skip_comments_and_whitespace n;;
  literal (txt "{");;
  matchers ← extern_matchers n without_semicolon [];
  mret (if cxx : bool then CxxMatchers matchers else Multiple matchers).
End Matcher.

Fixpoint parse_matcher (fuel : nat) (without_semicolon : bool) : parser ParsedSymbolMatcher :=
  match fuel with
  | O => no_fuel
  | S n =>
      is_extern ← try_take (txt "extern ");
      if is_extern : bool then parse_extern (S n) (parse_matcher n) without_semicolon
      else m ← parse_single (S n) without_semicolon; mret (Single m)
  end.

(** The loop of [parse_version_section]. *)
Fixpoint section_rules (n k : nat) (section : option VersionRuleSection) (out : RawVersionBody) : parser RawVersionBody :=
  match k with
  | O => no_fuel
  | S k =>
      skip_comments_and_whitespace n;;
      closed ← try_take (txt "}");
      if closed : bool then skip_comments_and_whitespace n;; mret out else
      is_global ← try_take (txt "global:");
      if is_global : bool then section_rules n k (Some Global) out else
      is_local ← try_take (txt "local:");
      if is_local : bool then section_rules n k (Some Local_) out else
      matcher ← parse_matcher n false;
      section_rules n k section
        match section with
        | Some Global | None => mkRaw (raw_globals out ++ [matcher]) (raw_locals out)
        | Some Local_ => mkRaw (raw_globals out) (raw_locals out ++ [matcher])
        end
  end.

Definition parse_version_section (n : nat) : parser RawVersionBody :=
  literal (txt "{");;
  section_rules n n None (mkRaw [] []).

Definition parse_version_name : parser (list Z) := take_while 1 (fun b => negb (bool_decide (b ∈ txt " (){}" ++ [10; 9]))).

(** [iter().position(|v| v == name)]. *)
Definition position (x : list Z) (l : list (list Z)) : option nat := fst <$> list_find (fun v => v = x) l.

Definition parent_of (version_names : list (list Z)) (parent_name : list Z) : parser (option Z) :=
  if bool_decide (parent_name = []) then mret None
  else match position parent_name version_names with
    | Some i => mret (Some (wrap 16 (Z.of_nat i)))
    | None => fail "Unknown parent version"
    end.

Definition add_version (v : Version) (script : RegularVersionScript) : RegularVersionScript :=
  let versions := versions script ++ [v] in
  mkRegular versions (<[name v := (length versions - 1)%nat]> (version_name_mapping script)).

(** [while !input.is_empty() { .. }], at most [k] turns. *)
Fixpoint parse_versions (n k : nat) (version_names : list (list Z)) (script : RegularVersionScript) : parser RegularVersionScript :=
  match k with
  | O => no_fuel
  | S k =>
      input ← get_input;
      if bool_decide (input = []) then mret script else
      name ← parse_version_name;
      skip_comments_and_whitespace n;;
      body ← parse_version_section n;
      parent_name ← take_until 0 [59];
      parent_index ← parent_of version_names parent_name;
      literal (txt ";");;
      skip_comments_and_whitespace n;;
      parse_versions n k (version_names ++ [name]) (add_version (mkVersion name parent_index (body_of body)) script)
  end.

Definition parse_version_script (n : nat) : parser VersionScript :=
  skip_comments_and_whitespace n;;
  input ← get_input;
  if starts_with (txt "{") input then
    version_body ← parse_version_section n;
    literal (txt ";");;
    skip_comments_and_whitespace n;;
    of_res (script_of version_body)
  else
    script ← parse_versions n n [[]] (mkRegular [default_version] ∅);
    mret (Regular script).

(** [VersionScript::parse]: the whole input is read. *)
Definition VersionScript_parse (fuel : nat) (raw : list Z) : outcome VersionScript :=
  match (map_err "Failed to parse version script:\n{err}" (script ← parse_version_script fuel; eof;; mret script)) raw with
  | Done r => Done (fst <$> r)
  | OutOfFuel => OutOfFuel
  end.

(** ** Export lists: the parser of [export_list.rs] *)
(** [add_symbol]: the argument of a command-line option; what is left of it is ignored. *)
Definition add_symbol (fuel : nat) (self : MatchRules) (symbol : list Z) (without_semicolon : bool) : outcome MatchRules :=
  match parse_matcher fuel without_semicolon symbol with
  | Done r => Done ((fun m => rules_push self m.1) <$> r)
  | OutOfFuel => OutOfFuel
  end.

Fixpoint export_rules (n k : nat) (out : MatchRules) : parser MatchRules :=
  match k with
  | O => no_fuel
  | S k =>
      skip_comments_and_whitespace n;;
      closed ← try_take (txt "};");
      if closed : bool then skip_comments_and_whitespace n;; mret out else
      matcher ← parse_matcher n false;
      export_rules n k (rules_push out matcher)
  end.

Definition parse_export_list (n : nat) : parser MatchRules :=
  skip_comments_and_whitespace n;;
  literal (txt "{");;
  export_rules n n no_match_rules.

(** [ExportList::parse]. *)
Definition ExportList_parse (fuel : nat) (raw : list Z) : outcome MatchRules :=
  match (map_err "Failed to parse symbol export list:\n{err}" (out ← parse_export_list fuel; eof;; mret out)) raw with
  | Done r => Done (fst <$> r)
  | OutOfFuel => OutOfFuel
  end.

(** ** Termination of the parsers *)

(** No comment hides the last closing brace of a text, and after the last closing brace there
    is neither a slash nor an opening brace. *)
Fixpoint closed_blocks (l : list Z) : bool :=
  match l with
  | [] => true
  | b :: r =>
      closed_blocks r && (bool_decide (125 ∈ b :: r) || negb (bool_decide (b ∈ txt "/{"))) &&
      (negb (b =? 35) ||
       match find_slice [10] r with Some (mid, rest) => negb (bool_decide (125 ∈ mid)) || bool_decide (125 ∈ rest) | None => true end)
  end.

Lemma closed_suffix pre l : closed_blocks (pre ++ l) = true -> closed_blocks l = true.
Proof. induction pre as [|b pre IH]; cbn; [done|]. intros [[H _]%andb_true_iff _]%andb_true_iff. by apply IH. Qed.

Lemma closed_consumes s l r : consumes s l r -> closed_blocks l = true -> closed_blocks r = true.
Proof. intros (tok & -> & _). apply closed_suffix. Qed.

Lemma closed_unbraced l b : closed_blocks l = true -> b ∈ txt "/{" -> b ∈ l -> 125 ∈ l.
Proof.
  intros Hl Hb Hin. induction l as [|c l IH]; [by apply elem_of_nil in Hin|]. cbn in Hl. apply andb_true_iff in Hl as [[Hl Hc]%andb_true_iff _].
  apply orb_true_iff in Hc as [Hc|Hc]; [by apply bool_decide_eq_true in Hc|]. apply negb_true_iff, bool_decide_eq_false in Hc.
  apply elem_of_cons in Hin as [->|Hin]; [done|]. right. by apply IH.
Qed.

Lemma closed_hash mid l : closed_blocks (35 :: mid ++ 10 :: l) = true -> find_slice [10] (mid ++ 10 :: l) = Some (mid, 10 :: l) -> 125 ∈ mid -> 125 ∈ l.
Proof.
  cbn. intros [_ H]%andb_true_iff E Hm. rewrite E in H. rewrite bool_decide_eq_true_2 in H by done. cbn in H. apply bool_decide_eq_true in H.
  by apply elem_of_cons in H as [?|?].
Qed.

Section At.
Context {L : WinnowLaws W}.

(** [parses] at one input. *)
Definition parses_at {A} (P : A -> Prop) (strict : bool) (p q : parser A) (l : list Z) : Prop :=
  p l = q l /\ match p l with Done (Ok (a, r)) => P a /\ consumes strict l r | Done (Err _) => True | _ => False end.

Lemma at_bind {A B} (P : A -> Prop) (Q : B -> Prop) s1 s2 s (p q : parser A) (f g : A -> parser B) l : parses_at P s1 p q l ->
  (forall a r, p l = Done (Ok (a, r)) -> P a -> consumes s1 l r -> parses_at Q s2 (f a) (g a) r) ->
  (s = true -> s1 || s2 = true) -> parses_at Q s (p ≫= f) (q ≫= g) l.
Proof.
  intros [Heq Hp] Hf Hs. unfold parses_at, mbind, parser_bind. rewrite <- Heq.
  destruct (p l) as [[[a r]| |]|]; try done. destruct Hp as [Ha Hc]. destruct (Hf a r eq_refl Ha Hc) as [Heq' Hr']. split; [done|].
  destruct (f a r) as [[[b r']| |]|]; try done. destruct Hr' as [Hb Hc']. split; [done|]. by apply (consumes_trans s1 s2 s l r r').
Qed.

Lemma at_skip n m l : (length l < n)%nat -> (length l < m)%nat ->
  parses_at (fun _ => True) false (skip_comments_and_whitespace n) (skip_comments_and_whitespace m) l.
Proof. intros. apply (parses_skip n (S (length l)) m); lia. Qed.

Lemma at_try_take b s l : parses_at (fun _ => True) false (try_take (b :: s)) (try_take (b :: s)) l.
Proof.
  unfold try_take, opt_is_some. eapply (at_bind _ _ false false); [|intros ? ? _ _ _|done].
  - eapply (parses_opt _ true (S (length l))); [apply parses_literal_cons|lia].
  - split; [done|]. split; [done|apply consumes_refl].
Qed.

(** [try_take] is whether the input starts so. *)
Lemma try_take_true s l r : try_take s l = Done (Ok (true, r)) -> l = s ++ r.
Proof.
  unfold try_take, opt_is_some, mbind, parser_bind. rewrite opt_law, literal_law. destruct (strip_prefix s l) as [r'|] eqn:E; cbn; intros [= <-].
  by apply strip_prefix_spec.
Qed.

Lemma try_take_false s l r : try_take s l = Done (Ok (false, r)) -> r = l /\ strip_prefix s l = None.
Proof.
  unfold try_take, opt_is_some, mbind, parser_bind. rewrite opt_law, literal_law. destruct (strip_prefix s l) as [r'|] eqn:E; cbn; [done|].
  by intros [= <-].
Qed.

Lemma multispace_brace l r u : multispace0 l = Done (Ok (u, r)) -> 125 ∈ l -> 125 ∈ r.
Proof.
  rewrite multispace0_law. pose proof (run_of_spec is_multispace l) as H. destruct (run_of is_multispace l) as [tok r']. destruct H as (-> & Ht & _).
  intros [= <- <-] [H|H]%elem_of_app; [|done]. rewrite Forall_forall in Ht. by apply Ht in H.
Qed.

(** Comments and white space do not hide the closing brace. *)
Lemma skip_brace n : forall l r u, closed_blocks l = true -> skip_comments_and_whitespace n l = Done (Ok (u, r)) -> 125 ∈ l -> 125 ∈ r.
Proof.
  induction n as [|n IH]; intros l r u Hl; [done|]. cbn [skip_comments_and_whitespace]. unfold mbind at 1, parser_bind at 1.
  destruct (multispace0 l) as [[[u1 l1]| |]|] eqn:Es; try done. intros H Hb. pose proof (multispace_brace _ _ _ Es Hb) as Hb1.
  assert (closed_blocks l1 = true) as Hl1.
  { pose proof (parses_multispace0 (S (length l)) l ltac:(lia)) as [_ H1]. rewrite Es in H1. apply (closed_consumes false l); tauto. }
  clear Es Hb Hl. cbn in H. unfold mbind, parser_bind, get_input in H. revert H. destruct (starts_with [35] l1) eqn:Eh; intros H; cbn beta in H.
  - apply starts_with_spec in Eh as [r1 ->]. rewrite take_until_law in H. destruct (find_slice [10] ([35] ++ r1)) as [[tok l2]|] eqn:Ef; [|done].
    cbn [mbind option_bind] in H. unfold at_least in H. cbn [fst] in H. destruct (1 <=? length tok)%nat; [|done]. cbn [expect] in H.
    pose proof (find_slice_cons _ _ _ _ Ef) as [r2 ->]. pose proof (proj1 (find_slice_spec _ _ _ _) Ef) as (Heq & _ & _). destruct tok as [|c tok]; [done|].
    injection Heq as <- ->. cbn in Hb1. apply (IH (10 :: r2) r u); [|done|].
    + by apply (closed_suffix (35 :: tok)).
    + cbn in Ef. apply elem_of_cons in Hb1 as [?|Hb1]; [done|]. apply elem_of_app in Hb1 as [Hb1|Hb1]; [|done]. right.
      apply (closed_hash tok); [done| |done]. destruct (find_slice [10] (tok ++ 10 :: r2)) as [[t r']|]; [|done]. by injection Ef as -> ->.
  - revert H. destruct (starts_with [47; 42] l1) eqn:Ec; intros H; cbn beta in H; [|by injection H as _ <-]. unfold map_err in H. rewrite take_until_law in H.
    destruct (find_slice [42; 47] l1) as [[tok l2]|] eqn:Ef; [|done]. pose proof (proj1 (find_slice_spec _ _ _ _) Ef) as (-> & [r2 ->]%starts_with_spec & _).
    cbn [mbind option_bind] in H. unfold at_least in H. cbn [fst] in H. destruct (1 <=? length tok)%nat; [|done]. cbn [expect] in H.
    rewrite literal_law, strip_prefix_app in H. cbn in H. apply (IH r2 r u); [|done|].
    + apply (closed_suffix (tok ++ [42; 47])). by rewrite <- app_assoc.
    + apply closed_suffix in Hl1. apply (closed_suffix [42]) in Hl1. assert (125 ∈ 47 :: r2) as [?|?]%elem_of_cons; [|done..].
      apply (closed_unbraced _ 47 Hl1); [|by left]. by apply elem_of_cons; left.
Qed.

(** *** Matchers *)
Lemma at_of_res {A} (r : res A) l : r <> Panic -> parses_at (fun _ => True) false (of_res r) (of_res r) l.
Proof. intros Hr. split; [done|]. destruct r; cbn; [split; [done|apply consumes_refl]|done|done]. Qed.

Lemma at_create_pattern token l : parses_at (fun _ => True) false (create_pattern token) (create_pattern token) l.
Proof.
  split; [done|]. unfold create_pattern, compile_glob_pattern. destruct (is_utf8 token); cbn; [|done].
  destruct (Pattern_new _); cbn; [|done]. split; [done|apply consumes_refl].
Qed.

Lemma at_ret {A} (a : A) l : parses_at (fun _ => True) false (mret a) (mret a) l.
Proof. split; [done|]. split; [done|apply consumes_refl]. Qed.

Lemma at_pattern {A} (f : Pattern -> A) token l :
  parses_at (fun _ => True) false (p ← create_pattern token; mret (f p)) (p ← create_pattern token; mret (f p)) l.
Proof. eapply (at_bind _ _ false false); [apply at_create_pattern|intros; apply at_ret|done]. Qed.

Lemma at_symbol_matcher token l : parses_at (fun _ => True) false (symbol_matcher token) (symbol_matcher token) l.
Proof.
  unfold symbol_matcher. destruct (unquoted token); [apply at_ret|]. destruct (bool_decide _); [apply at_ret|].
  destruct (analyze_glob_pattern token); auto using at_ret, at_pattern.
Qed.

(** The token of [parse_single] is not empty if a semicolon is asked for or a brace is ahead. *)
Definition token_of (without_semicolon : bool) : parser (list Z) :=
  input ← get_input;
  if without_semicolon then if bool_decide (125 ∈ input) then take_until 1 [125] else mret input else take_until 1 [59].

Lemma at_token w l : (w = true -> 125 ∈ l) -> parses_at (fun _ => True) true (token_of w) (token_of w) l.
Proof.
  intros Hw. unfold token_of, parses_at, mbind, parser_bind, get_input. split; [done|].
  assert (forall b, match take_until 1 [b] l with Done (Ok (_, r)) => True /\ consumes true l r | Done (Err _) => True | _ => False end) as H.
  { intros b. destruct (parses_take_until 1 [b] (S (length l)) l ltac:(lia)) as [_ H]. destruct (take_until 1 [b] l) as [[[a r]| |]|]; tauto. }
  destruct w; [|apply H]. rewrite bool_decide_eq_true_2 by auto. apply H.
Qed.

Lemma at_single n m w l : (length l < n)%nat -> (length l < m)%nat -> (w = true -> 125 ∈ l) ->
  parses_at (fun _ => True) true (parse_single n w) (parse_single m w) l.
Proof.
  intros Hn Hm Hw. assert (forall k, parse_single k w l = (token ← token_of w; skip_comments_and_whitespace k;; try_take (txt ";");; symbol_matcher (trim_ascii_end token)) l) as E by done.
  unfold parses_at. rewrite !E. eapply (at_bind _ _ true false); [by apply at_token|intros t r _ _ [Hl _]%consumes_length|done].
  eapply (at_bind _ _ false false); [apply at_skip; lia|intros ? r1 _ _ _|done].
  eapply (at_bind _ _ false false); [apply at_try_take|intros; apply at_symbol_matcher|done].
Qed.

(** A symbol of an [extern] block does not take the brace that ends the block. *)
Lemma token_brace w l t r : token_of w l = Done (Ok (t, r)) -> 125 ∈ l ->
  (w = false -> exists before after, find_slice (txt "};") l = Some (before, after) /\ 59 ∈ before) -> 125 ∈ r.
Proof.
  unfold token_of, mbind, parser_bind, get_input. intros H Hb Hw. destruct w.
  - rewrite bool_decide_eq_true_2, take_until_law in H by done. destruct (find_slice [125] l) as [[tok r']|] eqn:E; [|done].
    apply find_slice_cons in E as [r2 ->]. cbn in H. unfold at_least in H. cbn [fst] in H. destruct (1 <=? length tok)%nat; [|done]. injection H as _ <-. by left.
  - rewrite take_until_law in H. destruct (find_slice [59] l) as [[tok r']|] eqn:E; [|done].
    pose proof (find_slice_cons _ _ _ _ E) as [r2 ->]. cbn in H. unfold at_least in H. cbn [fst] in H. destruct (1 <=? length tok)%nat; [|done]. injection H as _ <-.
    destruct (Hw eq_refl) as (before & after & Hf & H59). apply find_slice_spec in Hf as (-> & [a' ->]%starts_with_spec & _).
    apply list_elem_of_split_l in H59 as (b1 & b2 & -> & Hn).
    rewrite <- app_assoc in E. cbn in E. assert (tok = b1 /\ 59 :: r2 = 59 :: b2 ++ 125 :: 59 :: a') as [_ ->].
    { assert (find_slice [59] (b1 ++ 59 :: b2 ++ 125 :: 59 :: a') = Some (b1, 59 :: b2 ++ 125 :: 59 :: a')) as E2; [|rewrite E2 in E; by injection E as -> ->].
      apply find_slice_byte, forallb_forall. intros c Hc. apply negb_true_iff, Z.eqb_neq. intros ->. by apply Hn, list_elem_of_In. }
    right. rewrite elem_of_app. right. by left.
Qed.

Lemma single_brace n w l m r : closed_blocks l = true -> parse_single n w l = Done (Ok (m, r)) -> 125 ∈ l ->
  (w = false -> exists before after, find_slice (txt "};") l = Some (before, after) /\ 59 ∈ before) -> 125 ∈ r.
Proof.
  intros Hl H Hb Hw. assert (parse_single n w l = (token ← token_of w; skip_comments_and_whitespace n;; try_take (txt ";");; symbol_matcher (trim_ascii_end token)) l) as E by done.
  rewrite E in H. clear E. unfold mbind, parser_bind in H. destruct (token_of w l) as [[[t r1]| |]|] eqn:Et; try done.
  pose proof (token_brace _ _ _ _ Et Hb Hw) as Hb1. pose proof (at_token w l ltac:(done)) as [_ Ht]. rewrite Et in Ht. destruct Ht as [_ Ht].
  apply (closed_consumes true _ _ Ht) in Hl.
  destruct (skip_comments_and_whitespace n r1) as [[[u r2]| |]|] eqn:Es; try done. pose proof (skip_brace _ _ _ _ Hl Es Hb1) as Hb2.
  destruct (try_take (txt ";") r2) as [[[[] r3]| |]|] eqn:Ey; try done.
  1: apply try_take_true in Ey as ->; apply elem_of_app in Hb2 as [[|?%elem_of_nil]%elem_of_cons|Hb2]; [done|done|].
  2: apply try_take_false in Ey as [-> _].
  all: unfold symbol_matcher in H; destruct (unquoted _); [by injection H as _ <-|]; destruct (bool_decide _); [by injection H as _ <-|].
  all: destruct (analyze_glob_pattern _); try by injection H as _ <-.
  all: unfold mbind, parser_bind, create_pattern in H; destruct (compile_glob_pattern _); by (injection H as _ <- || done).
Qed.

Lemma extern_kept w remaining : w = false -> expect_semicolon w remaining = true ->
  exists before after, find_slice (txt "};") remaining = Some (before, after) /\ 59 ∈ before.
Proof.
  unfold expect_semicolon. intros -> H. destruct (find_slice _ remaining) as [[before after]|] eqn:E; [|done]. apply bool_decide_eq_true in H. eauto.
Qed.

Lemma extern_ahead w remaining : (w = false -> 125 ∈ remaining) -> negb (expect_semicolon w remaining) = true -> 125 ∈ remaining.
Proof.
  unfold expect_semicolon. intros Hw H. destruct (find_slice _ remaining) as [[before after]|] eqn:E.
  - apply find_slice_spec in E as (-> & [r ->]%starts_with_spec & _). rewrite elem_of_app. right. by left.
  - apply Hw. by destruct w.
Qed.

(** The parser of one matcher, for an induction on fuel. *)
Definition ends_at (p q : bool -> parser ParsedSymbolMatcher) (l : list Z) : Prop :=
  forall w, (w = true -> 125 ∈ l) -> parses_at (fun _ => True) true (p w) (q w) l.

Definition keeps_brace (p : bool -> parser ParsedSymbolMatcher) : Prop := forall w l m r, closed_blocks l = true -> p w l = Done (Ok (Single m, r)) ->
  125 ∈ l -> (w = false -> exists before after, find_slice (txt "};") l = Some (before, after) /\ 59 ∈ before) -> 125 ∈ r.

Lemma at_extern_matchers n m p q w : keeps_brace p -> forall k j l acc, (length l < k)%nat -> (length l < j)%nat -> (length l < n)%nat -> (length l < m)%nat ->
  (forall r, (length r <= length l)%nat -> closed_blocks r = true -> ends_at p q r) ->
  closed_blocks l = true -> (w = false -> 125 ∈ l) ->
  parses_at (fun _ => True) false (extern_matchers n p k w acc) (extern_matchers m q j w acc) l.
Proof.
  intros Hp. induction k as [|k IH]; intros j l acc Hk Hj Hn Hm Hpq Hl Hb; [lia|]. destruct j as [|j]; [lia|]. cbn [extern_matchers].
  eapply (at_bind _ _ false false); [apply at_skip; lia|intros u r1 Es _ Hc1|done]. pose proof (consumes_length _ _ _ Hc1) as [Hr1 _].
  pose proof (closed_consumes _ _ _ Hc1 Hl) as Hl1. assert (w = false -> 125 ∈ r1) as Hb1 by (intros Hw; exact (skip_brace n l r1 u Hl Es (Hb Hw))).
  eapply (at_bind _ _ false false); [apply at_try_take|intros [] r2 Et _ Hc2|done].
  { pose proof (consumes_length _ _ _ Hc2) as [Hr2 _]. eapply (at_bind _ _ false false); [apply at_skip; lia|intros; apply at_ret|done]. }
  apply try_take_false in Et as [-> _]. clear Hc2. set (w' := negb (expect_semicolon w r1)).
  change (parses_at (fun _ => True) false
    (matcher ← p w'; match matcher with Single matcher => extern_matchers n p k w (acc ++ [matcher]) | _ => fail (unexpected_extern matcher) end)
    (matcher ← q w'; match matcher with Single matcher => extern_matchers m q j w (acc ++ [matcher]) | _ => fail (unexpected_extern matcher) end) r1).
  eapply (at_bind _ _ true false); [apply Hpq; [lia|done|by apply extern_ahead]|intros [s| |] r2 Em _ Hc2|done]; [|done..].
  pose proof (consumes_length _ _ _ Hc2) as [_ Hr2]. specialize (Hr2 eq_refl). apply IH; try lia.
  - intros r Hr. apply Hpq. lia.
  - by apply (closed_consumes _ _ _ Hc2).
  - intros Hw. eapply (Hp w'); [exact Hl1|exact Em|auto|]. intros Hw'. apply (extern_kept w); [done|]. by apply negb_false_iff.
Qed.

Lemma at_language l : parses_at (fun _ => True) false extern_language extern_language l.
Proof.
  unfold extern_language. eapply (at_bind _ _ false false); [apply at_try_take|intros [] r _ _ _|done]; [apply at_ret|].
  eapply (at_bind _ _ false false); [apply at_try_take|intros [] r2 _ _ _|done]; [apply at_ret|].
  eapply (at_bind (fun _ => True) _ true false); [|done|done]. apply (parses_literal_cons 123 [] (S (length r2))); lia.
Qed.

Lemma parse_matcher_single fuel : keeps_brace (parse_matcher fuel).
Proof.
  destruct fuel as [|n]; intros w l m r Hl; [done|]. cbn [parse_matcher]. unfold mbind, parser_bind.
  destruct (try_take (txt "extern ") l) as [[[[] r1]| |]|] eqn:Et; try done.
  - unfold parse_extern, mbind, parser_bind. destruct (extern_language r1) as [[[c r2]| |]|]; try done.
    destruct (skip_comments_and_whitespace _ r2) as [[[u r3]| |]|]; try done. destruct (literal _ r3) as [[[u' r4]| |]|]; try done.
    destruct (extern_matchers _ _ _ _ _ r4) as [[[ms r5]| |]|]; try done. by destruct c.
  - apply try_take_false in Et as [-> _]. destruct (parse_single (S n) w l) as [[[s r2]| |]|] eqn:Es; try done. intros [= -> <-]. by eapply single_brace.
Qed.

(** A matcher ends on texts whose blocks are closed. *)
Lemma at_matcher : forall n m l, (length l < n)%nat -> (length l < m)%nat -> closed_blocks l = true -> ends_at (parse_matcher n) (parse_matcher m) l.
Proof.
  induction n as [|n IH]; intros m l Hn Hm Hl w Hw; [lia|]. destruct m as [|m]; [lia|]. cbn [parse_matcher].
  eapply (at_bind (fun b => True) _ false true); [apply at_try_take|intros [] r1 Et _ Hc|done].
  2: { apply try_take_false in Et as [-> _]. eapply (at_bind _ _ true false); [apply at_single; [lia|lia|done]|intros; apply at_ret|done]. }
  apply try_take_true in Et as ->. rewrite length_app in Hn, Hm. cbn in Hn, Hm. assert (closed_blocks r1 = true) as Hl1 by by apply (closed_suffix (txt "extern ")).
  unfold parse_extern. eapply (at_bind (fun _ => True) _ false true); [apply at_language|intros c r2 _ _ Hc2|done]. pose proof (consumes_length _ _ _ Hc2) as [Hr2 _].
  eapply (at_bind (fun _ => True) _ false true); [apply at_skip; lia|intros u r3 _ _ Hc3|done]. pose proof (consumes_length _ _ _ Hc3) as [Hr3 _].
  assert (closed_blocks r3 = true) as Hl3 by (eapply closed_consumes; [|eapply closed_consumes]; eauto).
  eapply (at_bind (fun _ => True) _ true false); [apply (parses_literal_cons 123 [] (S (length r3))); lia|intros u' r4 E4 _ Hc4|done].
  rewrite literal_law in E4. destruct (strip_prefix (txt "{") r3) as [r4'|] eqn:E; [|done]. injection E4 as _ ->. apply strip_prefix_spec in E as ->.
  pose proof (consumes_length _ _ _ Hc4) as [_ Hr4]. specialize (Hr4 eq_refl).
  eapply (at_bind (fun _ => True) _ false false); [|intros; apply at_ret|done].
  apply at_extern_matchers; [apply parse_matcher_single|lia..| | |].
  - intros r Hr Hlr. apply IH; [lia|lia|done].
  - by apply (closed_suffix (txt "{")).
  - intros _. assert (125 ∈ txt "{" ++ r4) as [H|H]%elem_of_app; [|by apply list_elem_of_singleton in H|done].
    apply (closed_unbraced _ 123 Hl3); [right; by left|by left].
Qed.

(** *** Sections and versions *)
Lemma at_section_rules n m : forall k j l section out, (length l < k)%nat -> (length l < j)%nat -> (length l < n)%nat -> (length l < m)%nat ->
  closed_blocks l = true -> parses_at (fun _ => True) false (section_rules n k section out) (section_rules m j section out) l.
Proof.
  induction k as [|k IH]; intros j l section out Hk Hj Hn Hm Hl; [lia|]. destruct j as [|j]; [lia|]. cbn [section_rules].
  eapply (at_bind _ _ false false); [apply at_skip; lia|intros u r1 Es _ Hc1|done]. pose proof (consumes_length _ _ _ Hc1) as [Hr1 _].
  pose proof (closed_consumes _ _ _ Hc1 Hl) as Hl1.
  eapply (at_bind _ _ false false); [apply at_try_take|intros [] r2 Et _ Hc2|done].
  { pose proof (consumes_length _ _ _ Hc2) as [Hr2 _]. eapply (at_bind _ _ false false); [apply at_skip; lia|intros; apply at_ret|done]. }
  apply try_take_false in Et as [-> _].
  eapply (at_bind _ _ false false); [apply at_try_take|intros [] r2 Et _ Hc3|done].
  { apply try_take_true in Et as ->. rewrite length_app in *. apply closed_suffix in Hl1. cbn in *. apply IH; [lia..|done]. }
  apply try_take_false in Et as [-> _].
  eapply (at_bind _ _ false false); [apply at_try_take|intros [] r2 Et _ Hc4|done].
  { apply try_take_true in Et as ->. rewrite length_app in *. apply closed_suffix in Hl1. cbn in *. apply IH; [lia..|done]. }
  apply try_take_false in Et as [-> _].
  eapply (at_bind _ _ true false); [apply at_matcher; [lia|lia|done|done]|intros s r2 _ _ Hc5|done]. pose proof (consumes_length _ _ _ Hc5) as [_ Hr2].
  specialize (Hr2 eq_refl). apply IH; [lia..|]. by eapply closed_consumes.
Qed.

Lemma at_section n m l : (length l < n)%nat -> (length l < m)%nat -> closed_blocks l = true ->
  parses_at (fun _ => True) true (parse_version_section n) (parse_version_section m) l.
Proof.
  intros Hn Hm Hl. eapply (at_bind (fun _ => True) _ true false); [apply (parses_literal_cons 123 [] (S (length l))); lia|intros u r _ _ Hc|done].
  pose proof (consumes_length _ _ _ Hc) as [_ Hr]. specialize (Hr eq_refl). apply at_section_rules; [lia..|]. by eapply closed_consumes.
Qed.

Lemma at_export_rules n m : forall k j l out, (length l < k)%nat -> (length l < j)%nat -> (length l < n)%nat -> (length l < m)%nat ->
  closed_blocks l = true -> parses_at (fun _ => True) false (export_rules n k out) (export_rules m j out) l.
Proof.
  induction k as [|k IH]; intros j l out Hk Hj Hn Hm Hl; [lia|]. destruct j as [|j]; [lia|]. cbn [export_rules].
  eapply (at_bind _ _ false false); [apply at_skip; lia|intros u r1 _ _ Hc1|done]. pose proof (consumes_length _ _ _ Hc1) as [Hr1 _].
  eapply (at_bind _ _ false false); [apply at_try_take|intros [] r2 Et _ Hc2|done].
  { pose proof (consumes_length _ _ _ Hc2) as [Hr2 _]. eapply (at_bind _ _ false false); [apply at_skip; lia|intros; apply at_ret|done]. }
  apply try_take_false in Et as [-> _]. pose proof (closed_consumes _ _ _ Hc1 Hl) as Hl1.
  eapply (at_bind _ _ true false); [apply at_matcher; [lia|lia|done|done]|intros s r2 _ _ Hc3|done]. pose proof (consumes_length _ _ _ Hc3) as [_ Hr2].
  specialize (Hr2 eq_refl). apply IH; [lia..|]. by eapply closed_consumes.
Qed.

Lemma at_export_list n m l : (length l < n)%nat -> (length l < m)%nat -> closed_blocks l = true ->
  parses_at (fun _ => True) false (parse_export_list n) (parse_export_list m) l.
Proof.
  intros Hn Hm Hl. eapply (at_bind _ _ false false); [apply at_skip; lia|intros u r _ _ Hc|done]. pose proof (consumes_length _ _ _ Hc) as [Hr _].
  eapply (at_bind (fun _ => True) _ true false); [apply (parses_literal_cons 123 [] (S (length r))); lia|intros u' r2 _ _ Hc2|done].
  pose proof (consumes_length _ _ _ Hc2) as [_ Hr2]. specialize (Hr2 eq_refl). apply at_export_rules; [lia..|].
  eapply closed_consumes; [exact Hc2|]. by eapply closed_consumes.
Qed.

(** The versions of a script: the first is the base version, a parent is an earlier version that
    has a name, and a name is that of the last version declared with it. *)
Definition parent_ok (vs : list Version) (i : nat) (p : Z) : Prop :=
  exists j u, (0 < j < i)%nat /\ vs !! j = Some u /\ p = wrap 16 (Z.of_nat j).

Definition last_named (vs : list Version) (n : list Z) (i : nat) : Prop :=
  (0 < i)%nat /\ (exists v, vs !! i = Some v /\ name v = n) /\ forall j v, vs !! j = Some v -> (i < j)%nat -> name v <> n.

Record script_ok (script : RegularVersionScript) : Prop := {
  base_version : exists b, versions script !! 0%nat = Some (mkVersion [] None b);
  parents_earlier : forall i v, versions script !! i = Some v -> (0 < i)%nat -> name v <> [] /\ forall p, parent_index v = Some p -> parent_ok (versions script) i p;
  names_mapped : forall n i, version_name_mapping script !! n = Some i <-> last_named (versions script) n i
}.

Definition version_script_ok (script : VersionScript) : Prop := match script with Regular script => script_ok script | Rust _ => True end.

Lemma single_version_ok body : script_ok (mkRegular [mkVersion [] None body] ∅).
Proof.
  split; cbn.
  - by exists body.
  - intros [|[|i]] v; [lia|done|done].
  - intros n i. rewrite lookup_empty. split; [done|]. intros (H & (v & Hv & _) & _). destruct i as [|[|i]]; [lia|done|done].
Qed.

Lemma position_spec x l i : position x l = Some i -> l !! i = Some x.
Proof. unfold position. destruct (list_find _ l) as [[j y]|] eqn:E; cbn; [|done]. intros [= <-]. apply list_find_Some in E as (? & -> & _). done. Qed.

Lemma add_version_ok script v : script_ok script -> name v <> [] ->
  (forall p, parent_index v = Some p -> parent_ok (versions script) (length (versions script)) p) -> script_ok (add_version v script).
Proof.
  intros [(b & Hb) Hp Hm] Hn Hv. assert (0 < length (versions script))%nat as H0 by by apply lookup_lt_Some in Hb.
  unfold add_version. rewrite length_app. cbn [length]. replace (length (versions script) + 1 - 1)%nat with (length (versions script)) by lia.
  assert (forall vs' i p, parent_ok (versions script) i p -> parent_ok (versions script ++ vs') i p) as Hext.
  { intros vs' i p (j & u & Hj & Hu & ->). exists j, u. split_and!; [lia|lia|by apply lookup_app_l_Some|done]. }
  split; cbn.
  - exists b. by rewrite lookup_app_l.
  - intros i w Hw Hi. apply lookup_app_Some in Hw as [Hw|[Hge Hw]].
    + destruct (Hp i w Hw Hi) as [? Hpar]. split; [done|]. intros p Hp'. by apply Hext, Hpar.
    + apply list_lookup_singleton_Some in Hw as [Hz ->]. split; [done|]. intros p Hp'. replace i with (length (versions script)) by lia. by apply Hext, Hv.
  - intros n i. unfold last_named. destruct (decide (n = name v)) as [->|Hne].
    + rewrite lookup_insert_eq. split.
      * intros [= <-]. split_and!; [done|exists v; split; [|done]; by apply list_lookup_middle|]. intros j w Hw Hj.
        apply lookup_lt_Some in Hw. rewrite length_app in Hw. cbn in Hw. lia.
      * intros (Hi & (w & Hw & Hwn) & Hlast). f_equal. apply lookup_lt_Some in Hw as Hlt. rewrite length_app in Hlt. cbn in Hlt.
        destruct (decide (i = length (versions script))) as [->|]; [done|]. exfalso.
        apply (Hlast (length (versions script)) v); [by apply list_lookup_middle|lia|done].
    + rewrite lookup_insert_ne by done. rewrite Hm. unfold last_named. split; intros (Hi & (w & Hw & Hwn) & Hlast).
      * split_and!; [done|exists w; split; [by apply lookup_app_l_Some|done]|]. intros j u Hu Hj.
        apply lookup_app_Some in Hu as [Hu|[_ Hu]]; [by eapply Hlast|]. by apply list_lookup_singleton_Some in Hu as [_ <-].
      * apply lookup_app_Some in Hw as [Hw|[_ Hw]]; [|apply list_lookup_singleton_Some in Hw as [_ ->]; done].
        split_and!; [done|by exists w|]. intros j u Hu Hj. apply (Hlast j); [by apply lookup_app_l_Some|done].
Qed.

Lemma at_version_name n l : (length l < n)%nat -> parses_at (fun s => s <> []) true parse_version_name parse_version_name l.
Proof.
  intros Hl. assert (parses (fun s => s <> []) true n parse_version_name parse_version_name) as H; [|by apply H].
  eapply parses_weaken; [apply (parses_take_while 1)|intros s [H _]; by destruct s; [cbn in H; lia|]|done|done].
Qed.

Lemma at_parent names parent l : parses_at (fun p => forall i, p = Some i -> exists j, names !! j = Some parent /\ parent <> [] /\ i = wrap 16 (Z.of_nat j)) false
  (parent_of names parent) (parent_of names parent) l.
Proof.
  split; [done|]. unfold parent_of. case_bool_decide; cbn; [split; [done|apply consumes_refl]|].
  destruct (position parent names) as [j|] eqn:E; cbn; [|done]. split; [|apply consumes_refl]. intros i [= <-]. exists j. split_and!; [by apply position_spec|done|done].
Qed.

Lemma at_versions n m : forall k j l script, (length l < k)%nat -> (length l < j)%nat -> (length l < n)%nat -> (length l < m)%nat ->
  closed_blocks l = true -> script_ok script ->
  parses_at script_ok false (parse_versions n k (map name (versions script)) script) (parse_versions m j (map name (versions script)) script) l.
Proof.
  induction k as [|k IH]; intros j l script Hk Hj Hn Hm Hl Hs; [lia|]. destruct j as [|j]; [lia|]. cbn [parse_versions].
  apply (at_bind (fun i => i = l) _ false false); [by split; [|split; [|apply consumes_refl]]|intros input r [= <- <-] _ _|done]. case_bool_decide.
  { split; [done|]. by split; [|apply consumes_refl]. }
  eapply (at_bind _ _ true false); [by eapply at_version_name|intros nm r1 _ Hnm Hc1|done]. pose proof (consumes_length _ _ _ Hc1) as [_ Hr1]. specialize (Hr1 eq_refl).
  pose proof (closed_consumes _ _ _ Hc1 Hl) as Hl1.
  eapply (at_bind _ _ false false); [apply at_skip; lia|intros u r2 _ _ Hc2|done]. pose proof (consumes_length _ _ _ Hc2) as [Hr2 _].
  pose proof (closed_consumes _ _ _ Hc2 Hl1) as Hl2.
  eapply (at_bind _ _ true false); [apply at_section; [lia|lia|done]|intros body r3 _ _ Hc3|done]. pose proof (consumes_length _ _ _ Hc3) as [_ Hr3]. specialize (Hr3 eq_refl).
  pose proof (closed_consumes _ _ _ Hc3 Hl2) as Hl3.
  eapply (at_bind _ _ false false); [apply (parses_take_until 0 [59] (S (length r3))); lia|intros parent r4 _ _ Hc4|done]. pose proof (consumes_length _ _ _ Hc4) as [Hr4 _].
  pose proof (closed_consumes _ _ _ Hc4 Hl3) as Hl4.
  eapply (at_bind _ _ false false); [apply at_parent|intros pi r5 _ Hpi Hc5|done]. pose proof (consumes_length _ _ _ Hc5) as [Hr5 _].
  pose proof (closed_consumes _ _ _ Hc5 Hl4) as Hl5.
  eapply (at_bind (fun _ => True) _ true false); [apply (parses_literal_cons 59 [] (S (length r5))); lia|intros u' r6 _ _ Hc6|done].
  pose proof (consumes_length _ _ _ Hc6) as [_ Hr6]. specialize (Hr6 eq_refl). pose proof (closed_consumes _ _ _ Hc6 Hl5) as Hl6.
  eapply (at_bind _ _ false false); [apply at_skip; lia|intros u'' r7 _ _ Hc7|done]. pose proof (consumes_length _ _ _ Hc7) as [Hr7 _].
  set (v := mkVersion nm pi (body_of body)). assert (map name (versions script) ++ [nm] = map name (versions (add_version v script))) as -> by by cbn; rewrite map_app.
  apply IH; [lia..|by eapply closed_consumes|]. apply add_version_ok; [done|done|]. cbn. intros p Hp. destruct (Hpi p Hp) as (i & Hi & Hne & ->).
  change (map name) with (fmap (M := list) name) in Hi. apply list_lookup_fmap_Some in Hi as (u0 & Hu' & Hu). exists i, u0. split_and!; [|by apply lookup_lt_Some in Hu|done|done].
  destruct i; [|lia]. destruct Hs as [(b & Hb) _ _]. rewrite Hb in Hu. injection Hu as <-. by destruct Hne.
Qed.

Lemma script_of_ok body : match script_of body with Ok script => version_script_ok script | Err _ => True | Panic => False end.
Proof.
  unfold script_of. destruct (rust_like body) eqn:E; [|apply single_version_ok]. apply andb_true_iff in E as [_ E].
  by destruct (exact_names_spec _ E) as (names & -> & _).
Qed.

Lemma at_version_script n m l : (length l < n)%nat -> (length l < m)%nat -> closed_blocks l = true ->
  parses_at version_script_ok false (parse_version_script n) (parse_version_script m) l.
Proof.
  intros Hn Hm Hl. unfold parse_version_script.
  eapply (at_bind _ _ false false); [apply at_skip; lia|intros u r _ _ Hc|done]. pose proof (consumes_length _ _ _ Hc) as [Hr _]. pose proof (closed_consumes _ _ _ Hc Hl) as Hl1.
  apply (at_bind (fun i => i = r) _ false false); [by split; [|split; [|apply consumes_refl]]|intros input r0 [= <- <-] _ _|done].
  destruct (starts_with (txt "{") r).
  - eapply (at_bind _ _ true false); [apply at_section; [lia|lia|done]|intros body r2 _ _ Hc2|done]. pose proof (consumes_length _ _ _ Hc2) as [Hr2 _].
    eapply (at_bind (fun _ => True) _ true false); [apply (parses_literal_cons 59 [] (S (length r2))); lia|intros u' r3 _ _ Hc3|done]. pose proof (consumes_length _ _ _ Hc3) as [Hr3 _].
    eapply (at_bind _ _ false false); [apply at_skip; lia|intros u'' r4 _ _ Hc4|done]. pose proof (script_of_ok body) as Hb.
    split; [done|]. unfold of_res. destruct (script_of body); cbn; [|done|done]. split; [done|apply consumes_refl].
  - eapply (at_bind _ _ false false); [apply (at_versions n m n m r (mkRegular [default_version] ∅)); [lia..|done|apply single_version_ok]|intros script r2 _ Hs _|done].
    split; [done|]. by split; [|apply consumes_refl].
Qed.
End At.
End VersionParsers.

(** C27. On a text whose blocks are closed the parser of version scripts ends without a panic, the
    fuel does not matter once it exceeds the length of the text, and the script that is
    returned has the base version first, every parent earlier than its child and not the base
    version, and every version name mapped to the last version declared with it. *)
Theorem parse_version_script_total {W : Winnow} {N : Names} {L : WinnowLaws W} fuel raw :
  closed_blocks raw = true -> (length raw < fuel)%nat ->
  VersionScript_parse fuel raw = VersionScript_parse (S (length raw)) raw /\
  match VersionScript_parse fuel raw with Done (Ok script) => version_script_ok script | Done (Err _) => True | _ => False end.
Proof.
  intros Hc Hf. destruct (at_version_script fuel (S (length raw)) raw Hf ltac:(lia) Hc) as [Heq H].
  unfold VersionScript_parse, map_err, mbind, parser_bind. rewrite <- Heq. split; [done|].
  destruct (parse_version_script fuel raw) as [[[script r]| |]|]; try done. destruct H as [Hs _]. rewrite eof_law. by destruct r.
Qed.

(** ** Examples and counterexamples *)
(** Export lists end in the same way. *)
Lemma parse_export_list_total {W : Winnow} {N : Names} {L : WinnowLaws W} fuel raw : closed_blocks raw = true -> (length raw < fuel)%nat ->
  match ExportList_parse fuel raw with Done (Ok _) | Done (Err _) => True | _ => False end.
Proof.
  intros Hc Hf. destruct (at_export_list fuel (S (length raw)) raw Hf ltac:(lia) Hc) as [_ H].
  unfold ExportList_parse, map_err, mbind, parser_bind. destruct (parse_export_list fuel raw) as [[[out r]| |]|]; try done. rewrite eof_law. by destruct r.
Qed.

#[local] Existing Instance VersionScript.Example.names.

Module Example.
Definition quoted (s : String.string) : list Z := 34 :: txt s ++ [34].

Definition text : list Z :=
  txt "V1 { global: foo; ba?; extern " ++ quoted "C++" ++ txt " { ns*; }; local: *; }; /* next */ V2 { b*; } V1;" ++ [10].

Definition rust_text : list Z := txt "{ global: foo; bar; local: *; };".

End Example.

Lemma parse_version_script_total_witness : closed_blocks Example.text = true /\ (length Example.text < 200)%nat /\
  is_Done_Ok (VersionScript_parse 200 Example.text) = true /\
  match VersionScript_parse 200 Example.text with Done (Ok script) => version_script_ok script | Done (Err _) => True | _ => False end.
Proof.
  split_and!; [by vm_compute|apply Nat.ltb_lt; by vm_compute|by vm_compute|].
  exact (proj2 (parse_version_script_total (W := reference) 200 Example.text eq_refl (proj1 (Nat.ltb_lt (length Example.text) 200) eq_refl))).
Defined.

Lemma rust_text_parsed : VersionScript_parse 100 Example.rust_text = Done (Ok (Rust [txt "foo"; txt "bar"])).
Proof. by vm_compute. Qed.

(** An [extern] block without a closing brace: the parser takes the same symbol for ever. *)
Definition unclosed : list Z := txt "{ extern " ++ Example.quoted "C" ++ txt " { foo".

Lemma extern_never_ends n m : forall k acc, extern_matchers (S n) (parse_matcher (S m)) k false acc (txt "foo") = OutOfFuel.
Proof. induction k as [|k IH]; intros acc; [done|]. exact (IH (acc ++ [Exact (txt "foo")])). Qed.

Lemma unclosed_extern_never_ends fuel : VersionScript_parse fuel unclosed = OutOfFuel.
Proof.
  destruct fuel as [|[|[|n]]]; [done|by vm_compute|by vm_compute|]. set (k := S (S (S n))).
  assert (parse_version_script k unclosed = OutOfFuel) as E; [|unfold VersionScript_parse, map_err, mbind, parser_bind; by rewrite E].
  transitivity ((version_body ← (matcher ← (ms ← extern_matchers k (parse_matcher (S (S n))) (S (S n)) false [Exact (txt "foo")]; mret (Multiple ms));
      section_rules k (S (S n)) None (mkRaw [matcher] []));
    literal (txt ";");; skip_comments_and_whitespace k;; of_res (script_of version_body)) (txt "foo")); [reflexivity|].
  unfold mbind, parser_bind. by rewrite (extern_never_ends (S (S n)) (S n) (S (S n))  [Exact (txt "foo")] : extern_matchers k _ _ _ _ _ = _).
Qed.

(** The language of an [extern] block that is not supported is not in the message: the parser
    expects the brace in its place. *)
Lemma unsupported_extern_message :
  parse_matcher 9 false (txt "extern " ++ Example.quoted "Java" ++ txt " { a; };") = Done (Err mismatch) /\
  parse_matcher 9 false (txt "extern { a; };") = Done (Err "Unsupported extern {").
Proof. by vm_compute. Qed.

(** White space between the name of the parent and the semicolon makes it unknown. *)
Lemma parent_rejects_space :
  is_Done_Ok (VersionScript_parse 50 (txt "A { a; }; B { b; } A;")) = true /\
  is_Done_Ok (VersionScript_parse 50 (txt "A { a; }; B { b; } A ;")) = false.
Proof. by vm_compute. Qed.
