(* ===== verification/SymbolVersions.v ===== *)
(** Version scripts applied to symbols, and the version tables of the output.

    - [handle_rust_version_script] of [libjdxld/src/symbol_db.rs] and the use the symbol loader
      makes of a script;
    - the version of a dynamic symbol ([create_dynamic_symbol_definition] of [elf.rs]), the list
      of version definitions and its size ([finalise_sizes_epilogue], [finalise_layout_epilogue]);
    - [.gnu.version_d] as [write_verdef] of [elf_writer.rs] writes it, its strings, and the
      entries of [.gnu.version] for the definitions.

    [read_verdefs] follows the chains of the version definitions as a dynamic loader does.  The
    hash of a name and the hidden bit of a version index are parameters (the [object] crate);
    the layout of [Elf_Verdef] and [Elf_Verdaux] is that of the ELF specification. *)
From Stdlib Require Import ZArith Lia.
From stdpp Require Import base list list_numbers numbers strings option gmap sets.
From S2P Require Import Prelude ValueFlags Symbols Parsers ScriptInputs VersionScript VersionParser.

Local Open Scope Z_scope.

(** ** Scripts and the loader of symbols *)
Section Scripts.
Context {N : Names}.

Definition should_downgrade_to_local (version_script : VersionScript) (name : list Z) : res bool :=
  match version_script with Rust _ => Ok true | Regular version_script => is_local version_script name end.

Definition downgrades_all (version_script : VersionScript) : bool := match version_script with Rust _ => true | Regular _ => false end.

(** [add_version_script_from_linker_scripts]: the contents of the [VERSION] commands. *)
Definition is_default_script (version_script : VersionScript) : bool :=
  match version_script with Regular s => bool_decide (length (versions s) = 0%nat) && bool_decide (version_name_mapping s = ∅) | Rust _ => false end.

Definition add_version_script_from_linker_scripts (parse : list Z -> res VersionScript) (contents : list (option (list Z))) (version_script : VersionScript) :
    res VersionScript :=
  for_each (fun content version_script =>
    match content with
    | Some version_content =>
        if negb (is_default_script version_script) then Err "Multiple version scripts provided" else parse version_content
    | None => Ok version_script
    end) contents version_script.
End Scripts.

Section Promotion.
Context (hash_bytes : list Z -> Z) (buckets : list SymbolBucket) (symbol_definitions : list Z).

(** One of the tasks over the global names: an atomic removal of a flag. *)
Definition promote (symbol : list Z) (flags : list Z) : res (list Z) :=
  id ← get_unversioned hash_bytes buckets symbol;
  match id with
  | Some symbol_id => d ← definition symbol_definitions symbol_id; index_update flags d (fun f => Z.ldiff f DOWNGRADE_TO_LOCAL)
  | None => Ok flags
  end.

(** The second pass, over every symbol. *)
Definition mark_local (f : Z) : Z := if is_downgraded_to_local f then Z.lor f NON_INTERPOSABLE else f.

(** [SymbolDb::handle_rust_version_script]. *)
Definition handle_rust_version_script (global : list (list Z)) (flags : list Z) : res (list Z) :=
  flags ← for_each promote global flags;
  Ok (map mark_local flags).

(** The definitions that the listed names lead to. *)
Definition leads_to (id : Z) (name : list Z) : bool :=
  match get_unversioned hash_bytes buckets name with
  | Ok (Some symbol_id) => match definition symbol_definitions symbol_id with Ok d => d =? id | _ => false end
  | _ => false
  end.

Definition promoted (global : list (list Z)) (id : Z) : bool := existsb (leads_to id) global.
End Promotion.

(** ** Versions of dynamic symbols *)

(** [RawSymbolName::parse] of [elf.rs]: [name@version] and [name@@version]. *)
Definition RawSymbolName_parse (name_bytes : list Z) : RawSymbolName :=
  match find_slice [64] name_bytes with
  | Some (name, rest) =>
      if starts_with (txt "@@") rest then mkRawName name true (Some (drop 2 rest)) else mkRawName name false (Some (drop 1 rest))
  | None => mkRawName name_bytes true None
  end.

Section Versions.
Context {N : Names} (versym : Z -> bool -> Z).

(** The [version] field of [create_dynamic_symbol_definition]; the conversion from a version
    index is an index that is not hidden. *)
Definition symbol_version (version_script : VersionScript) (symbol_name : list Z) : res Z :=
  let raw := RawSymbolName_parse symbol_name in
  if (0 <? version_count version_script) || bool_decide (is_Some (Symbols.version_name raw)) then
    v ← version_for_symbol version_script (raw_name raw) (Symbols.version_name raw);
    match v with
    | Some v => Ok (versym v (negb (is_default raw)))
    | None => Ok (versym VER_NDX_GLOBAL false)
    end
  else Ok (versym VER_NDX_GLOBAL false).
End Versions.

(** ** The version definitions *)
Record VersionDef := mkVersionDef { def_name : list Z; def_parent : option Z }.

Section Definitions.
Context {N : Names}.

Definition sizeof_verdef : Z := 20.
Definition sizeof_verdaux : Z := 8.

(** The versions of the script after the first. *)
Definition script_defs (version_script : VersionScript) : list VersionDef :=
  match version_script with
  | Regular script => map (fun v => mkVersionDef (name v) (parent_index v)) (drop 1 (versions script))
  | Rust _ => []
  end.

(** [finalise_sizes_epilogue]: the definitions and the sizes they add to [.dynstr] and
    [.gnu.version_d]; nothing without versions. *)
Definition version_defs (soname : option (list Z)) (file_name : list Z) (version_script : VersionScript) : option (list VersionDef * Z * Z) :=
  let version_count := version_count version_script in
  if 0 <? version_count then
    let base_version_name := match soname with None => file_name | Some _ => [] end in
    let verdefs := mkVersionDef base_version_name None :: script_defs version_script in
    let dynstr := (match soname with None => Z.of_nat (length file_name) + 1 | Some _ => 0 end) +
      foldr (fun v n => Z.of_nat (length (def_name v)) + 1 + n) 0 (script_defs version_script) in
    let version_d := wadd 16 (wmul 16 sizeof_verdef version_count) (wmul 16 sizeof_verdaux (wadd 16 version_count (parent_count version_script))) in
    Some (verdefs, dynstr, version_d)
  else None.

(** What [finalise_layout_epilogue] adds to the offset of [.gnu.version_d]. *)
Definition version_d_increment (version_script : VersionScript) (verdefs : list VersionDef) : Z :=
  sizeof_verdef * Z.of_nat (length verdefs) + sizeof_verdaux * (Z.of_nat (length verdefs) + parent_count version_script).
End Definitions.

(** ** The writer *)
Record StrTabWriter := mkStrTab { next_offset : Z; str_space : Z; str_out : list Z }.

Definition write_str (str : list Z) (w : StrTabWriter) : res (Z * StrTabWriter) :=
  let len_with_terminator := Z.of_nat (length str) + 1 in
  if len_with_terminator <=? str_space w then
    Ok (next_offset w, mkStrTab (wadd 32 (next_offset w) (wrap 32 len_with_terminator)) (str_space w - len_with_terminator) (str_out w ++ str ++ [0]))
  else Panic.

(** The bytes of [.gnu.version_d] that are left, and those written. *)
Record VersionD := mkVersionD { d_space : Z; d_out : list Z }.

Definition take_bytes_d (bytes : list Z) (w : VersionD) : res VersionD :=
  if Z.of_nat (length bytes) <=? d_space w then Ok (mkVersionD (d_space w - Z.of_nat (length bytes)) (d_out w ++ bytes))
  else Err "Insufficient {section_name} allocation. {}".

(** [VER_DEF_CURRENT] and [VER_FLG_BASE]. *)
Definition verdef_bytes (flags ndx cnt hash next : Z) : list Z :=
  le_bytes 2 1 ++ le_bytes 2 flags ++ le_bytes 2 ndx ++ le_bytes 2 cnt ++ le_bytes 4 hash ++ le_bytes 4 sizeof_verdef ++ le_bytes 4 next.

Definition verdaux_bytes (name next : Z) : list Z := le_bytes 4 name ++ le_bytes 4 next.

Record WriterState := mkWriter { version_d : VersionD; strtab : StrTabWriter; version_string_offsets : list Z }.

Section Writer.
Context (hash : list Z -> Z).

(** The turn of the loop for the definition [i] of [n]. *)
Definition write_verdef_entry (n : nat) (soname : option (list Z)) (soname_offset : option Z) (entry : nat * VersionDef) (s : WriterState) : res WriterState :=
  let '(i, verdef) := entry in
  ensure (sizeof_verdef <=? d_space (version_d s)) "Insufficient {section_name} allocation. {}";;
  '(name, name_offset, strtab, offsets) ←
    match i, soname with
    | O, Some soname =>
        match soname_offset with Some offset => Ok (soname, offset, strtab s, version_string_offsets s) | None => Panic end
    | O, None => '(offset, strtab) ← write_str (def_name verdef) (strtab s); Ok (def_name verdef, offset, strtab, version_string_offsets s)
    | _, _ => '(offset, strtab) ← write_str (def_name verdef) (strtab s); Ok (def_name verdef, offset, strtab, version_string_offsets s ++ [offset])
    end;
  let flags := if (i =? 0)%nat then 1 else 0 in
  let aux_count := match def_parent verdef with Some _ => 2 | None => 1 end in
  let next := if (i <? n - 1)%nat then wrap 32 (sizeof_verdef + sizeof_verdaux * aux_count) else 0 in
  version_d ← take_bytes_d (verdef_bytes flags (version_index i) aux_count (hash name) next) (version_d s);
  version_d ← take_bytes_d (verdaux_bytes name_offset (match def_parent verdef with Some _ => sizeof_verdaux | None => 0 end)) version_d;
  version_d ← match def_parent verdef with
    | Some parent_index => name_offset ← index offsets (parent_index - 1); take_bytes_d (verdaux_bytes name_offset 0) version_d
    | None => Ok version_d
    end;
  Ok (mkWriter version_d strtab offsets).

Definition write_verdef (verdefs : list VersionDef) (soname : option (list Z)) (soname_offset : option Z) (version_d : VersionD) (strtab : StrTabWriter) : res WriterState :=
  for_each (write_verdef_entry (length verdefs) soname soname_offset) (enumerate verdefs) (mkWriter version_d strtab []).
End Writer.

(** ** [.gnu.version] *)

(** What the file of a definition makes [write_dynamic_symbol_definitions] do. *)
Inductive DefinitionFile := ObjectFile | PreludeFile | ScriptFile | DynamicFile (output_version : Z) | OtherFile.

Definition write_symbol_version (version : Z) (space : Z) (out : list Z) : res (Z * list Z) :=
  if 1 <=? space then Ok (space - 1, out ++ [version]) else Err "Insufficient .gnu.version allocation".

(** The versions that a chunk of definitions writes to its part of the table, from the start of
    the part. *)
Fixpoint write_chunk_versions (defs : list (DefinitionFile * Z)) (space : Z) (out : list Z) : res (Z * list Z) :=
  match defs with
  | [] => Ok (space, out)
  | (file, version) :: defs =>
      '(space, out) ← match file with
        | ObjectFile | PreludeFile => write_symbol_version version space out
        | DynamicFile output_version => write_symbol_version output_version space out
        | ScriptFile => Ok (space, out)
        | OtherFile => Err "Internal error: Unexpected dynamic symbol definition from {:?}. {}"
        end;
      write_chunk_versions defs space out
  end.

(** ** Theorems on visibility *)
Lemma index_update_lookup (v v' : list Z) i f : index_update v i f = Ok v' ->
  0 <= i /\ length v' = length v /\ forall j, v' !! j = (if bool_decide (j = Z.to_nat i) then f <$> v !! j else v !! j).
Proof.
  unfold index_update. destruct (index v i) as [x| |] eqn:E; cbn; try done. intros [= <-]. apply index_ok in E as [H0 Hx].
  split_and!; [done|apply length_insert|]. intros j. case_bool_decide as Ej; [subst j|by apply list_lookup_insert_ne].
  rewrite list_lookup_insert_eq by by eapply lookup_lt_Some. by rewrite Hx.
Qed.

Definition demote (f : Z) : Z := Z.ldiff f DOWNGRADE_TO_LOCAL.

Lemma demote_twice f : demote (demote f) = demote f.
Proof. unfold demote. rewrite Z.ldiff_ldiff_l. by rewrite Z.lor_diag. Qed.

Section Promoted.
Context (hash_bytes : list Z -> Z) (buckets : list SymbolBucket) (symbol_definitions : list Z).
Lemma promote_one n flags flags' : promote hash_bytes buckets symbol_definitions n flags = Ok flags' ->
  length flags' = length flags /\ forall id : nat, flags' !! id = (if leads_to hash_bytes buckets symbol_definitions (Z.of_nat id) n then demote else (fun f => f)) <$> flags !! id.
Proof.
  unfold promote, leads_to. destruct (get_unversioned hash_bytes buckets n) as [[s|]| |]; cbn [mbind res_bind]; try done.
  - destruct (definition symbol_definitions s) as [d| |]; cbn [mbind res_bind]; try done. intros (H0 & Hl & Hf)%index_update_lookup.
    split; [done|]. intros id. rewrite Hf. destruct (Z.eqb_spec d (Z.of_nat id)) as [->|Hne].
    + by rewrite bool_decide_eq_true_2 by lia.
    + rewrite bool_decide_eq_false_2 by lia. by destruct (flags !! id).
  - intros [= <-]. split; [done|]. intros id. by destruct (flags !! id).
Qed.

#[local] Abbreviation promote := (promote hash_bytes buckets symbol_definitions).
#[local] Abbreviation promoted := (promoted hash_bytes buckets symbol_definitions).

(** The removals touch exactly the promoted definitions, whatever their order. *)
Lemma promote_all global : forall flags flags', for_each promote global flags = Ok flags' ->
  length flags' = length flags /\ forall id : nat, flags' !! id = (if promoted global (Z.of_nat id) then demote else (fun f => f)) <$> flags !! id.
Proof.
  induction global as [|n global IH]; intros flags flags' H.
  { injection H as <-. split; [done|]. intros id. cbn. by destruct (flags !! id). }
  cbn [for_each] in H. destruct (promote n flags) as [flags1| |] eqn:E; cbn [mbind res_bind] in H; try done.
  destruct (promote_one _ _ _ E) as [Hl1 Hf1]. destruct (IH _ _ H) as [Hl Hf]. split; [by rewrite Hl|]. intros id. rewrite Hf, Hf1.
  change (promoted (n :: global) (Z.of_nat id)) with (leads_to hash_bytes buckets symbol_definitions (Z.of_nat id) n || promoted global (Z.of_nat id)).
  destruct (flags !! id) as [f|]; [|done]. cbn [fmap option_fmap option_map]. f_equal.
  destruct (leads_to _ _ _ _ n), (promoted global (Z.of_nat id)); cbn; [apply demote_twice|done..].
Qed.

Lemma handle_rust_flags global flags flags' : handle_rust_version_script hash_bytes buckets symbol_definitions global flags = Ok flags' ->
  length flags' = length flags /\
  forall id : nat, flags' !! id = (fun f => mark_local (if promoted global (Z.of_nat id) then demote f else f)) <$> flags !! id.
Proof.
  unfold handle_rust_version_script. destruct (for_each _ global flags) as [flags1| |] eqn:E; cbn [mbind res_bind]; try done. intros [= <-].
  destruct (promote_all _ _ _ E) as [Hl Hf]. split; [by rewrite length_map|]. intros id. change (map mark_local) with (fmap (M := list) mark_local).
  rewrite list_lookup_fmap, Hf. destruct (flags !! id); cbn; [|done]. by destruct (promoted global (Z.of_nat id)).
Qed.
End Promoted.

(** *** The flags the loader writes *)
Definition loaded_flags (should_downgrade : list Z -> bool) (downgrades_all : bool) (e : SymtabEntry) : Z :=
  if is_undefined e || should_ignore e || Symbols.is_local e then value_flags e
  else match name_and_version e with
    | Ok info =>
        if should_downgrade (raw_name info) then
          let f := Z.lor (value_flags e) DOWNGRADE_TO_LOCAL in
          if negb downgrades_all && negb (is_tls e) then Z.lor f NON_INTERPOSABLE else f
        else value_flags e
    | _ => value_flags e
    end.

Lemma load_symbols_flags hash_bytes sd da file_id entries : forall shard outs shard' outs',
  load_symbols hash_bytes sd da file_id entries (shard, outs) = Ok (shard', outs') ->
  shard_flags shard' = shard_flags shard ++ map (loaded_flags sd da) entries.
Proof.
  unfold load_symbols. induction entries as [|e entries IH]; intros shard outs shard' outs' H; [injection H as <- <-; by rewrite app_nil_r|].
  cbn [for_each] in H. destruct (load_symbol hash_bytes sd da file_id e (shard, outs)) as [[shard1 outs1]| |] eqn:E; cbn [mbind res_bind] in H; try done.
  rewrite (IH _ _ _ _ H). cbn [map]. rewrite cons_middle, app_assoc. f_equal. unfold load_symbol in E. unfold loaded_flags.
  destruct (is_undefined e || should_ignore e); cbn [orb]; [by injection E as <- _|]. destruct (Symbols.is_local e); [by injection E as <- _|].
  destruct (name_and_version e) as [info| |]; cbn [mbind res_bind] in E; try done.
  destruct (if is_default info then _ else _) as [o1| |]; cbn [mbind res_bind] in E; try done.
  destruct (match Symbols.version_name info with Some _ => _ | None => _ end) as [o2| |]; cbn [mbind res_bind] in E; try done. by injection E as <- _.
Qed.

Lemma land_downgrade f : Z.land f DOWNGRADE_TO_LOCAL = if Z.testbit f 4 then 16 else 0.
Proof.
  change DOWNGRADE_TO_LOCAL with (2 ^ 4). apply Z.bits_inj'. intros i Hi. rewrite Z.land_spec, Z.pow2_bits_eqb by lia.
  destruct (Z.eqb_spec 4 i) as [<-|Hne]; [destruct (Z.testbit f 4); reflexivity|]. rewrite andb_false_r. change 16 with (2 ^ 4).
  destruct (Z.testbit f 4); [rewrite Z.pow2_bits_false by lia|rewrite Z.bits_0]; done.
Qed.

Lemma is_downgraded f : is_downgraded_to_local f = Z.testbit f 4.
Proof. unfold is_downgraded_to_local, contains. rewrite land_downgrade. by destruct (Z.testbit f 4). Qed.

Lemma demote_unset f : is_downgraded_to_local f = false -> demote f = f.
Proof.
  rewrite is_downgraded. intros H. unfold demote. change DOWNGRADE_TO_LOCAL with (2 ^ 4). apply Z.bits_inj'. intros i Hi. rewrite Z.ldiff_spec, Z.pow2_bits_eqb by lia.
  destruct (Z.eqb_spec 4 i) as [<-|]; [by rewrite H|]. apply andb_true_r.
Qed.

Lemma demote_set f : is_downgraded_to_local f = false -> demote (Z.lor f DOWNGRADE_TO_LOCAL) = f.
Proof.
  rewrite is_downgraded. intros H. unfold demote. change DOWNGRADE_TO_LOCAL with (2 ^ 4). apply Z.bits_inj'. intros i Hi.
  rewrite Z.ldiff_spec, Z.lor_spec, Z.pow2_bits_eqb by lia.
  destruct (Z.eqb_spec 4 i) as [<-|]; [by rewrite H|]. by rewrite orb_false_r, andb_true_r.
Qed.

Lemma is_downgraded_lor f : is_downgraded_to_local (Z.lor f DOWNGRADE_TO_LOCAL) = true.
Proof. rewrite is_downgraded, Z.lor_spec. apply orb_true_r. Qed.

(** Linking with the list of global names of a script that is kept as such (all symbols are
    downgraded when they are loaded, and the definitions of the listed names are taken back
    afterwards) leaves the flags that the script itself gives: for every symbol of a file that
    is not thread-local, if the listed names are those of the definitions that stay global. *)
Theorem rust_script_flags {N : Names} hash_bytes buckets defs body names file_id entries shard outs shard_r outs_r shard_g outs_g downgrade flags' k e info :
  rust_like body = true -> script_of body = Ok (Rust names) ->
  (forall name, is_utf8 name = true -> should_downgrade_to_local (Regular (regular_of body)) name = Ok (downgrade name)) ->
  load_symbols hash_bytes (fun _ => true) (downgrades_all (Rust names)) file_id entries (shard, outs) = Ok (shard_r, outs_r) ->
  load_symbols hash_bytes downgrade (downgrades_all (Regular (regular_of body))) file_id entries (shard, outs) = Ok (shard_g, outs_g) ->
  handle_rust_version_script hash_bytes buckets defs names (shard_flags shard_r) = Ok flags' ->
  entries !! k = Some e -> is_downgraded_to_local (value_flags e) = false -> is_undefined e || should_ignore e || Symbols.is_local e = false ->
  is_tls e = false -> name_and_version e = Ok info -> is_utf8 (raw_name info) = true ->
  let id := (length (shard_flags shard) + k)%nat in
  promoted hash_bytes buckets defs names (Z.of_nat id) = bool_decide (raw_name info ∈ names) ->
  flags' !! id = shard_flags shard_g !! id.
Proof.
  intros Hr Hs Hd Hlr Hlg Hh He Hf Hk Htls Hi Hu id Hp. apply load_symbols_flags in Hlr, Hlg. apply handle_rust_flags in Hh as [_ Hh].
  rewrite Hh, Hp, Hlr, Hlg. unfold id. rewrite !lookup_app_r, !Nat.add_sub' by lia. change (map ?f) with (fmap (M := list) f). rewrite !list_lookup_fmap, He.
  cbn [fmap option_fmap option_map downgrades_all]. f_equal. unfold loaded_flags. rewrite Hk, Hi, Htls. cbn [andb negb].
  specialize (Hd (raw_name info) Hu). cbn [should_downgrade_to_local] in Hd.
  assert (downgrade (raw_name info) = negb (bool_decide (raw_name info ∈ names))) as ->.
  { assert (is_local (regular_of body) (raw_name info) = Ok (negb (bool_decide (raw_name info ∈ names)))) as E by by apply rust_is_local. rewrite E in Hd. by injection Hd. }
  case_bool_decide; cbn [negb].
  - rewrite demote_set by done. unfold mark_local. by rewrite Hf.
  - unfold mark_local. by rewrite is_downgraded_lor.
Qed.

(** ** Reading the tables *)
Definition read_le (n : nat) (l : list Z) (o : nat) : option Z :=
  let b := take n (drop o l) in if (length b =? n)%nat then Some (le_val b) else None.

(** The string at an offset of the string table, up to its terminator. *)
Definition c_string (l : list Z) (o : nat) : list Z := (run_of (fun b => negb (b =? 0)) (drop o l)).1.

Fixpoint read_names (k : nat) (dynstr d : list Z) (off : nat) : option (list (list Z)) :=
  match k with
  | O => Some []
  | S k =>
      vda_name ← read_le 4 d off;
      vda_next ← read_le 4 d (off + 4);
      rest ← (if (k =? 0)%nat then Some [] else read_names k dynstr d (off + Z.to_nat vda_next));
      Some (c_string dynstr (Z.to_nat vda_name) :: rest)
  end.

Record ReadDef := mkRead { rd_flags : Z; rd_ndx : Z; rd_hash : Z; rd_names : list (list Z) }.

Fixpoint read_verdefs (fuel : nat) (dynstr d : list Z) (off : nat) : option (list ReadDef) :=
  match fuel with
  | O => None
  | S fuel =>
      vd_flags ← read_le 2 d (off + 2);
      vd_ndx ← read_le 2 d (off + 4);
      vd_cnt ← read_le 2 d (off + 6);
      vd_hash ← read_le 4 d (off + 8);
      vd_aux ← read_le 4 d (off + 12);
      vd_next ← read_le 4 d (off + 16);
      names ← read_names (Z.to_nat vd_cnt) dynstr d (off + Z.to_nat vd_aux);
      let entry := mkRead vd_flags vd_ndx vd_hash names in
      if vd_next =? 0 then Some [entry] else rest ← read_verdefs fuel dynstr d (off + Z.to_nat vd_next); Some (entry :: rest)
  end.

Lemma read_le_skip p n l o : read_le n (p ++ l) (length p + o) = read_le n l o.
Proof. unfold read_le. by rewrite <- drop_drop, drop_app_length. Qed.

Lemma read_verdef flags ndx cnt hash next l : let e := verdef_bytes flags ndx cnt hash next ++ l in
  read_le 2 e 2 = Some (wrap 16 flags) /\ read_le 2 e 4 = Some (wrap 16 ndx) /\ read_le 2 e 6 = Some (wrap 16 cnt) /\
  read_le 4 e 8 = Some (wrap 32 hash) /\ read_le 4 e 12 = Some 20 /\ read_le 4 e 16 = Some (wrap 32 next).
Proof.
  split_and!; [exact (f_equal Some (le_val_le_bytes 2 flags))|exact (f_equal Some (le_val_le_bytes 2 ndx))|exact (f_equal Some (le_val_le_bytes 2 cnt))|
    exact (f_equal Some (le_val_le_bytes 4 hash))|reflexivity|exact (f_equal Some (le_val_le_bytes 4 next))].
Qed.

Lemma read_verdaux nm next l : let e := verdaux_bytes nm next ++ l in read_le 4 e 0 = Some (wrap 32 nm) /\ read_le 4 e 4 = Some (wrap 32 next).
Proof. split; [exact (f_equal Some (le_val_le_bytes 4 nm))|exact (f_equal Some (le_val_le_bytes 4 next))]. Qed.

Lemma c_string_app p s r : 0 ∉ s -> c_string (p ++ s ++ 0 :: r) (length p) = s.
Proof.
  intros Hs. unfold c_string. rewrite drop_app_length, run_of_app; [done| |done]. apply Forall_forall. intros b Hb. apply negb_true_iff, Z.eqb_neq. by intros ->.
Qed.

(** ** What the writer leaves *)
Section Written.
Context (hash : list Z -> Z) (soname : option (list Z)) (so_off : Z) (start : Z) (verdefs : list VersionDef).

Definition name_of (i : nat) (v : VersionDef) : list Z := match i, soname with O, Some s => s | _, _ => def_name v end.

Definition entry_strs (e : nat * VersionDef) : list Z := match e.1, soname with O, Some _ => [] | _, _ => def_name e.2 ++ [0] end.

Definition strs (k : nat) : list Z := concat (map entry_strs (take k (enumerate verdefs))).

Definition name_at (i : nat) : Z := match i, soname with O, Some _ => so_off | _, _ => start + Z.of_nat (length (strs i)) end.

Definition aux_count (v : VersionDef) : Z := match def_parent v with Some _ => 2 | None => 1 end.

Definition entry_next (i : nat) (v : VersionDef) : Z := if (i <? length verdefs - 1)%nat then 20 + 8 * aux_count v else 0.

Definition entry_bytes (e : nat * VersionDef) : list Z :=
  let '(i, v) := e in
  verdef_bytes (if (i =? 0)%nat then 1 else 0) (version_index i) (aux_count v) (hash (name_of i v)) (entry_next i v) ++
  verdaux_bytes (name_at i) (match def_parent v with Some _ => 8 | None => 0 end) ++
  match def_parent v with Some p => verdaux_bytes (name_at (Z.to_nat p)) 0 | None => [] end.

Definition outs (k : nat) : list Z := concat (map entry_bytes (take k (enumerate verdefs))).

Definition entry_size (v : VersionDef) : Z := 20 + 8 * aux_count v.

Lemma length_verdef_bytes flags ndx cnt h next : length (verdef_bytes flags ndx cnt h next) = 20%nat.
Proof. done. Qed.

Lemma length_verdaux_bytes nm next : length (verdaux_bytes nm next) = 8%nat.
Proof. done. Qed.

Lemma length_entry_bytes i v : Z.of_nat (length (entry_bytes (i, v))) = entry_size v.
Proof. unfold entry_bytes, entry_size, aux_count. by destruct (def_parent v). Qed.

Lemma concat_take_snoc {A} (f : nat * VersionDef -> list A) k v : verdefs !! k = Some v ->
  concat (map f (take (S k) (enumerate verdefs))) = concat (map f (take k (enumerate verdefs))) ++ f (k, v).
Proof.
  intros Hv. rewrite (take_S_r _ _ (k, v)) by (apply lookup_enumerate; eauto). rewrite map_app, concat_app. cbn. by rewrite app_nil_r.
Qed.

Lemma concat_prefix {A} (f : nat * VersionDef -> list A) k v : verdefs !! k = Some v -> forall n, (k < n)%nat -> exists r,
  concat (map f (take n (enumerate verdefs))) = concat (map f (take k (enumerate verdefs))) ++ f (k, v) ++ r.
Proof.
  intros Hv n Hn. exists (concat (map f (drop (S k) (take n (enumerate verdefs))))).
  rewrite app_assoc, <- concat_take_snoc, <- concat_app, <- map_app by done.
  replace (take (S k) (enumerate verdefs)) with (take (S k) (take n (enumerate verdefs))) by (rewrite take_take; f_equal; lia). by rewrite take_drop.
Qed.

(** *** The loop *)
Context (d_total s_total : Z) (soname_offset : option Z).

Definition state (k : nat) : WriterState :=
  mkWriter (mkVersionD (d_total - Z.of_nat (length (outs k))) (outs k))
    (mkStrTab (start + Z.of_nat (length (strs k))) (s_total - Z.of_nat (length (strs k))) (strs k)) (map name_at (seq 1 (k - 1))).

Record fits : Prop := {
  fit_count : Z.of_nat (length verdefs) < 2 ^ 16;
  fit_parents : forall i v p, verdefs !! i = Some v -> def_parent v = Some p -> exists j, (0 < j < i)%nat /\ p = Z.of_nat j;
  fit_start : 0 <= start;
  fit_strings : start + Z.of_nat (length (strs (length verdefs))) < 2 ^ 32;
  fit_d : d_total = Z.of_nat (length (outs (length verdefs)));
  fit_s : s_total = Z.of_nat (length (strs (length verdefs)));
  fit_soname : soname <> None -> soname_offset = Some so_off
}.

Lemma take_bytes_ok bytes space out : Z.of_nat (length bytes) <= space ->
  take_bytes_d bytes (mkVersionD space out) = Ok (mkVersionD (space - Z.of_nat (length bytes)) (out ++ bytes)).
Proof. intros H. unfold take_bytes_d. cbn. by rewrite (proj2 (Z.leb_le _ _) H). Qed.

Lemma write_str_ok s next space out : Z.of_nat (length s) + 1 <= space -> 0 <= next -> next + Z.of_nat (length s) + 1 < 2 ^ 32 ->
  write_str s (mkStrTab next space out) =
    Ok (next, mkStrTab (next + Z.of_nat (length (s ++ [0]))) (space - Z.of_nat (length (s ++ [0]))) (out ++ s ++ [0])).
Proof.
  intros H H0 Hn. unfold write_str. cbn [str_space next_offset str_out]. rewrite (proj2 (Z.leb_le _ _) H), length_app. cbn [length]. unfold wadd.
  do 3 f_equal; [|lia]. rewrite !wrap_small; unfold in_u; [lia|lia|]. rewrite wrap_small; unfold in_u; lia.
Qed.

Lemma strs_le k n : (k <= n)%nat -> (length (strs k) <= length (strs n))%nat.
Proof.
  intros Hk. unfold strs. replace (take k (enumerate verdefs)) with (take k (take n (enumerate verdefs))) by (rewrite take_take; f_equal; lia).
  rewrite <- (take_drop k (take n (enumerate verdefs))) at 2. rewrite map_app, concat_app, length_app. lia.
Qed.

Lemma outs_step k v : verdefs !! k = Some v -> outs (S k) = outs k ++ entry_bytes (k, v).
Proof. apply concat_take_snoc. Qed.

Lemma strs_step k v : verdefs !! k = Some v -> strs (S k) = strs k ++ entry_strs (k, v).
Proof. apply concat_take_snoc. Qed.

Lemma outs_le k n : (k <= n)%nat -> (length (outs k) <= length (outs n))%nat.
Proof.
  intros Hk. unfold outs. replace (take k (enumerate verdefs)) with (take k (take n (enumerate verdefs))) by (rewrite take_take; f_equal; lia).
  rewrite <- (take_drop k (take n (enumerate verdefs))) at 2. rewrite map_app, concat_app, length_app. lia.
Qed.

(** The string of an entry: its offset, and the state of the writer of strings after it. *)
Definition entry_string (k : nat) (v : VersionDef) (s : WriterState) : res (list Z * Z * StrTabWriter * list Z) :=
  match k, soname with
  | O, Some soname =>
      match soname_offset with Some offset => Ok (soname, offset, strtab s, version_string_offsets s) | None => Panic end
  | O, None => '(offset, strtab) ← write_str (def_name v) (strtab s); Ok (def_name v, offset, strtab, version_string_offsets s)
  | _, _ => '(offset, strtab) ← write_str (def_name v) (strtab s); Ok (def_name v, offset, strtab, version_string_offsets s ++ [offset])
  end.

Lemma entry_string_ok k v : fits -> verdefs !! k = Some v ->
  entry_string k v (state k) = Ok (name_of k v, name_at k, strtab (state (S k)), map name_at (seq 1 k)).
Proof.
  intros [Hc Hp H0 Hs _ Hst Hso] Hv. pose proof (lookup_lt_Some _ _ _ Hv) as Hk. pose proof (strs_step k v Hv) as Hstep.
  pose proof (strs_le (S k) (length verdefs) ltac:(lia)) as Hle. rewrite Hstep, length_app in Hle.
  unfold state. cbn [strtab version_string_offsets]. rewrite Hstep. unfold entry_string, name_of. destruct k as [|k].
  - change (strs 0) with (@nil Z). cbn [app]. unfold entry_strs, name_at in *. cbn [fst] in *. destruct soname as [so|].
    + rewrite Hso by done. cbn. by rewrite Z.add_0_r.
    + change (strs 0) with (@nil Z) in *. cbn [length snd app] in *. rewrite length_app in Hle. cbn [length] in Hle. cbn [strtab version_string_offsets].
      rewrite write_str_ok by lia. cbn [mbind res_bind]. cbn [app]. rewrite Z.add_0_r, Z.sub_0_r. done.
  - unfold entry_strs in *. cbn [fst snd] in *. rewrite length_app in Hle. cbn [length] in Hle. rewrite Hst. cbn [strtab version_string_offsets].
    rewrite (write_str_ok (def_name v)) by lia. cbn [mbind res_bind]. rewrite (length_app (strs (S k))), Nat2Z.inj_add, Z.add_assoc, Z.sub_add_distr.
    cbn [Nat.sub]. rewrite Nat.sub_0_r, (seq_S k 1), map_app. done.
Qed.

Lemma parent_offset k v p : fits -> verdefs !! k = Some v -> def_parent v = Some p -> index (map name_at (seq 1 k)) (p - 1) = Ok (name_at (Z.to_nat p)).
Proof.
  intros [_ Hp _ _ _ _ _] Hv Hpar. destruct (Hp _ _ _ Hv Hpar) as (j & Hj & ->). unfold index. rewrite decide_True by lia.
  change (map name_at) with (fmap (M := list) name_at). rewrite list_lookup_fmap, lookup_seq_lt by lia. cbn [fmap option_fmap option_map]. do 2 f_equal. lia.
Qed.

Lemma write_entry_step k v : fits -> verdefs !! k = Some v ->
  write_verdef_entry hash (length verdefs) soname soname_offset (k, v) (state k) = Ok (state (S k)).
Proof.
  intros Hfit Hv. pose proof (entry_string_ok k v Hfit Hv) as Hstr. pose proof (fun p => parent_offset k v p Hfit Hv) as Hpar.
  pose proof (outs_step k v Hv) as Hout. pose proof (length_entry_bytes k v) as Hlen. pose proof (lookup_lt_Some _ _ _ Hv) as Hk.
  pose proof (outs_le (S k) (length verdefs) ltac:(lia)) as Hle. rewrite Hout, length_app in Hle. destruct Hfit as [_ _ _ _ Hd _ _].
  unfold write_verdef_entry. unfold ensure. unfold entry_size, aux_count in Hlen. cbn [version_d state d_space].
  rewrite (proj2 (Z.leb_le _ _)) by (unfold sizeof_verdef; destruct (def_parent v); lia). cbn [mbind res_bind].
  change (match k, soname with O, Some s0 => _ | O, None => _ | _, _ => _ end) with (entry_string k v (state k)). rewrite Hstr. cbn [mbind res_bind].
  assert (wrap 32 (sizeof_verdef + sizeof_verdaux * match def_parent v with Some _ => 2 | None => 1 end) = 20 + 8 * aux_count v) as ->.
  { unfold aux_count. by destruct (def_parent v). }
  fold (entry_next k v). fold (aux_count v). unfold state. rewrite Hout. unfold entry_bytes in *. cbn [Nat.sub]. rewrite Nat.sub_0_r.
  destruct (def_parent v) as [p|] eqn:Ep; rewrite !length_app, length_verdef_bytes, !length_verdaux_bytes in Hle; cbn [length] in Hle.
  - rewrite take_bytes_ok by (rewrite length_verdef_bytes; lia). cbn [mbind res_bind].
    rewrite take_bytes_ok by (rewrite length_verdef_bytes, length_verdaux_bytes; lia). cbn [mbind res_bind]. rewrite (Hpar p eq_refl). cbn [mbind res_bind].
    rewrite take_bytes_ok by (rewrite length_verdef_bytes, !length_verdaux_bytes; lia). cbn [mbind res_bind]. rewrite !length_app, <- !app_assoc, !Nat2Z.inj_add, !Z.sub_add_distr. done.
  - rewrite take_bytes_ok by (rewrite length_verdef_bytes; lia). cbn [mbind res_bind].
    rewrite take_bytes_ok by (rewrite length_verdef_bytes, length_verdaux_bytes; lia). cbn [mbind res_bind].
    rewrite app_nil_r, !length_app, <- !app_assoc, !Nat2Z.inj_add, !Z.sub_add_distr. done.
Qed.

Lemma write_all : fits -> forall m k, (k + m = length verdefs)%nat ->
  for_each (write_verdef_entry hash (length verdefs) soname soname_offset) (drop k (enumerate verdefs)) (state k) = Ok (state (length verdefs)).
Proof.
  intros Hfit. induction m as [|m IH]; intros k Hk.
  - rewrite drop_ge by (rewrite length_enumerate; lia). cbn. do 2 f_equal. lia.
  - destruct (lookup_lt_is_Some_2 verdefs k ltac:(lia)) as [v Hv]. rewrite (drop_S _ (k, v)) by (apply lookup_enumerate; eauto).
    cbn [for_each]. rewrite write_entry_step by done. cbn [mbind res_bind]. apply IH. lia.
Qed.

Lemma write_verdef_state : fits ->
  write_verdef hash verdefs soname soname_offset (mkVersionD d_total []) (mkStrTab start s_total []) = Ok (state (length verdefs)).
Proof.
  intros Hfit. pose proof (write_all Hfit (length verdefs) 0 ltac:(lia)) as H. rewrite drop_0 in H. unfold write_verdef. rewrite <- H. f_equal.
  unfold state. change (strs 0) with (@nil Z). change (outs 0) with (@nil Z). cbn. by rewrite !Z.sub_0_r, Z.add_0_r.
Qed.

(** *** Reading back *)
Record readable (pre : list Z) : Prop := {
  rd_start : start = Z.of_nat (length pre);
  rd_terminated : forall i v, verdefs !! i = Some v -> 0 ∉ def_name v;
  rd_soname : forall s, soname = Some s -> exists p1 p2, pre = p1 ++ s ++ 0 :: p2 /\ so_off = Z.of_nat (length p1) /\ 0 ∉ s;
  rd_hash32 : forall s, in_u 32 (hash s)
}.

Definition parent_names (v : VersionDef) : list (list Z) :=
  match def_parent v with Some p => match verdefs !! Z.to_nat p with Some u => [def_name u] | None => [] end | None => [] end.

(** What a reader finds for an entry. *)
Definition read_of (e : nat * VersionDef) : ReadDef :=
  let '(i, v) := e in mkRead (if (i =? 0)%nat then 1 else 0) (Z.of_nat i + 1) (hash (name_of i v)) (name_of i v :: parent_names v).

Lemma own_string pre post i v : start = Z.of_nat (length pre) -> verdefs !! i = Some v -> 0 ∉ def_name v -> entry_strs (i, v) = def_name v ++ [0] ->
  c_string (pre ++ strs (length verdefs) ++ post) (Z.to_nat (start + Z.of_nat (length (strs i)))) = def_name v.
Proof.
  intros Hs Hv H0 He. destruct (concat_prefix entry_strs i v Hv (length verdefs) ltac:(by eapply lookup_lt_Some)) as [r Hr].
  unfold strs at 1. rewrite Hr. fold (strs i). rewrite He. replace (Z.to_nat _) with (length (pre ++ strs i)) by (rewrite length_app; lia).
  replace (pre ++ (strs i ++ (def_name v ++ [0]) ++ r) ++ post) with ((pre ++ strs i) ++ def_name v ++ 0 :: r ++ post) by (by rewrite <- !app_assoc).
  by apply c_string_app.
Qed.

Lemma name_read pre post i v : readable pre -> verdefs !! i = Some v ->
  c_string (pre ++ strs (length verdefs) ++ post) (Z.to_nat (name_at i)) = name_of i v.
Proof.
  intros [Hs H0 Hso _] Hv. pose proof (own_string pre post i v Hs Hv (H0 _ _ Hv)) as Hown. unfold name_at, name_of, entry_strs in *. cbn [fst snd] in Hown.
  destruct i as [|i]; [|by apply Hown]. destruct soname as [so|]; [|by apply Hown].
  destruct (Hso so eq_refl) as (p1 & p2 & -> & -> & Hn). rewrite Nat2Z.id, <- !app_assoc. cbn [app]. by apply c_string_app.
Qed.

Lemma name_at_range pre i v : fits -> readable pre -> verdefs !! i = Some v -> in_u 32 (name_at i).
Proof.
  intros [_ _ H0 Hs _ _ _] [Hst _ Hso _] Hv. pose proof (strs_le i (length verdefs) ltac:(apply lookup_lt_Some in Hv; lia)) as Hle. unfold name_at, in_u.
  destruct i; [|lia]. destruct soname as [so|]; [|lia]. destruct (Hso so eq_refl) as (p1 & p2 & -> & -> & _). rewrite length_app in Hst. lia.
Qed.

Lemma read_names_entry pre post k v rest : fits -> readable pre -> verdefs !! k = Some v ->
  read_names (Z.to_nat (aux_count v)) (pre ++ strs (length verdefs) ++ post) (entry_bytes (k, v) ++ rest) 20 = Some (name_of k v :: parent_names v).
Proof.
  intros Hf Hr Hv. pose proof (name_read pre post _ _ Hr Hv) as Hn. pose proof (name_at_range _ _ _ Hf Hr Hv) as Hrange.
  unfold entry_bytes. set (vb := verdef_bytes _ _ _ _ _).
  assert (forall l n o, read_le n (vb ++ l) (20 + o) = read_le n l o) as Hskip by (intros; apply (read_le_skip vb)).
  unfold aux_count, parent_names. rewrite <- !app_assoc. destruct (def_parent v) as [p|] eqn:Ep; cbn [app].
  - destruct (fit_parents Hf _ _ _ Hv Ep) as (j & Hj & ->). destruct (lookup_lt_is_Some_2 verdefs j) as [u Hu]; [apply lookup_lt_Some in Hv; lia|].
    rewrite Nat2Z.id, Hu. pose proof (name_read pre post _ _ Hr Hu) as Hnu. pose proof (name_at_range _ _ _ Hf Hr Hu) as Hru.
    change (Z.to_nat 2) with 2%nat. cbn [read_names Nat.eqb]. rewrite <- (Nat.add_0_r 20) at 1. change (20 + 4)%nat with (20 + 4)%nat. rewrite !Hskip.
    destruct (read_verdaux (name_at k) 8 (verdaux_bytes (name_at j) 0 ++ rest)) as [-> ->]. cbn [mbind option_bind].
    rewrite (wrap_small 32 (name_at k)), Hn by done. change (20 + Z.to_nat (wrap 32 8))%nat with (20 + (8 + 0))%nat. change (20 + (8 + 0) + 4)%nat with (20 + (8 + 4))%nat.
    rewrite !Hskip. rewrite !(read_le_skip (verdaux_bytes (name_at k) 8) _ (verdaux_bytes (name_at j) 0 ++ rest)).
    destruct (read_verdaux (name_at j) 0 rest) as [-> ->]. cbn [mbind option_bind]. rewrite (wrap_small 32 (name_at j)), Hnu by done.
    by destruct j; [lia|].
  - change (Z.to_nat 1) with 1%nat. cbn [read_names Nat.eqb]. rewrite <- (Nat.add_0_r 20) at 1. rewrite !Hskip.
    destruct (read_verdaux (name_at k) 0 rest) as [-> ->]. cbn [mbind option_bind]. by rewrite (wrap_small 32 (name_at k)), Hn by done.
Qed.

Lemma version_index_small k : Z.of_nat k < 2 ^ 16 - 1 -> version_index k = Z.of_nat k + 1.
Proof. intros. unfold version_index, wadd, VER_NDX_GLOBAL. rewrite (wrap_small 16 (Z.of_nat k)) by (unfold in_u; lia). rewrite wrap_small; unfold in_u; lia. Qed.

Lemma read_step pre post k v r fuel : fits -> readable pre -> verdefs !! k = Some v ->
  let dynstr := pre ++ strs (length verdefs) ++ post in let d := outs k ++ entry_bytes (k, v) ++ r in
  read_verdefs (S fuel) dynstr d (length (outs k)) =
    (if entry_next k v =? 0 then Some [read_of (k, v)]
     else rest ← read_verdefs fuel dynstr d (length (outs k) + Z.to_nat (entry_next k v)); Some (read_of (k, v) :: rest)).
Proof.
  intros Hf Hr Hv dynstr d. pose proof (read_names_entry pre post k v r Hf Hr Hv) as Hnames.
  pose proof (read_verdef (if (k =? 0)%nat then 1 else 0) (version_index k) (aux_count v) (hash (name_of k v)) (entry_next k v)
    (verdaux_bytes (name_at k) (match def_parent v with Some _ => 8 | None => 0 end) ++
     match def_parent v with Some p => verdaux_bytes (name_at (Z.to_nat p)) 0 | None => [] end ++ r)) as Hread. cbv zeta in Hread.
  assert (entry_bytes (k, v) ++ r = verdef_bytes (if (k =? 0)%nat then 1 else 0) (version_index k) (aux_count v) (hash (name_of k v)) (entry_next k v) ++
    verdaux_bytes (name_at k) (match def_parent v with Some _ => 8 | None => 0 end) ++
    match def_parent v with Some p => verdaux_bytes (name_at (Z.to_nat p)) 0 | None => [] end ++ r) as Hbytes.
  { unfold entry_bytes. by rewrite <- !app_assoc. }
  rewrite <- Hbytes in Hread. destruct Hread as (E1 & E2 & E3 & E4 & E5 & E6).
  pose proof (fit_count Hf) as Hc. pose proof (lookup_lt_Some _ _ _ Hv) as Hk.
  assert (wrap 16 (if (k =? 0)%nat then 1 else 0) = if (k =? 0)%nat then 1 else 0) as W1 by by destruct (k =? 0)%nat.
  assert (wrap 16 (version_index k) = Z.of_nat k + 1) as W2 by (rewrite version_index_small by lia; apply wrap_small; unfold in_u; lia).
  assert (wrap 16 (aux_count v) = aux_count v) as W3 by (unfold aux_count; by destruct (def_parent v)).
  assert (wrap 32 (hash (name_of k v)) = hash (name_of k v)) as W4 by (apply wrap_small, (rd_hash32 _ Hr)).
  assert (wrap 32 (entry_next k v) = entry_next k v) as W5 by (unfold entry_next, aux_count; destruct (_ <? _)%nat, (def_parent v); done).
  cbn [read_verdefs]. unfold d. rewrite !read_le_skip, E1, E2, E3, E4, E5, E6, W1, W2, W3, W4, W5. cbn [mbind option_bind].
  assert (forall n p o l, read_names n dynstr (p ++ l) (length p + o) = read_names n dynstr l o) as Hskip.
  { intros n. induction n as [|n IH]; intros p o l; [done|]. cbn [read_names]. rewrite read_le_skip. rewrite <- !Nat.add_assoc, read_le_skip.
    destruct (read_le 4 l o) as [a|]; [|done]. cbn [mbind option_bind]. destruct (read_le 4 l (o + 4)) as [b|]; [|done]. cbn [mbind option_bind].
    by rewrite <- Nat.add_assoc, IH. }
  rewrite Hskip. change (Z.to_nat 20) with 20%nat. unfold dynstr. rewrite Hnames. done.
Qed.

Lemma read_all pre post : fits -> readable pre -> forall m k fuel, (k + S m = length verdefs)%nat -> (m < fuel)%nat ->
  read_verdefs fuel (pre ++ strs (length verdefs) ++ post) (outs (length verdefs)) (length (outs k)) = Some (map read_of (drop k (enumerate verdefs))).
Proof.
  intros Hf Hr. induction m as [|m IH]; intros k fuel Hk Hfuel.
  all: destruct (lookup_lt_is_Some_2 verdefs k ltac:(lia)) as [v Hv]; destruct fuel as [|fuel]; [lia|].
  all: rewrite (drop_S _ (k, v)) by (apply lookup_enumerate; eauto); cbn [map].
  all: destruct (concat_prefix entry_bytes k v Hv (length verdefs) ltac:(lia)) as [r Hout]; change (outs (length verdefs) = outs k ++ entry_bytes (k, v) ++ r) in Hout.
  all: rewrite Hout, (read_step pre post k v r fuel Hf Hr Hv); unfold entry_next.
  - rewrite (proj2 (Nat.ltb_ge _ _)) by lia. rewrite drop_ge by (rewrite length_enumerate; lia). done.
  - rewrite (proj2 (Nat.ltb_lt _ _)) by lia. fold (entry_size v).
    assert ((entry_size v =? 0) = false) as -> by (unfold entry_size, aux_count; by destruct (def_parent v)).
    assert (length (outs k) + Z.to_nat (entry_size v) = length (outs (S k)))%nat as ->.
    { rewrite (outs_step k v Hv), length_app. pose proof (length_entry_bytes k v). lia. }
    rewrite <- Hout, IH by lia. done.
Qed.
End Written.

(** ** The tables of a script *)
Fixpoint total {A} (f : A -> Z) (l : list A) : Z := match l with [] => 0 | a :: l => f a + total f l end.

Lemma total_length {A B} (f : A -> list B) l : Z.of_nat (length (concat (map f l))) = total (fun a => Z.of_nat (length (f a))) l.
Proof. induction l as [|a l IH]; cbn; [done|]. rewrite length_app. lia. Qed.

Lemma total_ext {A} (f g : A -> Z) l : (forall a, f a = g a) -> total f l = total g l.
Proof. intros H. induction l as [|a l IH]; cbn; [done|]. by rewrite H, IH. Qed.

Lemma total_map {A B} (f : B -> Z) (g : A -> B) l : total f (map g l) = total (fun a => f (g a)) l.
Proof. induction l as [|a l IH]; cbn; [done|]. by rewrite IH. Qed.

Lemma enumerate_snd {A} (l : list A) : map snd (enumerate l) = l.
Proof.
  apply list_eq. intros i. change (map snd) with (fmap (M := list) (@snd nat A)). rewrite list_lookup_fmap. unfold enumerate. rewrite list_lookup_imap.
  by destruct (l !! i).
Qed.

Lemma total_enumerate {A} (f : A -> Z) (l : list A) : total (fun e => f e.2) (enumerate l) = total f l.
Proof. rewrite <- (enumerate_snd l) at 2. by rewrite total_map. Qed.

(** The strings after the base version. *)
Lemma total_later soname (l : list VersionDef) : forall j,
  total (fun e => Z.of_nat (length (entry_strs soname e))) (imap (fun i a => (S (j + i), a)) l) =
  foldr (fun v n => Z.of_nat (length (def_name v)) + 1 + n) 0 l.
Proof.
  induction l as [|v l IH]; intros j; cbn [imap total foldr]; [done|]. f_equal.
  - unfold entry_strs. cbn [fst snd]. rewrite length_app. cbn. lia.
  - rewrite <- (IH (S j)). f_equal. apply imap_ext. intros i x _. cbn. do 2 f_equal. lia.
Qed.

Definition parents (l : list VersionDef) : nat := length (List.filter (fun v => bool_decide (is_Some (def_parent v))) l).

Lemma total_entry_size vs : total entry_size vs = 20 * Z.of_nat (length vs) + 8 * (Z.of_nat (length vs) + Z.of_nat (parents vs)).
Proof.
  unfold parents. induction vs as [|v vs IH]; cbn [total length List.filter]; [done|]. rewrite IH. unfold entry_size, aux_count.
  destruct (def_parent v); [rewrite bool_decide_eq_true_2 by done|rewrite bool_decide_eq_false_2 by (by intros [? ?])]; cbn [length]; lia.
Qed.

Section Script.
Context {N : Names}.

Definition script_table (soname : option (list Z)) (file_name : list Z) (script : RegularVersionScript) : list VersionDef :=
  mkVersionDef (match soname with None => file_name | Some _ => [] end) None :: script_defs (Regular script).

Definition parent_total (script : RegularVersionScript) : Z := Z.of_nat (length (List.filter has_parent (versions script))).

(** The sizes do not overflow, which is not checked: see [version_d_size_wraps]. *)
Definition size_ok (script : RegularVersionScript) : Prop :=
  20 * Z.of_nat (length (versions script)) + 8 * (Z.of_nat (length (versions script)) + parent_total script) < 2 ^ 16.

Lemma script_defs_lookup script i : script_defs (Regular script) !! i = (fun v => mkVersionDef (name v) (parent_index v)) <$> versions script !! S i.
Proof. unfold script_defs. change (map ?f) with (fmap (M := list) f). by rewrite list_lookup_fmap, lookup_drop. Qed.

Lemma script_table_lookup soname file_name script i : script_table soname file_name script !! S i = (fun v => mkVersionDef (name v) (parent_index v)) <$> versions script !! S i.
Proof. apply script_defs_lookup. Qed.

Lemma length_script_table soname file_name script : script_ok script -> length (script_table soname file_name script) = length (versions script).
Proof. intros [(b & Hb) _ _]. apply lookup_lt_Some in Hb. cbn. rewrite length_map, length_drop. lia. Qed.

Lemma parents_table soname file_name script : script_ok script -> Z.of_nat (parents (script_table soname file_name script)) = parent_total script.
Proof.
  intros [(b & Hb) _ _]. unfold parents, parent_total, script_table, script_defs. destruct (versions script) as [|v vs]; [done|]. injection Hb as ->.
  cbn [drop List.filter has_parent def_parent]. cbn. rewrite drop_0. f_equal. induction vs as [|v vs IH]; cbn; [done|]. unfold has_parent at 1. cbn.
  by destruct (bool_decide (is_Some (parent_index v))); cbn; rewrite IH.
Qed.

Lemma strs_total hash soname file_name script (verdefs := script_table soname file_name script) so_off start :
  Z.of_nat (length (strs soname verdefs (length verdefs))) =
    (match soname with None => Z.of_nat (length file_name) + 1 | Some _ => 0 end) +
    foldr (fun v n => Z.of_nat (length (def_name v)) + 1 + n) 0 (script_defs (Regular script)) /\
  Z.of_nat (length (outs hash soname so_off start verdefs (length verdefs))) = total entry_size verdefs.
Proof.
  unfold strs, outs. rewrite <- (length_enumerate verdefs), !firstn_all, !total_length. split.
  - change (enumerate verdefs) with ((0%nat, mkVersionDef (match soname with None => file_name | Some _ => [] end) None) :: imap (fun i a => (S (0 + i), a)) (script_defs (Regular script))).
    cbn [total]. rewrite total_later. f_equal. unfold entry_strs. cbn [fst snd def_name]. destruct soname; [done|]. rewrite length_app. cbn. lia.
  - rewrite <- (total_enumerate entry_size verdefs). apply total_ext. intros [i v]. apply length_entry_bytes.
Qed.

Lemma parents_earlier_table soname file_name script i v p : script_ok script -> Z.of_nat (length (versions script)) < 2 ^ 16 ->
  script_table soname file_name script !! i = Some v -> def_parent v = Some p -> exists j, (0 < j < i)%nat /\ p = Z.of_nat j.
Proof.
  intros [_ Hp _] Hn Hv Hpar. destruct i as [|i]; [injection Hv as <-; done|]. rewrite script_table_lookup in Hv.
  destruct (versions script !! S i) as [w|] eqn:Hw; [|done]. injection Hv as <-. destruct (Hp _ _ Hw ltac:(lia)) as [_ Hpo].
  destruct (Hpo p Hpar) as (j & u & Hj & Hu & ->). exists j. split; [done|]. apply wrap_small. apply lookup_lt_Some in Hu. unfold in_u. lia.
Qed.

(** The needs of the writer are met by what is allocated. *)
Lemma version_defs_fit hash soname file_name script verdefs dynstr_size d_size so_off soname_offset start :
  script_ok script -> Z.of_nat (length (versions script)) < 2 ^ 16 -> size_ok script ->
  version_defs soname file_name (Regular script) = Some (verdefs, dynstr_size, d_size) ->
  0 <= start -> start + dynstr_size < 2 ^ 32 -> (soname <> None -> soname_offset = Some so_off) ->
  verdefs = script_table soname file_name script /\ fits hash soname so_off start verdefs d_size dynstr_size soname_offset.
Proof.
  intros Hs Hn Hd Hv H0 Hsum Hso. unfold version_defs in Hv. destruct (Z.ltb_spec 0 (version_count (Regular script))) as [Hc|]; [|done].
  injection Hv as <- Hdyn Hds. split; [done|]. change (fits hash soname so_off start (script_table soname file_name script) d_size dynstr_size soname_offset).
  destruct (strs_total hash soname file_name script so_off start) as [Hstr Hout].
  pose proof (length_script_table soname file_name script Hs) as Hl. pose proof (parents_table soname file_name script Hs) as Hpar.
  rewrite total_entry_size, Hpar, Hl in Hout. unfold size_ok, parent_total in *.
  assert (version_count (Regular script) = Z.of_nat (length (versions script))) as Hcount.
  { cbn in Hc |- *. unfold regular_version_count in *. destruct (Nat.eqb_spec (length (versions script)) 1); [lia|]. apply wrap_small. unfold in_u. lia. }
  split; [rewrite Hl; lia|intros; by eapply parents_earlier_table|done| | | |done].
  - rewrite Hstr. unfold script_defs. rewrite Hdyn. lia.
  - cbn [version_count] in Hcount. rewrite Hl, Hout, <- Hds. cbn [version_count parent_count]. rewrite Hcount. unfold regular_parent_count, wadd, wmul, sizeof_verdef, sizeof_verdaux.
    set (n := Z.of_nat (length (versions script))) in *. set (p := Z.of_nat (length (List.filter has_parent (versions script)))) in *.
    rewrite (wrap_small 16 p), (wrap_small 16 (n + p)), (wrap_small 16 (20 * n)), (wrap_small 16 (8 * (n + p))) by (unfold in_u; lia).
    rewrite wrap_small by (unfold in_u; lia). done.
  - rewrite Hstr. unfold script_defs. by rewrite Hdyn.
Qed.
End Script.

(** C28. The version definitions are written in exactly the space that was allocated for them and
    their strings, and a reader that follows the chains of [.gnu.version_d] finds one entry
    for each version of the script: numbered from 1 in the order of the script, with the hash
    of its name, its name, and the name of its parent; the first entry is the base version, named
    after the soname or the file. This is for a well-formed script whose definitions take less
    than 2^16 bytes (20 for each version, 8 for each name of a version or parent): beyond that the
    size, computed in u16, wraps and the space is too small (see [version_d_size_wraps]). The names
    contain no NUL, the string table stays below 2^32 bytes, the hash is a u32, and a soname is
    already in the string table. *)
Theorem verdefs_read_back {N : Names} hash soname file_name script verdefs dynstr_size d_size so_off soname_offset pre :
  script_ok script -> Z.of_nat (length (versions script)) < 2 ^ 16 -> size_ok script ->
  version_defs soname file_name (Regular script) = Some (verdefs, dynstr_size, d_size) ->
  Z.of_nat (length pre) + dynstr_size < 2 ^ 32 -> (soname <> None -> soname_offset = Some so_off) ->
  (forall v, v ∈ versions script -> 0 ∉ name v) -> 0 ∉ file_name ->
  (forall s, soname = Some s -> exists p1 p2, pre = p1 ++ s ++ 0 :: p2 /\ so_off = Z.of_nat (length p1) /\ 0 ∉ s) ->
  (forall s, in_u 32 (hash s)) ->
  exists st, write_verdef hash verdefs soname soname_offset (mkVersionD d_size []) (mkStrTab (Z.of_nat (length pre)) dynstr_size []) = Ok st /\
    d_space (version_d st) = 0 /\ str_space (strtab st) = 0 /\
    forall post, read_verdefs (length verdefs) (pre ++ str_out (strtab st) ++ post) (d_out (version_d st)) 0 =
      Some (map (read_of hash soname verdefs) (enumerate verdefs)).
Proof.
  intros Hs Hn Hsize Hv Hsum Hso Hnul Hfile Hson Hh.
  destruct (version_defs_fit hash soname file_name script verdefs dynstr_size d_size so_off soname_offset (Z.of_nat (length pre)) Hs Hn Hsize Hv ltac:(lia) Hsum Hso) as [Ht Hf].
  exists (state hash soname so_off (Z.of_nat (length pre)) verdefs d_size dynstr_size (length verdefs)). split; [by apply write_verdef_state|].
  cbn. rewrite (fit_d _ _ _ _ _ _ _ _ Hf), (fit_s _ _ _ _ _ _ _ _ Hf). split; [lia|]. split; [lia|]. intros post.
  rewrite <- (drop_0 (enumerate verdefs)) at 1. assert (0 < length verdefs)%nat as H0 by (rewrite Ht; cbn; lia).
  apply (read_all hash soname so_off (Z.of_nat (length pre)) verdefs d_size dynstr_size soname_offset pre post Hf) with (m := (length verdefs - 1)%nat) (k := 0%nat); [|lia|lia].
  split; [done| |done|done]. intros i v Hi. rewrite Ht in Hi. destruct i as [|i]; [injection Hi as <-; destruct soname; [apply not_elem_of_nil|done]|].
  rewrite script_table_lookup in Hi. destruct (versions script !! S i) as [w|] eqn:Hw; [|done]. injection Hi as <-. cbn. by eapply Hnul, list_elem_of_lookup_2.
Qed.

(** A name that is declared has a last declaration. *)
Lemma last_named_exists {N : Names} (script : RegularVersionScript) n j : (0 < j)%nat -> (exists v, versions script !! j = Some v /\ name v = n) ->
  exists i, last_named (versions script) n i.
Proof.
  intros Hj Hv. remember (length (versions script) - j)%nat as d eqn:Hd. revert j Hj Hv Hd. induction (lt_wf d) as [d _ IH]. intros j Hj (v & Hv & Hn) ->.
  destruct (decide (Exists (fun w => name w = n) (drop (S j) (versions script)))) as [He|He].
  - apply Exists_exists in He as (w & [i Hi]%list_elem_of_lookup & Hw). rewrite lookup_drop in Hi. pose proof (lookup_lt_Some _ _ _ Hi).
    apply (IH (length (versions script) - (S j + i))%nat ltac:(lia) (S j + i)%nat); [lia|by exists w|done].
  - exists j. split_and!; [done|by exists v|]. intros i w Hw Hi Hwn. apply He, Exists_exists. exists w. split; [|done].
    apply list_elem_of_lookup. exists (i - S j)%nat. rewrite lookup_drop. by replace (S j + (i - S j))%nat with i by lia.
Qed.

(** C29. The version of a dynamic symbol is one that is defined, for a well-formed script of fewer
    than 2^16 versions and a symbol whose name is UTF-8: a version named after [@] is the
    entry of that name, hidden unless the name has [@@], an empty name is the global version,
    and without a name it is the entry that [find_match] chooses, or the global version if the
    script says nothing or only its unnamed version does; an unknown name is an error. *)
Theorem symbol_version_defined {N : Names} versym soname file_name script verdefs dynstr_size d_size symbol :
  script_ok script -> Z.of_nat (length (versions script)) < 2 ^ 16 ->
  version_defs soname file_name (Regular script) = Some (verdefs, dynstr_size, d_size) -> is_utf8 (raw_name (RawSymbolName_parse symbol)) = true ->
  let raw := RawSymbolName_parse symbol in let hidden := negb (is_default raw) in
  match symbol_version versym (Regular script) symbol with
  | Ok v =>
      match Symbols.version_name raw with
      | Some n => (n = [] /\ v = versym 1 hidden) \/
          exists i d, (0 < i)%nat /\ verdefs !! i = Some d /\ def_name d = n /\ v = versym (Z.of_nat i + 1) hidden /\
            forall j d', verdefs !! j = Some d' -> (i < j)%nat -> def_name d' <> n
      | None => exists m, find_match script (raw_name raw) = Ok m /\
          match m with
          | Some (S i, _) => (exists d, verdefs !! S i = Some d) /\ v = versym (Z.of_nat (S i) + 1) hidden
          | _ => v = versym 1 false
          end
      end
  | Err _ => exists n, Symbols.version_name raw = Some n /\ n <> [] /\ forall j d, (0 < j)%nat -> verdefs !! j = Some d -> def_name d <> n
  | Panic => False
  end.
Proof.
  intros Hs Hn Hv Hu raw hidden. unfold version_defs in Hv. destruct (Z.ltb_spec 0 (version_count (Regular script))) as [Hc|]; [|done].
  injection Hv as Hv _ _. change (script_table soname file_name script = verdefs) in Hv. subst verdefs.
  unfold symbol_version. fold raw. assert ((0 <? version_count (Regular script)) = true) as -> by (by apply Z.ltb_lt). cbn [orb version_for_symbol].
  unfold regular_version_for_symbol. destruct Hs as [Hbase Hpar Hmap]. destruct (Symbols.version_name raw) as [n|] eqn:En.
  - case_bool_decide as Hne; [by left|]. destruct (version_name_mapping script !! n) as [i|] eqn:Em; cbn [mbind res_bind].
    + apply Hmap in Em as (Hi & (v & Hvi & Hvn) & Hlast). right. exists i, (mkVersionDef (name v) (parent_index v)). destruct i as [|i]; [lia|].
      split_and!; [done|by rewrite script_table_lookup, Hvi|done| |].
      * rewrite version_index_small; [done|]. apply lookup_lt_Some in Hvi. lia.
      * intros j d Hj Hlt. destruct j as [|j]; [lia|]. rewrite script_table_lookup in Hj. destruct (versions script !! S j) as [u|] eqn:Hw; [|done].
        injection Hj as <-. by eapply Hlast.
    + exists n. split_and!; [done|done|]. intros j d Hj Hd Hdn. destruct j as [|j]; [lia|]. clear Hj. rewrite script_table_lookup in Hd.
      destruct (versions script !! S j) as [u|] eqn:Hw; [|done]. injection Hd as <-.
      destruct (last_named_exists script n (S j)) as [i Hi]; [lia|by exists u|]. apply Hmap in Hi. congruence.
  - destruct (find_match_spec script (raw_name raw) Hu) as (m & -> & Hm). cbn [mbind res_bind].
    assert (hidden = false) as Hh.
    { unfold hidden, raw, RawSymbolName_parse in *. destruct (find_slice [64] symbol) as [[nm rest]|]; [|done]. by destruct (starts_with _ rest). }
    fold hidden. rewrite Hh. destruct m as [[[|i] s]|]; cbn [Nat.eqb mbind res_bind]; [by exists (Some (0%nat, s))| |by exists None]. exists (Some (S i, s)). split; [done|].
    unfold deciding in Hm. destruct Hm as (k & _ & ((v & Hvi & _) & _) & _). split.
    + exists (mkVersionDef (name v) (parent_index v)). by rewrite script_table_lookup, Hvi.
    + rewrite version_index_small; [done|]. apply lookup_lt_Some in Hvi. lia.
Qed.

(** ** [.gnu.version] of a chunk *)
Definition written_version (d : DefinitionFile * Z) : Z := match d.1 with DynamicFile output_version => output_version | _ => d.2 end.

(** Without symbols of linker scripts every definition has its own slot. *)
Lemma chunk_versions defs : forall space out, Forall (fun d => d.1 <> ScriptFile /\ d.1 <> OtherFile) defs -> Z.of_nat (length defs) <= space ->
  write_chunk_versions defs space out = Ok (space - Z.of_nat (length defs), out ++ map written_version defs).
Proof.
  induction defs as [|[f v] defs IH]; intros space out Hd Hs; cbn [write_chunk_versions length map]; [by rewrite app_nil_r, Z.sub_0_r|].
  apply Forall_cons in Hd as [[H1 H2] Hd]. cbn [length] in Hs. unfold write_symbol_version. rewrite (proj2 (Z.leb_le _ _)) by lia.
  destruct f; try done; cbn [fst] in *; cbn [mbind res_bind]; rewrite IH by (done || lia); rewrite <- app_assoc; do 2 f_equal; lia.
Qed.

(** A symbol that a linker script defines writes no version, so the versions of the definitions
    after it in the chunk are one slot early and the last slot is not written. *)
Lemma script_symbol_shifts_versions : write_chunk_versions [(ObjectFile, 2); (ScriptFile, 3); (ObjectFile, 4)] 3 [] = Ok (1, [2; 4]).
Proof. reflexivity. Qed.

(** The size of [.gnu.version_d] is computed in 16 bits: 2341 versions get 12 bytes. *)
Definition many_versions (n : nat) : RegularVersionScript := mkRegular (replicate n (mkVersion [1] None (@no_body VersionScript.Example.names))) ∅.

Lemma version_d_size_wraps :
  match version_defs (N := VersionScript.Example.names) (Some [97]) [] (Regular (many_versions 2341)) with
  | Some (verdefs, _, size) => length verdefs = 2341%nat /\ size = 12 /\ total entry_size verdefs = 65548
  | None => False
  end.
Proof. by vm_compute. Qed.

(** ** Examples *)
Module Example.
#[local] Existing Instance VersionScript.Example.names.

Definition entry (tls : bool) (n : String.string) : SymtabEntry := mkEntry false false false tls 0 (Ok (mkRawName (txt n) true None)).

Definition entries : list SymtabEntry := [entry false "foo"; entry false "baz"; entry true "tls"].

Definition buckets : list SymbolBucket := [mkBucket {[txt "foo" := 0; txt "baz" := 1; txt "tls" := 2]} ∅ ∅ ∅].

Definition names_ : list (list Z) := [txt "foo"; txt "bar"].

Definition shard : Shard := mkShard [] [] [] 0.

Definition loaded (downgrade : list Z -> bool) (all : bool) : res (Shard * SymbolLoadOutputs) :=
  load_symbols (fun _ => 0) downgrade all (0, 0) entries (shard, [mkPending [] []]).

Definition keep (name : list Z) : bool := negb (bool_decide (name ∈ names_)).

Definition rust_loaded : Shard * SymbolLoadOutputs := match loaded (fun _ => true) true with Ok r => r | _ => (shard, []) end.
Definition regular_loaded : Shard * SymbolLoadOutputs := match loaded keep false with Ok r => r | _ => (shard, []) end.

Definition promoted_flags : list Z := [0; 24; 24].

Definition verdefs : list VersionDef := [mkVersionDef [] None; mkVersionDef (txt "V1") None; mkVersionDef (txt "V2") (Some 1)].

Definition hash (s : list Z) : Z := wrap 32 (foldl Z.add 0 s).
End Example.
#[local] Existing Instance VersionScript.Example.names.

Lemma rust_script_flags_witness :
  handle_rust_version_script (fun _ => 0) Example.buckets [0; 1; 2] Example.names_ (shard_flags Example.rust_loaded.1) = Ok Example.promoted_flags /\
  Example.promoted_flags !! 1%nat = shard_flags Example.regular_loaded.1 !! 1%nat.
Proof.
  split; [by vm_compute|].
  apply (rust_script_flags (fun _ => 0) Example.buckets [0; 1; 2] VersionScript.Example.rust_body Example.names_ (0, 0) Example.entries Example.shard [mkPending [] []]
    Example.rust_loaded.1 Example.rust_loaded.2 Example.regular_loaded.1 Example.regular_loaded.2 Example.keep Example.promoted_flags 1 (Example.entry false "baz")
    (mkRawName (txt "baz") true None)); try (by vm_compute).
  intros n Hn. by apply rust_is_local.
Defined.

(** The flag that keeps a symbol from being interposed is set on a thread-local symbol by the
    list of names and not by the script it stands for. *)
Lemma rust_script_marks_tls :
  handle_rust_version_script (fun _ => 0) Example.buckets [0; 1; 2] Example.names_ (shard_flags Example.rust_loaded.1) = Ok [0; 24; 24] /\
  shard_flags Example.regular_loaded.1 = [0; 24; 16].
Proof. by vm_compute. Qed.

Lemma example_script_ok : script_ok VersionScript.Example.script.
Proof.
  split.
  - by eexists.
  - intros [|[|[|i]]] v Hv Hi; [lia|injection Hv as <-; done| |done]. injection Hv as <-. split; [done|]. intros p [= <-]. exists 1%nat. eexists. split_and!; [lia|lia|reflexivity|reflexivity].
  - intros n i. cbn [version_name_mapping VersionScript.Example.script]. rewrite lookup_insert_Some, lookup_singleton_Some. unfold last_named. split.
    + intros [[<- <-]|[_ [<- <-]]]; (split; [lia|]; split; [by eexists|]); intros [|[|[|j]]] v Hv Hj; try lia; try done. by injection Hv as <-.
    + intros (Hi & (v & Hv & <-) & _). destruct i as [|[|[|i]]]; [lia|injection Hv as <-; by left| |done]. injection Hv as <-. right. by split.
Qed.

Lemma verdefs_read_back_witness : exists st,
  write_verdef Example.hash Example.verdefs (Some (txt "so")) (Some 1) (mkVersionD 92 []) (mkStrTab 4 6 []) = Ok st /\
  read_verdefs 3 (0 :: txt "so" ++ [0] ++ str_out (strtab st) ++ []) (d_out (version_d st)) 0 =
    Some [mkRead 1 1 226 [txt "so"]; mkRead 0 2 135 [txt "V1"]; mkRead 0 3 136 [txt "V2"; txt "V1"]].
Proof.
  destruct (verdefs_read_back Example.hash (Some (txt "so")) [] VersionScript.Example.script Example.verdefs 6 92 1 (Some 1) (0 :: txt "so" ++ [0]))
    as (st & Hst & _ & _ & Hread).
  - exact example_script_ok.
  - done.
  - by vm_compute.
  - by vm_compute.
  - done.
  - done.
  - intros v Hv.
    assert (Forall (fun v => 0 ∉ name v) (versions VersionScript.Example.script)) as H.
    { repeat constructor; apply (bool_decide_unpack _); by vm_compute. }
    rewrite Forall_forall in H. by apply H.
  - apply not_elem_of_nil.
  - intros s [= <-]. exists [0], []. split; [done|]. split; [done|]. apply (bool_decide_unpack _). by vm_compute.
  - intros s. apply wrap_range. lia.
  - exists st. split; [exact Hst|]. etransitivity; [exact (Hread [])|by vm_compute].
Defined.

Lemma symbol_version_defined_witness : symbol_version (fun v h => if h then v + 32768 else v) (Regular VersionScript.Example.script) (txt "x@V2") = Ok 32771 /\
  exists i d, Example.verdefs !! i = Some d /\ def_name d = txt "V2" /\ 32771 = (Z.of_nat i + 1) + 32768.
Proof.
  split; [by vm_compute|].
  pose proof (symbol_version_defined (fun v h => if h then v + 32768 else v) (Some (txt "so")) [] VersionScript.Example.script Example.verdefs 6 92 (txt "x@V2") example_script_ok eq_refl eq_refl eq_refl) as H.
  assert (symbol_version (fun v h => if h then v + 32768 else v) (Regular VersionScript.Example.script) (txt "x@V2") = Ok 32771) as E by by vm_compute.
  cbv zeta in H. rewrite E in H. change (Symbols.version_name (RawSymbolName_parse (txt "x@V2"))) with (Some (txt "V2")) in H. cbn iota in H.
  destruct H as [[? _]|(i & d & Hi & Hd & Hn & Hv & _)]; [done|]. exists i, d. destruct i as [|i]; [lia|]. split; [exact Hd|]. split; [exact Hn|exact Hv].
Defined.
