(* ===== verification/HashTables.v ===== *)
(** The hash tables of the dynamic symbols: [.gnu.hash] and [.hash].

    - [create_gnu_hash_layout], [GnuHashLayout], [allocate_sysv_hash] and [SysvHashLayout] of
      [libjdxld/src/elf.rs]: the number of buckets, the order of the symbols, the sizes;
    - [write_gnu_hash_tables] and [write_sysv_hash_table] of [elf_writer.rs].

    [gnu_lookup] and [sysv_lookup] are the lookups a dynamic loader makes in the tables, by the
    ELF specification and the GNU extension; the theorems say that they find exactly the
    symbols that were written.  The two hash functions are parameters (the [object] crate).  A
    table is the list of its words; the code views the bytes of the section as words in the
    byte order of the host. *)
From Stdlib Require Import ZArith Lia.
From stdpp Require Import base list list_numbers numbers strings option sorting.
From S2P Require Import Prelude.

Local Open Scope Z_scope.

(** ** Layout *)
Record DynamicSymbolDefinition := mkDef { def_name : list Z; def_hash : Z }.

Record GnuHashLayout := mkGnu { num_defs : Z; bucket_count : Z; bloom_shift : Z; bloom_count : Z; symbol_base : Z }.

(** [usize::next_power_of_two]. *)
Definition next_power_of_two (n : Z) : Z := 2 ^ Z.log2_up n.

Definition bucket_for_hash (self : GnuHashLayout) (hash : Z) : Z := hash mod bucket_count self.

(** The order of names, byte by byte. *)
Fixpoint name_le (a b : list Z) : bool :=
  match a, b with
  | [], _ => true
  | _, [] => false
  | x :: a, y :: b => (x <? y) || ((x =? y) && name_le a b)
  end.

(** The order of the keys [(bucket, name)]. *)
Definition key_le (self : GnuHashLayout) (d e : DynamicSymbolDefinition) : Prop :=
  let b := bucket_for_hash self (def_hash d) in let c := bucket_for_hash self (def_hash e) in
  (b <? c) || ((b =? c) && name_le (def_name d) (def_name e)) = true.

#[export] Instance key_le_dec self : RelDecision (key_le self).
Proof. intros d e. unfold key_le. apply _. Defined.

(** The symbols with equal keys have equal names, so the unstable sort leaves no choice. *)
Definition create_gnu_hash_layout (includes_gnu needs_dynamic : bool) (defs : list DynamicSymbolDefinition) :
    option (GnuHashLayout * list DynamicSymbolDefinition) :=
  if negb includes_gnu || negb needs_dynamic then None
  else
    let n := Z.of_nat (length defs) in
    let layout := mkGnu (wrap 32 n) (wrap 32 (next_power_of_two (n / 2))) 6 1 0 in
    Some (layout, merge_sort (key_le layout) defs).

(** [finalise_layout_epilogue] sets the base. *)
Definition set_symbol_base (dynsym_start_index : Z) (l : GnuHashLayout) : GnuHashLayout :=
  mkGnu (num_defs l) (bucket_count l) (bloom_shift l) (bloom_count l) dynsym_start_index.

(** [GnuHashLayout::allocate]; the size of the header is 16. *)
Definition gnu_size (word_size : Z) (self : GnuHashLayout) : Z :=
  16 + word_size * bloom_count self + 4 * bucket_count self + 4 * num_defs self.

Record SysvHashLayout := mkSysv { sysv_bucket_count : Z; chain_count : Z }.

Definition byte_size (self : SysvHashLayout) : Z := (2 + sysv_bucket_count self + chain_count self) * 4.

(** [allocate_sysv_hash]: the size and the layout, nothing without definitions. *)
Definition allocate_sysv_hash (num_defs num_dynsym : Z) : res (option (Z * SysvHashLayout)) :=
  if num_defs =? 0 then Ok None
  else
    let bucket_count := wrap 32 (next_power_of_two (Z.max (num_defs / 2) 1)) in
    ensure (num_dynsym <? 2 ^ 32) "Too many dynamic symbols for .hash";;
    let layout := mkSysv bucket_count num_dynsym in
    Ok (Some (byte_size layout, layout)).

(** [finalise_layout_epilogue]: the chain count from where the definitions start. *)
Definition finalise_sysv (dynsym_start_index num_defs : Z) (l : SysvHashLayout) : res SysvHashLayout :=
  ensure (dynsym_start_index + wrap 32 num_defs <? 2 ^ 32) "Too many dynamic symbols for .hash";;
  Ok (mkSysv (sysv_bucket_count l) (dynsym_start_index + wrap 32 num_defs)).

(** ** The writer of [.gnu.hash] *)
Record GnuHashTable := mkGnuTable { gnu_layout : GnuHashLayout; bloom : list Z; buckets : list Z; chains : list Z }.

(** [Word::from_u64]: the value fits the word of the class. *)
Definition word_from_u64 (bits v : Z) : res Z := ensure (v <? 2 ^ bits) "ELF word value 0x{value:x} does not fit in ELF32";; Ok v.

Definition shl_u64 (n : Z) : Z := wshl 64 1 n.

(** One symbol: its two bits in the filter, its chain value and, at the start of a chain, its
    bucket. *)
Definition write_bloom (layout : GnuHashLayout) (bits hash : Z) (bloom : list Z) : res (list Z) :=
  let bloom_index := (hash / bits) mod bloom_count layout in
  let bit1 := shl_u64 (hash mod bits) in
  let bit2 := shl_u64 (wshr 32 hash (bloom_shift layout) mod bits) in
  w ← index bloom bloom_index;
  w ← word_from_u64 bits (Z.lor (Z.lor w bit1) bit2);
  index_update bloom bloom_index (fun _ => w).

Fixpoint write_chains (layout : GnuHashLayout) (bits i : Z) (sym_defs : list DynamicSymbolDefinition) (start_of_chain : bool) (bloom buckets : list Z) :
    res (list Z * list Z * list Z) :=
  match sym_defs with
  | [] => Ok (bloom, buckets, [])
  | sym_def :: sym_defs =>
      let hash := def_hash sym_def in
      bloom ← write_bloom layout bits hash bloom;
      let chain_out := Z.ldiff hash 1 in
      let bucket := bucket_for_hash layout hash in
      buckets ← (if start_of_chain then index_update buckets bucket (fun _ => wadd 32 (wrap 32 i) (symbol_base layout)) else Ok buckets);
      let last_in_chain := match sym_defs with [] => true | next :: _ => negb (bucket_for_hash layout (def_hash next) =? bucket) end in
      let chain_out := if last_in_chain then Z.lor chain_out 1 else chain_out in
      '(bloom, buckets, chains) ← write_chains layout bits (i + 1) sym_defs last_in_chain bloom buckets;
      Ok (bloom, buckets, chain_out :: chains)
  end.

(** [bits] is the number of bits of an address of the class; the section has [len] bytes. *)
Definition write_gnu_hash_tables (layout : GnuHashLayout) (bits len : Z) (defs : list DynamicSymbolDefinition) : res GnuHashTable :=
  let word_size := bits / 8 in
  ensure (16 <=? len) "Insufficient .gnu.hash allocation";;
  let rest := len - 16 in
  ensure (word_size * bloom_count layout <=? rest) "Insufficient bytes for .gnu.hash bloom filter";;
  let rest := rest - word_size * bloom_count layout in
  ensure (4 * bucket_count layout <=? rest) "Insufficient bytes for .gnu.hash buckets";;
  let rest := rest - 4 * bucket_count layout in
  ensure (4 * Z.of_nat (length defs) <=? rest) "Insufficient bytes for .gnu.hash chains";;
  '(bloom, buckets, chains) ← write_chains layout bits 0 defs true
    (replicate (Z.to_nat (bloom_count layout)) 0) (replicate (Z.to_nat (bucket_count layout)) 0);
  Ok (mkGnuTable layout bloom buckets chains).

(** ** The writer of [.hash] *)
Record SysvHashTable := mkSysvTable { sysv_buckets : list Z; sysv_chains : list Z }.

Record SysvState := mkSysvState { s_buckets : list Z; s_chains : list Z; last_in_bucket : list (option Z) }.

Section Sysv.
Context (sysv_hash : list Z -> Z).

Definition write_sysv_symbol (layout : SysvHashLayout) (dynsym_start_index i : Z) (sym_def : DynamicSymbolDefinition) (s : SysvState) : res SysvState :=
  ensure (i <? 2 ^ 32) "Too many dynamic symbols for .hash";;
  ensure (dynsym_start_index + i <? 2 ^ 32) "Too many dynamic symbols for .hash";;
  let sym_index := dynsym_start_index + i in
  let bucket := sysv_hash (def_name sym_def) mod sysv_bucket_count layout in
  first ← index (s_buckets s) bucket;
  '(buckets, chains) ←
    (if first =? 0 then buckets ← index_update (s_buckets s) bucket (fun _ => sym_index); Ok (buckets, s_chains s)
     else
       last ← index (last_in_bucket s) bucket;
       match last with
       | Some last => chains ← index_update (s_chains s) last (fun _ => sym_index); Ok (s_buckets s, chains)
       | None => Err "Invalid .hash bucket chain construction"
       end);
  last_in_bucket ← index_update (last_in_bucket s) bucket (fun _ => Some sym_index);
  Ok (mkSysvState buckets chains last_in_bucket).

Fixpoint write_sysv_symbols (layout : SysvHashLayout) (dynsym_start_index i : Z) (defs : list DynamicSymbolDefinition) (s : SysvState) : res SysvState :=
  match defs with
  | [] => Ok s
  | sym_def :: defs => s ← write_sysv_symbol layout dynsym_start_index i sym_def s; write_sysv_symbols layout dynsym_start_index (i + 1) defs s
  end.

(** Nothing is written for a table without buckets or chains. *)
Definition write_sysv_hash_table (layout : SysvHashLayout) (dynsym_start_index len : Z) (defs : list DynamicSymbolDefinition) : res (option SysvHashTable) :=
  if (sysv_bucket_count layout =? 0) || (chain_count layout =? 0) then Ok None
  else
    ensure (byte_size layout <=? len) "Insufficient .hash allocation";;
    s ← write_sysv_symbols layout dynsym_start_index 0 defs
      (mkSysvState (replicate (Z.to_nat (sysv_bucket_count layout)) 0) (replicate (Z.to_nat (chain_count layout)) 0)
        (replicate (Z.to_nat (sysv_bucket_count layout)) None));
    Ok (Some (mkSysvTable (s_buckets s) (s_chains s))).
End Sysv.

(** ** Lookups *)
Section Lookup.
(** The names of the dynamic symbols, by index. *)
Context (name_at : Z -> option (list Z)).

Fixpoint gnu_chain (fuel : nat) (t : GnuHashTable) (hash : Z) (name : list Z) (idx : Z) : option Z :=
  match fuel with
  | O => None
  | S fuel =>
      c ← chains t !! Z.to_nat (idx - symbol_base (gnu_layout t));
      if (Z.ldiff c 1 =? Z.ldiff hash 1) && bool_decide (name_at idx = Some name) then Some idx
      else if Z.odd c then None else gnu_chain fuel t hash name (idx + 1)
  end.

Definition gnu_lookup (t : GnuHashTable) (bits hash : Z) (name : list Z) : option Z :=
  let l := gnu_layout t in
  w ← bloom t !! Z.to_nat ((hash / bits) mod bloom_count l);
  if Z.testbit w (hash mod bits) && Z.testbit w (Z.shiftr hash (bloom_shift l) mod bits) then
    idx ← buckets t !! Z.to_nat (hash mod bucket_count l);
    if idx =? 0 then None else gnu_chain (length (chains t)) t hash name idx
  else None.

Fixpoint sysv_chain (fuel : nat) (t : SysvHashTable) (name : list Z) (idx : Z) : option Z :=
  match fuel with
  | O => None
  | S fuel =>
      if idx =? 0 then None
      else if bool_decide (name_at idx = Some name) then Some idx
      else next ← sysv_chains t !! Z.to_nat idx; sysv_chain fuel t name next
  end.

Definition sysv_lookup (t : SysvHashTable) (hash : Z) (name : list Z) : option Z :=
  idx ← sysv_buckets t !! Z.to_nat (hash mod Z.of_nat (length (sysv_buckets t)));
  sysv_chain (S (length (sysv_chains t))) t name idx.
End Lookup.

(** The names of the symbols that are defined from an index on. *)
Definition names_from (base : Z) (defs : list DynamicSymbolDefinition) (idx : Z) : option (list Z) :=
  if idx <? base then None else def_name <$> defs !! Z.to_nat (idx - base).

(** The result of a lookup is the first definition of the name from a position on. *)
Definition first_from (base : Z) (defs : list DynamicSymbolDefinition) (i : nat) (n : list Z) (r : option Z) : Prop :=
  match r with
  | Some idx => exists j d, idx = base + Z.of_nat j /\ (i <= j)%nat /\ defs !! j = Some d /\ def_name d = n /\
      forall k e, (i <= k < j)%nat -> defs !! k = Some e -> def_name e <> n
  | None => forall k e, (i <= k)%nat -> defs !! k = Some e -> def_name e <> n
  end.

Lemma names_from_at base defs j : names_from base defs (base + Z.of_nat j) = def_name <$> defs !! j.
Proof. unfold names_from. rewrite (proj2 (Z.ltb_ge _ _)) by lia. do 2 f_equal. lia. Qed.

(** ** The GNU table *)
Lemma next_power_of_two_pos n : 0 < next_power_of_two n.
Proof. apply Z.pow_pos_nonneg; [lia|apply Z.log2_up_nonneg]. Qed.

Section Gnu.
Context (layout : GnuHashLayout) (bits : Z).

Definition bucket_of (d : DynamicSymbolDefinition) : Z := bucket_for_hash layout (def_hash d).

Record layout_ok : Prop := {
  ok_bits : bits = 32 \/ bits = 64;
  ok_buckets : 0 < bucket_count layout;
  ok_bloom : 0 < bloom_count layout;
  ok_shift : 0 <= bloom_shift layout < 32
}.

Fixpoint chain_words (defs : list DynamicSymbolDefinition) : list Z :=
  match defs with
  | [] => []
  | d :: defs =>
      let last := match defs with [] => true | e :: _ => negb (bucket_of e =? bucket_of d) end in
      (if last then Z.lor (Z.ldiff (def_hash d) 1) 1 else Z.ldiff (def_hash d) 1) :: chain_words defs
  end.

(** *** The filter *)
Definition bloom_index (hash : Z) : nat := Z.to_nat ((hash / bits) mod bloom_count layout).

Definition filter_has (bloom : list Z) (hash : Z) : Prop :=
  exists w, bloom !! bloom_index hash = Some w /\ Z.testbit w (hash mod bits) = true /\ Z.testbit w (Z.shiftr hash (bloom_shift layout) mod bits) = true.

Definition filter_le (bloom bloom' : list Z) : Prop :=
  length bloom' = length bloom /\ forall k w, bloom !! k = Some w -> exists w', bloom' !! k = Some w' /\ forall n, Z.testbit w n = true -> Z.testbit w' n = true.

Lemma filter_le_refl b : filter_le b b.
Proof. split; [done|]. intros k w Hw. by exists w. Qed.

Lemma filter_le_trans a b c : filter_le a b -> filter_le b c -> filter_le a c.
Proof.
  intros [H1 H2] [H3 H4]. split; [congruence|]. intros k w (w' & Hw' & Hn)%H2. destruct (H4 _ _ Hw') as (w'' & Hw'' & Hn'). exists w''. auto.
Qed.

Lemma filter_has_le a b h : filter_le a b -> filter_has a h -> filter_has b h.
Proof. intros [_ H] (w & Hw & H1 & H2). destruct (H _ _ Hw) as (w' & Hw' & Hn). exists w'. auto. Qed.

Lemma bit_in_word n : layout_ok -> 0 <= n < bits -> shl_u64 n = 2 ^ n /\ in_u bits (2 ^ n).
Proof.
  intros Hok Hn. assert (n < 64) by (destruct (ok_bits Hok); lia). split.
  - unfold shl_u64, wshl. rewrite (Z.mod_small n) by lia. rewrite Z.shiftl_1_l. apply wrap_small. split; [apply Z.pow_nonneg; lia|apply Z.pow_lt_mono_r; lia].
  - split; [apply Z.pow_nonneg; lia|apply Z.pow_lt_mono_r; lia].
Qed.

Lemma write_bloom_ok hash b : layout_ok -> in_u 32 hash -> length b = Z.to_nat (bloom_count layout) -> Forall (in_u bits) b ->
  exists b', write_bloom layout bits hash b = Ok b' /\ filter_le b b' /\ filter_has b' hash /\ Forall (in_u bits) b'.
Proof.
  intros Hok Hh Hl Hb. assert (0 < bits) by (destruct (ok_bits Hok); lia). pose proof (ok_bloom Hok) as Hc. pose proof (ok_shift Hok) as Hs.
  pose proof (Z.mod_pos_bound (hash / bits) (bloom_count layout) Hc) as Hi. destruct (lookup_lt_is_Some_2 b (bloom_index hash)) as [w Hw]; [unfold bloom_index; lia|].
  unfold write_bloom, wshr. rewrite (Z.mod_small (bloom_shift layout)) by lia.
  destruct (bit_in_word (hash mod bits) Hok) as [-> H1]; [by apply Z.mod_pos_bound|].
  destruct (bit_in_word (Z.shiftr hash (bloom_shift layout) mod bits) Hok) as [-> H2]; [by apply Z.mod_pos_bound|].
  set (w' := Z.lor (Z.lor w (2 ^ (hash mod bits))) (2 ^ (Z.shiftr hash (bloom_shift layout) mod bits))). assert (in_u bits w') as Hw'. { pose proof (Forall_lookup_1 _ _ _ _ Hb Hw). by apply in_u_lor; [apply in_u_lor|]. }
  assert (index b ((hash / bits) mod bloom_count layout) = Ok w) as Hidx by (unfold index; rewrite decide_True by lia; fold (bloom_index hash); by rewrite Hw).
  rewrite Hidx. cbn [mbind res_bind]. unfold word_from_u64, ensure. rewrite (proj2 (Z.ltb_lt _ _)) by apply Hw'. cbn [mbind res_bind].
  unfold index_update. rewrite Hidx. cbn [mbind res_bind]. fold (bloom_index hash). exists (<[bloom_index hash := w']> b). split; [done|].
  assert (forall n, Z.testbit w n = true -> Z.testbit w' n = true) as Hmono by (intros n Hn; unfold w'; rewrite !Z.lor_spec, Hn; done). split_and!.
  - split; [apply length_insert|]. intros k x Hx. destruct (decide (k = bloom_index hash)) as [->|Hne].
    + rewrite Hw in Hx. injection Hx as <-. exists w'. split; [|done]. apply list_lookup_insert_eq. by eapply lookup_lt_Some.
    + exists x. by rewrite list_lookup_insert_ne.
  - exists w'. split; [apply list_lookup_insert_eq; by eapply lookup_lt_Some|]. unfold w'. rewrite !Z.lor_spec.
    pose proof (Z.mod_pos_bound hash bits ltac:(lia)). pose proof (Z.mod_pos_bound (Z.shiftr hash (bloom_shift layout)) bits ltac:(lia)).
    split; [rewrite (Z.pow2_bits_true (hash mod bits)) by lia; by rewrite orb_true_r|rewrite (Z.pow2_bits_true (Z.shiftr hash (bloom_shift layout) mod bits)) by lia; by rewrite orb_true_r].
  - by apply Forall_insert.
Qed.

(** *** Chains and buckets *)
Definition sorted_buckets (defs : list DynamicSymbolDefinition) : Prop :=
  forall i j d e, (i < j)%nat -> defs !! i = Some d -> defs !! j = Some e -> bucket_of d <= bucket_of e.

Lemma sorted_tail d defs : sorted_buckets (d :: defs) -> sorted_buckets defs.
Proof. intros H i j a b Hij Ha Hb. apply (H (S i) (S j)); [lia|done|done]. Qed.

(** The bucket [b] after the symbols have been written. *)
Definition bucket_after (i : Z) (defs : list DynamicSymbolDefinition) (start : bool) (b : Z) (old : option Z) : option Z :=
  match list_find (fun d => bucket_of d = b) defs with
  | Some (j, _) => if (j =? 0)%nat && negb start then old else Some (symbol_base layout + i + Z.of_nat j)
  | None => old
  end.

Definition last_of (d : DynamicSymbolDefinition) (defs : list DynamicSymbolDefinition) : bool :=
  match defs with [] => true | e :: _ => negb (bucket_of e =? bucket_of d) end.

Lemma bucket_after_cons i d defs start b old : sorted_buckets (d :: defs) ->
  bucket_after (i + 1) defs (last_of d defs) b (if decide (bucket_of d = b /\ start = true) then Some (symbol_base layout + i) else old) =
  bucket_after i (d :: defs) start b old.
Proof.
  intros Hs. unfold bucket_after. cbn [list_find]. destruct (decide (bucket_of d = b)) as [Hb|Hb].
  - cbn [Nat.eqb andb]. assert (forall v : option Z, match list_find (fun d => bucket_of d = b) defs with
      | Some (j, _) => if (j =? 0)%nat && negb (last_of d defs) then v else Some (symbol_base layout + (i + 1) + Z.of_nat j) | None => v end = v) as ->.
    { intros v. destruct (list_find _ defs) as [[j e]|] eqn:E; [|done]. apply list_find_Some in E as (Hj & He & Hbefore). destruct defs as [|f defs]; [done|].
      destruct j as [|j].
      - injection Hj as ->. unfold last_of. rewrite (proj2 (Z.eqb_eq _ _)) by congruence. done.
      - exfalso. assert (bucket_of f <> b) by (apply (Hbefore 0%nat f eq_refl); lia). pose proof (Hs 0%nat 1%nat d f ltac:(lia) eq_refl eq_refl).
        pose proof (Hs 1%nat (S (S j)) f e ltac:(lia) eq_refl Hj). lia. }
    destruct start; [rewrite decide_True by done|rewrite decide_False by (by intros [_ ?])]; cbn [negb]; [f_equal; lia|done].
  - rewrite decide_False by tauto. destruct (list_find _ defs) as [[j e]|] eqn:E; cbn [fmap option_fmap option_map prod_map]; [|done].
    cbn [fst Nat.eqb andb]. destruct j as [|j]; cbn [Nat.eqb andb]; [|f_equal; lia]. apply list_find_Some in E as (Hj & He & _).
    destruct defs as [|f defs]; [done|]. injection Hj as ->. unfold last_of. rewrite (proj2 (Z.eqb_neq _ _)) by congruence. cbn. f_equal. lia.
Qed.

Lemma bucket_of_range d : layout_ok -> 0 <= bucket_of d < bucket_count layout.
Proof. intros Hok. apply Z.mod_pos_bound, (ok_buckets Hok). Qed.

Lemma write_chains_ok : layout_ok -> forall defs i start b bk, sorted_buckets defs -> Forall (fun d => in_u 32 (def_hash d)) defs ->
  0 <= i -> 0 <= symbol_base layout -> i + symbol_base layout + Z.of_nat (length defs) < 2 ^ 32 ->
  length b = Z.to_nat (bloom_count layout) -> Forall (in_u bits) b -> length bk = Z.to_nat (bucket_count layout) ->
  exists b' bk', write_chains layout bits i defs start b bk = Ok (b', bk', chain_words defs) /\
    filter_le b b' /\ Forall (fun d => filter_has b' (def_hash d)) defs /\ length bk' = length bk /\
    forall n : nat, (n < length bk)%nat -> bk' !! n = bucket_after i defs start (Z.of_nat n) (bk !! n).
Proof.
  intros Hok. induction defs as [|d defs IH]; intros i start b bk Hs Hh Hi H0 Hn Hb Hbits Hbk; cbn [write_chains].
  { exists b, bk. split_and!; [done|apply filter_le_refl|done|done|done]. }
  apply Forall_cons in Hh as [Hd Hh]. cbn [length] in Hn. destruct (write_bloom_ok (def_hash d) b Hok Hd Hb Hbits) as (b1 & -> & Hle & Hhas & Hbits1).
  cbn [mbind res_bind]. pose proof (bucket_of_range d Hok) as Hr. fold (bucket_of d).
  set (bk1 := if start then <[Z.to_nat (bucket_of d) := symbol_base layout + i]> bk else bk).
  assert ((if start then index_update bk (bucket_of d) (fun _ => wadd 32 (wrap 32 i) (symbol_base layout)) else Ok bk) = Ok bk1) as ->.
  { destruct start; [|done]. unfold index_update, index. rewrite decide_True by lia. destruct (lookup_lt_is_Some_2 bk (Z.to_nat (bucket_of d))) as [x ->]; [lia|].
    cbn [mbind res_bind]. unfold bk1, wadd. rewrite (wrap_small 32 i), wrap_small by (unfold in_u; lia). by rewrite Z.add_comm. }
  cbn [mbind res_bind].
  assert (length bk1 = length bk) as Hlen by (unfold bk1; destruct start; [apply length_insert|done]).
  destruct (IH (i + 1) (last_of d defs) b1 bk1) as (b' & bk' & Hw & Hle' & Hhas' & Hlen' & Hbk'); [by eapply sorted_tail|done|lia|lia|lia| |done|lia|].
  { destruct Hle as [-> _]. done. }
  change (match defs with [] => true | next :: _ => negb (bucket_for_hash layout (def_hash next) =? bucket_of d) end) with (last_of d defs). rewrite Hw. cbn [mbind res_bind].
  exists b', bk'. split_and!; [done|by eapply filter_le_trans|constructor; [by eapply filter_has_le|done]|lia|].
  intros n Hlt. rewrite Hbk' by lia. rewrite <- bucket_after_cons by done. f_equal. unfold bk1. destruct start.
  - destruct (decide (bucket_of d = Z.of_nat n /\ true = true)) as [[Hb' _]|Hne].
    + rewrite Hb', Nat2Z.id. apply list_lookup_insert_eq. lia.
    + apply list_lookup_insert_ne. intros Heq. apply Hne. split; [lia|done].
  - rewrite decide_False by (by intros [_ ?]). done.
Qed.

Lemma odd_end x (last : bool) : let w := if last then Z.lor (Z.ldiff x 1) 1 else Z.ldiff x 1 in Z.ldiff w 1 = Z.ldiff x 1 /\ Z.odd w = last.
Proof.
  assert (forall n, Z.testbit 1 n = (n =? 0)) as H1 by (intros n; destruct (Z.eqb_spec n 0) as [->|]; [done|destruct n; try done; by destruct p]).
  split.
  - apply Z.bits_inj'. intros n Hn. destruct last; rewrite !Z.ldiff_spec, ?Z.lor_spec, ?Z.ldiff_spec, !H1; destruct (Z.testbit x n), (n =? 0); done.
  - rewrite <- Z.bit0_odd. destruct last; rewrite ?Z.lor_spec, Z.ldiff_spec, !H1; [by rewrite orb_true_r|by rewrite andb_false_r].
Qed.

Lemma chain_words_lookup defs : forall i d, defs !! i = Some d ->
  exists w, chain_words defs !! i = Some w /\ Z.ldiff w 1 = Z.ldiff (def_hash d) 1 /\ Z.odd w = last_of d (drop (S i) defs).
Proof.
  induction defs as [|e defs IH]; intros [|i] d Hd; [done|done| |].
  - injection Hd as <-. cbn [chain_words lookup list_lookup]. eexists. split; [done|]. cbn [drop]. rewrite drop_0. apply (odd_end (def_hash e) (last_of e defs)).
  - destruct (IH i d Hd) as (w & Hw & H1 & H2). exists w. by split.
Qed.

Lemma length_chain_words defs : length (chain_words defs) = length defs.
Proof. induction defs as [|d defs IH]; cbn; [done|by rewrite IH]. Qed.

(** *** Lookups *)
Context (gnu_hash : list Z -> Z) (defs : list DynamicSymbolDefinition).

Record written (t : GnuHashTable) : Prop := {
  w_layout : gnu_layout t = layout;
  w_chains : chains t = chain_words defs;
  w_filter : Forall (fun d => filter_has (bloom t) (def_hash d)) defs;
  w_buckets : forall n : nat, (n < Z.to_nat (bucket_count layout))%nat -> buckets t !! n = bucket_after 0 defs true (Z.of_nat n) (Some 0)
}.

Lemma chain_walk t n : written t -> layout_ok -> sorted_buckets defs -> (forall d, d ∈ defs -> def_hash d = gnu_hash (def_name d)) ->
  forall fuel i d, (length defs - i <= fuel)%nat -> defs !! i = Some d -> bucket_of d = bucket_for_hash layout (gnu_hash n) ->
  first_from (symbol_base layout) defs i n (gnu_chain (names_from (symbol_base layout) defs) fuel t (gnu_hash n) n (symbol_base layout + Z.of_nat i)).
Proof.
  intros Ht Hok Hs Hh. induction fuel as [|fuel IH]; intros i d Hf Hd Hb; [apply lookup_lt_Some in Hd; lia|]. cbn [gnu_chain].
  destruct (chain_words_lookup defs i d Hd) as (w & Hw & Hw1 & Hw2). rewrite (w_layout _ Ht), (w_chains _ Ht).
  replace (Z.to_nat (symbol_base layout + Z.of_nat i - symbol_base layout)) with i by lia. rewrite Hw. cbn [mbind option_bind]. rewrite Hw1, Hw2, names_from_at, Hd.
  assert (def_hash d = gnu_hash (def_name d)) as Hdh by (by apply Hh; eapply list_elem_of_lookup_2). cbn [fmap option_fmap option_map].
  destruct (decide (def_name d = n)) as [Hn|Hn].
  { rewrite Hdh, Hn, Z.eqb_refl, bool_decide_eq_true_2 by done. cbn [andb]. exists i, d. split_and!; [done|done|done|done|lia]. }
  rewrite (bool_decide_eq_false_2 (Some (def_name d) = Some n)) by congruence. rewrite andb_false_r.
  assert (forall k e, (i <= k)%nat -> defs !! k = Some e -> k = i \/ (S i <= k)%nat) as Hcase by lia.
  destruct (defs !! S i) as [e|] eqn:He.
  - rewrite (drop_S _ e) by done. cbn [last_of]. destruct (Z.eqb_spec (bucket_of e) (bucket_of d)) as [Heq|Hne]; cbn [negb].
    + replace (symbol_base layout + Z.of_nat i + 1) with (symbol_base layout + Z.of_nat (S i)) by lia.
      pose proof (IH (S i) e ltac:(lia) He ltac:(congruence)) as Hrec. destruct (gnu_chain _ _ _ _ _ _) as [idx|]; cbn [first_from] in *.
      * destruct Hrec as (j & f & -> & Hj & Hf' & Hfn & Hbefore). exists j, f. split_and!; [done|lia|done|done|]. intros k g Hk Hg.
        destruct (decide (k = i)) as [->|]; [congruence|]. apply (Hbefore k g); [lia|done].
      * intros k g Hk Hg. destruct (decide (k = i)) as [->|]; [congruence|]. apply (Hrec k g); [lia|done].
    + intros k g Hk Hg Hgn. destruct (decide (k = i)) as [->|]; [congruence|].
      assert (bucket_of g = bucket_of d) as Hbg. { rewrite Hb. unfold bucket_of. rewrite (Hh g), Hgn; [done|]. by eapply list_elem_of_lookup_2. }
      pose proof (Hs i (S i) d e ltac:(lia) Hd He). destruct (decide (k = S i)) as [->|]; [congruence|]. pose proof (Hs (S i) k e g ltac:(lia) He Hg). lia.
  - rewrite drop_ge by (by apply lookup_ge_None in He). cbn [last_of]. intros k g Hk Hg. apply lookup_ge_None in He. apply lookup_lt_Some in Hg as Hlt.
    assert (k = i) as -> by lia. congruence.
Qed.

Lemma gnu_lookup_first t n : written t -> layout_ok -> sorted_buckets defs -> 0 < symbol_base layout ->
  (forall d, d ∈ defs -> def_hash d = gnu_hash (def_name d)) -> length (buckets t) = Z.to_nat (bucket_count layout) ->
  first_from (symbol_base layout) defs 0 n (gnu_lookup (names_from (symbol_base layout) defs) t bits (gnu_hash n) n).
Proof.
  intros Ht Hok Hs H0 Hh Hlen. assert (forall k d, defs !! k = Some d -> def_name d = n -> bucket_of d = bucket_for_hash layout (gnu_hash n) /\ filter_has (bloom t) (gnu_hash n)) as Hname.
  { intros k d Hd Hn. assert (def_hash d = gnu_hash n) as Hdh by (rewrite <- Hn; apply Hh; by eapply list_elem_of_lookup_2). split; [unfold bucket_of; by rewrite Hdh|].
    rewrite <- Hdh. pose proof (w_filter _ Ht) as Hf. rewrite Forall_forall in Hf. apply Hf. by eapply list_elem_of_lookup_2. }
  unfold gnu_lookup. rewrite (w_layout _ Ht). fold (bloom_index (gnu_hash n)). destruct (bloom t !! bloom_index (gnu_hash n)) as [w|] eqn:Ew; cbn [mbind option_bind].
  2: { intros k d _ Hd Hn. destruct (Hname k d Hd Hn) as [_ (w & Hw & _)]. congruence. }
  destruct (Z.testbit w (gnu_hash n mod bits) && Z.testbit w (Z.shiftr (gnu_hash n) (bloom_shift layout) mod bits)) eqn:Eb.
  2: { intros k d _ Hd Hn. destruct (Hname k d Hd Hn) as [_ (w' & Hw & H1 & H2)]. rewrite Ew in Hw. injection Hw as <-. by rewrite H1, H2 in Eb. }
  fold (bucket_for_hash layout (gnu_hash n)). set (b := bucket_for_hash layout (gnu_hash n)).
  assert (0 <= b < bucket_count layout) as Hb by apply Z.mod_pos_bound, (ok_buckets Hok).
  rewrite (w_buckets _ Ht) by lia. rewrite Z2Nat.id by lia. unfold bucket_after. destruct (list_find (fun d => bucket_of d = b) defs) as [[j d]|] eqn:Ef.
  - rewrite andb_false_r. cbn [mbind option_bind]. rewrite (proj2 (Z.eqb_neq _ _)) by lia. apply list_find_Some in Ef as (Hd & Hbd & Hbefore).
    rewrite Z.add_0_r, (w_chains _ Ht), length_chain_words.
    pose proof (chain_walk t n Ht Hok Hs Hh (length defs) j d ltac:(lia) Hd Hbd) as H.
    assert (forall k e, (k < j)%nat -> defs !! k = Some e -> def_name e <> n) as Hearly.
    { intros k e Hk He Hn. apply (Hbefore k e He Hk). by apply (Hname k e He Hn). }
    destruct (gnu_chain _ _ _ _ _ _) as [idx|]; cbn [first_from] in *.
    + destruct H as (i & e & -> & Hi & He & Hen & Hbe). exists i, e. split_and!; [done|lia|done|done|]. intros k f Hk Hf.
      destruct (decide (k < j)%nat); [by apply (Hearly k f)|]. apply (Hbe k f); [lia|done].
    + intros k e _ He. destruct (decide (k < j)%nat); [by apply (Hearly k e)|]. apply (H k e); [lia|done].
  - cbn [mbind option_bind Z.eqb]. intros k d _ Hd Hn. apply list_find_None in Ef. rewrite Forall_forall in Ef.
    apply (Ef d); [by eapply list_elem_of_lookup_2|]. by apply (Hname k d Hd Hn).
Qed.
End Gnu.

(** *** The order *)
Lemma name_le_total a : forall b, name_le a b = true \/ name_le b a = true.
Proof.
  induction a as [|x a IH]; intros [|y b]; cbn; auto. destruct (Z.ltb_spec x y); [auto|]. destruct (Z.ltb_spec y x); [auto|].
  assert (x = y) as -> by lia. rewrite Z.eqb_refl. cbn. apply IH.
Qed.

Lemma name_le_trans a : forall b c, name_le a b = true -> name_le b c = true -> name_le a c = true.
Proof.
  induction a as [|x a IH]; intros [|y b] [|z c]; cbn; try done. rewrite !orb_true_iff, !andb_true_iff, !Z.ltb_lt, !Z.eqb_eq.
  intros [H1|[-> H1]] [H2|[-> H2]]; [left; lia|left; lia|left; lia|right]. split; [done|]. by eapply IH.
Qed.

#[local] Instance key_le_total l : Total (key_le l).
Proof.
  intros d e. unfold key_le. rewrite !orb_true_iff, !andb_true_iff, !Z.ltb_lt, !Z.eqb_eq.
  destruct (Z.lt_total (bucket_for_hash l (def_hash d)) (bucket_for_hash l (def_hash e))) as [H|[H|H]]; [tauto| |tauto].
  destruct (name_le_total (def_name d) (def_name e)); [left; auto|right; auto].
Qed.

#[local] Instance key_le_trans l : Transitive (key_le l).
Proof.
  intros d e f. unfold key_le. rewrite !orb_true_iff, !andb_true_iff, !Z.ltb_lt, !Z.eqb_eq.
  intros [H1|[H1 H1']] [H2|[H2 H2']]; [left; lia|left; lia|left; lia|right]. split; [lia|]. by eapply name_le_trans.
Qed.

Lemma merge_sort_buckets l defs : sorted_buckets l (merge_sort (key_le l) defs).
Proof.
  assert (StronglySorted (key_le l) (merge_sort (key_le l) defs)) as H by (apply Sorted_StronglySorted, Sorted_merge_sort; apply _). induction H as [|d l' _ IH Hd]; intros i j a b Hij Ha Hb; [done|].
  destruct i as [|i], j as [|j]; [lia| |lia|].
  - injection Ha as <-. rewrite Forall_forall in Hd. assert (key_le l d b) as Hk by (by apply Hd; eapply list_elem_of_lookup_2).
    unfold key_le in Hk. apply orb_true_iff in Hk as [Hk|[Hk _]%andb_true_iff]; [apply Z.ltb_lt in Hk|apply Z.eqb_eq in Hk]; unfold bucket_of; lia.
  - by apply (IH i j); [lia|..].
Qed.

Lemma bucket_count_pos n : 0 <= n < 2 ^ 32 -> 0 < wrap 32 (next_power_of_two (n / 2)).
Proof.
  intros Hn. rewrite wrap_small; [apply next_power_of_two_pos|]. unfold in_u, next_power_of_two. split; [apply Z.pow_nonneg; lia|].
  apply Z.pow_lt_mono_r; [lia|lia|]. assert (n / 2 <= 2 ^ 31) as H by (apply Z.div_le_upper_bound; lia). apply Z.log2_up_le_mono in H.
  rewrite Z.log2_up_pow2 in H; lia.
Qed.

(** C30. The GNU hash table fits its section and a loader finds in it exactly the symbols that are
    defined: the lookup of a name by its hash gives the index of the first definition of the name
    in the order of the table, and nothing for a name that is not defined. *)
Theorem gnu_hash_exact gnu_hash bits base defs layout sorted :
  (bits = 32 \/ bits = 64) -> 0 < base -> base + Z.of_nat (length defs) < 2 ^ 32 ->
  (forall d, d ∈ defs -> def_hash d = gnu_hash (def_name d) /\ in_u 32 (def_hash d)) ->
  create_gnu_hash_layout true true defs = Some (layout, sorted) ->
  sorted ≡ₚ defs /\
  exists t, write_gnu_hash_tables (set_symbol_base base layout) bits (gnu_size (bits / 8) layout) sorted = Ok t /\
    forall n, first_from base sorted 0 n (gnu_lookup (names_from base sorted) t bits (gnu_hash n) n).
Proof.
  intros Hbits Hbase Hn Hh Hc. unfold create_gnu_hash_layout in Hc. cbn [negb orb] in Hc. injection Hc as Hl Hs. set (n := Z.of_nat (length defs)) in *.
  assert (sorted ≡ₚ defs) as Hperm by (rewrite <- Hs; apply merge_sort_Permutation). split; [done|].
  assert (0 < bucket_count layout /\ num_defs layout = n /\ bloom_count layout = 1 /\ bloom_shift layout = 6) as (Hbc & Hnum & Hbloom & Hshift).
  { rewrite <- Hl. cbn. split_and!; [apply bucket_count_pos; lia|apply wrap_small; unfold in_u; lia|done|done]. }
  set (l := set_symbol_base base layout). assert (layout_ok l bits) as Hok by (split; cbn; [done|done|lia|lia]).
  assert (length sorted = length defs) as Hlen by (by rewrite Hperm).
  assert (forall d, d ∈ sorted -> def_hash d = gnu_hash (def_name d) /\ in_u 32 (def_hash d)) as Hh' by (intros d; rewrite Hperm; apply Hh).
  assert (sorted_buckets l sorted) as Hsb by (change (sorted_buckets layout sorted); rewrite <- Hs, Hl; apply merge_sort_buckets).
  destruct (write_chains_ok l bits Hok sorted 0 true (replicate (Z.to_nat (bloom_count l)) 0) (replicate (Z.to_nat (bucket_count l)) 0))
    as (b' & bk' & Hw & _ & Hhas & Hbk & Hbuckets); [done|apply Forall_forall; by apply Hh'|done|cbn; lia|cbn; lia|by rewrite length_replicate| |by rewrite length_replicate|].
  { apply Forall_replicate. split; [lia|]. by destruct Hbits as [-> | ->]. }
  exists (mkGnuTable l b' bk' (chain_words l sorted)). split.
  - unfold write_gnu_hash_tables, gnu_size, ensure. change (bloom_count l) with (bloom_count layout) in *. change (bucket_count l) with (bucket_count layout) in *.
    rewrite Hbloom in *. rewrite Hlen, Hnum. assert (0 <= bits / 8) by (by destruct Hbits as [-> | ->]). rewrite !(proj2 (Z.leb_le _ _)) by lia.
    cbn [mbind res_bind]. by rewrite Hw.
  - intros nm. assert (written l bits sorted (mkGnuTable l b' bk' (chain_words l sorted))) as Ht.
    { split; cbn; [done|done|done|]. intros i Hi. rewrite Hbuckets by (by rewrite length_replicate). by rewrite lookup_replicate_2. }
    pose proof (gnu_lookup_first l bits gnu_hash sorted _ nm Ht Hok Hsb Hbase ltac:(intros; by apply Hh') ltac:(by cbn; rewrite Hbk, length_replicate)) as H.
    exact H.
Qed.

(** ** The System V table *)
Section SysvTable.
Context (sysv_hash : list Z -> Z) (count start : Z).

Definition sysv_bucket (d : DynamicSymbolDefinition) : Z := sysv_hash (def_name d) mod count.

(** [x] leads to the first symbol of a bucket from a position on, 0 if there is none. *)
Definition next_in (b : Z) (from : nat) (defs : list DynamicSymbolDefinition) (x : Z) : Prop :=
  (x = 0 /\ forall k e, (from <= k)%nat -> defs !! k = Some e -> sysv_bucket e <> b) \/
  exists k e, x = start + Z.of_nat k /\ (from <= k)%nat /\ defs !! k = Some e /\ sysv_bucket e = b /\
    forall i f, (from <= i < k)%nat -> defs !! i = Some f -> sysv_bucket f <> b.

Definition last_in (b : Z) (defs : list DynamicSymbolDefinition) (o : option Z) : Prop :=
  match o with
  | None => forall k e, defs !! k = Some e -> sysv_bucket e <> b
  | Some x => exists j e, x = start + Z.of_nat j /\ defs !! j = Some e /\ sysv_bucket e = b /\ forall k f, (j < k)%nat -> defs !! k = Some f -> sysv_bucket f <> b
  end.

(** The table after some of the definitions, of [total] in all. *)
Record sysv_inv (total : nat) (defs : list DynamicSymbolDefinition) (s : SysvState) : Prop := {
  si_lengths : length (s_buckets s) = Z.to_nat count /\ length (last_in_bucket s) = Z.to_nat count /\ Z.of_nat (length (s_chains s)) = start + Z.of_nat total;
  si_buckets : forall b x, s_buckets s !! b = Some x -> next_in (Z.of_nat b) 0 defs x;
  si_chains : forall j d, defs !! j = Some d -> exists x, s_chains s !! Z.to_nat (start + Z.of_nat j) = Some x /\ next_in (sysv_bucket d) (S j) defs x;
  si_rest : forall j, (length defs <= j < total)%nat -> s_chains s !! Z.to_nat (start + Z.of_nat j) = Some 0;
  si_last : forall b o, last_in_bucket s !! b = Some o -> last_in (Z.of_nat b) defs o
}.

Lemma next_in_other b from defs d x : next_in b from defs x -> sysv_bucket d <> b -> next_in b from (defs ++ [d]) x.
Proof.
  intros [[-> H]|(k & e & -> & Hk & He & Hb & H)] Hd; [left|right].
  - split; [done|]. intros k e Hk [He|[-> ->]]%snoc_lookup; [by eapply H|done].
  - exists k, e. split_and!; [done|done|by apply lookup_app_l_Some|done|]. intros i f Hi [Hf|[-> ->]]%snoc_lookup; [by eapply H|].
    apply lookup_lt_Some in He. lia.
Qed.

Lemma next_in_found b from defs d x : 0 < start -> next_in b from defs x -> x <> 0 -> next_in b from (defs ++ [d]) x.
Proof.
  intros H0 [[-> _]|(k & e & -> & Hk & He & Hb & H)] Hx; [done|right]. exists k, e. split_and!; [done|done|by apply lookup_app_l_Some|done|].
  intros i f Hi [Hf|[-> ->]]%snoc_lookup; [by eapply H|]. apply lookup_lt_Some in He. lia.
Qed.

Lemma next_in_new b from defs d : (from <= length defs)%nat -> sysv_bucket d = b -> (forall k e, (from <= k)%nat -> defs !! k = Some e -> sysv_bucket e <> b) ->
  next_in b from (defs ++ [d]) (start + Z.of_nat (length defs)).
Proof.
  intros Hf Hd H. right. exists (length defs), d. split_and!; [done|done|by apply list_lookup_middle|done|].
  intros i f Hi [Hf'|[-> ->]]%snoc_lookup; [by apply (H i f); [lia|]|lia].
Qed.

Lemma last_in_snoc b defs d o : last_in b defs o -> last_in b (defs ++ [d]) (if decide (sysv_bucket d = b) then Some (start + Z.of_nat (length defs)) else o).
Proof.
  intros H. case_decide as Hd.
  - exists (length defs), d. split_and!; [done|by apply list_lookup_middle|done|]. intros k f Hk [Hf|[-> ->]]%snoc_lookup; [apply lookup_lt_Some in Hf; lia|lia].
  - destruct o as [x|]; cbn in *.
    + destruct H as (j & e & -> & He & Hb & H). exists j, e. split_and!; [done|by apply lookup_app_l_Some|done|]. intros k f Hk [Hf|[-> ->]]%snoc_lookup; [by eapply H|done].
    + intros k e [He|[-> ->]]%snoc_lookup; [by eapply H|done].
Qed.

Lemma index_iff {A} (v : list A) i x : index v i = Ok x <-> 0 <= i /\ v !! Z.to_nat i = Some x.
Proof.
  split; [apply index_ok|]. intros [H0 Hx]. unfold index. by rewrite decide_True, Hx by done.
Qed.

Lemma index_update_at {A} (v : list A) i x f : 0 <= i -> v !! Z.to_nat i = Some x -> index_update v i f = Ok (<[Z.to_nat i := f x]> v).
Proof. intros H0 Hx. unfold index_update. by rewrite (proj2 (index_iff v i x)) by done. Qed.

Lemma insert_cases {A} (v : list A) i x j y : <[i := x]> v !! j = Some y -> (j = i /\ y = x) \/ (j <> i /\ v !! j = Some y).
Proof. intros H. destruct (decide (j = i)) as [->|Hne]; [|rewrite list_lookup_insert_ne in H by done; auto]. apply list_lookup_insert_Some in H. naive_solver. Qed.

(** One more symbol. *)
Lemma write_sysv_step layout total defs d s : sysv_bucket_count layout = count -> 0 < count -> 0 < start -> start + Z.of_nat total < 2 ^ 32 ->
  (length defs < total)%nat -> sysv_inv total defs s ->
  exists s', write_sysv_symbol sysv_hash layout start (Z.of_nat (length defs)) d s = Ok s' /\ sysv_inv total (defs ++ [d]) s'.
Proof.
  intros Hc H0 Hs Ht Hl [(Hlb & Hll & Hlc) Hb Hch Hrest Hlast]. unfold write_sysv_symbol, ensure. rewrite !(proj2 (Z.ltb_lt _ _)) by lia. cbn [mbind res_bind].
  rewrite Hc. change (sysv_hash (def_name d) mod count) with (sysv_bucket d). pose proof (Z.mod_pos_bound (sysv_hash (def_name d)) count H0) as Hr.
  change (sysv_hash (def_name d) mod count) with (sysv_bucket d) in Hr. set (sym := start + Z.of_nat (length defs)).
  destruct (lookup_lt_is_Some_2 (s_buckets s) (Z.to_nat (sysv_bucket d))) as [x Hx]; [lia|].
  destruct (lookup_lt_is_Some_2 (last_in_bucket s) (Z.to_nat (sysv_bucket d))) as [o Ho]; [lia|].
  rewrite (proj2 (index_iff (s_buckets s) (sysv_bucket d) x)) by (split; [lia|done]). cbn [mbind res_bind].
  pose proof (Hb _ _ Hx) as Hnext. rewrite Z2Nat.id in Hnext by lia. pose proof (Hlast _ _ Ho) as Hlst. rewrite Z2Nat.id in Hlst by lia.
  assert (forall b o', <[Z.to_nat (sysv_bucket d) := Some sym]> (last_in_bucket s) !! b = Some o' -> last_in (Z.of_nat b) (defs ++ [d]) o') as Hlast'.
  { intros b o' [[-> ->]|[Hne Ho']]%insert_cases.
    - rewrite Z2Nat.id by lia. pose proof (last_in_snoc (sysv_bucket d) defs d o Hlst) as H. by rewrite decide_True in H.
    - pose proof (last_in_snoc (Z.of_nat b) defs d o' (Hlast _ _ Ho')) as H. rewrite decide_False in H by lia. done. }
  destruct (Z.eqb_spec x 0) as [->|Hxne].
  - rewrite (index_update_at (s_buckets s) (sysv_bucket d) 0) by (lia || done). cbn [mbind res_bind]. rewrite (index_update_at (last_in_bucket s) (sysv_bucket d) o) by (lia || done).
    cbn [mbind res_bind]. eexists. split; [done|]. destruct Hnext as [[_ Hnone]|(k & e & Hk & _)]; [|lia]. split; cbn.
    + rewrite !length_insert. done.
    + intros b y [[-> ->]|[Hne Hy]]%insert_cases.
      * rewrite Z2Nat.id by lia. apply next_in_new; [lia|done|]. intros k e Hk He. by apply (Hnone k e).
      * apply next_in_other; [by apply Hb|lia].
    + intros j e [He|[-> ->]]%snoc_lookup.
      * destruct (Hch j e He) as (y & Hy & Hn). exists y. split; [done|]. apply next_in_other; [done|]. intros Heq. by apply (Hnone j e); [lia|done|].
      * exists 0. split; [by apply Hrest|]. left. split; [done|]. intros k e Hk [He|[-> ->]]%snoc_lookup; [apply lookup_lt_Some in He; lia|lia].
    + intros j Hj. rewrite length_app in Hj. cbn in Hj. apply Hrest. lia.
    + done.
  - rewrite (proj2 (index_iff (last_in_bucket s) (sysv_bucket d) o)) by (split; [lia|done]). cbn [mbind res_bind].
    destruct Hnext as [[? _]|(k0 & e0 & -> & _ & He0 & Hb0 & _)]; [done|]. destruct o as [last|]; [|by destruct (Hlst k0 e0)].
    destruct Hlst as (jl & el & -> & Hel & Hbl & Hafter). destruct (Hch jl el Hel) as (yl & Hyl & _).
    rewrite (index_update_at (s_chains s) (start + Z.of_nat jl) yl) by (lia || done). cbn [mbind res_bind].
    rewrite (index_update_at (last_in_bucket s) (sysv_bucket d) (Some (start + Z.of_nat jl))) by (lia || done). cbn [mbind res_bind].
    pose proof (lookup_lt_Some _ _ _ Hel) as Hjl. eexists. split; [done|]. split; cbn.
    + rewrite !length_insert. done.
    + intros b y Hy. destruct (decide (sysv_bucket d = Z.of_nat b)) as [Heq|Hne]; [|by apply next_in_other; [apply Hb|]].
      assert (b = Z.to_nat (sysv_bucket d)) as -> by lia. rewrite Hx in Hy. injection Hy as <-. apply next_in_found; [done| |done]. by apply Hb.
    + intros j e [He|[-> ->]]%snoc_lookup.
      * destruct (decide (j = jl)) as [->|Hne].
        -- exists sym. rewrite list_lookup_insert_eq by (by eapply lookup_lt_Some). split; [done|]. rewrite Hel in He. injection He as <-.
           apply next_in_new; [lia|by symmetry|]. intros k f Hk Hf. rewrite Hbl. apply (Hafter k f); [lia|done].
        -- destruct (Hch j e He) as (y & Hy & Hn). exists y. rewrite list_lookup_insert_ne by lia. split; [done|].
           destruct (decide (sysv_bucket d = sysv_bucket e)) as [Heq|Hneq]; [|by apply next_in_other].
           apply next_in_found; [done|done|]. intros ->. destruct Hn as [[_ Hn]|(k & f & Hk & _)]; [|lia].
           destruct (decide (j < jl)%nat); [apply (Hn jl el); [lia|done|congruence]|]. apply (Hafter j e); [lia|done|congruence].
      * exists 0. rewrite list_lookup_insert_ne by lia. split; [by apply Hrest|]. left. split; [done|].
        intros k e Hk [He|[-> ->]]%snoc_lookup; [apply lookup_lt_Some in He; lia|lia].
    + intros j Hj. rewrite length_app in Hj. cbn in Hj. rewrite list_lookup_insert_ne by lia. apply Hrest. lia.
    + done.
Qed.

Lemma write_sysv_all layout : sysv_bucket_count layout = count -> 0 < count -> 0 < start -> forall todo done_ s,
  start + Z.of_nat (length done_ + length todo) < 2 ^ 32 -> sysv_inv (length done_ + length todo) done_ s ->
  exists s', write_sysv_symbols sysv_hash layout start (Z.of_nat (length done_)) todo s = Ok s' /\ sysv_inv (length done_ + length todo) (done_ ++ todo) s'.
Proof.
  intros Hc H0 Hs. induction todo as [|d todo IH]; intros done_ s Ht Hinv; cbn [write_sysv_symbols].
  { exists s. by rewrite app_nil_r. }
  cbn [length] in *. destruct (write_sysv_step layout _ done_ d s Hc H0 Hs Ht ltac:(lia) Hinv) as (s1 & -> & Hinv1). cbn [mbind res_bind].
  replace (Z.of_nat (length done_) + 1) with (Z.of_nat (length (done_ ++ [d]))) by (rewrite length_app; cbn; lia).
  replace (length done_ + S (length todo))%nat with (length (done_ ++ [d]) + length todo)%nat in * by (rewrite length_app; cbn; lia).
  destruct (IH (done_ ++ [d]) s1 Ht Hinv1) as (s' & Hw & Hinv'). exists s'. split; [done|]. by rewrite <- app_assoc in Hinv'.
Qed.

(** A chain that is followed from an entry finds the first definition of the name. *)
Lemma sysv_walk defs s t n : 0 < start -> sysv_inv (length defs) defs s -> t = mkSysvTable (s_buckets s) (s_chains s) ->
  forall fuel from idx, (length defs - from < fuel)%nat -> next_in (sysv_hash n mod count) from defs idx ->
  first_from start defs from n (sysv_chain (names_from start defs) fuel t n idx).
Proof.
  intros Hs Hinv ->. induction fuel as [|fuel IH]; intros from idx Hf Hn; [lia|]. cbn [sysv_chain].
  assert (forall e, def_name e = n -> sysv_bucket e = sysv_hash n mod count) as Hname by (intros e <-; done).
  destruct Hn as [[-> Hn]|(k & e & -> & Hk & He & Hb & Hn)].
  { cbn [Z.eqb]. intros k e Hk He Hen. by apply (Hn k e Hk He), Hname. }
  rewrite (proj2 (Z.eqb_neq _ _)) by lia. rewrite names_from_at, He. cbn [fmap option_fmap option_map].
  assert (forall i f, (from <= i < k)%nat -> defs !! i = Some f -> def_name f <> n) as Hbefore by (intros i f Hi Hf' Hfn; by apply (Hn i f Hi Hf'), Hname).
  case_bool_decide as Heq.
  { exists k, e. split_and!; [done|done|done|congruence|done]. }
  assert (def_name e <> n) as Hen by congruence. destruct (si_chains _ _ _ Hinv k e He) as (x & Hx & Hnx). cbn [sysv_chains]. rewrite Hx. cbn [mbind option_bind].
  rewrite Hb in Hnx. pose proof (lookup_lt_Some _ _ _ He). pose proof (IH (S k) x ltac:(lia) Hnx) as H1.
  assert (forall i f, (from <= i)%nat -> (i < S k)%nat -> defs !! i = Some f -> def_name f <> n) as Hbefore'.
  { intros i f Hi Hi' Hf'. destruct (decide (i = k)) as [->|]; [congruence|]. apply (Hbefore i f); [lia|done]. }
  destruct (sysv_chain _ _ _ _ _) as [r|]; cbn [first_from] in *.
  - destruct H1 as (j & f & -> & Hj & Hf' & Hfn & Hb'). exists j, f. split_and!; [done|lia|done|done|]. intros i g Hi Hg.
    destruct (decide (i < S k)%nat); [by apply (Hbefore' i g); [lia|..]|]. apply (Hb' i g); [lia|done].
  - intros i f Hi Hf'. destruct (decide (i < S k)%nat); [by apply (Hbefore' i f)|]. apply (H1 i f); [lia|done].
Qed.
End SysvTable.

(** C31. The System V hash table fits the space that was allocated for it, and a loader finds in it
    exactly the symbols that are defined: the lookup of a name gives the index of its first
    definition, and nothing for a name that is not defined. *)
Theorem sysv_hash_exact sysv_hash start defs size layout0 layout :
  0 < start -> start + Z.of_nat (length defs) < 2 ^ 32 -> (forall n, 0 <= sysv_hash n) ->
  allocate_sysv_hash (Z.of_nat (length defs)) (start + Z.of_nat (length defs)) = Ok (Some (size, layout0)) ->
  finalise_sysv start (Z.of_nat (length defs)) layout0 = Ok layout ->
  exists t, write_sysv_hash_table sysv_hash layout start size defs = Ok (Some t) /\
    forall n, first_from start defs 0 n (sysv_lookup (names_from start defs) t (sysv_hash n) n).
Proof.
  intros Hs Ht Hh Ha Hf. unfold allocate_sysv_hash, ensure in Ha. destruct (Z.eqb_spec (Z.of_nat (length defs)) 0) as [|Hne]; [done|].
  rewrite (proj2 (Z.ltb_lt _ _)) in Ha by lia. cbn [mbind res_bind] in Ha. injection Ha as <- <-.
  unfold finalise_sysv, ensure in Hf. rewrite (wrap_small 32 (Z.of_nat (length defs))), (proj2 (Z.ltb_lt _ _)) in Hf by (unfold in_u; lia). cbn [mbind res_bind sysv_bucket_count] in Hf. injection Hf as <-.
  set (count := wrap 32 (next_power_of_two (Z.max (Z.of_nat (length defs) / 2) 1))).
  assert (0 < count) as Hc.
  { unfold count. rewrite wrap_small; [apply next_power_of_two_pos|]. unfold in_u, next_power_of_two. split; [apply Z.pow_nonneg; lia|].
    apply Z.pow_lt_mono_r; [lia|lia|]. assert (Z.max (Z.of_nat (length defs) / 2) 1 <= 2 ^ 31) as H; [|apply Z.log2_up_le_mono in H; rewrite Z.log2_up_pow2 in H; lia].
    assert (Z.of_nat (length defs) / 2 <= 2 ^ 31) by (apply Z.div_le_upper_bound; lia). lia. }
  unfold write_sysv_hash_table, ensure, byte_size. cbn [sysv_bucket_count chain_count]. rewrite !(proj2 (Z.eqb_neq _ _)) by lia. cbn [orb]. rewrite Z.leb_refl. cbn [mbind res_bind].
  set (layout := mkSysv count (start + Z.of_nat (length defs))). set (s0 := mkSysvState _ _ _).
  assert (sysv_inv sysv_hash count start (length defs) [] s0) as H0.
  { split; cbn.
    - rewrite !length_replicate. split_and!; lia.
    - intros b x [-> _]%lookup_replicate. left. done.
    - done.
    - intros j Hj. apply lookup_replicate. split; [done|lia].
    - intros b o [-> _]%lookup_replicate. done. }
  destruct (write_sysv_all sysv_hash count start layout eq_refl Hc Hs defs [] s0 Ht H0) as (s & Hw & Hinv). cbn [length app Nat.add] in *.
  change (Z.of_nat 0) with 0 in Hw. rewrite Hw. cbn [mbind res_bind]. eexists. split; [done|]. intros n. unfold sysv_lookup. cbn [sysv_buckets].
  destruct (si_lengths _ _ _ _ _ _ Hinv) as (Hlb & _ & Hlc). rewrite Hlb, Z2Nat.id by lia. pose proof (Z.mod_pos_bound (sysv_hash n) count Hc).
  destruct (lookup_lt_is_Some_2 (s_buckets s) (Z.to_nat (sysv_hash n mod count))) as [x Hx]; [lia|]. rewrite Hx. cbn [mbind option_bind].
  apply (sysv_walk sysv_hash count start defs s); [done|done|done|cbn; lia|]. pose proof (si_buckets _ _ _ _ _ _ Hinv _ _ Hx) as Hn. by rewrite Z2Nat.id in Hn by lia.
Qed.

(** ** Three names in two buckets *)
Module Example.
Definition sum_hash (n : list Z) : Z := wrap 32 (foldr Z.add 0 n).

Definition def (n : list Z) : DynamicSymbolDefinition := mkDef n (sum_hash n).

Definition defs : list DynamicSymbolDefinition := [def [97; 98]; def [99]; def [100; 101; 102]; def [98; 97]].

Definition layout : GnuHashLayout := mkGnu 4 2 6 1 0.

(** The names in the order of the buckets. *)
Definition sorted : list DynamicSymbolDefinition := [def [97; 98]; def [98; 97]; def [99]; def [100; 101; 102]].
End Example.

Lemma create_sorts_defs : create_gnu_hash_layout true true Example.defs = Some (Example.layout, Example.sorted).
Proof. by vm_compute. Qed.

Lemma gnu_hash_exact_witness : let sorted := merge_sort (key_le Example.layout) Example.defs in
  sorted ≡ₚ Example.defs /\
  exists t, write_gnu_hash_tables (set_symbol_base 3 Example.layout) 64 (gnu_size 8 Example.layout) sorted = Ok t /\
    forall n, first_from 3 sorted 0 n (gnu_lookup (names_from 3 sorted) t 64 (Example.sum_hash n) n).
Proof.
  intros sorted. apply (gnu_hash_exact Example.sum_hash 64 3 Example.defs Example.layout sorted); [by right|lia|vm_compute; done| |].
  - intros d Hd. unfold Example.defs in Hd. rewrite !elem_of_cons in Hd. destruct Hd as [-> | [-> | [-> | [-> | []%elem_of_nil]]]]; split; by vm_compute.
  - by vm_compute.
Defined.

Lemma sysv_hash_exact_witness :
  exists t, write_sysv_hash_table Example.sum_hash (mkSysv 2 7) 3 (byte_size (mkSysv 2 7)) Example.defs = Ok (Some t) /\
    forall n, first_from 3 Example.defs 0 n (sysv_lookup (names_from 3 Example.defs) t (Example.sum_hash n) n).
Proof.
  apply (sysv_hash_exact Example.sum_hash 3 Example.defs (byte_size (mkSysv 2 7)) (mkSysv 2 7)); [lia|vm_compute; done| | |].
  - intros n. apply Z.mod_pos_bound. lia.
  - by vm_compute.
  - by vm_compute.
Defined.
