(* ===== verification/SectionRules.v ===== *)
(** The rules that map input sections to output sections: the rules of
    [libjdxld/src/layout_rules.rs], and the rules of ELF of [elf.rs].

    The rules are in a hash table under the first four bytes of their pattern.  The table is
    third-party: [table_find] is its [find], which tests every entry under a hash and may test
    others, in an order that is not specified.  [lookup_matching_rule] says what a lookup gives
    when the first four bytes of a pattern stand for themselves, and [elf_rules_lookup] that
    the rules of ELF do not depend on the order of the table for names that only one of them
    decides.  [glob_rule_missed] and [data_rel_ro_depends_on_table] show the rest. *)
From Stdlib Require Import ZArith Lia.
From stdpp Require Import base list list_numbers numbers strings option.
From S2P Require Import Prelude Parsers ScriptInputs VersionScript.

Local Open Scope Z_scope.

(** ** Data *)
Record SectionOutputInfo := mkOutputInfo { section_id : Z; must_keep : bool; sorted : bool }.

Definition regular (section_id : Z) : SectionOutputInfo := mkOutputInfo section_id false false.
Definition keep (section_id : Z) : SectionOutputInfo := mkOutputInfo section_id true false.

Inductive SectionRuleOutcome :=
| Section_ (info : SectionOutputInfo)
| Discard
| Custom
| EhFrame
| NoteGnuProperty
| NoteGnuStack
| Debug_
| DebugIndex
| RiscVAttribute
| SortedSection (info : SectionOutputInfo).

(** The identifiers a platform gives to sections, if it has them. *)
Record PlatformIds := mkIds {
  EH_FRAME_SECTION_ID : option Z;
  NOTE_GNU_PROPERTY_SECTION_ID : option Z;
  RISCV_ATTRIBUTES_SECTION_ID : option Z;
  TEXT_SECTION_ID : option Z;
  TDATA_SECTION_ID : option Z;
  DATA_SECTION_ID : option Z;
  RODATA_SECTION_ID : option Z;
  TBSS_SECTION_ID : option Z;
  BSS_SECTION_ID : option Z
}.

Definition section_rule_from_id (P : PlatformIds) (section_id : Z) (output_info : SectionOutputInfo) : SectionRuleOutcome :=
  if bool_decide (Some section_id = EH_FRAME_SECTION_ID P) then EhFrame
  else if bool_decide (Some section_id = NOTE_GNU_PROPERTY_SECTION_ID P) then NoteGnuProperty
  else if bool_decide (Some section_id = RISCV_ATTRIBUTES_SECTION_ID P) then RiscVAttribute
  else Section_ output_info.

(** What the rules ask of the header of an input section. *)
Record SectionHeader := mkHeader {
  should_exclude : bool;
  is_alloc : bool;
  is_prog_bits : bool;
  is_no_bits : bool;
  is_executable : bool;
  is_tls : bool;
  is_writable : bool
}.

Definition regular_section_or_discard (section_id : option Z) : SectionRuleOutcome :=
  match section_id with Some section_id => Section_ (regular section_id) | None => Discard end.

Definition unnamed_section_output (P : PlatformIds) (h : SectionHeader) : SectionRuleOutcome :=
  if negb (is_alloc h) then Discard
  else if is_prog_bits h then
    if is_executable h then regular_section_or_discard (TEXT_SECTION_ID P)
    else if is_tls h then regular_section_or_discard (TDATA_SECTION_ID P)
    else if is_writable h then regular_section_or_discard (DATA_SECTION_ID P)
    else regular_section_or_discard (RODATA_SECTION_ID P)
  else if is_no_bits h then
    if is_tls h then regular_section_or_discard (TBSS_SECTION_ID P) else regular_section_or_discard (BSS_SECTION_ID P)
  else Discard.

Section Rules.
Context {N : Names}.

Inductive SectionNameMatcher :=
| NameExact (name : list Z)
| NamePrefix (prefix : list Z)
| NameGlob (pattern : list Z) (compiled : Pattern).

Definition prefix_bytes (m : SectionNameMatcher) : list Z :=
  match m with NameExact n => n | NamePrefix n => n | NameGlob n _ => n end.

Record SectionRule := mkRule { name_matcher : SectionNameMatcher; input_file_pattern : option Pattern; outcome : SectionRuleOutcome }.

(** [SectionRule::new]: a rule of a linker script. *)
Definition new (pattern : list Z) (input_file_pattern : option (list Z)) (outcome : SectionRuleOutcome) : res SectionRule :=
  file ← match input_file_pattern with Some p => Some <$> compile_glob_pattern p | None => Ok None end;
  m ← match analyze_glob_pattern pattern with
      | GlobExact => Ok (NameExact pattern)
      | GlobEscapedExact => Ok (NameExact (unescape_pattern pattern))
      | GlobStar | GlobNonStar => compiled ← compile_glob_pattern pattern; Ok (NameGlob pattern compiled)
      end;
  Ok (mkRule m file outcome).

Definition rule_matches (self : SectionRule) (section_name : list Z) (file_name : option (list Z)) : bool :=
  (match name_matcher self with
   | NameExact name => bool_decide (section_name = name)
   | NamePrefix prefix => starts_with prefix section_name
   | NameGlob _ pattern => is_utf8 section_name && matches pattern section_name
   end) &&
  match input_file_pattern self, file_name with
  | None, _ => true
  | Some _, None => false
  | Some pattern, Some name => is_utf8 name && matches pattern name
  end.

(** The constructors of built-in rules. *)
Definition exact (name : list Z) (o : SectionRuleOutcome) : SectionRule := mkRule (NameExact name) None o.
Definition prefix (name : list Z) (o : SectionRuleOutcome) : SectionRule := mkRule (NamePrefix name) None o.
Definition exact_section (name : list Z) (id : Z) : SectionRule := exact name (Section_ (regular id)).
Definition exact_section_keep (name : list Z) (id : Z) : SectionRule := exact name (Section_ (keep id)).
Definition prefix_section (name : list Z) (id : Z) : SectionRule := prefix name (Section_ (regular id)).
Definition prefix_section_sort (name : list Z) (id : Z) : SectionRule := prefix name (SortedSection (keep id)).

(** ** The table *)
Class RuleTable := { table_find : list (Z * SectionRule) -> Z -> (SectionRule -> bool) -> option SectionRule }.

Context (hash_bytes : list Z -> Z) {T : RuleTable}.

(** The first four bytes of a name, with zeros after its end. *)
Definition four_bytes (name : list Z) : list Z := take 4 (name ++ [0; 0; 0; 0]).

Definition section_name_prefix_hash (name : list Z) : option Z :=
  match name with [] => None | _ => Some (hash_bytes (four_bytes name)) end.

Definition from_rules (rules : list SectionRule) : list (Z * SectionRule) :=
  map (fun rule => (default 0 (section_name_prefix_hash (prefix_bytes (name_matcher rule))), rule)) rules.

Definition lookup (P : PlatformIds) (self : list (Z * SectionRule)) (section_name : list Z) (file_name : option (list Z)) (h : SectionHeader) :
    SectionRuleOutcome :=
  if should_exclude h then Discard
  else
    let found := hash ← section_name_prefix_hash section_name; table_find self hash (fun rule => rule_matches rule section_name file_name) in
    match found with
    | Some rule => outcome rule
    | None => match section_name with [] => unnamed_section_output P h | _ => Custom end
    end.

(** [LayoutRulesBuilder::build]: the rules of the scripts with those a platform adds, or the
    rules of the platform. *)
Definition build (default_layout_rules linker_script_rules_pre_build rules : list SectionRule) : list (Z * SectionRule) :=
  match rules with
  | [] => from_rules default_layout_rules
  | _ => from_rules (rules ++ linker_script_rules_pre_build)
  end.

(** ** The rules of ELF *)
Definition DEFAULT_SECTION_PLACEMENT_RULES : list SectionRule := [
  exact_section_keep (txt ".init") 39;
  exact_section_keep (txt ".fini") 40;
  exact_section_keep (txt ".preinit_array") 37;
  exact_section_keep (txt ".comment") 45;
  exact_section_keep (txt ".note.ABI-tag") 47;
  exact_section (txt ".note.gnu.build-id") 23;
  prefix_section (txt ".rodata") 34;
  prefix_section (txt ".text") 38;
  prefix_section (txt ".data.rel.ro") 48;
  prefix_section (txt ".data") 41;
  prefix_section (txt ".bss") 44;
  prefix_section_sort (txt ".init_array") 35;
  prefix_section_sort (txt ".ctors") 35;
  prefix_section_sort (txt ".fini_array") 36;
  prefix_section_sort (txt ".dtors") 36;
  prefix_section (txt ".tdata") 42;
  prefix_section (txt ".tbss") 43;
  prefix_section (txt ".gcc_except_table") 46].

Definition LINKER_MANAGED_SECTION_RULES : list SectionRule := [
  prefix (txt ".rela") Discard;
  prefix (txt ".crel") Discard;
  exact (txt ".note.GNU-stack") NoteGnuStack;
  exact (txt ".strtab") Discard;
  exact (txt ".symtab") Discard;
  exact (txt ".shstrtab") Discard;
  exact (txt ".group") Discard;
  exact (txt ".eh_frame") EhFrame;
  exact (txt ".note.gnu.property") NoteGnuProperty;
  exact (txt ".riscv.attributes") RiscVAttribute;
  exact (txt ".symtab_shndx") Discard;
  prefix (txt ".debug_") Debug_].

Definition default_layout_rules (discard_sframe gdb_index : bool) : list SectionRule :=
  (if gdb_index then [exact (txt ".debug_gnu_pubnames") DebugIndex; exact (txt ".debug_gnu_pubtypes") DebugIndex] else []) ++
  DEFAULT_SECTION_PLACEMENT_RULES ++ LINKER_MANAGED_SECTION_RULES ++
  [exact (txt ".sframe") (if discard_sframe then Discard else Section_ (keep 12))].

Definition linker_script_rules_pre_build : list SectionRule := exact_section_keep (txt ".comment") 45 :: LINKER_MANAGED_SECTION_RULES.
End Rules.

#[export] Instance output_info_eq_dec : EqDecision SectionOutputInfo.
Proof. solve_decision. Defined.

#[export] Instance outcome_eq_dec : EqDecision SectionRuleOutcome.
Proof. solve_decision. Defined.

(** ** What a lookup finds *)

(** The entries under the hash are tested; others may be tested, and the first that passes is
    the result. *)
Class RuleTableLaws {N : Names} (T : RuleTable) : Prop := {
  table_find_some t hash eq r : table_find t hash eq = Some r -> exists h, (h, r) ∈ t /\ eq r = true;
  table_find_none t hash eq : table_find t hash eq = None -> forall r, (hash, r) ∈ t -> eq r = false
}.

(** The bytes of a pattern before its first metacharacter. *)
Definition literal_prefix (pattern : list Z) : list Z := (run_of (fun b => negb (bool_decide (b ∈ txt "?*[]"))) pattern).1.

(** Bytes that are not metacharacters match themselves. *)
Class GlobLaws (N : Names) : Prop := {
  literal_matches p g s : Pattern_new p = Some g -> matches g s = true -> exists rest, s = literal_prefix p ++ rest
}.

Lemma literal_prefix_negation p : literal_prefix (replace_negation p) = literal_prefix p.
Proof.
  unfold literal_prefix. revert p. fix IH 1. intros [|c p]; [done|]. destruct (decide (c = 91)) as [->|Hc].
  - destruct p as [|d p]; [done|]. destruct (decide (d = 94)) as [->|Hd]; [done|].
    assert (replace_negation (91 :: d :: p) = 91 :: replace_negation (d :: p)) as -> by (cbn; repeat case_match; congruence). done.
  - assert (replace_negation (c :: p) = c :: replace_negation p) as -> by (cbn; repeat case_match; congruence).
    cbn [run_of]. destruct (negb _); [|done]. specialize (IH p). destruct (run_of _ p), (run_of _ (replace_negation p)). cbn in *. by rewrite IH.
Qed.

Section Lookup.
Context {N : Names} {T : RuleTable} {TL : RuleTableLaws T} {GL : GlobLaws N} (hash_bytes : list Z -> Z).

(** The first four bytes of the pattern are those of every name it matches. *)
Definition keyed (r : SectionRule) : Prop :=
  match name_matcher r with
  | NameExact _ => True
  | NamePrefix p => (4 <= length p)%nat
  | NameGlob p g => (4 <= length (literal_prefix p))%nat /\ Pattern_new (replace_negation p) = Some g
  end.

Lemma four_bytes_prefix p rest : (4 <= length p)%nat -> four_bytes (p ++ rest) = four_bytes p.
Proof. intros H. unfold four_bytes. rewrite <- app_assoc. by rewrite !take_app_le. Qed.

Lemma run_of_split f (l : list Z) : l = (run_of f l).1 ++ (run_of f l).2.
Proof. induction l as [|b l IH]; [done|]. cbn [run_of]. destruct (f b); [|done]. destruct (run_of f l). cbn in *. by rewrite IH. Qed.

Lemma keyed_four_bytes r name file : keyed r -> rule_matches r name file = true -> four_bytes (prefix_bytes (name_matcher r)) = four_bytes name.
Proof.
  unfold keyed, rule_matches. intros Hk [Hm _]%andb_true_iff. destruct (name_matcher r) as [n|p|p g]; cbn [prefix_bytes].
  - by apply bool_decide_eq_true in Hm as ->.
  - apply starts_with_spec in Hm as [rest ->]. by rewrite four_bytes_prefix.
  - destruct Hk as [Hl Hp]. apply andb_true_iff in Hm as [_ Hm]. destruct (literal_matches _ _ _ Hp Hm) as [rest ->]. rewrite literal_prefix_negation.
    rewrite four_bytes_prefix by done. transitivity (four_bytes (literal_prefix p ++ (run_of (fun b => negb (bool_decide (b ∈ txt "?*[]"))) p).2)); [f_equal; apply run_of_split|].
    by apply four_bytes_prefix.
Qed.

Lemma keyed_not_empty r name file : keyed r -> rule_matches r name file = true -> name <> [] -> prefix_bytes (name_matcher r) <> [].
Proof.
  intros Hk Hm Hn Hp. pose proof (keyed_four_bytes r name file Hk Hm) as H. unfold keyed, rule_matches in *. apply andb_true_iff in Hm as [Hm _].
  destruct (name_matcher r) as [n|p|p g]; cbn [prefix_bytes] in *; subst.
  - by apply bool_decide_eq_true in Hm.
  - cbn in Hk. lia.
  - destruct Hk as [Hk _]. cbn in Hk. lia.
Qed.

Lemma lookup_cases P rules name file h : Forall keyed rules -> name <> [] -> should_exclude h = false ->
  (exists r, r ∈ rules /\ rule_matches r name file = true /\ lookup hash_bytes P (from_rules hash_bytes rules) name file h = outcome r) \/
  ((forall r, r ∈ rules -> rule_matches r name file = false) /\ lookup hash_bytes P (from_rules hash_bytes rules) name file h = Custom).
Proof.
  intros Hk Hn Hx. unfold lookup. rewrite Hx. assert (section_name_prefix_hash hash_bytes name = Some (hash_bytes (four_bytes name))) as -> by (by destruct name).
  cbn [mbind option_bind]. destruct (table_find _ _ _) as [r|] eqn:E.
  - left. exists r. apply table_find_some in E as (k & Hin & Hm). split; [|done]. unfold from_rules in Hin. apply list_elem_of_fmap in Hin as (r1 & [= _ <-] & Hr). done.
  - right. split; [|by destruct name]. intros r Hr. destruct (rule_matches r name file) eqn:Hm; [|done]. exfalso.
    pose proof (proj1 (List.Forall_forall _ _) Hk r (proj1 (list_elem_of_In _ _) Hr)) as Hkr. pose proof (keyed_not_empty r name file Hkr Hm Hn) as Hne.
    assert ((hash_bytes (four_bytes name), r) ∈ from_rules hash_bytes rules) as Hin.
    { unfold from_rules. apply list_elem_of_fmap. exists r. split; [|done]. f_equal. rewrite <- (keyed_four_bytes r name file Hkr Hm).
      by destruct (prefix_bytes (name_matcher r)). }
    pose proof (table_find_none _ _ _ E r Hin) as H. cbn in H. congruence.
Qed.
End Lookup.

(** C24. Where the first four bytes of every pattern stand for themselves, the lookup of a section
    gives the outcome of a rule that matches its name and file, and the section is a custom one
    exactly if no rule matches; excluded sections are discarded. *)
Theorem lookup_matching_rule {N : Names} {T : RuleTable} {TL : RuleTableLaws T} {GL : GlobLaws N} hash_bytes P rules name file h :
  Forall keyed rules -> name <> [] ->
  let found := lookup hash_bytes P (from_rules hash_bytes rules) name file h in
  if should_exclude h then found = Discard
  else (exists r, r ∈ rules /\ rule_matches r name file = true /\ found = outcome r) \/
    ((forall r, r ∈ rules -> rule_matches r name file = false) /\ found = Custom).
Proof. intros Hk Hn found. destruct (should_exclude h) eqn:Hx; [unfold found, lookup; by rewrite Hx|]. by apply lookup_cases. Qed.

(** ** The rules of ELF *)
Section Elf.
Context {N : Names}.

(** Whether a name can match both. *)
Definition compatible (m m' : SectionNameMatcher) : bool :=
  match m, m' with
  | NameExact a, NameExact b => bool_decide (a = b)
  | NameExact a, NamePrefix p => starts_with p a
  | NamePrefix p, NameExact a => starts_with p a
  | NamePrefix p, NamePrefix q => starts_with p q || starts_with q p
  | _, _ => true
  end.

Lemma starts_with_both p q s : starts_with p s = true -> starts_with q s = true -> starts_with p q = true \/ starts_with q p = true.
Proof.
  rewrite !starts_with_spec. intros [x Hx] [y Hy]. rewrite Hx in Hy. clear s Hx. revert q Hy. induction p as [|b p IH]; intros q Hy; [left; by exists q|].
  destruct q as [|c q]; [right; by eexists|]. injection Hy as -> Hy. destruct (IH _ Hy) as [[z ->]|[z ->]]; [left|right]; by exists z.
Qed.

Lemma matches_compatible r r' name file : rule_matches r name file = true -> rule_matches r' name file = true ->
  compatible (name_matcher r) (name_matcher r') = true.
Proof.
  unfold rule_matches. intros [H _]%andb_true_iff [H' _]%andb_true_iff. destruct (name_matcher r) as [a|p|? ?], (name_matcher r') as [b|q|? ?]; cbn; try done.
  - apply bool_decide_eq_true in H, H'. apply bool_decide_eq_true. congruence.
  - apply bool_decide_eq_true in H. by subst.
  - apply bool_decide_eq_true in H'. by subst.
  - apply orb_true_iff. by eapply starts_with_both.
Qed.

(** Names that two rules with different outcomes match. *)
Definition ambiguous (gdb_index : bool) (name : list Z) : bool :=
  starts_with (txt ".data.rel.ro") name || (gdb_index && bool_decide (name ∈ [txt ".debug_gnu_pubnames"; txt ".debug_gnu_pubtypes"])).

Definition exempt (gdb_index : bool) (m : SectionNameMatcher) : bool :=
  match m with
  | NamePrefix p => bool_decide (p = txt ".data.rel.ro")
  | NameExact n => gdb_index && bool_decide (n ∈ [txt ".debug_gnu_pubnames"; txt ".debug_gnu_pubtypes"])
  | NameGlob _ _ => false
  end.

Lemma exempt_ambiguous gdb_index r name file : exempt gdb_index (name_matcher r) = true -> rule_matches r name file = true -> ambiguous gdb_index name = true.
Proof.
  unfold rule_matches, ambiguous. intros He [H _]%andb_true_iff. destruct (name_matcher r) as [n|p|? ?]; cbn in He; [| |done]; apply orb_true_iff.
  - apply bool_decide_eq_true in H as ->. by right.
  - apply bool_decide_eq_true in He as ->. by left.
Qed.

Lemma elf_rules_agree discard_sframe gdb_index r r' : r ∈ default_layout_rules discard_sframe gdb_index -> r' ∈ default_layout_rules discard_sframe gdb_index ->
  compatible (name_matcher r) (name_matcher r') = true -> exempt gdb_index (name_matcher r) = false -> exempt gdb_index (name_matcher r') = false ->
  outcome r = outcome r'.
Proof.
  intros Hr Hr' Hc He He'. assert (forallb (fun r => forallb (fun r' => negb (compatible (name_matcher r) (name_matcher r')) || exempt gdb_index (name_matcher r) ||
    exempt gdb_index (name_matcher r') || bool_decide (outcome r = outcome r')) (default_layout_rules discard_sframe gdb_index))
    (default_layout_rules discard_sframe gdb_index) = true) as H by (destruct discard_sframe, gdb_index; by vm_compute).
  rewrite forallb_forall in H. specialize (H r (proj1 (list_elem_of_In _ _) Hr)). cbn beta in H. rewrite forallb_forall in H.
  specialize (H r' (proj1 (list_elem_of_In _ _) Hr')). cbn beta in H. rewrite Hc, He, He' in H. by apply bool_decide_eq_true in H.
Qed.

Lemma elf_rules_keyed discard_sframe gdb_index : Forall keyed (default_layout_rules discard_sframe gdb_index).
Proof.
  apply List.Forall_forall. intros r Hr. assert (forallb (fun r => match name_matcher r with NameExact _ => true | NamePrefix p => (4 <=? length p)%nat | _ => false end)
    (default_layout_rules discard_sframe gdb_index) = true) as H by (destruct discard_sframe, gdb_index; by vm_compute).
  rewrite forallb_forall in H. specialize (H r Hr). cbn beta in H. unfold keyed. destruct (name_matcher r); [done| |done].
  by apply Nat.leb_le.
Qed.

(** The first rule in the order of the list. *)
Definition first_rule (rules : list SectionRule) (name : list Z) (file : option (list Z)) : SectionRuleOutcome :=
  match List.find (fun r => rule_matches r name file) rules with Some r => outcome r | None => Custom end.
End Elf.

(** C25. A section of an ELF file is mapped as by the first of the built-in rules that matches its
    name, whatever the hash table does, for every name but those that two rules of different
    outcomes match: the names that begin with .data.rel.ro and, with an index for gdb, the two
    sections of public names. *)
Theorem elf_rules_lookup {N : Names} {T : RuleTable} {TL : RuleTableLaws T} {GL : GlobLaws N} hash_bytes P discard_sframe gdb_index name file h :
  name <> [] -> should_exclude h = false -> ambiguous gdb_index name = false ->
  lookup hash_bytes P (build hash_bytes (default_layout_rules discard_sframe gdb_index) linker_script_rules_pre_build []) name file h =
  first_rule (default_layout_rules discard_sframe gdb_index) name file.
Proof.
  intros Hn Hx Ha. cbn [build]. unfold first_rule.
  destruct (lookup_cases hash_bytes P _ name file h (elf_rules_keyed discard_sframe gdb_index) Hn Hx) as [(r & Hr & Hm & ->)|[Hnone ->]];
    destruct (List.find _ _) as [r'|] eqn:E; [| | |done].
  - apply find_some in E as [Hr' Hm']. apply list_elem_of_In in Hr'. apply (elf_rules_agree discard_sframe gdb_index r r' Hr Hr').
    + by eapply matches_compatible.
    + destruct (exempt _ _) eqn:He; [|done]. by rewrite (exempt_ambiguous _ _ _ _ He Hm) in Ha.
    + destruct (exempt gdb_index (name_matcher r')) eqn:He; [|done]. by rewrite (exempt_ambiguous _ _ _ _ He Hm') in Ha.
  - apply list_elem_of_In in Hr. pose proof (find_none _ _ E r Hr) as H. cbn in H. congruence.
  - apply find_some in E as [Hr' Hm']. apply list_elem_of_In in Hr'. specialize (Hnone _ Hr'). congruence.
Qed.

(** ** Tables and patterns *)
Module Example.
Import VersionScript.Example.
#[local] Existing Instance VersionScript.Example.names.

(** Tables that test the entries under the hash, from the first or from the last. *)
Definition in_order : RuleTable := {| table_find t hash eq := snd <$> List.find (fun e => (e.1 =? hash) && eq e.2) t |}.
Definition backwards : RuleTable := {| table_find t hash eq := snd <$> List.find (fun e => (e.1 =? hash) && eq e.2) (rev t) |}.

Lemma find_laws (t t' : list (Z * SectionRule)) hash (eq : SectionRule -> bool) : (forall e, e ∈ t' <-> e ∈ t) ->
  match snd <$> List.find (fun e => (e.1 =? hash) && eq e.2) t' with
  | Some r => exists h, (h, r) ∈ t /\ eq r = true
  | None => forall r, (hash, r) ∈ t -> eq r = false
  end.
Proof.
  intros Ht. destruct (List.find _ t') as [[h r]|] eqn:E; cbn.
  - apply find_some in E as [Hin [_ Hr]%andb_true_iff]. exists h. split; [|done]. by apply Ht, list_elem_of_In.
  - intros r Hr%Ht%list_elem_of_In. pose proof (find_none _ _ E _ Hr) as H. cbn in H. by rewrite Z.eqb_refl in H.
Qed.

#[export] Instance in_order_laws : RuleTableLaws in_order.
Proof.
  split; intros t hash eq; pose proof (find_laws t t hash eq ltac:(done)) as H; cbn; [intros r E|intros E]; by rewrite E in H.
Qed.

#[export] Instance backwards_laws : RuleTableLaws backwards.
Proof.
  assert (forall (t : list (Z * SectionRule)) e, e ∈ rev t <-> e ∈ t) as Ht by (intros t e; rewrite !list_elem_of_In; symmetry; apply in_rev).
  split; intros t hash eq; pose proof (find_laws t (rev t) hash eq (Ht t)) as H; cbn; [intros r E|intros E]; by rewrite E in H.
Qed.

Lemma literal_glob : forall fuel p s, glob fuel p s = true -> exists rest, s = literal_prefix p ++ rest.
Proof.
  unfold literal_prefix. induction fuel as [|fuel IH]; intros p s H; [done|]. destruct p as [|a p]; [by exists s|]. cbn [run_of].
  destruct (bool_decide (a ∈ txt "?*[]")) eqn:Ha; cbn [negb]; [by exists s|]. apply bool_decide_eq_false in Ha.
  assert (a <> 42 /\ a <> 63) as [H1 H2] by (split; intros ->; apply Ha; by vm_compute; repeat constructor).
  destruct s as [|b s]; [exfalso; revert H; cbn; repeat case_match; congruence|].
  assert (b = a /\ glob fuel p s = true) as [-> Hg].
  { revert H. cbn [glob]. repeat case_match; try congruence; subst; try done; intros [[H%Z.eqb_eq|H%Z.eqb_eq]%orb_true_iff H']%andb_true_iff; done. }
  destruct (IH _ _ Hg) as [rest ->]. exists rest. by destruct (run_of _ p).
Qed.

#[export] Instance names_laws : GlobLaws VersionScript.Example.names.
Proof. split. intros p g s [= <-]. apply literal_glob. Qed.

Definition ids : PlatformIds := mkIds (Some 10) (Some 22) (Some 28) (Some 38) (Some 42) (Some 41) (Some 34) (Some 43) (Some 44).

Definition header : SectionHeader := mkHeader false true true false true false false.

Definition hash (s : list Z) : Z := foldl (fun h b => 256 * h + b) 0 s.
End Example.
#[local] Existing Instance VersionScript.Example.names.

Definition script_rule (pattern : String.string) (o : SectionRuleOutcome) : SectionRule :=
  match new (txt pattern) None o with Ok r => r | _ => exact [] Discard end.

Lemma lookup_matching_rule_witness :
  let rules := [script_rule ".text.hot.*" (Section_ (regular 50)); script_rule ".data" (Section_ (keep 51)); prefix (txt ".rela") Discard] in
  let found := lookup (T := Example.in_order) Example.hash Example.ids (from_rules Example.hash rules) (txt ".text.hot.f") None Example.header in
  (exists r, r ∈ rules /\ rule_matches r (txt ".text.hot.f") None = true /\ found = outcome r) \/
    ((forall r, r ∈ rules -> rule_matches r (txt ".text.hot.f") None = false) /\ found = Custom).
Proof.
  intros rules. apply (lookup_matching_rule (T := Example.in_order) (TL := Example.in_order_laws) (GL := Example.names_laws)
    Example.hash Example.ids rules (txt ".text.hot.f") None Example.header); [|done].
  repeat constructor.
Defined.

Lemma elf_rules_lookup_witness : let rules := default_layout_rules false true in
  lookup (T := Example.backwards) Example.hash Example.ids (build Example.hash rules linker_script_rules_pre_build []) (txt ".text.hot.f") None Example.header =
  first_rule rules (txt ".text.hot.f") None /\ first_rule rules (txt ".text.hot.f") None = Section_ (regular 38).
Proof.
  split; [|by vm_compute].
  apply (elf_rules_lookup (T := Example.backwards) (TL := Example.backwards_laws) (GL := Example.names_laws)); by vm_compute.
Defined.

(** The key of a pattern is taken from its first four bytes, metacharacters included: a rule for
    [.t*] or for all sections is not among the entries under the hash of [.text]. *)
Lemma glob_rule_missed :
  let look pattern name := lookup (T := Example.in_order) Example.hash Example.ids (from_rules Example.hash [script_rule pattern (Section_ (regular 50))]) (txt name) None Example.header in
  rule_matches (script_rule ".t*" (Section_ (regular 50))) (txt ".text") None = true /\ look ".t*"%string ".text"%string = Custom /\
  rule_matches (script_rule "*" (Section_ (regular 50))) (txt ".text") None = true /\ look "*"%string ".text"%string = Custom /\
  look ".text*"%string ".text.a"%string = Section_ (regular 50).
Proof. by vm_compute. Qed.

(** [.data.rel.ro] is matched by the rule of [.data] as well, under the same hash: which of the
    two is found is up to the table. *)
Lemma data_rel_ro_depends_on_table :
  let look T := lookup (T := T) Example.hash Example.ids (from_rules Example.hash (default_layout_rules false false)) (txt ".data.rel.ro") None Example.header in
  look Example.in_order = Section_ (regular 48) /\ look Example.backwards = Section_ (regular 41).
Proof. by vm_compute. Qed.
