(* ===== verification/ScriptSections.v ===== *)
(** How linker scripts define output sections: [LayoutRulesBuilder::process_linker_script] of
    [libjdxld/src/layout_rules.rs] and the table of output sections of [output_section_id.rs].

    A platform is the class [SectionPlatform] (the identity of a section, its attributes);
    [elf] is that of [elf.rs].  A script becomes rules for input sections ([SectionRules]),
    symbols and location counters at places that [Expressions] evaluates, and output sections
    with ranges of the location counters that are set before them.  [script_counters_tile]
    says that the ranges of a script cover each of its location counters once. *)
From Stdlib Require Import ZArith Lia.
From stdpp Require Import base list list_numbers numbers strings option gmap.
From S2P Require Import Prelude Alignment Layout Expressions Parsers ScriptExpressions ScriptParser VersionScript SectionRules.

Local Open Scope Z_scope.

(** ** Platforms *)
Class SectionPlatform := {
  Identity : Type;
  #[global] identity_eq_dec :: EqDecision Identity;
  #[global] identity_countable :: Countable Identity;
  Attributes : Type;
  default_attributes : Attributes;
  section_identity_from_name : list Z -> option Identity;
  apply_linker_script_attributes : SectionAttributes -> Attributes -> Attributes;
  regular_section_base : Z;
  platform_ids : PlatformIds
}.

(** [SectionAttributes] of [elf.rs]: flags and type of the section header, and what scripts
    change. *)
Record ElfAttributes := mkElfAttributes { attr_flags : Z; attr_ty : Z; has_fixed_type : bool; avoid_propagation : Z }.

Definition elf_apply_attributes (linker_script_attributes : SectionAttributes) (a : ElfAttributes) : ElfAttributes :=
  match linker_script_attributes with
  | Noload => mkElfAttributes (attr_flags a) 8 true (avoid_propagation a)
  | Readonly => mkElfAttributes (attr_flags a) (attr_ty a) (has_fixed_type a) 1
  | Dsect | Copy | Info | Overlay => mkElfAttributes (attr_flags a) (attr_ty a) (has_fixed_type a) 2
  end.

Definition elf : SectionPlatform := {|
  Identity := list Z;
  Attributes := ElfAttributes;
  default_attributes := mkElfAttributes 0 0 false 0;
  section_identity_from_name name := Some name;
  apply_linker_script_attributes := elf_apply_attributes;
  regular_section_base := 34;
  platform_ids := mkIds (Some 10) (Some 22) (Some 28) (Some 38) (Some 42) (Some 41) (Some 34) (Some 43) (Some 44)
|}.

Section Sections.
Context {P : SectionPlatform}.

(** ** The table of output sections *)
Inductive SectionKind := Primary (identity : Identity) | Secondary (primary : Z).

(** The end of the range of location counters is exclusive. *)
Record SectionLocationInfo := mkLocationInfo {
  location_counters : Z * Z;
  location : option Expression;
  at_location : option Expression;
  is_top_level : bool
}.

Record SectionOutputInfo := mkSectionInfo {
  kind : SectionKind;
  attributes : Attributes;
  min_alignment : Alignment;
  location_info : option SectionLocationInfo;
  secondary_order : option Z;
  region_name : option (list Z);
  fill : option (list Z);
  phdrs : list (list Z)
}.

Record OutputSections := mkOutputSections {
  base_address : Expression;
  section_infos : list SectionOutputInfo;
  custom_by_identity : gmap Identity Z;
  is_partial_link : bool
}.

Definition identity_of (infos : list SectionOutputInfo) (section_id : Z) : res (option Identity) :=
  info ← index infos section_id;
  Ok match kind info with Primary identity => Some identity | Secondary _ => None end.

(** The first of the given sections that has an identity. *)
Fixpoint find_identity (infos : list SectionOutputInfo) (identity : Identity) (bids : list Z) : res (option Z) :=
  match bids with
  | [] => Ok None
  | bid :: bids =>
      i ← identity_of infos bid;
      if bool_decide (i = Some identity) then Ok (Some bid) else find_identity infos identity bids
  end.

(** [OutputSectionMap::add_new]. *)
Definition add_new (info : SectionOutputInfo) (os : OutputSections) : Z * OutputSections :=
  (Z.of_nat (length (section_infos os)), mkOutputSections (base_address os) (section_infos os ++ [info]) (custom_by_identity os) (is_partial_link os)).

Definition set_infos (infos : list SectionOutputInfo) (os : OutputSections) : OutputSections :=
  mkOutputSections (base_address os) infos (custom_by_identity os) (is_partial_link os).

Definition set_identity (identity : Identity) (id : Z) (os : OutputSections) : OutputSections :=
  mkOutputSections (base_address os) (section_infos os) (<[identity := id]> (custom_by_identity os)) (is_partial_link os).

Definition set_base_address (base_address : Expression) (os : OutputSections) : OutputSections :=
  mkOutputSections base_address (section_infos os) (custom_by_identity os) (is_partial_link os).

Definition or_opt {A} (a b : option A) : option A := match a with Some _ => a | None => b end.

(** What a further definition of a section changes. *)
Definition update_info (min_align : Alignment) (region : option (list Z)) (info' : option SectionLocationInfo) (fill' : option (list Z))
    (phdrs' : list (list Z)) (attrs : option SectionAttributes) (info : SectionOutputInfo) : SectionOutputInfo :=
  mkSectionInfo (kind info)
    (match attrs with Some attr => apply_linker_script_attributes attr (attributes info) | None => attributes info end)
    (alignment_max (min_alignment info) min_align)
    (match info' with Some _ => info' | None => location_info info end)
    (secondary_order info)
    (or_opt region (region_name info))
    (or_opt fill' (fill info))
    (match phdrs' with [] => phdrs info | _ => phdrs' end).

Definition add_named_section (identity : Identity) (min_align : Alignment) (region : option (list Z)) (info : option SectionLocationInfo)
    (fill : option (list Z)) (phdrs : list (list Z)) (attrs : option SectionAttributes) (os : OutputSections) : res (Z * OutputSections) :=
  resolved_id ← (if is_partial_link os then Ok None else find_identity (section_infos os) identity (seqZ 0 regular_section_base));
  let update output_id os :=
    infos ← index_update (section_infos os) output_id (update_info min_align region info fill phdrs attrs);
    Ok (output_id, set_infos infos os) in
  match custom_by_identity os !! identity with
  | Some id => update id os
  | None =>
      match resolved_id with
      | Some builtin_id => update builtin_id (set_identity identity builtin_id os)
      | None =>
          let '(new_id, os) := add_new (mkSectionInfo (Primary identity)
            (match attrs with Some attr => apply_linker_script_attributes attr default_attributes | None => default_attributes end)
            min_align info None region fill phdrs) os in
          Ok (new_id, set_identity identity new_id os)
      end
  end.

Definition add_secondary_section (primary_id : Z) (min_align : Alignment) (order : option Z) (info : option SectionLocationInfo) (os : OutputSections) :
    res (Z * OutputSections) :=
  primary_info ← index (section_infos os) primary_id;
  Ok (add_new (mkSectionInfo (Secondary primary_id) (attributes primary_info) min_align (or_opt info (location_info primary_info)) order
    (region_name primary_info) (fill primary_info) []) os).
End Sections.

(** ** The processing of a script *)
Inductive LocationCounter :=
| Absolute (expr : Expression) (loc : SymbolLoc)
| Relative (expr : Expression) (loc : SymbolLoc) (section_id : Z).

(** A symbol definition and whether it is hidden. *)
Record ScriptSymbol := mkScriptSymbol { script_def : InternalSymDefInfo; with_hidden : bool }.

Inductive Architecture := X86_64 | AArch64 | RiscV64 | LoongArch64 | Ppc64 | Unsupported.

#[global] Instance architecture_eq_dec : EqDecision Architecture.
Proof. solve_decision. Defined.

Definition parse_output_format (format : list Z) : Architecture :=
  match strip_prefix (txt "elf64-") format with
  | None => Unsupported
  | Some format =>
      if bool_decide (format = txt "x86-64") then X86_64
      else if bool_decide (format = txt "aarch64") || bool_decide (format = txt "littleaarch64") then AArch64
      else if bool_decide (format = txt "littleriscv") then RiscV64
      else if bool_decide (format = txt "loongarch") then LoongArch64
      else if bool_decide (format = txt "powerpcle") then Ppc64
      else Unsupported
  end.

(** [Some true] for little-endian. *)
Record ScriptArgs := mkScriptArgs { output_format_endian : option bool; architecture : Architecture }.

Definition check_output_format (args : ScriptArgs) (f : OutputFormat) : res unit :=
  let target_format := match output_format_endian args with
    | Some true => default (format_default f) (format_little f)
    | Some false => default (format_default f) (format_big f)
    | None => format_default f
    end in
  let target_arch := parse_output_format target_format in
  if bool_decide (target_arch = Unsupported) then Err "{} is not yet supported"
  else if negb (bool_decide (architecture args = target_arch)) then Err "Setting the output format using OUTPUT_FORMAT is currently unsupported"
  else Ok tt.

Definition loc_for_global_expr (expr : Expression) (section_id : option Z) : SymbolLoc :=
  visit_expressions (fun e loc =>
    match e with
    | SegmentStart _ _ => (false, match section_id with Some section_id => SectionEnd section_id | None => FirstSection end)
    | _ => (true, loc)
    end) expr NoLoc.

Definition script_symbol (name : list Z) (expr : Expression) (loc : SymbolLoc) (hidden : bool) : ScriptSymbol :=
  mkScriptSymbol (mkSymDef (RedirectPlacement (mkRedirect Script expr loc)) name) hidden.

Definition assert_symbol (a : AssertCommand) (loc : SymbolLoc) : ScriptSymbol :=
  script_symbol [] (Assert (assert_expression a) (assert_message a) (assert_remainder a)) loc false.

Section Process.
Context {P : SectionPlatform} {N : Names}.

(** What a script adds to. *)
Record ScriptOut := mkOut {
  rules : list SectionRule;
  output_sections : OutputSections;
  symbol_defs : list ScriptSymbol;
  counters : list LocationCounter
}.

Definition add_section_rule (r : SectionRule) (o : ScriptOut) : ScriptOut := mkOut (rules o ++ [r]) (output_sections o) (symbol_defs o) (counters o).
Definition set_sections (os : OutputSections) (o : ScriptOut) : ScriptOut := mkOut (rules o) os (symbol_defs o) (counters o).
Definition push_symbol (s : ScriptSymbol) (o : ScriptOut) : ScriptOut := mkOut (rules o) (output_sections o) (symbol_defs o ++ [s]) (counters o).
Definition push_counter (c : LocationCounter) (o : ScriptOut) : ScriptOut := mkOut (rules o) (output_sections o) (symbol_defs o) (counters o ++ [c]).

Definition push_rule (pattern : list Z) (file : option (list Z)) (outcome : SectionRuleOutcome) (o : ScriptOut) : res ScriptOut :=
  r ← new pattern file outcome; Ok (add_section_rule r o).

(** *** The contents of a section *)
Record Contents := mkContents { last_section_id : option Z; last_symbol_loc : SymbolLoc; inner_lc_idx : Z; inner_lc_start_idx : Z }.

Definition secondary_range (c : Contents) : SectionLocationInfo := mkLocationInfo (inner_lc_start_idx c, inner_lc_idx c) None None false.

Definition contents_command (primary_section_id : Z) (cmd : ContentsCommand) (st : Contents * ScriptOut) : res (Contents * ScriptOut) :=
  let '(c, o) := st in
  let '(mkContents last_id last_loc idx start) := c in
  match cmd with
  | ContentsMatcher matcher =>
      '(section_id, start, os) ←
        (if bool_decide (last_id = None) && (idx =? start) then Ok (primary_section_id, start, output_sections o)
         else '(id, os) ← add_secondary_section primary_section_id MIN None (Some (secondary_range c)) (output_sections o); Ok (id, idx, os));
      o ← for_each (fun pattern o =>
        push_rule (pattern_name pattern) (ScriptParser.input_file_pattern matcher)
          (section_rule_from_id platform_ids primary_section_id (mkOutputInfo section_id (ScriptParser.must_keep matcher) (pattern_sorted pattern))) o)
        (input_section_name_patterns matcher) (set_sections os o);
      Ok (mkContents (Some section_id) (SectionEndRelative section_id) idx start, o)
  | ContentsSymbolAssignment name expr => Ok (c, push_symbol (script_symbol name expr last_loc false) o)
  | ContentsProvide p => Ok (c, push_symbol (script_symbol (provide_name p) (provide_value p) last_loc (provide_hidden p)) o)
  | ContentsSetLocation address =>
      Ok (mkContents last_id (Layout.LocationCounter idx (Some primary_section_id)) (idx + 1) start,
          push_counter (Relative address last_loc primary_section_id) o)
  | Constructors => Ok (c, o)
  | ContentsAssert a => Ok (c, push_symbol (assert_symbol a last_loc) o)
  end.

(** *** A command of [SECTIONS] *)
Record SectionsState := mkSections {
  out : ScriptOut;
  ordered_sections : list Z;
  current_section_id : option Z;
  loc : SymbolLoc;
  last_lc_idx : Z;
  section_start_lc_idx : Z;
  prev_phdrs : list (list Z)
}.

Definition set_out (o : ScriptOut) (s : SectionsState) : SectionsState :=
  mkSections o (ordered_sections s) (current_section_id s) (loc s) (last_lc_idx s) (section_start_lc_idx s) (prev_phdrs s).

Definition discard_command (cmd : ContentsCommand) (o : ScriptOut) : res ScriptOut :=
  match cmd with
  | ContentsMatcher matcher =>
      for_each (fun pattern => push_rule (pattern_name pattern) (ScriptParser.input_file_pattern matcher) Discard) (input_section_name_patterns matcher) o
  | _ => Err "Illegal use of /DISCARD/ section"
  end.

(** The four bytes of a filler, big-endian. *)
Definition be_bytes (value : Z) : list Z := rev (le_bytes 4 value).

Definition fill_value (fill : option Expression) : res (option (list Z)) :=
  match fill with
  | None => Ok None
  | Some e =>
      value ← evaluate_const e;
      if 2 ^ 32 - 1 <? value then Err "Filler expression result does not fit 32-bit: 0x{:x}" else Ok (Some (be_bytes (wrap 32 value)))
  end.

Definition section_command (num_location_counters : Z) (cmd : SectionCommand) (s : SectionsState) : res SectionsState :=
  match cmd with
  | SectionCommandSection sec =>
      o ← (if bool_decide (output_section_name sec = txt "/DISCARD/") then for_each discard_command (section_commands sec) (out s) else Ok (out s));
      let min_align := alignment_max (default MIN (section_alignment sec)) MIN in
      let info := mkLocationInfo (section_start_lc_idx s, last_lc_idx s) (start_address_expression sec) (at_address sec) true in
      fill ← fill_value (section_fill sec);
      let phdrs := match section_phdrs sec with [] => prev_phdrs s | p => p end in
      match section_identity_from_name (output_section_name sec) with
      | None => Err "Output section `{}` cannot be identified from the name alone"
      | Some name_identity =>
          '(primary_id, os) ← add_named_section name_identity min_align (section_region sec) (Some info) fill phdrs (section_attributes sec) (output_sections o);
          '(c, o) ← for_each (contents_command primary_id) (section_commands sec)
            (mkContents None (SectionStartRelative primary_id) (last_lc_idx s) (last_lc_idx s), set_sections os o);
          os ← (if inner_lc_start_idx c <? inner_lc_idx c then
                  '(_, os) ← add_secondary_section primary_id MIN None (Some (secondary_range c)) (output_sections o); Ok os
                else Ok (output_sections o));
          Ok (mkSections (set_sections os o) (ordered_sections s ++ [primary_id]) (Some primary_id) (SectionEnd primary_id)
            (inner_lc_idx c) (inner_lc_idx c) phdrs)
      end
  | SectionSetLocation address =>
      let o := push_counter (Absolute address (loc s)) (out s) in
      let sets_base := bool_decide (current_section_id s = None) && (num_location_counters =? 0) in
      let o := if sets_base then set_sections (set_base_address address (output_sections o)) o else o in
      Ok (mkSections o (ordered_sections s) (current_section_id s) (Layout.LocationCounter (last_lc_idx s) None) (last_lc_idx s + 1)
        (if sets_base then Z.of_nat (length (counters o)) else section_start_lc_idx s) (prev_phdrs s))
  | SectionAssert a => Ok (set_out (push_symbol (assert_symbol a (loc s)) (out s)) s)
  | SectionProvide p => Ok (set_out (push_symbol (script_symbol (provide_name p) (provide_value p) (loc s) (provide_hidden p)) (out s)) s)
  | SectionSymbolAssignment name expr => Ok (set_out (push_symbol (script_symbol name expr (loc s) false) (out s)) s)
  end.

(** *** A command of the script *)
Record ScriptState := mkScriptState { sections : SectionsState; memory_regions : list MemoryRegion; program_headers : list Phdr }.

Definition add_symbol (y : ScriptSymbol) (s : ScriptState) : ScriptState :=
  mkScriptState (set_out (push_symbol y (out (sections s))) (sections s)) (memory_regions s) (program_headers s).

Definition global_symbol (name : list Z) (expr : Expression) (hidden : bool) (s : ScriptState) : ScriptState :=
  add_symbol (script_symbol name expr (loc_for_global_expr expr (current_section_id (sections s))) hidden) s.

Definition script_command (args : ScriptArgs) (num_location_counters : Z) (cmd : Command) (s : ScriptState) : res ScriptState :=
  match cmd with
  | CommandProvide p => Ok (global_symbol (provide_name p) (provide_value p) (provide_hidden p) s)
  | CommandSymbolDefinition name value => Ok (global_symbol name value false s)
  | CommandSetLocation address => Ok (global_symbol [] address false s)
  | CommandSections commands =>
      let '(mkSections o ordered current l last _ _) := sections s in
      sections ← for_each (section_command num_location_counters) commands (mkSections o ordered current l last last []);
      Ok (mkScriptState sections (memory_regions s) (program_headers s))
  | CommandAssert a => Ok (add_symbol (assert_symbol a (loc_for_global_expr (assert_expression a) None)) s)
  | CommandMemory regions => Ok (mkScriptState (sections s) regions (program_headers s))
  | CommandPhdrs phdrs => Ok (mkScriptState (sections s) (memory_regions s) phdrs)
  | CommandOutputFormat f => check_output_format args f;; Ok s
  | _ => Ok s
  end.

Record LayoutRulesBuilder := mkBuilder { builder_rules : list SectionRule; num_location_counters : Z }.

(** What stays of a script, without its bytes. *)
Record ProcessedLinkerScript := mkProcessed {
  processed_symbols : list ScriptSymbol;
  processed_regions : list MemoryRegion;
  processed_phdrs : list Phdr;
  processed_counters : list LocationCounter;
  processed_sections : list Z
}.

Definition initial_script (self : LayoutRulesBuilder) (os : OutputSections) : ScriptState :=
  let n := num_location_counters self in
  mkScriptState (mkSections (mkOut (builder_rules self) os [] []) [] None FirstSection n n []) [] [].

Definition process_linker_script (args : ScriptArgs) (commands : list Command) (st : LayoutRulesBuilder * OutputSections) :
    res (ProcessedLinkerScript * (LayoutRulesBuilder * OutputSections)) :=
  let '(self, os) := st in
  s ← for_each (script_command args (num_location_counters self)) commands (initial_script self os);
  let o := out (sections s) in
  Ok (mkProcessed (symbol_defs o) (memory_regions s) (program_headers s) (counters o) (ordered_sections (sections s)),
      (mkBuilder (rules o) (num_location_counters self + Z.of_nat (length (counters o))), output_sections o)).

Fixpoint process_linker_scripts (args : ScriptArgs) (scripts : list (list Command)) (st : LayoutRulesBuilder * OutputSections) :
    res (list ProcessedLinkerScript * (LayoutRulesBuilder * OutputSections)) :=
  match scripts with
  | [] => Ok ([], st)
  | commands :: scripts =>
      '(p, st) ← process_linker_script args commands st;
      '(ps, st) ← process_linker_scripts args scripts st;
      Ok (p :: ps, st)
  end.
End Process.

(** ** Ranges of location counters *)
Section Tiling.
Context {P : SectionPlatform} {N : Names}.

Definition range_of (info : SectionOutputInfo) : Z * Z := match location_info info with Some l => location_counters l | None => (0, 0) end.

Definition within (r : Z * Z) (idx : Z) : nat := if (r.1 <=? idx) && (idx <? r.2) then 1%nat else 0%nat.

(** How many sections have a location counter in their range. *)
Fixpoint cover (infos : list SectionOutputInfo) (idx : Z) : nat :=
  match infos with [] => O | info :: infos => (within (range_of info) idx + cover infos idx)%nat end.

Lemma cover_app a b idx : cover (a ++ b) idx = (cover a idx + cover b idx)%nat.
Proof. induction a as [|i a IH]; [done|]. cbn. rewrite IH. lia. Qed.

Lemma within_split a b c idx : a <= b <= c -> within (a, c) idx = (within (a, b) idx + within (b, c) idx)%nat.
Proof. unfold within. cbn. intros H. repeat (case_match; cbn in *; rewrite ?andb_true_iff, ?andb_false_iff, ?Z.leb_le, ?Z.leb_gt, ?Z.ltb_lt, ?Z.ltb_ge in *; try lia). Qed.

Lemma within_empty a b idx : b <= a -> within (a, b) idx = O.
Proof. unfold within. cbn. intros H. destruct (Z.leb_spec a idx), (Z.ltb_spec idx b); cbn; lia || done. Qed.

Lemma cover_insert infos k info info' idx : infos !! k = Some info -> within (range_of info) idx = O ->
  cover (<[k := info']> infos) idx = (cover infos idx + within (range_of info') idx)%nat.
Proof.
  revert k. induction infos as [|i infos IH]; intros k Hk He; [done|]. destruct k as [|k].
  - injection Hk as ->. cbn. rewrite He. lia.
  - change (<[S k:=info']> (i :: infos)) with (i :: <[k:=info']> infos). cbn [cover]. rewrite (IH k Hk He). lia.
Qed.

(** The sections of an identity have no location counters. *)
Definition unplaced (os : OutputSections) (i : Identity) : Prop :=
  forall id info, section_infos os !! id = Some info -> kind info = Primary i -> forall idx, within (range_of info) idx = O.

(** Names lead to sections of their identity, secondary sections to primary ones. *)
Record sections_ok (os : OutputSections) : Prop := {
  named_ok i id : custom_by_identity os !! i = Some id -> 0 <= id /\ exists info, section_infos os !! Z.to_nat id = Some info /\ kind info = Primary i;
  secondary_ok id info p : section_infos os !! id = Some info -> kind info = Secondary p ->
    0 <= p /\ exists info' i, section_infos os !! Z.to_nat p = Some info' /\ kind info' = Primary i
}.

(** What an operation on the table keeps and adds. *)
Record adds (os : OutputSections) (is_ : list Identity) (r : Z * Z) (os' : OutputSections) : Prop := {
  adds_ok : sections_ok os';
  adds_cover idx : cover (section_infos os') idx = (cover (section_infos os) idx + within r idx)%nat;
  adds_kinds id info : section_infos os !! id = Some info -> exists info', section_infos os' !! id = Some info' /\ kind info' = kind info;
  adds_unplaced j : unplaced os j -> j ∉ is_ -> unplaced os' j;
  adds_same : is_partial_link os' = is_partial_link os
}.

Lemma adds_nothing os is_ r : sections_ok os -> r.2 <= r.1 -> adds os is_ r os.
Proof. intros Hos Hr. destruct r as [a b]. split; [done|intros idx; rewrite within_empty by done; lia|eauto|done|done]. Qed.

Lemma adds_trans a b c i j x y z : adds a i (x, y) b -> adds b j (y, z) c -> x <= y <= z -> adds a (i ++ j) (x, z) c.
Proof.
  intros [Ho1 Hc1 Hk1 Hu1 Hp1] [Ho2 Hc2 Hk2 Hu2 Hp2] Hxyz. split; [done| | | |congruence].
  - intros idx. rewrite Hc2, Hc1, (within_split x y z) by done. lia.
  - intros id info (info1 & H1 & E1)%Hk1. destruct (Hk2 _ _ H1) as (info2 & H2 & E2). exists info2. split; [done|congruence].
  - intros k Hk [Hi Hj]%not_elem_of_app. apply Hu2; [by apply Hu1|done].
Qed.

Lemma add_new_lookup info os : section_infos (add_new info os).2 = section_infos os ++ [info] /\ (add_new info os).1 = Z.of_nat (length (section_infos os)).
Proof. done. Qed.

Lemma add_secondary_adds p al ord r os id os' : sections_ok os -> (exists info i, section_infos os !! Z.to_nat p = Some info /\ kind info = Primary i) ->
  add_secondary_section p al ord (Some r) os = Ok (id, os') -> adds os [] (location_counters r) os'.
Proof.
  intros Hos (pinfo & i & Hp & Hi). unfold add_secondary_section. destruct (index _ _) as [info| |] eqn:E; cbn; [|done|done]. intros [= <- <-].
  apply index_ok in E as [H0 E]. split; cbn; [| | | |done].
  - split; cbn.
    + intros j k Hk. destruct (named_ok _ Hos j k Hk) as (Hk0 & x & Hx & Hkx). split; [done|]. exists x. split; [by apply lookup_app_l_Some|done].
    + intros k x q [Hk|[-> ->]]%snoc_lookup Hq.
      * destruct (secondary_ok _ Hos k x q Hk Hq) as (Hq0 & y & j & Hy & Hj). split; [done|]. exists y, j. split; [by apply lookup_app_l_Some|done].
      * injection Hq as <-. split; [done|]. exists pinfo, i. split; [by apply lookup_app_l_Some|done].
  - intros idx. rewrite cover_app. cbn. unfold range_of. cbn. lia.
  - intros k x Hk. exists x. split; [by apply lookup_app_l_Some|done].
  - intros j Hj _ k x [Hk|[-> ->]]%snoc_lookup Hkx; [by eapply Hj|done].
Qed.
End Tiling.

Section Named.
Context {P : SectionPlatform} {N : Names}.

Lemma find_identity_some infos i bids bid : find_identity infos i bids = Ok (Some bid) ->
  0 <= bid /\ exists info, infos !! Z.to_nat bid = Some info /\ kind info = Primary i.
Proof.
  induction bids as [|b bids IH]; cbn; [done|]. unfold identity_of. destruct (index infos b) as [info| |] eqn:E; cbn; [|done|done].
  case_bool_decide as Hi; [|done]. intros [= <-]. apply index_ok in E as [H0 E]. split; [done|]. exists info. split; [done|]. destruct (kind info); by simplify_eq.
Qed.

Lemma update_adds os k info i f r : sections_ok os -> section_infos os !! k = Some info -> kind info = Primary i -> unplaced os i ->
  kind (f info) = kind info -> range_of (f info) = r -> adds os [i] r (set_infos (<[k := f info]> (section_infos os)) os).
Proof.
  intros Hos Hk Hi Hu Hf Hr. pose proof (lookup_lt_Some _ _ _ Hk) as Hlt.
  assert (forall id x, section_infos os !! id = Some x -> exists y, <[k := f info]> (section_infos os) !! id = Some y /\ kind y = kind x) as Hkinds.
  { intros id x Hx. destruct (decide (id = k)) as [->|Hne].
    - exists (f info). rewrite list_lookup_insert_eq by done. split; [done|]. congruence.
    - exists x. by rewrite list_lookup_insert_ne. }
  assert (forall id x, <[k := f info]> (section_infos os) !! id = Some x -> exists y, section_infos os !! id = Some y /\ kind x = kind y /\ (id <> k -> x = y)) as Hback.
  { intros id x Hx. destruct (decide (id = k)) as [->|Hne].
    - rewrite list_lookup_insert_eq in Hx by done. injection Hx as <-. by exists info.
    - rewrite list_lookup_insert_ne in Hx by done. by exists x. }
  split; cbn; [| |done| |done].
  - split; cbn.
    + intros j id Hj. destruct (named_ok _ Hos j id Hj) as (H0 & x & Hx & Hjx). split; [done|]. destruct (Hkinds _ _ Hx) as (y & Hy & E). exists y. split; [done|congruence].
    + intros id x p (y & Hy & E & _)%Hback Hp. rewrite E in Hp. destruct (secondary_ok _ Hos id y p Hy Hp) as (H0 & z & j & Hz & Hj). split; [done|].
      destruct (Hkinds _ _ Hz) as (w & Hw & E'). exists w, j. split; [done|congruence].
  - intros idx. rewrite (cover_insert _ k info) by (done || by eapply Hu). by rewrite Hr.
  - intros j Hj Hji id x Hx Hjx. rewrite list_elem_of_singleton in Hji. destruct (Hback _ _ Hx) as (y & Hy & E & Hne). destruct (decide (id = k)) as [->|Hk'].
    + rewrite Hk in Hy. injection Hy as <-. congruence.
    + rewrite (Hne Hk') in *. by eapply Hj.
Qed.

Lemma add_named_adds i al region r fill phdrs attrs os id os' : sections_ok os -> unplaced os i ->
  add_named_section i al region (Some r) fill phdrs attrs os = Ok (id, os') ->
  adds os [i] (location_counters r) os' /\ exists info, section_infos os' !! Z.to_nat id = Some info /\ kind info = Primary i.
Proof.
  intros Hos Hu. unfold add_named_section.
  assert (forall bid os1, sections_ok os1 -> unplaced os1 i -> section_infos os1 = section_infos os -> is_partial_link os1 = is_partial_link os ->
    0 <= bid -> (exists info, section_infos os !! Z.to_nat bid = Some info /\ kind info = Primary i) ->
    (infos ← index_update (section_infos os1) bid (update_info al region (Some r) fill phdrs attrs); Ok (bid, set_infos infos os1)) = Ok (id, os') ->
    adds os [i] (location_counters r) os' /\ exists info, section_infos os' !! Z.to_nat id = Some info /\ kind info = Primary i) as Hupd.
  { intros bid os1 Hos1 Hu1 Hi1 Hp1 H0 (info & Hin & Hk). unfold index_update, index. rewrite Hi1, decide_True, Hin by done. cbn [mbind res_bind]. intros [= <- <-].
    rewrite <- Hi1 in Hin. pose proof (update_adds os1 _ info i (update_info al region (Some r) fill phdrs attrs) (location_counters r) Hos1 Hin Hk Hu1 eq_refl eq_refl) as [A B C D E].
    rewrite Hi1 in *. split; [|exists (update_info al region (Some r) fill phdrs attrs info); split; [|done]].
    - split; cbn in *; [done|intros idx; by rewrite B|done| |congruence]. intros j Hj Hji. apply D; [|done]. intros k x Hx. rewrite Hi1 in Hx. exact (Hj k x Hx).
    - cbn. apply list_lookup_insert_eq. by eapply lookup_lt_Some. }
  destruct (if is_partial_link os then Ok None else find_identity (section_infos os) i (seqZ 0 regular_section_base)) as [resolved| |] eqn:Er; cbn [mbind res_bind]; [|done|done].
  destruct (custom_by_identity os !! i) as [nid|] eqn:En.
  { destruct (named_ok _ Hos i nid En) as [H0 Hin]. by apply (Hupd nid os). }
  destruct resolved as [bid|].
  - destruct (is_partial_link os) eqn:Epl; [done|]. destruct (find_identity_some _ _ _ _ Er) as [H0 (info & Hin & Hk)]. intros H.
    refine (Hupd bid (set_identity i bid os) _ Hu eq_refl Epl H0 _ H); [|by exists info]. split; cbn; [|apply (secondary_ok _ Hos)].
    intros j k [[<- <-]|[Hne Hj]]%lookup_insert_Some; [split; [done|by exists info]|by apply (named_ok _ Hos)].
  - cbn. intros [= <- <-]. set (info := mkSectionInfo _ _ _ _ _ _ _ _). split.
    + split; cbn; [| | | |done].
      * split; cbn.
        -- intros j k [[<- <-]|[Hne Hj]]%lookup_insert_Some.
           ++ split; [lia|]. exists info. rewrite Nat2Z.id. split; [by apply list_lookup_middle|done].
           ++ destruct (named_ok _ Hos j k Hj) as (H0 & x & Hx & Hk). split; [done|]. exists x. split; [by apply lookup_app_l_Some|done].
        -- intros k x p [Hk|[-> ->]]%snoc_lookup Hp; [|done]. destruct (secondary_ok _ Hos k x p Hk Hp) as (H0 & y & j & Hy & Hj).
           split; [done|]. exists y, j. split; [by apply lookup_app_l_Some|done].
      * intros idx. rewrite cover_app. cbn. unfold range_of. cbn. lia.
      * intros k x Hk. exists x. split; [by apply lookup_app_l_Some|done].
      * intros j Hj Hji k x [Hk|[-> ->]]%snoc_lookup Hkx; [by eapply Hj|]. cbn in Hkx. rewrite list_elem_of_singleton in Hji. congruence.
    + exists info. cbn. rewrite Nat2Z.id. split; [by apply list_lookup_middle|done].
Qed.
End Named.

Section Script.
Context {P : SectionPlatform} {N : Names}.

Lemma push_rules_keep {A} (f : A -> list Z) (g : A -> option (list Z)) (h : A -> SectionRuleOutcome) l : forall o o',
  for_each (fun x => push_rule (f x) (g x) (h x)) l o = Ok o' -> output_sections o' = output_sections o /\ counters o' = counters o.
Proof.
  induction l as [|x l IH]; intros o o' H; cbn in H; [by injection H as <-|].
  destruct (push_rule (f x) (g x) (h x) o) as [o1| |] eqn:E; cbn in H; [|done|done]. destruct (IH _ _ H) as [H1 H2].
  unfold push_rule in E. destruct (new _ _ _); cbn in E; [|done|done]. by injection E as <-.
Qed.

Definition has_primary (os : OutputSections) (id : Z) : Prop := exists info i, section_infos os !! Z.to_nat id = Some info /\ kind info = Primary i.

Lemma adds_has_primary os l r os' id : adds os l r os' -> has_primary os id -> has_primary os' id.
Proof. intros H (info & i & Hi & Hk). destruct (adds_kinds _ _ _ _ H _ _ Hi) as (info' & Hi' & E). exists info', i. split; [done|congruence]. Qed.

Definition inner_ok (c : Contents) : Prop := inner_lc_start_idx c <= inner_lc_idx c.

(** What a command adds to the range of its section. *)
Definition contents_adds (c : Contents) (o : ScriptOut) (c' : Contents) (o' : ScriptOut) : Prop :=
  adds (output_sections o) [] (inner_lc_start_idx c, inner_lc_start_idx c') (output_sections o') /\
  inner_lc_start_idx c <= inner_lc_start_idx c' /\ inner_ok c' /\
  inner_lc_idx c' - inner_lc_idx c = Z.of_nat (length (counters o')) - Z.of_nat (length (counters o)).

Lemma contents_step p cmd c o c' o' : sections_ok (output_sections o) -> has_primary (output_sections o) p -> inner_ok c ->
  contents_command p cmd (c, o) = Ok (c', o') -> contents_adds c o c' o'.
Proof.
  intros Hos Hp Hc. destruct c as [last_id last_loc idx start]. unfold inner_ok, contents_adds in *. cbn in Hc.
  unfold inner_ok. destruct cmd as [m|name expr|pv|address| |a]; cbn; [|intros [= <- <-]..].
  - destruct (bool_decide (last_id = None) && (idx =? start)).
    + cbn. destruct (for_each _ _ _) as [o1| |] eqn:E; cbn; [|done|done]. intros [= <- <-]. apply push_rules_keep in E as [-> ->]. cbn.
      split_and!; [apply adds_nothing; [done|cbn; lia]|lia|done|lia].
    + destruct (add_secondary_section _ _ _ _ _) as [[id os']| |] eqn:Es; cbn; [|done|done].
      destruct (for_each _ _ _) as [o1| |] eqn:E; cbn; [|done|done]. intros [= <- <-]. apply push_rules_keep in E as [-> ->]. cbn.
      split_and!; [by apply (add_secondary_adds _ _ _ _ _ _ _ Hos Hp Es)|cbn; lia..].
  - cbn. split_and!; [apply adds_nothing; [done|cbn; lia]|cbn; lia..].
  - cbn. split_and!; [apply adds_nothing; [done|cbn; lia]|cbn; lia..].
  - cbn. rewrite length_app. cbn. split_and!; [apply adds_nothing; [done|cbn; lia]|cbn; lia..].
  - cbn. split_and!; [apply adds_nothing; [done|cbn; lia]|cbn; lia..].
  - cbn. split_and!; [apply adds_nothing; [done|cbn; lia]|cbn; lia..].
Qed.

Lemma contents_all p cmds : forall c o c' o', sections_ok (output_sections o) -> has_primary (output_sections o) p -> inner_ok c ->
  for_each (contents_command p) cmds (c, o) = Ok (c', o') -> contents_adds c o c' o'.
Proof.
  induction cmds as [|cmd cmds IH]; intros c o c' o' Hos Hp Hc H; cbn [for_each] in H.
  - injection H as <- <-. split_and!; [apply adds_nothing; [done|cbn; lia]|lia|done|lia].
  - destruct (contents_command p cmd (c, o)) as [[c1 o1]| |] eqn:E; cbn [mbind res_bind] in H; [|done|done].
    destruct (contents_step _ _ _ _ _ _ Hos Hp Hc E) as (A1 & L1 & K1 & N1).
    destruct (IH _ _ _ _ (adds_ok _ _ _ _ A1) (adds_has_primary _ _ _ _ _ A1 Hp) K1 H) as (A2 & L2 & K2 & N2).
    split_and!; [by eapply (adds_trans _ _ _ [] [])|lia|done|lia].
Qed.

Lemma discards_keep cmds : forall o o', for_each discard_command cmds o = Ok o' -> output_sections o' = output_sections o /\ counters o' = counters o.
Proof.
  induction cmds as [|cmd cmds IH]; intros o o' H; cbn [for_each] in H; [by injection H as <-|].
  destruct (discard_command cmd o) as [o1| |] eqn:E; cbn [mbind res_bind] in H; [|done|done]. destruct cmd; try done.
  apply push_rules_keep in E as [E1 E2]. destruct (IH _ _ H) as [H1 H2]. split; congruence.
Qed.

(** The identities a list of commands defines. *)
Definition identity_of_command (cmd : SectionCommand) : option Identity :=
  match cmd with SectionCommandSection sec => section_identity_from_name (output_section_name sec) | _ => None end.

Definition identities (cmds : list SectionCommand) : list Identity := omap identity_of_command cmds.

(** [b] is the first location counter that the sections so far do not have. *)
Record state_ok (n : Z) (s : SectionsState) : Prop := {
  state_sections : sections_ok (output_sections (out s));
  state_start : section_start_lc_idx s <= last_lc_idx s;
  state_last : last_lc_idx s = n + Z.of_nat (length (counters (out s)))
}.

Definition infos_of (s : SectionsState) : OutputSections := output_sections (out s).

Lemma section_step n sec i s s' : state_ok n s -> section_identity_from_name (output_section_name sec) = Some i -> unplaced (infos_of s) i ->
  section_command n (SectionCommandSection sec) s = Ok s' ->
  adds (infos_of s) [i] (section_start_lc_idx s, section_start_lc_idx s') (infos_of s') /\ section_start_lc_idx s <= section_start_lc_idx s' /\
  state_ok n s' /\ current_section_id s' <> None.
Proof.
  intros [Hos Hst Hlast] Hi Hu. unfold infos_of in *. cbn [section_command].
  destruct (if bool_decide _ then _ else _) as [o| |] eqn:Ed; cbn [mbind res_bind]; [|done|done].
  assert (output_sections o = output_sections (out s) /\ counters o = counters (out s)) as [Ho1 Ho2].
  { case_bool_decide; [by apply discards_keep in Ed|by injection Ed as <-]. }
  destruct (fill_value _) as [fillv| |]; cbn [mbind res_bind]; [|done|done]. rewrite Hi, Ho1.
  destruct (add_named_section _ _ _ _ _ _ _ _) as [[id os]| |] eqn:En; cbn [mbind res_bind]; [|done|done].
  destruct (add_named_adds _ _ _ _ _ _ _ _ _ _ Hos Hu En) as [A1 (info & Hin & Hk)]. cbn [location_counters] in A1.
  destruct (for_each (contents_command id) (section_commands sec) _) as [[c o1]| |] eqn:Ec; cbn [mbind res_bind]; [|done|done].
  destruct (contents_all id _ (mkContents None (SectionStartRelative id) (last_lc_idx s) (last_lc_idx s)) (set_sections os o) _ _ (adds_ok _ _ _ _ A1) ltac:(by exists info, i) ltac:(unfold inner_ok; cbn; lia) Ec) as (A2 & L2 & K2 & N2). cbn in A2, L2, N2. unfold inner_ok in K2.
  pose proof (adds_trans _ _ _ _ _ _ _ _ A1 A2 ltac:(lia)) as A12. cbn [app] in A12.
  destruct (if inner_lc_start_idx c <? inner_lc_idx c then _ else _) as [os'| |] eqn:Et; cbn [mbind res_bind]; [|done|done]. intros [= <-]. cbn.
  assert (adds (output_sections o1) [] (inner_lc_start_idx c, inner_lc_idx c) os') as A3.
  { destruct (Z.ltb_spec (inner_lc_start_idx c) (inner_lc_idx c)).
    - destruct (add_secondary_section _ _ _ _ _) as [[id2 os2]| |] eqn:E2; cbn in Et; [|done|done]. injection Et as <-.
      apply (add_secondary_adds _ _ _ _ _ _ _ (adds_ok _ _ _ _ A12) (adds_has_primary _ _ _ _ id A2 ltac:(by exists info, i)) E2).
    - injection Et as <-. apply adds_nothing; [apply (adds_ok _ _ _ _ A12)|cbn; lia]. }
  pose proof (adds_trans _ _ _ _ _ _ _ _ A12 A3 ltac:(lia)) as A. rewrite app_nil_r in A. split_and!; [done|lia| |done].
  split; cbn; [apply (adds_ok _ _ _ _ A)|lia|]. rewrite Ho2 in N2. lia.
Qed.

Lemma section_without_identity n sec s : section_identity_from_name (output_section_name sec) = None -> ~ is_Ok (section_command n (SectionCommandSection sec) s).
Proof.
  intros Hi [s' H]. cbn [section_command] in H. destruct (if bool_decide _ then _ else _) as [o| |]; cbn [mbind res_bind] in H; [|done|done].
  destruct (fill_value _); cbn [mbind res_bind] in H; [|done|done]. by rewrite Hi in H.
Qed.

Lemma adds_same_infos os os' r : sections_ok os -> section_infos os' = section_infos os -> custom_by_identity os' = custom_by_identity os ->
  is_partial_link os' = is_partial_link os -> r.2 <= r.1 -> adds os [] r os'.
Proof.
  intros [Hn Hs] Hi Hc Hp Hr. destruct r as [a b]. split; [split; rewrite ?Hi, ?Hc; done|intros idx; rewrite Hi, within_empty by done; lia|rewrite Hi; eauto| |done].
  intros j Hj _ id info. rewrite Hi. apply Hj.
Qed.

Definition is_set_location (cmd : SectionCommand) : bool := match cmd with SectionSetLocation _ => true | _ => false end.

(** The location counters that are set before the first section. *)
Fixpoint leading (cmds : list SectionCommand) : Z :=
  match cmds with
  | [] => 0
  | SectionCommandSection _ :: _ => 0
  | cmd :: cmds => (if is_set_location cmd then 1 else 0) + leading cmds
  end.

Lemma leading_nonneg cmds : 0 <= leading cmds.
Proof. induction cmds as [|[] cmds IH]; cbn in *; lia. Qed.

Lemma other_step n cmd s s' : state_ok n s -> (forall sec, cmd <> SectionCommandSection sec) -> section_command n cmd s = Ok s' ->
  adds (infos_of s) [] (section_start_lc_idx s, section_start_lc_idx s) (infos_of s') /\ state_ok n s' /\ current_section_id s' = current_section_id s /\
  last_lc_idx s' = last_lc_idx s + (if is_set_location cmd then 1 else 0) /\
  section_start_lc_idx s' = (if is_set_location cmd && bool_decide (current_section_id s = None) && (n =? 0) then last_lc_idx s' else section_start_lc_idx s).
Proof.
  intros [Hos Hst Hlast] Hne. unfold infos_of. destruct cmd as [sec|address|a|p|name expr]; [by destruct (Hne sec)| | | |]; cbn; intros [= <-]; cbn.
  1: destruct (bool_decide (current_section_id s = None)), (Z.eqb_spec n 0); cbn; rewrite ?length_app; cbn.
  all: split_and!; try done; try lia.
  all: try (apply adds_same_infos; cbn; [done..|lia]).
  all: split; cbn; rewrite ?length_app; cbn; try lia; try done.
  by destruct Hos.
Qed.

Definition fresh (cmds : list SectionCommand) (os : OutputSections) : Prop :=
  NoDup (identities cmds) /\ forall i, i ∈ identities cmds -> unplaced os i.

Lemma fresh_after cmd cmds os l r os' : fresh (cmd :: cmds) os -> adds os l r os' -> (forall i, i ∈ l -> identity_of_command cmd = Some i) -> fresh cmds os'.
Proof.
  unfold fresh, identities. cbn. intros [Hd Hu] A Hl. destruct (identity_of_command cmd) as [i|] eqn:Ei.
  - apply NoDup_cons in Hd as [Hni Hd]. split; [done|]. intros j Hj. apply (adds_unplaced _ _ _ _ A); [apply Hu; by right|].
    intros Hjl. apply Hl in Hjl. injection Hjl as ->. done.
  - split; [done|]. intros j Hj. apply (adds_unplaced _ _ _ _ A); [by apply Hu|]. intros Hjl. by apply Hl in Hjl.
Qed.

Lemma section_or_not cmd : (exists sec, cmd = SectionCommandSection sec) \/ (forall sec, cmd <> SectionCommandSection sec).
Proof. destruct cmd; [left; by eexists|by right..]. Qed.

Lemma commands_after n cmds : forall s s', state_ok n s -> (current_section_id s <> None \/ n <> 0) -> fresh cmds (infos_of s) ->
  for_each (section_command n) cmds s = Ok s' ->
  adds (infos_of s) (identities cmds) (section_start_lc_idx s, section_start_lc_idx s') (infos_of s') /\ section_start_lc_idx s <= section_start_lc_idx s' /\ state_ok n s'.
Proof.
  induction cmds as [|cmd cmds IH]; intros s s' Hs Hc Hf H; cbn [for_each] in H.
  { injection H as <-. split_and!; [apply adds_nothing; [by destruct Hs|cbn; lia]|lia|done]. }
  destruct (section_command n cmd s) as [s1| |] eqn:E; cbn [mbind res_bind] in H; [|done|done].
  assert (exists l, (forall i, i ∈ l -> identity_of_command cmd = Some i) /\ l ++ identities cmds = identities (cmd :: cmds) /\
    adds (infos_of s) l (section_start_lc_idx s, section_start_lc_idx s1) (infos_of s1) /\ section_start_lc_idx s <= section_start_lc_idx s1 /\
    state_ok n s1 /\ (current_section_id s1 <> None \/ n <> 0)) as (l & Hl & Hid & A1 & L1 & Hs1 & Hc1).
  { destruct (section_or_not cmd) as [[sec ->]|Hne].
    - destruct (section_identity_from_name (output_section_name sec)) as [i|] eqn:Ei; [|exfalso; apply (section_without_identity n sec s Ei); by exists s1].
      destruct (section_step n sec i s s1 Hs Ei) as (A & L & Hs1 & Hcur); [apply (proj2 Hf); unfold identities; cbn; rewrite Ei; by left|done|].
      exists [i]. split_and!; [intros j ->%list_elem_of_singleton; done|unfold identities; cbn; by rewrite Ei|done|done|done|by left].
    - destruct (other_step n cmd s s1 Hs) as (A & Hs1 & Hcur & _ & Hst); [exact Hne|done|].
      assert (section_start_lc_idx s1 = section_start_lc_idx s) as Hst'.
      { rewrite Hst. destruct Hc as [Hc|Hc]; [rewrite bool_decide_eq_false_2 by done; by rewrite andb_false_r|]. rewrite (proj2 (Z.eqb_neq n 0)) by done. by rewrite andb_false_r. }
      exists []. rewrite Hst'. split_and!; [by intros i Hi%elem_of_nil|unfold identities; cbn; destruct cmd as [sec| | | |]; try done; by destruct (Hne sec)|done|lia|done|].
      destruct Hc; [left; congruence|by right]. }
  destruct (IH s1 s' Hs1 Hc1 (fresh_after _ _ _ _ _ _ Hf A1 Hl) H) as (A2 & L2 & Hs2). rewrite <- Hid. split_and!; [by eapply adds_trans|lia|done].
Qed.
End Script.

Section Tile.
Context {P : SectionPlatform} {N : Names}.

Lemma adds_shift os l a os' b : adds os l (a, a) os' -> adds os l (b, b) os'.
Proof. intros [Ho Hc Hk Hu Hp]. split; [done| |done|done|done]. intros idx. rewrite Hc. by rewrite !within_empty by lia. Qed.

Lemma commands_from_zero cmds : forall s s', state_ok 0 s -> current_section_id s = None -> section_start_lc_idx s = last_lc_idx s -> fresh cmds (infos_of s) ->
  for_each (section_command 0) cmds s = Ok s' ->
  adds (infos_of s) (identities cmds) (last_lc_idx s + leading cmds, section_start_lc_idx s') (infos_of s') /\
  last_lc_idx s + leading cmds <= section_start_lc_idx s' /\ state_ok 0 s'.
Proof.
  induction cmds as [|cmd cmds IH]; intros s s' Hs Hc Hst Hf H.
  { cbn in H. injection H as <-. cbn. split_and!; [apply adds_nothing; [by destruct Hs|cbn; lia]|lia|done]. }
  destruct (section_or_not cmd) as [[sec ->]|Hne].
  { destruct (section_command 0 (SectionCommandSection sec) s) as [s1| |] eqn:E; cbn [for_each] in H; rewrite E in H; cbn [mbind res_bind] in H; [|done|done].
    destruct (section_identity_from_name (output_section_name sec)) as [i|] eqn:Ei; [|exfalso; apply (section_without_identity 0 sec s Ei); by exists s1].
    assert (unplaced (infos_of s) i) as Hu by (apply (proj2 Hf); unfold identities; cbn; rewrite Ei; by left).
    destruct (section_step 0 sec i s s1 Hs Ei Hu E) as (A & L & Hs1 & Hcur).
    assert (fresh cmds (infos_of s1)) as Hf1 by (eapply fresh_after; [done|done|]; intros j ->%list_elem_of_singleton; done).
    destruct (commands_after 0 cmds s1 s' Hs1 (or_introl Hcur) Hf1 H) as (A2 & L2 & Hs2). cbn [leading]. rewrite Z.add_0_r, <- Hst.
    assert (identities (SectionCommandSection sec :: cmds) = [i] ++ identities cmds) as -> by (unfold identities; cbn; by rewrite Ei).
    split_and!; [by eapply adds_trans|lia|done]. }
  cbn [for_each] in H. destruct (section_command 0 cmd s) as [s1| |] eqn:E; cbn [mbind res_bind] in H; [|done|done].
  destruct (other_step 0 cmd s s1 Hs Hne E) as (A & Hs1 & Hcur & Hlast & Hst1). rewrite bool_decide_eq_true_2, Z.eqb_refl, !andb_true_r in Hst1 by done.
  destruct (IH s1 s' Hs1) as (A2 & L2 & Hs2); [congruence|destruct (is_set_location cmd); lia|eapply fresh_after; [done|done|by intros i Hi%elem_of_nil]|done|].
  assert (identities (cmd :: cmds) = [] ++ identities cmds) as -> by (unfold identities; cbn; destruct cmd as [sec| | | |]; try done; by destruct (Hne sec)).
  assert (leading (cmd :: cmds) = (if is_set_location cmd then 1 else 0) + leading cmds) as -> by (destruct cmd as [sec| | | |]; try done; by destruct (Hne sec)).
  rewrite Z.add_assoc, <- Hlast. split_and!; [|lia|done]. eapply adds_trans; [by eapply adds_shift|done|lia].
Qed.

Definition is_sections (cmd : Command) : bool := match cmd with CommandSections _ => true | _ => false end.

(** The part of the state that sections and location counters are in. *)
Definition same_sections (s s' : SectionsState) : Prop :=
  infos_of s' = infos_of s /\ counters (out s') = counters (out s) /\ current_section_id s' = current_section_id s /\ last_lc_idx s' = last_lc_idx s.

Lemma other_commands args n cmds : forall s s', forallb (fun c => negb (is_sections c)) cmds = true -> for_each (script_command args n) cmds s = Ok s' ->
  same_sections (sections s) (sections s').
Proof.
  induction cmds as [|cmd cmds IH]; intros s s' Hn H; cbn in Hn, H; [injection H as <-; done|]. apply andb_true_iff in Hn as [Hcmd Hn].
  destruct (script_command args n cmd s) as [s1| |] eqn:E; cbn in H; [|done|done]. destruct (IH s1 s' Hn H) as (H1 & H2 & H3 & H4).
  assert (same_sections (sections s) (sections s1)) as (E1 & E2 & E3 & E4).
  { destruct cmd; cbn in Hcmd, E; try done; try (by injection E as <-). destruct (check_output_format args f); cbn in E; [|done|done]. by injection E as <-. }
  unfold same_sections, infos_of in *. split_and!; congruence.
Qed.
End Tile.

(** C6. The ranges of location counters that a script with one SECTIONS command gives to its
    sections, when no section is defined twice, have no overlap and no gap: each location
    counter from the first section to the last is in the range of exactly one section.  In the
    first script the location counters before the first section are left out, as the base
    address. *)
Theorem script_counters_tile {P : SectionPlatform} {N : Names} args pre cmds post self os p self' os' :
  forallb (fun c => negb (is_sections c)) (pre ++ post) = true -> sections_ok os -> fresh cmds os -> 0 <= num_location_counters self ->
  process_linker_script args (pre ++ CommandSections cmds :: post) (self, os) = Ok (p, (self', os')) ->
  num_location_counters self' = num_location_counters self + Z.of_nat (length (processed_counters p)) /\ sections_ok os' /\
  let first := num_location_counters self + (if num_location_counters self =? 0 then leading cmds else 0) in
  exists last, first <= last <= num_location_counters self' /\
    forall idx, cover (section_infos os') idx = (cover (section_infos os) idx + within (first, last) idx)%nat.
Proof.
  rewrite forallb_app, andb_true_iff. intros [Hpre Hpost] Hos Hf H0. unfold process_linker_script. set (n := num_location_counters self) in *. rewrite for_each_app.
  destruct (for_each _ pre _) as [s1| |] eqn:E1; cbn [mbind res_bind]; [|done|done]. apply other_commands in E1 as (I1 & C1 & Cur1 & L1); [|done].
  cbn [for_each]. destruct (script_command _ _ _ s1) as [s2| |] eqn:E2; cbn [mbind res_bind]; [|done|done].
  destruct (for_each _ post s2) as [s3| |] eqn:E3; cbn [mbind res_bind]; [|done|done]. apply other_commands in E3 as (I3 & C3 & Cur3 & L3); [|done].
  intros [= <- <- <-]. cbn [num_location_counters processed_counters]. unfold infos_of in *. cbn in I1, C1, Cur1, L1. fold n in L1.
  rewrite I3, C3. destruct s1 as [[o1 ord1 cur1 l1 last1 st1 ph1] reg1 hd1]. cbn in I1, C1, Cur1, L1, E2. subst cur1 last1.
  set (s := mkSections o1 ord1 None l1 n n []) in *. destruct (for_each _ cmds s) as [t| |] eqn:Et; cbn [mbind res_bind] in E2; [|done|done]. injection E2 as <-. cbn [sections].
  assert (state_ok n s) as Hs by (split; cbn; [by rewrite I1|lia|rewrite C1; cbn; lia]).
  assert (infos_of s = os) as Hi by (unfold infos_of; cbn; done). split; [done|]. cbn beta zeta.
  destruct (Z.eqb_spec n 0) as [Hn|Hn].
  - rewrite Hn in *. destruct (commands_from_zero cmds s t Hs eq_refl eq_refl ltac:(by rewrite Hi) Et) as (A & L & Ht). rewrite Hi in A. cbn in A, L. rewrite Hn in A, L.
    split; [apply (adds_ok _ _ _ _ A)|]. exists (section_start_lc_idx t). pose proof (state_start _ _ Ht). pose proof (state_last _ _ Ht).
    split; [lia|]. intros idx. apply (adds_cover _ _ _ _ A).
  - destruct (commands_after n cmds s t Hs (or_intror Hn) ltac:(by rewrite Hi) Et) as (A & L & Ht). rewrite Hi in A. cbn in A, L. rewrite Z.add_0_r.
    split; [apply (adds_ok _ _ _ _ A)|]. exists (section_start_lc_idx t). pose proof (state_start _ _ Ht). pose proof (state_last _ _ Ht).
    split; [lia|]. intros idx. apply (adds_cover _ _ _ _ A).
Qed.

(** ** A script *)
Module Example.
#[local] Existing Instance elf.
#[local] Existing Instance VersionScript.Example.names.

Definition pattern (n : String.string) : ContentsCommand := ContentsMatcher (mkMatcher false None [mkSectionPattern (txt n) false]).

Definition section (n : String.string) (contents : list ContentsCommand) : SectionCommand :=
  SectionCommandSection (mkOutputSection (txt n) contents None None [] None None None None).

Definition step (n : Z) : Expression := Add Expressions.LocationCounter (Number n).

(** [. = 0x1000; .a : { *(.a); . = . + 16; *(.b) } . = 0x2000; .c : { *(.c) } . = 0x3000;] *)
Definition commands : list SectionCommand :=
  [SectionSetLocation (Number 4096); section ".a" [pattern ".a"; ContentsSetLocation (step 16); pattern ".b"];
   SectionSetLocation (Number 8192); section ".c" [pattern ".c"]; SectionSetLocation (Number 12288)].

Definition built_in (name : list Z) : SectionOutputInfo :=
  mkSectionInfo (Primary (name : Identity)) (default_attributes) MIN None None None None [].

Definition sections : OutputSections := mkOutputSections (Number 0) (replicate 34 (built_in [])) ∅ false.

Definition builder : LayoutRulesBuilder := mkBuilder [] 0.

Definition args : ScriptArgs := mkScriptArgs None X86_64.

Definition processed (commands : list Command) : ProcessedLinkerScript * (LayoutRulesBuilder * OutputSections) :=
  match process_linker_script args commands (builder, sections) with Ok r => r | _ => (mkProcessed [] [] [] [] [], (builder, sections)) end.

Definition result := processed [CommandSections commands].

(** The ranges of the sections after the built-in ones. *)
Definition ranges (os : OutputSections) : list (Z * Z) := map range_of (drop 34 (section_infos os)).

Lemma example_ranges : ranges result.2.2 = [(1, 1); (1, 2); (2, 3)] /\ num_location_counters result.2.1 = 4.
Proof. by vm_compute. Qed.

Lemma sections_are_ok : sections_ok sections.
Proof.
  split; [by intros i id H|]. intros id info p Hi. unfold sections in Hi. cbn [section_infos] in Hi. by apply lookup_replicate in Hi as [-> _].
Qed.

Lemma commands_are_fresh : fresh commands sections.
Proof.
  split; [by apply (bool_decide_unpack _); vm_compute|]. intros i _ id info Hi _ idx. unfold sections in Hi. cbn [section_infos] in Hi.
  apply lookup_replicate in Hi as [-> _]. unfold within, range_of. cbn. by destruct (Z.leb_spec 0 idx), (Z.ltb_spec idx 0); try lia.
Qed.
End Example.
#[local] Existing Instance elf.
#[local] Existing Instance VersionScript.Example.names.

Lemma script_counters_tile_witness :
  num_location_counters Example.result.2.1 = 0 + Z.of_nat (length (processed_counters Example.result.1)) /\ sections_ok Example.result.2.2 /\
  exists last, 1 <= last <= num_location_counters Example.result.2.1 /\
    forall idx, cover (section_infos Example.result.2.2) idx = (cover (section_infos Example.sections) idx + within (1%Z, last) idx)%nat.
Proof.
  apply (script_counters_tile Example.args [] Example.commands [] Example.builder Example.sections Example.result.1 Example.result.2.1 Example.result.2.2).
  - done.
  - apply Example.sections_are_ok.
  - apply Example.commands_are_fresh.
  - done.
  - by vm_compute.
Defined.
