(* ===== verification/Segments.v ===== *)
(** Segments: what the order of an output file asks of a platform ([SegmentPlatform]), and the
    answer for ELF: [ProgramSegmentDef], [PROGRAM_SEGMENT_DEFS], [SECTION_DEFINITIONS] and
    [program_segment_should_include_section] of [libjdxld/src/elf.rs].

    Of [BuiltInSectionDetails] the sizes of entries and the links between sections are left
    out: the order does not read them.  Constants of the ELF format ([sht], [shf], [pt]) are
    numbers.
    [loads_partition] says that each allocated section belongs to exactly one load segment. *)
From Stdlib Require Import ZArith Lia.
From stdpp Require Import base list list_numbers numbers strings option gmap.
From S2P Require Import Prelude Alignment Layout Expressions Parsers ScriptExpressions ScriptParser VersionScript SectionRules ScriptSections.

Local Open Scope Z_scope.

Class SegmentPlatform {P : SectionPlatform} := {
  SegmentDef : Type;
  seg_is_loadable : SegmentDef -> bool;
  seg_is_writable : SegmentDef -> bool;
  seg_is_executable : SegmentDef -> bool;
  should_cut_rw_segment_when_ending : SegmentDef -> bool;
  program_segment_should_include_section : SegmentDef -> SectionOutputInfo -> Z -> bool -> bool;
  program_segment_defs : list SegmentDef;
  unconditional_segment_defs : list SegmentDef;
  attr_is_alloc : Attributes -> bool;
  attr_is_executable : Attributes -> bool;
  attr_is_tls : Attributes -> bool;
  attr_is_no_bits : Attributes -> bool;
  attr_is_writable : Attributes -> bool;
  num_built_in_sections : Z
}.

(** ** ELF *)
Definition SHT_NULL := 0.
Definition SHT_PROGBITS := 1.
Definition SHT_SYMTAB := 2.
Definition SHT_STRTAB := 3.
Definition SHT_RELA := 4.
Definition SHT_HASH := 5.
Definition SHT_DYNAMIC := 6.
Definition SHT_NOTE := 7.
Definition SHT_NOBITS := 8.
Definition SHT_DYNSYM := 11.
Definition SHT_INIT_ARRAY := 14.
Definition SHT_FINI_ARRAY := 15.
Definition SHT_PREINIT_ARRAY := 16.
Definition SHT_SYMTAB_SHNDX := 18.
Definition SHT_RELR := 19.
Definition SHT_GNU_SFRAME := 0x6ffffff4.
Definition SHT_GNU_HASH := 0x6ffffff6.
Definition SHT_GNU_VERDEF := 0x6ffffffd.
Definition SHT_GNU_VERNEED := 0x6ffffffe.
Definition SHT_GNU_VERSYM := 0x6fffffff.
Definition SHT_RISCV_ATTRIBUTES := 0x70000003.
Definition SHF_WRITE := 1.
Definition SHF_ALLOC := 2.
Definition SHF_EXECINSTR := 4.
Definition SHF_MERGE := 16.
Definition SHF_STRINGS := 32.
Definition SHF_INFO_LINK := 64.
Definition SHF_TLS := 1024.
Definition PT_LOAD := 1.
Definition PT_DYNAMIC := 2.
Definition PT_INTERP := 3.
Definition PT_NOTE := 4.
Definition PT_PHDR := 6.
Definition PT_TLS := 7.
Definition PT_GNU_EH_FRAME := 0x6474e550.
Definition PT_GNU_STACK := 0x6474e551.
Definition PT_GNU_RELRO := 0x6474e552.
Definition PT_GNU_PROPERTY := 0x6474e553.
Definition PT_GNU_SFRAME := 0x6474e554.
Definition PT_RISCV_ATTRIBUTES := 0x70000003.
Definition PF_X := 1.
Definition PF_W := 2.
Definition PF_R := 4.

Definition contains (flags f : Z) : bool := Z.land flags f =? f.

#[local] Existing Instance elf.

Record BuiltInSectionDetails := mkDetails {
  details_kind : SectionKind;
  section_flags : Z;
  details_alignment : Alignment;
  ty : Z;
  is_relro : bool;
  target_segment_type : option Z
}.

Definition primary_section (name : String.string) : SectionKind := Primary (P := elf) (txt name).

Definition DEFAULT_DEFS : BuiltInSectionDetails := mkDetails (primary_section EmptyString) 0 Alignment.MIN SHT_NULL false None.

(** In the order of [SinglePartSectionId] and [RegularSectionId]; [a] is the alignment of an
    address. *)
Definition SECTION_DEFINITIONS (a : Alignment) : list BuiltInSectionDetails := [
  (* 0: UNMAPPED *) DEFAULT_DEFS;
  (* 1: FILE_HEADER *) mkDetails (primary_section EmptyString) SHF_ALLOC Alignment.MIN SHT_NULL false None;
  (* 2: PROGRAM_HEADERS *) mkDetails (primary_section ".phdr") SHF_ALLOC a SHT_NULL false (Some PT_PHDR);
  (* 3: SECTION_HEADERS *) mkDetails (primary_section ".shdr") SHF_ALLOC Alignment.MIN SHT_NULL false None;
  (* 4: SHSTRTAB *) mkDetails (primary_section ".shstrtab") 0 Alignment.MIN SHT_STRTAB false None;
  (* 5: STRTAB *) mkDetails (primary_section ".strtab") 0 Alignment.MIN SHT_STRTAB false None;
  (* 6: GOT *) mkDetails (primary_section ".got") (SHF_WRITE + SHF_ALLOC) a SHT_PROGBITS true None;
  (* 7: GOT_RELR *) mkDetails (Secondary 6) 0 a SHT_NULL false None;
  (* 8: PLT_GOT *) mkDetails (primary_section ".plt.got") (SHF_ALLOC + SHF_EXECINSTR) (mkAlignment 4) SHT_PROGBITS false None;
  (* 9: RELA_PLT *) mkDetails (primary_section ".rela.plt") (SHF_ALLOC + SHF_INFO_LINK) a SHT_RELA false None;
  (* 10: EH_FRAME *) mkDetails (primary_section ".eh_frame") SHF_ALLOC a SHT_PROGBITS false None;
  (* 11: EH_FRAME_HDR *) mkDetails (primary_section ".eh_frame_hdr") SHF_ALLOC (mkAlignment 2) SHT_PROGBITS false (Some PT_GNU_EH_FRAME);
  (* 12: SFRAME *) mkDetails (primary_section ".sframe") SHF_ALLOC a SHT_GNU_SFRAME false (Some PT_GNU_SFRAME);
  (* 13: DYNAMIC *) mkDetails (primary_section ".dynamic") (SHF_ALLOC + SHF_WRITE) a SHT_DYNAMIC true (Some PT_DYNAMIC);
  (* 14: HASH *) mkDetails (primary_section ".hash") SHF_ALLOC (mkAlignment 2) SHT_HASH false None;
  (* 15: GNU_HASH *) mkDetails (primary_section ".gnu.hash") SHF_ALLOC a SHT_GNU_HASH false None;
  (* 16: DYNSYM *) mkDetails (primary_section ".dynsym") SHF_ALLOC a SHT_DYNSYM false None;
  (* 17: DYNSTR *) mkDetails (primary_section ".dynstr") SHF_ALLOC Alignment.MIN SHT_STRTAB false None;
  (* 18: INTERP *) mkDetails (primary_section ".interp") SHF_ALLOC Alignment.MIN SHT_PROGBITS false (Some PT_INTERP);
  (* 19: GNU_VERSION *) mkDetails (primary_section ".gnu.version") SHF_ALLOC (mkAlignment 1) SHT_GNU_VERSYM false None;
  (* 20: GNU_VERSION_D *) mkDetails (primary_section ".gnu.version_d") SHF_ALLOC a SHT_GNU_VERDEF false None;
  (* 21: GNU_VERSION_R *) mkDetails (primary_section ".gnu.version_r") SHF_ALLOC a SHT_GNU_VERNEED false None;
  (* 22: NOTE_GNU_PROPERTY *) mkDetails (primary_section ".note.gnu.property") SHF_ALLOC a SHT_NOTE false (Some PT_GNU_PROPERTY);
  (* 23: NOTE_GNU_BUILD_ID *) mkDetails (primary_section ".note.gnu.build-id") SHF_ALLOC (mkAlignment 2) SHT_NOTE false None;
  (* 24: SYMTAB_LOCAL *) mkDetails (primary_section ".symtab") 0 a SHT_SYMTAB false None;
  (* 25: SYMTAB_GLOBAL *) mkDetails (Secondary 24) 0 Alignment.MIN SHT_NULL false None;
  (* 26: RELA_DYN_RELATIVE *) mkDetails (primary_section ".rela.dyn") SHF_ALLOC a SHT_RELA false None;
  (* 27: RELA_DYN_GENERAL *) mkDetails (Secondary 26) 0 Alignment.MIN SHT_NULL false None;
  (* 28: RISCV_ATTRIBUTES *) mkDetails (primary_section ".riscv.attributes") 0 Alignment.MIN SHT_RISCV_ATTRIBUTES false (Some PT_RISCV_ATTRIBUTES);
  (* 29: RELRO_PADDING *) mkDetails (primary_section ".relro_padding") (SHF_ALLOC + SHF_WRITE) Alignment.MIN SHT_NOBITS true None;
  (* 30: RELR_DYN *) mkDetails (primary_section ".relr.dyn") SHF_ALLOC a SHT_RELR false None;
  (* 31: SYMTAB_SHNDX_LOCAL *) mkDetails (primary_section ".symtab_shndx") 0 (mkAlignment 2) SHT_SYMTAB_SHNDX false None;
  (* 32: SYMTAB_SHNDX_GLOBAL *) mkDetails (Secondary 31) 0 Alignment.MIN SHT_NULL false None;
  (* 33: GDB_INDEX *) mkDetails (primary_section ".gdb_index") 0 Alignment.MIN SHT_PROGBITS false None;
  (* 34: RODATA *) mkDetails (primary_section ".rodata") SHF_ALLOC Alignment.MIN SHT_PROGBITS false None;
  (* 35: INIT_ARRAY *) mkDetails (primary_section ".init_array") (SHF_ALLOC + SHF_WRITE) a SHT_INIT_ARRAY true None;
  (* 36: FINI_ARRAY *) mkDetails (primary_section ".fini_array") (SHF_ALLOC + SHF_WRITE) a SHT_FINI_ARRAY true None;
  (* 37: PREINIT_ARRAY *) mkDetails (primary_section ".preinit_array") (SHF_ALLOC + SHF_WRITE) Alignment.MIN SHT_PREINIT_ARRAY true None;
  (* 38: TEXT *) mkDetails (primary_section ".text") (SHF_ALLOC + SHF_EXECINSTR) Alignment.MIN SHT_PROGBITS false None;
  (* 39: INIT *) mkDetails (primary_section ".init") (SHF_ALLOC + SHF_EXECINSTR) Alignment.MIN SHT_PROGBITS false None;
  (* 40: FINI *) mkDetails (primary_section ".fini") (SHF_ALLOC + SHF_EXECINSTR) Alignment.MIN SHT_PROGBITS false None;
  (* 41: DATA *) mkDetails (primary_section ".data") (SHF_ALLOC + SHF_WRITE) Alignment.MIN SHT_PROGBITS false None;
  (* 42: TDATA *) mkDetails (primary_section ".tdata") (SHF_WRITE + SHF_ALLOC + SHF_TLS) Alignment.MIN SHT_PROGBITS false None;
  (* 43: TBSS *) mkDetails (primary_section ".tbss") (SHF_WRITE + SHF_ALLOC + SHF_TLS) Alignment.MIN SHT_NOBITS false None;
  (* 44: BSS *) mkDetails (primary_section ".bss") (SHF_ALLOC + SHF_WRITE) Alignment.MIN SHT_NOBITS false None;
  (* 45: COMMENT *) mkDetails (primary_section ".comment") (SHF_STRINGS + SHF_MERGE) Alignment.MIN SHT_PROGBITS false None;
  (* 46: GCC_EXCEPT_TABLE *) mkDetails (primary_section ".gcc_except_table") SHF_ALLOC Alignment.MIN SHT_PROGBITS false None;
  (* 47: NOTE_ABI_TAG *) mkDetails (primary_section ".note.ABI-tag") SHF_ALLOC Alignment.MIN SHT_NOTE false None;
  (* 48: DATA_REL_RO *) mkDetails (primary_section ".data.rel.ro") (SHF_ALLOC + SHF_WRITE) Alignment.MIN SHT_PROGBITS true None
]%string.

Definition built_in_section_infos (a : Alignment) : list SectionOutputInfo :=
  map (fun d => mkSectionInfo (details_kind d) (mkElfAttributes (section_flags d) (ty d) false 0) (details_alignment d) None None None None []) (SECTION_DEFINITIONS a).

Definition opt_built_in_details (a : Alignment) (section_id : Z) : option BuiltInSectionDetails :=
  if section_id <? 0 then None else SECTION_DEFINITIONS a !! Z.to_nat section_id.

Record ProgramSegmentDef := mkSegmentDef { segment_type : Z; segment_flags : Z }.

Definition PROGRAM_SEGMENT_DEFS : list ProgramSegmentDef := [
  mkSegmentDef PT_PHDR PF_R;
  mkSegmentDef PT_INTERP PF_R;
  mkSegmentDef PT_NOTE PF_R;
  mkSegmentDef PT_GNU_PROPERTY PF_R;
  mkSegmentDef PT_LOAD PF_R;
  mkSegmentDef PT_LOAD (PF_R + PF_X);
  mkSegmentDef PT_LOAD (PF_R + PF_W);
  mkSegmentDef PT_LOAD (PF_R + PF_W + PF_X);
  mkSegmentDef PT_TLS PF_R;
  mkSegmentDef PT_GNU_EH_FRAME PF_R;
  mkSegmentDef PT_GNU_SFRAME PF_R;
  mkSegmentDef PT_DYNAMIC (PF_R + PF_W);
  mkSegmentDef PT_GNU_RELRO PF_R;
  mkSegmentDef PT_RISCV_ATTRIBUTES PF_R
].

Definition STACK_SEGMENT_DEF : ProgramSegmentDef := mkSegmentDef PT_GNU_STACK (PF_R + PF_W).

Definition segment_writable (def : ProgramSegmentDef) : bool := contains (segment_flags def) PF_W.
Definition segment_executable (def : ProgramSegmentDef) : bool := contains (segment_flags def) PF_X.
Definition segment_loadable (def : ProgramSegmentDef) : bool := segment_type def =? PT_LOAD.

(** Whether a section is executable for its load segment: without a read-only segment of their
    own, sections that are not writable share the executable one. *)
Definition load_exec (flags : Z) (rosegment : bool) : bool := if negb rosegment && negb (contains flags SHF_WRITE) then true else contains flags SHF_EXECINSTR.

Definition elf_should_include_section (a : Alignment) (def : ProgramSegmentDef) (info : SectionOutputInfo) (section_id : Z) (rosegment : bool) : bool :=
  let flags := attr_flags (attributes info) in
  let details := opt_built_in_details a section_id in
  if segment_type def =? PT_NOTE then attr_ty (attributes info) =? SHT_NOTE
  else if segment_type def =? PT_TLS then contains flags SHF_TLS
  else if segment_type def =? PT_LOAD then
    contains flags SHF_ALLOC && Bool.eqb (contains flags SHF_WRITE) (segment_writable def) && Bool.eqb (load_exec flags rosegment) (segment_executable def)
  else if segment_type def =? PT_GNU_RELRO then
    contains flags SHF_TLS || match details with Some d => is_relro d | None => false end
  else match details with
       | Some d => match target_segment_type d with Some t => t =? segment_type def | None => false end
       | None => false
       end.

Definition elf_segments (a : Alignment) : SegmentPlatform (P := elf) := {|
  SegmentDef := ProgramSegmentDef;
  seg_is_loadable := segment_loadable;
  seg_is_writable := segment_writable;
  seg_is_executable := segment_executable;
  should_cut_rw_segment_when_ending def := segment_type def =? PT_GNU_RELRO;
  program_segment_should_include_section := elf_should_include_section a;
  program_segment_defs := PROGRAM_SEGMENT_DEFS;
  unconditional_segment_defs := [STACK_SEGMENT_DEF];
  attr_is_alloc attributes := contains (attr_flags attributes) SHF_ALLOC;
  attr_is_executable attributes := contains (attr_flags attributes) SHF_EXECINSTR;
  attr_is_tls attributes := contains (attr_flags attributes) SHF_TLS;
  attr_is_no_bits attributes := attr_ty attributes =? SHT_NOBITS;
  attr_is_writable attributes := contains (attr_flags attributes) SHF_WRITE;
  num_built_in_sections := 49
|}.

Lemma filter_swap {A} (f g : A -> bool) l : List.filter f (List.filter g l) = List.filter g (List.filter f l).
Proof. induction l as [|x l IH]; cbn; [done|]. destruct (g x) eqn:Eg, (f x) eqn:Ef; cbn; rewrite ?Eg, ?Ef, IH; done. Qed.

(** An allocated section belongs to exactly one load segment, with its permissions. *)
Lemma one_load_segment a info section_id rosegment :
  List.filter segment_loadable (List.filter (fun def => elf_should_include_section a def info section_id rosegment) PROGRAM_SEGMENT_DEFS) =
  if contains (attr_flags (attributes info)) SHF_ALLOC then
    [mkSegmentDef PT_LOAD (PF_R + (if contains (attr_flags (attributes info)) SHF_WRITE then PF_W else 0) + (if load_exec (attr_flags (attributes info)) rosegment then PF_X else 0))]
  else [].
Proof.
  rewrite filter_swap. change (List.filter segment_loadable PROGRAM_SEGMENT_DEFS) with
    [mkSegmentDef PT_LOAD PF_R; mkSegmentDef PT_LOAD (PF_R + PF_X); mkSegmentDef PT_LOAD (PF_R + PF_W); mkSegmentDef PT_LOAD (PF_R + PF_W + PF_X)].
  cbn [List.filter]. unfold elf_should_include_section. cbn [segment_type]. change (PT_LOAD =? PT_NOTE) with false. change (PT_LOAD =? PT_TLS) with false.
  change (PT_LOAD =? PT_LOAD) with true. cbn iota. unfold segment_writable, segment_executable.
  by destruct (contains _ SHF_ALLOC), (contains _ SHF_WRITE), (load_exec _ _).
Qed.
