(* ===== verification/OutputOrder.v ===== *)
(** The order of output sections and segments: [OutputOrderBuilder] of
    [libjdxld/src/output_section_id.rs].

    The builder turns a list of sections into the events that [Layout] runs over: sections with
    their secondary sections, the location counters before them, and the start and end of
    segments.  What a segment includes is a method of the platform ([Segments]).
    [order_placed] says that a section is placed while exactly the segments are active that
    include it. *)
From Stdlib Require Import ZArith Lia.
From stdpp Require Import base list list_numbers numbers strings option gmap.
From S2P Require Import Prelude Alignment Layout Expressions Parsers ScriptExpressions ScriptParser VersionScript SectionRules ScriptSections Segments.

Local Open Scope Z_scope.

Section Builder.
Context {P : SectionPlatform} {SP : SegmentPlatform}.

Abbreviation Event := (OrderEvent (Expression := Expression)).

Record OutputOrderBuilder := mkOrder {
  events : list Event;
  program_segments : list SegmentDef;
  active_segment_kinds : list (option Z);
  active_segment_regions : list (option (list Z));
  last_location_counter : option Z
}.

(** What the builder reads. *)
Record OrderInput := mkOrderInput {
  segment_defs : list SegmentDef;
  order_sections : OutputSections;
  rosegment : bool;
  secondary : list (list Z);
  order_partial_link : bool;
  has_custom_phdrs : bool;
  location_counters_in : list LocationCounter
}.

Context (I : OrderInput).

Definition new_builder : OutputOrderBuilder :=
  mkOrder [] [] (replicate (length (segment_defs I)) None) (replicate (length (segment_defs I)) None)
    (match last (location_counters_in I) with Some _ => Some 0 | None => None end).

Definition push_event (e : Event) (b : OutputOrderBuilder) : OutputOrderBuilder :=
  mkOrder (events b ++ [e]) (program_segments b) (active_segment_kinds b) (active_segment_regions b) (last_location_counter b).

Definition merge_target (info : SectionOutputInfo) : option Z := match kind info with Primary _ => None | Secondary p => Some p end.

Definition output_info (section_id : Z) : res SectionOutputInfo := index (section_infos (order_sections I)) section_id.

Definition primary_output_section (section_id : Z) : res Z :=
  info ← output_info section_id; Ok (default section_id (merge_target info)).

Definition location_event (idx : Z) : res Event :=
  lc ← index (location_counters_in I) idx;
  match lc with
  | Absolute expr loc => Ok (SetLocation expr loc idx)
  | Relative expr loc section_id => primary_id ← primary_output_section section_id; Ok (SetLocationRelative expr primary_id loc idx)
  end.

Definition emit_location_counters (lc_start lc_end : Z) (b : OutputOrderBuilder) : res OutputOrderBuilder :=
  b ← for_each (fun idx b => e ← location_event idx; Ok (push_event e b)) (seqZ lc_start (lc_end - lc_start)) b;
  Ok (mkOrder (events b) (program_segments b) (active_segment_kinds b) (active_segment_regions b) ((fun l => l `max` lc_end) <$> last_location_counter b)).

Definition includes (section_id : Z) (info : SectionOutputInfo) (def : SegmentDef) : bool :=
  program_segment_should_include_section def info section_id (rosegment I).

(** *** Segments *)
Definition should_end_current_rw_segment (section_id : Z) (info : SectionOutputInfo) (b : OutputOrderBuilder) : bool :=
  existsb (fun e : option Z * SegmentDef => let '(id, def) := e in
    bool_decide (is_Some id) && should_cut_rw_segment_when_ending def && negb (includes section_id info def))
    (zip (active_segment_kinds b) (segment_defs I)).

Definition is_rw_load (def : SegmentDef) : bool := seg_is_loadable def && seg_is_writable def && negb (seg_is_executable def).

Definition end_rw_load_segment (b : OutputOrderBuilder) : res OutputOrderBuilder :=
  match list_find is_rw_load (segment_defs I) with
  | None => Ok b
  | Some (def_index, _) =>
      active ← index (active_segment_kinds b) (Z.of_nat def_index);
      match active with
      | None => Ok b
      | Some segment_id =>
          regions ← index_update (active_segment_regions b) (Z.of_nat def_index) (fun _ => None);
          Ok (mkOrder (events b ++ [Layout.SegmentEnd segment_id]) (program_segments b) (<[def_index := None]> (active_segment_kinds b)) regions (last_location_counter b))
      end
  end.

Definition add_segment (def : SegmentDef) (segments : list SegmentDef) : res (Z * list SegmentDef) :=
  if Z.of_nat (length segments) <? 256 then Ok (Z.of_nat (length segments), segments ++ [def]) else Panic.

(** All active segments are ended before a section at an address of its own. *)
Fixpoint end_all (kinds : list (option Z)) (regions : list (option (list Z))) : list Z * list (option Z) * list (option (list Z)) :=
  match kinds, regions with
  | k :: kinds, r :: regions =>
      let '(stop, kinds, regions) := end_all kinds regions in
      match k with Some id => (id :: stop, None :: kinds, None :: regions) | None => (stop, None :: kinds, r :: regions) end
  | _, _ => ([], kinds, regions)
  end.

Record SegmentChanges := mkChanges { stop : list Z; start : list Z; kinds : list (option Z); regions : list (option (list Z)); segments : list SegmentDef }.

(** One definition: the ids that end and start, the active segment, its region, the segments. *)
Definition change_segment (section_id : Z) (info : SectionOutputInfo) (def : SegmentDef) (active_id : option Z) (active_region : option (list Z))
    (segs : list SegmentDef) : res (list Z * list Z * option Z * option (list Z) * list SegmentDef) :=
  let section_region := region_name info in
  match active_id, includes section_id info def with
  | None, false => Ok ([], [], None, active_region, segs)
  | Some segment_id, true =>
      if bool_decide (active_region = section_region) then Ok ([], [], active_id, active_region, segs)
      else '(new_id, segs) ← add_segment def segs; Ok ([segment_id], [new_id], Some new_id, section_region, segs)
  | None, true => '(segment_id, segs) ← add_segment def segs; Ok ([], [segment_id], Some segment_id, section_region, segs)
  | Some segment_id, false => Ok ([segment_id], [], None, None, segs)
  end.

Fixpoint change_segments (section_id : Z) (info : SectionOutputInfo) (defs : list SegmentDef) (ks : list (option Z)) (rs : list (option (list Z)))
    (segs : list SegmentDef) : res SegmentChanges :=
  match defs, ks, rs with
  | def :: defs, active_id :: ks, active_region :: rs =>
      '(stop1, start1, active_id, active_region, segs) ← change_segment section_id info def active_id active_region segs;
      c ← change_segments section_id info defs ks rs segs;
      Ok (mkChanges (stop1 ++ stop c) (start1 ++ start c) (active_id :: kinds c) (active_region :: regions c) (segments c))
  | _, _, _ => Ok (mkChanges [] [] ks rs segs)
  end.

Definition section_location (info : SectionOutputInfo) : option Expression := l ← location_info info; location l.

Definition start_stop_segments_for_section (section_id : Z) (info : SectionOutputInfo) (b : OutputOrderBuilder) : res SegmentChanges :=
  let ks := active_segment_kinds b in let rs := active_segment_regions b in let segs := program_segments b in
  if has_custom_phdrs I || order_partial_link I || bool_decide (is_Some (merge_target info)) then Ok (mkChanges [] [] ks rs segs)
  else
    let '(stop0, ks, rs) := match section_location info with Some _ => end_all ks rs | None => ([], ks, rs) end in
    c ← change_segments section_id info (segment_defs I) ks rs segs;
    Ok (mkChanges (stop0 ++ stop c) (start c) (kinds c) (regions c) (segments c)).

(** *** Sections *)

(** The stable sort by key. *)
Fixpoint insert_by_key (x : Z * Z) (l : list (Z * Z)) : list (Z * Z) :=
  match l with [] => [x] | y :: l => if x.1 <=? y.1 then x :: y :: l else y :: insert_by_key x l end.

Definition sort_by_key (l : list (Z * Z)) : list (Z * Z) := foldr insert_by_key [] l.

Definition order_key (sid : Z) : res (Z * Z) := info ← output_info sid; Ok (default 65535 (secondary_order info), sid).

Definition ordered_secondaries (section_id : Z) : res (list Z) :=
  secondaries ← index (secondary I) section_id; keyed ← mapM order_key secondaries; Ok (map snd (sort_by_key keyed)).

Definition emit_info_counters (info : SectionOutputInfo) (b : OutputOrderBuilder) : res OutputOrderBuilder :=
  match location_info info with Some l => emit_location_counters (location_counters l).1 (location_counters l).2 b | None => Ok b end.

Definition add_secondary (sid : Z) (b : OutputOrderBuilder) : res OutputOrderBuilder :=
  info ← output_info sid;
  b ← emit_info_counters info b;
  Ok (push_event (Layout.Section_ sid) b).

Definition add_section (section_id : Z) (b : OutputOrderBuilder) : res OutputOrderBuilder :=
  info ← output_info section_id;
  b ← (if should_end_current_rw_segment section_id info b then end_rw_load_segment b else Ok b);
  c ← start_stop_segments_for_section section_id info b;
  let location := match section_location info with
    | Some location => if attr_is_alloc (attributes info) then [SetSectionAddress location] else []
    | None => []
    end in
  let b := mkOrder (events b ++ map Layout.SegmentEnd (stop c) ++ location ++ map Layout.SegmentStart (start c)) (segments c) (kinds c) (regions c) (last_location_counter b) in
  b ← emit_info_counters info b;
  let b := push_event (Layout.Section_ section_id) b in
  secondaries ← ordered_secondaries section_id;
  for_each add_secondary secondaries b.

Definition add_sections (sections : list Z) (b : OutputOrderBuilder) : res OutputOrderBuilder := for_each add_section sections b.

Definition unconditional_segment (def : SegmentDef) (st : list Event * list SegmentDef) : res (list Event * list SegmentDef) :=
  '(segment_id, segs) ← add_segment def st.2; Ok (st.1 ++ [Layout.SegmentStart segment_id; Layout.SegmentEnd segment_id], segs).

(** The events and the segments. *)
Definition build (b : OutputOrderBuilder) : res (list Event * list SegmentDef) :=
  b ← match last_location_counter b with
      | Some lc => emit_location_counters lc (Z.of_nat (length (location_counters_in I))) b
      | None => Ok b
      end;
  let es := events b ++ map Layout.SegmentEnd (omap id (active_segment_kinds b)) in
  if order_partial_link I || has_custom_phdrs I then Ok (es, program_segments b)
  else for_each unconditional_segment unconditional_segment_defs (es, program_segments b).
End Builder.

Lemma filter_perm {A} (f : A -> bool) l k : l ≡ₚ k -> List.filter f l ≡ₚ List.filter f k.
Proof.
  induction 1 as [|x l k _ IH|x y l|l k m _ IH1 _ IH2]; cbn; [done| | |by rewrite IH1].
  - destruct (f x); [by constructor|done].
  - destruct (f x), (f y); try done. constructor.
Qed.

(** ** Active segments *)
Section Segments.
Context {P : SectionPlatform} {SP : SegmentPlatform} (I : OrderInput).

Abbreviation Event := (OrderEvent (Expression := Expression)).

Fixpoint active (es : list Event) (act : list Z) : list Z :=
  match es with
  | [] => act
  | Layout.SegmentStart id :: es => active es (act ++ [id])
  | Layout.SegmentEnd id :: es => active es (List.filter (fun x => negb (x =? id)) act)
  | _ :: es => active es act
  end.

Lemma active_app es es' act : active (es ++ es') act = active es' (active es act).
Proof. revert act. induction es as [|[] es IH]; intros act; cbn; auto. Qed.

Lemma active_starts ids act : active (map Layout.SegmentStart ids) act = act ++ ids.
Proof. revert act. induction ids as [|i ids IH]; intros act; cbn; [by rewrite app_nil_r|]. by rewrite IH, <- app_assoc. Qed.

(** Events that neither place a section nor start or end a segment. *)
Definition is_location (e : Event) : bool :=
  match e with SetLocation _ _ _ | SetLocationRelative _ _ _ _ | SetSectionAddress _ => true | _ => false end.

Lemma active_locations es act : forallb is_location es = true -> active es act = act.
Proof. revert act. induction es as [|[] es IH]; intros act; cbn; try done; apply IH. Qed.

Lemma filter_ne_Permutation id act l : act ≡ₚ id :: l -> NoDup (id :: l) -> List.filter (fun x => negb (x =? id)) act ≡ₚ l.
Proof.
  intros Hp [Hni _]%NoDup_cons. rewrite (filter_perm _ _ _ Hp). cbn. rewrite Z.eqb_refl. cbn. clear Hp.
  induction l as [|x l IH]; [done|]. apply not_elem_of_cons in Hni as [Hx Hl]. cbn. rewrite (proj2 (Z.eqb_neq x id)) by done. cbn. constructor. by apply IH.
Qed.

Lemma active_ends stop : forall keep act, act ≡ₚ keep ++ stop -> NoDup (keep ++ stop) -> active (map Layout.SegmentEnd stop) act ≡ₚ keep.
Proof.
  induction stop as [|id stop IH]; intros keep act Hp Hd; cbn; [by rewrite app_nil_r in Hp|].
  assert (keep ++ id :: stop ≡ₚ id :: keep ++ stop) as E by (symmetry; apply Permutation_middle).
  apply IH; [|rewrite E in Hd; by apply NoDup_cons in Hd as [_ ?]]. apply filter_ne_Permutation; [by rewrite Hp|by rewrite <- E].
Qed.

(** *** The segments of definitions *)
Definition seg_is (segs : list SegmentDef) (id : Z) (def : SegmentDef) : Prop := 0 <= id /\ segs !! Z.to_nat id = Some def.

Definition kind_ok (segs : list SegmentDef) (k : option Z) (def : SegmentDef) : Prop := match k with Some id => seg_is segs id def | None => True end.

Lemma kind_ok_app segs new k def : kind_ok segs k def -> kind_ok (segs ++ new) k def.
Proof. destruct k as [id|]; cbn; [|done]. intros [H0 H]. split; [done|by apply lookup_app_l_Some]. Qed.

Lemma kinds_below segs ks defs id : Forall2 (kind_ok segs) ks defs -> id ∈ omap (fun k => k) ks -> 0 <= id < Z.of_nat (length segs).
Proof.
  induction 1 as [|k def ks defs Hk _ IH]; [by intros ?%elem_of_nil|]. destruct k as [i|]; cbn; [|done]. intros [->|H]%elem_of_cons; [|by apply IH].
  destruct Hk as [H0 H%lookup_lt_Some]. lia.
Qed.

Lemma end_all_spec ks : forall rs stop ks' rs', length rs = length ks -> end_all ks rs = (stop, ks', rs') ->
  stop = omap (fun k => k) ks /\ ks' = replicate (length ks) None /\ length rs' = length ks.
Proof.
  induction ks as [|k ks IH]; intros [|r rs] stop ks' rs' Hl H; try done; cbn in H.
  - by injection H as <- <- <-.
  - destruct (end_all ks rs) as [[st1 k1] r1] eqn:E. destruct (IH rs st1 k1 r1 ltac:(cbn in Hl; lia) E) as (-> & -> & Hr). destruct k as [id|]; injection H as <- <- <-; cbn; auto.
Qed.

Lemma kinds_none segs defs : Forall2 (kind_ok segs) (replicate (length defs) None) defs.
Proof. induction defs; by constructor. Qed.

Lemma omap_none n : omap (fun k : option Z => k) (replicate n None) = [].
Proof. by induction n. Qed.

Lemma change_one section_id info def k r segs stop1 start1 k1 r1 segs1 : kind_ok segs k def ->
  change_segment I section_id info def k r segs = Ok (stop1, start1, k1, r1, segs1) ->
  exists keep new, segs1 = segs ++ new /\ omap (fun k => k) [k] ≡ₚ keep ++ stop1 /\ omap (fun k => k) [k1] ≡ₚ keep ++ start1 /\
    start1 = seqZ (Z.of_nat (length segs)) (Z.of_nat (length new)) /\ kind_ok segs1 k1 def /\ bool_decide (is_Some k1) = includes I section_id info def.
Proof.
  intros Hk. assert (seg_is (segs ++ [def]) (Z.of_nat (length segs)) def) as Hnew by (split; [lia|]; rewrite Nat2Z.id; by apply list_lookup_middle).
  unfold change_segment, add_segment. destruct k as [id|], (includes I section_id info def) eqn:Ei.
  - case_bool_decide; [intros [= <- <- <- <- <-]; exists [id], []; rewrite app_nil_r; by split_and!|].
    destruct (_ <? 256); cbn; [|done]. intros [= <- <- <- <- <-]. exists [], [def]. by split_and!.
  - intros [= <- <- <- <- <-]. exists [], []. rewrite app_nil_r. by split_and!.
  - destruct (_ <? 256); cbn; [|done]. intros [= <- <- <- <- <-]. exists [], [def]. by split_and!.
  - intros [= <- <- <- <- <-]. exists [], []. rewrite app_nil_r. by split_and!.
Qed.

Lemma change_spec section_id info defs : forall ks rs segs c, length rs = length defs -> Forall2 (kind_ok segs) ks defs ->
  change_segments I section_id info defs ks rs segs = Ok c ->
  exists keep new, segments c = segs ++ new /\ length (regions c) = length defs /\ omap (fun k => k) ks ≡ₚ keep ++ stop c /\
    omap (fun k => k) (kinds c) ≡ₚ keep ++ start c /\ start c = seqZ (Z.of_nat (length segs)) (Z.of_nat (length new)) /\
    Forall2 (fun k def => kind_ok (segments c) k def /\ bool_decide (is_Some k) = includes I section_id info def) (kinds c) defs.
Proof.
  induction defs as [|def defs IH]; intros ks rs segs c Hr Hk H.
  { inversion Hk; subst. destruct rs; [|done]. cbn in H. injection H as <-. exists [], []. cbn. rewrite app_nil_r. split_and!; try done. }
  inversion Hk as [|k ? ks' ? Hk0 Hks]; subst. destruct rs as [|r rs]; [done|]. cbn in Hr. cbn [change_segments] in H.
  destruct (change_segment I section_id info def k r segs) as [[[[[stop1 start1] k1] r1] segs1]| |] eqn:E1; cbn [mbind res_bind] in H; [|done|done].
  destruct (change_one _ _ _ _ _ _ _ _ _ _ _ Hk0 E1) as (keep1 & new1 & -> & Hkeep & Hnew & Hstart & Hok & Hinc).
  destruct (change_segments I section_id info defs ks' rs (segs ++ new1)) as [c1| |] eqn:E; cbn [mbind res_bind] in H; [|done|done]. injection H as <-. cbn [stop start kinds regions segments].
  destruct (IH ks' rs (segs ++ new1) c1 ltac:(lia)) as (keep & new & Hs & Hlr & Hk1 & Hk2 & Hst & HF); [|done|].
  { eapply Forall2_impl; [done|]. intros. by apply kind_ok_app. }
  exists (keep1 ++ keep), (new1 ++ new). split_and!; [by rewrite Hs, app_assoc|cbn; lia| | | |].
  - change (omap (fun k => k) (k :: ks')) with (omap (fun k => k) ([k] ++ ks')). rewrite omap_app, Hkeep, Hk1. solve_Permutation.
  - change (omap (fun k => k) (k1 :: kinds c1)) with (omap (fun k => k) ([k1] ++ kinds c1)). rewrite omap_app, Hnew, Hk2. solve_Permutation.
  - rewrite Hst, Hstart, length_app, Nat2Z.inj_add, (length_app new1), Nat2Z.inj_add. by rewrite seqZ_app by lia.
  - constructor; [|done]. split; [|done]. rewrite Hs. by apply kind_ok_app.
Qed.

Lemma start_stop_spec section_id info b c : has_custom_phdrs I = false -> order_partial_link I = false -> merge_target info = None ->
  length (active_segment_regions b) = length (segment_defs I) -> Forall2 (kind_ok (program_segments b)) (active_segment_kinds b) (segment_defs I) ->
  start_stop_segments_for_section I section_id info b = Ok c ->
  exists keep new, segments c = program_segments b ++ new /\ length (regions c) = length (segment_defs I) /\
    omap (fun k => k) (active_segment_kinds b) ≡ₚ keep ++ stop c /\ omap (fun k => k) (kinds c) ≡ₚ keep ++ start c /\
    start c = seqZ (Z.of_nat (length (program_segments b))) (Z.of_nat (length new)) /\
    Forall2 (fun k def => kind_ok (segments c) k def /\ bool_decide (is_Some k) = includes I section_id info def) (kinds c) (segment_defs I).
Proof.
  intros Hc Hp Hm Hr Hk. unfold start_stop_segments_for_section. rewrite Hc, Hp, Hm. cbn [orb]. rewrite bool_decide_eq_false_2 by apply is_Some_None.
  pose proof (Forall2_length _ _ _ Hk) as Hlk. destruct (section_location info) as [e|].
  - destruct (end_all _ _) as [[stop0 ks] rs] eqn:E. apply end_all_spec in E as (Hst0 & -> & Hlr); [|lia]. rewrite Hlk in *.
    destruct (change_segments _ _ _ _ _ _ _) as [c0| |] eqn:Ec; cbn [mbind res_bind]; [|done|done]. intros [= <-]. cbn [segments regions stop start kinds].
    destruct (change_spec _ _ _ _ _ _ _ Hlr (kinds_none _ _) Ec) as (keep & new & Hs & Hl & Hk1 & Hk2 & Hst & HF).
    rewrite omap_none in Hk1. symmetry in Hk1. apply Permutation_nil_r in Hk1. apply app_eq_nil in Hk1 as [-> Hstop]. rewrite Hstop, app_nil_r.
    exists [], new. rewrite Hst0. by split_and!.
  - destruct (change_segments _ _ _ _ _ _ _) as [c0| |] eqn:Ec; cbn [mbind res_bind]; [|done|done]. intros [= <-]. cbn [segments regions stop start kinds].
    by apply (change_spec _ _ _ _ _ _ _ Hr Hk).
Qed.

(** *** Placed sections *)

(** The sections of events, each with the segments active at its place. *)
Fixpoint placements (es : list Event) (act : list Z) : list (Z * list Z) :=
  match es with
  | [] => []
  | Layout.Section_ sid :: es => (sid, act) :: placements es act
  | Layout.SegmentStart id :: es => placements es (act ++ [id])
  | Layout.SegmentEnd id :: es => placements es (List.filter (fun x => negb (x =? id)) act)
  | _ :: es => placements es act
  end.

Lemma placements_app es es' act : placements (es ++ es') act = placements es act ++ placements es' (active es act).
Proof. revert act. induction es as [|[] es IH]; intros act; cbn; rewrite ?IH; done. Qed.

Definition is_section (e : Event) : bool := match e with Layout.Section_ _ => true | _ => false end.

Lemma placements_none es act : forallb (fun e => negb (is_section e)) es = true -> placements es act = [].
Proof. revert act. induction es as [|[] es IH]; intros act; cbn; try done; apply IH. Qed.

Lemma no_sections_app (a b : list Event) : forallb (fun e => negb (is_section e)) (a ++ b) = forallb (fun e => negb (is_section e)) a && forallb (fun e => negb (is_section e)) b.
Proof. apply forallb_app. Qed.

Lemma no_sections_map (f : Z -> Event) ids : (forall i, is_section (f i) = false) -> forallb (fun e => negb (is_section e)) (map f ids) = true.
Proof. intros H. induction ids as [|i ids IH]; cbn; [done|]. by rewrite H, IH. Qed.

Lemma locations_no_sections es : forallb is_location es = true -> forallb (fun e => negb (is_section e)) es = true.
Proof. induction es as [|[] es IH]; cbn; try done. Qed.

(** A section is placed in the segments of the definitions that include [owner], one of each. *)
Definition placed_ok (segs : list SegmentDef) (pl : Z * list Z) (owner : Z * Z) : Prop :=
  pl.1 = owner.1 /\ exists info defs, output_info I owner.2 = Ok info /\ defs ≡ₚ List.filter (includes I owner.2 info) (segment_defs I) /\
    Forall2 (seg_is segs) pl.2 defs.

Lemma placed_ok_app segs new pl owner : placed_ok segs pl owner -> placed_ok (segs ++ new) pl owner.
Proof.
  intros [H1 (info & defs & Hi & Hd & HF)]. split; [done|]. exists info, defs. split_and!; [done..|]. eapply Forall2_impl; [done|].
  intros id def [H0 H]. split; [done|]. by apply lookup_app_l_Some.
Qed.

Record placed (b : OutputOrderBuilder) (owners : list (Z * Z)) : Prop := {
  placed_regions : length (active_segment_regions b) = length (segment_defs I);
  placed_kinds : Forall2 (kind_ok (program_segments b)) (active_segment_kinds b) (segment_defs I);
  placed_ids : NoDup (omap (fun k => k) (active_segment_kinds b));
  placed_active : active (events b) [] ≡ₚ omap (fun k => k) (active_segment_kinds b);
  placed_sections : Forall2 (placed_ok (program_segments b)) (placements (events b) []) owners
}.

(** The active segments are those of the definitions that include the section. *)
Definition inside (b : OutputOrderBuilder) (section_id : Z) (info : SectionOutputInfo) : Prop :=
  Forall2 (fun k def => bool_decide (is_Some k) = includes I section_id info def) (active_segment_kinds b) (segment_defs I).

Lemma kinds_included segs section_id info ks defs : Forall2 (kind_ok segs) ks defs -> Forall2 (fun k def => bool_decide (is_Some k) = includes I section_id info def) ks defs ->
  Forall2 (seg_is segs) (omap (fun k => k) ks) (List.filter (includes I section_id info) defs).
Proof.
  intros Hk. induction Hk as [|k def ks defs Hk _ IH]; intros Hi; [constructor|]. inversion Hi as [|? ? ? ? Hi0 His]; subst. cbn. rewrite <- Hi0.
  destruct k as [id|]; cbn; [|by apply IH]. constructor; [done|by apply IH].
Qed.

Lemma placed_emitted b b' es owners : placed b owners -> forallb is_location es = true -> events b' = events b ++ es ->
  program_segments b' = program_segments b -> active_segment_kinds b' = active_segment_kinds b -> active_segment_regions b' = active_segment_regions b -> placed b' owners.
Proof.
  intros [H1 H2 H3 H4 H5] Hes He Hs Hk Hr. split; rewrite ?He, ?Hs, ?Hk, ?Hr; try done.
  - by rewrite active_app, active_locations.
  - rewrite placements_app, (placements_none es), app_nil_r by by apply locations_no_sections. done.
Qed.

Lemma placed_push b owners sid section_id info : placed b owners -> inside b section_id info -> output_info I section_id = Ok info ->
  placed (push_event (Layout.Section_ sid) b) (owners ++ [(sid, section_id)]).
Proof.
  intros [H1 H2 H3 H4 H5] Hin Hi. split; cbn; try done.
  - by rewrite active_app.
  - rewrite placements_app. apply Forall2_app; [done|]. cbn. constructor; [|constructor]. split; [done|].
    destruct (Permutation_Forall2 (symmetry H4) (kinds_included _ _ _ _ _ H2 Hin)) as (defs & Hd & HF). exists info, defs. by split_and!.
Qed.

(** What emitting location counters adds to the events. *)
Definition emits (b b' : OutputOrderBuilder) : Prop :=
  exists es, forallb is_location es = true /\ events b' = events b ++ es /\ program_segments b' = program_segments b /\
    active_segment_kinds b' = active_segment_kinds b /\ active_segment_regions b' = active_segment_regions b.

Lemma emit_counters_spec lo hi b b' : emit_location_counters I lo hi b = Ok b' -> emits b b'.
Proof.
  unfold emit_location_counters. destruct (for_each _ _ b) as [b1| |] eqn:E; cbn [mbind res_bind]; [|done|done]. intros [= <-].
  assert (emits b b1) as (es & H1 & H2 & H3 & H4 & H5); [|exists es; by split_and!].
  revert b E. induction (seqZ lo (hi - lo)) as [|idx l IH]; intros b; cbn [for_each].
  { intros [= ->]. exists []. rewrite app_nil_r. by split_and!. }
  destruct (location_event I idx) as [e| |] eqn:Ee; cbn [mbind res_bind]; [|done|done]. intros (es & H1 & H2 & H3 & H4 & H5)%IH.
  exists (e :: es). split_and!; [|by rewrite H2; cbn; rewrite <- app_assoc|done..]. cbn. rewrite H1, andb_true_r.
  revert Ee. unfold location_event. destruct (index _ idx) as [[]| |]; cbn [mbind res_bind]; try done; [by intros [= <-]|].
  destruct (primary_output_section I _); cbn [mbind res_bind]; try done. by intros [= <-].
Qed.

Lemma emit_info_spec info b b' : emit_info_counters I info b = Ok b' -> emits b b'.
Proof. unfold emit_info_counters. destruct (location_info info); [apply emit_counters_spec|]. intros [= <-]. exists []. rewrite app_nil_r. by split_and!. Qed.

Lemma placed_emits b b' owners : placed b owners -> emits b b' -> placed b' owners.
Proof. intros H (es & H1 & H2 & H3 & H4 & H5). by apply (placed_emitted b b' es owners). Qed.

Lemma inside_emits b b' s info : inside b s info -> emits b b' -> inside b' s info.
Proof. intros H (es & _ & _ & _ & Hk & _). unfold inside. by rewrite Hk. Qed.

Lemma secondaries_placed s info sids : forall b b' owners, placed b owners -> inside b s info -> output_info I s = Ok info ->
  for_each (add_secondary I) sids b = Ok b' -> placed b' (owners ++ map (fun id => (id, s)) sids).
Proof.
  induction sids as [|sid sids IH]; intros b b' owners Hp Hin Hi; cbn [for_each map]; [intros [= <-]; by rewrite app_nil_r|].
  destruct (add_secondary I sid b) as [b2| |] eqn:E2; cbn [mbind res_bind]; [|done|done]. revert E2. unfold add_secondary.
  destruct (output_info I sid) as [sinfo| |]; cbn [mbind res_bind]; [|done|done].
  destruct (emit_info_counters I sinfo b) as [b1| |] eqn:E; cbn [mbind res_bind]; [|done|done]. apply emit_info_spec in E. intros [= <-] H.
  rewrite cons_middle, app_assoc. pose proof (inside_emits _ _ _ _ Hin E) as Hin1. refine (IH _ _ _ _ _ Hi H); [|exact Hin1].
  apply (placed_push _ _ _ s info); [by apply (placed_emits b)|done..].
Qed.

Lemma omap_insert_none (ks : list (option Z)) i id : ks !! i = Some (Some id) -> omap (fun k => k) ks ≡ₚ id :: omap (fun k => k) (<[i := None]> ks).
Proof.
  revert i. induction ks as [|k ks IH]; intros [|i] H; try done; cbn in *; [by injection H as ->|].
  destruct k as [j|]; cbn; rewrite (IH i H); [constructor|done].
Qed.

Lemma end_rw_placed b b' owners : placed b owners -> end_rw_load_segment I b = Ok b' -> placed b' owners.
Proof.
  intros Hp. unfold end_rw_load_segment. destruct (list_find _ _) as [[i def]|]; [|by intros [= <-]].
  destruct (index _ _) as [[id|]| |] eqn:E; cbn [mbind res_bind]; try done; [|by intros [= <-]].
  destruct (index_update _ _ _) as [rs| |] eqn:Er; cbn [mbind res_bind]; [|done|done]. intros [= <-].
  apply index_ok in E as [_ E]. rewrite Nat2Z.id in E. unfold index_update in Er. destruct (index (active_segment_regions b) _) as [r| |]; cbn [mbind res_bind] in Er; [|done|done]. injection Er as <-. rewrite Nat2Z.id in *.
  destruct Hp as [H1 H2 H3 H4 H5]. pose proof (omap_insert_none _ _ _ E) as Ho. rewrite Ho in H3, H4. split; cbn.
  - by rewrite length_insert.
  - destruct (Forall2_lookup_l _ _ _ _ _ H2 E) as (d & Hd & _). rewrite <- (list_insert_id (segment_defs I) i d Hd). by apply Forall2_insert.
  - by apply NoDup_cons in H3 as [_ ?].
  - rewrite active_app. cbn. by apply filter_ne_Permutation.
  - rewrite placements_app. cbn. by rewrite app_nil_r.
Qed.

Lemma changed_placed b c location owners section_id info : placed b owners -> has_custom_phdrs I = false -> order_partial_link I = false -> merge_target info = None ->
  start_stop_segments_for_section I section_id info b = Ok c -> forallb is_location location = true ->
  let b' := mkOrder (events b ++ map Layout.SegmentEnd (stop c) ++ location ++ map Layout.SegmentStart (start c)) (segments c) (kinds c) (regions c) (last_location_counter b) in
  placed b' owners /\ inside b' section_id info.
Proof.
  intros [H1 H2 H3 H4 H5] Hc Hp Hm Hs Hl b'. destruct (start_stop_spec _ _ _ _ Hc Hp Hm H1 H2 Hs) as (keep & new & Hseg & Hlr & Hk1 & Hk2 & Hst & HF).
  assert (NoDup (omap (fun k => k) (kinds c))) as Hd.
  { rewrite Hk2. rewrite Hk1 in H3. apply NoDup_app in H3 as (Hd & _ & _). apply NoDup_app. split_and!; [done| |rewrite Hst; apply NoDup_seqZ].
    intros x Hx. rewrite Hst, elem_of_seqZ. assert (0 <= x < Z.of_nat (length (program_segments b))); [|lia].
    apply (kinds_below _ _ _ _ H2). rewrite Hk1. apply elem_of_app. by left. }
  split; [|unfold inside; cbn; eapply Forall2_impl; [done|]; by intros ? ? [_ ?]]. split; cbn; [done| |done| |].
  - eapply Forall2_impl; [done|]. by intros ? ? [? _].
  - rewrite !active_app, active_starts, (active_locations location), Hk2 by done. apply Permutation_app_tail, active_ends; [by rewrite H4|by rewrite <- Hk1].
  - rewrite placements_app, (placements_none (_ ++ _)).
    + rewrite app_nil_r, Hseg. eapply Forall2_impl; [done|]. intros. by apply placed_ok_app.
    + by rewrite !no_sections_app, !no_sections_map, (locations_no_sections location).
Qed.

Definition owned (s : Z) : res (list (Z * Z)) := secondaries ← ordered_secondaries I s; Ok (map (fun id => (id, s)) (s :: secondaries)).

Lemma add_section_placed b b' owners s : has_custom_phdrs I = false -> order_partial_link I = false -> (exists info, output_info I s = Ok info /\ merge_target info = None) ->
  placed b owners -> add_section I s b = Ok b' -> exists l, owned s = Ok l /\ placed b' (owners ++ l).
Proof.
  intros Hc Hp (info & Hi & Hm) Hb. unfold add_section, owned. rewrite Hi. cbn [mbind res_bind].
  destruct (if should_end_current_rw_segment I s info b then _ else _) as [b1| |] eqn:E1; cbn [mbind res_bind]; [|done|done].
  assert (placed b1 owners) as Hb1 by (destruct should_end_current_rw_segment; [by apply (end_rw_placed b)|by injection E1 as <-]).
  destruct (start_stop_segments_for_section I s info b1) as [c| |] eqn:Ec; cbn [mbind res_bind]; [|done|done].
  set (location := match section_location info with Some l => _ | None => _ end).
  assert (forallb is_location location = true) as Hl by (unfold location; destruct (section_location info); [by destruct (attr_is_alloc (attributes info))|done]).
  destruct (changed_placed _ _ location _ _ _ Hb1 Hc Hp Hm Ec Hl) as [Hb2 Hin]. revert Hb2 Hin. generalize (mkOrder (events b1 ++ map Layout.SegmentEnd (stop c) ++ location ++ map Layout.SegmentStart (start c)) (segments c) (kinds c) (regions c) (last_location_counter b1)).
  intros b2 Hb2 Hin. destruct (emit_info_counters I info b2) as [b3| |] eqn:E3; cbn [mbind res_bind]; [|done|done]. apply emit_info_spec in E3.
  destruct (ordered_secondaries I s) as [sids| |]; cbn [mbind res_bind]; [|done|done]. intros H. exists ((s, s) :: map (fun id => (id, s)) sids). split; [done|].
  change ((s, s) :: map (fun id => (id, s)) sids) with ([(s, s)] ++ map (fun id => (id, s)) sids). rewrite app_assoc.
  assert (inside (push_event (Layout.Section_ s) b3) s info) as Hin3 by (exact (inside_emits _ _ _ _ Hin E3)).
  apply (secondaries_placed s info _ _ _ _ (placed_push _ _ s s info (placed_emits _ _ _ Hb2 E3) (inside_emits _ _ _ _ Hin E3) Hi) Hin3 Hi H).
Qed.

Lemma new_placed : placed (new_builder I) [].
Proof.
  split; cbn; [apply length_replicate|apply kinds_none|rewrite omap_none; constructor|by rewrite omap_none|constructor].
Qed.

Lemma add_sections_placed sections : forall b b' owners, has_custom_phdrs I = false -> order_partial_link I = false ->
  Forall (fun s => exists info, output_info I s = Ok info /\ merge_target info = None) sections -> placed b owners -> add_sections I sections b = Ok b' ->
  exists l, mapM owned sections = Ok l /\ placed b' (owners ++ concat l).
Proof.
  unfold add_sections. induction sections as [|s sections IH]; intros b b' owners Hc Hp Hs Hb H.
  { injection H as <-. exists []. cbn. by rewrite app_nil_r. }
  cbn [for_each] in H. destruct (add_section I s b) as [b1| |] eqn:E; cbn [mbind res_bind] in H; [|done|done].
  apply Forall_cons in Hs as [Hs0 Hs]. destruct (add_section_placed _ _ _ _ Hc Hp Hs0 Hb E) as (l0 & H0 & Hb1).
  destruct (IH _ _ _ Hc Hp Hs Hb1 H) as (l & Hl & Hb'). exists (l0 :: l). cbn. rewrite H0. cbn [mbind res_bind]. rewrite Hl. split; [done|].
  by rewrite app_assoc.
Qed.

Lemma unconditional_placed defs : forall es segs es' segs' owners, for_each unconditional_segment defs (es, segs) = Ok (es', segs') ->
  active es [] = [] -> Forall2 (placed_ok segs) (placements es []) owners -> active es' [] = [] /\ Forall2 (placed_ok segs') (placements es' []) owners.
Proof.
  induction defs as [|def defs IH]; intros es segs es' segs' owners H Ha Hf; cbn [for_each] in H; [by injection H as <- <-|].
  destruct (unconditional_segment def (es, segs)) as [[es1 segs1]| |] eqn:E; cbn [mbind res_bind] in H; [|done|done]. revert E. unfold unconditional_segment, add_segment. cbn [fst snd].
  destruct (Z.of_nat (length segs) <? 256); cbn [mbind res_bind]; [|done]. intros [= <- <-]. apply (IH _ _ _ _ owners) in H; [done| |].
  - rewrite active_app, Ha. cbn. by rewrite Z.eqb_refl.
  - rewrite placements_app, Ha. cbn. rewrite app_nil_r. eapply Forall2_impl; [done|]. intros. by apply placed_ok_app.
Qed.

Lemma build_placed b es segs owners : has_custom_phdrs I = false -> order_partial_link I = false -> placed b owners -> build I b = Ok (es, segs) ->
  Forall2 (placed_ok segs) (placements es []) owners /\ active es [] = [].
Proof.
  intros Hc Hp Hb. unfold build. rewrite Hc, Hp. cbn [orb].
  destruct (match last_location_counter b with Some _ => _ | None => _ end) as [b1| |] eqn:E; cbn [mbind res_bind]; [|done|done].
  assert (placed b1 owners) as [H1 H2 H3 H4 H5].
  { destruct (last_location_counter b); [|by injection E as <-]. apply emit_counters_spec in E. by apply (placed_emits b). }
  intros H. apply and_comm. apply (unconditional_placed _ _ _ _ _ owners H).
  - rewrite active_app. apply Permutation_nil_r. by apply (active_ends _ []); [rewrite H4|].
  - rewrite placements_app, (placements_none (map _ _)), app_nil_r by by apply no_sections_map. done.
Qed.
End Segments.

(** While an output section, or a secondary section of it, is placed, exactly those segments
    are active that belong there: one for each segment definition whose test includes the
    primary section.  The sections of the order are the given ones, each followed by its
    secondary sections, and at the end no segment is active. *)
Lemma order_placed {P : SectionPlatform} {SP : SegmentPlatform} (I : OrderInput) sections b es segs :
  has_custom_phdrs I = false -> order_partial_link I = false ->
  Forall (fun s => exists info, output_info I s = Ok info /\ merge_target info = None) sections ->
  add_sections I sections (new_builder I) = Ok b -> build I b = Ok (es, segs) ->
  exists owners, mapM (owned I) sections = Ok owners /\ Forall2 (placed_ok I segs) (placements es []) (concat owners) /\ active es [] = [].
Proof.
  intros Hc Hp Hs Ha Hb. destruct (add_sections_placed I _ _ _ _ Hc Hp Hs (new_placed I) Ha) as (owners & Ho & Hpl).
  exists owners. split; [done|]. by apply (build_placed I b).
Qed.
