(* ===== verification/ElfOrder.v ===== *)
(** The order of an ELF file: [OutputSections::output_order] of
    [libjdxld/src/output_section_id.rs] and [build_output_order_and_program_segments] of
    [elf.rs], for scripts without program headers.

    [elf_order_complete] says that the order has each output section once and how often it sets
    each location counter, [elf_sections_in_segments] that each section is placed in the
    segments that include it, among them exactly one load segment if it is allocated.  The
    module [Example] runs scripts through [ScriptSections] and the order;
    [second_leading_location_unset] and [last_location_of_first_script_unset] show location
    counters that no event sets. *)
From Stdlib Require Import ZArith Lia.
From stdpp Require Import base list list_numbers numbers strings option gmap.
From S2P Require Import Prelude Alignment Layout Expressions Parsers ScriptExpressions ScriptParser VersionScript SectionRules ScriptSections Segments OutputOrder.

Local Open Scope Z_scope.

(** ** The order of an output file without program headers in a script *)
Section Order.
Context {P : SectionPlatform} {SP : SegmentPlatform}.

Record CustomSectionIds := mkCustom { ro : list Z; exec : list Z; data : list Z; bss : list Z; nonalloc : list Z; tdata : list Z; tbss : list Z }.

Definition no_custom : CustomSectionIds := mkCustom [] [] [] [] [] [] [].

Definition add_custom (id : Z) (attr : Attributes) (c : CustomSectionIds) : CustomSectionIds :=
  let '(mkCustom ro exec data bss nonalloc tdata tbss) := c in
  if attr_is_executable attr then mkCustom ro (exec ++ [id]) data bss nonalloc tdata tbss
  else if attr_is_tls attr then
    if attr_is_no_bits attr then mkCustom ro exec data bss nonalloc tdata (tbss ++ [id]) else mkCustom ro exec data bss nonalloc (tdata ++ [id]) tbss
  else if negb (attr_is_writable attr) then
    if attr_is_alloc attr then mkCustom (ro ++ [id]) exec data bss nonalloc tdata tbss else mkCustom ro exec data bss (nonalloc ++ [id]) tdata tbss
  else if attr_is_no_bits attr then mkCustom ro exec data (bss ++ [id]) nonalloc tdata tbss
  else mkCustom ro exec (data ++ [id]) bss nonalloc tdata tbss.

(** One section of the table: secondary sections go to the list of their primary one, custom
    sections to the class of their attributes. *)
Definition classify (id : Z) (info : SectionOutputInfo) (st : CustomSectionIds * list (list Z)) : res (CustomSectionIds * list (list Z)) :=
  let '(custom, secondary) := st in
  match kind info with
  | Secondary primary => secondary ← index_update secondary primary (fun l => l ++ [id]); Ok (custom, secondary)
  | Primary _ => Ok (if id <? num_built_in_sections then custom else add_custom id (attributes info) custom, secondary)
  end.

Definition classify_all (infos : list SectionOutputInfo) : res (CustomSectionIds * list (list Z)) :=
  for_each (fun e => classify (Z.of_nat e.1) e.2) (enumerate infos) (no_custom, replicate (length infos) []).

(** The sections of an ELF file in their order. *)
Definition elf_sections (custom : CustomSectionIds) : list Z :=
  [1; 2; 3; 22; 23; 18; 47; 14; 15; 16; 17; 19; 20; 21; 26; 30; 9; 34; 11; 10; 12; 46] ++ ro custom ++
  [8; 39; 40] ++ exec custom ++ [38; 42] ++ tdata custom ++ [43] ++ tbss custom ++ [35; 36; 37; 48; 13; 6; 29; 41] ++ data custom ++
  [44] ++ bss custom ++ nonalloc custom ++ [33; 45; 28; 4; 24; 31; 5].

Definition elf_output_order (os : OutputSections) (rosegment : bool) (location_counters : list LocationCounter) : res (list (OrderEvent (Expression := Expression)) * list SegmentDef) :=
  '(custom, secondary) ← classify_all (section_infos os);
  let I := mkOrderInput program_segment_defs os rosegment secondary (is_partial_link os) false location_counters in
  b ← add_sections I (elf_sections custom) (new_builder I);
  build I b.
End Order.

(** ** The sections of an order *)
Section Complete.
Context {P : SectionPlatform} {SP : SegmentPlatform}.

Definition customs (c : CustomSectionIds) : list Z := ro c ++ exec c ++ data c ++ bss c ++ nonalloc c ++ tdata c ++ tbss c.

Lemma customs_add id attr c : customs (add_custom id attr c) ≡ₚ customs c ++ [id].
Proof.
  destruct c as [r e d b n td tb]. unfold add_custom, customs. repeat case_match; cbn [ro exec data bss nonalloc tdata tbss]; solve_Permutation.
Qed.

Definition is_custom (infos : list SectionOutputInfo) (id : Z) : Prop :=
  num_built_in_sections <= id /\ exists info, 0 <= id /\ infos !! Z.to_nat id = Some info /\ merge_target info = None.

Definition merges_into (infos : list SectionOutputInfo) (p id : Z) : Prop :=
  exists info, 0 <= id /\ infos !! Z.to_nat id = Some info /\ kind info = Secondary p.

Lemma lookup_at_end (infos : list SectionOutputInfo) info id x : 0 <= id -> (infos ++ [info]) !! Z.to_nat id = Some x <->
  infos !! Z.to_nat id = Some x \/ (id = Z.of_nat (length infos) /\ x = info).
Proof.
  intros H0. split.
  - intros H. destruct (snoc_lookup _ _ _ _ H) as [?|[? ->]]; [by left|]. right. split; [lia|done].
  - intros [H|[-> ->]]; [by apply lookup_app_l_Some|]. rewrite Nat2Z.id. by apply list_lookup_middle.
Qed.

Record classified (infos : list SectionOutputInfo) (n : nat) (st : CustomSectionIds * list (list Z)) : Prop := {
  classified_customs : NoDup (customs st.1);
  classified_custom id : id ∈ customs st.1 <-> is_custom infos id;
  classified_length : length st.2 = n;
  classified_secondary p l : st.2 !! p = Some l -> NoDup l /\ forall id, id ∈ l <-> merges_into infos (Z.of_nat p) id
}.

Lemma classified_step infos n st info st' : classified infos n st -> classify (Z.of_nat (length infos)) info st = Ok st' -> classified (infos ++ [info]) n st'.
Proof.
  destruct st as [c sec]. intros [H1 H2 H3 H4]. cbn [fst snd] in *. unfold classify.
  assert (forall id, is_custom infos id -> id < Z.of_nat (length infos)) as Hlt by (intros id (_ & x & H0 & Hx%lookup_lt_Some & _); lia).
  assert (forall p id, merges_into infos p id -> id < Z.of_nat (length infos)) as Hlt2 by (intros p id (x & H0 & Hx%lookup_lt_Some & _); lia).
  destruct (kind info) as [i|p] eqn:Ek.
  - intros [= <-]. assert (forall p id, merges_into (infos ++ [info]) p id <-> merges_into infos p id) as Hm.
    { intros p id. unfold merges_into. split; intros (x & H0 & Hx & Hkx); exists x; (split_and!; [done| |done]); [|by apply lookup_app_l_Some].
      apply lookup_at_end in Hx as [Hx|[_ ->]]; [done|congruence|done]. }
    assert (forall id, is_custom (infos ++ [info]) id <-> is_custom infos id \/ (id = Z.of_nat (length infos) /\ num_built_in_sections <= id)) as Hc.
    { intros id. unfold is_custom. split.
      - intros (Hb & x & H0 & Hx & Hkx). apply lookup_at_end in Hx as [Hx|[-> ->]]; [|auto|done]. left. split; [done|]. by exists x.
      - intros [(Hb & x & H0 & Hx & Hkx)|[-> Hb]]; (split; [done|]); [exists x|exists info]; (split_and!; [lia|apply lookup_at_end; [lia|]; auto|]); [done|].
        unfold merge_target. by rewrite Ek. }
    assert (forall q l, sec !! q = Some l -> NoDup l /\ forall id, id ∈ l <-> merges_into (infos ++ [info]) (Z.of_nat q) id) as Hs.
    { intros q l Hq. destruct (H4 q l Hq) as [Hd Hi]. split; [done|]. intros id. by rewrite Hm. }
    case_match; (split; cbn [fst snd]; [| |done|done]).
    + done.
    + intros id. rewrite Hc, H2. split; [by left|]. intros [?|[-> ?]]; [done|lia].
    + rewrite customs_add. apply NoDup_app. split_and!; [done| |apply NoDup_singleton]. intros x Hx ->%list_elem_of_singleton. apply H2, Hlt in Hx. lia.
    + intros id. rewrite customs_add, elem_of_app, list_elem_of_singleton, Hc, H2. split; [intros [?| ->]; [by left|right; lia]|intros [?|[-> _]]; auto].
  - destruct (index_update sec p _) as [sec'| |] eqn:E; cbn [mbind res_bind]; [|done|done]. intros [= <-].
    unfold index_update in E. destruct (index sec p) as [l0| |] eqn:El; cbn [mbind res_bind] in E; [|done|done]. injection E as <-. apply index_ok in El as [Hp El].
    split; cbn [fst snd]; [done| |by rewrite length_insert|].
    + intros id. rewrite H2. unfold is_custom. split; intros (Hb & x & H0 & Hx & Hkx); (split; [done|]); exists x; (split_and!; [done| |done]).
      * apply lookup_at_end; [done|]. by left.
      * apply lookup_at_end in Hx as [Hx|[_ ->]]; [done| |done]. unfold merge_target in Hkx. by rewrite Ek in Hkx.
    + assert (forall q id, merges_into (infos ++ [info]) q id <-> merges_into infos q id \/ (id = Z.of_nat (length infos) /\ q = p)) as Hm.
      { intros q id. unfold merges_into. split.
        - intros (x & H0 & Hx & Hkx). apply lookup_at_end in Hx as [Hx|[-> ->]]; [| |done]; [left; by exists x|right]. split; [done|]. congruence.
        - intros [(x & H0 & Hx & Hkx)|[-> ->]]; [exists x|exists info]; (split_and!; [lia| |done]); apply lookup_at_end; auto; lia. }
      intros q l. destruct (decide (q = Z.to_nat p)) as [->|Hq].
      * rewrite list_lookup_insert_eq by by eapply lookup_lt_Some. intros [= <-]. destruct (H4 _ _ El) as [Hd Hi]. split.
        -- apply NoDup_app. split_and!; [done| |apply NoDup_singleton]. intros x Hx ->%list_elem_of_singleton. apply Hi, Hlt2 in Hx. lia.
        -- intros id. rewrite elem_of_app, list_elem_of_singleton, Hi, Hm, Z2Nat.id by done. split; [intros [?| ->]; auto|intros [?|[-> _]]; auto].
      * rewrite list_lookup_insert_ne by done. intros Hl. destruct (H4 _ _ Hl) as [Hd Hi]. split; [done|]. intros id. rewrite Hi, Hm. split; [by left|].
        intros [?|[_ ?]]; [done|lia].
Qed.

Lemma enumerate_snoc {A} (l : list A) x : enumerate (l ++ [x]) = enumerate l ++ [(length l, x)].
Proof.
  apply list_eq. intros i. destruct (decide (i = length l)) as [->|Hi].
  - rewrite (list_lookup_middle (enumerate l)) by by rewrite length_enumerate. apply lookup_enumerate. exists x. split; [done|]. by apply list_lookup_middle.
  - apply option_eq. intros y. rewrite lookup_enumerate. split.
    + intros (a & -> & H). destruct (snoc_lookup _ _ _ _ H) as [H'|[? _]]; [|done]. apply lookup_app_l_Some, lookup_enumerate. eauto.
    + intros H. destruct (snoc_lookup _ _ _ _ H) as [(a & -> & Ha)%lookup_enumerate|[-> _]]; [exists a; split; [done|by apply lookup_app_l_Some]|].
      by rewrite length_enumerate in Hi.
Qed.

Lemma classify_spec infos st : classify_all infos = Ok st -> classified infos (length infos) st.
Proof.
  unfold classify_all. generalize (length infos) at 1 2 as n. intros n. revert st.
  induction infos as [|info infos IH] using rev_ind; intros st.
  - intros [= <-]. split; cbn; [constructor| |apply length_replicate|].
    + intros id. split; [by intros ?%elem_of_nil|intros (_ & x & _ & Hx & _)]. by rewrite lookup_nil in Hx.
    + intros p l [-> _]%lookup_replicate. split; [constructor|]. intros id. split; [by intros ?%elem_of_nil|]. intros (x & _ & Hx & _). by rewrite lookup_nil in Hx.
  - rewrite enumerate_snoc, for_each_app. destruct (for_each _ (enumerate infos) _) as [st1| |] eqn:E; cbn [mbind res_bind]; [|done|done].
    cbn [for_each fst snd]. destruct (classify _ _ st1) as [st2| |] eqn:E2; cbn [mbind res_bind]; [|done|done]. intros [= <-]. apply (classified_step _ _ st1); auto.
Qed.
End Complete.

(** ** Location counters of an order *)
Section Counters.
Context {P : SectionPlatform} {SP : SegmentPlatform} (I : OrderInput).

Abbreviation Event := (OrderEvent (Expression := Expression)).

Definition section_id_of (e : Event) : option Z := match e with Layout.Section_ sid => Some sid | _ => None end.

(** The output sections of an order. *)
Definition section_ids (es : list Event) : list Z := omap section_id_of es.

Definition counter_of (e : Event) : option Z := match e with SetLocation _ _ idx | SetLocationRelative _ _ _ idx => Some idx | _ => None end.

(** The location counters that an order sets. *)
Definition counter_ids (es : list Event) : list Z := omap counter_of es.

Definition info_counters (info : SectionOutputInfo) : list Z := seqZ (range_of info).1 ((range_of info).2 - (range_of info).1).

Definition counters_at (id : Z) : list Z := match output_info I id with Ok info => info_counters info | _ => [] end.

Definition end_at (id : Z) : Z := match output_info I id with Ok info => (range_of info).2 | _ => 0 end.

Definition max_end (ids : list Z) : Z := foldr (fun id m => end_at id `max` m) 0 ids.

Lemma max_end_snoc ids id : max_end (ids ++ [id]) = max_end ids `max` end_at id.
Proof. induction ids as [|x ids IH]; cbn; [lia|]. fold (max_end (ids ++ [id])) (max_end ids). rewrite IH. lia. Qed.

Lemma max_end_nonneg ids : 0 <= max_end ids.
Proof. induction ids as [|x ids IH]; cbn; [done|]. fold (max_end ids). lia. Qed.

(** The location counters that were set are those of the sections that were placed. *)
Definition counted (b : OutputOrderBuilder) : Prop :=
  counter_ids (events b) = section_ids (events b) ≫= counters_at /\
  last_location_counter b = (fun _ => max_end (section_ids (events b))) <$> last (location_counters_in I).

Lemma emit_counter_ids lo hi b b' : emit_location_counters I lo hi b = Ok b' ->
  section_ids (events b') = section_ids (events b) /\ counter_ids (events b') = counter_ids (events b) ++ seqZ lo (hi - lo) /\
  last_location_counter b' = (fun l => l `max` hi) <$> last_location_counter b.
Proof.
  unfold emit_location_counters. destruct (for_each _ _ b) as [b1| |] eqn:E; cbn [mbind res_bind]; [|done|done]. intros [= <-].
  assert (section_ids (events b1) = section_ids (events b) /\ counter_ids (events b1) = counter_ids (events b) ++ seqZ lo (hi - lo) /\
    last_location_counter b1 = last_location_counter b) as (H1 & H2 & H3); [|by rewrite H3].
  revert b E. induction (seqZ lo (hi - lo)) as [|idx l IH]; intros b; cbn [for_each].
  { intros [= ->]. by rewrite app_nil_r. }
  destruct (location_event I idx) as [e| |] eqn:Ee; cbn [mbind res_bind]; [|done|done]. intros (H1 & H2 & H3)%IH.
  assert (section_id_of e = None /\ counter_of e = Some idx) as [He1 He2].
  { revert Ee. unfold location_event. destruct (index _ idx) as [[]| |]; cbn [mbind res_bind]; try done; [by intros [= <-]|].
    destruct (primary_output_section I _); cbn [mbind res_bind]; try done. by intros [= <-]. }
  rewrite H1, H2, H3. unfold section_ids, counter_ids. cbn [push_event events last_location_counter]. rewrite !omap_app. cbn. rewrite He1, He2, app_nil_r, <- app_assoc.
  done.
Qed.

(** [b'] has placed the sections [ids] after [b], with their location counters. *)
Definition places (b : OutputOrderBuilder) (ids : list Z) (b' : OutputOrderBuilder) : Prop :=
  section_ids (events b') = section_ids (events b) ++ ids /\ (counted b -> counted b').

Lemma places_trans a x b y c : places a x b -> places b y c -> places a (x ++ y) c.
Proof. intros [H1 H2] [H3 H4]. split; [by rewrite H3, H1, app_assoc|auto]. Qed.

(** Events without sections and location counters. *)
Lemma places_other b b' es : events b' = events b ++ es -> last_location_counter b' = last_location_counter b -> section_ids es = [] -> counter_ids es = [] -> places b [] b'.
Proof.
  intros He Hl Hs Hc. unfold places, counted. rewrite He, Hl. unfold section_ids, counter_ids in *. by rewrite !omap_app, Hs, Hc, !app_nil_r.
Qed.

Lemma places_section b b' id info : output_info I id = Ok info -> emit_info_counters I info b = Ok b' -> places b [id] (push_event (Layout.Section_ id) b').
Proof.
  intros Hi H. assert (section_ids (events b') = section_ids (events b) /\ counter_ids (events b') = counter_ids (events b) ++ info_counters info /\
    last_location_counter b' = (fun l => l `max` match location_info info with Some _ => (range_of info).2 | None => l end) <$> last_location_counter b) as (H1 & H2 & H3).
  { revert H. unfold emit_info_counters, info_counters, range_of. destruct (location_info info) as [l|]; [apply emit_counter_ids|]. intros [= <-].
    rewrite app_nil_r. split_and!; [done..|]. destruct (last_location_counter b); cbn; [|done]. by rewrite Z.max_id. }
  unfold places, counted, push_event. cbn [events last_location_counter]. unfold section_ids, counter_ids in *. rewrite !omap_app, H1, H2, H3. cbn. split; [done|].
  intros [Hc Hl]. split.
  - rewrite app_nil_r, bind_app, Hc. cbn. by rewrite app_nil_r; unfold counters_at; rewrite Hi.
  - rewrite Hl. destruct (last (location_counters_in I)); cbn; [|done]. f_equal. fold (section_ids (events b)). rewrite max_end_snoc. unfold end_at. rewrite Hi.
    unfold range_of. destruct (location_info info); [done|]. cbn. pose proof (max_end_nonneg (section_ids (events b))). lia.
Qed.

Lemma secondaries_place sids : forall b b', for_each (add_secondary I) sids b = Ok b' -> places b sids b'.
Proof.
  induction sids as [|sid sids IH]; intros b b'; cbn [for_each]; [intros [= <-]; split; [by rewrite app_nil_r|done]|].
  destruct (add_secondary I sid b) as [b2| |] eqn:E2; cbn [mbind res_bind]; [|done|done]. revert E2. unfold add_secondary.
  destruct (output_info I sid) as [sinfo| |] eqn:Ei; cbn [mbind res_bind]; [|done|done].
  destruct (emit_info_counters I sinfo b) as [b1| |] eqn:E; cbn [mbind res_bind]; [|done|done]. intros [= <-] H.
  apply (places_trans _ [sid] _ sids _ (places_section _ _ _ _ Ei E)), IH, H.
Qed.

Lemma no_ids_map (f : Z -> Event) l : (forall x, section_id_of (f x) = None) -> (forall x, counter_of (f x) = None) -> section_ids (map f l) = [] /\ counter_ids (map f l) = [].
Proof. intros H1 H2. unfold section_ids, counter_ids. induction l as [|x l [IH1 IH2]]; cbn; [done|]. by rewrite H1, H2. Qed.

Lemma end_rw_places b b' : end_rw_load_segment I b = Ok b' -> places b [] b'.
Proof.
  assert (places b [] b) as Hb by (by apply (places_other _ _ []); rewrite ?app_nil_r).
  unfold end_rw_load_segment. destruct (list_find _ _) as [[i def]|]; [|by intros [= <-]].
  destruct (index _ _) as [[id|]| |]; cbn [mbind res_bind]; try done; [|by intros [= <-]].
  destruct (index_update _ _ _) as [rs| |]; cbn [mbind res_bind]; [|done|done]. intros [= <-]. by apply (places_other _ _ [Layout.SegmentEnd id]).
Qed.

Lemma add_section_places s b b' : add_section I s b = Ok b' -> exists secs, ordered_secondaries I s = Ok secs /\ places b (s :: secs) b'.
Proof.
  unfold add_section. destruct (output_info I s) as [info| |] eqn:Hi; cbn [mbind res_bind]; [|done|done].
  destruct (if should_end_current_rw_segment I s info b then _ else _) as [b1| |] eqn:E1; cbn [mbind res_bind]; [|done|done].
  assert (places b [] b1) as Hb1.
  { destruct should_end_current_rw_segment; [by apply end_rw_places|]. injection E1 as <-. by apply (places_other _ _ []); rewrite ?app_nil_r. }
  destruct (start_stop_segments_for_section I s info b1) as [c| |]; cbn [mbind res_bind]; [|done|done].
  set (location := match section_location info with Some l => _ | None => _ end). set (b2 := mkOrder _ _ _ _ _).
  assert (places b1 [] b2) as Hb2.
  { apply (places_other _ _ (map Layout.SegmentEnd (stop c) ++ location ++ map Layout.SegmentStart (start c))); [done|done| |];
      unfold section_ids, counter_ids; rewrite !omap_app; fold (section_ids (map Layout.SegmentEnd (stop c))) (counter_ids (map Layout.SegmentEnd (stop c)))
      (section_ids (map Layout.SegmentStart (start c))) (counter_ids (map Layout.SegmentStart (start c)));
      destruct (no_ids_map Layout.SegmentEnd (stop c)) as [Hs1 Hc1], (no_ids_map Layout.SegmentStart (start c)) as [Hs2 Hc2]; try done;
      rewrite ?Hs1, ?Hs2, ?Hc1, ?Hc2; unfold location; destruct (section_location info); try done; by destruct (attr_is_alloc (attributes info)). }
  clearbody b2. destruct (emit_info_counters I info b2) as [b3| |] eqn:E3; cbn [mbind res_bind]; [|done|done].
  destruct (ordered_secondaries I s) as [secs| |]; cbn [mbind res_bind]; [|done|done]. intros H. exists secs. split; [done|].
  apply (places_trans _ [] _ _ _ Hb1), (places_trans _ [] _ _ _ Hb2), (places_trans _ [s] _ secs _ (places_section _ _ _ _ Hi E3)), secondaries_place, H.
Qed.

Lemma add_sections_places sections : forall b b', add_sections I sections b = Ok b' ->
  exists secs, mapM (ordered_secondaries I) sections = Ok secs /\ places b (concat (zip_with cons sections secs)) b'.
Proof.
  unfold add_sections. induction sections as [|s sections IH]; intros b b'; cbn [for_each]; [intros [= <-]; exists []; split; [done|]; by apply (places_other _ _ []); rewrite ?app_nil_r|].
  destruct (add_section I s b) as [b1| |] eqn:E; cbn [mbind res_bind]; [|done|done]. intros (secs & Hm & Hp)%IH.
  apply add_section_places in E as (sec & H0 & Hp0). exists (sec :: secs). cbn. rewrite H0. cbn [mbind res_bind]. rewrite Hm. split; [done|].
  apply (places_trans _ (s :: sec) _ _ _ Hp0 Hp).
Qed.

Lemma unconditional_ids defs : forall es segs es' segs', for_each unconditional_segment defs (es, segs) = Ok (es', segs') ->
  section_ids es' = section_ids es /\ counter_ids es' = counter_ids es.
Proof.
  induction defs as [|def defs IH]; intros es segs es' segs' H; cbn [for_each] in H; [by injection H as <- <-|].
  destruct (unconditional_segment def (es, segs)) as [[es1 segs1]| |] eqn:E; cbn [mbind res_bind] in H; [|done|done]. revert E. unfold unconditional_segment, add_segment. cbn [fst snd].
  destruct (Z.of_nat (length segs) <? 256); cbn [mbind res_bind]; [|done]. intros [= <- <-]. apply IH in H as [-> ->]. unfold section_ids, counter_ids. rewrite !omap_app. cbn. by rewrite !app_nil_r.
Qed.

Definition trailing (ids : list Z) : list Z :=
  match last (location_counters_in I) with Some _ => seqZ (max_end ids) (Z.of_nat (length (location_counters_in I)) - max_end ids) | None => [] end.

Lemma build_ids b es segs : build I b = Ok (es, segs) -> counted b ->
  section_ids es = section_ids (events b) /\ counter_ids es = (section_ids es ≫= counters_at) ++ trailing (section_ids es).
Proof.
  unfold build. intros H [Hc Hl]. revert H. rewrite Hl. unfold trailing. destruct (last (location_counters_in I)) as [lc|]; cbn [fmap option_fmap option_map].
  - destruct (emit_location_counters I _ _ b) as [b1| |] eqn:E; cbn [mbind res_bind]; [|done|done]. apply emit_counter_ids in E as (H1 & H2 & _).
    destruct (no_ids_map Layout.SegmentEnd (omap id (active_segment_kinds b1))) as [Hs Hk]; [done..|].
    set (tail := map Layout.SegmentEnd (omap id (active_segment_kinds b1))) in *.
    assert (section_ids (events b1 ++ tail) = section_ids (events b) /\ counter_ids (events b1 ++ tail) = counter_ids (events b1)) as [Hs' Hk'].
    { unfold section_ids, counter_ids in *. by rewrite !omap_app, Hs, Hk, !app_nil_r. }
    destruct (_ || _).
    + intros [= <- <-]. rewrite Hs', Hk', H2, Hc. done.
    + intros [-> ->]%unconditional_ids. rewrite Hs', Hk', H2, Hc. done.
  - cbn [mbind res_bind]. destruct (no_ids_map Layout.SegmentEnd (omap id (active_segment_kinds b))) as [Hs Hk]; [done..|].
    set (tail := map Layout.SegmentEnd (omap id (active_segment_kinds b))) in *.
    assert (section_ids (events b ++ tail) = section_ids (events b) /\ counter_ids (events b ++ tail) = counter_ids (events b)) as [Hs' Hk'].
    { unfold section_ids, counter_ids in *. by rewrite !omap_app, Hs, Hk, !app_nil_r. }
    rewrite app_nil_r. destruct (_ || _).
    + intros [= <- <-]. rewrite Hs', Hk', Hc. done.
    + intros [-> ->]%unconditional_ids. rewrite Hs', Hk', Hc. done.
Qed.
End Counters.

(** ** ELF *)
Section ElfOrder.
#[local] Existing Instance elf.
Context (a : Alignment).
#[local] Instance segments_of_elf : SegmentPlatform := elf_segments a.

Definition built_in_primary (id : Z) : bool :=
  match SECTION_DEFINITIONS a !! Z.to_nat id with Some d => match details_kind d with Primary _ => true | Secondary _ => false end | None => false end.

(** A table of output sections as [ScriptSections] leaves it: built-in sections keep their
    kind, secondary sections belong to primary ones, and no script places section 0. *)
Record elf_table (infos : list SectionOutputInfo) : Prop := {
  table_length : (49 <= length infos)%nat;
  table_built_in k info d : infos !! k = Some info -> SECTION_DEFINITIONS a !! k = Some d -> kind info = details_kind d;
  table_secondary k info p : infos !! k = Some info -> kind info = Secondary p ->
    0 < p /\ exists info', infos !! Z.to_nat p = Some info' /\ merge_target info' = None;
  table_unmapped info : infos !! O = Some info -> location_info info = None
}.

Lemma elf_sections_split (c : CustomSectionIds) : elf_sections c ≡ₚ elf_sections no_custom ++ customs c.
Proof.
  unfold elf_sections, customs. cbn [ro exec data bss nonalloc tdata tbss no_custom]. rewrite !app_nil_l.
  generalize [1; 2; 3; 22; 23; 18; 47; 14; 15; 16; 17; 19; 20; 21; 26; 30; 9; 34; 11; 10; 12; 46] [8; 39; 40] [38; 42] [43] [35; 36; 37; 48; 13; 6; 29; 41] [44] [33; 45; 28; 4; 24; 31; 5].
  intros A B C D E F G. solve_Permutation.
Qed.

Lemma built_in_sections : NoDup (elf_sections no_custom) /\ forall id, id ∈ elf_sections no_custom <-> 1 <= id < 49 /\ built_in_primary id = true.
Proof.
  split; [by apply (bool_decide_unpack _); vm_compute|]. intros id.
  assert (Forall (fun id => bool_decide (id ∈ elf_sections no_custom) = built_in_primary id) (seqZ 1 48)) as H1 by (by apply (bool_decide_unpack _); vm_compute).
  assert (Forall (fun id => 1 <= id < 49) (elf_sections no_custom)) as H2 by (by apply (bool_decide_unpack _); vm_compute).
  rewrite Forall_forall in H1, H2. split.
  - intros Hid. split; [by apply H2|]. rewrite <- H1 by (apply elem_of_seqZ; pose proof (H2 _ Hid); lia). by apply bool_decide_eq_true_2.
  - intros [Hr Hb]. rewrite <- H1 in Hb by (apply elem_of_seqZ; lia). by apply bool_decide_eq_true_1 in Hb.
Qed.

Lemma definitions_length : length (SECTION_DEFINITIONS a) = 49%nat.
Proof. done. Qed.

(** The ordered sections are the primary ones of the table. *)
Lemma elf_sections_primary infos n st id : elf_table infos -> classified infos n st ->
  id ∈ elf_sections st.1 <-> 1 <= id /\ exists info, infos !! Z.to_nat id = Some info /\ merge_target info = None.
Proof.
  intros HT HC. rewrite (elf_sections_split st.1), elem_of_app, (proj2 built_in_sections), (classified_custom _ _ _ HC).
  assert (forall info, 1 <= id < 49 -> infos !! Z.to_nat id = Some info -> built_in_primary id = true <-> merge_target info = None) as Hb.
  { intros info Hr Hi. destruct (lookup_lt_is_Some_2 (SECTION_DEFINITIONS a) (Z.to_nat id)) as [d Hd]; [rewrite definitions_length; lia|].
    unfold built_in_primary, merge_target. rewrite Hd, (table_built_in _ HT _ _ _ Hi Hd). by destruct (details_kind d). }
  unfold is_custom. cbn [num_built_in_sections segments_of_elf elf_segments]. split.
  - intros [[Hr Hp]|(Hn & info & H0 & Hi & Hm)].
    + split; [lia|]. destruct (lookup_lt_is_Some_2 infos (Z.to_nat id)) as [info Hi]; [pose proof (table_length _ HT); lia|]. exists info. split; [done|]. by apply (Hb info).
    + split; [lia|]. by exists info.
  - intros [H1 (info & Hi & Hm)]. destruct (Z.lt_ge_cases id 49) as [Hlt|Hge]; [left|right].
    + split; [lia|]. by apply (Hb info).
    + split; [done|]. exists info. split_and!; [lia|done|done].
Qed.

Lemma elf_sections_NoDup infos n st : classified infos n st -> NoDup (elf_sections st.1).
Proof.
  intros HC. rewrite (elf_sections_split st.1). apply NoDup_app. split_and!; [apply built_in_sections| |apply (classified_customs _ _ _ HC)].
  intros id Hid [Hn _]%(classified_custom _ _ _ HC). apply built_in_sections in Hid. cbn in Hn. lia.
Qed.

Definition with_secondaries (secondary : list (list Z)) (s : Z) : list Z := s :: default [] (secondary !! Z.to_nat s).

(** Each section but the first is in the order, once. *)
Lemma all_sections infos st : elf_table infos -> classified infos (length infos) st ->
  elf_sections st.1 ≫= with_secondaries st.2 ≡ₚ seqZ 1 (Z.of_nat (length infos) - 1).
Proof.
  intros HT HC. pose proof (fun id => elf_sections_primary _ _ _ id HT HC) as Hprim.
  assert (forall s y, 1 <= s -> y ∈ with_secondaries st.2 s <-> y = s \/ (s < Z.of_nat (length infos) /\ merges_into infos s y)) as Hin.
  { intros s y Hs. unfold with_secondaries. rewrite elem_of_cons. destruct (st.2 !! Z.to_nat s) as [l|] eqn:El; cbn [default].
    - destruct (classified_secondary _ _ _ HC _ _ El) as [_ Hl]. rewrite Hl, Z2Nat.id by lia. apply lookup_lt_Some in El. rewrite (classified_length _ _ _ HC) in El.
      split; [intros [?|?]; [by left|right; split; [lia|done]]|intros [?|[_ ?]]; auto].
    - apply lookup_ge_None in El. rewrite (classified_length _ _ _ HC) in El. split; [intros [?|H]; [by left|by apply elem_of_nil in H]|intros [?|[? _]]; [by left|lia]]. }
  assert (forall s s', s ∈ elf_sections st.1 -> merges_into infos s' s -> False) as Hno.
  { intros s s' [_ (info & Hi & Hm)]%Hprim (info' & _ & Hi' & Hk). rewrite Hi in Hi'. injection Hi' as <-. unfold merge_target in Hm. by rewrite Hk in Hm. }
  apply NoDup_Permutation; [|apply NoDup_seqZ|].
  - apply NoDup_bind; [| |by apply (elf_sections_NoDup infos (length infos))].
    + intros s s' y Hs Hs'. pose proof Hs as [H1 _]%Hprim. pose proof Hs' as [H1' _]%Hprim. rewrite !Hin by done.
      intros [->|[_ Hm]] [Hy|[_ Hm']]; [done| | |]; [by destruct (Hno s s')|subst y; by destruct (Hno s' s)|].
      destruct Hm as (info & _ & Hi & Hk), Hm' as (info' & _ & Hi' & Hk'). rewrite Hi in Hi'. injection Hi' as <-. rewrite Hk in Hk'. by injection Hk'.
    + intros s Hs. unfold with_secondaries. apply NoDup_cons. pose proof Hs as [H1 _]%Hprim. destruct (st.2 !! Z.to_nat s) as [l|] eqn:El; cbn [default]; [|split; [by intros ?%elem_of_nil|constructor]].
      destruct (classified_secondary _ _ _ HC _ _ El) as [Hd Hl]. split; [|done]. rewrite Hl, Z2Nat.id by lia. intros Hm. by apply (Hno s s).
  - intros y. rewrite elem_of_seqZ, list_elem_of_bind. split.
    + intros (s & Hy & Hs). pose proof Hs as [H1 (info & Hi & _)]%Hprim. apply lookup_lt_Some in Hi. apply Hin in Hy as [->|[_ (info' & H0 & Hi' & Hk)]]; [lia| |done].
      assert (y <> 0); [|apply lookup_lt_Some in Hi'; lia]. intros ->. change (Z.to_nat 0) with O in Hi'.
      pose proof (table_built_in _ HT O info' DEFAULT_DEFS Hi' eq_refl) as E. by rewrite Hk in E.
    + intros Hr. destruct (lookup_lt_is_Some_2 infos (Z.to_nat y)) as [info Hi]; [lia|]. destruct (kind info) as [i|p] eqn:Ek.
      * exists y. split; [apply Hin; [lia|]; by left|]. apply Hprim. split; [lia|]. exists info. unfold merge_target. by rewrite Ek.
      * destruct (table_secondary _ HT _ _ _ Hi Ek) as (Hp & info' & Hi' & Hm). exists p. split.
        -- apply Hin; [lia|]. right. split; [apply lookup_lt_Some in Hi'; lia|]. exists info. split_and!; [lia|done|done].
        -- apply Hprim. split; [lia|]. by exists info'.
Qed.
Lemma table_start infos : elf_table infos -> exists info, infos !! O = Some info /\ location_info info = None.
Proof.
  intros HT. destruct (lookup_lt_is_Some_2 infos 0) as [info Hi]; [pose proof (table_length _ HT); lia|]. exists info. split; [done|]. by apply (table_unmapped _ HT).
Qed.
End ElfOrder.

Section Final.
Context {P : SectionPlatform} {SP : SegmentPlatform} (I : OrderInput).

Lemma sort_by_key_perm l : sort_by_key l ≡ₚ l.
Proof.
  assert (forall x l, insert_by_key x l ≡ₚ x :: l) as Hi.
  { intros x k. induction k as [|y k IH]; cbn; [done|]. destruct (x.1 <=? y.1); [done|]. rewrite IH. constructor. }
  induction l as [|x l IH]; cbn; [done|]. by rewrite Hi, IH.
Qed.

Lemma ordered_secondaries_perm s l : ordered_secondaries I s = Ok l -> s :: l ≡ₚ with_secondaries (secondary I) s.
Proof.
  unfold ordered_secondaries, with_secondaries. destruct (index _ s) as [l0| |] eqn:E; cbn [mbind res_bind]; [|done|done]. apply index_ok in E as [_ ->].
  destruct (mapM _ l0) as [keyed| |] eqn:Ek; cbn [mbind res_bind]; [|done|done]. intros [= <-]. constructor. cbn [default].
  apply mapM_Ok_inv in Ek. assert (map snd keyed = l0) as <-; [|by rewrite sort_by_key_perm].
  induction Ek as [|x y l0 k Hx _ IH]; [done|]. cbn. f_equal; [|done]. revert Hx. unfold order_key. destruct (output_info I x); cbn [mbind res_bind]; try done. by intros [= <-].
Qed.

Lemma placed_perm sections secs : mapM (ordered_secondaries I) sections = Ok secs -> concat (zip_with cons sections secs) ≡ₚ sections ≫= with_secondaries (secondary I).
Proof.
  intros H%mapM_Ok_inv. induction H as [|s l sections secs Hs _ IH]; [done|]. cbn [zip_with concat mbind list_bind].
  change (s :: l ++ concat (zip_with cons sections secs)) with ((s :: l) ++ concat (zip_with cons sections secs)). by rewrite (ordered_secondaries_perm s l), IH.
Qed.

Lemma owned_spec sections owners sid owner : mapM (owned I) sections = Ok owners -> (sid, owner) ∈ concat owners -> owner ∈ sections /\ sid ∈ with_secondaries (secondary I) owner.
Proof.
  intros H%mapM_Ok_inv (l & Hl%list_elem_of_In & Hin%list_elem_of_In)%list_elem_of_In%in_concat.
  apply list_elem_of_lookup in Hl as [j Hj]. destruct (Forall2_lookup_r _ _ _ _ _ H Hj) as (s & Hs & Hsl). revert Hsl. unfold owned.
  destruct (ordered_secondaries I s) as [secs| |] eqn:Esec; cbn [mbind res_bind]; [|done|done]. intros [= <-].
  change ((sid, owner) ∈ (fun id => (id, s)) <$> (s :: secs)) in Hin. apply list_elem_of_fmap in Hin as (x & [= -> ->] & Hx).
  split; [by eapply list_elem_of_lookup_2|]. by rewrite <- (ordered_secondaries_perm s secs Esec).
Qed.

(** *** How often a location counter is set *)
Definition times (idx : Z) (l : list Z) : nat := length (List.filter (Z.eqb idx) l).

Lemma times_app idx l k : times idx (l ++ k) = (times idx l + times idx k)%nat.
Proof. unfold times. by rewrite List.filter_app, length_app. Qed.

Lemma times_perm idx l k : l ≡ₚ k -> times idx l = times idx k.
Proof.
  unfold times. induction 1 as [|x l k _ IH|x y l|l k m _ IH1 _ IH2]; cbn; [done| | |congruence].
  - destruct (idx =? x); cbn; [by f_equal|done].
  - by destruct (idx =? x), (idx =? y).
Qed.

Lemma times_seqZ idx lo n : times idx (seqZ lo n) = within (lo, lo + n) idx.
Proof.
  destruct (Z.le_gt_cases n 0) as [Hn|Hn]; [rewrite seqZ_nil, within_empty by lia; done|].
  replace n with (Z.of_nat (Z.to_nat n)) by lia. generalize (Z.to_nat n). clear n Hn. intros n. revert lo. induction n as [|n IH]; intros lo.
  { change (Z.of_nat 0) with 0. rewrite seqZ_nil, within_empty by lia. done. }
  rewrite seqZ_cons by lia. replace (Z.pred (Z.of_nat (S n))) with (Z.of_nat n) by lia. rewrite (within_split lo (Z.succ lo)) by lia.
  change (times idx (lo :: seqZ (Z.succ lo) (Z.of_nat n))) with (times idx ([lo] ++ seqZ (Z.succ lo) (Z.of_nat n))). rewrite times_app, IH. f_equal; [|f_equal; f_equal; lia].
  unfold times, within. cbn. destruct (Z.eqb_spec idx lo), (Z.leb_spec lo idx), (Z.ltb_spec idx (Z.succ lo)); cbn; try done; lia.
Qed.

Lemma info_counters_times idx info : times idx (info_counters info) = within (range_of info) idx.
Proof. unfold info_counters. rewrite times_seqZ. f_equal. destruct (range_of info) as [lo hi]. cbn. f_equal. lia. Qed.

(** All sections of the table set each location counter as often as it is in their ranges. *)
Lemma all_counters idx n : (n <= length (section_infos (order_sections I)))%nat -> times idx (seqZ 0 (Z.of_nat n) ≫= counters_at I) = cover (take n (section_infos (order_sections I))) idx.
Proof.
  induction n as [|n IH]; intros Hn; [done|]. destruct (lookup_lt_is_Some_2 (section_infos (order_sections I)) n) as [info Hi]; [lia|].
  rewrite (take_S_r _ _ _ Hi), cover_app, <- IH by lia. replace (Z.of_nat (S n)) with (Z.of_nat n + 1) by lia. rewrite seqZ_app, bind_app, times_app by lia. f_equal.
  change (seqZ (0 + Z.of_nat n) 1) with [0 + Z.of_nat n]. cbn [mbind list_bind]. rewrite app_nil_r. unfold counters_at, output_info, index.
  rewrite decide_True, Z.add_0_l, Nat2Z.id, Hi by lia. rewrite info_counters_times. cbn. lia.
Qed.

(** The end of the last range of a table. *)
Definition last_end (infos : list SectionOutputInfo) : Z := foldr (fun info m => (range_of info).2 `max` m) 0 infos.

Lemma last_end_snoc infos info : last_end (infos ++ [info]) = last_end infos `max` (range_of info).2.
Proof. induction infos as [|x infos IH]; cbn; [lia|]. fold (last_end (infos ++ [info])) (last_end infos). rewrite IH. lia. Qed.

Lemma all_ends n : (n <= length (section_infos (order_sections I)))%nat -> max_end I (seqZ 0 (Z.of_nat n)) = last_end (take n (section_infos (order_sections I))).
Proof.
  induction n as [|n IH]; intros Hn; [done|]. destruct (lookup_lt_is_Some_2 (section_infos (order_sections I)) n) as [info Hi]; [lia|].
  rewrite (take_S_r _ _ _ Hi), last_end_snoc, <- IH by lia. replace (Z.of_nat (S n)) with (Z.of_nat n + 1) by lia. rewrite seqZ_app by lia.
  change (seqZ (0 + Z.of_nat n) 1) with [0 + Z.of_nat n]. rewrite max_end_snoc. f_equal. unfold end_at, output_info, index. by rewrite decide_True, Z.add_0_l, Nat2Z.id, Hi by lia.
Qed.

Lemma max_end_perm l k : l ≡ₚ k -> max_end I l = max_end I k.
Proof.
  induction 1 as [|x l k _ IH|x y l|l k m _ IH1 _ IH2]; cbn; [done| | |congruence].
  - fold (max_end I l) (max_end I k). by rewrite IH.
  - fold (max_end I l). lia.
Qed.
End Final.

(** How often an order sets a location counter: once for each range of a section that has it,
    and once more when it comes after all ranges. *)
Definition setting_times {P : SectionPlatform} (os : OutputSections) (location_counters : list LocationCounter) (idx : Z) : nat :=
  (cover (section_infos os) idx + match location_counters with [] => 0 | _ => within (last_end (section_infos os), Z.of_nat (length location_counters)) idx end)%nat.

(** C5. The order of an ELF file without program headers in its script has each output section
    but the unmapped one, once, whether built in or defined by a script, primary or secondary.
    Each location counter is set as often as ranges of sections contain it, and those after all
    ranges are set once at the end. *)
Theorem elf_order_complete (a : Alignment) (os : OutputSections (P := elf)) rosegment location_counters es segs :
  elf_table a (section_infos os) -> elf_output_order (SP := elf_segments a) os rosegment location_counters = Ok (es, segs) ->
  section_ids es ≡ₚ seqZ 1 (Z.of_nat (length (section_infos os)) - 1) /\
  forall idx, times idx (counter_ids es) = setting_times os location_counters idx.
Proof.
  intros HT. unfold elf_output_order. destruct (classify_all (section_infos os)) as [[custom sec]| |] eqn:Ec; cbn [mbind res_bind]; [|done|done].
  set (I := mkOrderInput _ os rosegment sec _ false location_counters). apply classify_spec in Ec.
  destruct (add_sections I (elf_sections custom) (new_builder I)) as [b| |] eqn:Ea; cbn [mbind res_bind]; [|done|done]. intros Hb.
  destruct (add_sections_places _ _ _ _ Ea) as (secs & Hm & Hs & Hc). destruct (build_ids _ _ _ _ Hb) as [Hs' Hc'].
  { apply Hc. split; [done|]. unfold new_builder. cbn. by destruct (last location_counters). }
  assert (section_ids es ≡ₚ seqZ 1 (Z.of_nat (length (section_infos os)) - 1)) as Hp.
  { rewrite Hs', Hs. cbn [new_builder events section_ids omap list_omap app]. rewrite (placed_perm I _ _ Hm). apply (all_sections a (section_infos os) (custom, sec) HT Ec). }
  split; [done|]. intros idx. rewrite Hc', times_app. unfold setting_times, trailing.
  destruct (table_start a (section_infos os) HT) as (info0 & H0 & Hl0).
  assert (0 :: section_ids es ≡ₚ seqZ 0 (Z.of_nat (length (section_infos os)))) as Hp0.
  { rewrite Hp, (seqZ_cons 0) by (apply lookup_lt_Some in H0; lia). done. }
  assert (counters_at I 0 = [] /\ end_at I 0 = 0) as [HC0 HE0].
  { unfold counters_at, end_at, output_info, index. cbn [I order_sections]. rewrite decide_True by done. change (Z.to_nat 0) with O. rewrite H0. unfold info_counters, range_of. by rewrite Hl0. }
  f_equal.
  - transitivity (times idx ((0 :: section_ids es) ≫= counters_at I)).
    + cbn [mbind list_bind]. by rewrite HC0.
    + rewrite (times_perm _ _ _ (bind_Permutation _ _ _ Hp0)), (all_counters I) by done. cbn [I order_sections]. by rewrite firstn_all.
  - assert (max_end I (section_ids es) = last_end (section_infos os)) as ->.
    { transitivity (max_end I (seqZ 0 (Z.of_nat (length (section_infos os))))); [|rewrite (all_ends I) by done; cbn [I order_sections]; by rewrite firstn_all].
      rewrite <- (max_end_perm I _ _ Hp0). cbn. fold (max_end I (section_ids es)).
      rewrite HE0. pose proof (max_end_nonneg I (section_ids es)). lia. }
    cbn [location_counters_in I]. destruct location_counters as [|lc lcs]; [done|]. destruct (last (lc :: lcs)) eqn:El; [|by apply last_None in El].
    rewrite times_seqZ. f_equal. f_equal. lia.
Qed.

(** C4. While the order of an ELF file places an output section, or a secondary section of it,
    exactly those segments are active that belong there: one for each segment definition that
    includes the primary section.  In particular exactly one load segment is active, with the
    permissions of the section, if the section is allocated, and none if it is not.  At the
    end no segment is active. *)
Theorem elf_sections_in_segments (a : Alignment) (os : OutputSections (P := elf)) rosegment location_counters es segs :
  elf_table a (section_infos os) -> is_partial_link os = false -> elf_output_order (SP := elf_segments a) os rosegment location_counters = Ok (es, segs) ->
  active es [] = [] /\
  Forall (fun pl => exists owner info defs, section_infos os !! Z.to_nat owner = Some info /\ merge_target info = None /\
    (pl.1 = owner \/ merges_into (section_infos os) owner pl.1) /\
    Forall2 (seg_is (SP := elf_segments a) segs) pl.2 defs /\
    defs ≡ₚ List.filter (fun def => elf_should_include_section a def info owner rosegment) PROGRAM_SEGMENT_DEFS /\
    List.filter segment_loadable defs =
      if contains (attr_flags (attributes info)) SHF_ALLOC then
        [mkSegmentDef PT_LOAD (PF_R + (if contains (attr_flags (attributes info)) SHF_WRITE then PF_W else 0) + (if load_exec (attr_flags (attributes info)) rosegment then PF_X else 0))]
      else []) (placements es []).
Proof.
  intros HT Hp. unfold elf_output_order. destruct (classify_all (section_infos os)) as [[custom sec]| |] eqn:Ec; cbn [mbind res_bind]; [|done|done].
  set (I := mkOrderInput _ os rosegment sec _ false location_counters). apply classify_spec in Ec.
  destruct (add_sections I (elf_sections custom) (new_builder I)) as [b| |] eqn:Ea; cbn [mbind res_bind]; [|done|done]. intros Hb.
  pose proof (fun id => elf_sections_primary a _ _ _ id HT Ec) as Hprim. cbn [fst] in Hprim.
  destruct (order_placed I (elf_sections custom) b es segs eq_refl Hp) as (owners & Ho & HF & Hact); [|done|done|].
  { apply Forall_forall. intros s [H1 (info & Hi & Hm)]%Hprim. exists info. split; [|done]. unfold output_info, index. rewrite decide_True by lia. cbn. by rewrite Hi. }
  split; [done|]. apply Forall_forall. intros pl Hpl. apply list_elem_of_lookup in Hpl as [k Hk].
  destruct (Forall2_lookup_l _ _ _ _ _ HF Hk) as ([sid owner] & Hown & Hsid & info & defs & Hi & Hd & Hids). cbn [fst snd] in *.
  assert (owner ∈ elf_sections custom /\ (sid = owner \/ merges_into (section_infos os) owner sid)) as [Hin Hs].
  { destruct (owned_spec I (elf_sections custom) owners sid owner) as [Hin Hw]; [done|by eapply list_elem_of_lookup_2|]. split; [done|].
    apply elem_of_cons in Hw as [->|Hx]; [by left|right]. cbn [I secondary] in Hx. destruct (sec !! Z.to_nat owner) as [l0|] eqn:El; cbn [default] in Hx; [|by apply elem_of_nil in Hx].
    apply (classified_secondary _ _ _ Ec _ _ El) in Hx. rewrite Z2Nat.id in Hx by (apply Hprim in Hin; lia). done. }
  apply Hprim in Hin as [H1 (info' & Hi' & Hm)]. unfold output_info, index in Hi. rewrite decide_True in Hi by lia. cbn in Hi. rewrite Hi' in Hi. injection Hi as <-.
  exists owner, info', defs. rewrite Hsid. split_and!; try done.
  pose proof (one_load_segment a info' owner rosegment) as H.
  assert (List.filter segment_loadable defs ≡ₚ List.filter segment_loadable (List.filter (fun def => elf_should_include_section a def info' owner rosegment) PROGRAM_SEGMENT_DEFS)) as Hf by (by apply filter_perm).
  rewrite H in Hf. destruct (contains _ SHF_ALLOC); [symmetry in Hf; by apply Permutation_length_1_inv in Hf|by apply Permutation_nil_r in Hf].
Qed.

(** ** Scripts *)
Module Example.
Import ScriptSections.Example.
#[local] Existing Instance elf.
#[local] Existing Instance VersionScript.Example.names.

Definition address : Alignment := mkAlignment 3.
#[local] Instance order_segments : SegmentPlatform := elf_segments address.

Definition table : OutputSections := mkOutputSections (Number 0x400000) (built_in_section_infos address) ∅ false.

(** The scripts that are read, with all their location counters, and the table. *)
Definition with_scripts (scripts : list (list SectionCommand)) : list ProcessedLinkerScript * OutputSections :=
  match process_linker_scripts args (map (fun commands => [CommandSections commands]) scripts) (builder, table) with
  | Ok (ps, (_, os)) => (ps, os)
  | _ => ([], table)
  end.

Definition counters (scripts : list (list SectionCommand)) : list LocationCounter := concat (map processed_counters (with_scripts scripts).1).

Definition sections (scripts : list (list SectionCommand)) : OutputSections := (with_scripts scripts).2.

Definition order (scripts : list (list SectionCommand)) : list (OrderEvent (Expression := Expression)) * list ProgramSegmentDef :=
  match elf_output_order (sections scripts) true (counters scripts) with Ok r => r | _ => ([], []) end.

(** [. = 0x10000; .text : { *(.text); . = . + 4; *(.text.hot) } . = . + 16; .extra : { *(.extra) } . = . + 32;] *)
Definition commands : list SectionCommand :=
  [SectionSetLocation (Number 0x10000); section ".text" [pattern ".text"; ContentsSetLocation (step 4); pattern ".text.hot"]; SectionSetLocation (step 16);
   section ".extra" [pattern ".extra"]; SectionSetLocation (step 32)]%string.

(** [. = 0x1000; a = .; . = 0x2000; b = .; .text : { *(.text) }] *)
Definition leading_commands : list SectionCommand :=
  [SectionSetLocation (Number 0x1000); SectionSymbolAssignment (txt "a") Expressions.LocationCounter; SectionSetLocation (Number 0x2000);
   SectionSymbolAssignment (txt "b") Expressions.LocationCounter; section ".text" [pattern ".text"]]%string.

(** [. = 0x1000; .text : { *(.text) } . = 0x3000; a = .;] *)
Definition first_commands : list SectionCommand :=
  [SectionSetLocation (Number 0x1000); section ".text" [pattern ".text"]; SectionSetLocation (Number 0x3000);
   SectionSymbolAssignment (txt "a") Expressions.LocationCounter]%string.

(** [.extra : { *(.extra) }] *)
Definition second_commands : list SectionCommand := [section ".extra" [pattern ".extra"]]%string.

(** The names of the symbols of scripts and where they are. *)
Definition symbol_places (scripts : list (list SectionCommand)) : list (list Z * option SymbolLoc) :=
  map (fun y => (def_name (script_def y), match placement (script_def y) with RedirectPlacement r => Some (redirect_loc r) | _ => None end))
    (concat (map processed_symbols (with_scripts scripts).1)).

(** *** Tables that are well formed, by computation *)
#[local] Instance section_kind_eq_dec : EqDecision SectionKind.
Proof. solve_decision. Defined.

Definition entry_ok (infos : list SectionOutputInfo) (k : nat) (info : SectionOutputInfo) : bool :=
  match SECTION_DEFINITIONS address !! k with Some d => bool_decide (kind info = details_kind d) | None => true end &&
  match kind info with
  | Primary _ => true
  | Secondary p => (0 <? p) && match infos !! Z.to_nat p with Some info' => match kind info' with Primary _ => true | Secondary _ => false end | None => false end
  end.

Definition table_ok (infos : list SectionOutputInfo) : bool :=
  (49 <=? Z.of_nat (length infos)) && forallb (fun e => entry_ok infos e.1 e.2) (enumerate infos) &&
  match infos with info :: _ => match location_info info with None => true | Some _ => false end | [] => false end.

Lemma table_ok_elf infos : table_ok infos = true -> elf_table address infos.
Proof.
  unfold table_ok. rewrite !andb_true_iff, Z.leb_le, forallb_forall. intros [[Hl He] H0].
  assert (forall k info, infos !! k = Some info -> entry_ok infos k info = true) as Hk.
  { intros k info Hi. apply (He (k, info)), list_elem_of_In, (list_elem_of_lookup_2 _ k), lookup_enumerate. eauto. }
  split; [lia| | |].
  - intros k info d Hi Hd. apply Hk, andb_true_iff in Hi as [Hi _]. rewrite Hd in Hi. by apply bool_decide_eq_true_1 in Hi.
  - intros k info p Hi Hp. apply Hk, andb_true_iff in Hi as [_ Hi]. rewrite Hp, andb_true_iff, Z.ltb_lt in Hi. destruct Hi as [H1 Hi]. split; [done|].
    destruct (infos !! Z.to_nat p) as [info'|]; [|done]. exists info'. split; [done|]. unfold merge_target. by destruct (kind info').
  - intros info Hi. destruct infos as [|info0 infos]; [done|]. injection Hi as <-. by destruct (location_info info0).
Qed.

Lemma table_is_elf : elf_table address (section_infos (sections [commands])).
Proof. apply table_ok_elf. by vm_compute. Qed.

Lemma counters_of_commands : counter_ids (order [commands]).1 = [1; 2; 3] /\ length (section_infos (sections [commands])) = 52%nat.
Proof. by vm_compute. Qed.
End Example.

#[local] Existing Instance elf.

Lemma elf_order_complete_witness :
  section_ids (Example.order [Example.commands]).1 ≡ₚ seqZ 1 51 /\
  forall idx, times idx (counter_ids (Example.order [Example.commands]).1) = setting_times (Example.sections [Example.commands]) (Example.counters [Example.commands]) idx.
Proof.
  apply (elf_order_complete Example.address (Example.sections [Example.commands]) true (Example.counters [Example.commands]) (Example.order [Example.commands]).1 (Example.order [Example.commands]).2).
  - apply Example.table_is_elf.
  - by vm_compute.
Defined.

Lemma elf_sections_in_segments_witness : active (Example.order [Example.commands]).1 [] = [].
Proof.
  apply (elf_sections_in_segments Example.address (Example.sections [Example.commands]) true (Example.counters [Example.commands]) (Example.order [Example.commands]).1 (Example.order [Example.commands]).2).
  - apply Example.table_is_elf.
  - done.
  - by vm_compute.
Defined.

(** Of two location assignments before the first section, the second is never evaluated as a
    location counter: the symbol [b] after it is at location counter 1, which no event sets. *)
Lemma second_leading_location_unset :
  Example.symbol_places [Example.leading_commands] = [(txt "a", Some (Layout.LocationCounter 0 None)); (txt "b", Some (Layout.LocationCounter 1 None))] /\
  counter_ids (Example.order [Example.leading_commands]).1 = [].
Proof. by vm_compute. Qed.

(** A location assignment after the last section of a first script is never evaluated when a
    second script follows, and the symbol after it is at a location counter without value. *)
Lemma last_location_of_first_script_unset :
  Example.symbol_places [Example.first_commands; Example.second_commands] = [(txt "a", Some (Layout.LocationCounter 1 None))] /\
  counter_ids (Example.order [Example.first_commands]).1 = [1] /\ counter_ids (Example.order [Example.first_commands; Example.second_commands]).1 = [].
Proof. by vm_compute. Qed.
